(* ===== verification/_CoqProject ===== *)
-Q . S2P
Prelude.v
GoStrings.v
GoRegexp.v
Decimals.v
Semver.v
GoText.v
Pep440.v
MavenVersion.v
Versions.v
NpmRange.v
ToolSemver.v
Reference.v
Inventory.v
Triage.v
GoTime.v
Evidence.v
EvidenceFile.v
Report.v
Build.v
State.v
Retag.v
Compute.v
Diff.v
Bpf.v
Seccomp.v
Generation.v
Session.v
SensorInv.v
SensorEvol.v
SensorSpec.v
PySpec.v
PyMarker.v
PyCore.v
NodeCore.v
ImageTag.v
TagSeries.v
Compare.v
Adopt.v
Declared.v
Plan.v
Planner.v
PlannerInv.v
PlannerSpec.v
PlannerWork.v
NewerSeries.v
NewerSpec.v
PRTypes.v
PRKeys.v
PRMarker.v
PRUnits.v
PRStore.v
PRStage.v
PRSpec.v
PRExample.v
