(* ===== verification/Prelude.v ===== *)
(** * KestreLynx: a verification development

    KestreLynx scans the images that run in Docker or Kubernetes, reports what
    is vulnerable in them, prioritizes and mutes the findings, tells what
    changed since the last cycle, plans the updates that would resolve them and
    opens the pull requests that make them; a separate daemon, the
    Sensor, watches the containers and publishes evidence of which packages are
    in use. This library models the decisions of
    that program, the code under src/internal, as executable functions on
    immutable data and proves what makes them right.

    ** The parts and how they interact

    A cycle is a composition: the inventory of running images ([Inventory],
    [Reference]) is scanned (outside the model); [Build.Build] aggregates the
    findings into a [Report.Report], rating each one ([Triage.priorityOf]) and
    attaching the Sensor's verdicts ([Evidence.ProjectGroup] over
    [Evidence.JudgeOSPackage] and its companions, on a snapshot
    [EvidenceFile.validateSnapshot] accepted); [Report.ApplyMuting] mutes;
    [Compute.Compute] compares the report with the persisted state ([State]),
    after [Retag.carryOverRefChanges] has moved the history of references that
    replaced one another, and gives the diff and the next state. The remediation
    planner compares versions through one dispatch ([Versions.compareVersions])
    over three schemes ([Semver], [Pep440], [MavenVersion]) and reads npm ranges
    ([NpmRange]); the runtime tools it fetches have a second, independent reader
    of the same ranges ([ToolSemver]). For the image itself it classifies the
    running tag ([ImageTag.ParseImageRef]), reads the tags of the same series
    from the registry ([TagSeries.listPinnedSeries]), compares a scan of the
    running image with one of the candidate ([Compare.Compare],
    [Compare.ApplyCoverage]) and decides whether the update is proposed
    ([Adopt.SelectTargets], [Adopt.Decide]). [Planner.plan_images] composes
    these into one pass over the running images, with its caches, limits and
    halts ([Plan] holds its data, [Declared] what a Kubernetes definition says of
    an image); [NewerSeries.check_newer_series] goes on with the run of that pass
    and asks whether a newer series would resolve what the own series does not.
    The runtimes of an image are matched with their advisories
    ([PyCore.Augment], [NodeCore.Augment]) before its scan is used; for Python
    dependencies the specifiers ([PySpec]) and environment markers ([PyMarker])
    say which interpreters and platforms a requirement applies to.
    [PRUnits.buildComposeUnits] groups the items of a plan into units, one per
    Compose file and reference, and [PRStage.Run] turns the units into pull
    requests: it loads the records of earlier cycles ([PRStore], [PRTypes]),
    settles them against GitHub, where a pull request is recognized by its keys
    ([PRKeys]) and the marker in its body ([PRMarker]), opens new ones within
    the limits and closes those they replace. On the other side of the evidence
    file, the Sensor's loop folds samples, kernel events and database lookups into the
    state of each container generation ([Generation], [Session]) and publishes
    it ([Generation.toEvidence]); its two processes confine themselves with
    seccomp filters ([Seccomp]) assembled by hand ([Bpf]).

    ** Files

    - [Prelude]: comparisons, record update, sorting, the order of map
      iteration, generic lemmas, the hint databases [cmp] and [kl].
    - [GoStrings], [GoText], [GoRegexp], [GoTime]: what the code uses of Go's
      strings, regexp and time packages.
    - [Decimals], [Semver], [Pep440], [MavenVersion], [Versions], [NpmRange]:
      internal/remediation/version.go, version_maven.go, lang_range.go.
    - [ImageTag], [TagSeries], [Compare], [Adopt]: internal/remediation
      (tag.go, tag_series.go, compare.go, adopt.go), the registry's answers of
      internal/registry/tags.go and the scan conditions of
      internal/scanner/conditions.go.
    - [PySpec], [PyMarker]: the specifiers and requirement strings of
      lang_match.go, lang_pip.go, lang_range.go, lock_pip.go; lang_marker.go.
    - [PyCore], [NodeCore]: internal/pycore and internal/nodecore.
    - [Declared], [Plan], [Planner], [NewerSeries]: kube_plan.go, plan.go with
      candidate.go, planner.go and newer_series.go of internal/remediation;
      [PlannerInv] and [PlannerSpec] hold the rules and invariants of a pass and
      its properties, [PlannerWork] what a pass really asks of the registry and
      the scanner, [NewerSpec] the properties of the check of newer series.
    - [PRTypes], [PRKeys], [PRMarker], [PRStore], [PRUnits], [PRStage]: pr_types.go,
      pr_keys.go with pr_language_keys.go, pr_marker.go, pr_store.go, pr_units.go,
      and pr_stage.go with pr_reconcile.go and pr_replace.go. [PRSpec] runs the
      stage in a world that keeps the history of its acts and states what the
      stage may do; [PRExample] evaluates one cycle and has the witnesses.
    - [ToolSemver]: internal/toolfetch/semver.go.
    - [Reference], [Inventory]: internal/inventory.
    - [Triage], [Report], [Build]: internal/analyze (triage.go, runtime.go,
      analyze.go) with the scan results of internal/scanner/scanner.go.
    - [Evidence], [EvidenceFile]: internal/evidence.
    - [State], [Retag], [Compute], [Diff]: internal/state (state.go, retag.go).
    - [Bpf], [Seccomp]: internal/sensor/sandbox.
    - [Generation], [Session], [SensorInv], [SensorEvol], [SensorSpec]:
      internal/sensor (generation.go, session.go, events.go); the last three
      hold the loop as a step relation, its invariants and the properties.

    A definition has the name of the function, type or constant it models
    wherever Rocq allows it; a method [(T).m] is [T_m] or [m]; the fields of a
    struct carry a prefix of their own. A loop is a fold, or a Fixpoint of its
    own when it has early exits. A function that changes a struct in place
    returns the new value; where it changes two things (a generation and the
    channel of jobs) it returns both.

    ** What the theorems show

    - Orders: every version scheme is a total preorder on what it accepts, the
      dispatch never compares across schemes, and the three agree on plain
      dotted numbers; both range readers decide the same ranges.
    - Round trips: references, digests, workload and container keys, the
      trailer of the evidence file, and a whole snapshot: what the Sensor
      writes is read back unchanged, but for rejected files with names that are
      not valid text.
    - Updates: a tag is pinned exactly when it is the text of a version; the
      tags of a series are read completely from any registry that lists in
      order, within the allowance, and the walk ends against any registry; the
      targets are the fixable findings; a comparison claims of each pair what
      the two scans show; and an update is proposed exactly when they justify
      it.
    - The planner: every image with a fixable finding gets one item, in the
      order of urgency; what is proposed stands on two scans of the pass under
      equal conditions, in a tag of the image's own series; a halted pass asks
      the registry nothing; the scans are numbered in order and every one an item
      names is one of the plan's; a pass ends. The check of newer series changes
      nothing but its own verdict, which is as well founded: it looks at the
      newest tags of a complete listing. Both share one set of limits, on the
      pages requested and the scans made, which the run counts truly.
    - Python and runtimes: markers have a grammar, from their bytes to their
      value, and what is decided of one where the environment is known only in
      part holds in every environment that agrees with that part, if the full
      Python version is compared with plainly written versions only; a CPython is
      matched with exactly the records whose ranges hold its version, a record is
      read completely or refused, and the fixed version shown for a CPython is
      not affected by what it is said to fix. The one shown for a Node.js is the
      highest of the single fixes, and not affected by those whose lines stay
      patched.
    - Pull requests: a unit changes a reference only when every running
      container it would affect has the same adopted candidate, and what it
      claims to fix is resolved for each of them; an attempt's key identifies the
      update, the base and the change; a marker is read back as it was written.
      Of the stage: every request that changes GitHub directly follows a saved
      intent and is directly followed by saving its result, and what was read
      just before justifies it (a branch is created at the recorded commit, a
      pull request is opened only while base, branch and candidate are as
      recorded and none of the branch's pull requests, read to the last page, is
      of this branch, an old one is closed only while it and its successor are
      open and unchanged); nothing is sent after an outcome that is unknown, a limit
      or a failed save, nor for a unit that is held; no more pull requests are
      opened than the limit allows; every saved file is one the next cycle loads,
      with its log in sequence, unless the numbers of the log ran out at 2^63;
      and without the lock or readable records GitHub is neither read nor
      written.
    - Reports: [Build] is exactly the set of findings of the scans, whatever
      their order; muting is all or nothing and changes nothing but its marks;
      more evidence never lowers a priority.
    - The diff: every finding is accounted for, a failed scan never resolves
      anything, an unchanged report announces nothing, and history moves one to
      one.
    - The Sensor: a reachable generation is published in a form its reader
      accepts; "not observed" is only said when nothing is lost, queued or
      pending; evidence is never withdrawn; memory is bounded; queues drain;
      the retry schedule of a rejected file is the documented one; an
      outstanding failure keeps the index from being ready.
    - The sandbox: the assembler preserves the meaning of a labelled program,
      what it emits passes the kernel's checks and terminates, and the two
      filters decide exactly the policies written beside them, on both
      architectures.

    ** Bounds and fuel

    Machine integers are kept at their width where overflow matters: [int64]
    durations and version numbers wrap, [uint32] instruction words and 8-bit
    jump distances are reduced. EPSS scores and ages are binary64. The
    numbers of the log of the records wrap ([PRStage.append_event]); the counters
    of a pass and of the Sensor's events are unbounded.
    Fuel appears where Go loops on a shrinking input and is always large
    enough: a repetition of a regular expression gets the length of the rest of
    the string (each round consumes a byte), [find_all] one more than the length,
    printing a number one more than its binary logarithm, intersecting sorted
    lists the sum of their lengths, the caret loop the number of components,
    running a filter its number of instructions, which
    [Bpf.assembled_terminates] proves enough, and walking a series one more than
    the requests still allowed, which [TagSeries.listPinnedSeries_returns]
    proves enough. The planner's operations return [None] only when such a walk
    does, which [PlannerSpec.plan_images_returns] excludes. Reading the tokens of
    a marker gets its length and parsing them the number left, with the code's
    own limit on nested parentheses; rewriting a range of the Node.js index and
    squeezing the dots of a branch name get the length of the text; a listing of
    GitHub gets the code's own limit on pages. The stage needs no other fuel.

    ** Parameters and idealizations

    A range over a Go map has an unspecified order: [MapRange] gives one, and
    the theorems hold for every instance. Unicode case folding ([GoUnicode]),
    SHA-256, JSON, the quoting of [%q] ([GoQuote]), the registry behind
    [TagSeries.TagPager], the numbers of golang.org/x/sys/unix ([BpfABI],
    [Unix]) are parameters with the properties the code relies on. So are the
    decoded feeds ([PyFeeds], [NodeFeeds]), the hashes of keys and git objects
    ([GoHash]), the JSON of markers ([MarkerJSON] with its laws), the files of
    the records ([PRStore.Files]), the registry, scanner and contexts of the
    planner ([Planner.World]), and GitHub, the edit of a Compose file and the text
    of a body ([PRStage.GitHub], [PRStage.ComposeEdits]). What the services answer
    may depend on a state of their own that every call may change. The builds a
    plan starts from (readComposeBuilds) are an argument. Of the GitHub client
    the theorems on the stage assume one thing, [PRSpec.exists_apart]: an error
    that says a branch exists is none of the errors that say the outcome is
    unknown or that a limit was reached. The clock is read once
    per operation. Defensive copies are identities, since the model shares
    nothing. Error values carry what distinguishes them, not their text; log
    lines are not modelled.

    ** Not modelled

    Running external programs and talking to services (Trivy, container
    registries, GitHub, Kubernetes, Docker, feeds, Slack, mail): their results
    are arguments. With them the clients themselves, downloads and their caches,
    the reading of blog posts, and the workers that run package managers: HTTP,
    processes and files, with little that is decided here.

    The planners of dependency files and Dockerfiles (lang_graph.go, lang_chain.go,
    lang_planner.go, dockerfile_planner.go) and the editors they end in (lock
    files, manifests, Compose, Helm and Kustomize files): they work on documents
    of YAML, JSON, TOML and XML libraries that are not part of the repository,
    and on the answers of package managers; what they decide with versions,
    ranges, specifiers and markers is modelled. For the same reason the part of
    newer_series.go for the base images of Dockerfiles, the units of a pull
    request for other than Compose files with the chains of Kubernetes managers
    in kube_plan.go, and the report of base updates that are not deployed yet.

    The annotation of a finished report with exposures
    (internal/analyze/runtime_exposure.go) and what it fills in for display; the
    verdicts it attaches are modelled.
    The texts of notifications and of pull request bodies, whose correctness
    is how they read. Decoding the configuration, the commands and the runner of a
    cycle, which pass results along. In the Sensor the reading of /proc and of
    package databases, discovery, the routing of kernel events to generations,
    the parser process and the writing of the file, which depend on the kernel
    and on goroutines; what each message does to a generation is modelled. The
    experiments are measurement programs beside the product. The manifest of
    components lists each with its files. *)

From Stdlib Require Import ZArith Lia Bool Ascii String List Permutation.
From Stdlib Require Import Sorting.Sorted.
From stdpp Require Import base gmap strings list sorting.

Declare Scope kl_scope.
Delimit Scope kl_scope with kl.
Open Scope kl_scope.

(** Go compares with [-1], [0] and [1]; the model uses [comparison], and [-c]
    is [CompOpp c].  [lexc c d] is the Go idiom [if c != 0 { return c }; return d]. *)
Definition lexc (c d : comparison) : comparison :=
  match c with Eq => d | _ => c end.

Notation "c '<?>' d" := (lexc c d) (at level 60, right associativity) : kl_scope.

(** What a three-way comparison promises to its callers: it is a total
    preorder. Every version scheme and sort of the program is proved to be an
    instance. *)
Class CmpOrder {A : Type} (cmp : A → A → comparison) : Prop := {
  cmp_antisym : ∀ x y, cmp y x = CompOpp (cmp x y);
  cmp_le_trans : ∀ x y z, cmp x y ≠ Gt → cmp y z ≠ Gt → cmp x z ≠ Gt;
}.
Arguments cmp_antisym {A} cmp {_} x y.
Arguments cmp_le_trans {A} cmp {_} x y z.

(** A comparison whose [Eq] is equality of the data. *)
Class CmpEq {A : Type} (cmp : A → A → comparison) : Prop :=
  cmp_eq_eq : ∀ x y, cmp x y = Eq → x = y.

Definition bool_cmp (x y : bool) : comparison :=
  match x, y with
  | false, true => Lt
  | true, false => Gt
  | _, _ => Eq
  end.

(** Comparison through a key, one after the other, and by a case split on a
    predicate that puts the elements satisfying it first. *)
Definition cmp_on {A B : Type} (f : A → B) (cmp : B → B → comparison) (x y : A) : comparison :=
  cmp (f x) (f y).

Definition cmp_then {A : Type} (c d : A → A → comparison) (x y : A) : comparison :=
  c x y <?> d x y.

Definition cmp_flip {A : Type} (c : A → A → comparison) (x y : A) : comparison := c y x.

Definition cmp_split {A : Type} (p : A → bool) (c d : A → A → comparison) (x y : A) : comparison :=
  match p x, p y with
  | true, true => c x y
  | true, false => Lt
  | false, true => Gt
  | false, false => d x y
  end.

#[export] Typeclasses Opaque cmp_on cmp_then cmp_flip cmp_split.

Fixpoint list_cmp {A : Type} (cmp : A → A → comparison) (l k : list A) : comparison :=
  match l, k with
  | [], [] => Eq
  | [], _ :: _ => Lt
  | _ :: _, [] => Gt
  | x :: l', y :: k' => cmp x y <?> list_cmp cmp l' k'
  end.

(** Comparison position by position over a fixed number of positions, a
    missing element counting as [d]. *)
Fixpoint pad_cmp {A : Type} (d : A) (cmp : A → A → comparison) (n : nat) (l k : list A) : comparison :=
  match n with
  | O => Eq
  | S n' => cmp (hd d l) (hd d k) <?> pad_cmp d cmp n' (tl l) (tl k)
  end.

(** [sort.Slice(l, less)]: the model of Go's sort, by insertion. The lemmas
    below show that for a strict weak order the result is a sorted
    permutation, and that it is the only one when ties are equal elements, so
    nothing depends on the algorithm. *)
Fixpoint insert_by {A : Type} (less : A → A → bool) (x : A) (l : list A) : list A :=
  match l with
  | [] => [x]
  | y :: l' => if less y x then y :: insert_by less x l' else x :: y :: l'
  end.

Fixpoint sort_by {A : Type} (less : A → A → bool) (l : list A) : list A :=
  match l with
  | [] => []
  | x :: l' => insert_by less x (sort_by less l')
  end.

Definition is_lt (c : comparison) : bool := match c with Lt => true | _ => false end.

Definition less_of {A : Type} (cmp : A → A → comparison) (x y : A) : bool :=
  match cmp x y with Lt => true | _ => false end.

(** [sort.Strings] *)
Definition str_cmp : string → string → comparison := String.compare.
Definition str_lt (a b : string) : bool := less_of str_cmp a b.
Definition sort_strings (l : list string) : list string := sort_by str_lt l.

(** Go's [int] on the supported platforms and [int64]: 64-bit two's
    complement, wrapping. *)
Definition int64_wrap (z : Z) : Z := ((z + 2 ^ 63) mod 2 ^ 64 - 2 ^ 63)%Z.
Definition int64_ok (z : Z) : Prop := (- 2 ^ 63 <= z < 2 ^ 63)%Z.

(** [for k, v := range m]: Go visits a map in an unspecified order. A model
    that ranges over a map takes the order as an instance of this class; the
    only thing it may rely on is that every entry is visited exactly once. *)
Class MapRange := {
  map_range : ∀ (K : Type) (EK : EqDecision K) (CK : @Countable K EK) (V : Type),
    gmap K V → list (K * V);
  map_range_perm : ∀ K EK CK V (m : @gmap K EK CK V), map_range K EK CK V m ≡ₚ map_to_list m;
}.
Arguments map_range {_ K EK CK V} m.
Arguments map_range_perm {_ K EK CK V} m.

Instance map_range_default : MapRange :=
  {| map_range := λ K EK CK V m, map_to_list m;
     map_range_perm := λ K EK CK V m, Permutation_refl _ |}.

(** [for k := range m] on a [map[K]bool] used as a set. *)
Definition set_range `{MapRange} `{Countable K} (s : gset K) : list K :=
  (map_range (gset_to_gmap tt s)).*1.

(** ** Record update

    [r <| field := v |>] for a record whose eta expansion is declared as an
    [Eta] instance; the update of each field is found by abstracting the
    field's projection from the expansion. *)

Class Eta (R : Type) := eta : R → R.

Class Upd {R T : Type} (field : R → T) := upd : (T → T) → R → R.
Arguments upd {R T} field {_} f r.

Ltac solve_upd :=
  match goal with
  | |- @Upd ?R ?T ?field =>
      let e := eval cbv delta [eta] in (@eta R _) in
      let e := match e with ?i => eval red in i end in
      match eval pattern field in e with
      | ?updater _ => exact (λ f, updater (λ r, f (field r)))
      end
  end.

#[export] Hint Extern 0 (Upd _) => solve_upd : typeclass_instances.

Notation "r '<|' field ':=' v '|>'" := (upd field (λ _, v) r)
  (at level 12, left associativity) : kl_scope.
(** ** Automation *)

Create HintDb cmp.
Create Rewrite HintDb kl.

Ltac simplify_cmp :=
  repeat match goal with
  | H : context [CompOpp ?c] |- _ => destruct c eqn:?; simpl in H
  | |- context [CompOpp ?c] => destruct c eqn:?; simpl
  end.

(** ** Three-way comparisons *)

Section cmp_order.
Context {A : Type} (cmp : A → A → comparison) `{!CmpOrder cmp}.

Lemma cmp_refl x : cmp x x = Eq.
Proof. pose proof (cmp_antisym cmp x x) as H. destruct (cmp x x); simpl in H; congruence. Qed.

Lemma cmp_gt_lt x y : cmp x y = Gt ↔ cmp y x = Lt.
Proof. rewrite (cmp_antisym cmp x y). destruct (cmp x y); simpl; naive_solver. Qed.

Lemma cmp_eq_sym x y : cmp x y = Eq → cmp y x = Eq.
Proof. rewrite (cmp_antisym cmp x y). by intros ->. Qed.

Lemma cmp_lt_le_trans x y z : cmp x y = Lt → cmp y z ≠ Gt → cmp x z = Lt.
Proof.
  intros Hxy Hyz. destruct (cmp x z) eqn:Hxz; [|done|].
  - exfalso. apply (cmp_le_trans cmp y z x Hyz); [by rewrite (cmp_antisym cmp x z), Hxz|].
    by rewrite (cmp_antisym cmp x y), Hxy.
  - exfalso. apply (cmp_le_trans cmp y z x Hyz); [by rewrite (cmp_antisym cmp x z), Hxz|].
    by rewrite (cmp_antisym cmp x y), Hxy.
Qed.

Lemma cmp_le_lt_trans x y z : cmp x y ≠ Gt → cmp y z = Lt → cmp x z = Lt.
Proof.
  intros Hxy Hyz. apply cmp_gt_lt. rewrite (cmp_antisym cmp x z).
  destruct (cmp x z) eqn:Hxz; simpl; [exfalso|done|exfalso].
  - apply (cmp_le_trans cmp z x y); [by rewrite (cmp_antisym cmp x z), Hxz|done|].
    by rewrite (cmp_antisym cmp y z), Hyz.
  - apply (cmp_le_trans cmp z x y); [by rewrite (cmp_antisym cmp x z), Hxz|done|].
    by rewrite (cmp_antisym cmp y z), Hyz.
Qed.

Lemma cmp_lt_trans x y z : cmp x y = Lt → cmp y z = Lt → cmp x z = Lt.
Proof. intros Hxy Hyz. apply (cmp_lt_le_trans x y z); [done|by rewrite Hyz]. Qed.

Lemma cmp_eq_l x y z : cmp x y = Eq → cmp x z = cmp y z.
Proof.
  intros Hxy. destruct (cmp y z) eqn:Hyz.
  - destruct (cmp x z) eqn:Hxz; [done| |]; exfalso.
    + assert (cmp z y = Eq) by by apply cmp_eq_sym.
      assert (cmp x y = Lt) by (apply (cmp_lt_le_trans x z y); congruence). congruence.
    + apply (cmp_le_trans cmp x y z); congruence.
  - apply (cmp_le_lt_trans x y z); congruence.
  - apply cmp_gt_lt in Hyz. apply cmp_gt_lt.
    apply (cmp_lt_le_trans z y x); [done|]. by rewrite (cmp_eq_sym _ _ Hxy).
Qed.

Lemma cmp_eq_r x y z : cmp y z = Eq → cmp x y = cmp x z.
Proof.
  intros H. rewrite (cmp_antisym cmp y x), (cmp_antisym cmp z x).
  by rewrite (cmp_eq_l y z x H).
Qed.

End cmp_order.

Lemma lexc_assoc a b c : ((a <?> b) <?> c) = (a <?> (b <?> c)).
Proof. by destruct a. Qed.

Lemma lexc_opp c d : CompOpp (c <?> d) = (CompOpp c <?> CompOpp d).
Proof. by destruct c. Qed.

Lemma lexc_eq c d : (c <?> d) = Eq ↔ c = Eq ∧ d = Eq.
Proof. destruct c, d; simpl; naive_solver. Qed.

Lemma lexc_not_gt c d : (c <?> d) ≠ Gt ↔ c = Lt ∨ (c = Eq ∧ d ≠ Gt).
Proof. destruct c, d; simpl; naive_solver. Qed.

#[export] Instance cmp_then_order {A} (c d : A → A → comparison) :
  CmpOrder c → CmpOrder d → CmpOrder (cmp_then c d).
Proof.
  intros Hc Hd. split; unfold cmp_then.
  - intros x y. by rewrite lexc_opp, <- (cmp_antisym c), <- (cmp_antisym d).
  - intros x y z. rewrite !lexc_not_gt.
    intros [Hxy|[Hxy Hxy']] [Hyz|[Hyz Hyz']].
    + left. eapply cmp_lt_trans; eauto.
    + left. rewrite <- (cmp_eq_r c x y z); eauto.
    + left. rewrite (cmp_eq_l c x y z); eauto.
    + right. split; [by rewrite (cmp_eq_l c x y z)|]. by apply (cmp_le_trans d x y z).
Qed.

#[export] Instance cmp_on_order {A B} (f : A → B) (c : B → B → comparison) :
  CmpOrder c → CmpOrder (cmp_on f c).
Proof.
  intros Hc. split; unfold cmp_on; intros.
  - apply (cmp_antisym c).
  - by apply (cmp_le_trans c (f x) (f y) (f z)).
Qed.

#[export] Instance cmp_flip_order {A} (c : A → A → comparison) : CmpOrder c → CmpOrder (cmp_flip c).
Proof.
  intros Hc. split; unfold cmp_flip; intros.
  - apply (cmp_antisym c).
  - by apply (cmp_le_trans c z y x).
Qed.

#[export] Instance cmp_split_order {A} (p : A → bool) (c d : A → A → comparison) :
  CmpOrder c → CmpOrder d → CmpOrder (cmp_split p c d).
Proof.
  intros Hc Hd. split; unfold cmp_split.
  - intros x y. destruct (p x), (p y); simpl; try done; [apply (cmp_antisym c)|apply (cmp_antisym d)].
  - intros x y z. destruct (p x), (p y), (p z); try done; [apply (cmp_le_trans c)|apply (cmp_le_trans d)].
Qed.

#[export] Instance nat_cmp_order : CmpOrder Nat.compare.
Proof.
  split; intros.
  - apply Nat.compare_antisym.
  - rewrite !Nat.compare_gt_iff in *. lia.
Qed.

#[export] Instance Z_cmp_order : CmpOrder Z.compare.
Proof.
  split; intros.
  - apply Z.compare_antisym.
  - rewrite Z.compare_le_iff in *. lia.
Qed.

#[export] Instance bool_cmp_order : CmpOrder bool_cmp.
Proof. split; [by intros [] []|by intros [] [] []]. Qed.

#[export] Instance ascii_cmp_order : CmpOrder Ascii.compare.
Proof.
  split; intros.
  - apply Ascii.compare_antisym.
  - unfold Ascii.compare in *. rewrite N.compare_le_iff in *. lia.
Qed.

#[export] Instance list_cmp_order {A} (c : A → A → comparison) : CmpOrder c → CmpOrder (list_cmp c).
Proof.
  intros Hc. split.
  - intros l. induction l as [|x l IH]; intros [|y k]; simpl; try done.
    by rewrite lexc_opp, <- IH, <- (cmp_antisym c).
  - intros l. induction l as [|x l IH]; intros [|y k] [|z m]; simpl; try done.
    rewrite !lexc_not_gt.
    intros [Hxy|[Hxy Hxy']] [Hyz|[Hyz Hyz']].
    + left. eapply cmp_lt_trans; eauto.
    + left. rewrite <- (cmp_eq_r c x y z); eauto.
    + left. rewrite (cmp_eq_l c x y z); eauto.
    + right. split; [by rewrite (cmp_eq_l c x y z)|]. by apply (IH k m).
Qed.

#[export] Instance pad_cmp_order {A} (d : A) (c : A → A → comparison) n :
  CmpOrder c → CmpOrder (pad_cmp d c n).
Proof.
  intros Hc. induction n as [|n IH]; [by split|].
  apply (cmp_then_order (cmp_on (hd d) c) (cmp_on tl (pad_cmp d c n))); by apply cmp_on_order.
Qed.

Lemma list_cmp_eq {A} (c : A → A → comparison) `{!CmpEq c} l k : list_cmp c l k = Eq → l = k.
Proof.
  revert k. induction l as [|x l IH]; intros [|y k]; simpl; try done.
  rewrite lexc_eq. intros [->%cmp_eq_eq ->%IH]. done.
Qed.

#[export] Instance list_cmp_cmp_eq {A} (c : A → A → comparison) : CmpEq c → CmpEq (list_cmp c).
Proof. intros ? l k. by apply list_cmp_eq. Qed.

#[export] Instance nat_cmp_eq : CmpEq Nat.compare.
Proof. intros x y. apply Nat.compare_eq. Qed.

#[export] Instance Z_cmp_eq : CmpEq Z.compare.
Proof. intros x y. apply Z.compare_eq. Qed.

#[export] Instance str_cmp_eq : CmpEq str_cmp.
Proof. intros x y. apply String.compare_eq_iff. Qed.

Lemma str_cmp_list a b :
  str_cmp a b = list_cmp Ascii.compare (String.list_ascii_of_string a) (String.list_ascii_of_string b).
Proof.
  unfold str_cmp. revert b. induction a as [|c a IH]; intros [|d b]; simpl; try done.
  rewrite IH. by destruct (Ascii.compare c d).
Qed.

#[export] Instance str_cmp_order : CmpOrder str_cmp.
Proof.
  destruct (list_cmp_order Ascii.compare _) as [Ha Ht].
  split; intros *; rewrite !str_cmp_list; [apply Ha|apply Ht].
Qed.

Lemma str_cmp_refl s : str_cmp s s = Eq.
Proof. apply (cmp_refl str_cmp). Qed.

Lemma str_lt_irrefl s : str_lt s s = false.
Proof. unfold str_lt, less_of. by rewrite str_cmp_refl. Qed.

(** ** Sorting *)

Section sorting.
Context {A : Type} (less : A → A → bool).

Lemma insert_by_perm x l : insert_by less x l ≡ₚ x :: l.
Proof.
  induction l as [|y l IH]; simpl; [done|]. destruct (less y x); [|done].
  rewrite IH. constructor.
Qed.

Lemma sort_by_perm l : sort_by less l ≡ₚ l.
Proof. induction l as [|x l IH]; simpl; [done|]. by rewrite insert_by_perm, IH. Qed.

Lemma elem_of_sort_by x l : x ∈ sort_by less l ↔ x ∈ l.
Proof. by rewrite sort_by_perm. Qed.

Lemma length_sort_by l : length (sort_by less l) = length l.
Proof. by rewrite sort_by_perm. Qed.

Lemma NoDup_sort_by l : NoDup (sort_by less l) ↔ NoDup l.
Proof. by rewrite sort_by_perm. Qed.

(** [less] is a strict weak order. *)
Class StrictWeak : Prop := {
  sw_asym : ∀ x y, less x y = true → less y x = false;
  sw_trans : ∀ x y z, less y x = false → less z y = false → less z x = false;
}.

Definition sorted_by : list A → Prop := StronglySorted (λ x y, less y x = false).

Lemma sort_by_sorted `{!StrictWeak} l : sorted_by (sort_by less l).
Proof.
  induction l as [|x l IH]; simpl; [constructor|].
  generalize dependent (sort_by less l). intros k Hk.
  induction k as [|y k IHk]; simpl; [by repeat constructor|].
  inversion_clear Hk as [|?? Hk' Hy]. destruct (less y x) eqn:Hyx.
  - constructor; [by apply IHk|]. rewrite insert_by_perm. constructor; [|done].
    by apply sw_asym.
  - constructor; [by constructor|]. constructor; [done|].
    eapply Forall_impl; [exact Hy|]. intros z Hz. simpl in *. by apply (sw_trans x y z).
Qed.

(** A sorted permutation is unique when ties are equal. *)
Lemma sorted_by_unique l k :
  (∀ x y, x ∈ l → y ∈ l → less x y = false → less y x = false → x = y) →
  sorted_by l → sorted_by k → l ≡ₚ k → l = k.
Proof.
  revert k. induction l as [|x l IH]; intros k Htie Hl Hk Hp.
  { symmetry. by apply Permutation_nil_r. }
  destruct k as [|y k]; [symmetry in Hp; by apply Permutation_nil_cons in Hp|].
  inversion_clear Hl as [|?? Hl' Hx]. inversion_clear Hk as [|?? Hk' Hy].
  assert (x = y) as ->.
  { assert (Hyin : y ∈ x :: l) by (rewrite Hp; set_solver).
    assert (Hxin : x ∈ y :: k) by (rewrite <- Hp; set_solver).
    apply elem_of_cons in Hyin as [->|Hyin]; [done|].
    apply elem_of_cons in Hxin as [->|Hxin]; [done|].
    apply Htie; [set_solver..| |].
    - rewrite Forall_forall in Hy. by apply Hy.
    - rewrite Forall_forall in Hx. by apply Hx. }
  f_equal. apply IH; [set_solver|done..|]. by apply Permutation_cons_inv in Hp.
Qed.

Lemma sort_by_unique `{!StrictWeak} l k :
  (∀ x y, x ∈ l → y ∈ l → less x y = false → less y x = false → x = y) →
  l ≡ₚ k → sort_by less l = sort_by less k.
Proof.
  intros Htie Hp. apply sorted_by_unique; auto using sort_by_sorted.
  - intros x y. rewrite !elem_of_sort_by. auto.
  - by rewrite !sort_by_perm.
Qed.

Lemma sort_by_id l : sorted_by l → sort_by less l = l.
Proof.
  induction 1 as [|x l _ IH Hx]; simpl; [done|]. rewrite IH.
  destruct l as [|y l]; simpl; [done|]. inversion_clear Hx. by rewrite H.
Qed.

End sorting.
Arguments StrictWeak {A} less.

#[export] Instance less_of_strict_weak {A} (cmp : A → A → comparison) :
  CmpOrder cmp → StrictWeak (less_of cmp).
Proof.
  intros H. split; unfold less_of.
  - intros x y. rewrite (cmp_antisym cmp x y). by destruct (cmp x y).
  - intros x y z Hyx Hzy. destruct (cmp z x) eqn:Hzx; [done| |done].
    assert (cmp x y ≠ Gt) as Hxy. { rewrite (cmp_antisym cmp y x). by destruct (cmp y x). }
    assert (cmp y z ≠ Gt) as Hyz. { rewrite (cmp_antisym cmp z y). by destruct (cmp z y). }
    exfalso. apply (cmp_le_trans cmp x y z Hxy Hyz). rewrite (cmp_antisym cmp z x). by rewrite Hzx.
Qed.

Lemma less_of_tie {A} (cmp : A → A → comparison) `{!CmpOrder cmp, !CmpEq cmp} x y :
  less_of cmp x y = false → less_of cmp y x = false → x = y.
Proof.
  unfold less_of. rewrite (cmp_antisym cmp x y).
  destruct (cmp x y) eqn:Hc; simpl; try done. intros _ _. by apply cmp_eq_eq.
Qed.

#[export] Instance str_lt_strict_weak : StrictWeak str_lt.
Proof. apply (less_of_strict_weak str_cmp _). Qed.

(** One step of a Go comparison function: [if a != b { return a < b }]. *)
Lemma str_step a b (c : comparison) :
  (if negb (String.eqb a b) then str_lt a b else is_lt c) = is_lt (str_cmp a b <?> c).
Proof.
  destruct (String.eqb_spec a b) as [->|Hne]; cbn [negb]; [by rewrite str_cmp_refl|].
  unfold str_lt, less_of. destruct (str_cmp a b) eqn:E; [|done..].
  apply str_cmp_eq in E. done.
Qed.

Lemma str_last a b : str_lt a b = is_lt (str_cmp a b).
Proof. done. Qed.

Lemma nat_step a b (c : comparison) :
  (if negb (a =? b) then a <? b else is_lt c) = is_lt (Nat.compare a b <?> c).
Proof.
  destruct (Nat.compare_spec a b) as [->|Hlt|Hgt]; [by rewrite Nat.eqb_refl|..];
    rewrite (proj2 (Nat.eqb_neq a b)) by lia; cbn [negb lexc is_lt];
    [by apply Nat.ltb_lt|by apply Nat.ltb_ge; lia].
Qed.

(** [if a != b { return a > b }] and [if p != q { return p }] *)
Lemma nat_step_desc a b (c : comparison) :
  (if negb (a =? b) then b <? a else is_lt c) = is_lt (Nat.compare b a <?> c).
Proof. rewrite Nat.eqb_sym. apply nat_step. Qed.

Lemma bool_step_desc p q (c : comparison) :
  (if negb (Bool.eqb p q) then p else is_lt c) = is_lt (bool_cmp q p <?> c).
Proof. by destruct p, q. Qed.

(** Sorting gives the same list for two visits of the same elements, where
    [less] is the order [cmp] on them and only equal ones tie. *)
Lemma sort_by_ext {A} (less less' : A → A → bool) l :
  (∀ x y, x ∈ l → y ∈ l → less x y = less' x y) → sort_by less l = sort_by less' l.
Proof.
  intros Hl. induction l as [|x l IH]; [done|]. cbn [sort_by].
  rewrite <- IH by (intros y z Hy Hz; apply Hl; by right).
  assert (Hin : ∀ y, y ∈ sort_by less l → y ∈ l) by (intros y; by rewrite elem_of_sort_by).
  revert Hin. generalize (sort_by less l). intros k Hin.
  induction k as [|y k IHk]; [done|]. cbn [insert_by].
  rewrite <- (Hl y x); [|right; apply Hin; left|left].
  destruct (less y x); [|done]. f_equal. apply IHk. intros z Hz. apply Hin. by right.
Qed.

Lemma sort_by_cmp_unique {A} (less : A → A → bool) (cmp : A → A → comparison) `{!CmpOrder cmp} l k :
  (∀ x y, x ∈ l → y ∈ l → less x y = less_of cmp x y) →
  (∀ x y, x ∈ l → y ∈ l → cmp x y = Eq → x = y) →
  l ≡ₚ k → sort_by less l = sort_by less k.
Proof.
  intros Hl Htie Hp. rewrite (sort_by_ext less (less_of cmp) l) by done.
  rewrite (sort_by_ext less (less_of cmp) k) by (intros x y; rewrite <- !Hp; apply Hl).
  apply (sort_by_unique _); [|done]. intros x y Hx Hy. unfold less_of.
  rewrite (cmp_antisym cmp x y). destruct (cmp x y) eqn:E; [|done..]. intros _ _. by apply Htie.
Qed.

Lemma sort_strings_perm l k : l ≡ₚ k → sort_strings l = sort_strings k.
Proof. apply (sort_by_unique _). intros x y _ _. apply (less_of_tie str_cmp). Qed.

Lemma elem_of_sort_strings x l : x ∈ sort_strings l ↔ x ∈ l.
Proof. apply elem_of_sort_by. Qed.

Lemma sort_strings_sorted l : sorted_by str_lt (sort_strings l).
Proof. apply (sort_by_sorted _). Qed.

#[export] Hint Rewrite elem_of_sort_strings @elem_of_sort_by : kl.

(** ** Machine integers *)

Lemma int64_wrap_id z : int64_ok z → int64_wrap z = z.
Proof. unfold int64_ok, int64_wrap. intros H. rewrite Z.mod_small; lia. Qed.

(** ** Ranging over a map *)

Section map_range.
Context `{MapRange} `{Countable K} {V : Type}.

Lemma elem_of_map_range (m : gmap K V) k v : (k, v) ∈ map_range m ↔ m !! k = Some v.
Proof. by rewrite map_range_perm, elem_of_map_to_list. Qed.

Lemma NoDup_map_range_keys (m : gmap K V) : NoDup (map_range m).*1.
Proof. rewrite map_range_perm. apply NoDup_fst_map_to_list. Qed.

Lemma elem_of_map_range_keys (m : gmap K V) k : k ∈ (map_range m).*1 ↔ is_Some (m !! k).
Proof.
  rewrite list_elem_of_fmap. split.
  - intros ((k' & v) & -> & Hm%elem_of_map_range). by exists v.
  - intros [v Hv]. exists (k, v). split; [done|]. by apply elem_of_map_range.
Qed.

End map_range.

Lemma elem_of_set_range `{MapRange} `{Countable K} (s : gset K) k : k ∈ set_range s ↔ k ∈ s.
Proof.
  unfold set_range. rewrite elem_of_map_range_keys. split.
  - by intros [v [Hk _]%lookup_gset_to_gmap_Some].
  - intros Hk. exists tt. by apply lookup_gset_to_gmap_Some.
Qed.

Lemma NoDup_set_range `{MapRange} `{Countable K} (s : gset K) : NoDup (set_range s).
Proof. apply NoDup_map_range_keys. Qed.

(** Two visits of the same map are permutations of each other. *)
Lemma map_range_perm2 (R1 R2 : MapRange) `{Countable K} {V} (m : gmap K V) :
  @map_range R1 _ _ _ _ m ≡ₚ @map_range R2 _ _ _ _ m.
Proof. by rewrite !map_range_perm. Qed.

Lemma set_range_perm2 (R1 R2 : MapRange) `{Countable K} (s : gset K) :
  @set_range R1 _ _ _ s ≡ₚ @set_range R2 _ _ _ s.
Proof. unfold set_range. by rewrite (map_range_perm2 R1 R2). Qed.

(** ** Loops

    What a loop leaves in one field [proj] of its state: a map it writes per
    key ([foldl_keys] over a list of keys, [foldl_visit] over a map), or a list
    it appends to ([foldl_log]). *)

Lemma list_to_map_range `{MapRange} `{Countable K} {V} (m : gmap K V) :
  list_to_map (map_range m) = m.
Proof.
  apply map_eq. intros k. apply option_eq. intros v.
  rewrite <- elem_of_list_to_map by apply NoDup_map_range_keys. apply elem_of_map_range.
Qed.

Definition or_else {A} (o p : option A) : option A := match o with Some x => Some x | None => p end.

Section loops.
Context {S : Type} `{Countable K}.

Lemma foldl_keys {W} (step : S → K → S) (proj : S → gmap K W) (f : K → option W) l s k :
  (∀ s k0 k, proj (step s k0) !! k = if decide (k0 = k) then or_else (f k0) (proj s !! k) else proj s !! k) →
  proj (foldl step s l) !! k = if decide (k ∈ l) then or_else (f k) (proj s !! k) else proj s !! k.
Proof.
  intros Hstep. revert s. induction l as [|k0 l IH]; intros s; cbn [foldl].
  { by rewrite decide_False by apply not_elem_of_nil. }
  rewrite IH, !Hstep. destruct (decide (k0 = k)) as [->|Hne].
  - rewrite (decide_True (P := k ∈ k :: l)) by left. destruct (decide (k ∈ l)); [|done]. by destruct (f k).
  - destruct (decide (k ∈ l)) as [Hl|Hl].
    + by rewrite decide_True by by right.
    + rewrite decide_False; [done|]. rewrite elem_of_cons. naive_solver.
Qed.

Lemma foldl_visit {V W} (step : S → K * V → S) (proj : S → gmap K W) (f : K → V → option W) l s k :
  (∀ s k0 v0 k, proj (step s (k0, v0)) !! k =
     if decide (k0 = k) then or_else (f k0 v0) (proj s !! k) else proj s !! k) →
  NoDup l.*1 →
  proj (foldl step s l) !! k = or_else ((list_to_map l : gmap K V) !! k ≫= f k) (proj s !! k).
Proof.
  intros Hstep. revert s. induction l as [|[k0 v0] l IH]; intros s; [done|].
  cbn [fmap list_fmap fst foldl]. intros [Hk0 Hnd]%NoDup_cons. rewrite (IH _ Hnd).
  cbn [list_to_map foldr uncurry fst snd]. rewrite Hstep. destruct (decide (k0 = k)) as [->|Hne].
  - rewrite (not_elem_of_list_to_map_1 _ _ Hk0). cbn [mbind option_bind or_else].
    by rewrite lookup_insert_eq.
  - by rewrite lookup_insert_ne.
Qed.

Lemma foldl_range `{MapRange} {V W} (step : S → K * V → S) (proj : S → gmap K W) (f : K → V → option W)
    (m : gmap K V) s k :
  (∀ s k0 v0 k, proj (step s (k0, v0)) !! k =
     if decide (k0 = k) then or_else (f k0 v0) (proj s !! k) else proj s !! k) →
  proj (foldl step s (map_range m)) !! k = or_else (m !! k ≫= f k) (proj s !! k).
Proof.
  intros Hstep. rewrite (foldl_visit step proj f) by (done || apply NoDup_map_range_keys).
  by rewrite list_to_map_range.
Qed.

Lemma foldl_log {A B} (step : S → A → S) (proj : S → list B) (f : A → list B) l s :
  (∀ s x, proj (step s x) = proj s ++ f x) →
  proj (foldl step s l) = proj s ++ mjoin (f <$> l).
Proof.
  intros Hstep. revert s. induction l as [|x l IH]; intros s; cbn [foldl]; [by rewrite List.app_nil_r|].
  rewrite IH, Hstep. cbn. by rewrite List.app_assoc.
Qed.

Lemma foldl_same {A B} (step : S → A → S) (proj : S → B) l s :
  (∀ s x, proj (step s x) = proj s) → proj (foldl step s l) = proj s.
Proof. intros Hstep. revert s. induction l as [|x l IH]; intros s; [done|]. cbn [foldl]. by rewrite IH. Qed.

End loops.
