(* ===== verification/GoStrings.v ===== *)
(** * Go strings

    A Go string is a sequence of bytes, here Rocq's [string]. This file models
    the operations of the packages [strings], [strconv], [unicode] and
    [unicode/utf8] that the modelled code calls, and proves the lemmas the
    components share about them. The one thing left abstract is the Unicode
    case table ([GoUnicode]): lower-casing is exact on ASCII and a parameter
    on everything else. *)

From Stdlib Require Import ZArith Lia Bool Ascii String List.
From stdpp Require Import base gmap strings list.
From S2P Require Import Prelude.

Open Scope string_scope.
Open Scope nat_scope.
Open Scope list_scope.

Notation slen := String.length.

#[global] Arguments Ascii.eqb : simpl never.
#[global] Arguments String.eqb : simpl never.

(** ** Bytes *)

Definition byte_n (c : ascii) : N := N_of_ascii c.
Definition in_range (lo hi : N) (c : ascii) : bool := ((lo <=? byte_n c) && (byte_n c <=? hi))%N.
Definition is_digit (c : ascii) : bool := in_range 48 57 c.
Definition is_lower (c : ascii) : bool := in_range 97 122 c.
Definition is_upper (c : ascii) : bool := in_range 65 90 c.
Definition is_alnum (c : ascii) : bool := is_digit c || is_lower c || is_upper c.
Definition is_ascii_byte (c : ascii) : bool := (byte_n c <? 128)%N.

Fixpoint sforallb (p : ascii → bool) (s : string) : bool :=
  match s with
  | EmptyString => true
  | String c s' => p c && sforallb p s'
  end.

Fixpoint sexistsb (p : ascii → bool) (s : string) : bool :=
  match s with
  | EmptyString => false
  | String c s' => p c || sexistsb p s'
  end.

Fixpoint smap (f : ascii → ascii) (s : string) : string :=
  match s with
  | EmptyString => EmptyString
  | String c s' => String (f c) (smap f s')
  end.

(** [s[i:]] and [s[:i]] for [i <= len(s)]. *)
Fixpoint sdrop (n : nat) (s : string) : string :=
  match n, s with
  | O, _ => s
  | S n', String _ s' => sdrop n' s'
  | S _, EmptyString => EmptyString
  end.

Fixpoint stake (n : nat) (s : string) : string :=
  match n, s with
  | S n', String c s' => String c (stake n' s')
  | _, _ => EmptyString
  end.

(** ** strings *)

Fixpoint has_prefix (s p : string) : bool :=
  match p, s with
  | EmptyString, _ => true
  | String c p', String d s' => Ascii.eqb d c && has_prefix s' p'
  | String _ _, EmptyString => false
  end.
Definition trim_prefix (s p : string) : string :=
  if has_prefix s p then sdrop (slen p) s else s.
Definition has_suffix (s p : string) : bool :=
  (slen p <=? slen s) && String.eqb (sdrop (slen s - slen p) s) p.
Definition contains_byte (c : ascii) (s : string) : bool := sexistsb (Ascii.eqb c) s.
Definition contains_any (s chars : string) : bool := sexistsb (λ c, contains_byte c chars) s.

(** [strings.IndexByte], [None] for -1. *)
Fixpoint index_byte (s : string) (c : ascii) : option nat :=
  match s with
  | EmptyString => None
  | String d s' => if Ascii.eqb d c then Some 0 else S <$> index_byte s' c
  end.

(** [strings.LastIndexByte], [None] for -1. *)
Fixpoint last_index_byte (s : string) (c : ascii) : option nat :=
  match s with
  | EmptyString => None
  | String d s' =>
      match last_index_byte s' c with
      | Some i => Some (S i)
      | None => if Ascii.eqb d c then Some 0 else None
      end
  end.

(** [strings.TrimLeft(s, "<c>")] *)
Fixpoint trim_left_byte (c : ascii) (s : string) : string :=
  match s with
  | String d s' => if Ascii.eqb d c then trim_left_byte c s' else s
  | EmptyString => EmptyString
  end.

(** [strings.Split(s, "<c>")] for a one-byte separator: never empty. *)
Fixpoint split_byte (c : ascii) (s : string) : list string :=
  match s with
  | EmptyString => [""]
  | String d s' =>
      if Ascii.eqb d c then "" :: split_byte c s'
      else match split_byte c s' with
           | w :: ws => String d w :: ws
           | [] => [String d ""]
           end
  end.

(** [strings.Split(s, "||")]. *)
Fixpoint split_bars (s : string) : list string :=
  match s with
  | String "|" (String "|" s') => "" :: split_bars s'
  | String d s' =>
      match split_bars s' with
      | w :: ws => String d w :: ws
      | [] => [String d ""]
      end
  | EmptyString => [""]
  end.

(** [strings.Join(l, sep)] *)
Definition join (sep : string) (l : list string) : string := String.concat sep l.

(** [strings.ToLower]: the ASCII path of the Go implementation, and the
    Unicode tables as a parameter for a string with other characters. *)
Class GoUnicode := { unicode_to_lower : string → string }.

Instance go_unicode_ascii : GoUnicode := {| unicode_to_lower := λ s, s |}.

Definition lower_byte (c : ascii) : ascii :=
  if is_upper c then ascii_of_N (byte_n c + 32) else c.

Definition to_lower `{GoUnicode} (s : string) : string :=
  if sforallb is_ascii_byte s then smap lower_byte s else unicode_to_lower s.

(** [strings.ToUpper], with the same parameterisation. *)
Class GoUnicodeUpper := { unicode_to_upper : string → string }.

Instance go_unicode_upper_ascii : GoUnicodeUpper := {| unicode_to_upper := λ s, s |}.

Definition upper_byte (c : ascii) : ascii :=
  if is_lower c then ascii_of_N (byte_n c - 32) else c.

Definition to_upper `{GoUnicodeUpper} (s : string) : string :=
  if sforallb is_ascii_byte s then smap upper_byte s else unicode_to_upper s.

(** ** unicode/utf8 *)

(** One decoded rune: its code point, the bytes it was decoded from, and
    whether they are well-formed. An ill-formed byte decodes to U+FFFD and
    has width 1, as [utf8.DecodeRuneInString] has it. *)
Record rune := mk_rune { rune_cp : N; rune_bytes : string; rune_valid : bool }.

Definition cont_bits (c : ascii) : N := N.land (byte_n c) 63.
Definition is_cont (c : ascii) : bool := in_range 128 191 c.
Definition rune_error (c : ascii) : rune := mk_rune 65533 (String c "") false.

Definition second_ok (b0 b1 : ascii) : bool :=
  let n := byte_n b0 in
  if (n =? 224)%N then in_range 160 191 b1
  else if (n =? 237)%N then in_range 128 159 b1
  else if (n =? 240)%N then in_range 144 191 b1
  else if (n =? 244)%N then in_range 128 143 b1
  else is_cont b1.

Definition rune2 (b0 b1 : ascii) : rune :=
  mk_rune (N.land (byte_n b0) 31 * 64 + cont_bits b1) (String b0 (String b1 "")) true.
Definition rune3 (b0 b1 b2 : ascii) : rune :=
  mk_rune ((N.land (byte_n b0) 15 * 64 + cont_bits b1) * 64 + cont_bits b2)
    (String b0 (String b1 (String b2 ""))) true.
Definition rune4 (b0 b1 b2 b3 : ascii) : rune :=
  mk_rune (((N.land (byte_n b0) 7 * 64 + cont_bits b1) * 64 + cont_bits b2) * 64 + cont_bits b3)
    (String b0 (String b1 (String b2 (String b3 "")))) true.

Fixpoint runes (s : string) : list rune :=
  match s with
  | EmptyString => []
  | String b0 s1 =>
      if is_ascii_byte b0 then mk_rune (byte_n b0) (String b0 "") true :: runes s1
      else match s1 with
      | EmptyString => rune_error b0 :: runes s1
      | String b1 s2 =>
          if in_range 194 223 b0 && is_cont b1 then rune2 b0 b1 :: runes s2
          else match s2 with
          | EmptyString => rune_error b0 :: runes s1
          | String b2 s3 =>
              if in_range 224 239 b0 && second_ok b0 b1 && is_cont b2
              then rune3 b0 b1 b2 :: runes s3
              else match s3 with
              | EmptyString => rune_error b0 :: runes s1
              | String b3 s4 =>
                  if in_range 240 244 b0 && second_ok b0 b1 && is_cont b2 && is_cont b3
                  then rune4 b0 b1 b2 b3 :: runes s4
                  else rune_error b0 :: runes s1
              end
          end
      end
  end.

Definition valid_string (s : string) : bool := forallb rune_valid (runes s).

(** [strings.EqualFold] when one of the texts folds to an ASCII one: besides the two cases of a letter,
    the long s folds with s and the Kelvin sign with k. *)
Definition fold_cp (n : N) : N :=
  if ((65 <=? n) && (n <=? 90))%N then (n + 32)%N
  else if (n =? 383)%N then 115%N else if (n =? 8490)%N then 107%N else n.

Definition equal_fold (s t : string) : bool :=
  bool_decide ((λ r, fold_cp (rune_cp r)) <$> runes s = (λ r, fold_cp (rune_cp r)) <$> runes t).

(** [unicode.IsSpace], [unicode.IsControl] *)
Definition is_space_cp (r : N) : bool :=
  (((9 <=? r) && (r <=? 13)) || (r =? 32) || (r =? 133) || (r =? 160) || (r =? 5760)
  || ((8192 <=? r) && (r <=? 8202)) || (r =? 8232) || (r =? 8233) || (r =? 8239)
  || (r =? 8287) || (r =? 12288))%N.
Definition is_control_cp (r : N) : bool := ((r <? 32) || ((127 <=? r) && (r <=? 159)))%N.
Definition rune_space (r : rune) : bool := is_space_cp (rune_cp r).

Definition unrunes (l : list rune) : string := foldr (λ r acc, rune_bytes r +:+ acc) "" l.

(** [strings.TrimSpace] and [strings.Fields], over the decoded runes. *)
Fixpoint drop_spaces (l : list rune) : list rune :=
  match l with
  | r :: l' => if rune_space r then drop_spaces l' else l
  | [] => []
  end.

Fixpoint drop_trailing_spaces (l : list rune) : list rune :=
  match l with
  | [] => []
  | r :: l' =>
      match drop_trailing_spaces l' with
      | [] => if rune_space r then [] else [r]
      | k => r :: k
      end
  end.

Definition trim_space (s : string) : string :=
  unrunes (drop_trailing_spaces (drop_spaces (runes s))).

(** [w] is the field being read, [None] between fields. *)
Fixpoint fields_runes (l : list rune) (w : option string) : list string :=
  match l with
  | [] => match w with Some v => [v] | None => [] end
  | r :: l' =>
      if rune_space r then
        match w with Some v => v :: fields_runes l' None | None => fields_runes l' None end
      else fields_runes l' (Some (default "" w +:+ rune_bytes r))
  end.

Definition fields (s : string) : list string := fields_runes (runes s) None.

(** ** strconv *)

Definition digit_val (c : ascii) : N := (byte_n c - 48)%N.
Definition digit_char (n : N) : ascii := ascii_of_N (n + 48).

(** The value of a string of digits. *)
Fixpoint dec_acc (acc : N) (s : string) : N :=
  match s with
  | EmptyString => acc
  | String c s' => dec_acc (acc * 10 + digit_val c)%N s'
  end.
Definition dec_val (s : string) : N := dec_acc 0 s.

(** [strconv.Atoi]/[ParseInt(s, 10, 64)] of a non-negative decimal without a
    sign; [None] is the error. *)
Definition atoi (s : string) : option Z :=
  if negb (String.eqb s "") && sforallb is_digit s then
    let n := Z.of_N (dec_val s) in
    if (n <? 2 ^ 63)%Z then Some n else None
  else None.

(** [strconv.Itoa] of a non-negative number. *)
Fixpoint itoa_fuel (fuel : nat) (n : N) (acc : string) : string :=
  match fuel with
  | O => acc
  | S f =>
      let acc' := String (digit_char (n mod 10)%N) acc in
      if (n <? 10)%N then acc' else itoa_fuel f (n / 10)%N acc'
  end.
Definition itoa (n : N) : string := itoa_fuel (S (N.to_nat (N.log2 n))) n "".

(** [%d] of an [int]. *)
Definition signed_itoa (z : Z) : string :=
  if (z <? 0)%Z then "-" +:+ itoa (Z.to_N (- z)) else itoa (Z.to_N z).
