(* ===== verification/GoRegexp.v ===== *)
(** * Go regular expressions

    The program's regular expressions are written down as terms of [re], with
    the operators of Go's [regexp] syntax they use, and run by [mt], which
    lists every way to match a prefix of a string, in the order Go prefers
    them (leftmost alternative first, greedy repetition): the first entry is
    the match [regexp] reports. [re_lang] is the language of an expression;
    [re_cap] the same with the text captured by each group; [mt_sound] and
    [mt_complete] relate the matcher to them. *)

From Stdlib Require Import ZArith Lia Bool Ascii String List.
From stdpp Require Import base gmap strings list.
From S2P Require Import Prelude GoStrings.

Open Scope string_scope.
Open Scope nat_scope.
Open Scope list_scope.

Inductive re : Type :=
  | REps
  | RClass (p : ascii → bool)
  | RSeq (r1 r2 : re)
  | RAlt (r1 r2 : re)
  | RStar (r : re)
  | RGroup (n : nat) (r : re).

Definition ROpt (r : re) : re := RAlt r REps.
Definition RPlus (r : re) : re := RSeq r (RStar r).
Definition RChar (c : ascii) : re := RClass (Ascii.eqb c).
Definition RDigit : re := RClass is_digit.
Fixpoint RLit (s : string) : re :=
  match s with
  | EmptyString => REps
  | String c EmptyString => RChar c
  | String c s' => RSeq (RChar c) (RLit s')
  end.
Fixpoint RAlts (l : list re) : re :=
  match l with
  | [] => REps
  | [r] => r
  | r :: l' => RAlt r (RAlts l')
  end.
Fixpoint RSeqs (l : list re) : re :=
  match l with
  | [] => REps
  | [r] => r
  | r :: l' => RSeq r (RSeqs l')
  end.
(** [.]: any character but a newline. *)
Definition RDot : re := RClass (λ c, negb (Ascii.eqb c "010")).
(** [r{0,n}] *)
Fixpoint RUpTo (n : nat) (r : re) : re :=
  match n with
  | O => REps
  | S n' => ROpt (RSeq r (RUpTo n' r))
  end.
(** [r{n}] *)
Fixpoint RRep (n : nat) (r : re) : re :=
  match n with
  | O => REps
  | S n' => RSeq r (RRep n' r)
  end.

(** The groups captured so far, the latest first. *)
Definition caps := list (nat * string).

(** [m[n]] of a submatch result: the last text the group captured, [""] when
    it took no part in the match. *)
Fixpoint group (n : nat) (c : caps) : string :=
  match c with
  | [] => ""
  | (m, s) :: c' => if Nat.eqb m n then s else group n c'
  end.

Section star.
Variable step : string → caps → list (string * caps).

(** Greedy repetition. An iteration that consumes nothing is not repeated. *)
Fixpoint mt_star (fuel : nat) (s : string) (c : caps) : list (string * caps) :=
  match fuel with
  | O => [(s, c)]
  | S f =>
      (step s c ≫= λ '(s', c'), if slen s' <? slen s then mt_star f s' c' else []) ++ [(s, c)]
  end.
End star.

Fixpoint mt (r : re) (s : string) (c : caps) : list (string * caps) :=
  match r with
  | REps => [(s, c)]
  | RClass p =>
      match s with
      | String d s' => if p d then [(s', c)] else []
      | EmptyString => []
      end
  | RSeq r1 r2 => mt r1 s c ≫= λ '(s', c'), mt r2 s' c'
  | RAlt r1 r2 => mt r1 s c ++ mt r2 s c
  | RStar r1 => mt_star (mt r1) (slen s) s c
  | RGroup n r1 => (λ '(s', c'), (s', (n, stake (slen s - slen s') s) :: c')) <$> mt r1 s c
  end.

(** The first match that reaches the end of the text: [^r$]. *)
Fixpoint first_full (l : list (string * caps)) : option caps :=
  match l with
  | [] => None
  | (EmptyString, c) :: _ => Some c
  | _ :: l' => first_full l'
  end.

(** [FindStringSubmatch] and [MatchString] for an expression [^r$]. *)
Definition find_full (r : re) (s : string) : option caps := first_full (mt r s []).
Definition match_full (r : re) (s : string) : bool :=
  match find_full r s with Some _ => true | None => false end.

(** [MatchString] for an unanchored expression. *)
Fixpoint match_in (r : re) (s : string) : bool :=
  match mt r s [] with
  | _ :: _ => true
  | [] => match s with EmptyString => false | String _ s' => match_in r s' end
  end.

(** [FindAllString(s, -1)] for an unanchored expression that matches no empty
    text. *)
Fixpoint find_all_fuel (fuel : nat) (r : re) (s : string) : list string :=
  match fuel with
  | O => []
  | S f =>
      match s with
      | EmptyString => []
      | String _ s' =>
          match mt r s [] with
          | (t, _) :: _ =>
              if slen t <? slen s
              then stake (slen s - slen t) s :: find_all_fuel f r t
              else find_all_fuel f r s'
          | [] => find_all_fuel f r s'
          end
      end
  end.
Definition find_all (r : re) (s : string) : list string := find_all_fuel (S (slen s)) r s.

(** ** The language of an expression *)

Inductive re_lang : re → string → Prop :=
  | lang_eps : re_lang REps ""
  | lang_class p c : p c = true → re_lang (RClass p) (String c "")
  | lang_seq r1 r2 s1 s2 : re_lang r1 s1 → re_lang r2 s2 → re_lang (RSeq r1 r2) (s1 +:+ s2)
  | lang_alt_l r1 r2 s : re_lang r1 s → re_lang (RAlt r1 r2) s
  | lang_alt_r r1 r2 s : re_lang r2 s → re_lang (RAlt r1 r2) s
  | lang_star_nil r : re_lang (RStar r) ""
  | lang_star_cons r s1 s2 : re_lang r s1 → re_lang (RStar r) s2 → re_lang (RStar r) (s1 +:+ s2)
  | lang_group n r s : re_lang r s → re_lang (RGroup n r) s.

(** The same with captures: matching [w] turns the captures [c] into [c']. *)
Inductive re_cap : re → string → caps → caps → Prop :=
  | cap_eps c : re_cap REps "" c c
  | cap_class p d c : p d = true → re_cap (RClass p) (String d "") c c
  | cap_seq r1 r2 s1 s2 c c1 c2 :
      re_cap r1 s1 c c1 → re_cap r2 s2 c1 c2 → re_cap (RSeq r1 r2) (s1 +:+ s2) c c2
  | cap_alt_l r1 r2 s c c' : re_cap r1 s c c' → re_cap (RAlt r1 r2) s c c'
  | cap_alt_r r1 r2 s c c' : re_cap r2 s c c' → re_cap (RAlt r1 r2) s c c'
  | cap_star_nil r c : re_cap (RStar r) "" c c
  | cap_star_cons r s1 s2 c c1 c2 :
      re_cap r s1 c c1 → re_cap (RStar r) s2 c1 c2 → re_cap (RStar r) (s1 +:+ s2) c c2
  | cap_group n r s c c' : re_cap r s c c' → re_cap (RGroup n r) s c ((n, s) :: c').

#[export] Hint Constructors re_lang re_cap : kl.

(** ** Lemmas on strings *)

Lemma app_nil_l s : "" +:+ s = s.
Proof. done. Qed.

Lemma app_cons c s t : String c s +:+ t = String c (s +:+ t).
Proof. done. Qed.

Lemma app_nil_r s : s +:+ "" = s.
Proof. induction s as [|c s IH]; [done|]. by rewrite app_cons, IH. Qed.

Lemma app_assoc_s a b c : (a +:+ b) +:+ c = a +:+ (b +:+ c).
Proof. induction a as [|d a IH]; [done|]. by rewrite !app_cons, IH. Qed.

Lemma slen_app s t : slen (s +:+ t) = slen s + slen t.
Proof. induction s as [|c s IH]; [done|]. rewrite app_cons. simpl. by rewrite IH. Qed.

Lemma slen_cons c s : slen (String c s) = S (slen s).
Proof. done. Qed.

Lemma slen_0 s : slen s = 0 → s = "".
Proof. by destruct s. Qed.

Lemma stake_app s t : stake (slen s) (s +:+ t) = s.
Proof. induction s as [|c s IH]; [by destruct t|]. rewrite app_cons. simpl. by rewrite IH. Qed.

Lemma sdrop_app s t : sdrop (slen s) (s +:+ t) = t.
Proof. induction s as [|c s IH]; [done|]. rewrite app_cons. simpl. by rewrite IH. Qed.

Lemma sdrop_S_app s c t : sdrop (S (slen s)) (s +:+ String c t) = t.
Proof. induction s as [|d s IH]; [done|]. rewrite app_cons. exact IH. Qed.

Lemma app_inj_r s t u : s +:+ u = t +:+ u → s = t.
Proof.
  intros H. assert (Hl : slen s = slen t).
  { apply (f_equal slen) in H. rewrite !slen_app in H. lia. }
  revert t Hl H. induction s as [|c s IH]; intros [|d t] Hl H; simpl in Hl; try lia; [done|].
  rewrite !app_cons in H. injection H as -> H. f_equal. apply IH; [lia|done].
Qed.

Lemma app_inj_l s t u : s +:+ t = s +:+ u → t = u.
Proof. induction s as [|c s IH]; [done|]. rewrite !app_cons. intros [= H]. auto. Qed.

#[export] Hint Rewrite app_nil_l app_nil_r app_cons app_assoc_s slen_app : kl.

(** ** The matcher and the language *)

(** A result of the matcher leaves a suffix, having consumed a word of the
    language. *)
Definition consumed (r : re) (s : string) (c : caps) (s' : string) (c' : caps) : Prop :=
  ∃ w, s = w +:+ s' ∧ re_cap r w c c'.

Lemma re_cap_lang r w c c' : re_cap r w c c' → re_lang r w.
Proof. induction 1; eauto with kl. Qed.

Lemma mt_star_sound r :
  (∀ s c s' c', (s', c') ∈ mt r s c → consumed r s c s' c') →
  ∀ n s c s' c', (s', c') ∈ mt_star (mt r) n s c → consumed (RStar r) s c s' c'.
Proof.
  intros Hr n. induction n as [|n IH]; intros s c s' c'; simpl.
  { intros [= -> ->]%list_elem_of_singleton. exists "". split; [done|constructor]. }
  rewrite elem_of_app, list_elem_of_singleton. intros [H|[= -> ->]].
  2:{ exists "". split; [done|constructor]. }
  apply list_elem_of_bind in H as ([s1 c1] & H & H1).
  destruct (Hr _ _ _ _ H1) as (w1 & -> & Hw1).
  destruct (slen s1 <? slen (w1 +:+ s1)); [|by apply not_elem_of_nil in H].
  destruct (IH _ _ _ _ H) as (w2 & -> & Hw2).
  exists (w1 +:+ w2). split; [by rewrite app_assoc_s|by econstructor].
Qed.

Lemma mt_sound r s c s' c' : (s', c') ∈ mt r s c → consumed r s c s' c'.
Proof.
  revert s c s' c'. induction r as [|p|r1 IH1 r2 IH2|r1 IH1 r2 IH2|r IH|n r IH]; intros s c s' c'; simpl.
  - intros [= -> ->]%list_elem_of_singleton. exists "". split; [done|constructor].
  - destruct s as [|d s]; [by intros ?%not_elem_of_nil|].
    destruct (p d) eqn:Hp; [|by intros ?%not_elem_of_nil].
    intros [= -> ->]%list_elem_of_singleton. exists (String d ""). split; [done|by constructor].
  - intros ([s1 c1] & H & H1)%list_elem_of_bind.
    destruct (IH1 _ _ _ _ H1) as (w1 & -> & ?), (IH2 _ _ _ _ H) as (w2 & -> & ?).
    exists (w1 +:+ w2). split; [by rewrite app_assoc_s|by econstructor].
  - rewrite elem_of_app. intros [H|H].
    + destruct (IH1 _ _ _ _ H) as (w & -> & ?). exists w. eauto with kl.
    + destruct (IH2 _ _ _ _ H) as (w & -> & ?). exists w. eauto with kl.
  - by apply mt_star_sound.
  - intros ([s1 c1] & [= -> ->] & H)%list_elem_of_fmap.
    destruct (IH _ _ _ _ H) as (w & -> & ?). exists w. split; [done|].
    rewrite slen_app, Nat.add_sub, stake_app. by constructor.
Qed.

(** Every word of the language is found. *)
Lemma mt_star_complete r :
  (∀ w s c, re_lang r w → ∃ c', (s, c') ∈ mt r (w +:+ s) c) →
  ∀ w, re_lang (RStar r) w →
  ∀ n s c, slen w ≤ n → ∃ c', (s, c') ∈ mt_star (mt r) n (w +:+ s) c.
Proof.
  intros Hr w Hw. remember (RStar r) as r' eqn:Er. revert Er.
  induction Hw as [| | | | |r0|r0 w1 w2 Hw1 _ Hw2 IH|]; intros [= ->]; intros n s c Hn.
  { exists c. destruct n; simpl; rewrite ?elem_of_app; set_solver. }
  destruct w1 as [|d w1]; [by apply (IH eq_refl)|].
  rewrite slen_app in Hn. simpl in Hn. destruct n as [|n]; [lia|].
  destruct (Hr (String d w1) (w2 +:+ s) c Hw1) as (c1 & H1).
  destruct (IH eq_refl n s c1) as (c2 & H2); [lia|].
  exists c2. rewrite app_assoc_s. cbn [mt_star]. rewrite elem_of_app. left.
  rewrite list_elem_of_bind. exists (w2 +:+ s, c1). split; [|done].
  rewrite (proj2 (Nat.ltb_lt _ _)); [done|]. rewrite (slen_app (String d w1)). simpl. lia.
Qed.

Lemma mt_complete r w s c : re_lang r w → ∃ c', (s, c') ∈ mt r (w +:+ s) c.
Proof.
  revert w s c. induction r as [|p|r1 IH1 r2 IH2|r1 IH1 r2 IH2|r IH|n r IH]; intros w s c Hw.
  - inversion_clear Hw. exists c. set_solver.
  - inversion_clear Hw. exists c. simpl. rewrite H. set_solver.
  - inversion_clear Hw as [| |?? s1 s2 H1 H2| | | | |].
    destruct (IH1 s1 (s2 +:+ s) c H1) as (c1 & ?), (IH2 s2 s c1 H2) as (c2 & ?).
    exists c2. simpl. rewrite list_elem_of_bind. exists (s2 +:+ s, c1). by rewrite app_assoc_s.
  - inversion_clear Hw as [| | |??? H1|??? H2| | |].
    + destruct (IH1 w s c H1) as (c1 & ?). exists c1. simpl. rewrite elem_of_app. auto.
    + destruct (IH2 w s c H2) as (c1 & ?). exists c1. simpl. rewrite elem_of_app. auto.
  - simpl. apply mt_star_complete; [exact IH|done|]. rewrite slen_app. lia.
  - inversion_clear Hw as [| | | | | | |??? H].
    destruct (IH w s c H) as (c1 & ?). eexists. simpl. rewrite list_elem_of_fmap.
    exists (s, c1). split; [done|done].
Qed.

Lemma first_full_Some l c : first_full l = Some c → ("", c) ∈ l.
Proof.
  induction l as [|[[|d s] c'] l IH]; simpl; [done| |].
  - intros [= ->]. left.
  - intros H. right. auto.
Qed.

Lemma first_full_None l c : first_full l = None → ("", c) ∉ l.
Proof.
  induction l as [|[[|d s] c'] l IH]; simpl; [by intros _ ?%not_elem_of_nil|done|].
  intros H. rewrite not_elem_of_cons. split; [done|auto].
Qed.

Lemma find_full_cap r s c : find_full r s = Some c → re_cap r s [] c.
Proof.
  intros H%first_full_Some%mt_sound. destruct H as (w & -> & ?). by rewrite app_nil_r.
Qed.

(** [^r$] matches exactly the words of [r]. *)
Lemma match_full_lang r s : match_full r s = true ↔ re_lang r s.
Proof.
  unfold match_full. split.
  - destruct (find_full r s) as [c|] eqn:H; [|done]. intros _.
    eapply re_cap_lang, find_full_cap, H.
  - intros H. destruct (mt_complete r s "" [] H) as (c & Hc). rewrite app_nil_r in Hc.
    unfold find_full. destruct (first_full _) eqn:E; [done|].
    by apply (first_full_None _ c) in E.
Qed.

Lemma find_full_is_Some r s : re_lang r s → ∃ c, find_full r s = Some c.
Proof.
  rewrite <- match_full_lang. unfold match_full. destruct (find_full r s); [eauto|done].
Qed.

(** ** Inversion of the common shapes *)

Lemma cap_class_star p w c c' :
  re_cap (RStar (RClass p)) w c c' → sforallb p w = true ∧ c' = c.
Proof.
  intros H. remember (RStar (RClass p)) as r eqn:Er.
  induction H as [| | | | | |r0 s1 s2 c c1 c2 H1 _ H2 IH|]; try done.
  injection Er as ->. inversion_clear H1. destruct (IH eq_refl) as [Hs ->].
  simpl. by rewrite H.
Qed.

Lemma lang_class_star p w : sforallb p w = true → re_lang (RStar (RClass p)) w.
Proof.
  induction w as [|d w IH]; simpl; [by constructor|].
  intros [Hd Hw]%andb_prop. apply (lang_star_cons _ (String d "") w); [by constructor|auto].
Qed.

Lemma cap_class_plus p w c c' :
  re_cap (RPlus (RClass p)) w c c' → sforallb p w = true ∧ w ≠ "" ∧ c' = c.
Proof.
  intros H. inversion_clear H as [| |???? ?? ? H1 H2| | | | |]. inversion_clear H1.
  apply cap_class_star in H2 as [Hs ->]. rewrite app_cons. simpl. by rewrite H.
Qed.

Lemma lang_class_plus p w : sforallb p w = true → w ≠ "" → re_lang (RPlus (RClass p)) w.
Proof.
  destruct w as [|d w]; [done|]. simpl. intros [Hd Hw]%andb_prop _.
  apply (lang_seq _ _ (String d "") w); [by constructor|by apply lang_class_star].
Qed.

Lemma cap_char d w c c' : re_cap (RChar d) w c c' → w = String d "" ∧ c' = c.
Proof.
  intros H. inversion_clear H as [|??? He| | | | | |].
  apply Ascii.eqb_eq in He as ->. done.
Qed.

Lemma lang_char d : re_lang (RChar d) (String d "").
Proof. constructor. apply Ascii.eqb_refl. Qed.

Lemma cap_seq_inv r1 r2 w c c' :
  re_cap (RSeq r1 r2) w c c' →
  ∃ s1 s2 c1, w = s1 +:+ s2 ∧ re_cap r1 s1 c c1 ∧ re_cap r2 s2 c1 c'.
Proof. inversion_clear 1. eauto 10. Qed.

Lemma cap_alt_inv r1 r2 w c c' :
  re_cap (RAlt r1 r2) w c c' → re_cap r1 w c c' ∨ re_cap r2 w c c'.
Proof. inversion_clear 1; auto. Qed.

Lemma cap_eps_inv w c c' : re_cap REps w c c' → w = "" ∧ c' = c.
Proof. by inversion_clear 1. Qed.

Lemma cap_group_inv n r w c c' :
  re_cap (RGroup n r) w c c' → ∃ c1, c' = (n, w) :: c1 ∧ re_cap r w c c1.
Proof. inversion_clear 1. eauto. Qed.

Lemma cap_class_inv p w c c' :
  re_cap (RClass p) w c c' → ∃ d, w = String d "" ∧ p d = true ∧ c' = c.
Proof. inversion_clear 1. eauto. Qed.

Fixpoint no_groups (r : re) : bool :=
  match r with
  | REps | RClass _ => true
  | RSeq r1 r2 | RAlt r1 r2 => no_groups r1 && no_groups r2
  | RStar r1 => no_groups r1
  | RGroup _ _ => false
  end.

Lemma cap_no_groups r w c c' : no_groups r = true → re_cap r w c c' → c' = c.
Proof.
  intros Hg H. induction H; simpl in Hg; try apply andb_prop in Hg as [??]; naive_solver.
Qed.

#[export] Hint Resolve lang_class_star lang_class_plus lang_char : kl.

(** Inverts every match in sight; what is left is repetition of something
    other than a class. *)
Ltac re_inv :=
  repeat match goal with
  | H : re_cap (RStar (RClass _)) _ _ _ |- _ =>
      apply cap_class_star in H; destruct H as [? ?]; simplify_eq
  | H : re_cap (RPlus (RClass _)) _ _ _ |- _ =>
      apply cap_class_plus in H; destruct H as (? & ? & ?); simplify_eq
  | H : re_cap (RChar _) _ _ _ |- _ =>
      apply cap_char in H; destruct H as [? ?]; simplify_eq
  | H : re_cap (RClass _) _ _ _ |- _ =>
      apply cap_class_inv in H; destruct H as (? & ? & ? & ?); simplify_eq
  | H : re_cap (RSeq _ _) _ _ _ |- _ =>
      apply cap_seq_inv in H; destruct H as (? & ? & ? & ? & ? & ?); simplify_eq
  | H : re_cap (RAlt _ _) _ _ _ |- _ =>
      apply cap_alt_inv in H; destruct H
  | H : re_cap REps _ _ _ |- _ =>
      apply cap_eps_inv in H; destruct H as [? ?]; simplify_eq
  | H : re_cap (RGroup _ _) _ _ _ |- _ =>
      apply cap_group_inv in H; destruct H as (? & ? & ?); simplify_eq
  end.

(** [excludes p r]: every word of [r] has a character outside [p]. *)
Definition all_bytes : list ascii := (λ n, ascii_of_nat n) <$> seq 0 256.

Fixpoint excludes (p : ascii → bool) (r : re) : bool :=
  match r with
  | REps | RStar _ => false
  | RClass q => forallb (λ c, negb (q c && p c)) all_bytes
  | RSeq r1 r2 => excludes p r1 || excludes p r2
  | RAlt r1 r2 => excludes p r1 && excludes p r2
  | RGroup _ r1 => excludes p r1
  end.

Lemma elem_of_all_bytes c : c ∈ all_bytes.
Proof.
  unfold all_bytes. apply list_elem_of_fmap. exists (nat_of_ascii c).
  rewrite ascii_nat_embedding. split; [done|]. apply elem_of_seq.
  pose proof (nat_ascii_bounded c). lia.
Qed.

Lemma forallb_True {A} (p : A → bool) l : forallb p l = true ↔ Forall (λ x, p x = true) l.
Proof. rewrite forallb_forall, List.Forall_forall. done. Qed.

Lemma sforallb_app p s t : sforallb p (s +:+ t) = sforallb p s && sforallb p t.
Proof. induction s as [|c s IH]; [done|]. rewrite app_cons. simpl. by rewrite IH, andb_assoc. Qed.

Lemma excludes_spec p r w : excludes p r = true → re_lang r w → sforallb p w = false.
Proof.
  intros He H. induction H; cbn [excludes] in He; try done.
  - rewrite forallb_True, Forall_forall in He. specialize (He c (elem_of_all_bytes c)).
    simpl. rewrite H in He. simpl in He. by apply negb_true_iff in He as ->.
  - rewrite sforallb_app. apply orb_true_iff in He as [He|He]; [by rewrite IHre_lang1|].
    rewrite IHre_lang2 by done. apply andb_false_r.
  - apply andb_prop in He as [? ?]; auto.
  - apply andb_prop in He as [? ?]; auto.
  - auto.
Qed.

(** An optional part that cannot match within [p] matches nothing. *)
Lemma cap_opt_excluded p r w c c' :
  excludes p r = true → sforallb p w = true → re_cap (ROpt r) w c c' → w = "" ∧ c' = c.
Proof.
  intros He Hw [H|H]%cap_alt_inv; [|by apply cap_eps_inv].
  apply re_cap_lang, (excludes_spec p) in H; [congruence|done].
Qed.
