(* ===== verification/Decimals.v ===== *)
(** * Decimal strings

    Version numbers are kept as decimal strings without leading zeros, so that
    no component overflows (internal/remediation/version.go and lang_range.go:
    [isDigits], [cmpNum], [trimZeros], [incDecimal]). The lemmas tie them to
    the numbers they denote ([dec_val]): comparison is numeric comparison,
    [trimZeros] keeps the value, [incDecimal] adds one. *)

From Stdlib Require Import ZArith Lia Bool Ascii String List.
From stdpp Require Import base gmap strings list.
From S2P Require Import Prelude GoStrings GoRegexp.

Open Scope string_scope.
Open Scope nat_scope.
Open Scope list_scope.

Definition isDigits (s : string) : bool :=
  if String.eqb s "" then false else sforallb is_digit s.

(** [cmpNum] compares by length, then lexically. *)
Definition cmpNum (a b : string) : comparison :=
  if negb (slen a =? slen b) then
    if slen a <? slen b then Lt else Gt
  else str_cmp a b.

Definition trimZeros (s : string) : string :=
  let t := trim_left_byte "0"%char s in
  if String.eqb t "" then "0" else t.

(** [incDecimal]: the loop runs from the last byte; [None] is the carry out of
    the first one. *)
Fixpoint inc_bytes (s : string) : string * bool :=
  match s with
  | EmptyString => ("", true)
  | String c s' =>
      let '(t, carry) := inc_bytes s' in
      if carry then
        if (byte_n c <? 57)%N then (String (ascii_of_N (byte_n c + 1)) t, false)
        else (String "0" t, true)
      else (String c t, false)
  end.
Definition incDecimal (s : string) : string :=
  let '(t, carry) := inc_bytes s in
  if carry then String "1" t else t.

(** A decimal without leading zeros, the form every component is kept in. *)
Definition canonical (s : string) : bool :=
  isDigits s && (String.eqb s "0" || negb (has_prefix s "0")).

(** ** [cmpNum] is a comparison *)

Lemma cmpNum_alt a b : cmpNum a b = cmp_then (cmp_on slen Nat.compare) str_cmp a b.
Proof.
  unfold cmpNum, cmp_then, cmp_on. destruct (Nat.compare_spec (slen a) (slen b)) as [H|H|H]; simpl.
  - by rewrite H, Nat.eqb_refl.
  - rewrite (proj2 (Nat.eqb_neq _ _)) by lia. by rewrite (proj2 (Nat.ltb_lt _ _)) by lia.
  - rewrite (proj2 (Nat.eqb_neq _ _)) by lia. by rewrite (proj2 (Nat.ltb_ge _ _)) by lia.
Qed.

#[export] Instance cmpNum_order : CmpOrder cmpNum.
Proof.
  destruct (cmp_then_order (cmp_on slen Nat.compare) str_cmp) as [Ha Ht]; try apply _.
  split; intros *; rewrite !cmpNum_alt; [apply Ha|apply Ht].
Qed.

#[export] Instance cmpNum_eq : CmpEq cmpNum.
Proof.
  intros a b. rewrite cmpNum_alt. unfold cmp_then. rewrite lexc_eq. intros [_ H].
  by apply str_cmp_eq.
Qed.

(** ** Digits and their values *)

Lemma is_digit_spec c : is_digit c = true ↔ (48 <= byte_n c <= 57)%N.
Proof. unfold is_digit, in_range. rewrite andb_true_iff, !N.leb_le. done. Qed.

Lemma byte_n_inj c d : byte_n c = byte_n d → c = d.
Proof.
  unfold byte_n. intros H. rewrite <- (ascii_N_embedding c), <- (ascii_N_embedding d). by rewrite H.
Qed.

Lemma byte_n_ascii n : (n < 256)%N → byte_n (ascii_of_N n) = n.
Proof. apply N_ascii_embedding. Qed.

Lemma byte_n_bound c : (byte_n c < 256)%N.
Proof. apply N_ascii_bounded. Qed.

Lemma isDigits_spec s : isDigits s = true ↔ s ≠ "" ∧ sforallb is_digit s = true.
Proof.
  unfold isDigits. destruct (String.eqb_spec s ""); split; [done|naive_solver|auto|naive_solver].
Qed.

Lemma dec_acc_app acc s t : dec_acc acc (s +:+ t) = dec_acc (dec_acc acc s) t.
Proof. revert acc. induction s as [|c s IH]; intros acc; [done|]. rewrite app_cons. simpl. apply IH. Qed.

Lemma dec_acc_val acc s : dec_acc acc s = (acc * 10 ^ N.of_nat (slen s) + dec_val s)%N.
Proof.
  unfold dec_val. revert acc. induction s as [|c s IH]; intros acc; simpl dec_acc.
  - simpl. lia.
  - rewrite (IH (acc * 10 + digit_val c)%N), (IH (0 * 10 + digit_val c)%N).
    rewrite slen_cons, Nat2N.inj_succ, N.pow_succ_r'. lia.
Qed.

Lemma dec_val_cons c s :
  dec_val (String c s) = (digit_val c * 10 ^ N.of_nat (slen s) + dec_val s)%N.
Proof.
  unfold dec_val at 1. simpl. by rewrite dec_acc_val.
Qed.

Lemma dec_val_lt s : sforallb is_digit s = true → (dec_val s < 10 ^ N.of_nat (slen s))%N.
Proof.
  induction s as [|c s IH]; [by vm_compute|]. simpl sforallb.
  intros [Hc%is_digit_spec Hs]%andb_prop. specialize (IH Hs).
  rewrite dec_val_cons, slen_cons, Nat2N.inj_succ, N.pow_succ_r'.
  unfold digit_val. nia.
Qed.

Lemma canonical_digits s : canonical s = true → sforallb is_digit s = true ∧ s ≠ "".
Proof. unfold canonical. rewrite andb_true_iff, isDigits_spec. tauto. Qed.

(** The first digit of a canonical decimal other than "0" is not zero. *)
Lemma canonical_cons c s :
  canonical (String c s) = true →
  (48 <= byte_n c <= 57)%N ∧ sforallb is_digit s = true ∧ (s = "" ∨ (49 <= byte_n c)%N).
Proof.
  unfold canonical. rewrite andb_true_iff, isDigits_spec, orb_true_iff, negb_true_iff.
  cbn [sforallb]. intros [[_ [Hc%is_digit_spec Hs]%andb_prop] H].
  split; [done|]. split; [done|].
  destruct H as [H|H].
  - apply String.eqb_eq in H. injection H as _ ->. by left.
  - right. simpl in H. destruct (Ascii.eqb_spec c "0"%char) as [->|Hn]; [by destruct s|].
    assert (byte_n c ≠ 48%N); [|lia]. intros E. apply Hn, byte_n_inj. by rewrite E.
Qed.

Lemma canonical_lower s : canonical s = true → s ≠ "0" →
  (10 ^ N.of_nat (pred (slen s)) <= dec_val s)%N.
Proof.
  intros H Hs. destruct s as [|c s]; [done|].
  apply canonical_cons in H as (Hc & Hd & H). rewrite dec_val_cons. simpl pred.
  destruct H as [->|H].
  - simpl slen. simpl (N.of_nat 0). rewrite N.pow_0_r. unfold digit_val.
    assert (byte_n c ≠ 48%N); [|lia].
    intros E. apply Hs. f_equal. by apply byte_n_inj.
  - unfold digit_val. nia.
Qed.

(** Equal lengths: lexical order is numeric order. *)
Lemma str_cmp_dec a b :
  slen a = slen b → sforallb is_digit a = true → sforallb is_digit b = true →
  str_cmp a b = N.compare (dec_val a) (dec_val b).
Proof.
  revert b. induction a as [|c a IH]; intros [|d b] Hl Ha Hb; try done.
  rewrite !slen_cons in Hl. simpl in Ha, Hb.
  apply andb_prop in Ha as [Hc%is_digit_spec Ha], Hb as [Hd%is_digit_spec Hb].
  assert (Hl' : slen a = slen b) by lia.
  rewrite !dec_val_cons. pose proof (dec_val_lt a Ha). pose proof (dec_val_lt b Hb).
  rewrite <- Hl' in *. unfold str_cmp. simpl. fold str_cmp.
  unfold Ascii.compare. fold (byte_n c) (byte_n d). unfold digit_val.
  destruct (N.compare_spec (byte_n c) (byte_n d)) as [E|E|E].
  - rewrite (IH b Hl' Ha Hb), E. symmetry.
    destruct (N.compare_spec (dec_val a) (dec_val b));
      [apply N.compare_eq_iff|apply N.compare_lt_iff|apply N.compare_gt_iff]; lia.
  - symmetry. apply N.compare_lt_iff. nia.
  - symmetry. apply N.compare_gt_iff. nia.
Qed.

(** On decimals without leading zeros, [cmpNum] is numeric comparison. *)
Lemma cmpNum_dec a b :
  canonical a = true → canonical b = true → cmpNum a b = N.compare (dec_val a) (dec_val b).
Proof.
  intros Ha Hb. destruct (canonical_digits a Ha) as [Hda Hna], (canonical_digits b Hb) as [Hdb Hnb].
  assert (Hlt : ∀ x y, canonical x = true → canonical y = true → slen x < slen y →
                  (dec_val x < dec_val y)%N).
  { intros x y Hx Hy Hl. destruct (canonical_digits x Hx) as [Hdx Hnx].
    assert (y ≠ "0"). { intros ->. simpl in Hl. destruct x; simpl in *; [done|lia]. }
    pose proof (canonical_lower y Hy H). pose proof (dec_val_lt x Hdx).
    assert ((10 ^ N.of_nat (slen x) <= 10 ^ N.of_nat (pred (slen y)))%N); [|lia].
    apply N.pow_le_mono_r; lia. }
  unfold cmpNum. destruct (Nat.eqb_spec (slen a) (slen b)) as [E|E]; simpl.
  - by apply str_cmp_dec.
  - symmetry. destruct (Nat.ltb_spec (slen a) (slen b)).
    + apply N.compare_lt_iff. by apply Hlt.
    + apply N.compare_gt_iff. apply Hlt; [done..|lia].
Qed.

Lemma canonical_inj a b : canonical a = true → canonical b = true → dec_val a = dec_val b → a = b.
Proof.
  intros Ha Hb E. apply (cmp_eq_eq a b). rewrite cmpNum_dec, E by done. apply N.compare_refl.
Qed.

(** ** [trimZeros] *)

Lemma trim_left_zero_val s : dec_val (trim_left_byte "0"%char s) = dec_val s.
Proof.
  induction s as [|c s IH]; [done|]. simpl.
  destruct (Ascii.eqb_spec c "0"%char) as [->|]; [|done].
  rewrite IH, (dec_val_cons "0"%char). change (digit_val "0"%char) with 0%N. lia.
Qed.

Lemma trimZeros_val s : dec_val (trimZeros s) = dec_val s.
Proof.
  unfold trimZeros. rewrite <- (trim_left_zero_val s).
  destruct (String.eqb_spec (trim_left_byte "0"%char s) "") as [->|]; done.
Qed.

Lemma trimZeros_canonical s : sforallb is_digit s = true → canonical (trimZeros s) = true.
Proof.
  intros H. unfold trimZeros.
  destruct (String.eqb_spec (trim_left_byte "0"%char s) "") as [|Hne]; [done|].
  induction s as [|c s IH]; [done|]. simpl in *. apply andb_prop in H as [Hc Hs].
  destruct (Ascii.eqb_spec c "0"%char) as [->|Hz]; [by apply IH|].
  unfold canonical, isDigits. simpl. rewrite Hc, Hs. simpl.
  rewrite orb_true_iff. right. simpl.
  by rewrite (proj2 (Ascii.eqb_neq _ _) Hz).
Qed.

(** ** [incDecimal] *)

Lemma digit_val_next c :
  is_digit c = true → (byte_n c < 57)%N →
  digit_val (ascii_of_N (byte_n c + 1)) = (digit_val c + 1)%N ∧
  is_digit (ascii_of_N (byte_n c + 1)) = true.
Proof.
  intros Hc%is_digit_spec Hlt. split.
  - unfold digit_val. rewrite byte_n_ascii by lia. lia.
  - apply is_digit_spec. rewrite byte_n_ascii by lia. lia.
Qed.

Lemma inc_bytes_spec s :
  sforallb is_digit s = true →
  let '(t, carry) := inc_bytes s in
  slen t = slen s ∧ sforallb is_digit t = true ∧
  ((if carry then 10 ^ N.of_nat (slen s) else 0) + dec_val t = dec_val s + 1)%N.
Proof.
  induction s as [|c s IH]; [done|]. simpl sforallb. intros [Hc Hs]%andb_prop.
  specialize (IH Hs). simpl inc_bytes. destruct (inc_bytes s) as [t carry].
  destruct IH as (Hl & Ht & Hv). rewrite slen_cons, Nat2N.inj_succ, N.pow_succ_r', dec_val_cons.
  destruct carry.
  - destruct (N.ltb_spec (byte_n c) 57) as [Hlt|Hge].
    + destruct (digit_val_next c Hc Hlt) as [Hv1 Hd1].
      rewrite slen_cons, dec_val_cons, Hv1, Hl. split; [done|].
      split; [simpl; by rewrite Hd1, Ht|]. nia.
    + apply is_digit_spec in Hc. assert (byte_n c = 57%N) as E by lia.
      rewrite slen_cons, dec_val_cons, Hl. split; [done|].
      split; [done|]. change (digit_val "0"%char) with 0%N. unfold digit_val. rewrite E. lia.
  - rewrite slen_cons, dec_val_cons, Hl. split; [done|].
    split; [simpl; by rewrite Hc, Ht|]. lia.
Qed.

(** [incDecimal] adds one, and keeps the canonical form. *)
Lemma incDecimal_digits s :
  sforallb is_digit s = true →
  sforallb is_digit (incDecimal s) = true ∧ dec_val (incDecimal s) = (dec_val s + 1)%N.
Proof.
  intros Hs. pose proof (inc_bytes_spec s Hs) as H. unfold incDecimal.
  destruct (inc_bytes s) as [t carry]. destruct H as (Hl & Ht & Hv). destruct carry.
  - split; [simpl; by rewrite Ht|]. rewrite dec_val_cons, Hl.
    change (digit_val "1"%char) with 1%N. lia.
  - split; [done|lia].
Qed.

Lemma inc_bytes_head c s :
  is_digit c = true → let '(t, carry) := inc_bytes (String c s) in
  if carry then True else ∃ d t', t = String d t' ∧ (byte_n c <= byte_n d)%N.
Proof.
  intros Hc. simpl. destruct (inc_bytes s) as [t [|]].
  - destruct (N.ltb_spec (byte_n c) 57) as [Hlt|]; [|done].
    eexists _, _. split; [done|]. rewrite byte_n_ascii by (apply is_digit_spec in Hc; lia). lia.
  - eexists _, _. split; [done|]. lia.
Qed.

Lemma canonical_intro c s :
  is_digit c = true → sforallb is_digit s = true → (s = "" ∨ (49 <= byte_n c)%N) →
  canonical (String c s) = true.
Proof.
  intros Hc Hs H. unfold canonical, isDigits. simpl. rewrite Hc, Hs. simpl.
  apply orb_true_iff. destruct (N.eq_dec (byte_n c) 48%N) as [E|E].
  - assert (c = "0"%char) as -> by by apply byte_n_inj.
    destruct H as [->|H]; [by left|]. exfalso. vm_compute in H. done.
  - right. simpl. destruct (Ascii.eqb_spec c "0"%char) as [->|]; [by vm_compute in E|done].
Qed.

Lemma incDecimal_canonical s : canonical s = true → canonical (incDecimal s) = true.
Proof.
  intros H. destruct s as [|c s]; [done|].
  pose proof (canonical_cons c s H) as (Hc & Hs & Hz).
  assert (Hcd : is_digit c = true) by by apply is_digit_spec.
  assert (Hds : sforallb is_digit (String c s) = true) by (simpl; by rewrite Hcd, Hs).
  pose proof (inc_bytes_spec _ Hds) as Hspec. pose proof (inc_bytes_head c s Hcd) as Hh.
  unfold incDecimal. destruct (inc_bytes (String c s)) as [t [|]]; destruct Hspec as (Hl & Ht & _).
  - apply canonical_intro; [done|done|]. right. by vm_compute.
  - destruct Hh as (d & t' & -> & Hd). simpl in Ht, Hl. apply andb_prop in Ht as [Hdd Ht].
    apply canonical_intro; [done|done|].
    destruct Hz as [->|Hz]; [left; destruct t'; simpl in Hl; [done|lia]|right; lia].
Qed.

(** ** [itoa] *)

Lemma digit_char_val n : (n < 10)%N → digit_val (digit_char n) = n ∧ is_digit (digit_char n) = true.
Proof.
  intros H. unfold digit_val, digit_char. rewrite is_digit_spec, byte_n_ascii by lia. lia.
Qed.

Lemma itoa_fuel_spec fuel n acc :
  (n < 10 ^ N.of_nat fuel)%N → 0 < fuel →
  sforallb is_digit acc = true →
  ∃ s, itoa_fuel fuel n acc = s +:+ acc ∧ canonical s = true ∧ dec_val s = n.
Proof.
  revert n acc. induction fuel as [|fuel IH]; intros n acc Hn Hf Hacc; [lia|].
  simpl. destruct (N.ltb_spec n 10) as [Hlt|Hge].
  - exists (String (digit_char (n mod 10)) ""). split; [done|].
    rewrite N.mod_small by done. destruct (digit_char_val n Hlt) as [Hv Hd].
    split; [apply canonical_intro; auto|]. rewrite dec_val_cons, Hv. change (dec_val "") with 0%N. simpl slen.
    simpl (N.of_nat 0). rewrite N.pow_0_r. lia.
  - assert (Hmod : (n mod 10 < 10)%N) by (apply N.mod_lt; lia).
    destruct (digit_char_val _ Hmod) as [Hv Hd].
    rewrite Nat2N.inj_succ, N.pow_succ_r' in Hn.
    assert (Hfuel : 0 < fuel). { destruct fuel; [|lia]. simpl in Hn. rewrite N.pow_0_r in Hn. lia. }
    destruct (IH (n / 10)%N (String (digit_char (n mod 10)) acc)) as (s & Hs & Hc & Hval);
      [apply N.Div0.div_lt_upper_bound; lia|done|simpl; by rewrite Hd, Hacc|].
    exists (s +:+ String (digit_char (n mod 10)) ""). rewrite Hs. split; [by rewrite app_assoc_s|].
    pose proof (N.div_mod n 10%N ltac:(lia)) as Hdm.
    split.
    + destruct s as [|c s]; [done|]. rewrite app_cons.
      pose proof (canonical_cons c s Hc) as (Hcc & Hss & Hz).
      apply canonical_intro; [by apply is_digit_spec| |].
      * clear -Hss Hd. induction s as [|e s IH]; [simpl; by rewrite Hd|].
        rewrite app_cons. simpl in *. apply andb_prop in Hss as [-> ?]. auto.
      * right. destruct Hz as [->|]; [|done]. rewrite dec_val_cons in Hval. unfold digit_val in Hval.
        simpl slen in Hval. simpl (N.of_nat 0) in Hval. rewrite N.pow_0_r in Hval.
        change (dec_val "") with 0%N in Hval. assert (1 <= n / 10)%N; [|lia].
        apply N.div_le_lower_bound; lia.
    + unfold dec_val in *. rewrite dec_acc_app. rewrite Hval. simpl. rewrite Hv. lia.
Qed.

Lemma itoa_spec n : canonical (itoa n) = true ∧ dec_val (itoa n) = n.
Proof.
  unfold itoa. destruct (itoa_fuel_spec (S (N.to_nat (N.log2 n))) n "") as (s & -> & Hs & Hv); [|lia|done|].
  - rewrite Nat2N.inj_succ, N2Nat.id. destruct (N.eq_dec n 0%N) as [->|Hn]; [by vm_compute|].
    pose proof (N.log2_spec n ltac:(lia)) as [_ H].
    eapply N.lt_le_trans; [exact H|]. apply N.pow_le_mono_l. lia.
  - by rewrite app_nil_r.
Qed.

(** [cmpNum(strconv.Itoa(x), strconv.Itoa(y))] compares the numbers. *)
Lemma cmpNum_itoa x y : cmpNum (itoa (N.of_nat x)) (itoa (N.of_nat y)) = Nat.compare x y.
Proof.
  destruct (itoa_spec (N.of_nat x)) as [Hx Hxv], (itoa_spec (N.of_nat y)) as [Hy Hyv].
  rewrite cmpNum_dec, Hxv, Hyv by done. symmetry. apply Nat2N.inj_compare.
Qed.

#[export] Hint Resolve trimZeros_canonical incDecimal_canonical : kl.
