(* ===== verification/Semver.v ===== *)
(** * Semantic versions

    internal/remediation/version.go, the semver scheme: [parseSemver] through
    the regular expression [semverRE], and [compare]. [semver_compare] is a
    total order on the parsed form ([semver_compare_order],
    [semver_compare_eq]); [parseSemver] reads back every rendered version. *)

From Stdlib Require Import ZArith Lia Bool Ascii String List.
From stdpp Require Import base gmap strings list.
From S2P Require Import Prelude GoStrings GoRegexp Decimals.

Open Scope string_scope.
Open Scope nat_scope.
Open Scope list_scope.

Record semver := mk_semver {
  sv_major : string; sv_minor : string; sv_patch : string;
  sv_pre : list string
}.

(** [0|[1-9][0-9]*] *)
Definition numRE : re := RAlt (RChar "0"%char) (RSeq (RClass (in_range 49 57)) (RStar RDigit)).
(** [[0-9A-Za-z-]] *)
Definition id_char (c : ascii) : bool := is_alnum c || Ascii.eqb c "-"%char.
(** Dot-separated identifiers, [[0-9A-Za-z-]+] each. *)
Definition idsRE : re :=
  RSeq (RPlus (RClass id_char)) (RStar (RSeq (RChar "."%char) (RPlus (RClass id_char)))).
Definition semverRE : re :=
  RSeqs [RGroup 1 numRE; RChar "."%char; RGroup 2 numRE; RChar "."%char; RGroup 3 numRE;
         ROpt (RSeq (RChar "-"%char) (RGroup 4 idsRE));
         ROpt (RSeq (RChar "+"%char) idsRE)].

(** A numeric identifier with a leading zero. *)
Definition badNumericId (id : string) : bool :=
  isDigits id && (1 <? slen id) && has_prefix id "0".

Definition parseSemver (s : string) : option semver :=
  match find_full semverRE s with
  | None => None
  | Some m =>
      let v := mk_semver (group 1 m) (group 2 m) (group 3 m) [] in
      if negb (String.eqb (group 4 m) "") then
        let pre := split_byte "."%char (group 4 m) in
        if existsb badNumericId pre then None
        else Some (mk_semver (sv_major v) (sv_minor v) (sv_patch v) pre)
      else Some v
  end.

(** One step of the loop over the pre-release identifiers. *)
Definition cmpIdent (x y : string) : comparison :=
  if isDigits x && isDigits y then cmpNum x y
  else if isDigits x then Lt
  else if isDigits y then Gt
  else str_cmp x y.

Fixpoint cmpIdents (a b : list string) : comparison :=
  match a, b with
  | x :: a', y :: b' => cmpIdent x y <?> cmpIdents a' b'
  | _, _ => Eq
  end.

Definition semver_compare (a b : semver) : comparison :=
  cmpNum (sv_major a) (sv_major b) <?>
  cmpNum (sv_minor a) (sv_minor b) <?>
  cmpNum (sv_patch a) (sv_patch b) <?>
  match sv_pre a, sv_pre b with
  | [], [] => Eq
  | [], _ :: _ => Gt
  | _ :: _, [] => Lt
  | _ :: _, _ :: _ =>
      cmpIdents (sv_pre a) (sv_pre b) <?>
      cmpNum (itoa (N.of_nat (length (sv_pre a)))) (itoa (N.of_nat (length (sv_pre b))))
  end.

Definition semver_isPrerelease (a : semver) : bool := 0 <? length (sv_pre a).

(** ** The reference form: what a strict semantic version is, and its text *)

Definition plain_id (id : string) : bool := negb (String.eqb id "") && sforallb id_char id.
Definition valid_id (id : string) : bool := plain_id id && negb (badNumericId id).

Definition semver_ok (v : semver) : bool :=
  canonical (sv_major v) && canonical (sv_minor v) && canonical (sv_patch v) &&
  forallb valid_id (sv_pre v).

Definition build_ok (build : string) : bool :=
  String.eqb build "" || forallb plain_id (split_byte "."%char build).

(** The text of [v] with build metadata [build], [""] for none. *)
Definition semver_render (v : semver) (build : string) : string :=
  sv_major v +:+ "." +:+ sv_minor v +:+ "." +:+ sv_patch v +:+
  (match sv_pre v with [] => "" | pre => "-" +:+ join "." pre end) +:+
  (if String.eqb build "" then "" else "+" +:+ build).

(** ** Comparison *)

Lemma loop_then_length {A} (c : A → A → comparison) loop :
  (∀ a b, loop a b = match a, b with x :: a', y :: b' => c x y <?> loop a' b' | _, _ => Eq end) →
  ∀ a b, (loop a b <?> Nat.compare (length a) (length b)) = list_cmp c a b.
Proof.
  intros Hl a. induction a as [|x a IH]; intros [|y b]; rewrite Hl; simpl; try done.
  by rewrite lexc_assoc, IH.
Qed.

#[export] Instance cmp_split_eq {A} (p : A → bool) (c d : A → A → comparison) :
  CmpEq c → CmpEq d → CmpEq (cmp_split p c d).
Proof. intros Hc Hd x y. unfold cmp_split. destruct (p x), (p y); auto; done. Qed.

Lemma cmpIdent_split x y : cmpIdent x y = cmp_split isDigits cmpNum str_cmp x y.
Proof. unfold cmpIdent, cmp_split. by destruct (isDigits x), (isDigits y). Qed.

#[export] Instance cmpIdent_order : CmpOrder cmpIdent.
Proof.
  destruct (cmp_split_order isDigits cmpNum str_cmp _ _) as [Ha Ht].
  split; intros *; rewrite !cmpIdent_split; [apply Ha|apply Ht].
Qed.

#[export] Instance cmpIdent_eq : CmpEq cmpIdent.
Proof. intros x y. rewrite cmpIdent_split. apply (cmp_split_eq isDigits cmpNum str_cmp _ _). Qed.

Definition no_pre (v : semver) : bool := match sv_pre v with [] => true | _ => false end.

Lemma semver_compare_alt a b :
  semver_compare a b =
  cmp_then (cmp_on sv_major cmpNum) (cmp_then (cmp_on sv_minor cmpNum)
    (cmp_then (cmp_on sv_patch cmpNum)
      (cmp_split (λ v, negb (no_pre v)) (cmp_on sv_pre (list_cmp cmpIdent)) (λ _ _, Eq)))) a b.
Proof.
  unfold semver_compare, cmp_then, cmp_on, cmp_split, no_pre. do 3 f_equal.
  destruct (sv_pre a) as [|x p], (sv_pre b) as [|y q]; cbn [negb]; try done.
  rewrite cmpNum_itoa. apply (loop_then_length cmpIdent cmpIdents). by intros [|? ?] [|? ?].
Qed.

Lemma const_eq_order {A} : CmpOrder (λ _ _ : A, Eq).
Proof. by split. Qed.

#[export] Instance semver_order : CmpOrder semver_compare.
Proof.
  assert (H : CmpOrder (cmp_then (cmp_on sv_major cmpNum) (cmp_then (cmp_on sv_minor cmpNum)
    (cmp_then (cmp_on sv_patch cmpNum)
      (cmp_split (λ v, negb (no_pre v)) (cmp_on sv_pre (list_cmp cmpIdent)) (λ _ _, Eq)))))).
  { pose proof (@const_eq_order semver). apply _. }
  destruct H as [Ha Ht]. split; intros *; rewrite !semver_compare_alt; [apply Ha|apply Ht].
Qed.

#[export] Instance semver_cmp_eq : CmpEq semver_compare.
Proof.
  intros [a1 a2 a3 p] [b1 b2 b3 q]. rewrite semver_compare_alt. unfold cmp_then, cmp_on.
  rewrite !lexc_eq. cbn [sv_major sv_minor sv_patch].
  intros (->%cmp_eq_eq & ->%cmp_eq_eq & ->%cmp_eq_eq & H). f_equal.
  unfold cmp_split, no_pre in H. cbn [sv_pre] in H.
  destruct p as [|x p], q as [|y q]; cbn [negb] in H; try done.
  by apply (list_cmp_eq cmpIdent).
Qed.

(** ** Strings cut at separators *)

Definition starts_not (p : ascii → bool) (s : string) : bool :=
  match s with String d _ => negb (p d) | EmptyString => true end.

Lemma span_unique p w1 w2 r1 r2 :
  sforallb p w1 = true → sforallb p w2 = true →
  starts_not p r1 = true → starts_not p r2 = true →
  w1 +:+ r1 = w2 +:+ r2 → w1 = w2 ∧ r1 = r2.
Proof.
  revert w2. induction w1 as [|c w1 IH]; intros [|d w2]; rewrite ?app_nil_l, ?app_cons; simpl.
  - done.
  - intros _ [Hd _]%andb_prop Hr _ ->. simpl in Hr. by rewrite Hd in Hr.
  - intros [Hc _]%andb_prop _ _ Hr E. rewrite <- E in Hr. simpl in Hr. by rewrite Hc in Hr.
  - intros [_ H1]%andb_prop [_ H2]%andb_prop Hr1 Hr2 [= -> E].
    destruct (IH w2 H1 H2 Hr1 Hr2 E) as [-> ->]. done.
Qed.

Lemma sforallb_impl p q s :
  (∀ c, p c = true → q c = true) → sforallb p s = true → sforallb q s = true.
Proof.
  intros H. induction s as [|c s IH]; [done|]. simpl. rewrite !andb_true_iff. naive_solver.
Qed.

Lemma join_cons2 sep x y l : join sep (x :: y :: l) = x +:+ sep +:+ join sep (y :: l).
Proof. done. Qed.

Lemma split_byte_no c s : sforallb (λ d, negb (Ascii.eqb d c)) s = true → split_byte c s = [s].
Proof.
  induction s as [|d s IH]; [done|]. simpl. intros [Hd Hs]%andb_prop.
  rewrite (IH Hs). destruct (Ascii.eqb d c); done.
Qed.

Lemma split_byte_app c s t :
  sforallb (λ d, negb (Ascii.eqb d c)) s = true →
  split_byte c (s +:+ String c t) = s :: split_byte c t.
Proof.
  induction s as [|d s IH]; simpl.
  - intros _. by rewrite Ascii.eqb_refl.
  - intros [Hd Hs]%andb_prop. rewrite (IH Hs).
    destruct (Ascii.eqb d c); done.
Qed.

(** Splitting undoes joining. *)
Lemma split_join c l :
  l ≠ [] → Forall (λ s, sforallb (λ d, negb (Ascii.eqb d c)) s = true) l →
  split_byte c (join (String c "") l) = l.
Proof.
  intros Hne Hl. induction Hl as [|x l Hx Hl IH]; [done|].
  destruct l as [|y l]; [by apply split_byte_no|].
  rewrite join_cons2. rewrite (app_cons c ""), app_nil_l, split_byte_app by done. by rewrite IH.
Qed.

(** ** Parsing *)

Lemma numRE_canonical w c c' : re_cap numRE w c c' → canonical w = true ∧ c' = c.
Proof.
  intros H. unfold numRE, RDigit in H. re_inv; [done|].
  rename select (in_range 49 57 _ = true) into Hd. rewrite app_cons, app_nil_l.
  unfold in_range in Hd. rewrite andb_true_iff, !N.leb_le in Hd.
  split; [|done]. apply canonical_intro; [apply is_digit_spec; lia|done|right; lia].
Qed.

Lemma lang_numRE w : canonical w = true → re_lang numRE w.
Proof.
  intros H. destruct w as [|c s]; [done|].
  destruct (canonical_cons c s H) as (Hc & Hs & Hz).
  destruct (N.eq_dec (byte_n c) 48%N) as [E|E].
  - assert (c = "0"%char) as -> by by apply byte_n_inj.
    destruct Hz as [->|Hz]; [|vm_compute in Hz; done]. apply lang_alt_l, lang_char.
  - apply lang_alt_r. apply (lang_seq _ _ (String c "") s); [|by apply lang_class_star].
    constructor. unfold in_range. rewrite andb_true_iff, !N.leb_le. lia.
Qed.

Lemma plain_id_spec x : plain_id x = true ↔ sforallb id_char x = true ∧ x ≠ "".
Proof.
  unfold plain_id. rewrite andb_true_iff, negb_true_iff, String.eqb_neq. tauto.
Qed.

Lemma join_cons_fold sep y l : join sep (y :: l) = y +:+ foldr (λ s acc, sep +:+ s +:+ acc) "" l.
Proof.
  revert y. induction l as [|z l IH]; intros y; [by rewrite app_nil_r|].
  by rewrite join_cons2, IH.
Qed.

Lemma cap_dotted w c c' :
  re_cap (RStar (RSeq (RChar "."%char) (RPlus (RClass id_char)))) w c c' →
  ∃ l, w = foldr (λ s acc, "." +:+ s +:+ acc) "" l ∧ Forall (λ x, plain_id x = true) l.
Proof.
  intros H. remember (RStar _) as r eqn:Er.
  induction H as [| | | | | |r0 t1 t2 ? ? ? H1 _ _ IH|]; try done.
  { by exists []. }
  injection Er as ->. destruct (IH eq_refl) as (l & -> & Hl). re_inv.
  eexists (_ :: l). split; [simpl; by rewrite app_assoc_s|]. constructor; [|done].
  by apply plain_id_spec.
Qed.

Lemma idsRE_inv w c c' :
  re_cap idsRE w c c' → ∃ l, l ≠ [] ∧ w = join "." l ∧ Forall (λ x, plain_id x = true) l ∧ c' = c.
Proof.
  intros H. assert (c' = c) as -> by by apply (cap_no_groups idsRE w).
  apply cap_seq_inv in H as (s1 & s2 & c1 & -> & H1 & H2).
  apply cap_dotted in H2 as (l & -> & Hl). re_inv.
  exists (s1 :: l). rewrite join_cons_fold. split; [done|]. split; [done|]. split; [|done].
  constructor; [by apply plain_id_spec|done].
Qed.

Lemma lang_idsRE l :
  l ≠ [] → Forall (λ x, plain_id x = true) l → re_lang idsRE (join "." l).
Proof.
  intros Hne Hl. destruct Hl as [|x l Hx Hl]; [done|]. apply plain_id_spec in Hx as [Hx Hx'].
  rewrite join_cons_fold. constructor; [by apply lang_class_plus|].
  induction Hl as [|y l [Hy Hy']%plain_id_spec Hl IH]; [constructor|]. simpl foldr.
  rewrite <- app_assoc_s. constructor; [|by apply IH].
  constructor; [apply lang_char|by apply lang_class_plus].
Qed.

Lemma plain_id_no_dot x : plain_id x = true → sforallb (λ d, negb (Ascii.eqb d "."%char)) x = true.
Proof.
  intros [H _]%plain_id_spec. eapply sforallb_impl; [|done]. intros c Hc. simpl.
  destruct (Ascii.eqb_spec c "."%char) as [->|]; [by vm_compute in Hc|done].
Qed.

Lemma split_ids l : l ≠ [] → Forall (λ x, plain_id x = true) l → split_byte "."%char (join "." l) = l.
Proof.
  intros Hne Hl. apply split_join; [done|]. eapply Forall_impl; [done|]. apply plain_id_no_dot.
Qed.

Lemma join_ids_ne l : l ≠ [] → Forall (λ x, plain_id x = true) l → join "." l ≠ "".
Proof.
  intros Hne Hl. destruct Hl as [|x l [_ Hx]%plain_id_spec _]; [done|].
  rewrite join_cons_fold. by destruct x.
Qed.

(** The text of the two optional parts. *)
Definition pre_part (pre : list string) : string :=
  match pre with [] => "" | _ => "-" +:+ join "." pre end.
Definition build_part (build : string) : string :=
  if String.eqb build "" then "" else "+" +:+ build.

Lemma semver_render_parts v build :
  semver_render v build =
  sv_major v +:+ "." +:+ sv_minor v +:+ "." +:+ sv_patch v +:+ pre_part (sv_pre v) +:+ build_part build.
Proof. unfold semver_render, pre_part. by destruct (sv_pre v). Qed.

(** What a match of [semverRE] says about the text. *)
Lemma semverRE_inv s m :
  find_full semverRE s = Some m →
  ∃ pre build,
    s = semver_render (mk_semver (group 1 m) (group 2 m) (group 3 m) pre) build ∧
    group 4 m = (match pre with [] => "" | _ => join "." pre end) ∧
    Forall (λ x, plain_id x = true) pre ∧ build_ok build = true ∧
    canonical (group 1 m) = true ∧ canonical (group 2 m) = true ∧ canonical (group 3 m) = true.
Proof.
  intros H%find_full_cap. unfold semverRE in H. cbn [RSeqs] in H.
  unfold ROpt in H. re_inv;
  repeat match goal with
  | H : re_cap numRE _ _ _ |- _ => apply numRE_canonical in H as [? ?]; simplify_eq
  | H : re_cap idsRE _ _ _ |- _ =>
      apply idsRE_inv in H; destruct H as (? & ? & -> & ? & ?); simplify_eq
  end;
  cbn [group Nat.eqb]; setoid_rewrite semver_render_parts; cbn [sv_major sv_minor sv_patch sv_pre].
  all: match goal with
  | |- context [("-" +:+ join "." ?p) +:+ _] => exists p
  | _ => exists []
  end.
  all: match goal with
  | |- context [_ +:+ "+" +:+ join "." ?q] => exists (join "." q)
  | _ => exists ""
  end.
  all: unfold build_part, build_ok, pre_part.
  all: repeat match goal with
  | H : ?l ≠ [], H' : Forall _ ?l |- context [String.eqb (join "." ?l) ""] =>
      rewrite (proj2 (String.eqb_neq _ _) (join_ids_ne l H H')), (split_ids l H H')
  end; simpl.
  all: split_and!; try done; rewrite ?app_nil_r.
  all: try (by apply forallb_True).
  all: repeat match goal with H : ?l ≠ [] |- context [match ?l with _ => _ end] => destruct l end; done.
Qed.

Lemma has_no_digit_dot r : starts_not is_digit (String "."%char r) = true.
Proof. done. Qed.

Lemma num_dot_unique a b r s :
  canonical a = true → canonical b = true → a +:+ "." +:+ r = b +:+ "." +:+ s → a = b ∧ r = s.
Proof.
  intros [Ha _]%canonical_digits [Hb _]%canonical_digits E.
  destruct (span_unique is_digit a b (String "."%char r) (String "."%char s)) as [-> H]; try done.
  by injection H as ->.
Qed.

Lemma parts_start pre build : starts_not is_digit (pre_part pre +:+ build_part build) = true.
Proof. unfold pre_part, build_part. destruct pre; [|done]. by destruct (String.eqb build ""). Qed.

Lemma semver_render_inj v w b1 b2 :
  semver_render v b1 = semver_render w b2 →
  canonical (sv_major v) = true → canonical (sv_minor v) = true → canonical (sv_patch v) = true →
  canonical (sv_major w) = true → canonical (sv_minor w) = true → canonical (sv_patch w) = true →
  Forall (λ x, plain_id x = true) (sv_pre v) → Forall (λ x, plain_id x = true) (sv_pre w) → v = w.
Proof.
  destruct v as [a b c p], w as [d e f q]. rewrite !semver_render_parts. cbn.
  intros E Ha Hb Hc Hd He Hf Hp Hq.
  apply num_dot_unique in E as [-> E]; [|done..].
  apply num_dot_unique in E as [-> E]; [|done..].
  destruct (span_unique is_digit c f (pre_part p +:+ build_part b1) (pre_part q +:+ build_part b2))
    as [-> E']; try apply parts_start; try done; try (by apply canonical_digits).
  clear E. rename E' into E. f_equal.
  set (noplus := λ c, negb (Ascii.eqb c "+"%char)).
  assert (Hpre : ∀ l, Forall (λ x, plain_id x = true) l → sforallb noplus (pre_part l) = true).
  { clear. intros l Hl. destruct Hl as [|x l Hx Hl]; [done|]. unfold pre_part.
    assert (Hj : ∀ x, plain_id x = true → sforallb noplus x = true).
    { intros y [Hy _]%plain_id_spec. eapply sforallb_impl; [|done]. intros d Hd. unfold noplus.
      destruct (Ascii.eqb_spec d "+"%char) as [->|]; [by vm_compute in Hd|done]. }
    rewrite join_cons_fold, !sforallb_app, (Hj x Hx).
    assert (sforallb noplus (foldr (λ s acc, "." +:+ s +:+ acc) "" l) = true) as ->; [|done].
    induction Hl as [|y l Hy Hl IH]; [done|]. cbn [foldr]. by rewrite !sforallb_app, (Hj y Hy), IH. }
  assert (Hb' : ∀ b, starts_not noplus (build_part b) = true).
  { clear. intros b. unfold build_part. by destruct (String.eqb b ""). }
  apply (span_unique noplus) in E as [E _]; auto.
  unfold pre_part in E. destruct p as [|x p], q as [|y q]; try done.
  apply (app_inj_l "-") in E.
  rewrite <- (split_ids (x :: p)), <- (split_ids (y :: q)) by done. by rewrite E.
Qed.

Lemma parseSemver_sound s v :
  parseSemver s = Some v → semver_ok v = true ∧ ∃ build, build_ok build = true ∧ s = semver_render v build.
Proof.
  unfold parseSemver. destruct (find_full semverRE s) as [m|] eqn:H; [|done].
  apply semverRE_inv in H as (pre & build & -> & H4 & Hpre & Hb & H1 & H2 & H3).
  rewrite H4. destruct pre as [|x pre].
  - simpl. intros [= <-]. split; [unfold semver_ok; cbn; by rewrite H1, H2, H3|eauto].
  - rewrite (proj2 (String.eqb_neq _ _) (join_ids_ne (x :: pre) ltac:(done) Hpre)), split_ids by done.
    cbn [negb]. destruct (existsb badNumericId (x :: pre)) eqn:Hbad; [done|]. intros [= <-].
    split; [|cbn; eauto]. unfold semver_ok. cbn [sv_major sv_minor sv_patch sv_pre].
    rewrite H1, H2, H3. cbn [andb]. apply forallb_True. apply Forall_forall. intros y Hy.
    unfold valid_id. rewrite Forall_forall in Hpre. rewrite (Hpre y Hy). cbn [andb].
    apply negb_true_iff. apply not_true_is_false. intros Hy'.
    assert (existsb badNumericId (x :: pre) = true); [|congruence].
    apply existsb_exists. exists y. by rewrite <- list_elem_of_In.
Qed.

Lemma lang_render v build :
  semver_ok v = true → build_ok build = true → re_lang semverRE (semver_render v build).
Proof.
  intros H Hb. unfold semver_ok in H. apply andb_prop in H as [H Hp].
  apply andb_prop in H as [H H3]. apply andb_prop in H as [H1 H2].
  rewrite semver_render_parts. unfold semverRE. cbn [RSeqs].
  repeat apply lang_seq; try (by constructor; apply lang_numRE); try apply lang_char.
  - unfold pre_part. destruct (sv_pre v) as [|x p]; [by apply lang_alt_r, lang_eps|].
    apply lang_alt_l. constructor; [apply lang_char|]. constructor. apply lang_idsRE; [done|].
    apply forallb_True in Hp. eapply Forall_impl; [done|]. intros y. unfold valid_id.
    by intros [? _]%andb_prop.
  - unfold build_part, build_ok in *. destruct (String.eqb_spec build "") as [->|Hne].
    { by apply lang_alt_r, lang_eps. }
    apply lang_alt_l. constructor; [apply lang_char|]. simpl in Hb. apply forallb_True in Hb.
    assert (Hj : build = join "." (split_byte "."%char build)).
    { clear. induction build as [|c s IH]; [done|]. simpl.
      destruct (Ascii.eqb_spec c "."%char) as [->|].
      - destruct (split_byte "."%char s) eqn:E; [destruct s; simpl in E; repeat case_match; done|].
        rewrite join_cons2. by rewrite IH at 1.
      - destruct (split_byte "."%char s) as [|w ws] eqn:E; [destruct s; simpl in E; repeat case_match; done|].
        rewrite join_cons_fold in *. by rewrite IH at 1. }
    rewrite Hj. apply lang_idsRE; [|done]. by intros E; rewrite E in Hj.
Qed.

(** [parseSemver] accepts exactly the texts of strict semantic versions. *)
Lemma parseSemver_iff s v :
  parseSemver s = Some v ↔
  semver_ok v = true ∧ ∃ build, build_ok build = true ∧ s = semver_render v build.
Proof.
  split; [apply parseSemver_sound|]. intros (Hv & build & Hb & ->).
  destruct (find_full_is_Some _ _ (lang_render v build Hv Hb)) as (m & Hm).
  pose proof (semverRE_inv _ _ Hm) as (pre & build' & E & H4 & Hpre & Hb' & H1 & H2 & H3).
  unfold semver_ok in Hv. apply andb_prop in Hv as [Hv Hp].
  apply andb_prop in Hv as [Hv Hv3]. apply andb_prop in Hv as [Hv1 Hv2].
  apply forallb_True in Hp.
  assert (Hplain : Forall (λ x, plain_id x = true) (sv_pre v)).
  { eapply Forall_impl; [done|]. intros y. unfold valid_id. by intros [? _]%andb_prop. }
  apply semver_render_inj in E as ->; [|done..]. cbn [sv_pre] in *.
  unfold parseSemver. rewrite Hm, H4. destruct pre as [|x pre]; [done|].
  rewrite (proj2 (String.eqb_neq _ _) (join_ids_ne (x :: pre) ltac:(done) Hpre)), split_ids by done.
  cbn [negb]. destruct (existsb badNumericId (x :: pre)) eqn:Hbad; [|done].
  apply existsb_exists in Hbad as (y & Hy & Hbad). apply list_elem_of_In in Hy.
  rewrite Forall_forall in Hp. specialize (Hp y Hy). unfold valid_id in Hp.
  by rewrite Hbad, andb_false_r in Hp.
Qed.
