(* ===== verification/GoText.v ===== *)
(** * Words of a Go string

    [strings.TrimSpace] and [strings.Fields] on a text that is one ASCII word
    between white space: the text is read as that word ([fields_trimmed]), and
    the decoding of a text in parts. Shared by the readers of version ranges
    and of markers. *)

From Stdlib Require Import ZArith Lia Bool Ascii String List.
From stdpp Require Import base gmap strings list.
From S2P Require Import Prelude GoStrings GoRegexp Semver.

Open Scope string_scope.
Open Scope nat_scope.
Open Scope list_scope.

(** A rune that is one ASCII byte, or has a byte that is not ASCII. *)
Definition rune_plain (r : rune) : Prop :=
  (∃ b, rune_bytes r = String b "" ∧ is_ascii_byte b = true ∧ rune_cp r = byte_n b) ∨
  sforallb is_ascii_byte (rune_bytes r) = false.

(** Bytes that are ASCII and not white space. *)
Definition word_byte (c : ascii) : bool := is_ascii_byte c && negb (is_space_cp (byte_n c)).

(** [strings.Contains] *)
Fixpoint str_contains (s sub : string) : bool :=
  has_prefix s sub ||
  match s with
  | EmptyString => false
  | String _ s' => str_contains s' sub
  end.

(** [strings.Index]: the text before the first occurrence and the text from it
    on. *)
Fixpoint split_at (s sub : string) : option (string * string) :=
  if has_prefix s sub then Some ("", s)
  else
    match s with
    | EmptyString => None
    | String c s' => '(a, b) ← split_at s' sub; Some (String c a, b)
    end.

(** [only p r]: every word of [r] is made of bytes of [p]. *)
Fixpoint only (p : ascii → bool) (r : re) : bool :=
  match r with
  | REps => true
  | RClass q => forallb (λ c, negb (q c) || p c) all_bytes
  | RSeq a b | RAlt a b => only p a && only p b
  | RStar a | RGroup _ a => only p a
  end.

(** ** Decoded runes and fields *)

Lemma rune_bad b r : is_ascii_byte b = false → (∃ t, rune_bytes r = String b t) → rune_plain r.
Proof. intros Hb [t Ht]. right. rewrite Ht. cbn [sforallb]. by rewrite Hb. Qed.

Lemma runes_plain s : Forall rune_plain (runes s).
Proof.
  remember (slen s) as n eqn:Hn. assert (slen s ≤ n) as Hl by lia. clear Hn.
  revert s Hl. induction n as [|n IH]; intros [|b s] Hl; [constructor|simpl in Hl; lia|constructor|].
  rewrite slen_cons in Hl. assert (H1 : Forall rune_plain (runes s)) by (apply IH; lia).
  cbn [runes]. destruct (is_ascii_byte b) eqn:Hb.
  { constructor; [|done]. left. by exists b. }
  assert (He : rune_plain (rune_error b)) by (apply (rune_bad b); [done|by eexists]).
  destruct s as [|b1 s]; [by constructor|]. rewrite slen_cons in Hl.
  destruct (in_range 194 223 b && is_cont b1).
  { constructor; [by apply (rune_bad b); [|eexists]|apply IH; lia]. }
  destruct s as [|b2 s]; [by constructor|]. rewrite slen_cons in Hl.
  destruct (in_range 224 239 b && second_ok b b1 && is_cont b2).
  { constructor; [by apply (rune_bad b); [|eexists]|apply IH; lia]. }
  destruct s as [|b3 s]; [by constructor|]. rewrite slen_cons in Hl.
  destruct (in_range 240 244 b && second_ok b b1 && is_cont b2 && is_cont b3); [|by constructor].
  constructor; [by apply (rune_bad b); [|eexists]|apply IH; lia].
Qed.

Lemma drop_spaces_app l :
  ∃ sp, l = sp ++ drop_spaces l ∧ Forall (λ r, rune_space r = true) sp.
Proof.
  induction l as [|r l [sp [E Hsp]]]; [by exists []|]. cbn [drop_spaces].
  destruct (rune_space r) eqn:Hr; [|by exists []].
  exists (r :: sp). split; [by rewrite E at 1|by constructor].
Qed.

Lemma drop_trailing_app l :
  ∃ sp, l = drop_trailing_spaces l ++ sp ∧ Forall (λ r, rune_space r = true) sp.
Proof.
  induction l as [|r l [sp [E Hsp]]]; [by exists []|]. cbn [drop_trailing_spaces].
  destruct (drop_trailing_spaces l) as [|r' k].
  - cbn [app] in E. subst sp. destruct (rune_space r) eqn:Hr; [|by exists l].
    exists (r :: l). split; [done|]. by constructor.
  - exists sp. split; [by rewrite E at 1|done].
Qed.

Lemma fields_spaces sp l w :
  Forall (λ r, rune_space r = true) sp →
  fields_runes (sp ++ l) None = fields_runes l None ∧ fields_runes sp (Some w) = [w].
Proof.
  intros Hsp. split.
  - induction Hsp as [|r sp Hr _ IH]; [done|]. cbn [app fields_runes]. by rewrite Hr.
  - destruct Hsp as [|r sp Hr Hsp]; [done|]. cbn [fields_runes]. rewrite Hr. f_equal.
    induction Hsp as [|r' sp Hr' _ IH]; [done|]. cbn [fields_runes]. by rewrite Hr'.
Qed.

Lemma fields_core core sp w :
  Forall (λ r, rune_space r = false) core → Forall (λ r, rune_space r = true) sp →
  (core ≠ [] ∨ w ≠ None) →
  fields_runes (core ++ sp) w = [default "" w +:+ unrunes core].
Proof.
  intros Hc Hsp. revert w. induction Hc as [|r core Hr _ IH]; intros w Hne.
  - destruct w as [w|]; [|naive_solver]. cbn [app from_option id unrunes foldr].
    rewrite app_nil_r. by apply (fields_spaces sp [] w).
  - cbn [app fields_runes]. rewrite Hr, IH by (right; done). cbn [from_option id unrunes foldr].
    by rewrite app_assoc_s.
Qed.

Lemma unrunes_app l k : unrunes (l ++ k) = unrunes l +:+ unrunes k.
Proof.
  unfold unrunes. induction l as [|r l IH]; [done|]. cbn [app foldr]. by rewrite IH, app_assoc_s.
Qed.

Lemma core_nonspace core :
  Forall rune_plain core → sforallb word_byte (unrunes core) = true →
  Forall (λ r, rune_space r = false) core.
Proof.
  induction 1 as [|r core Hr _ IH]; [constructor|]. cbn [unrunes foldr].
  rewrite sforallb_app. intros [Hb Hw]%andb_prop. constructor; [|by apply IH].
  assert (sforallb is_ascii_byte (rune_bytes r) = true) as Ha.
  { eapply sforallb_impl; [|exact Hb]. intros c. by intros [? _]%andb_prop. }
  destruct Hr as [(b & Eb & _ & Ecp)|Hr]; [|congruence].
  rewrite Eb in Hb. cbn [sforallb] in Hb. apply andb_prop in Hb as [Hb _].
  apply andb_prop in Hb as [_ Hb%negb_true_iff]. unfold rune_space. by rewrite Ecp.
Qed.

Lemma fields_trimmed s : trim_space s ≠ "" → sforallb word_byte (trim_space s) = true →
  fields s = [trim_space s].
Proof.
  unfold fields, trim_space. intros Hne Hw.
  destruct (drop_spaces_app (runes s)) as (sp & E & Hsp).
  destruct (drop_trailing_app (drop_spaces (runes s))) as (sp' & E' & Hsp').
  set (core := drop_trailing_spaces (drop_spaces (runes s))) in *.
  pose proof (runes_plain s) as Hp. rewrite E, E' in Hp.
  apply Forall_app in Hp as [_ [Hp _]%Forall_app].
  rewrite E, E', (proj1 (fields_spaces sp _ "" Hsp)), fields_core; [done|by apply core_nonspace|done|].
  left. by intros Ec; rewrite Ec in Hne.
Qed.

(** ** Words of an expression *)

Lemma only_spec p r w : only p r = true → re_lang r w → sforallb p w = true.
Proof.
  intros He H. induction H; cbn [only] in He; try done; auto.
  - rewrite forallb_True, Forall_forall in He. specialize (He c (elem_of_all_bytes c)).
    rewrite H in He. cbn [sforallb]. by rewrite andb_true_r.
  - rewrite sforallb_app. apply andb_prop in He as [H1 H2]. by rewrite IHre_lang1, IHre_lang2.
  - apply andb_prop in He as [? ?]; auto.
  - apply andb_prop in He as [? ?]; auto.
  - rewrite sforallb_app. by rewrite IHre_lang1, IHre_lang2.
Qed.

Lemma sforallb_neg p s : sforallb (λ c, negb (p c)) s = false → sexistsb p s = true.
Proof.
  induction s as [|c s IH]; [done|]. cbn [sforallb sexistsb].
  destruct (p c); [done|]. auto.
Qed.

(** [strings.Join] undoes [strings.Split]. *)
Lemma join_split c s : join (String c "") (split_byte c s) = s.
Proof.
  induction s as [|d s IH]; [done|]. cbn [split_byte].
  assert (Hne : split_byte c s ≠ []) by (destruct s; cbn; repeat case_match; done).
  destruct (split_byte c s) as [|w ws]; [done|].
  destruct (Ascii.eqb_spec d c) as [->|].
  - rewrite join_cons2, IH. done.
  - rewrite join_cons_fold in *. rewrite app_cons. by f_equal.
Qed.

Lemma sexistsb_false p s : sexistsb p s = false ↔ sforallb (λ c, negb (p c)) s = true.
Proof.
  induction s as [|c s IH]; [done|]. cbn [sexistsb sforallb].
  rewrite orb_false_iff, andb_true_iff, negb_true_iff, IH. done.
Qed.

Lemma has_prefix_app p s : has_prefix (p +:+ s) p = true.
Proof.
  induction p as [|c p IH]; [by rewrite app_nil_l; destruct s|].
  rewrite app_cons. cbn [has_prefix]. by rewrite Ascii.eqb_refl, IH.
Qed.

Lemma has_prefix_split s p : has_prefix s p = true → s = p +:+ sdrop (slen p) s.
Proof.
  revert s. induction p as [|c p IH]; intros s; [done|]. destruct s as [|d s]; [done|].
  cbn [has_prefix]. intros [->%Ascii.eqb_eq H]%andb_prop.
  rewrite slen_cons, app_cons. cbn [sdrop]. by rewrite <- IH.
Qed.

(** ** Trimming ASCII text *)

Lemma ascii_runes s :
  sforallb is_ascii_byte s = true →
  runes s = (λ c, mk_rune (byte_n c) (String c "") true) <$> String.list_ascii_of_string s.
Proof.
  induction s as [|c s IH]; [done|]. simpl. intros [Hc Hs]%andb_prop. by rewrite Hc, IH.
Qed.

Lemma sforallb_In p s c :
  sforallb p s = true → c ∈ String.list_ascii_of_string s → p c = true.
Proof.
  induction s as [|d s IH]; simpl; [by intros _ ?%not_elem_of_nil|].
  intros [Hd Hs]%andb_prop [->|H]%elem_of_cons; auto.
Qed.

Lemma trim_space_id s : sforallb is_ascii_byte s = true →
  forallb (λ c, negb (is_space_cp (byte_n c))) (String.list_ascii_of_string s) = true →
  trim_space s = s.
Proof.
  intros Ha Hs. unfold trim_space. rewrite ascii_runes by done. clear Ha.
  set (l := String.list_ascii_of_string s) in *.
  assert (Hd : ∀ k, forallb (λ c, negb (is_space_cp (byte_n c))) k = true →
    drop_trailing_spaces ((λ c, mk_rune (byte_n c) (String c "") true) <$> k) =
      (λ c, mk_rune (byte_n c) (String c "") true) <$> k).
  { induction k as [|c k IH]; [done|]. rewrite fmap_cons. cbn [forallb drop_trailing_spaces].
    intros [Hc%negb_true_iff Hk]%andb_prop. rewrite (IH Hk). unfold rune_space at 1. cbn [rune_cp]. rewrite Hc. by destruct k. }
  assert (drop_spaces ((λ c, mk_rune (byte_n c) (String c "") true) <$> l) =
            (λ c, mk_rune (byte_n c) (String c "") true) <$> l) as ->.
  { destruct l as [|c k]; [done|]. rewrite fmap_cons. cbn [forallb drop_spaces] in *.
    apply andb_prop in Hs as [Hc%negb_true_iff _]. unfold rune_space. cbn [rune_cp]. by rewrite Hc. }
  rewrite Hd by done. unfold l. clear. induction s as [|c s IH]; [done|].
  unfold unrunes in *. cbn [String.list_ascii_of_string]. rewrite fmap_cons. cbn [foldr rune_bytes].
  by rewrite IH.
Qed.

Lemma trim_space_word s : sforallb word_byte s = true → trim_space s = s.
Proof.
  intros H. apply trim_space_id.
  - eapply sforallb_impl; [|exact H]. intros c. by intros [? _]%andb_prop.
  - apply forallb_True, Forall_forall. intros c Hc.
    pose proof (sforallb_In _ _ _ H Hc) as Hw. by apply andb_prop in Hw as [_ Hw].
Qed.

(** ** Decoding in parts *)

Lemma ascii_not_cont c : is_ascii_byte c = true → is_cont c = false ∧ (∀ b, second_ok b c = false).
Proof.
  unfold is_ascii_byte, is_cont, second_ok, in_range. intros Hc%N.ltb_lt.
  assert (∀ n m, (128 <= n)%N → (n <=? byte_n c)%N && (byte_n c <=? m)%N = false) as H.
  { intros n m Hn. destruct (N.leb_spec n (byte_n c)); [lia|done]. }
  split; [by apply H|]. intros b. cbv zeta. repeat case_match; unfold is_cont, in_range; apply H; lia.
Qed.

Lemma runes_cons b0 s1 :
  runes (String b0 s1) =
  if is_ascii_byte b0 then mk_rune (byte_n b0) (String b0 "") true :: runes s1
  else match s1 with
  | EmptyString => rune_error b0 :: runes s1
  | String b1 s2 =>
      if in_range 194 223 b0 && is_cont b1 then rune2 b0 b1 :: runes s2
      else match s2 with
      | EmptyString => rune_error b0 :: runes s1
      | String b2 s3 =>
          if in_range 224 239 b0 && second_ok b0 b1 && is_cont b2 then rune3 b0 b1 b2 :: runes s3
          else match s3 with
          | EmptyString => rune_error b0 :: runes s1
          | String b3 s4 =>
              if in_range 240 244 b0 && second_ok b0 b1 && is_cont b2 && is_cont b3
              then rune4 b0 b1 b2 b3 :: runes s4 else rune_error b0 :: runes s1
          end
      end
  end.
Proof. done. Qed.

(** Decoding before an ASCII byte does not look at it. *)
Lemma runes_app_ascii s c t :
  is_ascii_byte c = true → runes (s +:+ String c t) = runes s ++ runes (String c t).
Proof.
  intros Hc. destruct (ascii_not_cont c Hc) as [Hcont Hsec].
  remember (slen s) as n eqn:Hn. assert (slen s ≤ n) as Hl by lia. clear Hn. revert s Hl.
  induction n as [|n IH]; intros [|b0 s1] Hl; [done|cbn in Hl; lia|done|].
  rewrite slen_cons in Hl. assert (I1 := IH s1 ltac:(lia)).
  rewrite app_cons, !(runes_cons b0).
  destruct (is_ascii_byte b0); [by rewrite I1|].
  destruct s1 as [|b1 s2].
  { change ("" +:+ String c t) with (String c t). cbv beta iota. rewrite Hcont, (Hsec b0), !andb_false_r. by repeat case_match. }
  rewrite slen_cons in Hl. assert (I2 := IH s2 ltac:(lia)). rewrite !app_cons.
  destruct (in_range 194 223 b0 && is_cont b1); [by rewrite I2|].
  destruct s2 as [|b2 s3].
  { change ("" +:+ String c t) with (String c t). cbv beta iota. rewrite Hcont, !andb_false_r. change (runes (String b1 (String c t)) = runes (String b1 "") ++ runes (String c t)) in I1.
    rewrite I1. by repeat case_match. }
  rewrite slen_cons in Hl. assert (I3 := IH s3 ltac:(lia)). rewrite !app_cons.
  destruct (in_range 224 239 b0 && second_ok b0 b1 && is_cont b2); [by rewrite I3|].
  destruct s3 as [|b3 s4].
  { change ("" +:+ String c t) with (String c t). cbv beta iota. rewrite Hcont, !andb_false_r.
    change (runes (String b1 (String b2 (String c t))) = runes (String b1 (String b2 "")) ++ runes (String c t)) in I1.
    by rewrite I1. }
  rewrite slen_cons in Hl. assert (I4 := IH s4 ltac:(lia)). rewrite !app_cons.
  destruct (in_range 240 244 b0 && second_ok b0 b1 && is_cont b2 && is_cont b3); [by rewrite I4|rewrite !app_cons in I1; by rewrite I1].
Qed.

Lemma unrunes_cons r l : unrunes (r :: l) = rune_bytes r +:+ unrunes l.
Proof. done. Qed.

Lemma unrunes_runes s : unrunes (runes s) = s.
Proof.
  remember (slen s) as n eqn:Hn. assert (slen s ≤ n) as Hl by lia. clear Hn. revert s Hl.
  induction n as [|n IH]; intros [|b0 s1] Hl; [done|cbn in Hl; lia|done|].
  rewrite slen_cons in Hl. assert (I1 := IH s1 ltac:(lia)). rewrite runes_cons.
  destruct (is_ascii_byte b0); [by rewrite unrunes_cons, I1|].
  destruct s1 as [|b1 s2]; [done|]. rewrite slen_cons in Hl. assert (I2 := IH s2 ltac:(lia)).
  destruct (in_range 194 223 b0 && is_cont b1); [by rewrite unrunes_cons, I2|].
  destruct s2 as [|b2 s3]; [by rewrite unrunes_cons, I1|]. rewrite slen_cons in Hl. assert (I3 := IH s3 ltac:(lia)).
  destruct (in_range 224 239 b0 && second_ok b0 b1 && is_cont b2); [by rewrite unrunes_cons, I3|].
  destruct s3 as [|b3 s4]; [by rewrite unrunes_cons, I1|]. rewrite slen_cons in Hl. assert (I4 := IH s4 ltac:(lia)).
  destruct (in_range 240 244 b0 && second_ok b0 b1 && is_cont b2 && is_cont b3); [by rewrite unrunes_cons, I4|by rewrite unrunes_cons, I1].
Qed.

Lemma drop_trailing_snoc l r : rune_space r = false → drop_trailing_spaces (l ++ [r]) = l ++ [r].
Proof.
  intros Hr. induction l as [|x l IH]; cbn; [by rewrite Hr|]. rewrite IH. by destruct l.
Qed.

(** A text between two bytes that are not white space is its own trimming. *)
Lemma trim_space_between a b s :
  word_byte a = true → word_byte b = true → trim_space (String a (s +:+ String b "")) = String a (s +:+ String b "").
Proof.
  unfold word_byte. intros [Ha Ha']%andb_true_iff [Hb Hb']%andb_true_iff. apply negb_true_iff in Ha', Hb'.
  unfold trim_space. cbn [runes]. rewrite Ha. cbn [drop_spaces]. unfold rune_space at 1. cbn [rune_cp]. rewrite Ha'.
  rewrite (runes_app_ascii s b "") by done. cbn [runes]. rewrite Hb.
  rewrite app_comm_cons, drop_trailing_snoc by done. rewrite unrunes_app. cbn [unrunes foldr rune_bytes].
  fold (unrunes (runes s)). rewrite unrunes_runes. done.
Qed.
