(* ===== verification/Pep440.v ===== *)
(** * Python versions

    internal/remediation/version.go, the PEP 440 scheme: [pep440RE],
    [parsePEP440], the comparison keys and [compare]. [py_compare] is a total
    preorder ([py_order]) in which trailing zero segments do not count
    ([cmpRelease_trimmed]) and the phases of one release come in the order
    dev, alpha, beta, rc, final, post ([py_phases]). *)

From Stdlib Require Import ZArith Lia Bool Ascii String List.
From stdpp Require Import base gmap strings list.
From S2P Require Import Prelude GoStrings GoRegexp Decimals Semver.

Open Scope string_scope.
Open Scope nat_scope.
Open Scope list_scope.

Record pyVersion := mk_py {
  py_epoch : string;
  py_release : list string;
  py_preKind : Z; py_preNum : string; py_hasPre : bool;
  py_postNum : string; py_hasPost : bool;
  py_devNum : string; py_hasDev : bool;
  py_local : list string
}.

(** A separator, [[-_.]], and an optional one. *)
Definition sepRE : re := RClass (λ c, Ascii.eqb c "-"%char || Ascii.eqb c "_"%char || Ascii.eqb c "."%char).
Definition optSep : re := ROpt sepRE.
Definition localChar (c : ascii) : bool := is_lower c || is_digit c.

Definition pep440RE : re :=
  RSeqs [ROpt (RChar "v"%char);
         ROpt (RSeq (RGroup 1 (RPlus RDigit)) (RChar "!"%char));
         RGroup 2 (RSeq (RPlus RDigit) (RStar (RSeq (RChar "."%char) (RPlus RDigit))));
         ROpt (RSeqs [optSep;
                      RGroup 3 (RAlts [RLit "alpha"; RLit "a"; RLit "beta"; RLit "b"; RLit "preview";
                                       RLit "pre"; RLit "c"; RLit "rc"]);
                      optSep; RGroup 4 (RStar RDigit)]);
         ROpt (RAlt (RSeq (RChar "-"%char) (RGroup 5 (RPlus RDigit)))
                    (RSeqs [optSep; RGroup 6 (RAlts [RLit "post"; RLit "rev"; RLit "r"]);
                            optSep; RGroup 7 (RStar RDigit)]));
         ROpt (RSeqs [optSep; RGroup 8 (RLit "dev"); optSep; RGroup 9 (RStar RDigit)]);
         ROpt (RSeq (RChar "+"%char)
                 (RGroup 10 (RSeq (RPlus (RClass localChar))
                                  (RStar (RSeq sepRE (RPlus (RClass localChar)))))))].

(** [strings.FieldsFunc] with a predicate on ASCII bytes. [w] is the field
    being read, [""] between fields. *)
Fixpoint fields_func (p : ascii → bool) (s w : string) : list string :=
  match s with
  | EmptyString => if String.eqb w "" then [] else [w]
  | String c s' =>
      if p c then (if String.eqb w "" then [] else [w]) ++ fields_func p s' ""
      else fields_func p s' (w +:+ String c "")
  end.

Definition isLocalSep (c : ascii) : bool :=
  Ascii.eqb c "."%char || Ascii.eqb c "-"%char || Ascii.eqb c "_"%char.

Definition preKindOf (s : string) : Z :=
  if String.eqb s "a" || String.eqb s "alpha" then 0
  else if String.eqb s "b" || String.eqb s "beta" then 1
  else 2.

Definition nonempty (s : string) : bool := negb (String.eqb s "").

Definition parsePEP440 `{GoUnicode} (s : string) : option pyVersion :=
  match find_full pep440RE (to_lower (trim_space s)) with
  | None => None
  | Some m =>
      let hasPre := nonempty (group 3 m) in
      let hasDev := nonempty (group 8 m) in
      Some {|
        py_epoch := trimZeros (group 1 m);
        py_release := trimZeros <$> split_byte "."%char (group 2 m);
        py_preKind := if hasPre then preKindOf (group 3 m) else 0;
        py_preNum := if hasPre then trimZeros (group 4 m) else "";
        py_hasPre := hasPre;
        py_postNum := if nonempty (group 5 m) then trimZeros (group 5 m)
                      else if nonempty (group 6 m) then trimZeros (group 7 m) else "";
        py_hasPost := nonempty (group 5 m) || nonempty (group 6 m);
        py_devNum := if hasDev then trimZeros (group 9 m) else "";
        py_hasDev := hasDev;
        py_local := if nonempty (group 10 m) then fields_func isLocalSep (group 10 m) "" else []
      |}
  end.

Definition py_isPrerelease (v : pyVersion) : bool := py_hasPre v || py_hasDev v.

(** [trimmedRelease]: the loop removes a last segment "0" while more than one
    segment is left; on the reversed list that is a prefix. *)
Fixpoint trim_rev (r : list string) : list string :=
  match r with
  | x :: r' =>
      match r' with
      | [] => r
      | _ :: _ => if String.eqb x "0" then trim_rev r' else r
      end
  | [] => r
  end.
Definition trimmedRelease (v : pyVersion) : list string := rev (trim_rev (rev (py_release v))).

Record orderedNum := mk_on { on_rank : Z; on_kind : Z; on_n : string }.

Definition cmpOrdered (a b : orderedNum) : comparison :=
  if negb (on_rank a =? on_rank b)%Z then
    if (on_rank a <? on_rank b)%Z then Lt else Gt
  else if negb (on_kind a =? on_kind b)%Z then
    if (on_kind a <? on_kind b)%Z then Lt else Gt
  else cmpNum (on_n a) (on_n b).

Definition preKey (v : pyVersion) : orderedNum :=
  if negb (py_hasPre v) && negb (py_hasPost v) && py_hasDev v then mk_on (-1) 0 ""
  else if negb (py_hasPre v) then mk_on 1 0 ""
  else mk_on 0 (py_preKind v) (py_preNum v).

Definition postKey (v : pyVersion) : orderedNum :=
  if negb (py_hasPost v) then mk_on (-1) 0 "" else mk_on 0 0 (py_postNum v).

Definition devKey (v : pyVersion) : orderedNum :=
  if negb (py_hasDev v) then mk_on 1 0 "" else mk_on 0 0 (py_devNum v).

(** The loop [for i := 0; i < len(a) || i < len(b); i++], a missing segment
    counting as zero. *)
Definition cmpRelease (a b : list string) : comparison :=
  pad_cmp "0" cmpNum (length a `max` length b) a b.

Definition cmpLocalSeg (x y : string) : comparison :=
  if isDigits x && isDigits y then cmpNum (trimZeros x) (trimZeros y)
  else if isDigits x then Gt
  else if isDigits y then Lt
  else str_cmp x y.

Fixpoint cmpLocalSegs (a b : list string) : comparison :=
  match a, b with
  | x :: a', y :: b' => cmpLocalSeg x y <?> cmpLocalSegs a' b'
  | _, _ => Eq
  end.

Definition cmpLocal (a b : list string) : comparison :=
  match a, b with
  | [], [] => Eq
  | [], _ :: _ => Lt
  | _ :: _, [] => Gt
  | _ :: _, _ :: _ =>
      cmpLocalSegs a b <?> cmpNum (itoa (N.of_nat (length a))) (itoa (N.of_nat (length b)))
  end.

Definition py_compare (a b : pyVersion) : comparison :=
  cmpNum (py_epoch a) (py_epoch b) <?>
  cmpRelease (py_release a) (py_release b) <?>
  cmpOrdered (preKey a) (preKey b) <?>
  cmpOrdered (postKey a) (postKey b) <?>
  cmpOrdered (devKey a) (devKey b) <?>
  cmpLocal (py_local a) (py_local b).

(** [WriteRune]: an ill-formed byte was read as U+FFFD. *)
Definition write_rune (r : rune) : string :=
  if rune_valid r then rune_bytes r
  else String "239"%char (String "191"%char (String "189"%char "")).

(** [normalizePyName]: PEP 503. [dash] is the loop's variable. *)
Definition isNameSep (r : rune) : bool :=
  ((rune_cp r =? 45) || (rune_cp r =? 95) || (rune_cp r =? 46))%N.

Fixpoint normalize_runes (l : list rune) (dash : bool) : string :=
  match l with
  | [] => if dash then "-" else ""
  | r :: l' =>
      if isNameSep r then normalize_runes l' true
      else (if dash then "-" else "") +:+ write_rune r +:+ normalize_runes l' false
  end.

Definition normalizePyName `{GoUnicode} (s : string) : string :=
  normalize_runes (runes (to_lower s)) false.

(** ** Comparison *)

Lemma pad_cmp_nil n : pad_cmp "0" cmpNum n [] [] = Eq.
Proof. induction n as [|n IH]; [done|]. simpl. rewrite IH. done. Qed.

Lemma pad_cmp_more a b n :
  length a `max` length b ≤ n → pad_cmp "0" cmpNum n a b = cmpRelease a b.
Proof.
  unfold cmpRelease. revert a b. induction n as [|n IH]; intros a b Hn.
  { by replace (length a `max` length b) with 0 by lia. }
  destruct a as [|x a], b as [|y b]; simpl length in *.
  - apply pad_cmp_nil.
  - simpl. rewrite (IH [] b) by (simpl; lia). done.
  - simpl. rewrite (IH a []) by (simpl; lia). rewrite Nat.max_0_r. done.
  - simpl. rewrite (IH a b) by (simpl; lia). done.
Qed.

#[export] Instance cmpRelease_order : CmpOrder cmpRelease.
Proof.
  split.
  - intros a b. set (n := length a `max` length b).
    rewrite <- !(pad_cmp_more _ _ n) by lia. apply (cmp_antisym (pad_cmp "0" cmpNum n)).
  - intros a b c. set (n := length a `max` length b `max` length c).
    rewrite <- !(pad_cmp_more _ _ n) by lia. apply (cmp_le_trans (pad_cmp "0" cmpNum n)).
Qed.

Lemma cmpOrdered_alt a b :
  cmpOrdered a b = cmp_then (cmp_on on_rank Z.compare)
    (cmp_then (cmp_on on_kind Z.compare) (cmp_on on_n cmpNum)) a b.
Proof.
  assert (Hz : ∀ x y d, (if negb (x =? y)%Z then if (x <? y)%Z then Lt else Gt else d) = (Z.compare x y <?> d)).
  { intros x y d. destruct (Z.compare_spec x y) as [->|H|H].
    - by rewrite Z.eqb_refl.
    - by rewrite (proj2 (Z.eqb_neq _ _)), (proj2 (Z.ltb_lt _ _)) by lia.
    - by rewrite (proj2 (Z.eqb_neq _ _)), (proj2 (Z.ltb_ge _ _)) by lia. }
  unfold cmpOrdered, cmp_then, cmp_on. by rewrite !Hz.
Qed.

#[export] Instance cmpOrdered_order : CmpOrder cmpOrdered.
Proof.
  destruct (cmp_then_order (cmp_on on_rank Z.compare)
    (cmp_then (cmp_on on_kind Z.compare) (cmp_on on_n cmpNum))) as [Ha Ht]; try apply _.
  split; intros *; rewrite !cmpOrdered_alt; [apply Ha|apply Ht].
Qed.

Lemma cmpLocalSeg_split x y :
  cmpLocalSeg x y = cmp_split (λ s, negb (isDigits s)) str_cmp (cmp_on trimZeros cmpNum) x y.
Proof. unfold cmpLocalSeg, cmp_split, cmp_on. by destruct (isDigits x), (isDigits y). Qed.

#[export] Instance cmpLocalSeg_order : CmpOrder cmpLocalSeg.
Proof.
  destruct (cmp_split_order (λ s, negb (isDigits s)) str_cmp (cmp_on trimZeros cmpNum) _ _) as [Ha Ht].
  split; intros *; rewrite !cmpLocalSeg_split; [apply Ha|apply Ht].
Qed.

Lemma cmpLocal_list a b : cmpLocal a b = list_cmp cmpLocalSeg a b.
Proof.
  destruct a as [|x a], b as [|y b]; try done. unfold cmpLocal. rewrite cmpNum_itoa.
  apply (loop_then_length cmpLocalSeg cmpLocalSegs). by intros [|? ?] [|? ?].
Qed.

#[export] Instance cmpLocal_order : CmpOrder cmpLocal.
Proof.
  destruct (list_cmp_order cmpLocalSeg _) as [Ha Ht].
  split; intros *; rewrite !cmpLocal_list; [apply Ha|apply Ht].
Qed.

#[export] Instance py_order : CmpOrder py_compare.
Proof.
  change (CmpOrder (cmp_then (cmp_on py_epoch cmpNum) (cmp_then (cmp_on py_release cmpRelease)
    (cmp_then (cmp_on preKey cmpOrdered) (cmp_then (cmp_on postKey cmpOrdered)
      (cmp_then (cmp_on devKey cmpOrdered) (cmp_on py_local cmpLocal))))))).
  apply _.
Qed.

(** ** Trailing zero segments *)

Lemma pad_cmp_zeros n k l : pad_cmp "0" cmpNum n l (l ++ replicate k "0") = Eq.
Proof.
  revert l. induction n as [|n IH]; intros [|x l]; simpl; try done.
  - destruct k as [|k]; simpl; [by apply pad_cmp_nil|]. specialize (IH []). simpl in IH.
    assert (H : ∀ m j, pad_cmp "0" cmpNum m [] (replicate j "0") = Eq).
    { induction m as [|m IHm]; intros [|j]; try done; simpl; [apply pad_cmp_nil|apply IHm]. }
    apply H.
  - rewrite (cmp_refl cmpNum). apply IH.
Qed.

Lemma cmpRelease_zeros l k : cmpRelease l (l ++ replicate k "0") = Eq.
Proof. apply pad_cmp_zeros. Qed.

Lemma trim_rev_spec r : ∃ k, r = replicate k "0" ++ trim_rev r.
Proof.
  induction r as [|x r IH]; [by exists 0|]. destruct r as [|y r]; [by exists 0|].
  simpl. destruct (String.eqb_spec x "0") as [->|]; [|by exists 0].
  destruct IH as (k & IH). exists (S k). simpl in *. by rewrite IH at 1.
Qed.

Lemma reverse_replicate' {A} k (x : A) : rev (replicate k x) = replicate k x.
Proof. rewrite rev_alt. apply reverse_replicate. Qed.

Lemma trimmedRelease_spec v : ∃ k, py_release v = trimmedRelease v ++ replicate k "0".
Proof.
  destruct (trim_rev_spec (rev (py_release v))) as (k & H). exists k. unfold trimmedRelease.
  rewrite <- (rev_involutive (py_release v)) at 1. rewrite H at 1. rewrite rev_app_distr.
  f_equal. apply reverse_replicate'.
Qed.

(** Trailing zeros do not count: 1.0 is 1.0.0. *)
Lemma cmpRelease_trimmed v : cmpRelease (trimmedRelease v) (py_release v) = Eq.
Proof.
  destruct (trimmedRelease_spec v) as (k & H). generalize dependent (trimmedRelease v).
  intros t ->. apply cmpRelease_zeros.
Qed.

(** ** The phases of one release *)

Definition py_phase (v : pyVersion) : Z :=
  if py_hasPre v then 1 + py_preKind v else if py_hasPost v then 5 else if py_hasDev v then 0 else 4.

Lemma py_phases v w :
  cmpNum (py_epoch v) (py_epoch w) = Eq → cmpRelease (py_release v) (py_release w) = Eq →
  (0 <= py_preKind v <= 2)%Z → (0 <= py_preKind w <= 2)%Z →
  (py_phase v < py_phase w)%Z → py_compare v w = Lt.
Proof.
  intros He Hr Hv Hw Hlt. unfold py_compare. rewrite He, Hr. cbn [lexc].
  unfold py_phase in Hlt. unfold preKey, postKey.
  destruct (py_hasPre v), (py_hasPre w), (py_hasPost v), (py_hasPost w), (py_hasDev v), (py_hasDev w);
    cbn [negb andb]; try lia; try done;
    unfold cmpOrdered; cbn [on_rank on_kind on_n negb Z.eqb Z.ltb Z.compare];
    rewrite ?(proj2 (Z.eqb_neq _ _)), ?(proj2 (Z.ltb_lt _ _)) by lia; done.
Qed.
