(* ===== verification/MavenVersion.v ===== *)
(** * Maven versions

    internal/remediation/version_maven.go: a port of Maven's
    ComparableVersion. A version is parsed into nested lists of numbers and
    qualifiers; the mutable parse state of the source (the list being filled
    and the chain of its parents) is [mvn_state]. [mvn_antisym] and
    [mvn_refl] hold of every pair of items; the order is not transitive on
    all of them ([mvn_not_transitive]), but on plain dotted numbers it is the
    order of release segments ([maven_dotted]). *)

From Stdlib Require Import ZArith Lia Bool Ascii String List.
From stdpp Require Import base gmap strings list.
From S2P Require Import Prelude GoStrings GoRegexp Decimals Semver GoText Pep440.

Open Scope string_scope.
Open Scope nat_scope.
Open Scope list_scope.

Definition maxMavenVersionBytes : nat := 128.

Inductive mvnItem : Type :=
  | mvnInt (num : string)
  | mvnStr (qual raw : string)
  | mvnList (list : list mvnItem).

Definition mvnQualifiers : list string := ["alpha"; "beta"; "milestone"; "rc"; "snapshot"; ""; "sp"].
Definition mvnReleaseIndex : string := "5".

(** The position of a qualifier in [mvnQualifiers]. *)
Fixpoint qualifier_index (s : string) (l : list string) (i : N) : option N :=
  match l with
  | [] => None
  | k :: l' => if String.eqb k s then Some i else qualifier_index s l' (i + 1)
  end.

Definition mvn_alias (s : string) (followedByDigit : bool) : string :=
  let s1 :=
    if followedByDigit && (slen s =? 1) then
      if String.eqb s "a" then "alpha"
      else if String.eqb s "b" then "beta"
      else if String.eqb s "m" then "milestone"
      else s
    else s in
  if String.eqb s1 "ga" || String.eqb s1 "final" || String.eqb s1 "release" then ""
  else if String.eqb s1 "cr" then "rc"
  else s1.

Definition newMvnString (s : string) (followedByDigit : bool) : mvnItem :=
  let s' := mvn_alias s followedByDigit in
  let q := match qualifier_index s' mvnQualifiers 0 with
           | Some i => String (ascii_of_N (48 + i)) ""
           | None => "7-" +:+ s'
           end in
  mvnStr q s'.

Definition newMvnInt (digits : string) : mvnItem := mvnInt (trimZeros digits).
Definition mvnZero : mvnItem := mvnInt "0".

Definition isNull (it : mvnItem) : bool :=
  match it with
  | mvnInt n => String.eqb n "0"
  | mvnStr q _ => String.eqb q mvnReleaseIndex
  | mvnList l => match l with [] => true | _ => false end
  end.

(** [normalize]: the loop runs from the last item to the first. *)
Fixpoint normalize_rev (r : list mvnItem) : list mvnItem :=
  match r with
  | [] => []
  | last :: r' =>
      if isNull last then normalize_rev r'
      else match last with
           | mvnList _ => last :: normalize_rev r'
           | _ => r
           end
  end.
Definition normalize (l : list mvnItem) : list mvnItem := rev (normalize_rev (rev l)).

(** [cmp] against a missing item. *)
Fixpoint cmp_nil (it : mvnItem) : comparison :=
  match it with
  | mvnInt n => if String.eqb n "0" then Eq else Gt
  | mvnStr q _ => str_cmp q mvnReleaseIndex
  | mvnList l =>
      (fix first (l : list mvnItem) : comparison :=
         match l with
         | [] => Eq
         | x :: l' => cmp_nil x <?> first l'
         end) l
  end.

(** The rest of the other list when this one is exhausted. *)
Fixpoint cmp_rest (k : list mvnItem) : comparison :=
  match k with
  | [] => Eq
  | r :: k' => CompOpp (cmp_nil r) <?> cmp_rest k'
  end.

Fixpoint mvn_cmp (it : mvnItem) (o : option mvnItem) : comparison :=
  match it with
  | mvnInt n =>
      match o with
      | None => cmp_nil it
      | Some (mvnInt m) => cmpNum n m
      | Some _ => Gt
      end
  | mvnStr q _ =>
      match o with
      | None => cmp_nil it
      | Some (mvnStr q' _) => str_cmp q q'
      | Some _ => Lt
      end
  | mvnList l =>
      match o with
      | None => cmp_nil it
      | Some (mvnInt _) => Lt
      | Some (mvnStr _ _) => Gt
      | Some (mvnList k) =>
          (fix loop (l k : list mvnItem) : comparison :=
             match l with
             | [] => cmp_rest k
             | x :: l' =>
                 match k with
                 | [] => mvn_cmp x None <?> loop l' []
                 | y :: k' => mvn_cmp x (Some y) <?> loop l' k'
                 end
             end) l k
      end
  end.

Definition maven_compare (a b : mvnItem) : comparison := mvn_cmp a (Some b).

Definition mavenVersionOK (s : string) : bool :=
  if String.eqb s "" || (maxMavenVersionBytes <? slen s) || negb (valid_string s) then false
  else forallb (λ r, negb (rune_space r || is_control_cp (rune_cp r))) (runes s).

(** The parse state: the list being filled, its parents with the nearest
    first, whether the current token is a number, and the current token
    [s[start:i]]. A parent receives its child when the parse is closed: the
    source appends the child when it opens it and never touches the parent
    again. *)
Record mvn_state := mk_mvn {
  ms_list : list mvnItem;
  ms_up : list (list mvnItem);
  ms_digit : bool;
  ms_tok : string
}.

Definition ms_push (st : mvn_state) : mvn_state :=
  mk_mvn [] (ms_list st :: ms_up st) (ms_digit st) (ms_tok st).
Definition ms_add (x : mvnItem) (st : mvn_state) : mvn_state :=
  mk_mvn (ms_list st ++ [x]) (ms_up st) (ms_digit st) (ms_tok st).
Definition ms_set_tok (t : string) (st : mvn_state) : mvn_state :=
  mk_mvn (ms_list st) (ms_up st) (ms_digit st) t.
Definition ms_set_digit (d : bool) (st : mvn_state) : mvn_state :=
  mk_mvn (ms_list st) (ms_up st) d (ms_tok st).
Definition ms_push_if_any (st : mvn_state) : mvn_state :=
  match ms_list st with [] => st | _ => ms_push st end.

Definition mvn_item (digit : bool) (text : string) : mvnItem :=
  if digit then newMvnInt text else newMvnString text false.

(** The token that a separator ends. *)
Definition ms_end_token (st : mvn_state) : mvn_state :=
  ms_set_tok ""
    (ms_add (if String.eqb (ms_tok st) "" then mvnZero else mvn_item (ms_digit st) (ms_tok st)) st).

Definition ms_append (c : ascii) (st : mvn_state) : mvn_state :=
  ms_set_tok (ms_tok st +:+ String c "") st.

Definition mvn_step (st : mvn_state) (c : ascii) : mvn_state :=
  if Ascii.eqb c "."%char then ms_end_token st
  else if Ascii.eqb c "-"%char then ms_push (ms_end_token st)
  else if is_digit c then
    let st1 :=
      if negb (ms_digit st) && nonempty (ms_tok st) then
        let st0 := ms_push_if_any st in
        ms_push (ms_set_tok "" (ms_add (newMvnString (ms_tok st) true) st0))
      else st in
    ms_append c (ms_set_digit true st1)
  else
    let st1 :=
      if ms_digit st && nonempty (ms_tok st) then
        ms_push (ms_set_tok "" (ms_add (newMvnInt (ms_tok st)) st))
      else st in
    ms_append c (ms_set_digit false st1).

Fixpoint mvn_run (s : string) (st : mvn_state) : mvn_state :=
  match s with
  | EmptyString => st
  | String c s' => mvn_run s' (mvn_step st c)
  end.

Definition mvn_finish (st : mvn_state) : mvn_state :=
  if nonempty (ms_tok st) then
    let st1 := if negb (ms_digit st) then ms_push_if_any st else st in
    ms_add (mvn_item (ms_digit st) (ms_tok st)) st1
  else st.

(** Normalizes every list, children before parents. *)
Fixpoint mvn_close (l : list mvnItem) (up : list (list mvnItem)) : mvnItem :=
  match up with
  | [] => mvnList (normalize l)
  | p :: up' => mvn_close (p ++ [mvnList (normalize l)]) up'
  end.

Definition parseMavenVersion `{GoUnicode} (s : string) : option mvnItem :=
  if negb (mavenVersionOK s) then None
  else
    let st := mvn_finish (mvn_run (to_lower s) (mk_mvn [] [] false "")) in
    Some (mvn_close (ms_list st) (ms_up st)).

(** The walk of [mavenIsPrerelease]. *)
Fixpoint mvn_pre_walk (it : mvnItem) : bool :=
  match it with
  | mvnInt _ => false
  | mvnStr q _ => str_lt q mvnReleaseIndex
  | mvnList l => existsb mvn_pre_walk l
  end.

Definition mavenIsPrerelease `{GoUnicode} (v : string) : bool :=
  match parseMavenVersion v with
  | None => false
  | Some root => mvn_pre_walk root
  end.

(** The leading digits of a string. *)
Fixpoint digit_prefix (s : string) : string :=
  match s with
  | String c s' => if is_digit c then String c (digit_prefix s') else ""
  | EmptyString => ""
  end.

Definition mavenMajor (v : string) : option string :=
  if String.eqb (digit_prefix v) "" then None else Some (trimZeros (digit_prefix v)).

Definition mavenFlavor `{GoUnicode} (v : string) : string :=
  match last_index_byte v "-"%char with
  | None => ""
  | Some i =>
      if (i =? 0) || (i =? slen v - 1) then ""
      else
        let suffix := to_lower (sdrop (i + 1) v) in
        if negb (sforallb is_lower suffix) then ""
        else match newMvnString suffix false with
             | mvnStr q _ =>
                 match str_cmp q "6" with Gt => suffix | _ => "" end
             | _ => suffix
             end
  end.

(** ** The comparison is antisymmetric *)

Section item_ind.
Variable P : mvnItem → Prop.
Hypothesis Hint : ∀ n, P (mvnInt n).
Hypothesis Hstr : ∀ q r, P (mvnStr q r).
Hypothesis Hlist : ∀ l, Forall P l → P (mvnList l).

Fixpoint mvnItem_rect' (it : mvnItem) : P it :=
  match it with
  | mvnInt n => Hint n
  | mvnStr q r => Hstr q r
  | mvnList l =>
      Hlist l ((fix go (l : list mvnItem) : Forall P l :=
                  match l with
                  | [] => @List.Forall_nil mvnItem P
                  | x :: l' => @List.Forall_cons mvnItem P x l' (mvnItem_rect' x) (go l')
                  end) l)
  end.
End item_ind.

Fixpoint mvn_loop (l k : list mvnItem) : comparison :=
  match l with
  | [] => cmp_rest k
  | x :: l' =>
      match k with
      | [] => mvn_cmp x None <?> mvn_loop l' []
      | y :: k' => mvn_cmp x (Some y) <?> mvn_loop l' k'
      end
  end.

Lemma mvn_cmp_list l k : mvn_cmp (mvnList l) (Some (mvnList k)) = mvn_loop l k.
Proof. revert k. induction l as [|x l IH]; intros [|y k]; simpl; try done; f_equal; apply IH. Qed.

Lemma mvn_cmp_None it : mvn_cmp it None = cmp_nil it.
Proof. by destruct it. Qed.

Lemma cmp_nil_list l : cmp_nil (mvnList l) = CompOpp (cmp_rest l).
Proof.
  induction l as [|x l IH]; [done|]. simpl. simpl in IH. rewrite IH.
  by destruct (cmp_nil x).
Qed.

Lemma mvn_loop_nil l : mvn_loop l [] = CompOpp (cmp_rest l).
Proof.
  induction l as [|x l IH]; [done|]. simpl. rewrite mvn_cmp_None, IH.
  by destruct (cmp_nil x).
Qed.

Lemma mvn_antisym_item x y : mvn_cmp y (Some x) = CompOpp (mvn_cmp x (Some y)).
Proof.
  revert y. induction x as [n|q r|l Hl] using mvnItem_rect'; intros [m|q' r'|k]; try done.
  - apply (cmp_antisym cmpNum).
  - apply (cmp_antisym str_cmp).
  - rewrite !mvn_cmp_list. revert k. induction Hl as [|x l Hx Hl IH]; intros k.
    + simpl. apply mvn_loop_nil.
    + destruct k as [|y k]; cbn [mvn_loop].
      * cbn [cmp_rest]. rewrite mvn_cmp_None, mvn_loop_nil. by destruct (cmp_nil x), (cmp_rest l).
      * rewrite Hx, IH. by rewrite lexc_opp.
Qed.

(** ** Plain dotted numbers *)

(** A non-empty list of digit strings, and its text. *)
Definition dotted_ok (l : list string) : bool :=
  match l with [] => false | _ => forallb isDigits l end.
Definition dotted (l : list string) : string := join "." l.

Definition digit_or_dot (c : ascii) : bool := is_digit c || Ascii.eqb c "."%char.

Lemma dotted_ok_Forall l : dotted_ok l = true ↔ l ≠ [] ∧ Forall (λ x, isDigits x = true) l.
Proof.
  destruct l as [|x l]; [naive_solver|]. unfold dotted_ok. rewrite forallb_True. naive_solver.
Qed.

Lemma digit_is_dotchar c : is_digit c = true → digit_or_dot c = true.
Proof. unfold digit_or_dot. by intros ->. Qed.

Lemma dotted_chars l : Forall (λ x, isDigits x = true) l → sforallb digit_or_dot (dotted l) = true.
Proof.
  unfold dotted. induction 1 as [|x l [_ Hx]%isDigits_spec Hl IH]; [done|].
  assert (sforallb digit_or_dot x = true) as Hx'.
  { eapply sforallb_impl; [apply digit_is_dotchar|done]. }
  destruct l as [|y l]; [done|]. by rewrite join_cons2, !sforallb_app, Hx', IH.
Qed.

Lemma dotted_nonempty l : dotted_ok l = true → dotted l ≠ "".
Proof.
  intros [Hne Hl]%dotted_ok_Forall. destruct Hl as [|x l [Hx _]%isDigits_spec _]; [done|].
  unfold dotted. rewrite join_cons_fold. by destruct x.
Qed.

Lemma digit_or_dot_range c : digit_or_dot c = true → (46 <= byte_n c <= 57)%N.
Proof.
  unfold digit_or_dot. rewrite orb_true_iff, is_digit_spec. intros [?|H]; [lia|].
  apply Ascii.eqb_eq in H as ->. by vm_compute.
Qed.

Lemma dotted_ascii s : sforallb digit_or_dot s = true → sforallb is_ascii_byte s = true.
Proof.
  apply sforallb_impl. intros c Hc%digit_or_dot_range. unfold is_ascii_byte.
  apply N.ltb_lt. lia.
Qed.

Lemma dotted_version_ok s :
  sforallb digit_or_dot s = true → s ≠ "" → slen s ≤ maxMavenVersionBytes → mavenVersionOK s = true.
Proof.
  intros Hs Hne Hl. unfold mavenVersionOK, valid_string.
  rewrite (proj2 (String.eqb_neq _ _) Hne), (proj2 (Nat.ltb_ge _ _) Hl).
  rewrite (ascii_runes s) by by apply dotted_ascii. simpl.
  assert (Hf : ∀ p : rune → bool,
    (∀ c, digit_or_dot c = true → p (mk_rune (byte_n c) (String c "") true) = true) →
    forallb p ((λ c, mk_rune (byte_n c) (String c "") true) <$> String.list_ascii_of_string s) = true).
  { intros p Hp. apply forallb_True, Forall_fmap, Forall_forall. intros c Hc. apply Hp.
    by eapply sforallb_In. }
  rewrite (Hf rune_valid) by done. simpl. apply Hf. intros c Hc%digit_or_dot_range.
  apply negb_true_iff. unfold rune_space, is_space_cp, is_control_cp. cbn [rune_cp].
  rewrite !orb_false_iff, !andb_false_iff, !N.eqb_neq, !N.ltb_ge, !N.leb_gt. lia.
Qed.

Lemma smap_lower_dotted s : sforallb digit_or_dot s = true → smap lower_byte s = s.
Proof.
  induction s as [|c s IH]; [done|]. simpl. intros [Hc%digit_or_dot_range Hs]%andb_prop.
  rewrite (IH Hs). f_equal. unfold lower_byte, is_upper, in_range.
  rewrite (proj2 (N.leb_gt _ _)) by lia. done.
Qed.

Lemma to_lower_dotted `{GoUnicode} s : sforallb digit_or_dot s = true → to_lower s = s.
Proof.
  intros Hs. unfold to_lower. rewrite (dotted_ascii s Hs). by apply smap_lower_dotted.
Qed.

Lemma digit_not_sep c : is_digit c = true → Ascii.eqb c "."%char = false ∧ Ascii.eqb c "-"%char = false.
Proof.
  intros Hc%is_digit_spec. split; apply Ascii.eqb_neq; intros ->; vm_compute in Hc; naive_solver.
Qed.

Lemma mvn_step_digit l up d t c :
  is_digit c = true → (d = true ∨ t = "") →
  mvn_step (mk_mvn l up d t) c = mk_mvn l up true (t +:+ String c "").
Proof.
  intros Hc Hd. destruct (digit_not_sep c Hc) as [H1 H2].
  unfold mvn_step. rewrite H1, H2, Hc. cbn [ms_digit ms_tok].
  by destruct Hd as [->| ->]; [|destruct d].
Qed.

Lemma mvn_run_digits w r l up d t :
  sforallb is_digit w = true → w ≠ "" → (d = true ∨ t = "") →
  mvn_run (w +:+ r) (mk_mvn l up d t) = mvn_run r (mk_mvn l up true (t +:+ w)).
Proof.
  revert d t. induction w as [|c w IH]; intros d t; [done|]. simpl sforallb.
  intros [Hc Hw]%andb_prop _ Hd. rewrite app_cons. cbn [mvn_run].
  rewrite mvn_step_digit by done. destruct w as [|c' w]; [done|].
  rewrite IH by auto. by rewrite app_assoc_s.
Qed.

Lemma mvn_step_dot l up w :
  w ≠ "" → mvn_step (mk_mvn l up true w) "."%char = mk_mvn (l ++ [newMvnInt w]) up true "".
Proof.
  intros Hne. unfold mvn_step. rewrite Ascii.eqb_refl. unfold ms_end_token. cbn [ms_tok ms_digit].
  by rewrite (proj2 (String.eqb_neq _ _) Hne).
Qed.

Lemma mvn_run_dotted l : ∀ acc d,
  dotted_ok l = true →
  let st := mvn_finish (mvn_run (dotted l) (mk_mvn acc [] d "")) in
  ms_list st = acc ++ (newMvnInt <$> l) ∧ ms_up st = [].
Proof.
  induction l as [|w l IH]; intros acc d; [done|].
  intros [_ H]%dotted_ok_Forall. apply Forall_cons_1 in H as [Hw Hl].
  apply isDigits_spec in Hw as [Hne Hw]. unfold dotted.
  destruct l as [|y l].
  - cbn [join String.concat]. rewrite <- (app_nil_r w), mvn_run_digits by auto.
    rewrite app_nil_r, app_nil_l. cbn [mvn_run]. unfold mvn_finish. cbn [ms_tok ms_digit].
    unfold nonempty. rewrite (proj2 (String.eqb_neq _ _) Hne). done.
  - rewrite join_cons2, mvn_run_digits by auto. rewrite app_nil_l.
    change ("." +:+ join "." (y :: l)) with (String "."%char (dotted (y :: l))).
    cbn [mvn_run]. rewrite mvn_step_dot by done.
    destruct (IH (acc ++ [newMvnInt w]) true) as [E1 E2].
    { apply dotted_ok_Forall. done. }
    rewrite E1, E2, <- app_assoc. done.
Qed.

Lemma normalize_ints r :
  ∃ k r', r = replicate k "0" ++ r' ∧ normalize_rev (mvnInt <$> r) = mvnInt <$> r'.
Proof.
  induction r as [|x r IH]; [by exists 0, []|]. simpl.
  destruct (String.eqb_spec x "0") as [->|].
  - destruct IH as (k & r' & -> & IH). by exists (S k), r'.
  - by exists 0, (x :: r).
Qed.

Lemma cmp_rest_ints k : Forall (λ x, canonical x = true) k → cmp_rest (mvnInt <$> k) = cmpRelease [] k.
Proof.
  induction 1 as [|x k Hx Hk IH]; [done|].
  change ((CompOpp (cmp_nil (mvnInt x)) <?> cmp_rest (mvnInt <$> k)) = cmpRelease [] (x :: k)).
  rewrite IH. simpl cmp_nil.
  unfold cmpRelease. cbn [length Nat.max pad_cmp hd tl]. f_equal.
  destruct (String.eqb_spec x "0") as [->|Hne]; [done|]. simpl.
  symmetry. rewrite cmpNum_dec by done. apply N.compare_lt_iff. change (dec_val "0") with 0%N.
  pose proof (canonical_lower x Hx Hne). pose proof (N.pow_nonzero 10 (N.of_nat (pred (slen x)))). lia.
Qed.

Lemma mvn_loop_ints a b :
  Forall (λ x, canonical x = true) a → Forall (λ x, canonical x = true) b →
  mvn_loop (mvnInt <$> a) (mvnInt <$> b) = cmpRelease a b.
Proof.
  intros Ha. revert b. induction Ha as [|x a Hx Ha IH]; intros b Hb.
  - simpl. by apply cmp_rest_ints.
  - destruct Hb as [|y b Hy Hb].
    + change (mvnInt <$> []) with (@nil mvnItem). rewrite mvn_loop_nil, cmp_rest_ints by by constructor.
      symmetry. apply (cmp_antisym cmpRelease).
    + cbn [fmap list_fmap mvn_loop]. unfold cmpRelease. cbn [length Nat.max pad_cmp hd tl]. f_equal.
      apply (IH b Hb).
Qed.

Lemma cmpRelease_drop_zeros a b j k :
  cmpRelease (a ++ replicate j "0") (b ++ replicate k "0") = cmpRelease a b.
Proof.
  rewrite <- (cmp_eq_l cmpRelease a (a ++ replicate j "0")) by apply cmpRelease_zeros.
  symmetry. apply (cmp_eq_r cmpRelease), cmpRelease_zeros.
Qed.

Lemma fmap_rev {A B} (f : A → B) l : rev (f <$> l) = f <$> rev l.
Proof. induction l as [|x l IH]; [done|]. cbn [rev fmap list_fmap]. by rewrite fmap_app, <- IH. Qed.

Lemma normalize_ints_fwd l :
  ∃ k l', l = l' ++ replicate k "0" ∧ normalize (mvnInt <$> l) = mvnInt <$> l'.
Proof.
  destruct (normalize_ints (rev l)) as (k & r' & Hr & Hn). exists k, (rev r'). split.
  - rewrite <- (rev_involutive l), Hr, rev_app_distr. f_equal. apply reverse_replicate'.
  - unfold normalize. by rewrite fmap_rev, Hn, fmap_rev.
Qed.

Lemma parseMaven_dotted `{GoUnicode} l :
  dotted_ok l = true → slen (dotted l) ≤ maxMavenVersionBytes →
  parseMavenVersion (dotted l) = Some (mvnList (normalize (mvnInt <$> (trimZeros <$> l)))).
Proof.
  intros Hl Hlen. pose proof Hl as [Hne Hd]%dotted_ok_Forall.
  pose proof (dotted_chars l Hd) as Hc.
  unfold parseMavenVersion. rewrite dotted_version_ok by auto using dotted_nonempty.
  cbn [negb]. rewrite to_lower_dotted by done.
  destruct (mvn_run_dotted l [] false Hl) as [E1 E2]. rewrite E1, E2. cbn [mvn_close app].
  by rewrite <- list_fmap_compose.
Qed.

Lemma trimZeros_all_canonical l :
  Forall (λ x, isDigits x = true) l → Forall (λ x, canonical x = true) (trimZeros <$> l).
Proof.
  intros H. apply Forall_fmap. eapply Forall_impl; [done|]. intros x [_ Hx]%isDigits_spec.
  by apply trimZeros_canonical.
Qed.

(** On plain dotted numbers Maven's order is that of release segments. *)
Lemma maven_dotted `{GoUnicode} a b va vb :
  dotted_ok a = true → dotted_ok b = true →
  slen (dotted a) ≤ maxMavenVersionBytes → slen (dotted b) ≤ maxMavenVersionBytes →
  parseMavenVersion (dotted a) = Some va → parseMavenVersion (dotted b) = Some vb →
  maven_compare va vb = cmpRelease (trimZeros <$> a) (trimZeros <$> b).
Proof.
  intros Ha Hb Hla Hlb. rewrite !parseMaven_dotted by done. intros [= <-] [= <-].
  apply dotted_ok_Forall in Ha as [_ Ha%trimZeros_all_canonical], Hb as [_ Hb%trimZeros_all_canonical].
  destruct (normalize_ints_fwd (trimZeros <$> a)) as (j & a' & Ea & Na).
  destruct (normalize_ints_fwd (trimZeros <$> b)) as (k & b' & Eb & Nb).
  rewrite Ea in *. rewrite Eb in *. apply Forall_app in Ha as [Ha _], Hb as [Hb _].
  unfold maven_compare. rewrite mvn_cmp_list, Na, Nb, mvn_loop_ints by done.
  by rewrite cmpRelease_drop_zeros.
Qed.

(** The comparison is a port of an order that is not transitive: "1.sp.1" is
    above "1", "1" is above "1-alpha", and "1-alpha" is above "1.sp.1". *)
Example mvn_not_transitive :
  (a ← parseMavenVersion "1.sp.1"; b ← parseMavenVersion "1"; c ← parseMavenVersion "1-alpha";
   Some (maven_compare a b, maven_compare b c, maven_compare a c)) = Some (Gt, Gt, Lt).
Proof. vm_compute. reflexivity. Qed.
