(* ===== verification/Versions.v ===== *)
(** * Version schemes

    internal/remediation/version.go: the scheme dispatch [parseVersion] and
    [compareVersions], and [SameDependencyName]. The [version] interface is a
    sum of the parsed forms; the type assertion of each [compare] method
    panics on a version of another scheme, which [compareVersions_total]
    shows cannot happen. *)

From Stdlib Require Import ZArith Lia Bool Ascii String List.
From stdpp Require Import base gmap strings list.
From S2P Require Import Prelude GoStrings GoRegexp Decimals Semver GoText Pep440 MavenVersion.

Open Scope string_scope.
Open Scope nat_scope.
Open Scope list_scope.

Inductive scheme := schemeSemver | schemePEP440 | schemeGo | schemeMaven.

#[export] Instance scheme_eq_dec : EqDecision scheme.
Proof. solve_decision. Defined.

Inductive version :=
  | VSemver (v : semver)
  | VPy (v : pyVersion)
  | VMaven (root : mvnItem).

Definition parseVersion `{GoUnicode} (sc : scheme) (s : string) : option version :=
  match sc with
  | schemePEP440 => VPy <$> parsePEP440 s
  | schemeGo => VSemver <$> parseSemver (trim_prefix s "v")
  | schemeMaven => VMaven <$> parseMavenVersion s
  | schemeSemver => VSemver <$> parseSemver s
  end.

(** The [compare] methods; [None] is the failed type assertion. *)
Definition version_compare (a o : version) : option comparison :=
  match a, o with
  | VSemver x, VSemver y => Some (semver_compare x y)
  | VPy x, VPy y => Some (py_compare x y)
  | VMaven x, VMaven y => Some (maven_compare x y)
  | _, _ => None
  end.

Inductive cmp_result :=
  | Ordered (c : comparison)
  | NotOrdered
  | CmpPanic.

Definition compareVersions `{GoUnicode} (sc : scheme) (a b : string) : cmp_result :=
  match parseVersion sc a, parseVersion sc b with
  | Some va, Some vb =>
      match version_compare va vb with
      | Some c => Ordered c
      | None => CmpPanic
      end
  | _, _ => NotOrdered
  end.

Inductive DependencyManager :=
  | ManagerNpm | ManagerPnpm | ManagerPip | ManagerUv | ManagerGo | ManagerMaven | ManagerGradle.

Definition SameDependencyName `{GoUnicode} (m : DependencyManager) (a b : string) : bool :=
  match m with
  | ManagerUv | ManagerPip => String.eqb (normalizePyName a) (normalizePyName b)
  | _ => String.eqb a b
  end.

(** ** Every scheme *)

Section schemes.
Context `{U : GoUnicode}.

(** The comparison of two strings of one scheme, as a comparison of parsed
    forms. *)
Lemma compareVersions_parsed sc a b :
  match parseVersion sc a, parseVersion sc b with
  | Some va, Some vb => ∃ c, version_compare va vb = Some c ∧ compareVersions sc a b = Ordered c
  | _, _ => compareVersions sc a b = NotOrdered
  end.
Proof.
  unfold compareVersions.
  destruct (parseVersion sc a) as [va|] eqn:Ha; [|done].
  destruct (parseVersion sc b) as [vb|] eqn:Hb; [|done].
  assert (∃ c, version_compare va vb = Some c) as [c Hc].
  { destruct sc; simpl in Ha, Hb; apply fmap_Some in Ha as (? & ? & ->);
      apply fmap_Some in Hb as (? & ? & ->); eexists; reflexivity. }
  exists c. by rewrite Hc.
Qed.

Lemma version_compare_antisym va vb c :
  version_compare va vb = Some c → version_compare vb va = Some (CompOpp c).
Proof.
  destruct va, vb; simpl; try done; intros [= <-]; f_equal.
  - apply (cmp_antisym semver_compare).
  - apply (cmp_antisym py_compare).
  - apply mvn_antisym_item.
Qed.

(** Every scheme but Maven's is transitive. *)
Lemma version_compare_trans sc a b c va vb vc d e :
  sc ≠ schemeMaven →
  parseVersion sc a = Some va → parseVersion sc b = Some vb → parseVersion sc c = Some vc →
  version_compare va vb = Some d → version_compare vb vc = Some e → d ≠ Gt → e ≠ Gt →
  ∃ f, version_compare va vc = Some f ∧ f ≠ Gt.
Proof.
  intros Hsc Ha Hb Hc. destruct sc; try done; simpl in Ha, Hb, Hc;
    apply fmap_Some in Ha as (x & _ & ->); apply fmap_Some in Hb as (y & _ & ->);
    apply fmap_Some in Hc as (z & _ & ->); simpl; intros [= <-] [= <-] Hd He;
    (eexists; split; [reflexivity|]).
  1, 3: by apply (cmp_le_trans semver_compare x y z).
  by apply (cmp_le_trans py_compare x y z).
Qed.

(** ** Plain dotted numbers are ordered alike by every scheme *)

Lemma trim_space_dotted s : sforallb digit_or_dot s = true → trim_space s = s.
Proof.
  intros Hs. apply trim_space_id; [by apply dotted_ascii|].
  apply forallb_True, Forall_forall. intros c Hc.
  apply negb_true_iff. pose proof (digit_or_dot_range c (sforallb_In _ _ _ Hs Hc)).
  unfold is_space_cp.
  rewrite !orb_false_iff, !andb_false_iff, !N.eqb_neq, !N.leb_gt. lia.
Qed.

Lemma pep440RE_dotted s c :
  sforallb digit_or_dot s = true → find_full pep440RE s = Some c → c = [(2, s)].
Proof.
  intros Hs H%find_full_cap. unfold pep440RE in H. cbn [RSeqs] in H.
  repeat match goal with
  | H : re_cap (RSeq (ROpt _) _) _ _ _ |- _ =>
      apply cap_seq_inv in H as (? & ? & ? & -> & ? & H);
      rewrite sforallb_app in Hs; apply andb_prop in Hs as [? Hs]
  | H : re_cap (RSeq (RGroup _ _) _) _ _ _ |- _ =>
      apply cap_seq_inv in H as (? & ? & ? & -> & ? & H);
      rewrite sforallb_app in Hs; apply andb_prop in Hs as [? Hs]
  end.
  repeat match goal with
  | H : re_cap (ROpt _) _ _ _ |- _ =>
      apply (cap_opt_excluded digit_or_dot) in H as [-> ->]; [|by vm_compute|done]
  end.
  rename select (re_cap (RGroup 2 _) _ _ _) into Hg.
  apply cap_group_inv in Hg as (c1 & -> & Hg). apply cap_no_groups in Hg as ->; [|done].
  by rewrite ?app_nil_l, ?app_nil_r.
Qed.

Lemma lang_pep440_dotted l : dotted_ok l = true → re_lang pep440RE (dotted l).
Proof.
  intros [Hne Hl]%dotted_ok_Forall. unfold pep440RE. cbn [RSeqs].
  rewrite <- (app_nil_l (dotted l)). apply lang_seq; [by apply lang_alt_r, lang_eps|].
  rewrite <- (app_nil_l (dotted l)). apply lang_seq; [by apply lang_alt_r, lang_eps|].
  rewrite <- (app_nil_r (dotted l)).
  apply lang_seq; [|repeat (rewrite <- (app_nil_l ""); apply lang_seq); by apply lang_alt_r, lang_eps].
  constructor. destruct Hl as [|x l [Hx Hx']%isDigits_spec Hl]; [done|].
  unfold dotted. rewrite join_cons_fold. constructor; [by apply lang_class_plus|].
  induction Hl as [|y l [Hy Hy']%isDigits_spec Hl IH]; [constructor|]. cbn [foldr].
  rewrite <- app_assoc_s. constructor; [|by apply IH].
  constructor; [apply lang_char|by apply lang_class_plus].
Qed.

Lemma isDigits_no_dot x : isDigits x = true → sforallb (λ d, negb (Ascii.eqb d "."%char)) x = true.
Proof.
  intros [_ H]%isDigits_spec. eapply sforallb_impl; [|done]. intros c Hc. simpl.
  by destruct (digit_not_sep c Hc) as [-> _].
Qed.

Lemma split_dotted l : dotted_ok l = true → split_byte "."%char (dotted l) = l.
Proof.
  intros [Hne Hl]%dotted_ok_Forall. apply split_join; [done|].
  eapply Forall_impl; [done|]. apply isDigits_no_dot.
Qed.

Lemma parsePEP440_dotted l :
  dotted_ok l = true →
  parsePEP440 (dotted l) = Some (mk_py "0" (trimZeros <$> l) 0 "" false "" false "" false []).
Proof.
  intros Hl. pose proof Hl as [Hne Hd]%dotted_ok_Forall. pose proof (dotted_chars l Hd) as Hc.
  unfold parsePEP440. rewrite trim_space_dotted, to_lower_dotted by done.
  destruct (find_full_is_Some _ _ (lang_pep440_dotted l Hl)) as (m & Hm). rewrite Hm.
  apply pep440RE_dotted in Hm as ->; [|done]. cbn [group Nat.eqb].
  by rewrite split_dotted.
Qed.

Lemma py_compare_dotted a b va vb :
  dotted_ok a = true → dotted_ok b = true →
  parsePEP440 (dotted a) = Some va → parsePEP440 (dotted b) = Some vb →
  py_compare va vb = cmpRelease (trimZeros <$> a) (trimZeros <$> b).
Proof.
  intros Ha Hb. rewrite !parsePEP440_dotted by done. intros [= <-] [= <-].
  unfold py_compare. cbn. by destruct (cmpRelease _ _).
Qed.

Lemma pad_cmp_nums n a b :
  Forall (λ x, isDigits x = true) a → Forall (λ x, isDigits x = true) b →
  pad_cmp "0" cmpNum n (trimZeros <$> a) (trimZeros <$> b) =
  pad_cmp 0%N N.compare n (dec_val <$> a) (dec_val <$> b).
Proof.
  assert (Hhd : ∀ l, Forall (λ x, isDigits x = true) l →
    canonical (hd "0" (trimZeros <$> l)) = true ∧
    dec_val (hd "0" (trimZeros <$> l)) = hd 0%N (dec_val <$> l)).
  { intros l Hl. destruct Hl as [|x l [_ Hx]%isDigits_spec _]; [done|]. cbn.
    split; [by apply trimZeros_canonical|apply trimZeros_val]. }
  revert a b. induction n as [|n IH]; intros a b Ha Hb; [done|]. cbn [pad_cmp].
  destruct (Hhd a Ha) as [Hca Hva], (Hhd b Hb) as [Hcb Hvb].
  rewrite cmpNum_dec, Hva, Hvb by done. f_equal.
  destruct Ha as [|x a Hx Ha], Hb as [|y b Hy Hb].
  - apply (IH [] []); constructor.
  - apply (IH [] b); [constructor|done].
  - apply (IH a []); [done|constructor].
  - by apply IH.
Qed.

(** The numeric order of two dotted numbers, a missing component being 0. *)
Definition dotted_order (a b : list string) : comparison :=
  pad_cmp 0%N N.compare (length a `max` length b) (dec_val <$> a) (dec_val <$> b).

Lemma cmpRelease_nums a b :
  dotted_ok a = true → dotted_ok b = true →
  cmpRelease (trimZeros <$> a) (trimZeros <$> b) = dotted_order a b.
Proof.
  intros [_ Ha]%dotted_ok_Forall [_ Hb]%dotted_ok_Forall.
  unfold cmpRelease, dotted_order. rewrite !length_fmap. by apply pad_cmp_nums.
Qed.

Lemma render_three x y z : semver_render (mk_semver x y z []) "" = dotted [x; y; z].
Proof. unfold semver_render, dotted. cbn. by rewrite !app_nil_r. Qed.

Lemma semver_dotted x y z x' y' z' :
  canonical x = true → canonical y = true → canonical z = true →
  canonical x' = true → canonical y' = true → canonical z' = true →
  compareVersions schemeSemver (dotted [x; y; z]) (dotted [x'; y'; z']) =
  Ordered (dotted_order [x; y; z] [x'; y'; z']).
Proof.
  assert (Hp : ∀ x y z, canonical x = true → canonical y = true → canonical z = true →
    parseSemver (dotted [x; y; z]) = Some (mk_semver x y z [])).
  { intros a b c Ha Hb Hc. apply parseSemver_iff. split.
    - unfold semver_ok. cbn. by rewrite Ha, Hb, Hc.
    - exists "". by rewrite render_three. }
  intros Hx Hy Hz Hx' Hy' Hz'. unfold compareVersions, parseVersion. rewrite !Hp by done. cbn.
  unfold semver_compare, dotted_order. cbn. f_equal. by rewrite !cmpNum_dec.
Qed.

(** ** Properties *)

(** for every scheme, [compareVersions] never fails a type assertion, its
    result for the swapped arguments is the opposite one, and it declines to
    answer exactly when one of the strings does not parse. *)
Theorem compareVersions_total sc a b :
  compareVersions sc a b ≠ CmpPanic ∧
  (∀ c, compareVersions sc a b = Ordered c → compareVersions sc b a = Ordered (CompOpp c)) ∧
  (compareVersions sc a b = NotOrdered ↔ parseVersion sc a = None ∨ parseVersion sc b = None).
Proof.
  pose proof (compareVersions_parsed sc a b) as H. pose proof (compareVersions_parsed sc b a) as H'.
  destruct (parseVersion sc a) as [va|], (parseVersion sc b) as [vb|];
    [|rewrite H; naive_solver..].
  destruct H as (c & Hc & ->), H' as (d & Hd & ->). split; [done|]. split; [|naive_solver].
  intros e [= <-]. apply version_compare_antisym in Hc. congruence.
Qed.

(** The semver, PEP 440 and Go schemes order versions transitively, with
    a strict step anywhere making the result strict. *)
Theorem compareVersions_transitive sc a b c x y :
  sc ≠ schemeMaven →
  compareVersions sc a b = Ordered x → compareVersions sc b c = Ordered y →
  x ≠ Gt → y ≠ Gt →
  ∃ z, compareVersions sc a c = Ordered z ∧ z ≠ Gt ∧ (x = Lt ∨ y = Lt → z = Lt).
Proof.
  intros Hsc Hab Hbc Hx Hy.
  pose proof (compareVersions_parsed sc a b) as H1. pose proof (compareVersions_parsed sc b c) as H2.
  pose proof (compareVersions_parsed sc a c) as H3.
  destruct (parseVersion sc a) as [va|] eqn:Ea; [|congruence].
  destruct (parseVersion sc b) as [vb|] eqn:Eb; [|congruence].
  destruct (parseVersion sc c) as [vc|] eqn:Ec; [|congruence].
  destruct H1 as (x' & H1 & Hx'), H2 as (y' & H2 & Hy'), H3 as (z & H3 & ->).
  assert (x' = x ∧ y' = y) as [-> ->] by (split; congruence).
  destruct (version_compare_trans sc a b c va vb vc x y) as (f & Hf & Hf'); try done.
  assert (f = z) as -> by congruence. exists z. split; [done|]. split; [done|].
  intros Hlt. destruct z; try done. exfalso. apply version_compare_antisym in H3. simpl in H3.
  destruct Hlt as [->| ->].
  - destruct (version_compare_trans sc b c a vb vc va y Eq) as (g & Hg & Hg'); try done.
    apply version_compare_antisym in H1. simpl in H1. congruence.
  - destruct (version_compare_trans sc c a b vc va vb Eq x) as (g & Hg & Hg'); try done.
    apply version_compare_antisym in H2. simpl in H2. congruence.
Qed.

(** on plain dotted numbers the Maven and PEP 440 schemes both give the
    numeric order of the components, a missing component counting as zero,
    and so does the semver scheme on three components without leading
    zeros. *)
Theorem dotted_schemes_agree a b :
  dotted_ok a = true → dotted_ok b = true →
  slen (dotted a) ≤ maxMavenVersionBytes → slen (dotted b) ≤ maxMavenVersionBytes →
  compareVersions schemeMaven (dotted a) (dotted b) = Ordered (dotted_order a b) ∧
  compareVersions schemePEP440 (dotted a) (dotted b) = Ordered (dotted_order a b) ∧
  (length a = 3 → length b = 3 → forallb canonical (a ++ b) = true →
   compareVersions schemeSemver (dotted a) (dotted b) = Ordered (dotted_order a b)).
Proof.
  intros Ha Hb Hla Hlb. unfold compareVersions, parseVersion at 1 2 3 4. split; [|split].
  - rewrite !parseMaven_dotted by done. cbn [fmap option_fmap option_map version_compare].
    rewrite (maven_dotted a b _ _ Ha Hb Hla Hlb) by by apply parseMaven_dotted.
    by rewrite cmpRelease_nums.
  - rewrite !parsePEP440_dotted by done. cbn [fmap option_fmap option_map version_compare].
    rewrite (py_compare_dotted a b _ _ Ha Hb) by by apply parsePEP440_dotted.
    by rewrite cmpRelease_nums.
  - intros H3 H3' Hc. destruct a as [|x [|y [|z []]]], b as [|x' [|y' [|z' []]]]; try done.
    apply forallb_True in Hc. simpl app in Hc. repeat apply Forall_cons in Hc as [? Hc].
    by apply semver_dotted.
Qed.

End schemes.

Example compareVersions_total_witness :
  compareVersions schemeSemver "1.0.0-rc.1" "1.0.0" = Ordered Lt ∧
  compareVersions schemeSemver "1.0.0" "1.0.0-rc.1" = Ordered Gt.
Proof.
  assert (compareVersions schemeSemver "1.0.0-rc.1" "1.0.0" = Ordered Lt) as H by (vm_compute; reflexivity).
  split; [exact H|].
  exact (proj1 (proj2 (compareVersions_total schemeSemver "1.0.0-rc.1" "1.0.0")) Lt H).
Defined.

Example compareVersions_transitive_witness :
  ∃ z, compareVersions schemePEP440 "1.0.dev1" "1.0.post2" = Ordered z ∧ z ≠ Gt ∧ (Lt = Lt ∨ Lt = Lt → z = Lt).
Proof.
  apply (compareVersions_transitive schemePEP440 "1.0.dev1" "1.0a1" "1.0.post2" Lt Lt);
    solve [discriminate | vm_compute; reflexivity].
Defined.

Example dotted_schemes_agree_witness :
  compareVersions schemeMaven "1.10.0" "1.9" = Ordered Gt ∧
  compareVersions schemePEP440 "1.10.0" "1.9" = Ordered Gt.
Proof.
  destruct (dotted_schemes_agree ["1"; "10"; "0"] ["1"; "9"]) as (H1 & H2 & _).
  1, 2: reflexivity. 1, 2: vm_compute; lia.
  split; [exact H1|exact H2].
Defined.
