(* ===== verification/NpmRange.v ===== *)
(** * npm version ranges

    internal/remediation/lang_range.go: [npmRangeAllows] and the functions
    that turn a range of a package.json into bounds over decimal triples.
    [npm_exact], [npm_caret] and [npm_tilde] give the meaning of the usual
    comparators in numbers. *)

From Stdlib Require Import ZArith Lia Bool Ascii String List.
From stdpp Require Import base gmap strings list.
From S2P Require Import Prelude GoStrings GoRegexp Decimals Semver MavenVersion Versions GoText.

Open Scope string_scope.
Open Scope nat_scope.
Open Scope list_scope.

(** [^=?v?N\.N\.N-[0-9A-Za-z.-]+$] *)
Definition exactPrereleaseRE : re :=
  RSeqs [ROpt (RChar "="%char); ROpt (RChar "v"%char);
         RGroup 1 numRE; RChar "."%char; RGroup 2 numRE; RChar "."%char; RGroup 3 numRE;
         RChar "-"%char; RPlus (RClass (λ c, is_alnum c || Ascii.eqb c "."%char || Ascii.eqb c "-"%char))].

(** [triple] is a list of three decimal strings. *)
Notation triple := (list string).

Fixpoint triple_cmp (a b : triple) : comparison :=
  match a, b with
  | x :: a', y :: b' => cmpNum x y <?> triple_cmp a' b'
  | _, _ => Eq
  end.

Record predicate := mk_pred { pr_op : string; pr_val : triple }.

Definition cmp_ge (c : comparison) : bool := match c with Lt => false | _ => true end.
Definition cmp_gt (c : comparison) : bool := match c with Gt => true | _ => false end.
Definition cmp_lt (c : comparison) : bool := match c with Lt => true | _ => false end.
Definition cmp_le (c : comparison) : bool := match c with Gt => false | _ => true end.

Definition pred_holds (p : predicate) (v : semver) : bool :=
  let c := triple_cmp [sv_major v; sv_minor v; sv_patch v] (pr_val p) in
  if String.eqb (pr_op p) ">=" then cmp_ge c
  else if String.eqb (pr_op p) ">" then cmp_gt c
  else if String.eqb (pr_op p) "<" then cmp_lt c
  else if String.eqb (pr_op p) "<=" then cmp_le c
  else false.

(** [parts] has three entries, [""] for an open part; [n] leading parts are
    given. *)
Record partial := mk_partial { pt_parts : list string; pt_n : nat }.

Definition isOpenPart (f : string) : bool :=
  String.eqb f "x" || String.eqb f "X" || String.eqb f "*".

(** The loop over the dot-separated fields. *)
Fixpoint partial_loop (fields : list string) (i : nat) (open : bool) (p : partial) : option partial :=
  match fields with
  | [] => Some p
  | f :: fields' =>
      if isOpenPart f then partial_loop fields' (S i) true p
      else if isDigits f && (String.eqb f "0" || negb (has_prefix f "0")) then
        if open then None
        else partial_loop fields' (S i) open (mk_partial (<[i := f]> (pt_parts p)) (S i))
      else None
  end.

Definition parsePartial (s : string) : option partial :=
  let s := trim_prefix (trim_prefix s "v") "=" in
  if String.eqb s "" || contains_any s "-+" then None
  else
    let fields := split_byte "."%char s in
    if 3 <? length fields then None
    else partial_loop fields 0 false (mk_partial [""; ""; ""] 0).

(** [t := {"0","0","0"}; for i < p.n { t[i] = p.parts[i] }] *)
Definition pt_low (p : partial) : triple :=
  take (pt_n p) (pt_parts p) ++ replicate (3 - pt_n p) "0".

(** [t[i]] raised by one, the later parts zero. *)
Definition triple_next (t : triple) (i : nat) : triple :=
  take i t ++ incDecimal (nth i t "") :: replicate (2 - i) "0".
Definition pt_next (p : partial) (i : nat) : triple := triple_next (pt_low p) i.

Definition isRangeOp (t : string) : bool :=
  String.eqb t "^" || String.eqb t "~" || String.eqb t "~>" || String.eqb t ">" ||
  String.eqb t "<" || String.eqb t "=" || String.eqb t ">=" || String.eqb t "<=".

Fixpoint joinOperators (toks : list string) : list string :=
  match toks with
  | [] => []
  | t :: rest =>
      match rest with
      | u :: rest' => if isRangeOp t then (t +:+ u) :: joinOperators rest' else t :: joinOperators rest
      | [] => [t]
      end
  end.

(** The first operator of the list that [tok] starts with, and the rest. *)
Fixpoint cutOperator (ops : list string) (tok : string) : string * string :=
  match ops with
  | [] => ("", tok)
  | o :: ops' => if has_prefix tok o then (o, sdrop (slen o) tok) else cutOperator ops' tok
  end.

Definition rangeOps : list string := [">="; "<="; "~>"; ">"; "<"; "^"; "~"; "="].

(** [for i < p.n-1 && p.parts[i] == "0" { i++ }] *)
Fixpoint caret_loop (fuel i n : nat) (parts : list string) : nat :=
  match fuel with
  | O => i
  | S f => if (i <? n - 1) && String.eqb (nth i parts "") "0" then caret_loop f (S i) n parts else i
  end.
Definition caret_index (p : partial) : nat := caret_loop (pt_n p) 0 (pt_n p) (pt_parts p).

Definition comparatorPredicates (tok : string) : option (list predicate) :=
  let '(op0, rest) := cutOperator rangeOps tok in
  let op := if String.eqb op0 "~>" then "~" else op0 in
  match parsePartial rest with
  | None => None
  | Some p =>
      let low := pt_low p in
      if pt_n p =? 0 then
        if String.eqb op "" || String.eqb op "^" || String.eqb op "~" || String.eqb op "=" ||
           String.eqb op ">=" || String.eqb op "<=" then Some [] else None
      else if String.eqb op "" || String.eqb op "=" then
        if pt_n p =? 3 then Some [mk_pred ">=" low; mk_pred "<=" low]
        else Some [mk_pred ">=" low; mk_pred "<" (pt_next p (pt_n p - 1))]
      else if String.eqb op "^" then
        Some [mk_pred ">=" low; mk_pred "<" (pt_next p (caret_index p))]
      else if String.eqb op "~" then
        let i := if pt_n p =? 1 then 0 else 1 in
        Some [mk_pred ">=" low; mk_pred "<" (pt_next p i)]
      else if String.eqb op ">=" then Some [mk_pred ">=" low]
      else if String.eqb op ">" then
        if pt_n p =? 3 then Some [mk_pred ">" low]
        else Some [mk_pred ">=" (pt_next p (pt_n p - 1))]
      else if String.eqb op "<" then Some [mk_pred "<" low]
      else if String.eqb op "<=" then
        if pt_n p =? 3 then Some [mk_pred "<=" low]
        else Some [mk_pred "<" (pt_next p (pt_n p - 1))]
      else None
  end.

(** A hyphen range [a - b]. *)
Definition hyphenPredicates (a b : string) : option (list predicate) :=
  match parsePartial a, parsePartial b with
  | Some lo, Some hi =>
      Some (mk_pred ">=" (pt_low lo) ::
        (if pt_n hi =? 3 then [mk_pred "<=" (pt_low hi)]
         else if pt_n hi =? 0 then []
         else [mk_pred "<" (pt_next hi (pt_n hi - 1))]))
  | _, _ => None
  end.

(** The loop of [rangePredicates] over the tokens. *)
Fixpoint rangeLoop (toks : list string) : option (list predicate) :=
  match toks with
  | [] => Some []
  | t :: rest =>
      let single :=
        ps ← comparatorPredicates t; qs ← rangeLoop rest; Some (ps ++ qs) in
      match rest with
      | d :: (u :: rest') =>
          if String.eqb d "-" then
            ps ← hyphenPredicates t u; qs ← rangeLoop rest'; Some (ps ++ qs)
          else single
      | _ => single
      end
  end.

Definition rangePredicates (alt : string) : option (list predicate) :=
  rangeLoop (joinOperators (fields alt)).

(** The loop over the alternatives; the result is [(ok, evaluable)]. *)
Fixpoint altLoop (alts : list string) (v : semver) (anyAlt : bool) : bool * bool :=
  match alts with
  | [] => (anyAlt, true)
  | alt :: alts' =>
      if match_full exactPrereleaseRE (trim_space alt) then altLoop alts' v anyAlt
      else match rangePredicates alt with
           | None => (false, false)
           | Some preds =>
               altLoop alts' v (if forallb (λ p, pred_holds p v) preds then true else anyAlt)
           end
  end.

Definition npmRangeAllows (spec : string) (v : semver) : bool * bool :=
  if semver_isPrerelease v then (false, false)
  else
    let spec := trim_space spec in
    if String.eqb spec "" then (true, true)
    else altLoop (split_bars spec) v false.

(** ** What one comparator means

    The meaning of [op x.y.z] for the release [a.b.c], in numbers. *)

Definition ver_lt (x y z a b c : N) : Prop :=
  (x < a ∨ x = a ∧ (y < b ∨ y = b ∧ z < c))%N.

(** [^] keeps the leftmost component that is not zero, [~] the minor one. *)
Definition comparator_meaning (op : string) (x y z a b c : N) : Prop :=
  if String.eqb op "^" then
    ¬ ver_lt a b c x y z ∧ a = x ∧ (x = 0%N → b = y ∧ (y = 0%N → c = z))
  else if String.eqb op "~" || String.eqb op "~>" then a = x ∧ b = y ∧ (z <= c)%N
  else if String.eqb op ">" then ver_lt x y z a b c
  else if String.eqb op ">=" then ¬ ver_lt a b c x y z
  else if String.eqb op "<" then ver_lt a b c x y z
  else if String.eqb op "<=" then ¬ ver_lt x y z a b c
  else a = x ∧ b = y ∧ c = z.

(** What a bound says of a release, in numbers. *)
Definition bound_meaning (op : string) (x y z a b c : N) : Prop :=
  if String.eqb op ">=" then ¬ ver_lt a b c x y z
  else if String.eqb op ">" then ver_lt x y z a b c
  else if String.eqb op "<" then ver_lt a b c x y z
  else if String.eqb op "<=" then ¬ ver_lt x y z a b c
  else False.

(** The comparators that take a version. *)
Definition comparators : list string := [""; "="; "^"; "~"; "~>"; ">="; ">"; "<"; "<="].

(** The bytes a comparator with a plain version is made of. *)
Definition comparator_byte (c : ascii) : bool :=
  word_byte c && negb (Ascii.eqb c "|"%char) && negb (Ascii.eqb "-"%char c).

(** ** Reading one full version *)

Lemma triple_cmp_num a b c x y z :
  canonical a = true → canonical b = true → canonical c = true →
  canonical x = true → canonical y = true → canonical z = true →
  triple_cmp [a; b; c] [x; y; z] =
  (N.compare (dec_val a) (dec_val x) <?> N.compare (dec_val b) (dec_val y) <?>
   N.compare (dec_val c) (dec_val z)).
Proof.
  intros. cbn [triple_cmp]. rewrite !cmpNum_dec by done. by destruct (_ ?= _)%N, (_ ?= _)%N, (_ ?= _)%N.
Qed.

Lemma lexc_lt3 a b c x y z :
  (N.compare a x <?> N.compare b y <?> N.compare c z) = Lt ↔ ver_lt a b c x y z.
Proof.
  unfold ver_lt. destruct (N.compare_spec a x), (N.compare_spec b y), (N.compare_spec c z); cbn [lexc];
    split; intros; (done || lia).
Qed.

Lemma lexc_gt3 a b c x y z :
  (N.compare a x <?> N.compare b y <?> N.compare c z) = Gt ↔ ver_lt x y z a b c.
Proof.
  unfold ver_lt. destruct (N.compare_spec a x), (N.compare_spec b y), (N.compare_spec c z); cbn [lexc];
    split; intros; (done || lia).
Qed.

Lemma parsePartial_full x y z :
  canonical x = true → canonical y = true → canonical z = true →
  parsePartial (dotted [x; y; z]) = Some (mk_partial [x; y; z] 3).
Proof.
  intros Hx Hy Hz.
  assert (Hl : dotted_ok [x; y; z] = true).
  { unfold canonical in *. apply andb_prop in Hx as [Hx _], Hy as [Hy _], Hz as [Hz _].
    cbn. by rewrite Hx, Hy, Hz. }
  pose proof Hl as [_ Hd]%dotted_ok_Forall. pose proof (dotted_chars _ Hd) as Hc.
  assert (Hno : ∀ p s, sforallb digit_or_dot s = true → sforallb digit_or_dot p = false →
    has_prefix s p = false).
  { intros p s Hs Hp. destruct (has_prefix s p) eqn:E; [|done].
    apply has_prefix_split in E. rewrite E, sforallb_app in Hs. by rewrite Hp in Hs. }
  unfold parsePartial, trim_prefix. rewrite (Hno "v"), (Hno "=") by done.
  rewrite (proj2 (String.eqb_neq _ _)) by by apply dotted_nonempty.
  replace (contains_any _ _) with false.
  2:{ symmetry. apply sexistsb_false. eapply sforallb_impl; [|exact Hc].
      intros c Hcc%digit_or_dot_range. apply negb_true_iff.
      unfold contains_byte. cbn [sexistsb]. rewrite !orb_false_iff.
      split; [|split; [|done]]; apply Ascii.eqb_neq; intros ->; vm_compute in Hcc; naive_solver. }
  cbn [orb]. rewrite split_dotted by done. cbn [length Nat.ltb Nat.leb].
  assert (Hp : ∀ s, canonical s = true → isOpenPart s = false ∧
     isDigits s && (String.eqb s "0" || negb (has_prefix s "0")) = true).
  { intros s Hs. split; [|done]. unfold isOpenPart. unfold canonical in Hs.
    apply andb_prop in Hs as [Hs _].
    destruct (String.eqb_spec s "x") as [->|]; [done|].
    destruct (String.eqb_spec s "X") as [->|]; [done|].
    destruct (String.eqb_spec s "*") as [->|]; done. }
  cbn [partial_loop]. destruct (Hp x Hx) as [-> ->], (Hp y Hy) as [-> ->], (Hp z Hz) as [-> ->].
  done.
Qed.

Lemma cut_digit op c s :
  is_digit c = true → op ∈ comparators → cutOperator rangeOps (op +:+ String c s) = (op, String c s).
Proof.
  intros Hc%is_digit_spec Hop.
  assert (Hne : ∀ d, (byte_n d < 48 ∨ 57 < byte_n d)%N → Ascii.eqb c d = false).
  { intros d Hd. apply Ascii.eqb_neq. intros ->. lia. }
  unfold comparators in Hop. rewrite !elem_of_cons in Hop.
  destruct Hop as [->|[->|[->|[->|[->|[->|[->|[->|[->|[]%not_elem_of_nil]]]]]]]]];
    rewrite ?app_cons, ?app_nil_l; unfold rangeOps;
    cbn [cutOperator has_prefix sdrop slen]; rewrite ?Hne by (vm_compute; auto); reflexivity.
Qed.

Lemma incDecimal_val s : canonical s = true →
  canonical (incDecimal s) = true ∧ dec_val (incDecimal s) = (dec_val s + 1)%N.
Proof.
  intros Hs. split; [by apply incDecimal_canonical|].
  by apply incDecimal_digits, canonical_digits.
Qed.

Lemma pred_holds_num op x y z v :
  canonical x = true → canonical y = true → canonical z = true → semver_ok v = true →
  pred_holds (mk_pred op [x; y; z]) v = true ↔
  bound_meaning op (dec_val x) (dec_val y) (dec_val z)
    (dec_val (sv_major v)) (dec_val (sv_minor v)) (dec_val (sv_patch v)).
Proof.
  intros Hx Hy Hz Hv. unfold semver_ok in Hv. apply andb_prop in Hv as [Hv _].
  apply andb_prop in Hv as [[Ha Hb]%andb_prop Hc].
  unfold pred_holds, bound_meaning. cbn [pr_op pr_val]. rewrite triple_cmp_num by done.
  pose proof (lexc_lt3 (dec_val (sv_major v)) (dec_val (sv_minor v)) (dec_val (sv_patch v))
    (dec_val x) (dec_val y) (dec_val z)) as Hlt.
  pose proof (lexc_gt3 (dec_val (sv_major v)) (dec_val (sv_minor v)) (dec_val (sv_patch v))
    (dec_val x) (dec_val y) (dec_val z)) as Hgt.
  destruct (_ <?> _); repeat case_match; cbn; naive_solver.
Qed.

(** The bounds that a comparator with a full version is turned into. *)
Lemma comparator_full op x y z v :
  op ∈ comparators →
  canonical x = true → canonical y = true → canonical z = true → semver_ok v = true →
  ∃ ps, comparatorPredicates (op +:+ dotted [x; y; z]) = Some ps ∧
    (forallb (λ p, pred_holds p v) ps = true ↔
     comparator_meaning op (dec_val x) (dec_val y) (dec_val z)
       (dec_val (sv_major v)) (dec_val (sv_minor v)) (dec_val (sv_patch v))).
Proof.
  intros Hop Hx Hy Hz Hv.
  assert (∃ c s, dotted [x; y; z] = String c s ∧ is_digit c = true) as (c & s & E & Hc).
  { destruct (canonical_digits x Hx) as [Hd Hne]. destruct x as [|c x]; [done|].
    cbn [sforallb] in Hd. apply andb_prop in Hd as [Hd _].
    exists c. eexists. split; [|done]. reflexivity. }
  assert (Hcut : cutOperator rangeOps (op +:+ dotted [x; y; z]) = (op, dotted [x; y; z])).
  { rewrite E. by apply cut_digit. }
  unfold comparatorPredicates. rewrite Hcut, parsePartial_full by done.
  destruct (incDecimal_val x Hx) as [Hix Hvx], (incDecimal_val y Hy) as [Hiy Hvy],
    (incDecimal_val z Hz) as [Hiz Hvz].
  assert (Heq0 : ∀ s, canonical s = true → String.eqb s "0" = true ↔ dec_val s = 0%N).
  { intros t Ht. rewrite String.eqb_eq. split; [by intros ->|].
    intros E0. by apply canonical_inj. }
  pose proof (Heq0 x Hx) as Hx0. pose proof (Heq0 y Hy) as Hy0.
  unfold comparators in Hop. rewrite !elem_of_cons in Hop.
  assert (Hlow : pt_low (mk_partial [x; y; z] 3) = [x; y; z]) by done.
  assert (Hnext : pt_next (mk_partial [x; y; z] 3) 1 = [x; incDecimal y; "0"]) by done.
  assert (Hcaret : pt_next (mk_partial [x; y; z] 3) (caret_index (mk_partial [x; y; z] 3)) =
    if String.eqb x "0" then if String.eqb y "0" then [x; y; incDecimal z] else [x; incDecimal y; "0"]
    else [incDecimal x; "0"; "0"]).
  { unfold caret_index. cbn. by destruct (String.eqb x "0"), (String.eqb y "0"). }
  cbn [pt_n Nat.eqb Nat.sub] in *. rewrite Hlow, Hnext, Hcaret.
  assert (H0 : dec_val "0" = 0%N) by done.
  destruct Hop as [->|[->|[->|[->|[->|[->|[->|[->|[->|[]%not_elem_of_nil]]]]]]]]];
    (eexists; split; [reflexivity|]); cbn [forallb]; rewrite ?andb_true_iff.
  3: destruct (String.eqb x "0"); [destruct (String.eqb y "0")|].
  all: rewrite ?pred_holds_num by done;
    cbv [bound_meaning comparator_meaning ver_lt String.eqb Ascii.eqb Bool.eqb orb];
    rewrite ?Hvx, ?Hvy, ?Hvz, ?H0; clear -Hx0 Hy0; lia.
Qed.

(** ** A spec that is one comparator *)

Lemma split_bars_none s :
  sforallb (λ c, negb (Ascii.eqb c "|"%char)) s = true → split_bars s = [s].
Proof.
  induction s as [|c s IH]; [done|]. cbn [sforallb]. intros [Hc Hs]%andb_prop.
  specialize (IH Hs). apply negb_true_iff, Ascii.eqb_neq in Hc.
  destruct c as [[] [] [] [] [] [] [] []]; cbn [split_bars]; rewrite IH; try done.
Qed.

Lemma comparator_bytes op l :
  op ∈ comparators → Forall (λ x, isDigits x = true) l →
  sforallb comparator_byte (op +:+ dotted l) = true.
Proof.
  intros Hop Hl. rewrite sforallb_app. apply andb_true_iff. split.
  - unfold comparators in Hop. rewrite !elem_of_cons in Hop.
    destruct Hop as [->|[->|[->|[->|[->|[->|[->|[->|[->|[]%not_elem_of_nil]]]]]]]]]; by vm_compute.
  - eapply sforallb_impl; [|by apply dotted_chars].
    assert (forallb (λ c, negb (digit_or_dot c) || comparator_byte c) all_bytes = true) as H
      by by vm_compute.
    rewrite forallb_True, Forall_forall in H. intros c Hc.
    specialize (H c (elem_of_all_bytes c)). by rewrite Hc in H.
Qed.

Lemma npmRangeAllows_word s v :
  sforallb comparator_byte s = true → s ≠ "" → sv_pre v = [] →
  npmRangeAllows s v =
  match comparatorPredicates s with
  | None => (false, false)
  | Some ps => (forallb (λ p, pred_holds p v) ps, true)
  end.
Proof.
  intros Hs Hne Hpre.
  assert (Hw : sforallb word_byte s = true).
  { eapply sforallb_impl; [|exact Hs]. intros c. by intros [[? _]%andb_prop _]%andb_prop. }
  unfold npmRangeAllows, semver_isPrerelease. rewrite Hpre. cbn [length Nat.ltb Nat.leb].
  rewrite trim_space_word by done. rewrite (proj2 (String.eqb_neq _ _) Hne).
  rewrite split_bars_none.
  2:{ eapply sforallb_impl; [|exact Hs]. intros c. by intros [[_ ?]%andb_prop _]%andb_prop. }
  cbn [altLoop]. rewrite trim_space_word by done.
  replace (match_full exactPrereleaseRE s) with false.
  2:{ symmetry. destruct (match_full exactPrereleaseRE s) eqn:E; [|done].
      apply match_full_lang, (excludes_spec (λ c, negb (Ascii.eqb "-"%char c))) in E; [|by vm_compute].
      rewrite <- E. symmetry. eapply sforallb_impl; [|exact Hs]. intros c. by intros [_ ?]%andb_prop. }
  unfold rangePredicates. rewrite fields_trimmed; rewrite ?trim_space_word by done; [|done..].
  cbn [joinOperators rangeLoop]. destruct (comparatorPredicates s) as [ps|]; [|done].
  cbn. rewrite List.app_nil_r. by destruct (forallb _ ps).
Qed.

(** ** Properties *)

(** the planner's npm ranges mean what node-semver says they mean. A spec
    that is one comparator with a full version [x.y.z] of any length of digits
    is always readable, and a release [a.b.c] satisfies it exactly when the
    numbers do: [^] keeps the leftmost non-zero component, [~] the minor one,
    [>], [>=], [<], [<=] compare lexicographically, no operator and [=] ask for
    the same version. *)
Theorem npmRangeAllows_comparator op x y z v :
  op ∈ comparators →
  canonical x = true → canonical y = true → canonical z = true →
  semver_ok v = true → sv_pre v = [] →
  ∃ r, npmRangeAllows (op +:+ dotted [x; y; z]) v = (r, true) ∧
    (r = true ↔
     comparator_meaning op (dec_val x) (dec_val y) (dec_val z)
       (dec_val (sv_major v)) (dec_val (sv_minor v)) (dec_val (sv_patch v))).
Proof.
  intros Hop Hx Hy Hz Hv Hpre.
  destruct (comparator_full op x y z v Hop Hx Hy Hz Hv) as (ps & Hps & Hm).
  eexists. rewrite npmRangeAllows_word; [by rewrite Hps| |  |done].
  - apply comparator_bytes; [done|]. unfold canonical in *.
    apply andb_prop in Hx as [? _], Hy as [? _], Hz as [? _]. repeat constructor; done.
  - destruct op; [|done]. rewrite app_nil_l. unfold dotted, join. cbn.
    destruct x; [by vm_compute in Hx|done].
Qed.

Lemma npmRangeAllows_comparator_witness :
  ∃ r, npmRangeAllows "^0.2.3" (mk_semver "0" "2" "11" []) = (r, true) ∧
    (r = true ↔ comparator_meaning "^" 0 2 3 0 2 11).
Proof.
  apply (npmRangeAllows_comparator "^" "0" "2" "3" (mk_semver "0" "2" "11" []));
    [unfold comparators; set_solver|vm_compute; reflexivity..].
Defined.
