(* ===== verification/ToolSemver.v ===== *)
(** * Release versions and ranges of the tool fetcher

    internal/toolfetch/semver.go: exact versions as three [int64], and
    [rangeAllows] for the engines.node range of a tool.
    [toolfetch_matches_npm] shows that it answers as
    internal/remediation/lang_range.go does wherever it answers. *)

From Stdlib Require Import ZArith Lia Bool Ascii String List.
From stdpp Require Import base gmap strings list.
From S2P Require Import Prelude GoStrings GoRegexp Decimals Semver GoText.
From S2P Require NpmRange.

Open Scope string_scope.
Open Scope Z_scope.
Open Scope nat_scope.
Open Scope list_scope.

(** [version [3]int64] *)
Notation version := (list Z).

Fixpoint version_cmp (a b : version) : comparison :=
  match a, b with
  | x :: a', y :: b' =>
      if (x <? y)%Z then Lt else if (y <? x)%Z then Gt else version_cmp a' b'
  | _, _ => Eq
  end.

Definition version_String (v : version) : string :=
  join "." ((λ z, itoa (Z.to_N z)) <$> v).

Definition decimal (f : string) : option Z :=
  if String.eqb f "" || (9 <? slen f) || ((1 <? slen f) && has_prefix f "0") then None
  else if negb (sforallb is_digit f) then None
  else atoi f.

(** The loop of [parseExact]. *)
Fixpoint decimals (fields : list string) : option (list Z) :=
  match fields with
  | [] => Some []
  | f :: fields' => n ← decimal f; ns ← decimals fields'; Some (n :: ns)
  end.

Definition parseExact (s : string) : option version :=
  let fields := split_byte "."%char s in
  if negb (length fields =? 3) then None else decimals fields.

Record predicate := mk_pred { pr_op : string; pr_val : version }.

Definition pred_holds (p : predicate) (v : version) : bool :=
  let c := version_cmp v (pr_val p) in
  if String.eqb (pr_op p) ">=" then NpmRange.cmp_ge c
  else if String.eqb (pr_op p) ">" then NpmRange.cmp_gt c
  else if String.eqb (pr_op p) "<" then NpmRange.cmp_lt c
  else if String.eqb (pr_op p) "<=" then NpmRange.cmp_le c
  else false.

Record partial := mk_partial { pt_parts : list Z; pt_n : nat }.

Fixpoint partial_loop (fields : list string) (i : nat) (open : bool) (p : partial) : option partial :=
  match fields with
  | [] => Some p
  | f :: fields' =>
      if NpmRange.isOpenPart f then partial_loop fields' (S i) true p
      else match decimal f with
           | Some n =>
               if open then None
               else partial_loop fields' (S i) open (mk_partial (<[i := n]> (pt_parts p)) (S i))
           | None => None
           end
  end.

Definition parsePartial (s : string) : option partial :=
  let s := trim_prefix (trim_prefix s "v") "=" in
  if String.eqb s "" || contains_any s "-+" then None
  else
    let fields := split_byte "."%char s in
    if 3 <? length fields then None
    else partial_loop fields 0 false (mk_partial [0%Z; 0%Z; 0%Z] 0).

Definition pt_low (p : partial) : version := pt_parts p.

(** [v[i]++; for j > i { v[j] = 0 }], on int64. *)
Definition version_next (v : version) (i : nat) : version :=
  take i v ++ int64_wrap (nth i v 0%Z + 1) :: replicate (2 - i) 0%Z.
Definition pt_next (p : partial) (i : nat) : version := version_next (pt_low p) i.

Fixpoint joinOperators (toks : list string) : list string :=
  match toks with
  | [] => []
  | t :: rest =>
      match rest with
      | u :: rest' =>
          if NpmRange.isRangeOp t then (t +:+ u) :: joinOperators rest' else t :: joinOperators rest
      | [] => [t]
      end
  end.

Fixpoint caret_loop (fuel i n : nat) (parts : list Z) : nat :=
  match fuel with
  | O => i
  | S f => if (i <? n - 1) && (nth i parts 0 =? 0)%Z then caret_loop f (S i) n parts else i
  end.
Definition caret_index (p : partial) : nat := caret_loop (pt_n p) 0 (pt_n p) (pt_parts p).

Definition comparator (tok : string) : option (list predicate) :=
  let '(op0, rest) := NpmRange.cutOperator NpmRange.rangeOps tok in
  let op := if String.eqb op0 "~>" then "~" else op0 in
  match parsePartial rest with
  | None => None
  | Some p =>
      let low := pt_low p in
      if pt_n p =? 0 then
        if String.eqb op "" || String.eqb op "^" || String.eqb op "~" || String.eqb op "=" ||
           String.eqb op ">=" || String.eqb op "<=" then Some [] else None
      else if String.eqb op "" || String.eqb op "=" then
        if pt_n p =? 3 then Some [mk_pred ">=" low; mk_pred "<=" low]
        else Some [mk_pred ">=" low; mk_pred "<" (pt_next p (pt_n p - 1))]
      else if String.eqb op "^" then
        Some [mk_pred ">=" low; mk_pred "<" (pt_next p (caret_index p))]
      else if String.eqb op "~" then
        let i := if pt_n p =? 1 then 0 else 1 in
        Some [mk_pred ">=" low; mk_pred "<" (pt_next p i)]
      else if String.eqb op ">=" then Some [mk_pred ">=" low]
      else if String.eqb op ">" then
        if pt_n p =? 3 then Some [mk_pred ">" low]
        else Some [mk_pred ">=" (pt_next p (pt_n p - 1))]
      else if String.eqb op "<" then Some [mk_pred "<" low]
      else if String.eqb op "<=" then
        if pt_n p =? 3 then Some [mk_pred "<=" low]
        else Some [mk_pred "<" (pt_next p (pt_n p - 1))]
      else None
  end.

Definition hyphenPredicates (a b : string) : option (list predicate) :=
  match parsePartial a, parsePartial b with
  | Some lo, Some hi =>
      Some (mk_pred ">=" (pt_low lo) ::
        (if pt_n hi =? 3 then [mk_pred "<=" (pt_low hi)]
         else if pt_n hi =? 0 then []
         else [mk_pred "<" (pt_next hi (pt_n hi - 1))]))
  | _, _ => None
  end.

Fixpoint altTokens (toks : list string) : option (list predicate) :=
  match toks with
  | [] => Some []
  | t :: rest =>
      let single := ps ← comparator t; qs ← altTokens rest; Some (ps ++ qs) in
      match rest with
      | d :: (u :: rest') =>
          if String.eqb d "-" then
            ps ← hyphenPredicates t u; qs ← altTokens rest'; Some (ps ++ qs)
          else single
      | _ => single
      end
  end.

Definition altPredicates (alt : string) : option (list predicate) :=
  altTokens (joinOperators (fields alt)).

(** The loop over the alternatives; the result is [(allowed, ok)]. *)
Fixpoint altLoop (alts : list string) (v : version) (found : bool) : bool * bool :=
  match alts with
  | [] => (found, true)
  | alt :: alts' =>
      match altPredicates alt with
      | None => (false, false)
      | Some preds => altLoop alts' v (found || forallb (λ p, pred_holds p v) preds)
      end
  end.

Definition rangeAllows (spec : string) (v : version) : bool * bool :=
  let spec := trim_space spec in
  if String.eqb spec "" then (true, true)
  else altLoop (split_bars spec) v false.

(** ** The two models side by side

    [num s z]: the decimal string [s] of the npm reader and the int64 [z] of
    the fetcher are the same component. *)

Definition num (s : string) (z : Z) : Prop :=
  canonical s = true ∧ Z.of_N (dec_val s) = z.

Definition same_pred (p : NpmRange.predicate) (q : predicate) : Prop :=
  NpmRange.pr_op p = pr_op q ∧ Forall2 num (NpmRange.pr_val p) (pr_val q).

(** [n] leading parts are given, small enough not to overflow when raised. *)
Definition same_partial (p : NpmRange.partial) (q : partial) : Prop :=
  NpmRange.pt_n p = pt_n q ∧ pt_n q <= 3 ∧
  ∃ ss zs, NpmRange.pt_parts p = ss ++ replicate (3 - pt_n q) "" ∧
    pt_parts q = zs ++ replicate (3 - pt_n q) 0%Z ∧
    length ss = pt_n q ∧ Forall2 num ss zs ∧ Forall (λ z, 0 <= z < 10 ^ 9)%Z zs.

Lemma decimal_num f n :
  decimal f = Some n →
  num f n ∧ (0 <= n < 10 ^ 9)%Z ∧ isDigits f && (String.eqb f "0" || negb (has_prefix f "0")) = true.
Proof.
  unfold decimal. destruct (String.eqb f "" || _ || _) eqn:E; [done|].
  apply orb_false_elim in E as [[E1 E2]%orb_false_elim E3].
  destruct (sforallb is_digit f) eqn:Hd; [|done]. cbn [negb]. unfold atoi. rewrite E1, Hd. cbn [negb andb].
  apply Nat.ltb_ge in E2. pose proof (dec_val_lt f Hd) as Hv.
  assert ((10 ^ N.of_nat (slen f) <= 10 ^ 9)%N) by (apply N.pow_le_mono_r; lia).
  change (10 ^ 9)%N with 1000000000%N in *. change (10 ^ 9)%Z with 1000000000%Z.
  change (2 ^ 63)%Z with 9223372036854775808%Z.
  destruct (_ <? _)%Z eqn:El; [|apply Z.ltb_ge in El; lia]. intros [= <-].
  assert (Hc : isDigits f && (String.eqb f "0" || negb (has_prefix f "0")) = true).
  { rewrite andb_true_iff. split; [by unfold isDigits; rewrite E1|].
    rewrite orb_true_iff, negb_true_iff. destruct (has_prefix f "0") eqn:Hp; [left|by right].
    rewrite andb_true_r in E3. apply Nat.ltb_ge in E3. destruct f as [|c f]; [done|].
    rewrite slen_cons in E3. assert (f = "") as -> by (apply slen_0; lia).
    cbn [has_prefix] in Hp. rewrite andb_true_r in Hp. by apply Ascii.eqb_eq in Hp as ->. }
  split; [by split|]. split; [lia|done].
Qed.

Lemma zcmp_lexc x y c :
  (if (x <? y)%Z then Lt else if (y <? x)%Z then Gt else c) = (Z.compare x y <?> c).
Proof.
  destruct (Z.compare_spec x y) as [->|H|H]; cbn [lexc].
  - by rewrite Z.ltb_irrefl.
  - by rewrite (proj2 (Z.ltb_lt _ _)).
  - by rewrite (proj2 (Z.ltb_ge _ _)), (proj2 (Z.ltb_lt _ _)) by lia.
Qed.

Lemma version_cmp_num a b x y :
  Forall2 num a x → Forall2 num b y → NpmRange.triple_cmp a b = version_cmp x y.
Proof.
  intros Ha. revert b y. induction Ha as [|s z a x [Hs Hz] Ha IH]; intros b y Hb; [by destruct Hb|].
  destruct Hb as [|t w b y [Ht Hw] Hb]; [done|]. cbn [NpmRange.triple_cmp version_cmp].
  rewrite cmpNum_dec, (IH b y), zcmp_lexc by done. subst z w. by rewrite N2Z.inj_compare.
Qed.

Lemma same_pred_holds p q v w :
  same_pred p q → Forall2 num [sv_major v; sv_minor v; sv_patch v] w →
  NpmRange.pred_holds p v = pred_holds q w.
Proof.
  intros [Ho Hv] Hw. unfold NpmRange.pred_holds, pred_holds.
  by rewrite (version_cmp_num _ _ _ _ Hw Hv), Ho.
Qed.

Lemma partial_loop_sim fields i open p q q' :
  same_partial p q → i + length fields <= 3 → (open = false → pt_n q = i) →
  partial_loop fields i open q = Some q' →
  ∃ p', NpmRange.partial_loop fields i open p = Some p' ∧ same_partial p' q'.
Proof.
  revert i open p q. induction fields as [|f fields IH]; intros i open p q Hpq Hi Ho; cbn.
  { intros [= <-]. by exists p. }
  cbn [length] in Hi. destruct (NpmRange.isOpenPart f); [by apply IH; [done|lia|]|].
  destruct (decimal f) as [n|] eqn:Hd; [|done]. destruct open; [done|].
  destruct (decimal_num f n Hd) as (Hn & Hb & ->). apply IH; [|lia|done].
  specialize (Ho eq_refl) as <-. destruct Hpq as (En & Hl & ss & zs & Es & Ez & Hs & Hnum & Hbs).
  pose proof (Forall2_length _ _ _ Hnum) as Hsz.
  split; [done|]. cbn [pt_n pt_parts NpmRange.pt_parts]. split; [lia|].
  exists (ss ++ [f]), (zs ++ [n]). rewrite Es, Ez.
  replace (3 - pt_n q) with (S (3 - S (pt_n q))) by lia. cbn [replicate].
  rewrite <- !app_assoc. cbn [app]. split; [|split; [|split; [rewrite length_app; simpl; lia|split]]].
  - rewrite insert_app_r_alt by lia. by replace (pt_n q - length ss) with 0 by lia.
  - rewrite insert_app_r_alt by lia. by replace (pt_n q - length zs) with 0 by lia.
  - apply Forall2_app; [done|]. by constructor.
  - apply Forall_app. split; [done|]. by constructor.
Qed.

Lemma parsePartial_sim s q :
  parsePartial s = Some q → ∃ p, NpmRange.parsePartial s = Some p ∧ same_partial p q.
Proof.
  unfold parsePartial, NpmRange.parsePartial. destruct (String.eqb _ _ || _); [done|].
  destruct (Nat.ltb_spec 3 (length (split_byte "."%char (trim_prefix (trim_prefix s "v") "=")))); [done|].
  apply partial_loop_sim; [|lia|done].
  split; [done|]. split; [cbn; lia|]. exists [], []. repeat split; constructor.
Qed.

Lemma num_zeros k : Forall2 num (replicate k "0") (replicate k 0%Z).
Proof. induction k; constructor; [by split|done]. Qed.

Lemma same_low p q : same_partial p q →
  Forall2 num (NpmRange.pt_low p) (pt_low q) ∧ length (pt_low q) = 3 ∧
  Forall (λ z, 0 <= z < 10 ^ 9)%Z (pt_low q).
Proof.
  intros (En & Hl & ss & zs & Es & Ez & Hs & Hnum & Hb). pose proof (Forall2_length _ _ _ Hnum).
  unfold NpmRange.pt_low, pt_low. rewrite En, Es, Ez, take_app_length' by done.
  split; [apply Forall2_app; [done|apply num_zeros]|].
  split; [rewrite length_app, length_replicate; lia|].
  apply Forall_app. split; [done|]. apply Forall_replicate. lia.
Qed.

Lemma num_succ s z : num s z → (0 <= z < 10 ^ 9)%Z → num (incDecimal s) (int64_wrap (z + 1)).
Proof.
  intros [Hc <-] Hb. rewrite int64_wrap_id by (unfold int64_ok; lia).
  split; [by apply incDecimal_canonical|].
  destruct (incDecimal_digits s) as [_ ->]; [by apply canonical_digits|]. lia.
Qed.

Lemma same_next p q i : same_partial p q → i < 3 →
  Forall2 num (NpmRange.pt_next p i) (pt_next q i).
Proof.
  intros Hpq Hi. destruct (same_low p q Hpq) as (Hn & Hl & Hb).
  unfold NpmRange.pt_next, pt_next, NpmRange.triple_next, version_next.
  apply Forall2_app; [by apply Forall2_take|]. constructor; [|apply num_zeros].
  destruct (lookup_lt_is_Some_2 (pt_low q) i) as [z Hz]; [lia|].
  destruct (Forall2_lookup_r _ _ _ _ _ Hn Hz) as (s & Hs & Hsz).
  rewrite (nth_lookup_Some _ _ _ _ Hs), (nth_lookup_Some _ _ _ _ Hz).
  apply num_succ; [done|]. by apply (Forall_lookup_1 _ _ _ _ Hb Hz).
Qed.

Lemma num_zero s z : num s z → String.eqb s "0" = (z =? 0)%Z.
Proof.
  intros [Hc <-]. destruct (String.eqb_spec s "0") as [->|Hne]; [done|].
  symmetry. apply Z.eqb_neq. intros E. apply Hne. apply canonical_inj; [done..|].
  change (dec_val "0") with 0%N. lia.
Qed.

Lemma caret_loop_sim fuel i n ss zs :
  Forall2 num ss zs → length ss = n →
  NpmRange.caret_loop fuel i n (ss ++ replicate (3 - n) "") =
  caret_loop fuel i n (zs ++ replicate (3 - n) 0%Z).
Proof.
  intros Hnum Hs. revert i. induction fuel as [|fuel IH]; intros i; [done|].
  cbn [NpmRange.caret_loop caret_loop].
  destruct (Nat.ltb_spec i (n - 1)); [|done]. cbn [andb].
  destruct (lookup_lt_is_Some_2 ss i) as [s E1]; [lia|].
  destruct (Forall2_lookup_l _ _ _ _ _ Hnum E1) as (z & E2 & Hsz).
  rewrite (nth_lookup_Some _ _ _ s), (nth_lookup_Some _ _ _ z) by (by apply lookup_app_l_Some).
  by rewrite (num_zero _ _ Hsz), IH.
Qed.

Lemma same_caret p q : same_partial p q → NpmRange.caret_index p = caret_index q.
Proof.
  intros (En & Hl & ss & zs & Es & Ez & Hs & Hnum & Hb). unfold NpmRange.caret_index, caret_index.
  rewrite En, Es, Ez. by apply caret_loop_sim.
Qed.

Lemma caret_index_lt q : 0 < pt_n q <= 3 → caret_index q < 3.
Proof.
  intros Hn. unfold caret_index.
  assert (∀ fuel i, i < pt_n q → caret_loop fuel i (pt_n q) (pt_parts q) < pt_n q) as H.
  { induction fuel as [|fuel IH]; intros i Hi; [done|]. cbn [caret_loop].
    destruct (Nat.ltb_spec i (pt_n q - 1)); [|done]. cbn [andb].
    destruct (_ =? _)%Z; [apply IH; lia|done]. }
  pose proof (H (pt_n q) 0). lia.
Qed.

(** Two results of the readers: the npm one is the fetcher's. *)
Definition same_preds (o : option (list NpmRange.predicate)) (l : list predicate) : Prop :=
  ∃ k, o = Some k ∧ Forall2 same_pred k l.

Ltac same_bounds Hpq :=
  eexists; split; [reflexivity|];
  repeat (apply List.Forall2_cons; [split; [reflexivity|]; cbn [NpmRange.pr_val pr_val];
    first [apply (same_low _ _ Hpq)|apply (same_next _ _ _ Hpq); lia]|]);
  apply List.Forall2_nil.

Lemma comparator_sim tok l :
  comparator tok = Some l → same_preds (NpmRange.comparatorPredicates tok) l.
Proof.
  unfold comparator, NpmRange.comparatorPredicates.
  destruct (NpmRange.cutOperator NpmRange.rangeOps tok) as [op0 rest].
  set (op := if String.eqb op0 "~>" then "~" else op0). clearbody op.
  destruct (parsePartial rest) as [q|] eqn:Hq; [|done].
  destruct (parsePartial_sim _ _ Hq) as (p & -> & Hpq). pose proof Hpq as (-> & Hl & _).
  rewrite (same_caret _ _ Hpq).
  destruct (Nat.eqb_spec (pt_n q) 0) as [Hz|Hz].
  { destruct (_ || _); [|done]. intros [= <-]. by exists []. }
  pose proof (caret_index_lt q ltac:(lia)).
  repeat (case_match; try done); intros [= <-]; same_bounds Hpq.
Qed.

Lemma hyphen_sim a b l :
  hyphenPredicates a b = Some l → same_preds (NpmRange.hyphenPredicates a b) l.
Proof.
  unfold hyphenPredicates, NpmRange.hyphenPredicates.
  destruct (parsePartial a) as [q|] eqn:Ha; [|done]. destruct (parsePartial b) as [q'|] eqn:Hb; [|done].
  destruct (parsePartial_sim _ _ Ha) as (p & -> & Hp). destruct (parsePartial_sim _ _ Hb) as (p' & -> & Hp').
  pose proof Hp' as (-> & Hl & _). destruct (Nat.eqb_spec (pt_n q') 3), (Nat.eqb_spec (pt_n q') 0);
    intros [= <-]; (eexists; split; [reflexivity|]);
    (apply List.Forall2_cons; [split; [done|]; apply (same_low _ _ Hp)|]);
    try (apply List.Forall2_nil);
    (apply List.Forall2_cons; [split; [done|]; first [apply (same_low _ _ Hp')|apply (same_next _ _ _ Hp'); lia]|apply List.Forall2_nil]).
Qed.

Lemma same_preds_app o o' l l' :
  same_preds o l → same_preds o' l' →
  same_preds (ps ← o; qs ← o'; Some (ps ++ qs)) (l ++ l').
Proof. intros (k & -> & Hk) (k' & -> & Hk'). exists (k ++ k'). split; [done|]. by apply Forall2_app. Qed.

Lemma altTokens_sim toks l :
  altTokens toks = Some l → same_preds (NpmRange.rangeLoop toks) l.
Proof.
  remember (length toks) as n eqn:Hn. assert (length toks ≤ n) as Hl by lia. clear Hn.
  revert toks l Hl. induction n as [|n IH]; intros [|t toks] l Hl;
    [intros [= <-]; by exists []|simpl in Hl; lia|intros [= <-]; by exists []|].
  cbn [length] in Hl.
  assert (Hone : ∀ l, (ps ← comparator t; qs ← altTokens toks; Some (ps ++ qs)) = Some l →
    same_preds (ps ← NpmRange.comparatorPredicates t; qs ← NpmRange.rangeLoop toks; Some (ps ++ qs)) l).
  { intros l'. destruct (comparator t) as [ps|] eqn:Hps; [|done].
    destruct (altTokens toks) as [qs|] eqn:Hqs; [|done]. intros [= <-].
    apply same_preds_app; [by apply comparator_sim|apply IH; [lia|done]]. }
  cbn [altTokens NpmRange.rangeLoop]. destruct toks as [|d [|u toks]]; [apply Hone..|].
  destruct (String.eqb d "-"); [|apply Hone]. cbn [length] in Hl.
  destruct (hyphenPredicates t u) as [ps|] eqn:Hps; [|done].
  destruct (altTokens toks) as [qs|] eqn:Hqs; [|done]. intros [= <-].
  apply same_preds_app; [by apply hyphen_sim|apply IH; [lia|done]].
Qed.

(** ** Pre-release bounds

    The npm reader skips an alternative that is one pre-release version; the
    fetcher does not read such an alternative at all. *)

Lemma sexistsb_app p s t : sexistsb p (s +:+ t) = sexistsb p s || sexistsb p t.
Proof. induction s as [|c s IH]; [done|]. rewrite app_cons. cbn [sexistsb]. by rewrite IH, orb_assoc. Qed.

Lemma trim_prefix_contains c s p :
  contains_byte c p = false → contains_byte c (trim_prefix s p) = contains_byte c s.
Proof.
  unfold trim_prefix, contains_byte. intros Hp. destruct (has_prefix s p) eqn:E; [|done].
  rewrite (has_prefix_split s p E) at 2. by rewrite sexistsb_app, Hp.
Qed.

Lemma cutOperator_contains c ops tok :
  Forall (λ o, contains_byte c o = false) ops →
  contains_byte c (NpmRange.cutOperator ops tok).2 = contains_byte c tok.
Proof.
  induction 1 as [|o ops Ho _ IH]; [done|]. cbn [NpmRange.cutOperator].
  destruct (has_prefix tok o) eqn:E; [|done]. cbn [snd].
  pose proof (trim_prefix_contains c tok o Ho) as H. unfold trim_prefix in H. by rewrite E in H.
Qed.

Lemma sexistsb_impl (p q : ascii → bool) s :
  (∀ c, p c = true → q c = true) → sexistsb p s = true → sexistsb q s = true.
Proof.
  intros H. induction s as [|c s IH]; [done|]. cbn [sexistsb].
  intros [Hc|Hs]%orb_prop; [by rewrite (H c Hc)|by rewrite (IH Hs), orb_true_r].
Qed.

Lemma dash_unreadable tok : contains_byte "-"%char tok = true → comparator tok = None.
Proof.
  intros Hd. unfold comparator.
  destruct (NpmRange.cutOperator NpmRange.rangeOps tok) as [op rest] eqn:E.
  assert (contains_byte "-"%char rest = true) as Hr.
  { change rest with (op, rest).2. rewrite <- E, cutOperator_contains; [done|]. repeat constructor. }
  unfold parsePartial. replace (contains_any _ "-+") with true; [by rewrite orb_true_r|].
  symmetry. apply (sexistsb_impl (Ascii.eqb "-"%char)); [by intros c <-%Ascii.eqb_eq|].
  fold (contains_byte "-"%char (trim_prefix (trim_prefix rest "v") "=")).
  by rewrite !trim_prefix_contains.
Qed.

Lemma exactPrerelease_unreadable alt :
  match_full NpmRange.exactPrereleaseRE (trim_space alt) = true → altPredicates alt = None.
Proof.
  intros Hm%match_full_lang.
  assert (Hd : sforallb (λ c, negb (Ascii.eqb "-"%char c)) (trim_space alt) = false).
  { apply (excludes_spec _ NpmRange.exactPrereleaseRE); [by vm_compute|done]. }
  apply sforallb_neg in Hd.
  unfold altPredicates. rewrite fields_trimmed.
  - cbn [joinOperators altTokens]. by rewrite dash_unreadable.
  - by intros E; rewrite E in Hd.
  - apply (only_spec _ NpmRange.exactPrereleaseRE); [by vm_compute|done].
Qed.

Lemma altPredicates_sim alt l :
  altPredicates alt = Some l → same_preds (NpmRange.rangePredicates alt) l.
Proof. apply altTokens_sim. Qed.

Lemma preds_agree k l v w :
  Forall2 same_pred k l → Forall2 num [sv_major v; sv_minor v; sv_patch v] w →
  forallb (λ p, NpmRange.pred_holds p v) k = forallb (λ p, pred_holds p w) l.
Proof.
  intros Hk Hw. induction Hk as [|p q k l Hp _ IH]; [done|]. cbn [forallb].
  by rewrite (same_pred_holds p q v w Hp Hw), IH.
Qed.

Lemma altLoop_sim alts v w found r :
  Forall2 num [sv_major v; sv_minor v; sv_patch v] w →
  altLoop alts w found = (r, true) → NpmRange.altLoop alts v found = (r, true).
Proof.
  intros Hw. revert found. induction alts as [|alt alts IH]; intros found; [done|].
  cbn [altLoop NpmRange.altLoop].
  destruct (altPredicates alt) as [l|] eqn:Hl; [|done].
  destruct (match_full _ _) eqn:Hm; [by rewrite exactPrerelease_unreadable in Hl|].
  destruct (altPredicates_sim _ _ Hl) as (k & -> & Hk). rewrite (preds_agree k l v w Hk Hw).
  intros H. apply IH. rewrite <- H. by destruct found, (forallb _ l).
Qed.

Lemma decimals_num fs ns : decimals fs = Some ns → Forall2 num fs ns.
Proof.
  revert ns. induction fs as [|f fs IH]; intros ns; cbn; [by intros [= <-]|].
  destruct (decimal f) as [n|] eqn:Hf; [|done]. destruct (decimals fs) as [ms|] eqn:Hfs; [|done].
  cbn. intros [= <-]. constructor; [by destruct (decimal_num f n Hf)|by apply IH].
Qed.

Lemma parseExact_semver s v :
  parseExact s = Some v →
  ∃ w, parseSemver s = Some w ∧ sv_pre w = [] ∧ Forall2 num [sv_major w; sv_minor w; sv_patch w] v.
Proof.
  unfold parseExact. destruct (Nat.eqb_spec (length (split_byte "."%char s)) 3) as [H3|]; [|done].
  cbn [negb]. intros Hd%decimals_num. pose proof (join_split "."%char s) as Hj.
  destruct (split_byte "."%char s) as [|x [|y [|z [|? ?]]]]; try done.
  exists (mk_semver x y z []). split; [|done]. apply parseSemver_iff.
  inversion_clear Hd as [|?? ?? [Hx _] Hd']. inversion_clear Hd' as [|?? ?? [Hy _] Hd'']. 
  inversion_clear Hd'' as [|?? ?? [Hz _] _].
  split; [unfold semver_ok; cbn; by rewrite Hx, Hy, Hz|]. exists "". split; [done|].
  rewrite <- Hj. unfold semver_render. cbn. by rewrite !app_nil_r.
Qed.

(** ** Properties *)

(** The fetcher's reader of [engines.node] ranges and the npm range reader
    of the remediation planner agree: for an exact version of the fetcher,
    which is also a semantic version, whenever the fetcher can read the range
    the planner can, and both give the same answer. The components of the two
    readers (64-bit integers here, decimal strings there) never diverge, so no
    bound overflows. *)
Theorem rangeAllows_matches_npm spec s v r :
  parseExact s = Some v → rangeAllows spec v = (r, true) →
  ∃ w, parseSemver s = Some w ∧ NpmRange.npmRangeAllows spec w = (r, true).
Proof.
  intros Hs Hr. destruct (parseExact_semver s v Hs) as (w & Hw & Hpre & Hnum).
  exists w. split; [done|]. unfold NpmRange.npmRangeAllows, semver_isPrerelease. rewrite Hpre.
  cbn [length Nat.ltb Nat.leb]. unfold rangeAllows in Hr.
  destruct (String.eqb (trim_space spec) ""); [done|]. by apply (altLoop_sim _ _ v).
Qed.

Lemma rangeAllows_matches_npm_witness :
  ∃ w, parseSemver "20.11.1" = Some w ∧
    NpmRange.npmRangeAllows "^18.17 || >= 20.5 <22 || 16.1.0 - 16.9" w = (true, true).
Proof.
  apply (rangeAllows_matches_npm _ "20.11.1" [20; 11; 1]%Z true); vm_compute; reflexivity.
Defined.
