(* ===== verification/Reference.v ===== *)
(** * Image references and digests

    internal/inventory/reference.go and the digest part of identity.go: what a
    well-formed image reference is, its repository, tag and digest, the
    normalized repository key, and the content digest type. *)

From Stdlib Require Import ZArith Lia Bool Ascii String List.
From stdpp Require Import base gmap strings list.
From S2P Require Import Prelude GoStrings GoRegexp Semver GoText.

Open Scope string_scope.
Open Scope nat_scope.
Open Scope list_scope.

(** ** Digests *)

Definition is_hex_lower (c : ascii) : bool := is_digit c || in_range 97 102 c.
Definition is_hex (c : ascii) : bool := is_digit c || in_range 97 102 c || in_range 65 70 c.

(** [^sha256:[0-9a-f]{64}$] *)
Definition digestPattern : re := RSeq (RLit "sha256:") (RRep 64 (RClass is_hex_lower)).

(** [DigestKind] is a string type; these are its named values. *)
Definition DigestUnknown : string := "".
Definition DigestConfig : string := "config".
Definition DigestRegistry : string := "registry".

Record Digest := mk_digest { dg_Kind : string; dg_Algorithm : string; dg_Hex : string }.
Definition zero_digest : Digest := mk_digest "" "" "".

#[export] Instance Digest_eq_dec : EqDecision Digest.
Proof. solve_decision. Defined.

Definition Digest_Valid (d : Digest) : bool :=
  if negb (String.eqb (dg_Kind d) DigestConfig) && negb (String.eqb (dg_Kind d) DigestRegistry)
  then false
  else if negb (String.eqb (dg_Algorithm d) "sha256") then false
  else match_full digestPattern (dg_Algorithm d +:+ ":" +:+ dg_Hex d).

Definition Digest_String (d : Digest) : string :=
  if negb (Digest_Valid d) then "" else dg_Algorithm d +:+ ":" +:+ dg_Hex d.

Definition ParseDigest (kind s : string) : Digest * bool :=
  if negb (match_full digestPattern s) then (zero_digest, false)
  else
    let d := mk_digest kind "sha256" (sdrop (slen "sha256:") s) in
    if negb (Digest_Valid d) then (zero_digest, false) else (d, true).

(** ** References *)

Definition is_lower_alnum (c : ascii) : bool := is_lower c || is_digit c.

(** [^[a-z0-9]+(?:(?:[._]|__|-+)[a-z0-9]+)*$] *)
Definition refPathComponentRE : re :=
  RSeq (RPlus (RClass is_lower_alnum))
    (RStar (RSeq (RAlts [RClass (λ c, Ascii.eqb c "."%char || Ascii.eqb c "_"%char);
                         RLit "__"; RPlus (RChar "-"%char)])
                 (RPlus (RClass is_lower_alnum)))).

(** A registry host: a name or a bracketed IPv6 address, and an optional port. *)
Definition refHostRE : re :=
  RSeq
    (RAlt
      (RSeq (RClass is_alnum)
        (ROpt (RSeq (RStar (RClass (λ c, is_alnum c || Ascii.eqb c "."%char || Ascii.eqb c "-"%char)))
                    (RClass is_alnum))))
      (RSeqs [RChar "["%char;
              RPlus (RClass (λ c, is_hex c || Ascii.eqb c ":"%char || Ascii.eqb c "."%char));
              RChar "]"%char]))
    (ROpt (RSeq (RChar ":"%char) (RPlus RDigit))).

(** [^[A-Za-z0-9_][A-Za-z0-9_.-]{0,127}$] *)
Definition refTagRE : re :=
  RSeq (RClass (λ c, is_alnum c || Ascii.eqb c "_"%char))
    (RUpTo 127 (RClass (λ c, is_alnum c || Ascii.eqb c "_"%char || Ascii.eqb c "."%char
                             || Ascii.eqb c "-"%char))).

Definition isRegistryHost (s : string) : bool :=
  contains_any s ".:[" || String.eqb s "localhost".

(** The part after [@], when there is one; the name before it. *)
Definition cutDigest (ref : string) : option (string * string) :=
  match index_byte ref "@"%char with
  | Some i =>
      let digest := sdrop (S i) ref in
      if negb (match_full digestPattern digest) then None else Some (stake i ref, digest)
  | None => Some (ref, "")
  end.

(** The part after the last colon, unless the colon belongs to a port. *)
Definition cutTag (name : string) : option (string * string) :=
  match last_index_byte name ":"%char with
  | Some i =>
      if contains_byte "/"%char (sdrop i name) then Some (name, "")
      else
        let tag := sdrop (S i) name in
        if negb (match_full refTagRE tag) then None else Some (stake i name, tag)
  | None => Some (name, "")
  end.

(** The checks on the repository path. *)
Definition validName (name : string) : bool :=
  if String.eqb name "" || String.eqb name "sha256" then false
  else
    let parts := split_byte "/"%char name in
    match parts with
    | host :: ((_ :: _) as tail) =>
        if isRegistryHost host then
          match_full refHostRE host && forallb (match_full refPathComponentRE) tail
        else forallb (match_full refPathComponentRE) parts
    | _ => forallb (match_full refPathComponentRE) parts
    end.

(** [splitReference]: repository, tag and digest part, [None] when the text is
    not a well-formed named reference. *)
Definition splitReference (ref : string) : option (string * string * string) :=
  if String.eqb ref "" || negb (String.eqb ref (trim_space ref)) then None
  else
    match cutDigest ref with
    | None => None
    | Some (name, digest) =>
        match cutTag name with
        | None => None
        | Some (name, tag) => if validName name then Some (name, tag, digest) else None
        end
    end.

Definition RepositoryOf (ref : string) : option string :=
  match splitReference ref with Some (repo, _, _) => Some repo | None => None end.

Definition TagOf (ref : string) : string :=
  match splitReference ref with Some (_, tag, _) => tag | None => "" end.

Definition DigestOf (ref : string) : string :=
  match splitReference ref with Some (_, _, digest) => digest | None => "" end.

Definition HasRegistryHost (ref : string) : bool :=
  match RepositoryOf ref with
  | None => false
  | Some repo =>
      let parts := split_byte "/"%char repo in
      (1 <? length parts) && isRegistryHost (nth 0 parts "")
  end.

Definition RepositoryKey (ref : string) : option string :=
  match RepositoryOf ref with
  | None => None
  | Some repo =>
      let parts := split_byte "/"%char repo in
      let '(host, parts) :=
        if (1 <? length parts) && isRegistryHost (nth 0 parts "")
        then (nth 0 parts "", drop 1 parts) else ("docker.io", parts) in
      let host :=
        if String.eqb host "index.docker.io" || String.eqb host "registry-1.docker.io"
        then "docker.io" else host in
      let parts :=
        if String.eqb host "docker.io" && (length parts =? 1) then ["library"; nth 0 parts ""]
        else parts in
      Some (host +:+ "/" +:+ join "/" parts)
  end.

(** The text of a reference with the given parts, [""] for a missing one. *)
Definition render_reference (repo tag digest : string) : string :=
  repo +:+ (if String.eqb tag "" then "" else ":" +:+ tag)
       +:+ (if String.eqb digest "" then "" else "@" +:+ digest).

(** A repository as [splitReference] accepts it; the spec of a reference. *)
Definition reference_ok (repo tag digest : string) : bool :=
  validName repo && (String.eqb tag "" || match_full refTagRE tag) &&
  (String.eqb digest "" || match_full digestPattern digest).

(** The bytes a reference is made of, and those of its parts. *)
Definition component_byte (c : ascii) : bool :=
  is_lower_alnum c || Ascii.eqb c "."%char || Ascii.eqb c "_"%char || Ascii.eqb c "-"%char.
Definition host_byte (c : ascii) : bool :=
  is_alnum c || Ascii.eqb c "."%char || Ascii.eqb c "-"%char || Ascii.eqb c ":"%char
  || Ascii.eqb c "["%char || Ascii.eqb c "]"%char.
Definition tag_byte (c : ascii) : bool :=
  is_alnum c || Ascii.eqb c "."%char || Ascii.eqb c "_"%char || Ascii.eqb c "-"%char.
Definition digest_byte (c : ascii) : bool := is_alnum c || Ascii.eqb c ":"%char.
Definition reference_byte (c : ascii) : bool :=
  component_byte c || host_byte c || tag_byte c || digest_byte c || Ascii.eqb c "/"%char
  || Ascii.eqb c "@"%char.

(** ** Finding a byte *)

Lemma index_byte_None s c : index_byte s c = None ↔ contains_byte c s = false.
Proof.
  unfold contains_byte. induction s as [|d s IH]; [done|]. cbn [index_byte sexistsb].
  rewrite (Ascii.eqb_sym c d). destruct (Ascii.eqb d c); [done|].
  rewrite fmap_None, IH. done.
Qed.

Lemma index_byte_Some s c i : index_byte s c = Some i → s = stake i s +:+ String c (sdrop (S i) s).
Proof.
  revert i. induction s as [|d s IH]; intros i; [done|]. cbn [index_byte].
  destruct (Ascii.eqb_spec d c) as [->|]; [by intros [= <-]|].
  intros (j & Hj & ->)%fmap_Some. cbn [stake sdrop]. rewrite app_cons. f_equal. by apply IH.
Qed.

Lemma index_byte_app s c t :
  contains_byte c s = false → index_byte (s +:+ String c t) c = Some (slen s).
Proof.
  unfold contains_byte. induction s as [|d s IH]; intros Hs.
  - rewrite app_nil_l. cbn [index_byte]. by rewrite Ascii.eqb_refl.
  - rewrite app_cons. cbn [index_byte sexistsb] in *. apply orb_false_elim in Hs as [Hd Hs].
    rewrite (Ascii.eqb_sym d c), Hd, (IH Hs). done.
Qed.

Lemma last_index_byte_None s c : last_index_byte s c = None ↔ contains_byte c s = false.
Proof.
  unfold contains_byte. induction s as [|d s IH]; [done|]. cbn [last_index_byte sexistsb].
  rewrite (Ascii.eqb_sym c d).
  destruct (last_index_byte s c) as [i|].
  - destruct (sexistsb (Ascii.eqb c) s); [by rewrite orb_true_r|]. naive_solver.
  - destruct IH as [IH _]. rewrite IH by done. by destruct (Ascii.eqb d c).
Qed.

Lemma last_index_byte_Some s c i :
  last_index_byte s c = Some i →
  s = stake i s +:+ String c (sdrop (S i) s) ∧ sdrop i s = String c (sdrop (S i) s).
Proof.
  revert i. induction s as [|d s IH]; intros i; [done|]. cbn [last_index_byte].
  destruct (last_index_byte s c) as [j|] eqn:E.
  - intros [= <-]. destruct (IH j eq_refl) as [IH1 IH2]. cbn [stake sdrop]. rewrite app_cons.
    split; [by f_equal|done].
  - destruct (Ascii.eqb_spec d c) as [->|]; [|done]. by intros [= <-].
Qed.

Lemma last_index_byte_app s c t :
  contains_byte c t = false →
  last_index_byte (s +:+ String c t) c = Some (slen s).
Proof.
  intros Ht%last_index_byte_None. induction s as [|d s IH].
  - rewrite app_nil_l. cbn [last_index_byte]. by rewrite Ht, Ascii.eqb_refl.
  - rewrite app_cons. cbn [last_index_byte]. by rewrite IH.
Qed.

Lemma last_index_byte_left s c t :
  contains_byte c t = false → last_index_byte (s +:+ t) c = last_index_byte s c.
Proof.
  intros Ht%last_index_byte_None. induction s as [|d s IH]; [by rewrite app_nil_l|].
  rewrite app_cons. cbn [last_index_byte]. by rewrite IH.
Qed.

Lemma last_index_byte_lt s c i : last_index_byte s c = Some i → i < slen s.
Proof.
  revert i. induction s as [|d s IH]; intros i; [done|]. cbn [last_index_byte]. rewrite slen_cons.
  destruct (last_index_byte s c) as [j|].
  - intros [= <-]. specialize (IH j eq_refl). lia.
  - destruct (Ascii.eqb d c); [intros [= <-]; lia|done].
Qed.

Lemma contains_byte_app c s t : contains_byte c (s +:+ t) = contains_byte c s || contains_byte c t.
Proof. unfold contains_byte. induction s as [|d s IH]; [done|]. rewrite app_cons. cbn [sexistsb]. by rewrite IH, orb_assoc. Qed.

Lemma sdrop_app_lt i s t : i <= slen s → sdrop i (s +:+ t) = sdrop i s +:+ t.
Proof.
  revert s. induction i as [|i IH]; intros [|d s] Hi; [done|done|simpl in Hi; lia|].
  - rewrite slen_cons in Hi. rewrite app_cons. cbn [sdrop]. apply IH. lia.
Qed.

(** A byte outside the class that a text is made of. *)
Lemma bytes_contains p c s : sforallb p s = true → p c = false → contains_byte c s = false.
Proof.
  intros Hs Hc. unfold contains_byte. apply sexistsb_false. eapply sforallb_impl; [|exact Hs].
  intros d Hd. simpl. apply negb_true_iff, Ascii.eqb_neq. intros <-. congruence.
Qed.

(** ** Well-formed parts *)

Lemma lang_bytes p r s : only p r = true → match_full r s = true → sforallb p s = true.
Proof. intros Hr Hs%match_full_lang. by apply (only_spec p r). Qed.

Lemma component_bytes s : match_full refPathComponentRE s = true → sforallb component_byte s = true.
Proof. apply lang_bytes. by vm_compute. Qed.
Lemma host_bytes s : match_full refHostRE s = true → sforallb host_byte s = true.
Proof. apply lang_bytes. by vm_compute. Qed.
Lemma tag_bytes s : match_full refTagRE s = true → sforallb tag_byte s = true.
Proof. apply lang_bytes. by vm_compute. Qed.
Lemma digest_bytes s : match_full digestPattern s = true → sforallb digest_byte s = true.
Proof. apply lang_bytes. by vm_compute. Qed.

Lemma sub_bytes (p q : ascii → bool) s :
  forallb (λ c, negb (p c) || q c) all_bytes = true → sforallb p s = true → sforallb q s = true.
Proof.
  rewrite forallb_True, Forall_forall. intros H. apply sforallb_impl. intros c Hc.
  specialize (H c (elem_of_all_bytes c)). by rewrite Hc in H.
Qed.

Lemma join_bytes p l :
  p "/"%char = true → Forall (λ s, sforallb p s = true) l → sforallb p (join "/" l) = true.
Proof.
  intros Hp. induction 1 as [|x l Hx Hl IH]; [done|].
  destruct l as [|y l]; [exact Hx|]. rewrite join_cons2, !sforallb_app, Hx, IH.
  simpl. by rewrite Hp.
Qed.

Lemma components_bytes l :
  forallb (match_full refPathComponentRE) l = true →
  sforallb (λ c, component_byte c || Ascii.eqb c "/"%char) (join "/" l) = true.
Proof.
  rewrite forallb_True. intros Hl. apply join_bytes; [done|].
  eapply Forall_impl; [exact Hl|]. intros s Hs%component_bytes. by apply (sub_bytes component_byte).
Qed.

(** A valid repository: its bytes, and where a colon can be in it. *)
Lemma validName_spec s :
  validName s = true →
  s ≠ "" ∧ sforallb (λ c, host_byte c || component_byte c || Ascii.eqb c "/"%char) s = true ∧
  ∀ i, last_index_byte s ":"%char = Some i → contains_byte "/"%char (sdrop i s) = true.
Proof.
  unfold validName. destruct (String.eqb_spec s "") as [|Hne]; [done|]. cbn [orb].
  destruct (String.eqb s "sha256"); [done|].
  set (q := λ c, host_byte c || component_byte c || Ascii.eqb c "/"%char).
  intros H. split; [done|]. revert H. pose proof (join_split "/"%char s) as Hj. revert Hj. clear Hne.
  generalize (split_byte "/"%char s) as parts. intros parts <-.
  assert (Hall : forallb (match_full refPathComponentRE) parts = true →
    sforallb q (join "/" parts) = true ∧
    ∀ i, last_index_byte (join "/" parts) ":"%char = Some i →
      contains_byte "/"%char (sdrop i (join "/" parts)) = true).
  { intros Hc%components_bytes. split; [eapply sub_bytes; [|exact Hc]; by vm_compute|].
    intros i Hi. rewrite (proj2 (last_index_byte_None _ ":"%char)) in Hi; [done|].
    by eapply bytes_contains. }
  destruct parts as [|host [|x l]]; [by apply Hall..|].
  destruct (isRegistryHost host); [|by apply Hall]. clear Hall.
  intros [Hh%host_bytes Hl%components_bytes]%andb_prop. rewrite join_cons2.
  split.
  - rewrite !sforallb_app. rewrite andb_true_iff. split.
    + eapply sub_bytes; [|exact Hh]. by vm_compute.
    + rewrite andb_true_iff. split; [done|]. eapply sub_bytes; [|exact Hl]. by vm_compute.
  - assert (Hno : contains_byte ":"%char ("/" +:+ join "/" (x :: l)) = false).
    { rewrite contains_byte_app. rewrite (bytes_contains _ _ _ Hl); done. }
    intros i Hi. rewrite last_index_byte_left in Hi by done.
    pose proof (last_index_byte_lt _ _ _ Hi). rewrite sdrop_app_lt by lia.
    rewrite !contains_byte_app. by rewrite orb_true_r.
Qed.

(** ** Properties *)

Lemma cutDigest_iff ref name digest :
  contains_byte "@"%char name = false →
  cutDigest ref = Some (name, digest) ↔
  ref = name +:+ (if String.eqb digest "" then "" else "@" +:+ digest) ∧
  (String.eqb digest "" || match_full digestPattern digest) = true.
Proof.
  intros Hn. unfold cutDigest. split.
  - destruct (index_byte ref "@"%char) as [i|] eqn:E.
    + apply index_byte_Some in E. set (d := sdrop (S i) ref) in *. clearbody d.
      destruct (match_full digestPattern d) eqn:Hm; [|done].
      cbn [negb]. intros [= <- <-].
      destruct (String.eqb_spec d "") as [->|]; [done|].
      split; [exact E|by rewrite Hm, orb_true_r].
    + intros [= -> <-]. cbn. by rewrite app_nil_r.
  - intros [-> Hd]. destruct (String.eqb_spec digest "") as [->|Hne].
    + rewrite app_nil_r. by rewrite (proj2 (index_byte_None _ _) Hn).
    + cbn [orb] in Hd. change (name +:+ ("@" +:+ digest)) with (name +:+ String "@" digest).
      rewrite (index_byte_app name "@"%char digest Hn).
      by rewrite sdrop_S_app, Hd, stake_app.
Qed.

Lemma cutTag_render name tag :
  contains_byte "/"%char tag = false → contains_byte ":"%char tag = false →
  (∀ i, last_index_byte name ":"%char = Some i → contains_byte "/"%char (sdrop i name) = true) →
  (String.eqb tag "" || match_full refTagRE tag) = true →
  cutTag (name +:+ (if String.eqb tag "" then "" else ":" +:+ tag)) = Some (name, tag).
Proof.
  intros Hs Hc Hn Ht. unfold cutTag. destruct (String.eqb_spec tag "") as [->|Hne].
  - rewrite app_nil_r. destruct (last_index_byte name ":"%char) as [i|] eqn:E; [|done].
    by rewrite (Hn i eq_refl).
  - cbn [orb] in Ht. change (name +:+ (":" +:+ tag)) with (name +:+ String ":" tag).
    rewrite last_index_byte_app by done.
    rewrite sdrop_app, stake_app.
    replace (contains_byte "/"%char (String ":" tag)) with false by (symmetry; exact Hs).
    by rewrite sdrop_S_app, Ht.
Qed.

Lemma cutTag_sound s name tag :
  cutTag s = Some (name, tag) →
  s = name +:+ (if String.eqb tag "" then "" else ":" +:+ tag) ∧
  (String.eqb tag "" || match_full refTagRE tag) = true.
Proof.
  unfold cutTag. destruct (last_index_byte s ":"%char) as [i|] eqn:E.
  - apply last_index_byte_Some in E as [E _]. set (d := sdrop (S i) s) in *. clearbody d.
    destruct (contains_byte _ _); [intros [= -> <-]; cbn; by rewrite app_nil_r|].
    destruct (match_full refTagRE d) eqn:Hm; [|done]. cbn [negb]. intros [= <- <-].
    destruct (String.eqb_spec d "") as [->|]; [done|].
    split; [exact E|by rewrite Hm].
  - intros [= -> <-]. cbn. by rewrite app_nil_r.
Qed.

Lemma optional_bytes p r s : only p r = true →
  (String.eqb s "" || match_full r s) = true → sforallb p s = true.
Proof.
  intros Hr. destruct (String.eqb_spec s "") as [->|]; [done|]. by apply lang_bytes.
Qed.

Lemma render_bytes repo tag digest :
  reference_ok repo tag digest = true →
  sforallb reference_byte (render_reference repo tag digest) = true.
Proof.
  unfold reference_ok. intros [[(_ & Hn & _)%validName_spec Ht]%andb_prop Hd]%andb_prop.
  apply (optional_bytes tag_byte) in Ht; [|by vm_compute].
  apply (optional_bytes digest_byte) in Hd; [|by vm_compute].
  unfold render_reference. rewrite !sforallb_app. rewrite !andb_true_iff. split; [|split].
  - eapply sub_bytes; [|exact Hn]. by vm_compute.
  - destruct (String.eqb tag ""); [done|]. rewrite sforallb_app. cbn [sforallb].
    rewrite (sub_bytes tag_byte) by first [done|by vm_compute]. by vm_compute.
  - destruct (String.eqb digest ""); [done|]. rewrite sforallb_app. cbn [sforallb].
    rewrite (sub_bytes digest_byte) by first [done|by vm_compute]. by vm_compute.
Qed.

Lemma name_no_at repo tag :
  validName repo = true → (String.eqb tag "" || match_full refTagRE tag) = true →
  contains_byte "@"%char (repo +:+ (if String.eqb tag "" then "" else ":" +:+ tag)) = false.
Proof.
  intros (_ & Hn & _)%validName_spec Ht. apply (optional_bytes tag_byte) in Ht; [|by vm_compute].
  eapply (bytes_contains (λ c, negb (Ascii.eqb c "@"%char))); [|done].
  rewrite sforallb_app, andb_true_iff. split.
  - eapply sub_bytes; [|exact Hn]. by vm_compute.
  - destruct (String.eqb tag ""); [done|]. rewrite sforallb_app. cbn [sforallb].
    rewrite (sub_bytes tag_byte) by first [done|by vm_compute]. by vm_compute.
Qed.

Lemma splitReference_sound ref repo tag digest :
  splitReference ref = Some (repo, tag, digest) →
  reference_ok repo tag digest = true ∧ ref = render_reference repo tag digest.
Proof.
  unfold splitReference. destruct (_ || _); [done|].
  destruct (cutDigest ref) as [[name d]|] eqn:Ed; [|done].
  destruct (cutTag name) as [[name' tg]|] eqn:Et; [|done].
  destruct (validName name') eqn:Hv; [|done]. intros [= -> -> ->].
  apply cutTag_sound in Et as [-> Ht].
  apply cutDigest_iff in Ed as [-> Hd]; [|by apply name_no_at].
  split; [unfold reference_ok; by rewrite Hv, Ht, Hd|].
  unfold render_reference. by rewrite app_assoc_s.
Qed.

(** A reference the program reads has only the bytes of references. *)
Lemma splitReference_bytes ref :
  is_Some (splitReference ref) → sforallb reference_byte ref = true.
Proof. intros [[[repo tag] d] [Hok ->]%splitReference_sound]. by apply render_bytes. Qed.

Lemma splitReference_complete repo tag digest :
  reference_ok repo tag digest = true →
  splitReference (render_reference repo tag digest) = Some (repo, tag, digest).
Proof.
  intros Hok. pose proof (render_bytes _ _ _ Hok) as Hb.
  unfold reference_ok in Hok. apply andb_prop in Hok as [[Hv Ht]%andb_prop Hd].
  pose proof Hv as (Hne & Hn & Hcol)%validName_spec.
  pose proof Ht as Htb. apply (optional_bytes tag_byte) in Htb; [|by vm_compute].
  unfold splitReference. rewrite (proj2 (String.eqb_neq _ "")).
  2:{ unfold render_reference. destruct repo; [done|]. by rewrite app_cons. }
  rewrite trim_space_word, String.eqb_refl. 2:{ eapply sub_bytes; [|exact Hb]. by vm_compute. }
  cbn [negb orb]. pose proof (name_no_at repo tag Hv Ht) as Hat.
  unfold render_reference. rewrite <- app_assoc_s.
  rewrite (proj2 (cutDigest_iff _ _ digest Hat) (conj eq_refl Hd)).
  rewrite cutTag_render; [by rewrite Hv| | |done|done]; by eapply bytes_contains.
Qed.

(** C39: [splitReference] reads exactly the well-formed references: it returns
    a repository, a tag and a digest exactly when they are well-formed and the
    text is the one they are written as, so its result is unique, nothing of
    the reference is lost and nothing is guessed. *)
Theorem splitReference_iff ref repo tag digest :
  splitReference ref = Some (repo, tag, digest) ↔
  reference_ok repo tag digest = true ∧ ref = render_reference repo tag digest.
Proof.
  split; [apply splitReference_sound|]. intros [Hok ->]. by apply splitReference_complete.
Qed.

Lemma lang_lit p w : re_lang (RLit p) w → w = p.
Proof.
  revert w. induction p as [|c p IH]; intros w; [by inversion 1|].
  destruct p as [|d p].
  - inversion 1 as [|? ? Hc| | | | | |]; simplify_eq. by apply Ascii.eqb_eq in Hc as ->.
  - change (RLit (String c (String d p))) with (RSeq (RChar c) (RLit (String d p))).
    inversion 1 as [| |? ? s1 s2 H1 H2| | | | |]; simplify_eq.
    apply IH in H2 as ->. inversion H1 as [|? ? Hc| | | | | |]; simplify_eq.
    by apply Ascii.eqb_eq in Hc as ->.
Qed.

Lemma digestPattern_prefix s :
  match_full digestPattern s = true → s = "sha256:" +:+ sdrop (slen "sha256:") s.
Proof.
  intros H%match_full_lang. unfold digestPattern in H.
  inversion H as [| |? ? s1 s2 H1 H2| | | | |]; simplify_eq.
  apply (lang_lit "sha256:") in H1 as ->. by rewrite sdrop_app.
Qed.

(** [ParseDigest] accepts exactly the texts that [Digest.String] writes for
    a valid digest of the requested kind, and reading back what was written
    gives the same digest; everything else yields the zero value. *)
Theorem ParseDigest_iff kind s d :
  ParseDigest kind s = (d, true) ↔
  Digest_Valid d = true ∧ dg_Kind d = kind ∧ Digest_String d = s.
Proof.
  unfold ParseDigest, Digest_String. split.
  - destruct (match_full digestPattern s) eqn:Hm; [|done]. cbn [negb].
    pose proof (digestPattern_prefix s Hm) as E. set (h := sdrop (slen "sha256:") s) in *. clearbody h.
    destruct (Digest_Valid (mk_digest kind "sha256" h)) eqn:Hv; [|done].
    cbn [negb]. intros [= <-]. rewrite Hv. by subst s.
  - intros (Hv & <- & <-). rewrite Hv. cbn [negb].
    pose proof Hv as Hv'. unfold Digest_Valid in Hv'. destruct (_ && _); [done|].
    destruct (String.eqb_spec (dg_Algorithm d) "sha256") as [E|]; [|done]. cbn [negb] in Hv'.
    rewrite Hv'. cbn [negb].
    replace (sdrop (slen "sha256:") (dg_Algorithm d +:+ ":" +:+ dg_Hex d)) with (dg_Hex d).
    2:{ rewrite E, <- app_assoc_s. change (slen "sha256:") with (slen ("sha256" +:+ ":")).
        by rewrite sdrop_app. }
    destruct d as [k a h]. cbn [dg_Kind dg_Algorithm dg_Hex] in *. subst a. by rewrite Hv.
Qed.
