(* ===== verification/Inventory.v ===== *)
(** * What a runtime reports

    internal/inventory: image entities (identity.go), running images
    (image.go), workloads and containers (workload.go), Kubernetes workload
    keys (kubernetes_key.go), environments (environment.go) and package
    identities (package_ref.go). *)

From Stdlib Require Import ZArith Lia Bool Ascii String List Permutation Sorting.Sorted.
From stdpp Require Import base countable gmap strings list.
From S2P Require Import Prelude GoStrings GoRegexp Semver GoText Reference.

Open Scope string_scope.
Open Scope nat_scope.
Open Scope list_scope.

(** ** Entities *)

Record RegistryRef := mk_registry_ref { rr_Repository : string; rr_Digest : Digest }.
Record Platform := mk_platform { pf_OS : string; pf_Architecture : string; pf_Variant : string }.
Definition zero_platform : Platform := mk_platform "" "" "".

Definition Platform_Known (p : Platform) : bool :=
  negb (String.eqb (pf_OS p) "") && negb (String.eqb (pf_Architecture p) "").

Record EntityKey := mk_entity { ek_Digest : Digest; ek_Platform : Platform }.
Definition zero_entity : EntityKey := mk_entity zero_digest zero_platform.

Record RunningImage := mk_running {
  ri_Ref : string; ri_Config : Digest; ri_Registry : RegistryRef; ri_Platform : Platform }.

Record ImageSubject := mk_subject { is_Ref : string; is_Key : EntityKey; is_Resolved : bool }.

#[export] Instance RegistryRef_eq_dec : EqDecision RegistryRef.
Proof. solve_decision. Defined.
#[export] Instance Platform_eq_dec : EqDecision Platform.
Proof. solve_decision. Defined.
#[export] Instance EntityKey_eq_dec : EqDecision EntityKey.
Proof. solve_decision. Defined.
#[export] Instance RunningImage_eq_dec : EqDecision RunningImage.
Proof. solve_decision. Defined.
#[export] Instance ImageSubject_eq_dec : EqDecision ImageSubject.
Proof. solve_decision. Defined.

#[export] Program Instance Digest_countable : Countable Digest :=
  inj_countable' (λ d, (dg_Kind d, dg_Algorithm d, dg_Hex d)) (λ '(k, a, h), mk_digest k a h) _.
Next Obligation. by intros []. Qed.
#[export] Program Instance Platform_countable : Countable Platform :=
  inj_countable' (λ p, (pf_OS p, pf_Architecture p, pf_Variant p)) (λ '(o, a, v), mk_platform o a v) _.
Next Obligation. by intros []. Qed.
#[export] Program Instance EntityKey_countable : Countable EntityKey :=
  inj_countable' (λ k, (ek_Digest k, ek_Platform k)) (λ '(d, p), mk_entity d p) _.
Next Obligation. by intros []. Qed.

(** [EntityKeyOf], [None] when no key can be derived. *)
Definition EntityKeyOf (img : RunningImage) : option EntityKey :=
  if String.eqb (dg_Kind (ri_Config img)) DigestConfig && Digest_Valid (ri_Config img) then
    Some (mk_entity (ri_Config img) zero_platform)
  else
    let d := rr_Digest (ri_Registry img) in
    if String.eqb (dg_Kind d) DigestRegistry && Digest_Valid d && Platform_Known (ri_Platform img)
    then Some (mk_entity d (ri_Platform img))
    else None.

(** [key, _ := EntityKeyOf(img)]: the zero value when there is none. *)
Definition entity_or_zero (img : RunningImage) : EntityKey := default zero_entity (EntityKeyOf img).

Definition ContentID (r : RunningImage) : string :=
  if negb (String.eqb (dg_Kind (ri_Config r)) DigestConfig) then "" else Digest_String (ri_Config r).

Definition lessEntityKey (a b : EntityKey) : bool :=
  let da := ek_Digest a in let db := ek_Digest b in
  let pa := ek_Platform a in let pb := ek_Platform b in
  if negb (String.eqb (dg_Kind da) (dg_Kind db)) then str_lt (dg_Kind da) (dg_Kind db)
  else if negb (String.eqb (dg_Hex da) (dg_Hex db)) then str_lt (dg_Hex da) (dg_Hex db)
  else if negb (String.eqb (pf_OS pa) (pf_OS pb)) then str_lt (pf_OS pa) (pf_OS pb)
  else if negb (String.eqb (pf_Architecture pa) (pf_Architecture pb))
  then str_lt (pf_Architecture pa) (pf_Architecture pb)
  else str_lt (pf_Variant pa) (pf_Variant pb).

(** ** Workloads and containers *)

(** [WorkloadKind] is a string type; these are its named values. *)
Definition WorkloadUnknown : string := "".
Definition WorkloadCompose : string := "compose".
Definition WorkloadDeployment : string := "deployment".
Definition WorkloadStatefulSet : string := "statefulset".
Definition WorkloadDaemonSet : string := "daemonset".
Definition WorkloadJob : string := "job".
Definition WorkloadCronJob : string := "cronjob".
Definition WorkloadPod : string := "pod".

Record Workload := mk_workload { wl_Kind : string; wl_Group : string; wl_Name : string }.
Definition Workload_Known (w : Workload) : bool := negb (String.eqb (wl_Kind w) WorkloadUnknown).

Record Declared := mk_declared { dc_Ref : string; dc_PullPolicy : string }.
Record SpecContainer := mk_spec { sc_Name : string; sc_Ref : string; sc_Kind : string }.
Record InitObservation := mk_init {
  io_Name : string; io_HasStatus : bool; io_Declared : Declared; io_Image : RunningImage }.
Record PodInit := mk_pod_init { pi_Containers : list InitObservation; pi_Spec : list SpecContainer }.

Record Container := mk_container {
  ct_ID : string; ct_Name : string; ct_Workload : Workload; ct_Image : RunningImage;
  ct_RuntimeExcluded : bool; ct_Declared : option Declared; ct_PodInit : option PodInit }.

Definition maxComposeNameBytes : nat := 253.

Definition ValidComposeName (v : string) : bool :=
  if String.eqb v "" || (maxComposeNameBytes <? slen v) then false
  else forallb (λ r, negb (is_control_cp (rune_cp r))) (runes v).

Definition WorkloadKey (c : Container) : string :=
  let w := ct_Workload c in
  if String.eqb (wl_Kind w) WorkloadCompose then
    if String.eqb (wl_Group w) "" || String.eqb (wl_Name w) "" then ""
    else "compose/" +:+ wl_Group w +:+ "/" +:+ wl_Name w
  else if Workload_Known w then
    match last_index_byte (ct_Name c) "/"%char with
    | None => ""
    | Some i =>
        if (i =? slen (ct_Name c) - 1) || String.eqb (wl_Group w) "" || String.eqb (wl_Name w) ""
        then ""
        else wl_Kind w +:+ "/" +:+ wl_Group w +:+ "/" +:+ wl_Name w +:+ "/" +:+ sdrop (S i) (ct_Name c)
    end
  else if String.eqb (ct_Name c) "" then "" else "container/" +:+ ct_Name c.

Definition ContainerKeyPrefix : string := "container/".

Definition is_alpha_num (c : ascii) : bool := is_lower c || is_upper c || is_digit c.

(** The loop: the first byte is a letter or a digit, the others may be [_.-]. *)
Definition ValidContainerName (v : string) : bool :=
  if (slen v <? 2) || (maxComposeNameBytes <? slen v) then false
  else match v with
       | EmptyString => true
       | String c v' =>
           is_alpha_num c &&
           sforallb (λ d, is_alpha_num d || Ascii.eqb d "_"%char || Ascii.eqb d "."%char
                          || Ascii.eqb d "-"%char) v'
       end.

(** The error of a key, or what it names. *)
Inductive key_error :=
  | NotContainerKey | BadContainerName
  | NotFourParts | UnknownKind | BadNamespace | BadWorkloadName | BadK8sContainer.

Definition ParseContainerKey (key : string) : string + key_error :=
  if negb (has_prefix key ContainerKeyPrefix) then inr NotContainerKey
  else
    let name := sdrop (slen ContainerKeyPrefix) key in
    if negb (ValidContainerName name) then inr BadContainerName else inl name.

(** ** Kubernetes keys *)

Record KubernetesWorkload := mk_kube {
  kw_Kind : string; kw_Namespace : string; kw_Name : string; kw_Container : string }.

Definition dns_byte (c : ascii) : bool := Ascii.eqb c "-"%char || is_lower c || is_digit c.

(** [[a-z0-9]([-a-z0-9]{0,61}[a-z0-9])?] *)
Definition dns1123LabelRE : re :=
  RSeq (RClass is_lower_alnum) (ROpt (RSeq (RUpTo 61 (RClass dns_byte)) (RClass is_lower_alnum))).

Definition dns_label_any : re :=
  RSeq (RClass is_lower_alnum) (ROpt (RSeq (RStar (RClass dns_byte)) (RClass is_lower_alnum))).
Definition dns1123SubdomainRE : re :=
  RSeq dns_label_any (RStar (RSeq (RChar "."%char) dns_label_any)).

Definition kubernetesWorkloadKinds : list (string * string) :=
  [("deployment", WorkloadDeployment); ("statefulset", WorkloadStatefulSet);
   ("daemonset", WorkloadDaemonSet); ("job", WorkloadJob); ("cronjob", WorkloadCronJob);
   ("pod", WorkloadPod)].

Fixpoint assoc {A : Type} (k : string) (l : list (string * A)) : option A :=
  match l with
  | [] => None
  | (k', v) :: l' => if String.eqb k k' then Some v else assoc k l'
  end.

Definition ParseKubernetesWorkloadKey (key : string) : KubernetesWorkload + key_error :=
  match split_byte "/"%char key with
  | [p0; p1; p2; p3] =>
      match assoc p0 kubernetesWorkloadKinds with
      | None => inr UnknownKind
      | Some kind =>
          if negb (match_full dns1123LabelRE p1) then inr BadNamespace
          else if (253 <? slen p2) || negb (match_full dns1123SubdomainRE p2) then inr BadWorkloadName
          else if negb (match_full dns1123LabelRE p3) then inr BadK8sContainer
          else inl (mk_kube kind p1 p2 p3)
      end
  | _ => inr NotFourParts
  end.

Definition ValidDNS1123Subdomain (s : string) : bool :=
  (slen s <=? 253) && match_full dns1123SubdomainRE s.

(** ** Environments *)

Definition environmentNamePattern : re := dns1123LabelRE.

(** [ValidateEnvironmentName], [true] for a nil error. *)
Definition ValidateEnvironmentName (name : string) : bool :=
  String.eqb name "" || match_full environmentNamePattern name.

(** ** Distinct images *)

(** The loop over the containers; [seen] is the set of (reference, key). *)
Fixpoint distinct_loop (containers : list Container) (seen : gset (string * EntityKey))
    : list RunningImage :=
  match containers with
  | [] => []
  | ct :: containers' =>
      let img := ct_Image ct in
      if String.eqb (ri_Ref img) "" then distinct_loop containers' seen
      else
        let k := (ri_Ref img, entity_or_zero img) in
        if decide (k ∈ seen) then distinct_loop containers' seen
        else img :: distinct_loop containers' ({[k]} ∪ seen)
  end.

Definition lessImage (a b : RunningImage) : bool :=
  if negb (String.eqb (ri_Ref a) (ri_Ref b)) then str_lt (ri_Ref a) (ri_Ref b)
  else lessEntityKey (entity_or_zero a) (entity_or_zero b).

Definition DistinctImages (containers : list Container) : list RunningImage :=
  sort_by lessImage (distinct_loop containers ∅).

(** ** Packages *)

Definition ClassOS : string := "os".
Definition ClassLang : string := "lang".
Definition EcosystemUnknown : string := "".
Definition EcosystemNodeRuntime : string := "node-runtime".
Definition EcosystemPythonRuntime : string := "python-runtime".

Definition RuntimeVersionEnv (e : string) : string :=
  if String.eqb e EcosystemNodeRuntime then "NODE_VERSION"
  else if String.eqb e EcosystemPythonRuntime then "PYTHON_VERSION"
  else "".

Definition knownEcosystems : list string :=
  ["activestate"; "alma"; "alpine"; "amazon"; "azurelinux"; "bottlerocket"; "cbl-mariner";
   "centos"; "centos-stream"; "chainguard"; "coreos"; "debian"; "echo"; "fedora"; "minimos";
   "opensuse"; "opensuse-leap"; "opensuse-tumbleweed"; "oracle"; "photon"; "redhat"; "rocky";
   "slem"; "sles"; "ubuntu"; "wolfi"; "bundler"; "gemspec"; "cargo"; "composer"; "composer-
   vendor"; "npm"; "bun"; "nuget"; "dotnet-core"; "packages-props"; "pip"; "pipenv"; "poetry";
   "uv"; "pylock"; "conda-pkg"; "conda-environment"; "python-pkg"; "node-pkg"; "yarn"; "pnpm";
   "jar"; "pom"; "gradle"; "sbt"; "gobinary"; "gomod"; "javascript"; "rustbinary"; "conan";
   "cocoapods"; "swift"; "pub"; "hex"; "bitnami"; "julia"; "node-runtime"; "python-runtime"].

Definition ParseEcosystem (trivyType : string) : string :=
  if existsb (String.eqb trivyType) knownEcosystems then trivyType else EcosystemUnknown.

Record PackageRef := mk_package_ref {
  pk_Ecosystem : string; pk_Class : string; pk_Name : string; pk_Version : string }.

#[export] Instance PackageRef_eq_dec : EqDecision PackageRef.
Proof. solve_decision. Defined.
#[export] Program Instance PackageRef_countable : Countable PackageRef :=
  inj_countable' (λ p, (pk_Ecosystem p, pk_Class p, pk_Name p, pk_Version p))
    (λ '(e, c, n, v), mk_package_ref e c n v) _.
Next Obligation. by intros []. Qed.

(** ** The order of entity keys *)

Definition cmpEntityKey : EntityKey → EntityKey → comparison :=
  cmp_then (cmp_on (λ k, dg_Kind (ek_Digest k)) str_cmp)
  (cmp_then (cmp_on (λ k, dg_Hex (ek_Digest k)) str_cmp)
  (cmp_then (cmp_on (λ k, pf_OS (ek_Platform k)) str_cmp)
  (cmp_then (cmp_on (λ k, pf_Architecture (ek_Platform k)) str_cmp)
            (cmp_on (λ k, pf_Variant (ek_Platform k)) str_cmp)))).

(** The identity an image is listed under. *)
Definition image_id (img : RunningImage) : string * EntityKey := (ri_Ref img, entity_or_zero img).

Definition cmpImage : RunningImage → RunningImage → comparison :=
  cmp_then (cmp_on ri_Ref str_cmp) (cmp_on entity_or_zero cmpEntityKey).

(** The identities of the containers that name an image. *)
Definition running_ids (containers : list Container) : list (string * EntityKey) :=
  image_id <$> filter (λ img, ri_Ref img ≠ "") (ct_Image <$> containers).

#[export] Instance cmpEntityKey_order : CmpOrder cmpEntityKey.
Proof. unfold cmpEntityKey. repeat apply cmp_then_order; apply cmp_on_order, str_cmp_order. Qed.

#[export] Instance cmpImage_order : CmpOrder cmpImage.
Proof. apply cmp_then_order; apply cmp_on_order; apply _. Qed.

Lemma lessEntityKey_cmp a b : lessEntityKey a b = is_lt (cmpEntityKey a b).
Proof. unfold lessEntityKey. by rewrite (str_last (pf_Variant (ek_Platform a))), !str_step. Qed.

Lemma lessImage_cmp a b : lessImage a b = less_of cmpImage a b.
Proof. unfold lessImage. by rewrite lessEntityKey_cmp, str_step. Qed.

#[export] Instance lessImage_strict_weak : StrictWeak lessImage.
Proof.
  destruct (less_of_strict_weak cmpImage _) as [Ha Ht].
  split; intros *; rewrite !lessImage_cmp; [apply Ha|apply Ht].
Qed.

(** A derived key is determined by what it is ordered by. *)
Lemma Digest_Valid_sha d : Digest_Valid d = true → dg_Algorithm d = "sha256".
Proof.
  unfold Digest_Valid. destruct (_ && _); [done|].
  destruct (String.eqb_spec (dg_Algorithm d) "sha256"); done.
Qed.

Lemma entity_algorithm img :
  dg_Algorithm (ek_Digest (entity_or_zero img)) =
  if String.eqb (dg_Kind (ek_Digest (entity_or_zero img))) "" then "" else "sha256".
Proof.
  unfold entity_or_zero, EntityKeyOf.
  destruct (String.eqb_spec (dg_Kind (ri_Config img)) DigestConfig) as [E|]; cbn [andb].
  - destruct (Digest_Valid (ri_Config img)) eqn:Hv.
    { cbn. by rewrite E, (Digest_Valid_sha _ Hv). }
    destruct (_ && _) eqn:E2; [|done]. apply andb_prop in E2 as [[E2 Hv2]%andb_prop _].
    apply String.eqb_eq in E2. cbn. by rewrite E2, (Digest_Valid_sha _ Hv2).
  - destruct (_ && _) eqn:E2; [|done]. apply andb_prop in E2 as [[E2 Hv2]%andb_prop _].
    apply String.eqb_eq in E2. cbn. by rewrite E2, (Digest_Valid_sha _ Hv2).
Qed.

Lemma cmpImage_id a b : cmpImage a b = Eq ↔ image_id a = image_id b.
Proof.
  unfold cmpImage, cmpEntityKey, cmp_then, cmp_on. rewrite !lexc_eq. split.
  - intros (H1 & H2 & H3 & H4 & H5 & H6). apply str_cmp_eq in H1, H2, H3, H4, H5, H6.
    unfold image_id. pose proof (entity_algorithm a). pose proof (entity_algorithm b).
    destruct (entity_or_zero a) as [[ka aa ha] [oa ara va]], (entity_or_zero b) as [[kb ab hb] [ob arb vb]].
    cbn in *. subst. by rewrite H1.
  - unfold image_id. intros [= -> E]. rewrite !E. repeat split; apply str_cmp_refl.
Qed.

(** ** Distinct images *)

Lemma distinct_loop_spec cs seen :
  NoDup (image_id <$> distinct_loop cs seen) ∧
  (∀ img, img ∈ distinct_loop cs seen →
     image_id img ∉ seen ∧ ri_Ref img ≠ "" ∧ img ∈ ct_Image <$> cs) ∧
  (∀ k, k ∈ running_ids cs → k ∈ seen ∨ k ∈ image_id <$> distinct_loop cs seen).
Proof.
  revert seen. induction cs as [|c cs IH]; intros seen; cbn [distinct_loop].
  { split; [constructor|]. split; [set_solver|]. unfold running_ids. cbn. set_solver. }
  unfold running_ids. rewrite fmap_cons, filter_cons.
  destruct (String.eqb_spec (ri_Ref (ct_Image c)) "") as [E|E].
  { rewrite decide_False by naive_solver. destruct (IH seen) as (H1 & H2 & H3).
    split; [done|]. split; [|exact H3]. intros img Hi. destruct (H2 img Hi) as (? & ? & ?).
    split; [done|]. split; [done|]. by apply list_elem_of_further. }
  destruct (decide (ri_Ref (ct_Image c) ≠ "")) as [_|?]; [|done].
  change (ri_Ref (ct_Image c), entity_or_zero (ct_Image c)) with (image_id (ct_Image c)).
  destruct (decide (image_id (ct_Image c) ∈ seen)) as [Hin|Hin].
  - destruct (IH seen) as (H1 & H2 & H3). split; [done|]. split.
    + intros img Hi. destruct (H2 img Hi) as (? & ? & ?). split; [done|]. split; [done|].
      by apply list_elem_of_further.
    + intros k. rewrite fmap_cons, elem_of_cons. intros [->|Hk]; [by left|by apply H3].
  - destruct (IH ({[image_id (ct_Image c)]} ∪ seen)) as (H1 & H2 & H3).
    split; [|split].
    + rewrite fmap_cons. constructor; [|done].
      intros (img & Ei & Hi)%list_elem_of_fmap. destruct (H2 img Hi) as (Hn & _). apply Hn, elem_of_union; left; by apply elem_of_singleton.
    + intros img [->|Hi]%elem_of_cons; [split; [done|]; split; [done|]; by left|].
      destruct (H2 img Hi) as (Hn & ? & ?). split; [|split; [done|by apply list_elem_of_further]].
      intros Hs. apply Hn, elem_of_union. by right.
    + intros k. rewrite !fmap_cons, !elem_of_cons. intros [->|Hk]; [by right; left|].
      destruct (H3 k Hk) as [[->%elem_of_singleton|]%elem_of_union|]; auto.
Qed.

Definition cmpId : string * EntityKey → string * EntityKey → comparison :=
  cmp_then (cmp_on fst str_cmp) (cmp_on snd cmpEntityKey).

Lemma cmpImage_cmpId a b : cmpImage a b = cmpId (image_id a) (image_id b).
Proof. done. Qed.

Lemma image_id_sorted l : sorted_by lessImage l → sorted_by (less_of cmpId) (image_id <$> l).
Proof.
  induction 1 as [|x l _ IH Hx]; [constructor|]. rewrite fmap_cons. constructor; [exact IH|].
  apply Forall_fmap. eapply Forall_impl; [exact Hx|]. intros y. simpl.
  by rewrite lessImage_cmp.
Qed.

Lemma DistinctImages_ids cs :
  NoDup (image_id <$> DistinctImages cs) ∧
  (∀ k, k ∈ image_id <$> DistinctImages cs ↔ k ∈ running_ids cs).
Proof.
  destruct (distinct_loop_spec cs ∅) as (H1 & H2 & H3). unfold DistinctImages.
  assert (Hp : image_id <$> sort_by lessImage (distinct_loop cs ∅) ≡ₚ image_id <$> distinct_loop cs ∅)
    by apply fmap_Permutation, sort_by_perm.
  rewrite Hp. split; [done|]. intros k. rewrite Hp. split.
  - intros (img & -> & Hi)%list_elem_of_fmap. destruct (H2 img Hi) as (_ & Hr & Hin).
    unfold running_ids. apply list_elem_of_fmap. exists img. split; [done|].
    by apply list_elem_of_filter.
  - intros Hk. destruct (H3 k Hk) as [Hn|]; [|done]. by apply not_elem_of_empty in Hn.
Qed.

(** ** Keys of configuration *)

Lemma assoc_in {A} k (l : list (string * A)) v : assoc k l = Some v → (k, v) ∈ l.
Proof.
  induction l as [|[k' v'] l IH]; [done|]. cbn [assoc].
  destruct (String.eqb_spec k k') as [->|]; [intros [= ->]; by left|]. intros H. right. auto.
Qed.

Lemma label_bytes s : match_full dns1123LabelRE s = true → sforallb dns_byte s = true ∧ s ≠ "".
Proof.
  intros H. split; [by apply (lang_bytes dns_byte dns1123LabelRE)|]. by intros ->.
Qed.

Lemma subdomain_ne s : match_full dns1123SubdomainRE s = true → s ≠ "".
Proof. by intros H ->. Qed.

(** ** Properties *)

(** the list of images to scan is complete, free of duplicates and
    independent of how containers are listed: it holds one image for every
    (reference, entity) pair that some container with a reference runs and for
    no other, sorted strictly by reference and entity, and two listings of the
    same containers in different orders give the same pairs in the same
    order. *)
Theorem DistinctImages_spec cs cs' :
  cs ≡ₚ cs' →
  (∀ k, k ∈ image_id <$> DistinctImages cs ↔ k ∈ running_ids cs) ∧
  StronglySorted (λ a b, cmpImage a b = Lt) (DistinctImages cs) ∧
  image_id <$> DistinctImages cs = image_id <$> DistinctImages cs'.
Proof.
  intros Hp. destruct (DistinctImages_ids cs) as [Hnd Hin], (DistinctImages_ids cs') as [Hnd' Hin'].
  split; [done|]. split.
  - assert (Hs : sorted_by lessImage (DistinctImages cs)) by apply (sort_by_sorted _).
    clear Hin. induction Hs as [|x l Hl IH Hx]; [constructor|].
    rewrite fmap_cons in Hnd. apply NoDup_cons in Hnd as [Hn Hnd].
    constructor; [by apply IH|]. apply Forall_forall. intros y Hy. rewrite Forall_forall in Hx.
    specialize (Hx y Hy). simpl in Hx. rewrite lessImage_cmp in Hx. unfold less_of in Hx.
    rewrite (cmp_antisym cmpImage x y) in Hx. destruct (cmpImage x y) eqn:E; [|done|done].
    exfalso. apply Hn. apply cmpImage_id in E as ->. by apply list_elem_of_fmap_2.
  - apply (sorted_by_unique (less_of cmpId)).
    + intros i j (x & -> & _)%list_elem_of_fmap (y & -> & _)%list_elem_of_fmap. unfold less_of.
      rewrite <- !cmpImage_cmpId, (cmp_antisym cmpImage x y).
      destruct (cmpImage x y) eqn:E; try done. intros _ _. by apply cmpImage_id.
    + apply image_id_sorted, (sort_by_sorted _).
    + apply image_id_sorted, (sort_by_sorted _).
    + apply NoDup_Permutation; [done..|]. intros k. rewrite Hin, Hin'.
      unfold running_ids. by rewrite Hp.
Qed.

(** a workload key of the configuration names exactly the workload it was
    read from: a Kubernetes key that parses is the key of every container of
    that workload and container name, and a [container/] key that parses is
    the key of the container of that name that belongs to no workload. *)
Theorem workload_keys_roundtrip :
  (∀ key k c prefix,
     ParseKubernetesWorkloadKey key = inl k →
     ct_Workload c = mk_workload (kw_Kind k) (kw_Namespace k) (kw_Name k) →
     ct_Name c = prefix +:+ "/" +:+ kw_Container k →
     WorkloadKey c = key) ∧
  (∀ key name c,
     ParseContainerKey key = inl name →
     wl_Kind (ct_Workload c) = WorkloadUnknown → ct_Name c = name →
     WorkloadKey c = key).
Proof.
  split.
  - intros key k c prefix. unfold ParseKubernetesWorkloadKey.
    pose proof (join_split "/"%char key) as Hj.
    destruct (split_byte "/"%char key) as [|p0 [|p1 [|p2 [|p3 [|? ?]]]]]; try done.
    destruct (assoc p0 kubernetesWorkloadKinds) as [kind|] eqn:Ek; [|done].
    destruct (match_full dns1123LabelRE p1) eqn:E1; [|done]. cbn [negb].
    destruct (match_full dns1123SubdomainRE p2) eqn:E2; [|by rewrite orb_true_r].
    destruct (253 <? slen p2); [done|]. cbn [negb orb].
    destruct (match_full dns1123LabelRE p3) eqn:E3; [|done]. cbn [negb].
    intros [= <-]. cbn [kw_Kind kw_Namespace kw_Name kw_Container]. intros Hw Hn.
    apply label_bytes in E1 as [_ E1], E3 as [Hb3 E3]. apply subdomain_ne in E2.
    assert (Hkind : kind = p0 ∧ String.eqb kind WorkloadCompose = false ∧
      String.eqb kind WorkloadUnknown = false).
    { apply assoc_in in Ek. unfold kubernetesWorkloadKinds in Ek. rewrite !elem_of_cons in Ek.
      destruct Ek as [E|[E|[E|[E|[E|[E|[]%not_elem_of_nil]]]]]]; by injection E as -> ->. }
    destruct Hkind as (-> & Hc & Hu).
    unfold WorkloadKey, Workload_Known. rewrite Hw. cbn [wl_Kind wl_Group wl_Name].
    rewrite Hc, Hu. cbn [negb].
    rewrite (proj2 (String.eqb_neq p1 "") E1), (proj2 (String.eqb_neq p2 "") E2).
    rewrite Hn. change (prefix +:+ "/" +:+ p3) with (prefix +:+ String "/" p3).
    rewrite last_index_byte_app by by eapply bytes_contains.
    rewrite slen_app, slen_cons.
    destruct (Nat.eqb_spec (slen prefix) (slen prefix + S (slen p3) - 1)) as [E|_].
    { exfalso. apply E3, slen_0. lia. }
    rewrite sdrop_S_app, <- Hj, !join_cons2. done.
  - intros key name c. unfold ParseContainerKey.
    destruct (has_prefix key ContainerKeyPrefix) eqn:Hp; [|done]. cbn [negb].
    apply has_prefix_split in Hp. set (n := sdrop _ key) in *. clearbody n.
    destruct (ValidContainerName n) eqn:Hv; [|done]. cbn [negb]. intros [= <-] Hk Hn.
    unfold WorkloadKey, Workload_Known. rewrite Hk. cbn.
    rewrite Hn, (proj2 (String.eqb_neq n "")); [by rewrite Hp|]. by intros ->.
Qed.

(** A container of the Deployment [web/api] and one of no workload. *)
Definition example_api : Container :=
  mk_container "" "web/api-7d/app" (mk_workload "deployment" "web" "api")
    (mk_running "app:1" zero_digest (mk_registry_ref "" zero_digest) zero_platform) false None None.
Definition example_db : Container :=
  mk_container "" "db" (mk_workload "" "" "")
    (mk_running "postgres:16" zero_digest (mk_registry_ref "" zero_digest) zero_platform) false None None.

Lemma DistinctImages_spec_witness :
  image_id <$> DistinctImages [example_db; example_api] =
  image_id <$> DistinctImages [example_api; example_db].
Proof.
  apply (DistinctImages_spec [example_db; example_api] [example_api; example_db]). constructor.
Defined.

Lemma workload_keys_roundtrip_witness :
  WorkloadKey example_api = "deployment/web/api/app" ∧ WorkloadKey example_db = "container/db".
Proof.
  split.
  - apply (proj1 workload_keys_roundtrip "deployment/web/api/app"
      (mk_kube "deployment" "web" "api" "app") example_api "web/api-7d"); vm_compute; reflexivity.
  - apply (proj2 workload_keys_roundtrip "container/db" "db" example_db); vm_compute; reflexivity.
Defined.
