(* ===== verification/Triage.v ===== *)
(** * Triage

    internal/analyze/triage.go: the priority of a vulnerability from its
    severity and the exploitation intel, and the order of a group's
    vulnerabilities. A [float64] is a [spec_float], Go's comparisons on it are
    [SFltb], [SFleb] and [SFeqb], which are false on NaN. *)

From Stdlib Require Import ZArith Lia Bool Ascii String List Permutation Sorting.Sorted Floats.SpecFloat.
From stdpp Require Import base countable gmap strings list.
From S2P Require Import Prelude GoStrings.

Open Scope string_scope.
Open Scope nat_scope.
Open Scope list_scope.

(** ** Data *)

(** [scanner.Status], [scanner.Severity] and [Priority] are string types. *)
Definition StatusFixed : string := "fixed".
Definition StatusAffected : string := "affected".
Definition StatusWontFix : string := "will_not_fix".
Definition StatusFixDeferred : string := "fix_deferred".
Definition StatusUnderInvestigation : string := "under_investigation".
Definition StatusEndOfLife : string := "end_of_life".
Definition StatusNotAffected : string := "not_affected".
Definition StatusUnknown : string := "unknown".

Definition SeverityMedium : string := "MEDIUM".
Definition SeverityLow : string := "LOW".
Definition SeverityHigh : string := "HIGH".
Definition SeverityCritical : string := "CRITICAL".

Definition PriorityNone : string := "".
Definition PriorityLow : string := "low".
Definition PriorityWatch : string := "watch".
Definition PriorityActNow : string := "act_now".

Definition Rank (p : string) : nat :=
  if String.eqb p PriorityActNow then 3
  else if String.eqb p PriorityWatch then 2
  else if String.eqb p PriorityLow then 1
  else 0.

Record Enrichment := mk_enrichment {
  en_KEV : bool; en_Ransomware : bool; en_EPSS : spec_float; en_EPSSKnown : bool;
  en_KEVNoteURL : string }.
Definition zero_enrichment : Enrichment := mk_enrichment false false (S754_zero false) false "".

Record Ref := mk_ref { rf_Kind : string; rf_Label : string; rf_URL : string }.

Record IntelStatus := mk_intel { in_KEVOK : bool; in_EPSSOK : bool; in_StaleDays : Z }.

Definition Degraded (s : IntelStatus) : bool := negb (in_KEVOK s) && negb (in_EPSSOK s).

Record Triage := mk_triage {
  tr_Enabled : bool; tr_ActNowEPSS : spec_float; tr_WatchEPSS : spec_float;
  tr_Enrich : gmap string Enrichment; tr_Refs : gmap string (list Ref); tr_Intel : IntelStatus }.

Record VulnRef := mk_vuln {
  vr_ID : string; vr_Severity : string; vr_URL : string; vr_Title : string; vr_Status : string;
  vr_KEV : bool; vr_Ransomware : bool; vr_EPSS : spec_float; vr_EPSSKnown : bool;
  vr_Priority : string; vr_Refs : list Ref }.
Definition zero_vuln : VulnRef :=
  mk_vuln "" "" "" "" "" false false (S754_zero false) false "" [].

(** ** Operations *)

Definition SignalsActNow (tr : Triage) (e : Enrichment) : bool :=
  en_KEV e || (en_EPSSKnown e && SFleb (tr_ActNowEPSS tr) (en_EPSS e)).

Definition priorityOf (tr : Triage) (sev : string) (e : Enrichment) (status : string) : string :=
  if negb (tr_Enabled tr) then PriorityNone
  else if Degraded (tr_Intel tr) then
    if String.eqb sev SeverityCritical then PriorityActNow else PriorityWatch
  else if SignalsActNow tr e then PriorityActNow
  else
    let p :=
      if (en_EPSSKnown e && SFleb (tr_WatchEPSS tr) (en_EPSS e)) || String.eqb sev SeverityCritical
      then PriorityWatch else PriorityLow in
    if String.eqb status StatusWontFix && String.eqb p PriorityWatch then PriorityLow else p.

Definition buildRefs (e : Enrichment) (extra : list Ref) : list Ref :=
  (if negb (String.eqb (en_KEVNoteURL e) "")
   then [mk_ref "vendor" "vendor advisory" (en_KEVNoteURL e)] else []) ++ extra.

Definition less_vuln (a b : VulnRef) : bool :=
  if negb (Rank (vr_Priority a) =? Rank (vr_Priority b)) then Rank (vr_Priority b) <? Rank (vr_Priority a)
  else if negb (Bool.eqb (vr_EPSSKnown a) (vr_EPSSKnown b)) then vr_EPSSKnown a
  else if negb (SFeqb (vr_EPSS a) (vr_EPSS b)) then SFltb (vr_EPSS b) (vr_EPSS a)
  else str_lt (vr_ID a) (vr_ID b).

Definition sortVulns (vulns : list VulnRef) : list VulnRef := sort_by less_vuln vulns.

(** ** Floating-point comparison

    On numbers the comparison is the lexicographic one of this key. *)

Definition sf_key (x : spec_float) : list Z :=
  match x with
  | S754_nan => [0; 0; 0]
  | S754_zero _ => [0; 0; 0]
  | S754_infinity s => if s then [-2; 0; 0] else [2; 0; 0]
  | S754_finite s m e => if s then [-1; - e; - Zpos m] else [1; e; Zpos m]
  end%Z.

Definition is_number (x : spec_float) : bool := match x with S754_nan => false | _ => true end.

Definition sf_cmp : spec_float → spec_float → comparison := cmp_on sf_key (list_cmp Z.compare).

(** The order [sortVulns] sorts by. *)
Definition cmp_vuln : VulnRef → VulnRef → comparison :=
  cmp_then (cmp_flip (cmp_on (λ v, Rank (vr_Priority v)) Nat.compare))
  (cmp_then (cmp_flip (cmp_on vr_EPSSKnown bool_cmp))
  (cmp_then (cmp_flip (cmp_on vr_EPSS sf_cmp))
            (cmp_on vr_ID str_cmp))).

(** At least as much evidence of exploitation. *)
Definition more_evidence (e e' : Enrichment) : Prop :=
  (en_KEV e = true → en_KEV e' = true) ∧
  (en_EPSSKnown e = true → en_EPSSKnown e' = true ∧ SFleb (en_EPSS e) (en_EPSS e') = true).

(** ** Lemmas *)

#[export] Instance sf_cmp_order : CmpOrder sf_cmp.
Proof. apply cmp_on_order, list_cmp_order. apply _. Qed.

Lemma Zopp_compare x y : (- x ?= - y)%Z = CompOpp (x ?= y)%Z.
Proof. destruct (Z.compare_spec x y), (Z.compare_spec (- x) (- y)); (done || lia). Qed.

Lemma SFcompare_key x y :
  is_number x = true → is_number y = true → SFcompare x y = Some (sf_cmp x y).
Proof.
  unfold sf_cmp, cmp_on.
  destruct x as [s|[]| |[] m e], y as [s'|[]| |[] m' e']; intros Hx Hy; try done;
    cbn [SFcompare sf_key list_cmp]; f_equal; cbn.
  - change (Pos.compare_cont Eq m m') with (Zpos m ?= Zpos m')%Z. rewrite !Zopp_compare.
    destruct (e ?= e')%Z; [|done..]. by destruct (Zpos m ?= Zpos m')%Z.
  - destruct (e ?= e')%Z; cbn; [|done..]. change (PosDef.Pos.compare_cont Eq m m') with (m ?= m')%positive.
    by destruct (m ?= m')%positive.
Qed.

Lemma SFleb_key x y :
  SFleb x y = true ↔ is_number x = true ∧ is_number y = true ∧ sf_cmp x y ≠ Gt.
Proof.
  destruct (is_number x) eqn:Hx; [|destruct x; naive_solver].
  destruct (is_number y) eqn:Hy; [|destruct y, x; naive_solver].
  unfold SFleb. rewrite SFcompare_key by done. destruct (sf_cmp x y); naive_solver.
Qed.

Lemma SFleb_trans x y z : SFleb x y = true → SFleb y z = true → SFleb x z = true.
Proof.
  rewrite !SFleb_key. intros (Hx & _ & Hxy) (_ & Hz & Hyz). split; [done|]. split; [done|].
  by apply (cmp_le_trans sf_cmp x y z).
Qed.

#[export] Instance cmp_vuln_order : CmpOrder cmp_vuln.
Proof.
  unfold cmp_vuln. do 3 (apply cmp_then_order; [apply cmp_flip_order, cmp_on_order; apply _|]).
  apply cmp_on_order, str_cmp_order.
Qed.

Lemma less_vuln_cmp a b :
  is_number (vr_EPSS a) = true → is_number (vr_EPSS b) = true → less_vuln a b = less_of cmp_vuln a b.
Proof.
  intros Ha Hb. unfold less_vuln, less_of, cmp_vuln, cmp_then, cmp_flip, cmp_on.
  destruct (Nat.compare_spec (Rank (vr_Priority b)) (Rank (vr_Priority a))) as [E|E|E]; cbn [lexc].
  - rewrite E, Nat.eqb_refl. cbn [negb].
    destruct (vr_EPSSKnown a), (vr_EPSSKnown b); cbn [Bool.eqb negb bool_cmp lexc]; try done;
      unfold SFeqb, SFltb; rewrite !SFcompare_key by done;
      rewrite (cmp_antisym sf_cmp (vr_EPSS b) (vr_EPSS a));
      destruct (sf_cmp (vr_EPSS b) (vr_EPSS a)); done.
  - rewrite (proj2 (Nat.eqb_neq _ _)) by lia. cbn [negb]. by rewrite (proj2 (Nat.ltb_lt _ _)).
  - rewrite (proj2 (Nat.eqb_neq _ _)) by lia. cbn [negb].
    by rewrite (proj2 (Nat.ltb_ge _ _)) by lia.
Qed.

(** ** Properties *)

Lemma SignalsActNow_mono tr e e' :
  more_evidence e e' → SignalsActNow tr e = true → SignalsActNow tr e' = true.
Proof.
  intros [Hk He]. unfold SignalsActNow. intros [H|[Hn Hs]%andb_prop]%orb_prop.
  - by rewrite (Hk H).
  - destruct (He Hn) as [-> Hle]. by rewrite (SFleb_trans _ _ _ Hs Hle), orb_true_r.
Qed.

(** the priority of a vulnerability grows with the evidence. A KEV listing,
    a known EPSS score, a higher score or a CRITICAL severity never lowers it;
    a fix that will not come never hides what the intel marks for action now;
    and while no intel is available nothing is rated below [watch]. *)
Theorem priorityOf_monotone tr sev e e' status :
  more_evidence e e' →
  Rank (priorityOf tr sev e status) <= Rank (priorityOf tr sev e' status) ∧
  Rank (priorityOf tr sev e status) <= Rank (priorityOf tr SeverityCritical e' status) ∧
  (tr_Enabled tr = true → Degraded (tr_Intel tr) = false → SignalsActNow tr e = true →
   priorityOf tr sev e' StatusWontFix = PriorityActNow) ∧
  (tr_Enabled tr = true → Degraded (tr_Intel tr) = true →
   Rank PriorityWatch <= Rank (priorityOf tr sev e status)).
Proof.
  intros Hm. pose proof (SignalsActNow_mono tr e e' Hm) as Hs.
  assert (Hw : en_EPSSKnown e && SFleb (tr_WatchEPSS tr) (en_EPSS e) = true →
               en_EPSSKnown e' && SFleb (tr_WatchEPSS tr) (en_EPSS e') = true).
  { intros [Hn Hle]%andb_prop. destruct (proj2 Hm Hn) as [-> H2]. cbn [andb].
    by apply (SFleb_trans _ (en_EPSS e)). }
  unfold priorityOf. destruct (tr_Enabled tr); cbn [negb]; [|by split_and!; try lia].
  destruct (Degraded (tr_Intel tr)).
  { split_and!; try done; destruct (String.eqb sev SeverityCritical); vm_compute; lia. }
  destruct (SignalsActNow tr e).
  { rewrite (Hs eq_refl). split_and!; try done; vm_compute; lia. }
  destruct (SignalsActNow tr e') eqn:Hs'.
  { split_and!; try done; (transitivity 3; [|done]); unfold Rank; repeat case_match; lia. }
  change (String.eqb SeverityCritical SeverityCritical) with true. rewrite orb_true_r.
  destruct (en_EPSSKnown e && _); [rewrite (Hw eq_refl)|];
    destruct (String.eqb sev SeverityCritical), (String.eqb status StatusWontFix);
    cbn [orb andb]; split_and!; try done;
    destruct (en_EPSSKnown e' && _); vm_compute; lia.
Qed.

Lemma priorityOf_monotone_witness :
  Rank (priorityOf (mk_triage true (S754_finite false 1 (-3)) (S754_finite false 1 (-6)) ∅ ∅
                      (mk_intel true true 0)) SeverityHigh zero_enrichment StatusWontFix)
  <= Rank (priorityOf (mk_triage true (S754_finite false 1 (-3)) (S754_finite false 1 (-6)) ∅ ∅
                         (mk_intel true true 0)) SeverityHigh
             (mk_enrichment true false (S754_zero false) false "") StatusWontFix).
Proof.
  apply (priorityOf_monotone _ SeverityHigh zero_enrichment
           (mk_enrichment true false (S754_zero false) false "") StatusWontFix).
  split; vm_compute; [done|discriminate].
Defined.
