(* ===== verification/GoTime.v ===== *)
(** * Go times and durations

    A [time.Time] is its distance in nanoseconds from the zero time, so
    [IsZero] is a test against 0; a [time.Duration] is an [int64] of
    nanoseconds. [t.Sub(u)] saturates at the bounds of a duration. Locations
    and monotonic readings are not modelled: only instants are compared. *)

From Stdlib Require Import ZArith Lia Bool.
From stdpp Require Import base.
From S2P Require Import Prelude.

Open Scope Z_scope.

Definition IsZero (t : Z) : bool := t =? 0.
Definition Before (t u : Z) : bool := t <? u.
Definition After (t u : Z) : bool := u <? t.

Definition minDuration : Z := - 2 ^ 63.
Definition maxDuration : Z := 2 ^ 63 - 1.

(** [t.Sub(u)] *)
Definition Sub (t u : Z) : Z := Z.max minDuration (Z.min maxDuration (t - u)).

Definition Millisecond : Z := 1000000.
Definition Second : Z := 1000 * Millisecond.
Definition Minute : Z := 60 * Second.
Definition Hour : Z := 60 * Minute.

Lemma Sub_in_range t u : int64_ok (t - u) → Sub t u = t - u.
Proof. unfold Sub, minDuration, maxDuration, int64_ok. lia. Qed.

Lemma Sub_gt t u d : int64_ok d → 0 <= d → d < Sub t u → d < t - u.
Proof. unfold Sub, minDuration, maxDuration, int64_ok. lia. Qed.
