(* ===== verification/Evidence.v ===== *)
(** * Runtime evidence

    internal/evidence: the snapshot a Sensor writes (evidence.go,
    container.go, package.go), how one generation is judged for one package
    ([JudgeOSPackage], [JudgeEmbeddedBinary], [JudgeRuntimeLoaded] of
    state.go and langmatch.go) and how verdicts are folded ([ProjectGroup] of
    project.go). *)

From Stdlib Require Import ZArith Lia Bool Ascii String List Permutation Sorting.Sorted.
From stdpp Require Import base countable gmap strings list.
From S2P Require Import Prelude GoStrings GoRegexp GoText GoTime Inventory.

Open Scope string_scope.
Open Scope Z_scope.
Open Scope nat_scope.
Open Scope list_scope.

(** ** Data: string types and their named values *)

Definition SensorOK : string := "ok".
Definition SensorDegraded : string := "degraded".
Definition SensorPermissionDenied : string := "permission_denied".
Definition SensorIsolationFailed : string := "isolation_failed".
Definition SensorIsolationDegraded : string := "isolation_degraded".
Definition EventsOK : string := "ok".
Definition EventsUnavailable : string := "unavailable".

Definition StateInitializing : string := "initializing".
Definition StateObserving : string := "observing".
Definition StateDenied : string := "denied".
Definition StateStalled : string := "stalled".
Definition StateParseFailed : string := "parse_failed".
Definition StateEnded : string := "ended".

Definition CoverageSinceStart : string := "since_start".
Definition CoveragePartial : string := "partial".
Definition CoverageNone : string := "none".

Definition DBStatusOK : string := "ok".
Definition DBStatusAbsent : string := "absent".
Definition DBStatusError : string := "error".
Definition DBStatusUnsupported : string := "unsupported".

Definition KindExe : string := "exe".
Definition KindMappedLibrary : string := "mapped_library".
Definition KindExecEvent : string := "exec_event".
Definition KindLibraryLoadEvent : string := "library_load_event".
Definition KindBinaryRunning : string := "binary_running".
Definition KindBinaryExecuted : string := "binary_executed".
Definition KindRuntimeRunning : string := "runtime_running".
Definition KindRuntimeExecuted : string := "runtime_executed".

Definition ReasonSensorNotReporting : string := "sensor_not_reporting".
Definition ReasonSensorStale : string := "sensor_stale".
Definition ReasonEvidenceInvalid : string := "evidence_invalid".
Definition ReasonIsolationFailed : string := "isolation_failed".
Definition ReasonPermissionDenied : string := "permission_denied".
Definition ReasonInitializing : string := "initializing".
Definition ReasonStalled : string := "stalled".
Definition ReasonParseFailed : string := "parse_failed".
Definition ReasonTruncated : string := "truncated".
Definition ReasonIncomplete : string := "incomplete".
Definition ReasonGenerationUnverified : string := "generation_unverified".
Definition ReasonContainerNotObserved : string := "container_not_observed".
Definition ReasonDBAbsent : string := "db_absent".
Definition ReasonDBError : string := "db_error".
Definition ReasonDBUnsupported : string := "db_unsupported".
Definition ReasonNoFileList : string := "no_file_list".
Definition ReasonAttributionAmbiguous : string := "attribution_ambiguous".
Definition ReasonFileReplaced : string := "file_replaced".
Definition ReasonVersionMismatch : string := "version_mismatch".
Definition ReasonEcosystemUnmapped : string := "ecosystem_unmapped".
Definition ReasonBinaryPathUnknown : string := "binary_path_unknown".

Definition UsageInUse : string := "in_use".
Definition UsageNotObserved : string := "not_observed".
Definition UsageUnavailable : string := "unavailable".

(** ** Data: records *)

Record KindObservation := mk_kind_obs {
  ko_FirstSeen : Z; ko_LastSeen : Z; ko_Samples : Z; ko_Count : Z }.
Record ProcessObservation := mk_proc_obs {
  po_Exe : string; po_EffectiveUID : Z; po_Userns : bool; po_CapEff : string;
  po_Listeners : list string; po_LastSeen : Z }.
Record OSPackageEvidence := mk_os_pkg {
  op_Name : string; op_Version : string; op_Kinds : gmap string KindObservation;
  op_Observations : list ProcessObservation }.
Record UnavailablePackage := mk_unavail { up_Name : string; up_Version : string; up_Reason : string }.
Record ExecutableEvidence := mk_exec {
  ee_Path : string; ee_Dev : string; ee_Inode : Z; ee_Kinds : gmap string KindObservation;
  ee_Observations : list ProcessObservation }.
Record ParseFailure := mk_parse_failure {
  pf_Input : string; pf_Path : string; pf_Dev : string; pf_Inode : Z; pf_Size : Z;
  pf_FailedAt : Z; pf_Count : Z; pf_RetryAfter : Z }.
Record PackageDBInfo := mk_db { db_Kind : string; db_Status : string; db_NoFileList : list string }.
Record ContainerRef := mk_container_ref {
  cr_Runtime : string; cr_ID : string; cr_Namespace : string; cr_Pod : string; cr_Container : string }.
Record InitProcess := mk_init_process { ip_PID : Z; ip_Starttime : Z }.

Record Generation := mk_gen {
  ge_Container : ContainerRef; ge_Init : InitProcess; ge_StartedAt : Z; ge_EndedAt : option Z;
  ge_LastVerifiedAt : Z; ge_State : string; ge_PackageDB : PackageDBInfo;
  ge_Incomplete : bool; ge_Truncated : bool; ge_EventsCoverage : string; ge_EventsLost : Z;
  ge_ParseFailed : list ParseFailure; ge_OSPackages : list OSPackageEvidence;
  ge_Unavailable : list UnavailablePackage; ge_Executables : list ExecutableEvidence }.

Record Isolation := mk_isolation {
  iso_NoNewPrivs : bool; iso_NonDumpable : bool; iso_Seccomp : bool; iso_LandlockABI : Z }.
Record EventsInfo := mk_events {
  ev_Status : string; ev_Reason : string; ev_AttachedAt : Z; ev_Lost : Z;
  ev_Unclassified : Z; ev_KernelLost : Z }.
Record SensorInfo := mk_sensor {
  se_Version : string; se_SessionID : string; se_SessionStartedAt : Z; se_HeartbeatAt : Z;
  se_IntervalSeconds : Z; se_Isolation : Isolation; se_Status : string; se_Events : EventsInfo }.
Record Snapshot := mk_snapshot {
  sn_Schema : Z; sn_Sensor : SensorInfo; sn_Generations : list Generation }.

Record Verdict := mk_verdict {
  vd_Usage : string; vd_Reason : string; vd_EvidenceKinds : list string; vd_EventsCoverage : string }.

(** ** Freshness *)

Definition StalenessThreshold (intervalSeconds : Z) : Z :=
  let fromInterval := int64_wrap (int64_wrap (intervalSeconds * 10) * Second) in
  let floor := (5 * Minute)%Z in
  if (floor <? fromInterval)%Z then fromInterval else floor.

Definition IsStale (heartbeatAt now intervalSeconds : Z) : bool :=
  if IsZero heartbeatAt then true else (StalenessThreshold intervalSeconds <? Sub now heartbeatAt)%Z.

Definition GenerationFresh (gen : Generation) (now intervalSeconds : Z) : bool :=
  negb (IsStale (ge_LastVerifiedAt gen) now intervalSeconds).

(** [(false, reason)] when the generation cannot support "not observed". *)
Definition GenerationEligibleForNotObserved (gen : Generation) (class : string) : bool * string :=
  let db :=
    if String.eqb class ClassOS && negb (String.eqb (db_Status (ge_PackageDB gen)) DBStatusOK) then
      if String.eqb (db_Status (ge_PackageDB gen)) DBStatusError then (false, ReasonDBError)
      else if String.eqb (db_Status (ge_PackageDB gen)) DBStatusUnsupported
      then (false, ReasonDBUnsupported)
      else (false, ReasonDBAbsent)
    else (true, "") in
  let st := ge_State gen in
  if ge_Truncated gen then (false, ReasonTruncated)
  else if ge_Incomplete gen then (false, ReasonIncomplete)
  else if String.eqb st StateDenied then (false, ReasonPermissionDenied)
  else if String.eqb st StateStalled then (false, ReasonStalled)
  else if String.eqb st StateEnded then (false, ReasonContainerNotObserved)
  else if String.eqb st StateInitializing then
    if String.eqb class ClassOS then (false, ReasonInitializing) else db
  else if String.eqb st StateParseFailed then
    if String.eqb class ClassOS then (false, ReasonParseFailed) else db
  else if String.eqb st StateObserving then db
  else (false, ReasonInitializing).

(** ** Evidence kinds *)

Section kinds.
Context `{MapRange}.

Definition kindsOf (kinds : gmap string KindObservation) : list string :=
  sort_by str_lt (map_range kinds).*1.

(** [mergeKinds]: the accumulator, the set of what it holds, the batch. *)
Fixpoint mergeKinds_loop (acc : list string) (seen : gset string) (kinds : list string)
    : list string * gset string :=
  match kinds with
  | [] => (acc, seen)
  | k :: kinds' =>
      if decide (k ∈ seen) then mergeKinds_loop acc seen kinds'
      else mergeKinds_loop (acc ++ [k]) ({[k]} ∪ seen) kinds'
  end.

Definition mergeKinds (acc : list string) (seen : gset string) (kinds : list string)
    : list string * gset string :=
  let '(acc, seen) := mergeKinds_loop acc seen kinds in (sort_by str_lt acc, seen).

Definition langKinds (kinds : gmap string KindObservation) (embedded : bool) : list string :=
  (if decide (is_Some (kinds !! KindExe))
   then [if embedded then KindBinaryRunning else KindRuntimeRunning] else []) ++
  (if decide (is_Some (kinds !! KindExecEvent))
   then [if embedded then KindBinaryExecuted else KindRuntimeExecuted] else []).

(** ** Judging one generation *)

(** The loop over the packages: the verdict, or whether another version of
    the package was seen. *)
Fixpoint os_loop (pkgs : list OSPackageEvidence) (ref : PackageRef) (other : bool) : Verdict + bool :=
  match pkgs with
  | [] => inr other
  | p :: pkgs' =>
      if negb (String.eqb (op_Name p) (pk_Name ref)) then os_loop pkgs' ref other
      else if String.eqb (op_Version p) (pk_Version ref)
      then inl (mk_verdict UsageInUse "" (kindsOf (op_Kinds p)) "")
      else os_loop pkgs' ref true
  end.

Definition unavailable_match (ref : PackageRef) (u : UnavailablePackage) : bool :=
  String.eqb (up_Name u) (pk_Name ref) && String.eqb (up_Version u) (pk_Version ref).

Definition JudgeOSPackage (gen : Generation) (ref : PackageRef) : Verdict :=
  let unavailable reason := mk_verdict UsageUnavailable reason [] (ge_EventsCoverage gen) in
  match os_loop (ge_OSPackages gen) ref false with
  | inl v => v
  | inr true => unavailable ReasonVersionMismatch
  | inr false =>
      match find (unavailable_match ref) (ge_Unavailable gen) with
      | Some u => unavailable (up_Reason u)
      | None =>
          let '(ok, reason) := GenerationEligibleForNotObserved gen ClassOS in
          if negb ok then unavailable reason
          else if existsb (String.eqb (pk_Name ref)) (db_NoFileList (ge_PackageDB gen))
          then unavailable ReasonNoFileList
          else mk_verdict UsageNotObserved "" [] (ge_EventsCoverage gen)
      end
  end.

(** The loop over the executables that match: the merged kinds, and whether
    any matched. *)
Fixpoint exec_loop (p : ExecutableEvidence → bool) (embedded : bool) (exes : list ExecutableEvidence)
    (kinds : list string) (seen : gset string) (matched : bool) : list string * bool :=
  match exes with
  | [] => (kinds, matched)
  | e :: exes' =>
      if negb (p e) then exec_loop p embedded exes' kinds seen matched
      else
        let '(kinds, seen) := mergeKinds kinds seen (langKinds (ee_Kinds e) embedded) in
        exec_loop p embedded exes' kinds seen true
  end.

Definition judge_executables (p : ExecutableEvidence → bool) (embedded : bool) (gen : Generation)
    : Verdict :=
  let '(kinds, matched) := exec_loop p embedded (ge_Executables gen) [] ∅ false in
  if matched then mk_verdict UsageInUse "" kinds ""
  else
    let '(ok, reason) := GenerationEligibleForNotObserved gen ClassLang in
    if negb ok then mk_verdict UsageUnavailable reason [] (ge_EventsCoverage gen)
    else mk_verdict UsageNotObserved "" [] (ge_EventsCoverage gen).

Definition normalizeContainerPath (p : string) : string := trim_prefix p "/".

Definition JudgeEmbeddedBinary (gen : Generation) (target : string) : Verdict :=
  if String.eqb target "" then mk_verdict UsageUnavailable ReasonBinaryPathUnknown [] ""
  else
    let norm := normalizeContainerPath target in
    judge_executables (λ e, String.eqb (normalizeContainerPath (ee_Path e)) norm) true gen.

(** ** The ecosystems and their runtimes *)

Definition embeddedEcosystems : list string :=
  ["gobinary"; "rustbinary"; EcosystemNodeRuntime; EcosystemPythonRuntime].

Record runtimeRule := mk_rule { rule_exact : list string; rule_versionRE : option re }.

(** [^python3\.\d+$], [^php-fpm[0-9]+(\.[0-9]+)?$] *)
Definition pythonRE : re := RSeqs [RLit "python3"; RChar "."%char; RPlus RDigit].
Definition phpRE : re :=
  RSeqs [RLit "php-fpm"; RPlus RDigit; ROpt (RSeq (RChar "."%char) (RPlus RDigit))].

Definition runtimeRules : list (string * runtimeRule) :=
  [("python-pkg", mk_rule ["python"; "python3"] (Some pythonRE));
   ("conda-pkg", mk_rule ["python"; "python3"] (Some pythonRE));
   ("node-pkg", mk_rule ["node"; "nodejs"] None);
   ("jar", mk_rule ["java"] None);
   ("gemspec", mk_rule ["ruby"] None);
   ("composer", mk_rule ["php"; "php-fpm"] (Some phpRE));
   ("composer-vendor", mk_rule ["php"; "php-fpm"] (Some phpRE));
   ("dotnet-core", mk_rule ["dotnet"] None)].

Definition IsEmbeddedEcosystem (eco : string) : bool := existsb (String.eqb eco) embeddedEcosystems.

Definition EcosystemMapped (eco : string) : bool :=
  IsEmbeddedEcosystem eco || (if assoc eco runtimeRules then true else false).

(** [path.Base]: the last element after trailing slashes are dropped. *)
Fixpoint drop_empty (l : list string) : list string :=
  match l with
  | [] => []
  | x :: l' => if String.eqb x "" then drop_empty l' else l
  end.
Definition path_Base (p : string) : string :=
  if String.eqb p "" then "."
  else
    match drop_empty (rev (split_byte "/"%char p)) with
    | [] => "/"
    | x :: _ => x
    end.

Definition RuntimeNameMatches (eco execPath : string) : bool :=
  match assoc eco runtimeRules with
  | None => false
  | Some rule =>
      let name := path_Base execPath in
      existsb (String.eqb name) (rule_exact rule) ||
      match rule_versionRE rule with Some r => match_full r name | None => false end
  end.

Definition JudgeRuntimeLoaded (gen : Generation) (eco : string) : Verdict :=
  if negb (EcosystemMapped eco) then mk_verdict UsageUnavailable ReasonEcosystemUnmapped [] ""
  else judge_executables (λ e, RuntimeNameMatches eco (ee_Path e)) false gen.

(** ** Folding verdicts *)

Definition reasonPriority : list string :=
  [ReasonSensorNotReporting; ReasonSensorStale; ReasonEvidenceInvalid; ReasonIsolationFailed;
   ReasonPermissionDenied; ReasonGenerationUnverified; ReasonContainerNotObserved; ReasonTruncated;
   ReasonIncomplete; ReasonStalled; ReasonInitializing; ReasonParseFailed; ReasonDBAbsent;
   ReasonDBError; ReasonDBUnsupported; ReasonNoFileList; ReasonAttributionAmbiguous;
   ReasonFileReplaced; ReasonVersionMismatch; ReasonEcosystemUnmapped; ReasonBinaryPathUnknown].

Fixpoint index_of (x : string) (l : list string) : nat :=
  match l with
  | [] => 0
  | y :: l' => if String.eqb y x then 0 else S (index_of x l')
  end.
Definition reasonRank (reason : string) : nat := index_of reason reasonPriority.

(** The best reason so far and its rank, [None] before the first one. *)
Fixpoint reason_loop (verdicts : list Verdict) (best : option (string * nat)) : option string :=
  match verdicts with
  | [] => fst <$> best
  | v :: verdicts' =>
      if negb (String.eqb (vd_Usage v) UsageUnavailable) then reason_loop verdicts' best
      else
        let rank := reasonRank (vd_Reason v) in
        match best with
        | Some (_, bestRank) =>
            if rank <? bestRank then reason_loop verdicts' (Some (vd_Reason v, rank))
            else reason_loop verdicts' best
        | None => reason_loop verdicts' (Some (vd_Reason v, rank))
        end
  end.
Definition strongestUnavailableReason (verdicts : list Verdict) : option string :=
  reason_loop verdicts None.

Definition coverage_rank (c : string) : option nat :=
  if String.eqb c CoverageNone then Some 0
  else if String.eqb c CoveragePartial then Some 1
  else if String.eqb c CoverageSinceStart then Some 2
  else None.

Fixpoint coverage_loop (verdicts : list Verdict) (worst : string) (worstRank : nat) : string :=
  match verdicts with
  | [] => worst
  | v :: verdicts' =>
      let c := if String.eqb (vd_EventsCoverage v) "" then CoverageNone else vd_EventsCoverage v in
      match coverage_rank c with
      | Some r => if r <? worstRank then coverage_loop verdicts' c r
                  else coverage_loop verdicts' worst worstRank
      | None => coverage_loop verdicts' worst worstRank
      end
  end.
Definition worstCoverage (verdicts : list Verdict) : string :=
  coverage_loop verdicts CoverageSinceStart 2.

(** The loop over the verdicts in use: merged kinds, and whether there was one. *)
Fixpoint in_use_loop (verdicts : list Verdict) (kinds : list string) (seen : gset string) (any : bool)
    : list string * bool :=
  match verdicts with
  | [] => (kinds, any)
  | v :: verdicts' =>
      if negb (String.eqb (vd_Usage v) UsageInUse) then in_use_loop verdicts' kinds seen any
      else
        let '(kinds, seen) := mergeKinds kinds seen (vd_EvidenceKinds v) in
        in_use_loop verdicts' kinds seen true
  end.

Definition ProjectGroup (verdicts : list Verdict) : Verdict :=
  match verdicts with
  | [] => mk_verdict UsageUnavailable ReasonContainerNotObserved [] ""
  | _ =>
      let '(kinds, anyInUse) := in_use_loop verdicts [] ∅ false in
      if anyInUse then mk_verdict UsageInUse "" kinds ""
      else
        match strongestUnavailableReason verdicts with
        | Some reason => mk_verdict UsageUnavailable reason [] (worstCoverage verdicts)
        | None => mk_verdict UsageNotObserved "" [] (worstCoverage verdicts)
        end
  end.

Fixpoint usages_loop (usages : list string) (sawUnavailable : bool) : string :=
  match usages with
  | [] => if sawUnavailable then UsageUnavailable else UsageNotObserved
  | u :: usages' =>
      if String.eqb u UsageInUse then UsageInUse
      else usages_loop usages' (sawUnavailable || String.eqb u UsageUnavailable)
  end.
Definition ProjectUsages (usages : list string) : string := usages_loop usages false.

End kinds.

(** ** Folding: what each loop computes *)

(** A verdict whose reason the table knows. *)
Definition known_reason (v : Verdict) : Prop :=
  vd_Usage v = UsageUnavailable → vd_Reason v ∈ reasonPriority.

Definition in_use_kinds (vs : list Verdict) : list string :=
  mjoin (vd_EvidenceKinds <$> filter (λ v, vd_Usage v = UsageInUse) vs).

(** The accumulator of [mergeKinds]: sorted, without duplicates, and the set
    of what it holds. *)
Definition kinds_ok (acc : list string) (seen : gset string) : Prop :=
  NoDup acc ∧ (∀ k, k ∈ acc ↔ k ∈ seen).

Lemma mergeKinds_loop_spec kinds acc seen :
  kinds_ok acc seen →
  let '(acc', seen') := mergeKinds_loop acc seen kinds in
  kinds_ok acc' seen' ∧ ∀ k, k ∈ acc' ↔ k ∈ acc ∨ k ∈ kinds.
Proof.
  revert acc seen. induction kinds as [|x kinds IH]; intros acc seen [Hnd Hin]; cbn.
  { split; [done|]. intros k. rewrite elem_of_nil. naive_solver. }
  destruct (decide (x ∈ seen)) as [Hx|Hx].
  - specialize (IH acc seen (conj Hnd Hin)). destruct (mergeKinds_loop acc seen kinds) as [acc' seen'].
    destruct IH as [Hok Hk]. split; [done|]. intros k. rewrite Hk, elem_of_cons.
    split; [naive_solver|]. intros [|[->|]]; [by left| |by right]. left. by apply Hin.
  - specialize (IH (acc ++ [x]) ({[x]} ∪ seen)).
    destruct (mergeKinds_loop (acc ++ [x]) ({[x]} ∪ seen) kinds) as [acc' seen'].
    destruct IH as [Hok Hk].
    { split.
      - apply NoDup_app. split; [done|]. split; [|apply NoDup_singleton].
        intros k Hk ->%list_elem_of_singleton. by apply Hx, Hin.
      - intros k. rewrite elem_of_app, list_elem_of_singleton, elem_of_union, elem_of_singleton, Hin.
        naive_solver. }
    split; [done|]. intros k. rewrite Hk, elem_of_app, list_elem_of_singleton, elem_of_cons. naive_solver.
Qed.

Lemma mergeKinds_spec kinds acc seen :
  kinds_ok acc seen →
  let '(acc', seen') := mergeKinds acc seen kinds in
  kinds_ok acc' seen' ∧ sorted_by str_lt acc' ∧ ∀ k, k ∈ acc' ↔ k ∈ acc ∨ k ∈ kinds.
Proof.
  intros Hok. unfold mergeKinds. pose proof (mergeKinds_loop_spec kinds acc seen Hok) as H.
  destruct (mergeKinds_loop acc seen kinds) as [acc' seen']. destruct H as [[Hnd Hin] Hk].
  split; [|split; [apply (sort_by_sorted _)|]].
  - split; [by apply NoDup_sort_by|]. intros k. by rewrite elem_of_sort_by.
  - intros k. by rewrite elem_of_sort_by.
Qed.

Lemma in_use_loop_spec vs acc seen any :
  kinds_ok acc seen → sorted_by str_lt acc →
  let '(kinds, any') := in_use_loop vs acc seen any in
  NoDup kinds ∧ sorted_by str_lt kinds ∧ (∀ k, k ∈ kinds ↔ k ∈ acc ∨ k ∈ in_use_kinds vs) ∧
  any' = any || existsb (λ v, String.eqb (vd_Usage v) UsageInUse) vs.
Proof.
  revert acc seen any. induction vs as [|v vs IH]; intros acc seen any Hok Hs; cbn [in_use_loop existsb].
  { split; [apply Hok|]. split; [done|]. split; [|by rewrite orb_false_r].
    intros k. unfold in_use_kinds. cbn. rewrite elem_of_nil. naive_solver. }
  unfold in_use_kinds. rewrite filter_cons.
  destruct (String.eqb_spec (vd_Usage v) UsageInUse) as [E|E]; cbn [negb].
  - rewrite decide_True by done. rewrite fmap_cons. cbn [mjoin list_join].
    pose proof (mergeKinds_spec (vd_EvidenceKinds v) acc seen Hok) as H.
    destruct (mergeKinds acc seen (vd_EvidenceKinds v)) as [acc' seen']. destruct H as (Hok' & Hs' & Hk').
    specialize (IH acc' seen' true Hok' Hs'). destruct (in_use_loop vs acc' seen' true) as [kinds any'].
    destruct IH as (H1 & H2 & H3 & H4). split; [done|]. split; [done|]. split.
    + intros k. rewrite H3, Hk', elem_of_app. unfold in_use_kinds. naive_solver.
    + rewrite H4. by destruct any.
  - rewrite decide_False by done. apply (IH acc seen any Hok Hs).
Qed.

Definition unavailable_reasons (vs : list Verdict) : list string :=
  vd_Reason <$> filter (λ v, vd_Usage v = UsageUnavailable) vs.

Lemma reason_loop_spec vs best :
  (∀ b r, best = Some (b, r) → r = reasonRank b) →
  match reason_loop vs best with
  | None => best = None ∧ unavailable_reasons vs = []
  | Some x =>
      (x ∈ unavailable_reasons vs ∨ Some x = fst <$> best) ∧
      (∀ b r, best = Some (b, r) → reasonRank x ≤ r) ∧
      (∀ y, y ∈ unavailable_reasons vs → reasonRank x ≤ reasonRank y)
  end.
Proof.
  revert best. induction vs as [|v vs IH]; intros best Hb; cbn [reason_loop].
  { destruct best as [[b r]|]; [|done]. cbn [fmap option_fmap option_map fst]. split; [by right|].
    split; [intros b' r' [= <- <-]; rewrite (Hb b r eq_refl); lia|]. intros y Hy. by apply not_elem_of_nil in Hy. }
  unfold unavailable_reasons. rewrite filter_cons.
  destruct (String.eqb_spec (vd_Usage v) UsageUnavailable) as [E|E]; cbn [negb].
  2:{ rewrite decide_False by done. by apply IH. }
  rewrite decide_True by done. rewrite fmap_cons. fold (unavailable_reasons vs).
  assert (Hstep : ∀ best', (∀ b r, best' = Some (b, r) → r = reasonRank b) → best' ≠ None →
    (∀ b r, best' = Some (b, r) → r ≤ reasonRank (vd_Reason v)) →
    (∀ b r b' r', best' = Some (b, r) → best = Some (b', r') → r ≤ r') →
    (∀ b r, best' = Some (b, r) → b = vd_Reason v ∨ best = Some (b, r)) →
    match reason_loop vs best' with
    | None => best = None ∧ vd_Reason v :: unavailable_reasons vs = []
    | Some x =>
        (x ∈ vd_Reason v :: unavailable_reasons vs ∨ Some x = fst <$> best) ∧
        (∀ b r, best = Some (b, r) → reasonRank x ≤ r) ∧
        (∀ y, y ∈ vd_Reason v :: unavailable_reasons vs → reasonRank x ≤ reasonRank y)
    end).
  { intros best' Hb' Hne Hv Hold Hfrom. specialize (IH best' Hb').
    destruct best' as [[b0 r0]|]; [|done].
    destruct (reason_loop vs (Some (b0, r0))) as [x|]; [|by destruct IH].
    destruct IH as (Hx & Hx1 & Hx2). specialize (Hx1 b0 r0 eq_refl). split; [|split].
    - destruct Hx as [Hx|[= ->]]; [left; by right|].
      destruct (Hfrom b0 r0 eq_refl) as [->|Hbest]; [left; by left|right; by rewrite Hbest].
    - intros b r Hbest. pose proof (Hold b0 r0 b r eq_refl Hbest). lia.
    - intros y [->|Hy]%elem_of_cons; [pose proof (Hv b0 r0 eq_refl); lia|by apply Hx2]. }
  destruct best as [[b rb]|].
  - pose proof (Hb b rb eq_refl) as Erb.
    destruct (Nat.ltb_spec (reasonRank (vd_Reason v)) rb).
    + apply Hstep; [naive_solver|done|naive_solver| |naive_solver].
      intros ? ? ? ? [= <- <-] [= <- <-]. lia.
    + apply Hstep; [naive_solver|done| | |naive_solver].
      * intros ? ? [= <- <-]. lia.
      * intros ? ? ? ? [= <- <-] [= <- <-]. lia.
  - apply Hstep; naive_solver.
Qed.

Lemma index_of_inj l x y : x ∈ l → index_of x l = index_of y l → x = y.
Proof.
  induction l as [|z l IH]; [by intros ?%not_elem_of_nil|]. cbn [index_of].
  intros [<-|Hx]%elem_of_cons.
  - rewrite String.eqb_refl. destruct (String.eqb_spec x y); [done|]. done.
  - destruct (String.eqb_spec z x), (String.eqb_spec z y); try done; [congruence|].
    intros [= E]. by apply IH.
Qed.

Lemma strongest_perm vs ws :
  vs ≡ₚ ws → Forall known_reason vs →
  strongestUnavailableReason vs = strongestUnavailableReason ws.
Proof.
  intros Hp Hk. unfold strongestUnavailableReason.
  assert (Hr : unavailable_reasons vs ≡ₚ unavailable_reasons ws).
  { unfold unavailable_reasons. by rewrite Hp. }
  pose proof (reason_loop_spec vs None ltac:(done)) as H1.
  pose proof (reason_loop_spec ws None ltac:(done)) as H2.
  destruct (reason_loop vs None) as [x|], (reason_loop ws None) as [y|].
  - destruct H1 as ([Hx|Hx] & _ & Hx'), H2 as ([Hy|Hy] & _ & Hy'); try done.
    f_equal. apply (index_of_inj reasonPriority).
    + apply list_elem_of_fmap in Hx as (v & -> & [Hv Hin]%list_elem_of_filter).
      rewrite Forall_forall in Hk. by apply Hk.
    + apply Nat.le_antisymm; [apply Hx'; by rewrite Hr|apply Hy'; by rewrite <- Hr].
  - destruct H1 as ([Hx|Hx] & _), H2 as [_ H2]; [|done]. rewrite Hr, H2 in Hx. by apply not_elem_of_nil in Hx.
  - destruct H2 as ([Hx|Hx] & _), H1 as [_ H1]; [|done]. rewrite <- Hr, H1 in Hx. by apply not_elem_of_nil in Hx.
  - done.
Qed.

(** The coverage a verdict counts with. *)
Definition coverage_of (v : Verdict) : string :=
  if String.eqb (vd_EventsCoverage v) "" then CoverageNone else vd_EventsCoverage v.

Lemma coverage_loop_spec vs worst r :
  coverage_rank worst = Some r →
  ∃ r', coverage_rank (coverage_loop vs worst r) = Some r' ∧ r' ≤ r ∧
    (∀ v k, v ∈ vs → coverage_rank (coverage_of v) = Some k → r' ≤ k) ∧
    (coverage_loop vs worst r = worst ∨ ∃ v, v ∈ vs ∧ coverage_loop vs worst r = coverage_of v).
Proof.
  revert worst r. induction vs as [|v vs IH]; intros worst r Hw; cbn [coverage_loop].
  { exists r. split; [done|]. split; [lia|]. split; [|by left]. intros ? ? []%not_elem_of_nil. }
  fold (coverage_of v). destruct (coverage_rank (coverage_of v)) as [k|] eqn:Ek.
  - destruct (Nat.ltb_spec k r).
    + destruct (IH (coverage_of v) k Ek) as (r' & H1 & H2 & H3 & H4). exists r'.
      split; [done|]. split; [lia|]. split.
      * intros u j [->|Hu]%elem_of_cons Hj; [rewrite Hj in Ek; simplify_eq; lia|by apply (H3 u)].
      * right. destruct H4 as [->|(u & Hu & ->)]; [exists v; split; [by left|done]|].
        exists u. split; [by right|done].
    + destruct (IH worst r Hw) as (r' & H1 & H2 & H3 & H4). exists r'.
      split; [done|]. split; [lia|]. split.
      * intros u j [->|Hu]%elem_of_cons Hj; [rewrite Hj in Ek; simplify_eq; lia|by apply (H3 u)].
      * destruct H4 as [->|(u & Hu & ->)]; [by left|right; exists u; split; [by right|done]].
  - destruct (IH worst r Hw) as (r' & H1 & H2 & H3 & H4). exists r'.
    split; [done|]. split; [lia|]. split.
    + intros u j [->|Hu]%elem_of_cons Hj; [by rewrite Hj in Ek|by apply (H3 u)].
    + destruct H4 as [->|(u & Hu & ->)]; [by left|right; exists u; split; [by right|done]].
Qed.

Lemma coverage_rank_inj c d k : coverage_rank c = Some k → coverage_rank d = Some k → c = d.
Proof.
  unfold coverage_rank. intros Hc Hd.
  repeat match goal with
  | H : (if String.eqb ?a ?b then _ else _) = _ |- _ => destruct (String.eqb_spec a b)
  end; congruence.
Qed.

Lemma worstCoverage_perm vs ws : vs ≡ₚ ws → worstCoverage vs = worstCoverage ws.
Proof.
  intros Hp. unfold worstCoverage.
  destruct (coverage_loop_spec vs CoverageSinceStart 2 eq_refl) as (r & H1 & H2 & H3 & H4).
  destruct (coverage_loop_spec ws CoverageSinceStart 2 eq_refl) as (s & K1 & K2 & K3 & K4).
  assert (r = s) as ->; [|by apply (coverage_rank_inj _ _ s)].
  apply Nat.le_antisymm.
  - destruct K4 as [K4|(u & Hu & K4)].
    + rewrite K4 in K1. injection K1 as <-. done.
    + apply (H3 u); [by rewrite Hp|]. by rewrite <- K4.
  - destruct H4 as [H4|(u & Hu & H4)].
    + rewrite H4 in H1. injection H1 as <-. done.
    + apply (K3 u); [by rewrite <- Hp|]. by rewrite <- H4.
Qed.

Lemma in_use_perm vs ws : vs ≡ₚ ws → in_use_loop vs [] ∅ false = in_use_loop ws [] ∅ false.
Proof.
  intros Hp. assert (Hok : kinds_ok [] ∅) by (split; [constructor|set_solver]).
  pose proof (in_use_loop_spec vs [] ∅ false Hok ltac:(constructor)) as H1.
  pose proof (in_use_loop_spec ws [] ∅ false Hok ltac:(constructor)) as H2.
  destruct (in_use_loop vs [] ∅ false) as [k1 a1], (in_use_loop ws [] ∅ false) as [k2 a2].
  destruct H1 as (N1 & S1 & E1 & ->), H2 as (N2 & S2 & E2 & ->). cbn [orb]. f_equal.
  - apply (sorted_by_unique str_lt); [intros ? ? _ _; apply (less_of_tie str_cmp)|done|done|].
    apply NoDup_Permutation; [done..|]. intros k. rewrite E1, E2.
    assert (k ∈ in_use_kinds vs ↔ k ∈ in_use_kinds ws) as ->; [|done].
    unfold in_use_kinds. by rewrite Hp.
  - clear -Hp. induction Hp; cbn [existsb]; [done|by f_equal| |congruence].
    by rewrite !orb_assoc, (orb_comm (String.eqb (vd_Usage y) _)).
Qed.

(** ** Properties *)

(** the usage shown for a group is a function of the multiset of verdicts
    alone, whatever order containers and instances were judged in; it is
    [in_use] exactly when some verdict is, and [not_observed] exactly when
    there is a verdict and every one of them really reached it. *)
Theorem ProjectGroup_fold vs ws :
  vs ≡ₚ ws → Forall known_reason vs →
  ProjectGroup vs = ProjectGroup ws ∧
  (vd_Usage (ProjectGroup vs) = UsageInUse ↔ Exists (λ v, vd_Usage v = UsageInUse) vs) ∧
  (vd_Usage (ProjectGroup vs) = UsageNotObserved ↔
   vs ≠ [] ∧ Forall (λ v, vd_Usage v ≠ UsageInUse ∧ vd_Usage v ≠ UsageUnavailable) vs).
Proof.
  intros Hp Hk. split.
  { destruct vs as [|v vs]; [by apply Permutation_nil_l in Hp as ->|].
    destruct ws as [|w ws]; [symmetry in Hp; by apply Permutation_nil_cons in Hp|].
    unfold ProjectGroup. by rewrite (in_use_perm _ _ Hp), (strongest_perm _ _ Hp Hk), (worstCoverage_perm _ _ Hp). }
  destruct vs as [|v vs'] eqn:Evs.
  { cbn. split; split; try done; [by intros ?%Exists_nil|naive_solver]. }
  rewrite <- Evs in *. assert (Hne : vs ≠ []) by by subst.
  assert (E : ProjectGroup vs =
    let '(kinds, anyInUse) := in_use_loop vs [] ∅ false in
    if anyInUse then mk_verdict UsageInUse "" kinds ""
    else match strongestUnavailableReason vs with
         | Some reason => mk_verdict UsageUnavailable reason [] (worstCoverage vs)
         | None => mk_verdict UsageNotObserved "" [] (worstCoverage vs)
         end) by by subst.
  rewrite E. clear Evs E v vs' Hp ws.
  pose proof (in_use_loop_spec vs [] ∅ false ltac:(split; [constructor|set_solver]) ltac:(constructor)) as H1.
  destruct (in_use_loop vs [] ∅ false) as [kinds any]. destruct H1 as (_ & _ & _ & ->). cbn [orb].
  assert (Hex : existsb (λ v, String.eqb (vd_Usage v) UsageInUse) vs = true ↔
                Exists (λ v, vd_Usage v = UsageInUse) vs).
  { rewrite existsb_exists, List.Exists_exists. setoid_rewrite String.eqb_eq. done. }
  pose proof (reason_loop_spec vs None ltac:(done)) as H2. fold (strongestUnavailableReason vs) in H2.
  destruct (existsb _ vs).
  { cbn. split; [split; [intros _; by apply Hex|done]|]. split; [done|]. intros [_ Hall]. exfalso.
    apply proj1 in Hex. specialize (Hex eq_refl). apply Exists_exists in Hex as (v & Hv & Eu).
    rewrite Forall_forall in Hall. by destruct (Hall v Hv). }
  assert (Hno : ¬ Exists (λ v, vd_Usage v = UsageInUse) vs) by (intros H; by apply Hex in H).
  destruct (strongestUnavailableReason vs) as [x|]; cbn; (split; [split; [done|by intros ?%Hno]|]).
  - split; [done|]. intros [_ Hall]. exfalso. destruct H2 as ([Hx|Hx] & _); [|done].
    apply list_elem_of_fmap in Hx as (v & _ & [Hv Hin]%list_elem_of_filter).
    rewrite Forall_forall in Hall. by destruct (Hall v Hin).
  - split; [|done]. intros _. split; [done|]. apply Forall_forall. intros v Hv. split.
    + intros Eu. apply Hno, Exists_exists. eauto.
    + intros Eu. destruct H2 as [_ H2].
      assert (vd_Reason v ∈ unavailable_reasons vs) as Hin.
      { apply list_elem_of_fmap. exists v. split; [done|]. by apply list_elem_of_filter. }
      rewrite H2 in Hin. by apply not_elem_of_nil in Hin.
Qed.

Lemma ProjectGroup_fold_witness :
  ProjectGroup [mk_verdict UsageUnavailable ReasonStalled [] CoveragePartial;
                mk_verdict UsageNotObserved "" [] CoverageSinceStart;
                mk_verdict UsageUnavailable ReasonSensorStale [] ""] =
  ProjectGroup [mk_verdict UsageUnavailable ReasonSensorStale [] "";
                mk_verdict UsageNotObserved "" [] CoverageSinceStart;
                mk_verdict UsageUnavailable ReasonStalled [] CoveragePartial].
Proof.
  apply ProjectGroup_fold.
  - set (a := mk_verdict UsageUnavailable ReasonStalled [] CoveragePartial).
    set (b := mk_verdict UsageNotObserved "" [] CoverageSinceStart).
    set (c := mk_verdict UsageUnavailable ReasonSensorStale [] "").
    exact (Permutation_trans (Permutation_cons_append [b; c] a) (perm_swap c b [a])).
  - repeat (apply List.Forall_cons; [intros E; first
      [discriminate E|apply (bool_decide_unpack (_ ∈ reasonPriority)); vm_compute; exact I]|]).
    apply List.Forall_nil.
Defined.

Lemma os_loop_spec `{MapRange} pkgs ref other :
  match os_loop pkgs ref other with
  | inl v => vd_Usage v = UsageInUse ∧
      Exists (λ p, op_Name p = pk_Name ref ∧ op_Version p = pk_Version ref) pkgs
  | inr b => Forall (λ p, op_Name p = pk_Name ref → op_Version p ≠ pk_Version ref) pkgs ∧
      (b = true ↔ other = true ∨ Exists (λ p, op_Name p = pk_Name ref) pkgs)
  end.
Proof.
  revert other. induction pkgs as [|p pkgs IH]; intros other; cbn [os_loop].
  { split; [constructor|]. rewrite Exists_nil. tauto. }
  destruct (String.eqb_spec (op_Name p) (pk_Name ref)) as [E|E]; cbn [negb].
  - destruct (String.eqb_spec (op_Version p) (pk_Version ref)) as [E'|E'].
    + split; [done|]. by constructor.
    + specialize (IH true). destruct (os_loop pkgs ref true) as [v|b].
      * destruct IH as [H1 H2]. split; [done|]. by right.
      * destruct IH as [H1 H2]. split; [by constructor|]. rewrite Exists_cons. tauto.
  - specialize (IH other). destruct (os_loop pkgs ref other) as [v|b].
    + destruct IH as [H1 H2]. split; [done|]. by right.
    + destruct IH as [H1 H2]. split; [by constructor|]. rewrite Exists_cons. tauto.
Qed.

Lemma eligible_os gen :
  fst (GenerationEligibleForNotObserved gen ClassOS) = true ↔
  ge_Truncated gen = false ∧ ge_Incomplete gen = false ∧ ge_State gen = StateObserving ∧
  db_Status (ge_PackageDB gen) = DBStatusOK.
Proof.
  unfold GenerationEligibleForNotObserved. cbn zeta.
  change (String.eqb ClassOS ClassOS) with true. cbn [andb].
  destruct (ge_Truncated gen); [naive_solver|]. destruct (ge_Incomplete gen); [naive_solver|].
  repeat match goal with
  | |- context [String.eqb (ge_State gen) ?s] =>
      destruct (String.eqb_spec (ge_State gen) s) as [->|]; [try (cbn; naive_solver)|]
  end; [|cbn; naive_solver].
  destruct (String.eqb_spec (db_Status (ge_PackageDB gen)) DBStatusOK) as [->|]; cbn; [naive_solver|].
  repeat case_match; cbn; naive_solver.
Qed.

Lemma judge_os_iff `{MapRange} gen ref :
  (vd_Usage (JudgeOSPackage gen ref) = UsageNotObserved ↔
   ge_Truncated gen = false ∧ ge_Incomplete gen = false ∧ ge_State gen = StateObserving ∧
   db_Status (ge_PackageDB gen) = DBStatusOK ∧
   Forall (λ p, op_Name p ≠ pk_Name ref) (ge_OSPackages gen) ∧
   Forall (λ u, ¬ (up_Name u = pk_Name ref ∧ up_Version u = pk_Version ref)) (ge_Unavailable gen) ∧
   pk_Name ref ∉ db_NoFileList (ge_PackageDB gen)) ∧
  (vd_Usage (JudgeOSPackage gen ref) = UsageInUse ↔
   Exists (λ p, op_Name p = pk_Name ref ∧ op_Version p = pk_Version ref) (ge_OSPackages gen)).
Proof.
  unfold JudgeOSPackage. pose proof (os_loop_spec (ge_OSPackages gen) ref false) as H1.
  destruct (os_loop (ge_OSPackages gen) ref false) as [v|b].
  { destruct H1 as [Hu Hex]. rewrite Hu. split; split; try done.
    intros (_ & _ & _ & _ & Hall & _). exfalso. apply Exists_exists in Hex as (p & Hp & En & _).
    rewrite Forall_forall in Hall. by apply (Hall p Hp). }
  destruct H1 as [Hver Hother].
  assert (Hnin : ¬ Exists (λ p, op_Name p = pk_Name ref ∧ op_Version p = pk_Version ref) (ge_OSPackages gen)).
  { intros (p & Hp & En & Ev)%Exists_exists. rewrite Forall_forall in Hver. by apply (Hver p Hp). }
  destruct b.
  { cbn. split; [|split; [done|by intros ?%Hnin]]. split; [done|]. intros (_ & _ & _ & _ & Hall & _). exfalso.
    destruct (proj1 Hother eq_refl) as [|(p & Hp & En)%Exists_exists]; [done|].
    rewrite Forall_forall in Hall. by apply (Hall p Hp). }
  assert (Hnone : Forall (λ p, op_Name p ≠ pk_Name ref) (ge_OSPackages gen)).
  { apply Forall_forall. intros p Hp En.
    assert (false = true) by (apply Hother; right; apply Exists_exists; eauto). done. }
  destruct (find (unavailable_match ref) (ge_Unavailable gen)) as [u|] eqn:Hf.
  { cbn. split; [|split; [done|by intros ?%Hnin]]. split; [done|]. intros (_ & _ & _ & _ & _ & Hall & _). exfalso.
    apply find_some in Hf as [Hin Hm]. apply list_elem_of_In in Hin. rewrite Forall_forall in Hall.
    unfold unavailable_match in Hm. apply andb_prop in Hm as [Hm1%String.eqb_eq Hm2%String.eqb_eq].
    by apply (Hall u Hin). }
  assert (Hun : Forall (λ u, ¬ (up_Name u = pk_Name ref ∧ up_Version u = pk_Version ref)) (ge_Unavailable gen)).
  { apply Forall_forall. intros u Hu%list_elem_of_In [E1 E2].
    pose proof (find_none _ _ Hf u Hu) as Hm. unfold unavailable_match in Hm.
    by rewrite E1, E2, !String.eqb_refl in Hm. }
  pose proof (eligible_os gen) as Hel.
  destruct (GenerationEligibleForNotObserved gen ClassOS) as [[] reason]; cbn [fst negb] in *.
  - destruct Hel as [Hel _]. specialize (Hel eq_refl) as (E1 & E2 & E3 & E4).
    assert (Hin : existsb (String.eqb (pk_Name ref)) (db_NoFileList (ge_PackageDB gen)) = true ↔
                  pk_Name ref ∈ db_NoFileList (ge_PackageDB gen)).
    { rewrite existsb_exists. setoid_rewrite String.eqb_eq. rewrite list_elem_of_In. naive_solver. }
    destruct (existsb _ _); cbn; (split; [|split; [done|by intros ?%Hnin]]).
    + split; [done|]. intros (_ & _ & _ & _ & _ & _ & Hn). exfalso. by apply Hn, Hin.
    + split; [|done]. intros _. do 6 (split; [done|]). intros Hx. by apply Hin in Hx.
  - cbn. split; [|split; [done|by intros ?%Hnin]]. split; [done|]. intros (E1 & E2 & E3 & E4 & _).
    assert (false = true) by (by apply Hel). done.
Qed.

(** "not observed" is never claimed on incomplete evidence. For an OS
    package it is the verdict exactly when the generation is fully observed
    (not truncated, nothing discarded, in its steady state, its package
    database read), has no record of the package in any version, no
    unavailable record of it, and its database can list its files; and
    [in_use] is the verdict exactly when the package is recorded in that very
    version. *)
Theorem JudgeOSPackage_claims `{MapRange} gen ref :
  (vd_Usage (JudgeOSPackage gen ref) = UsageNotObserved ↔
   ge_Truncated gen = false ∧ ge_Incomplete gen = false ∧ ge_State gen = StateObserving ∧
   db_Status (ge_PackageDB gen) = DBStatusOK ∧
   Forall (λ p, op_Name p ≠ pk_Name ref) (ge_OSPackages gen) ∧
   Forall (λ u, ¬ (up_Name u = pk_Name ref ∧ up_Version u = pk_Version ref)) (ge_Unavailable gen) ∧
   pk_Name ref ∉ db_NoFileList (ge_PackageDB gen)) ∧
  (vd_Usage (JudgeOSPackage gen ref) = UsageInUse ↔
   Exists (λ p, op_Name p = pk_Name ref ∧ op_Version p = pk_Version ref) (ge_OSPackages gen)).
Proof. apply judge_os_iff. Qed.
