(* ===== verification/EvidenceFile.v ===== *)
(** * The evidence file

    internal/evidence: the reader's validation of a decoded snapshot
    (validate.go, limits.go), and the trailer that tells a complete file from
    a torn write (write.go, read.go). JSON encoding and SHA-256 are
    parameters; the file system calls of [readOnce] are not modelled. *)

From Stdlib Require Import ZArith Lia Bool Ascii String List.
From stdpp Require Import base countable gmap strings list.
From S2P Require Import Prelude GoStrings GoRegexp Decimals Semver GoText GoTime Reference Inventory Evidence.

Open Scope string_scope.
Open Scope Z_scope.
Open Scope nat_scope.
Open Scope list_scope.

(** ** Limits *)

Definition Schema : Z := 1.
Definition maxGenerations : nat := 5000.
Definition maxEntitiesPerGeneration : Z := 50000.
Definition maxObservationsPerEntity : nat := 8.
Definition maxStringBytes : nat := 512.
Definition minIntervalSeconds : Z := 10.
Definition maxIntervalSeconds : Z := 300.
Definition maxFutureSkew : Z := (5 * Minute)%Z.
Definition maxRetryAfterSkew : Z := (24 * Hour)%Z.

(** ** Field checks *)

Definition validSensorStatuses : list string :=
  [SensorOK; SensorDegraded; SensorPermissionDenied; SensorIsolationFailed; SensorIsolationDegraded].
Definition validEventsStatuses : list string := [EventsOK; EventsUnavailable].
Definition validEventsReasons : list string :=
  [""; "kernel_unsupported"; "btf_missing"; "permission"; "attach_failed"; "cgroup_v1"].
Definition validUnavailableReasons : list string :=
  [ReasonSensorNotReporting; ReasonSensorStale; ReasonEvidenceInvalid; ReasonIsolationFailed;
   ReasonPermissionDenied; ReasonInitializing; ReasonStalled; ReasonParseFailed; ReasonTruncated;
   ReasonIncomplete; ReasonGenerationUnverified; ReasonContainerNotObserved; ReasonDBAbsent;
   ReasonDBError; ReasonDBUnsupported; ReasonNoFileList; ReasonAttributionAmbiguous;
   ReasonFileReplaced; ReasonVersionMismatch; ReasonEcosystemUnmapped; ReasonBinaryPathUnknown].
Definition validRecordedKinds : list string :=
  [KindExe; KindMappedLibrary; KindExecEvent; KindLibraryLoadEvent].
Definition validEventsCoverages : list string := [CoverageSinceStart; CoveragePartial; CoverageNone].

Definition mem (x : string) (l : list string) : bool := existsb (String.eqb x) l.

Definition normalizeEventsCoverage (c : string) : string :=
  if mem c validEventsCoverages then c else CoverageNone.

Definition isFuture (t now skew : Z) : bool :=
  if IsZero t then false else After t (now + skew).

Definition validString (s : string) : bool :=
  if maxStringBytes <? slen s then false
  else forallb (λ r, negb (is_control_cp (rune_cp r) || (rune_cp r =? 65533)%N)) (runes s).

Definition validContainerID (id : string) : bool :=
  if negb (slen id =? 64) then false
  else forallb (λ r, (48 <=? rune_cp r)%N && (rune_cp r <=? 57)%N ||
                     (97 <=? rune_cp r)%N && (rune_cp r <=? 102)%N) (runes id).

Definition validObservationStrings (obs : list ProcessObservation) : bool :=
  forallb (λ o, validString (po_Exe o) && validString (po_CapEff o) &&
                forallb validString (po_Listeners o)) obs.

Section validation.
Context `{MapRange}.

(** [filterKinds]: the entries of a recorded kind; whether any was dropped. *)
Definition filterKinds (kinds : gmap string KindObservation) : gmap string KindObservation * bool :=
  let dropped := existsb (λ kv, negb (mem kv.1 validRecordedKinds)) (map_range kinds) in
  if negb dropped then (kinds, false)
  else (filter (λ kv, mem kv.1 validRecordedKinds = true) kinds, true).

Definition hasExecutionEvidence (kinds : gmap string KindObservation) : bool :=
  bool_decide (is_Some (kinds !! KindExe)) || bool_decide (is_Some (kinds !! KindExecEvent)).

(** [true] for a nil error. *)
Definition validateKindsAndObservations (kinds : gmap string KindObservation)
    (obs : list ProcessObservation) (now : Z) : bool :=
  forallb (λ kv, negb (isFuture (ko_FirstSeen kv.2) now maxFutureSkew ||
                       isFuture (ko_LastSeen kv.2) now maxFutureSkew)) (map_range kinds) &&
  (length obs <=? maxObservationsPerEntity) &&
  forallb (λ o, negb (isFuture (po_LastSeen o) now maxFutureSkew)) obs.

Definition validateParseFailedTimes (l : list ParseFailure) (now : Z) : bool :=
  forallb (λ p, negb (isFuture (pf_FailedAt p) now maxFutureSkew) &&
                negb (isFuture (pf_RetryAfter p) now maxRetryAfterSkew)) l.

(** ** Dropping single records

    Each filter returns what it keeps and the generation's incomplete flag. *)

Definition set_os_kinds (p : OSPackageEvidence) (k : gmap string KindObservation) : OSPackageEvidence :=
  mk_os_pkg (op_Name p) (op_Version p) k (op_Observations p).
Definition set_exec_kinds (e : ExecutableEvidence) (k : gmap string KindObservation) : ExecutableEvidence :=
  mk_exec (ee_Path e) (ee_Dev e) (ee_Inode e) k (ee_Observations e).

Fixpoint filterOSPackageStrings (pkgs : list OSPackageEvidence) (incomplete : bool)
    : list OSPackageEvidence * bool :=
  match pkgs with
  | [] => ([], incomplete)
  | p :: pkgs' =>
      if negb (validString (op_Name p)) || negb (validString (op_Version p)) ||
         negb (validObservationStrings (op_Observations p))
      then filterOSPackageStrings pkgs' true
      else
        let '(kinds, dropped) := filterKinds (op_Kinds p) in
        let incomplete := if dropped then true else incomplete in
        if bool_decide (kinds = ∅) then filterOSPackageStrings pkgs' true
        else
          let '(out, inc) := filterOSPackageStrings pkgs' incomplete in
          (set_os_kinds p kinds :: out, inc)
  end.

Fixpoint filterUnavailableStrings (l : list UnavailablePackage) (incomplete : bool)
    : list UnavailablePackage * bool :=
  match l with
  | [] => ([], incomplete)
  | u :: l' =>
      if negb (validString (up_Name u)) || negb (validString (up_Version u)) ||
         negb (mem (up_Reason u) validUnavailableReasons)
      then filterUnavailableStrings l' true
      else let '(out, inc) := filterUnavailableStrings l' incomplete in (u :: out, inc)
  end.

Fixpoint filterExecutableStrings (l : list ExecutableEvidence) (incomplete : bool)
    : list ExecutableEvidence * bool :=
  match l with
  | [] => ([], incomplete)
  | e :: l' =>
      if negb (validString (ee_Path e)) || negb (validString (ee_Dev e)) ||
         negb (validObservationStrings (ee_Observations e))
      then filterExecutableStrings l' true
      else
        let '(kinds, dropped) := filterKinds (ee_Kinds e) in
        let incomplete := if dropped then true else incomplete in
        if bool_decide (kinds = ∅) || negb (hasExecutionEvidence kinds)
        then filterExecutableStrings l' true
        else
          let '(out, inc) := filterExecutableStrings l' incomplete in
          (set_exec_kinds e kinds :: out, inc)
  end.

Fixpoint filterParseFailedStrings (l : list ParseFailure) (incomplete : bool)
    : list ParseFailure * bool :=
  match l with
  | [] => ([], incomplete)
  | p :: l' =>
      if negb (validString (pf_Input p)) || negb (validString (pf_Path p)) ||
         negb (validString (pf_Dev p))
      then filterParseFailedStrings l' true
      else let '(out, inc) := filterParseFailedStrings l' incomplete in (p :: out, inc)
  end.

(** ** The snapshot *)

(** The checks of one generation that reject the whole file. *)
Definition validGeneration (gen : Generation) (now : Z) : bool :=
  negb (isFuture (ge_StartedAt gen) now maxFutureSkew) &&
  negb (isFuture (ge_LastVerifiedAt gen) now maxFutureSkew) &&
  match ge_EndedAt gen with Some t => negb (isFuture t now maxFutureSkew) | None => true end &&
  (Z.of_nat (length (ge_OSPackages gen) + length (ge_Unavailable gen) + length (ge_Executables gen))
     <=? maxEntitiesPerGeneration)%Z &&
  forallb (λ p, validateKindsAndObservations (op_Kinds p) (op_Observations p) now) (ge_OSPackages gen) &&
  forallb (λ e, validateKindsAndObservations (ee_Kinds e) (ee_Observations e) now) (ge_Executables gen) &&
  validateParseFailedTimes (ge_ParseFailed gen) now.

(** The four filters, one after the other, and the coverage. *)
Definition filterGeneration (gen : Generation) : Generation :=
  let '(os, inc) := filterOSPackageStrings (ge_OSPackages gen) (ge_Incomplete gen) in
  let '(un, inc) := filterUnavailableStrings (ge_Unavailable gen) inc in
  let '(ex, inc) := filterExecutableStrings (ge_Executables gen) inc in
  let '(pf, inc) := filterParseFailedStrings (ge_ParseFailed gen) inc in
  mk_gen (ge_Container gen) (ge_Init gen) (ge_StartedAt gen) (ge_EndedAt gen) (ge_LastVerifiedAt gen)
    (ge_State gen) (ge_PackageDB gen) inc (ge_Truncated gen)
    (normalizeEventsCoverage (ge_EventsCoverage gen)) (ge_EventsLost gen) pf os un ex.

Definition generationKey (gen : Generation) : string * Z * Z :=
  (cr_ID (ge_Container gen), ip_PID (ge_Init gen), ip_Starttime (ge_Init gen)).

(** The loop over the generations, [None] for an error. *)
Fixpoint validateGenerations (gens : list Generation) (seen : gset (string * Z * Z)) (now : Z)
    : option (list Generation) :=
  match gens with
  | [] => Some []
  | gen :: gens' =>
      if negb (String.eqb (cr_Runtime (ge_Container gen)) "docker") then None
      else if negb (validContainerID (cr_ID (ge_Container gen))) then None
      else if decide (generationKey gen ∈ seen) then None
      else if negb (validGeneration gen now) then None
      else
        out ← validateGenerations gens' ({[generationKey gen]} ∪ seen) now;
        Some (filterGeneration gen :: out)
  end.

Definition validateSnapshot (snap : Snapshot) (now : Z) : option Snapshot :=
  let s := sn_Sensor snap in
  let e := se_Events s in
  if negb (sn_Schema snap =? Schema)%Z then None
  else if negb (validString (se_SessionID s)) then None
  else if (se_IntervalSeconds s <? minIntervalSeconds)%Z || (maxIntervalSeconds <? se_IntervalSeconds s)%Z
  then None
  else if isFuture (se_SessionStartedAt s) now maxFutureSkew then None
  else if isFuture (se_HeartbeatAt s) now maxFutureSkew then None
  else if String.eqb (ev_Status e) EventsOK && isFuture (ev_AttachedAt e) now maxFutureSkew then None
  else if negb (mem (se_Status s) validSensorStatuses) then None
  else if negb (mem (ev_Status e) validEventsStatuses) then None
  else if negb (mem (ev_Reason e) validEventsReasons) then None
  else if (ev_Unclassified e <? 0)%Z then None
  else if (ev_KernelLost e <? 0)%Z then None
  else if maxGenerations <? length (sn_Generations snap) then None
  else
    gens ← validateGenerations (sn_Generations snap) ∅ now;
    Some (mk_snapshot (sn_Schema snap) s gens).

End validation.

(** ** The trailer *)

Inductive read_error := ErrInvalid | errTornWrite | ErrNotReporting.

Definition newline : string := String "010"%char "".
Definition trailerPrefix : string := "#kestrelynx-evidence ".

(** [bytes.LastIndex(data, sep)] *)
Fixpoint last_index (data sep : string) : option nat :=
  match data with
  | EmptyString => if String.eqb sep "" then Some 0 else None
  | String _ data' =>
      match last_index data' sep with
      | Some i => Some (S i)
      | None => if has_prefix data sep then Some 0 else None
      end
  end.

(** [bytes.TrimSuffix(s, "\n")] *)
Definition trim_newline (s : string) : string :=
  if has_suffix s newline then stake (slen s - 1) s else s.

Section trailer.
(** SHA-256 of a body, in the lowercase hexadecimal that [%x] prints. *)
Variable sha256_hex : string → string.

(** [strconv.Atoi] with an optional sign. *)
Definition atoi_signed (s : string) : option Z :=
  match s with
  | String c s' =>
      if Ascii.eqb c "-"%char then
        if negb (String.eqb s' "") && sforallb is_digit s' then
          if (Z.of_N (dec_val s') <=? 2 ^ 63)%Z then Some (- Z.of_N (dec_val s'))%Z else None
        else None
      else if Ascii.eqb c "+"%char then atoi s'
      else atoi s
  | EmptyString => None
  end.

Definition parseTrailerLine (line : string) : option (Z * string) :=
  if negb (has_prefix line trailerPrefix) then None
  else
    match fields (sdrop (slen trailerPrefix) line) with
    | [f0; f1] =>
        if negb (has_prefix f0 "length=") then None
        else if negb (has_prefix f1 "sha256=") then None
        else
          match atoi_signed (sdrop (slen "length=") f0) with
          | None => None
          | Some n =>
              let sum := sdrop (slen "sha256=") f1 in
              if (n <? 0)%Z then None
              else if negb (slen sum =? 64) then None
              else if negb (sforallb is_hex_lower sum) then None
              else Some (n, sum)
          end
    | _ => None
    end.

Definition verifyTrailer (data : string) : string + read_error :=
  match last_index data (newline +:+ trailerPrefix) with
  | None => inr ErrInvalid
  | Some idx =>
      let body := stake idx data in
      let line := trim_newline (sdrop (S idx) data) in
      match parseTrailerLine line with
      | None => inr ErrInvalid
      | Some (len, sum) =>
          if negb (len =? Z.of_nat (slen body))%Z then inr errTornWrite
          else if negb (String.eqb (sha256_hex body) sum) then inr errTornWrite
          else inl body
      end
  end.

(** [encodeWithTrailer] after [json.Marshal]. *)
Definition encodeWithTrailer (body : string) : string :=
  body +:+ newline +:+ trailerPrefix +:+ "length=" +:+ itoa (N.of_nat (slen body)) +:+
  " sha256=" +:+ sha256_hex body +:+ newline.

End trailer.

(** ** Reading with one retry *)

(** [Reader.Read]: the results of the two [readOnce] calls, the second made
    only after a torn write. *)
Definition Read (first second : Snapshot + read_error) (now : Z) (prev : option Snapshot)
    : Snapshot + read_error :=
  match first with
  | inl snap => inl snap
  | inr errTornWrite =>
      match second with
      | inl snap => inl snap
      | inr errTornWrite =>
          match prev with
          | Some p =>
              if negb (IsStale (se_HeartbeatAt (sn_Sensor p)) now (se_IntervalSeconds (sn_Sensor p)))
              then inl p else inr ErrInvalid
          | None => inr ErrInvalid
          end
      | inr e => inr e
      end
  | inr e => inr e
  end.

(** [FileProvider.Load]: the previous snapshot is replaced on success only. *)
Definition Load (first second : Snapshot + read_error) (now : Z) (prev : option Snapshot)
    : (Snapshot + read_error) * option Snapshot :=
  match Read first second now prev with
  | inl snap => (inl snap, Some snap)
  | inr e => (inr e, prev)
  end.

(** ** What the filters keep *)

Lemma mem_spec x l : mem x l = true ↔ x ∈ l.
Proof.
  unfold mem. rewrite existsb_exists. split.
  - by intros (y & Hy%list_elem_of_In & ->%String.eqb_eq).
  - intros Hx%list_elem_of_In. exists x. by rewrite String.eqb_refl.
Qed.

Section filters.
Context `{MapRange}.

Lemma filterKinds_spec kinds :
  let '(k, dropped) := filterKinds kinds in
  k ⊆ kinds ∧ (dropped = false → k = kinds) ∧
  (∀ x, is_Some (k !! x) → x ∈ validRecordedKinds).
Proof.
  unfold filterKinds. destruct (existsb _ _) eqn:E; cbn [negb].
  - split; [apply map_filter_subseteq|]. split; [done|]. intros x [v Hv].
    apply map_lookup_filter_Some in Hv as [_ Hv]. by apply mem_spec.
  - split; [done|]. split; [done|]. intros x [v Hv]. apply mem_spec.
    destruct (mem x validRecordedKinds) eqn:Em; [done|].
    assert (existsb (λ kv, negb (mem kv.1 validRecordedKinds)) (map_range kinds) = true); [|congruence].
    apply existsb_exists. exists (x, v). split; [|cbn [fst]; by rewrite Em].
    by apply list_elem_of_In, elem_of_map_range.
Qed.

(** A kept record: the same package, with recorded kinds only, at least one. *)
Definition kept_os (p q : OSPackageEvidence) : Prop :=
  op_Name p = op_Name q ∧ op_Version p = op_Version q ∧ op_Kinds p ≠ ∅ ∧ op_Kinds p ⊆ op_Kinds q ∧
  ∀ x, is_Some (op_Kinds p !! x) → x ∈ validRecordedKinds.

Lemma filterOS_spec pkgs inc :
  let '(out, inc') := filterOSPackageStrings pkgs inc in
  (inc' = false → inc = false ∧ out = pkgs) ∧
  Forall (λ p, ∃ q, q ∈ pkgs ∧ kept_os p q) out.
Proof.
  revert inc. induction pkgs as [|p pkgs IH]; intros inc; cbn [filterOSPackageStrings].
  { split; [done|constructor]. }
  assert (Hskip : let '(out, inc') := filterOSPackageStrings pkgs true in
    (inc' = false → inc = false ∧ out = p :: pkgs) ∧ Forall (λ x, ∃ q, q ∈ p :: pkgs ∧ kept_os x q) out).
  { specialize (IH true). destruct (filterOSPackageStrings pkgs true) as [out inc'].
    destruct IH as [H1 H2]. split; [intros Hi; destruct (H1 Hi); done|].
    eapply Forall_impl; [exact H2|]. intros x (q & Hq & Hk). exists q. split; [by right|done]. }
  destruct (_ || _ || _); [exact Hskip|].
  pose proof (filterKinds_spec (op_Kinds p)) as Hk. destruct (filterKinds (op_Kinds p)) as [kinds dropped].
  destruct Hk as (Hsub & Hsame & Hrec). destruct (bool_decide_reflect (kinds = ∅)) as [|Hne]; [exact Hskip|].
  clear Hskip. specialize (IH (if dropped then true else inc)).
  destruct (filterOSPackageStrings pkgs _) as [out inc']. destruct IH as [H1 H2]. split.
  - intros Hi. destruct (H1 Hi) as [Hd ->]. destruct dropped; [done|]. split; [done|].
    rewrite (Hsame eq_refl). by destruct p.
  - constructor.
    + exists p. split; [by left|]. unfold kept_os. by destruct p.
    + eapply Forall_impl; [exact H2|]. intros x (q & Hq & Hkq). exists q. split; [by right|done].
Qed.

Lemma filterUnavailable_spec l inc :
  let '(out, inc') := filterUnavailableStrings l inc in
  inc' = false → inc = false ∧ out = l.
Proof.
  revert inc. induction l as [|u l IH]; intros inc; cbn [filterUnavailableStrings]; [done|].
  destruct (_ || _ || _).
  - specialize (IH true). destruct (filterUnavailableStrings l true). naive_solver.
  - specialize (IH inc). destruct (filterUnavailableStrings l inc). naive_solver.
Qed.

Lemma filterExecutable_spec l inc :
  let '(out, inc') := filterExecutableStrings l inc in
  inc' = false → inc = false ∧ out = l.
Proof.
  revert inc. induction l as [|e l IH]; intros inc; cbn [filterExecutableStrings]; [done|].
  assert (Hskip : let '(out, inc') := filterExecutableStrings l true in
    inc' = false → inc = false ∧ out = e :: l).
  { specialize (IH true). destruct (filterExecutableStrings l true). naive_solver. }
  destruct (_ || _ || _); [exact Hskip|].
  pose proof (filterKinds_spec (ee_Kinds e)) as Hk. destruct (filterKinds (ee_Kinds e)) as [kinds dropped].
  destruct Hk as (_ & Hsame & _). destruct (_ || _); [exact Hskip|]. clear Hskip.
  specialize (IH (if dropped then true else inc)). destruct (filterExecutableStrings l _) as [out inc'].
  intros Hi. destruct (IH Hi) as [Hd ->]. destruct dropped; [done|]. split; [done|].
  rewrite (Hsame eq_refl). by destruct e.
Qed.

Lemma filterParseFailed_spec l inc :
  let '(out, inc') := filterParseFailedStrings l inc in inc' = false → inc = false.
Proof.
  revert inc. induction l as [|u l IH]; intros inc; cbn [filterParseFailedStrings]; [done|].
  destruct (_ || _ || _).
  - specialize (IH true). destruct (filterParseFailedStrings l true). naive_solver.
  - specialize (IH inc). destruct (filterParseFailedStrings l inc). naive_solver.
Qed.

Lemma filterGeneration_spec gen :
  (ge_Incomplete (filterGeneration gen) = false →
    ge_Incomplete gen = false ∧ ge_OSPackages (filterGeneration gen) = ge_OSPackages gen ∧
    ge_Unavailable (filterGeneration gen) = ge_Unavailable gen ∧
    ge_Executables (filterGeneration gen) = ge_Executables gen) ∧
  Forall (λ p, ∃ q, q ∈ ge_OSPackages gen ∧ kept_os p q) (ge_OSPackages (filterGeneration gen)).
Proof.
  unfold filterGeneration.
  pose proof (filterOS_spec (ge_OSPackages gen) (ge_Incomplete gen)) as H1.
  destruct (filterOSPackageStrings _ _) as [os i1].
  pose proof (filterUnavailable_spec (ge_Unavailable gen) i1) as H2.
  destruct (filterUnavailableStrings _ _) as [un i2].
  pose proof (filterExecutable_spec (ge_Executables gen) i2) as H3.
  destruct (filterExecutableStrings _ _) as [ex i3].
  pose proof (filterParseFailed_spec (ge_ParseFailed gen) i3) as H4.
  destruct (filterParseFailedStrings _ _) as [pf i4]. cbn.
  destruct H1 as [H1 H1']. split; [|exact H1'].
  intros ->. specialize (H4 eq_refl) as ->. destruct (H3 eq_refl) as [-> ->].
  destruct (H2 eq_refl) as [-> ->]. destruct (H1 eq_refl) as [-> ->]. done.
Qed.

Lemma validateGenerations_spec gens seen now out :
  validateGenerations gens seen now = Some out → out = filterGeneration <$> gens.
Proof.
  revert seen out. induction gens as [|g gens IH]; intros seen out; cbn [validateGenerations].
  { by intros [= <-]. }
  repeat (case_match; [done|]). cbn.
  destruct (validateGenerations gens _ now) as [o|] eqn:E; [|done]. cbn. intros [= <-].
  by rewrite (IH _ _ E).
Qed.

End filters.

Lemma os_loop_verdict `{MapRange} pkgs ref other v :
  os_loop pkgs ref other = inl v →
  ∃ p, p ∈ pkgs ∧ op_Name p = pk_Name ref ∧ op_Version p = pk_Version ref ∧
    v = mk_verdict UsageInUse "" (kindsOf (op_Kinds p)) "".
Proof.
  revert other. induction pkgs as [|p pkgs IH]; intros other; cbn [os_loop]; [done|].
  destruct (String.eqb_spec (op_Name p) (pk_Name ref)) as [E|E]; cbn [negb].
  - destruct (String.eqb_spec (op_Version p) (pk_Version ref)) as [E'|E'].
    + intros [= <-]. exists p. split; [by left|done].
    + intros (q & Hq & Hv)%IH. exists q. split; [by right|done].
  - intros (q & Hq & Hv)%IH. exists q. split; [by right|done].
Qed.

Lemma judge_os_kinds `{MapRange} gen ref :
  vd_Usage (JudgeOSPackage gen ref) = UsageInUse →
  ∃ p, p ∈ ge_OSPackages gen ∧ op_Name p = pk_Name ref ∧ op_Version p = pk_Version ref ∧
    vd_EvidenceKinds (JudgeOSPackage gen ref) = kindsOf (op_Kinds p).
Proof.
  unfold JudgeOSPackage. destruct (os_loop (ge_OSPackages gen) ref false) as [v|b] eqn:E.
  - intros _. apply os_loop_verdict in E as (p & ? & ? & ? & ->). by exists p.
  - repeat case_match; cbn; intros; discriminate.
Qed.

Lemma elem_of_kindsOf `{MapRange} kinds k : k ∈ kindsOf kinds ↔ is_Some (kinds !! k).
Proof. unfold kindsOf. by rewrite elem_of_sort_by, elem_of_map_range_keys. Qed.

Lemma validateSnapshot_gens `{MapRange} snap now snap' :
  validateSnapshot snap now = Some snap' →
  sn_Generations snap' = filterGeneration <$> sn_Generations snap.
Proof.
  unfold validateSnapshot. repeat (case_match; [done|]). cbn.
  destruct (validateGenerations _ _ _) as [gens|] eqn:E; [|done]. cbn. intros [= <-]. cbn.
  by apply (validateGenerations_spec _ _ _ _ E).
Qed.

(** ** The text of the trailer *)

Lemma last_index_app s t sep i : last_index t sep = Some i → last_index (s +:+ t) sep = Some (slen s + i).
Proof.
  intros Ht. induction s as [|c s IH]; [by rewrite app_nil_l|].
  rewrite app_cons. cbn [last_index]. by rewrite IH.
Qed.

(** A text whose only newline is its last byte holds no separator that starts
    with a newline and goes on. *)
Lemma last_index_line w sep c :
  sforallb (λ d, negb (Ascii.eqb d "010"%char)) w = true →
  last_index (w +:+ newline) (String "010"%char (String c sep)) = None.
Proof.
  induction w as [|d w IH]; cbn [sforallb].
  - intros _. rewrite app_nil_l. reflexivity.
  - intros [Hd%negb_true_iff Hw]%andb_prop. rewrite app_cons. cbn [last_index]. rewrite (IH Hw).
    cbn [has_prefix]. by rewrite Hd.
Qed.

Lemma fields_word core r l w :
  Forall (λ r, rune_space r = false) core → rune_space r = true → (core ≠ [] ∨ w ≠ None) →
  fields_runes (core ++ r :: l) w = (default "" w +:+ unrunes core) :: fields_runes l None.
Proof.
  intros Hc Hr. revert w. induction Hc as [|x core Hx _ IH]; intros w Hne.
  - destruct w as [w|]; [|naive_solver]. cbn [app fields_runes]. rewrite Hr.
    cbn [from_option id unrunes foldr]. by rewrite app_nil_r.
  - cbn [app fields_runes]. rewrite Hx, IH by (right; done). cbn [from_option id unrunes foldr].
    by rewrite app_assoc_s.
Qed.

Lemma word_runes w : sforallb word_byte w = true →
  Forall (λ r, rune_space r = false) (runes w) ∧ unrunes (runes w) = w.
Proof.
  intros Hw. assert (Ha : sforallb is_ascii_byte w = true).
  { eapply sforallb_impl; [|exact Hw]. intros c. by intros [? _]%andb_prop. }
  assert (Hu : unrunes (runes w) = w).
  { rewrite ascii_runes by done. clear. induction w as [|c w IH]; [done|].
    cbn [String.list_ascii_of_string]. rewrite fmap_cons. unfold unrunes in *. cbn [foldr rune_bytes].
    by rewrite IH. }
  split; [|done]. apply core_nonspace; [apply runes_plain|]. by rewrite Hu.
Qed.

Lemma list_ascii_app s t :
  String.list_ascii_of_string (s +:+ t) = String.list_ascii_of_string s ++ String.list_ascii_of_string t.
Proof. induction s as [|c s IH]; [done|]. rewrite app_cons. cbn. by rewrite IH. Qed.

Lemma fields_two w1 w2 :
  sforallb word_byte w1 = true → w1 ≠ "" → sforallb word_byte w2 = true → w2 ≠ "" →
  fields (w1 +:+ " " +:+ w2) = [w1; w2].
Proof.
  intros H1 N1 H2 N2. destruct (word_runes w1 H1) as [S1 U1], (word_runes w2 H2) as [S2 U2].
  assert (Ha : ∀ w, sforallb word_byte w = true → sforallb is_ascii_byte w = true).
  { intros w. apply sforallb_impl. intros c. by intros [? _]%andb_prop. }
  assert (Hr : runes (w1 +:+ " " +:+ w2) = runes w1 ++ mk_rune 32 " " true :: runes w2).
  { rewrite (ascii_runes w1), (ascii_runes w2) by by apply Ha.
    rewrite ascii_runes by (rewrite !sforallb_app, (Ha w1), (Ha w2) by done; done).
    rewrite !list_ascii_app, !fmap_app. done. }
  assert (Hne : ∀ w, sforallb word_byte w = true → w ≠ "" → runes w ≠ []).
  { intros w Hw Nw E. apply Nw. destruct (word_runes w Hw) as [_ <-]. by rewrite E. }
  unfold fields. rewrite Hr, (fields_word (runes w1)); [|done|done|left; by apply Hne].
  rewrite <- (List.app_nil_r (runes w2)), (fields_core (runes w2) []); [|done|constructor|left; by apply Hne].
  cbn [from_option id]. rewrite !app_nil_l. by rewrite U1, U2.
Qed.

(** ** Properties *)

(** C39: validation of an untrusted evidence file never turns doubt into a
    claim. A record it drops makes its generation incomplete, so whenever a
    validated generation says an OS package was not observed, the file as
    written said so too; and an [in_use] verdict of a validated generation was
    in the file, and rests on at least one evidence kind, all of them kinds a
    Sensor records. *)
Theorem validateSnapshot_honest `{MapRange} snap now snap' i gen gen' ref :
  validateSnapshot snap now = Some snap' →
  sn_Generations snap !! i = Some gen → sn_Generations snap' !! i = Some gen' →
  (vd_Usage (JudgeOSPackage gen' ref) = UsageNotObserved →
   vd_Usage (JudgeOSPackage gen ref) = UsageNotObserved) ∧
  (vd_Usage (JudgeOSPackage gen' ref) = UsageInUse →
   vd_Usage (JudgeOSPackage gen ref) = UsageInUse ∧
   vd_EvidenceKinds (JudgeOSPackage gen' ref) ≠ [] ∧
   Forall (λ k, k ∈ validRecordedKinds) (vd_EvidenceKinds (JudgeOSPackage gen' ref))).
Proof.
  intros Hv Hg Hg'. rewrite (validateSnapshot_gens _ _ _ Hv), list_lookup_fmap, Hg in Hg'.
  cbn in Hg'. injection Hg' as <-. destruct (filterGeneration_spec gen) as [Hinc Hkept].
  assert (Hsame : ge_Truncated (filterGeneration gen) = ge_Truncated gen ∧
    ge_State (filterGeneration gen) = ge_State gen ∧
    ge_PackageDB (filterGeneration gen) = ge_PackageDB gen).
  { unfold filterGeneration. by repeat case_match. }
  destruct Hsame as (E1 & E2 & E3). split.
  - rewrite !(proj1 (judge_os_iff _ _)). rewrite E1, E2, E3. intros (H1 & H2 & H3 & H4 & H5 & H6 & H7).
    destruct (Hinc H2) as (I1 & I2 & I3 & _). rewrite I2 in H5. rewrite I3 in H6. done.
  - intros Hu. destruct (judge_os_kinds _ _ Hu) as (p & Hp & En & Ev & ->).
    rewrite Forall_forall in Hkept. destruct (Hkept p Hp) as (q & Hq & N & V & Hne & _ & Hrec).
    split; [|split].
    + apply (proj2 (judge_os_iff _ _)), Exists_exists. exists q. rewrite <- N, <- V. done.
    + intros E. apply map_choose in Hne as (k & v & Hk).
      assert (k ∈ kindsOf (op_Kinds p)) as Hin by (apply elem_of_kindsOf; by exists v).
      rewrite E in Hin. by apply not_elem_of_nil in Hin.
    + apply Forall_forall. intros k Hk%elem_of_kindsOf. by apply Hrec.
Qed.

(** A file with one generation: a package with a version that cannot be
    trusted (a control character), and one that can. *)
Definition example_kinds : gmap string KindObservation :=
  {[ KindExe := mk_kind_obs 1 2 1 0 ]}.
Definition example_gen (version : string) : Generation :=
  mk_gen (mk_container_ref "docker" (join "" (replicate 64 "a")) "" "" "") (mk_init_process 1 5) 1 None 2
    StateObserving (mk_db "dpkg" DBStatusOK []) false false CoverageSinceStart 0 []
    [mk_os_pkg "curl" version example_kinds []; mk_os_pkg "openssl" "3.0" example_kinds []] [] [].
Definition example_snapshot (version : string) : Snapshot :=
  mk_snapshot 1 (mk_sensor "1" "s" 1 2 30 (mk_isolation true true true 4) SensorOK
    (mk_events EventsOK "" 1 0 0 0)) [example_gen version].

Lemma validateSnapshot_honest_witness :
  vd_Usage (JudgeOSPackage (filterGeneration (example_gen (String "007"%char "")))
              (mk_package_ref "debian" ClassOS "openssl" "3.0")) = UsageInUse ∧
  vd_Usage (JudgeOSPackage (example_gen (String "007"%char ""))
              (mk_package_ref "debian" ClassOS "openssl" "3.0")) = UsageInUse.
Proof.
  assert (H : vd_Usage (JudgeOSPackage (filterGeneration (example_gen (String "007"%char "")))
              (mk_package_ref "debian" ClassOS "openssl" "3.0")) = UsageInUse) by (vm_compute; reflexivity).
  split; [exact H|].
  refine (proj1 (proj2 (validateSnapshot_honest (example_snapshot (String "007"%char "")) 10
    (mk_snapshot 1 (sn_Sensor (example_snapshot "")) [filterGeneration (example_gen (String "007"%char ""))])
    0 _ _ _ _ _ _) H)); vm_compute; reflexivity.
Defined.

(** The trailer round trip. Whatever the body, a file as the writer
    writes it is read back as exactly that body, so a complete write is never
    taken for a torn one. SHA-256 is a parameter: 64 lowercase hexadecimal
    digits. *)
Theorem trailer_roundtrip sha256_hex body :
  (∀ b, slen (sha256_hex b) = 64 ∧ sforallb is_hex_lower (sha256_hex b) = true) →
  int64_ok (Z.of_nat (slen body)) →
  verifyTrailer sha256_hex (encodeWithTrailer sha256_hex body) = inl body.
Proof.
  intros Hsha Hlen. destruct (Hsha body) as [Hl Hh]. set (h := sha256_hex body) in *.
  destruct (itoa_spec (N.of_nat (slen body))) as [Hc Hval].
  set (n := itoa (N.of_nat (slen body))) in *. destruct (canonical_digits n Hc) as [Hd Hn].
  set (line := trailerPrefix +:+ "length=" +:+ n +:+ " sha256=" +:+ h).
  assert (Hword : ∀ p q (s : string), forallb (λ c, negb (p c) || q c) all_bytes = true →
    sforallb p s = true → sforallb q s = true).
  { intros p q s H. apply sub_bytes. done. }
  assert (Hnl : sforallb (λ d, negb (Ascii.eqb d "010"%char)) line = true).
  { unfold line. rewrite !sforallb_app, (Hword is_digit _ n), (Hword is_hex_lower _ h);
      [done|by vm_compute|done|by vm_compute|done]. }
  assert (E : encodeWithTrailer sha256_hex body = body +:+ String "010"%char (line +:+ newline)).
  { unfold encodeWithTrailer, line. fold n h. rewrite !app_assoc_s. done. }
  unfold verifyTrailer. rewrite E.
  assert (Hidx : last_index (String "010"%char (line +:+ newline)) (newline +:+ trailerPrefix) = Some 0).
  { change (newline +:+ trailerPrefix) with (String "010"%char trailerPrefix).
    cbn [last_index]. unfold trailerPrefix at 1. rewrite last_index_line by done.
    unfold line. rewrite !app_assoc_s. cbn [has_prefix]. rewrite Ascii.eqb_refl.
    replace (has_prefix _ trailerPrefix) with true; [done|]. reflexivity. }
  rewrite (last_index_app body _ _ 0 Hidx), Nat.add_0_r, stake_app.
  rewrite sdrop_S_app.
  assert (Ht : trim_newline (line +:+ newline) = line).
  { unfold trim_newline, has_suffix. rewrite slen_app. change (slen newline) with 1.
    rewrite (proj2 (Nat.leb_le _ _)) by lia. replace (slen line + 1 - 1) with (slen line) by lia.
    by rewrite sdrop_app, String.eqb_refl, stake_app. }
  rewrite Ht. unfold parseTrailerLine.
  assert (Hp : has_prefix line trailerPrefix = true) by reflexivity.
  assert (Hs : sdrop (slen trailerPrefix) line = ("length=" +:+ n) +:+ " " +:+ ("sha256=" +:+ h)).
  { unfold line. rewrite sdrop_app, !app_assoc_s. done. }
  rewrite Hp, Hs. cbn [negb]. rewrite fields_two; [|..].
  - rewrite !has_prefix_app, !sdrop_app. cbn [negb].
    assert (Ha : atoi_signed n = Some (Z.of_nat (slen body))).
    { destruct n as [|c n']; [done|]. pose proof Hd as Hd'. cbn [sforallb] in Hd'.
      apply andb_prop in Hd' as [Hcd _]. unfold atoi_signed.
      destruct (Ascii.eqb_spec c "-"%char) as [->|]; [done|].
      destruct (Ascii.eqb_spec c "+"%char) as [->|]; [done|].
      unfold atoi. rewrite Hd. cbn [String.eqb negb andb].
      rewrite Hval. rewrite nat_N_Z.
      unfold int64_ok in Hlen. by rewrite (proj2 (Z.ltb_lt _ _)) by lia. }
    rewrite Ha, Hl, Hh. rewrite (proj2 (Z.ltb_ge _ _)) by lia. cbn [negb Nat.eqb].
    rewrite Z.eqb_refl. cbn [negb]. fold h. by rewrite String.eqb_refl.
  - rewrite sforallb_app, (Hword is_digit _ n); [done|by vm_compute|done].
  - done.
  - rewrite sforallb_app, (Hword is_hex_lower _ h); [done|by vm_compute|done].
  - done.
Qed.

Lemma trailer_roundtrip_witness :
  verifyTrailer (λ _, join "" (replicate 64 "0"))
    (encodeWithTrailer (λ _, join "" (replicate 64 "0")) "{}") = inl "{}".
Proof.
  apply trailer_roundtrip.
  - intros b. split; vm_compute; reflexivity.
  - split; vm_compute; [discriminate|reflexivity].
Defined.
