(* ===== verification/Report.v ===== *)
(** * The report

    internal/analyze: the data of a report (analyze.go, runtime.go), counting
    and the derived views of a report (analyze.go, triage.go), and the muting
    of findings nobody can fix or uses (runtime.go, [ApplyMuting]).
    [Build.v] models how a report is made. *)

From Stdlib Require Import ZArith Lia Bool Ascii String List Permutation Sorting.Sorted.
From stdpp Require Import base countable gmap strings list.
From S2P Require Import Prelude GoStrings GoTime Reference Inventory Triage Evidence.

Open Scope string_scope.
Open Scope Z_scope.
Open Scope nat_scope.
Open Scope list_scope.

(** ** Data *)

Record Instance := mk_instance {
  it_PackageRef : PackageRef; it_Type : string; it_Target : string; it_PkgPath : string }.

#[export] Instance Instance_eq_dec : EqDecision Instance.
Proof. solve_decision. Defined.
#[export] Program Instance Instance_countable : Countable Instance :=
  inj_countable' (λ i, (it_PackageRef i, it_Type i, it_Target i, it_PkgPath i))
    (λ '(r, t, g, p), mk_instance r t g p) _.
Next Obligation. by intros []. Qed.

(** [ContainerRuntime] and [Runtime], without what only a rendering shows. *)
Record ContainerRuntime := mk_container_rt {
  crt_ContainerID : string; crt_Name : string; crt_GenerationStartedAt : Z; crt_Usage : string;
  crt_Reason : string; crt_EvidenceKinds : list string; crt_Exposure : string;
  crt_HighPrivilege : bool }.
Record Runtime := mk_runtime {
  rt_Usage : string; rt_Reason : string; rt_EvidenceKinds : list string; rt_EventsCoverage : string;
  rt_Exposure : string; rt_HighPrivilege : bool; rt_Containers : list ContainerRuntime }.
Definition zero_runtime : Runtime := mk_runtime "" "" [] "" "" false [].

Record RuntimeInfo := mk_runtime_info {
  ri_Sensor : SensorInfo; ri_LoadFailed : bool; ri_NotReporting : bool }.

Definition MutedNoFixNotInUse7d : string := "no_fix_not_in_use_7d".

Record PackageGroup := mk_group {
  pg_Package : string; pg_Class : string; pg_InstalledVer : string; pg_FixedVer : string;
  pg_Status : string; pg_Risk : string;
  pg_Critical : nat; pg_High : nat; pg_Medium : nat; pg_Low : nat; pg_Unknown : nat;
  pg_Vulns : list VulnRef; pg_Priority : string; pg_URL : string; pg_Ecosystem : string;
  pg_Instances : list Instance; pg_LayerDiffIDs : list string; pg_Runtime : Runtime;
  pg_Muted : bool; pg_MutedReason : string }.

Record SeverityCounts := mk_counts {
  sc_Critical : nat; sc_High : nat; sc_Medium : nat; sc_Low : nat; sc_Unknown : nat }.

Record ImageFindings := mk_findings {
  if_Image : string; if_Subject : ImageSubject; if_Pinned : bool; if_Packages : list PackageGroup;
  if_Containers : list Container }.

Record RuntimeUncheckedRef := mk_unchecked { ru_Image : string; ru_Package : string }.
#[export] Instance RuntimeUncheckedRef_eq_dec : EqDecision RuntimeUncheckedRef.
Proof. solve_decision. Defined.
#[export] Program Instance RuntimeUncheckedRef_countable : Countable RuntimeUncheckedRef :=
  inj_countable' (λ u, (ru_Image u, ru_Package u)) (λ '(i, p), mk_unchecked i p) _.
Next Obligation. by intros []. Qed.

Record ScanError := mk_scan_error {
  se_Image : string; se_Err : string; se_Cause : string; se_Registry : string; se_Subject : ImageSubject }.

Record ImageObservation := mk_obs {
  io_Ref : string; io_ContentIDs : list string; io_RegistryDigests : list string;
  io_Ambiguous : bool; io_ConfigIdentityResolved : bool; io_ScanFailed : bool;
  io_PartialFailure : bool; io_Unconfirmed : bool; io_Containers : list Container }.

Record Environment := mk_environment { env_Name : string; env_Kind : string }.

Record Report := mk_report {
  rp_ImagesTotal : nat; rp_EOSLImages : list string;
  rp_Actionable : list ImageFindings; rp_Watch : list ImageFindings;
  rp_WontFix : list ImageFindings; rp_EOLPackages : list ImageFindings;
  rp_ScanErrors : list ScanError; rp_Images : list ImageObservation;
  rp_UnconfirmedRefs : list string; rp_RuntimeUnchecked : list RuntimeUncheckedRef;
  rp_Triage : bool; rp_Intel : IntelStatus; rp_GeneratedAt : Z;
  rp_Environment : Environment; rp_Runtime : option RuntimeInfo;
  rp_GenericWebhookConfigured : bool }.

(** [for _, section := range [][]ImageFindings{...}] *)
Definition sections (r : Report) : list (list ImageFindings) :=
  [rp_Actionable r; rp_Watch r; rp_WontFix r; rp_EOLPackages r].

(** ** Counting *)

Definition Counts (g : PackageGroup) : SeverityCounts :=
  mk_counts (pg_Critical g) (pg_High g) (pg_Medium g) (pg_Low g) (pg_Unknown g).
Definition Add (c o : SeverityCounts) : SeverityCounts :=
  mk_counts (sc_Critical c + sc_Critical o) (sc_High c + sc_High o) (sc_Medium c + sc_Medium o)
    (sc_Low c + sc_Low o) (sc_Unknown c + sc_Unknown o).
Definition counts_Total (c : SeverityCounts) : nat :=
  sc_Critical c + sc_High c + sc_Medium c + sc_Low c + sc_Unknown c.
Definition zero_counts : SeverityCounts := mk_counts 0 0 0 0 0.

Definition group_Total (g : PackageGroup) : nat := counts_Total (Counts g).
Definition VulnIDs (g : PackageGroup) : list string := sort_strings (vr_ID <$> pg_Vulns g).
Definition TopVuln (g : PackageGroup) : VulnRef := hd zero_vuln (pg_Vulns g).
Definition group_PackageRef (g : PackageGroup) : PackageRef :=
  mk_package_ref (pg_Ecosystem g) (pg_Class g) (pg_Package g) (pg_InstalledVer g).

Definition CriticalCount (f : ImageFindings) : nat := sum_list (pg_Critical <$> if_Packages f).
Definition image_Counts (f : ImageFindings) : SeverityCounts :=
  foldl (λ c g, Add c (Counts g)) zero_counts (if_Packages f).
Definition TotalCount (f : ImageFindings) : nat := sum_list (group_Total <$> if_Packages f).

Definition findings_ContentID (f : ImageFindings) : string :=
  if is_Resolved (if_Subject f) && String.eqb (dg_Kind (ek_Digest (is_Key (if_Subject f)))) DigestConfig
  then Digest_String (ek_Digest (is_Key (if_Subject f))) else "".

(** [len(seen)] for the set of affected images. *)
Definition AffectedImageCount (r : Report) : nat :=
  size (list_to_set ((if_Image <$> mjoin (sections r)) ++ rp_EOSLImages r) : gset string).

Definition HasFindings (r : Report) : bool :=
  (0 <? length (rp_Actionable r)) || (0 <? length (rp_Watch r)) || (0 <? length (rp_WontFix r)) ||
  (0 <? length (rp_EOLPackages r)) || (0 <? length (rp_EOSLImages r)).
Definition HasIssues (r : Report) : bool := HasFindings r || (0 <? length (rp_ScanErrors r)).

Definition IsEOL (g : PackageGroup) : bool := String.eqb (pg_Status g) StatusEndOfLife.

Definition stringSet (ss : list string) : gset string := list_to_set ss.

Definition EOLPackageAlerts (r : Report) : list ImageFindings :=
  filter (λ img, if_Image img ∉ stringSet (rp_EOSLImages r)) (rp_EOLPackages r).

Definition FoldedEOLCount (r : Report) (ref : string) : nat :=
  if decide (ref ∉ stringSet (rp_EOSLImages r)) then 0
  else sum_list (length ∘ if_Packages <$> filter (λ img, if_Image img = ref) (rp_EOLPackages r)).

(** The loop keeps the first group of the highest rank. *)
Definition MaxPriority (groups : list PackageGroup) : string :=
  foldl (λ max g, if Rank max <? Rank (pg_Priority g) then pg_Priority g else max) PriorityNone groups.

Definition GroupCount (imgs : list ImageFindings) : nat := sum_list (length ∘ if_Packages <$> imgs).

(** ** Orders *)

Definition severityTier (g : PackageGroup) : nat :=
  if 0 <? pg_Critical g then 0 else if 0 <? pg_High g then 1 else 2.

Definition less_group (a b : PackageGroup) : bool :=
  if negb (severityTier a =? severityTier b) then severityTier a <? severityTier b
  else if negb (group_Total a =? group_Total b) then group_Total b <? group_Total a
  else if negb (String.eqb (pg_Package a) (pg_Package b)) then str_lt (pg_Package a) (pg_Package b)
  else if negb (String.eqb (pg_Ecosystem a) (pg_Ecosystem b)) then str_lt (pg_Ecosystem a) (pg_Ecosystem b)
  else if negb (String.eqb (pg_InstalledVer a) (pg_InstalledVer b))
  then str_lt (pg_InstalledVer a) (pg_InstalledVer b)
  else str_lt (pg_Class a) (pg_Class b).
Definition sortPackages (g : list PackageGroup) : list PackageGroup := sort_by less_group g.

Definition less_findings (a b : ImageFindings) : bool :=
  let ha := 0 <? sc_High (image_Counts a) in
  let hb := 0 <? sc_High (image_Counts b) in
  if negb (CriticalCount a =? CriticalCount b) then CriticalCount b <? CriticalCount a
  else if negb (Bool.eqb ha hb) then ha
  else if negb (TotalCount a =? TotalCount b) then TotalCount b <? TotalCount a
  else if negb (String.eqb (if_Image a) (if_Image b)) then str_lt (if_Image a) (if_Image b)
  else lessEntityKey (is_Key (if_Subject a)) (is_Key (if_Subject b)).
Definition sortImages (f : list ImageFindings) : list ImageFindings := sort_by less_findings f.

Definition less_instance (a b : Instance) : bool :=
  if negb (String.eqb (it_Type a) (it_Type b)) then str_lt (it_Type a) (it_Type b)
  else if negb (String.eqb (it_Target a) (it_Target b)) then str_lt (it_Target a) (it_Target b)
  else str_lt (it_PkgPath a) (it_PkgPath b).
Definition sortInstances (l : list Instance) : list Instance := sort_by less_instance l.

(** ** The priority view *)

(** The aggregation unit of findings: a reference and an entity. *)
Notation imgKey := (string * EntityKey)%type.

Record entityMeta := mk_meta { em_subject : ImageSubject; em_pinned : bool }.
Definition zero_meta : entityMeta := mk_meta (mk_subject "" zero_entity false) false.

Definition exposureRank (e : string) : nat :=
  if String.eqb e "container_listening" then 1
  else if String.eqb e "host_published_loopback" then 2
  else if String.eqb e "host_published_all" then 3
  else 0.

Definition in_use (g : PackageGroup) : bool := String.eqb (rt_Usage (pg_Runtime g)) UsageInUse.

Definition less_runtime (a b : PackageGroup) : bool :=
  let ui := in_use a in let uj := in_use b in
  let ei := exposureRank (rt_Exposure (pg_Runtime a)) in
  let ej := exposureRank (rt_Exposure (pg_Runtime b)) in
  if negb (Bool.eqb ui uj) then ui
  else if negb ui then false
  else if negb (ei =? ej) then ej <? ei
  else rt_HighPrivilege (pg_Runtime a) && negb (rt_HighPrivilege (pg_Runtime b)).
Definition runtimeSortPackages (g : list PackageGroup) : list PackageGroup := sort_by less_runtime g.

Definition anyPackageInUse (groups : list PackageGroup) : bool := existsb in_use groups.
Definition runtimeSortImages (imgs : list ImageFindings) : list ImageFindings :=
  sort_by (λ a b, anyPackageInUse (if_Packages a) && negb (anyPackageInUse (if_Packages b))) imgs.

Record PriorityView := mk_view {
  pv_ActNow : list ImageFindings; pv_Watch : list ImageFindings; pv_Low : list ImageFindings }.

(** What [ByPriority] accumulates: the buckets, and per entity its containers
    and identity. *)
Record view_acc := mk_view_acc {
  va_buckets : gmap string (gmap imgKey (list PackageGroup));
  va_containers : gmap imgKey (list Container);
  va_meta : gmap imgKey entityMeta }.

Definition view_group (k : imgKey) (b : gmap string (gmap imgKey (list PackageGroup)))
    (g : PackageGroup) : gmap string (gmap imgKey (list PackageGroup)) :=
  if IsEOL g && negb (String.eqb (pg_Priority g) PriorityActNow) then b
  else
    let m := default ∅ (b !! pg_Priority g) in
    <[pg_Priority g := <[k := default [] (m !! k) ++ [g]]> m]> b.

Definition view_image (acc : view_acc) (img : ImageFindings) : view_acc :=
  let k := (if_Image img, is_Key (if_Subject img)) in
  mk_view_acc (foldl (view_group k) (va_buckets acc) (if_Packages img))
    (<[k := if_Containers img]> (va_containers acc))
    (<[k := mk_meta (if_Subject img) (if_Pinned img)]> (va_meta acc)).

Section views.
Context `{MapRange}.

Definition bucketSection (images : gmap imgKey (list PackageGroup)) (acc : view_acc)
    (runtimeEnabled : bool) : list ImageFindings :=
  let one '((ref, key), groups) :=
    let groups := sortPackages groups in
    let groups := if runtimeEnabled then runtimeSortPackages groups else groups in
    let m := default zero_meta (va_meta acc !! (ref, key)) in
    mk_findings ref (em_subject m) (em_pinned m) groups (default [] (va_containers acc !! (ref, key))) in
  let out := sortImages (one <$> map_range images) in
  if runtimeEnabled then runtimeSortImages out else out.

Definition ByPriority (r : Report) : PriorityView :=
  let acc := foldl view_image (mk_view_acc ∅ ∅ ∅) (mjoin (sections r)) in
  let runtimeEnabled := match rp_Runtime r with Some _ => true | None => false end in
  let bucket p := bucketSection (default ∅ (va_buckets acc !! p)) acc runtimeEnabled in
  mk_view (bucket PriorityActNow) (bucket PriorityWatch) (bucket PriorityLow).

End views.

(** ** Muting *)

Definition muteObservationWindow : Z := (7 * 24 * Hour)%Z.

Definition muteKey (image pkg : string) : string := image +:+ String "009"%char pkg.

Definition eligibleForMuting (g : PackageGroup) (now : Z) : bool :=
  if negb (String.eqb (pg_Status g) StatusAffected || String.eqb (pg_Status g) StatusWontFix) then false
  else if negb (String.eqb (rt_Usage (pg_Runtime g)) UsageNotObserved) then false
  else if String.eqb (pg_Priority g) PriorityActNow then false
  else if length (rt_Containers (pg_Runtime g)) =? 0 then false
  else forallb (λ c, negb (IsZero (crt_GenerationStartedAt c) ||
                           (Sub now (crt_GenerationStartedAt c) <? muteObservationWindow)%Z))
         (rt_Containers (pg_Runtime g)).

Definition heldRefs (obs : list ImageObservation) : gset string :=
  list_to_set (io_Ref <$> filter (λ o, io_ScanFailed o || io_PartialFailure o || io_Unconfirmed o = true) obs).

(** One group of the first pass: [keyEligible[k]] starts true and is cleared
    by any group that does not qualify. *)
Definition eligible_step (held : gset string) (now : Z) (image : string) (m : gmap string bool)
    (g : PackageGroup) : gmap string bool :=
  let k := muteKey image (pg_Package g) in
  let m := match m !! k with None => <[k := true]> m | Some _ => m end in
  if bool_decide (image ∈ held) || negb (eligibleForMuting g now) then <[k := false]> m else m.

Definition keyEligible (r : Report) (now : Z) : gmap string bool :=
  foldl (λ m img, foldl (eligible_step (heldRefs (rp_Images r)) now (if_Image img)) m (if_Packages img))
    ∅ (mjoin (sections r)).

Definition set_muted (g : PackageGroup) : PackageGroup :=
  mk_group (pg_Package g) (pg_Class g) (pg_InstalledVer g) (pg_FixedVer g) (pg_Status g) (pg_Risk g)
    (pg_Critical g) (pg_High g) (pg_Medium g) (pg_Low g) (pg_Unknown g) (pg_Vulns g) (pg_Priority g)
    (pg_URL g) (pg_Ecosystem g) (pg_Instances g) (pg_LayerDiffIDs g) (pg_Runtime g)
    true MutedNoFixNotInUse7d.

Definition mute_group (eligible : gmap string bool) (image : string) (g : PackageGroup) : PackageGroup :=
  if default false (eligible !! muteKey image (pg_Package g)) then set_muted g else g.

Definition mute_image (eligible : gmap string bool) (img : ImageFindings) : ImageFindings :=
  mk_findings (if_Image img) (if_Subject img) (if_Pinned img)
    (mute_group eligible (if_Image img) <$> if_Packages img) (if_Containers img).

Definition ApplyMuting (r : Report) (now : Z) : Report :=
  match rp_Runtime r with
  | None => r
  | Some _ =>
      let m := mute_image (keyEligible r now) in
      mk_report (rp_ImagesTotal r) (rp_EOSLImages r) (m <$> rp_Actionable r) (m <$> rp_Watch r)
        (m <$> rp_WontFix r) (m <$> rp_EOLPackages r) (rp_ScanErrors r) (rp_Images r)
        (rp_UnconfirmedRefs r) (rp_RuntimeUnchecked r) (rp_Triage r) (rp_Intel r) (rp_GeneratedAt r)
        (rp_Environment r) (rp_Runtime r) (rp_GenericWebhookConfigured r)
  end.

(** ** The orders of the report *)

Definition cmp_group : PackageGroup → PackageGroup → comparison :=
  cmp_then (cmp_on severityTier Nat.compare)
  (cmp_then (cmp_flip (cmp_on group_Total Nat.compare))
  (cmp_then (cmp_on pg_Package str_cmp)
  (cmp_then (cmp_on pg_Ecosystem str_cmp)
  (cmp_then (cmp_on pg_InstalledVer str_cmp)
            (cmp_on pg_Class str_cmp))))).

Definition cmp_findings : ImageFindings → ImageFindings → comparison :=
  cmp_then (cmp_flip (cmp_on CriticalCount Nat.compare))
  (cmp_then (cmp_flip (cmp_on (λ f, 0 <? sc_High (image_Counts f)) bool_cmp))
  (cmp_then (cmp_flip (cmp_on TotalCount Nat.compare))
  (cmp_then (cmp_on if_Image str_cmp)
            (cmp_on (λ f, is_Key (if_Subject f)) cmpEntityKey)))).

Definition cmp_instance : Instance → Instance → comparison :=
  cmp_then (cmp_on it_Type str_cmp) (cmp_then (cmp_on it_Target str_cmp) (cmp_on it_PkgPath str_cmp)).

#[export] Instance cmp_group_order : CmpOrder cmp_group.
Proof.
  apply cmp_then_order; [apply cmp_on_order; apply _|].
  apply cmp_then_order; [apply cmp_flip_order, cmp_on_order; apply _|].
  repeat apply cmp_then_order; apply cmp_on_order, str_cmp_order.
Qed.
#[export] Instance cmp_findings_order : CmpOrder cmp_findings.
Proof.
  do 3 (apply cmp_then_order; [apply cmp_flip_order, cmp_on_order; apply _|]).
  apply cmp_then_order; apply cmp_on_order; apply _.
Qed.
#[export] Instance cmp_instance_order : CmpOrder cmp_instance.
Proof. repeat apply cmp_then_order; apply cmp_on_order, str_cmp_order. Qed.

Lemma less_group_cmp a b : less_group a b = less_of cmp_group a b.
Proof. unfold less_group. by rewrite (str_last (pg_Class a)), !str_step, nat_step_desc, nat_step. Qed.

Lemma less_findings_cmp a b : less_findings a b = less_of cmp_findings a b.
Proof.
  unfold less_findings. by rewrite lessEntityKey_cmp, str_step, nat_step_desc, bool_step_desc, nat_step_desc.
Qed.

Lemma less_instance_cmp a b : less_instance a b = less_of cmp_instance a b.
Proof. unfold less_instance. by rewrite (str_last (it_PkgPath a)), !str_step. Qed.

(** ** Muting, key by key *)

(** Every group of a list of findings, with the reference it is under. *)
Definition groups_of (imgs : list ImageFindings) : list (string * PackageGroup) :=
  mjoin ((λ img, (λ g, (if_Image img, g)) <$> if_Packages img) <$> imgs).

(** All the groups of the report. *)
Definition report_groups (r : Report) : list (string * PackageGroup) := groups_of (mjoin (sections r)).

Definition group_key (p : string * PackageGroup) : string := muteKey p.1 (pg_Package p.2).

(** What a group needs for its key to be muted. *)
Definition qualifies (held : gset string) (now : Z) (p : string * PackageGroup) : Prop :=
  p.1 ∉ held ∧ eligibleForMuting p.2 now = true.

Lemma elem_of_groups_of imgs image g :
  (image, g) ∈ groups_of imgs ↔ ∃ img, img ∈ imgs ∧ if_Image img = image ∧ g ∈ if_Packages img.
Proof.
  unfold groups_of. rewrite list_elem_of_join. split.
  - intros (l & Hin & (img & -> & Himg)%list_elem_of_fmap).
    apply list_elem_of_fmap in Hin as (g' & [= -> ->] & Hg). by exists img.
  - intros (img & Himg & <- & Hg). exists ((λ g, (if_Image img, g)) <$> if_Packages img).
    split; [by eapply list_elem_of_fmap_2'|]. by eapply list_elem_of_fmap_2'.
Qed.

Lemma keyEligible_fold (step : string → gmap string bool → PackageGroup → gmap string bool) m imgs :
  foldl (λ m img, foldl (step (if_Image img)) m (if_Packages img)) m imgs =
  foldl (λ m p, step p.1 m p.2) m (groups_of imgs).
Proof.
  revert m. induction imgs as [|img imgs IH]; intros m; [done|]. cbn [foldl].
  unfold groups_of. rewrite fmap_cons. cbn [mjoin list_join]. rewrite foldl_app, IH. f_equal.
  generalize (if_Packages img). clear. intros l. revert m. induction l as [|g l IH]; intros m; [done|].
  rewrite fmap_cons. cbn [foldl fst snd]. apply IH.
Qed.

Lemma eligible_step_lookup held now p m k :
  eligible_step held now p.1 m p.2 !! k =
  if decide (group_key p = k) then
    if decide (qualifies held now p) then Some (default true (m !! k)) else Some false
  else m !! k.
Proof.
  unfold eligible_step. fold (group_key p). unfold qualifies.
  destruct (decide (group_key p = k)) as [<-|Hne].
  - destruct (bool_decide_reflect (p.1 ∈ held)) as [Hh|Hh]; cbn [orb].
    { rewrite decide_False by tauto. by rewrite lookup_insert_eq. }
    destruct (eligibleForMuting p.2 now); cbn [negb].
    + rewrite decide_True by done. destruct (m !! group_key p) as [b|] eqn:E; [by rewrite E|].
      by rewrite lookup_insert_eq.
    + rewrite decide_False by naive_solver. by rewrite lookup_insert_eq.
  - destruct (_ || _); [rewrite lookup_insert_ne by done|];
      (destruct (m !! group_key p); [done|by rewrite lookup_insert_ne by done]).
Qed.

Lemma keyEligible_lookup held now ps k :
  default false (foldl (λ m p, eligible_step held now p.1 m p.2) ∅ ps !! k) = true ↔
  (∃ p, p ∈ ps ∧ group_key p = k) ∧ Forall (λ p, group_key p = k → qualifies held now p) ps.
Proof.
  assert (H : match foldl (λ m p, eligible_step held now p.1 m p.2) ∅ ps !! k with
    | None => Forall (λ p, group_key p ≠ k) ps
    | Some b => (∃ p, p ∈ ps ∧ group_key p = k) ∧
        (b = true ↔ Forall (λ p, group_key p = k → qualifies held now p) ps)
    end).
  { induction ps as [|p ps IH] using rev_ind; [constructor|].
    rewrite foldl_app. cbn [foldl]. rewrite eligible_step_lookup.
    destruct (decide (group_key p = k)) as [Hk|Hk].
    - assert (Hex : ∃ q, q ∈ ps ++ [p] ∧ group_key q = k) by (exists p; split; [set_solver|done]).
      destruct (decide (qualifies held now p)) as [Hq|Hq].
      + split; [done|]. rewrite Forall_app, Forall_singleton.
        destruct (foldl _ ∅ ps !! k) as [b|]; cbn [from_option id].
        * destruct IH as [_ ->]. tauto.
        * split; [|done]. intros _. split; [|done]. eapply Forall_impl; [exact IH|]. done.
      + split; [done|]. rewrite Forall_app, Forall_singleton. split; [done|tauto].
    - destruct (foldl _ ∅ ps !! k) as [b|].
      + destruct IH as [(q & Hq & Hqk) ->]. split; [exists q; split; [set_solver|done]|].
        rewrite Forall_app, Forall_singleton. tauto.
      + apply Forall_app. split; [done|]. by apply Forall_singleton. }
  destruct (foldl _ ∅ ps !! k) as [b|]; cbn [from_option id]; [tauto|]. split; [done|].
  intros [(p & Hp & Hk) _]. rewrite Forall_forall in H. by destruct (H p Hp).
Qed.

(** A report with every mark taken off: what is left to compare. *)
Definition unmark_group (g : PackageGroup) : PackageGroup :=
  mk_group (pg_Package g) (pg_Class g) (pg_InstalledVer g) (pg_FixedVer g) (pg_Status g) (pg_Risk g)
    (pg_Critical g) (pg_High g) (pg_Medium g) (pg_Low g) (pg_Unknown g) (pg_Vulns g) (pg_Priority g)
    (pg_URL g) (pg_Ecosystem g) (pg_Instances g) (pg_LayerDiffIDs g) (pg_Runtime g) false "".

Definition unmark_image (img : ImageFindings) : ImageFindings :=
  mk_findings (if_Image img) (if_Subject img) (if_Pinned img) (unmark_group <$> if_Packages img) (if_Containers img).

Definition unmarked (r : Report) : Report :=
  mk_report (rp_ImagesTotal r) (rp_EOSLImages r) (unmark_image <$> rp_Actionable r) (unmark_image <$> rp_Watch r)
    (unmark_image <$> rp_WontFix r) (unmark_image <$> rp_EOLPackages r) (rp_ScanErrors r) (rp_Images r)
    (rp_UnconfirmedRefs r) (rp_RuntimeUnchecked r) (rp_Triage r) (rp_Intel r) (rp_GeneratedAt r)
    (rp_Environment r) (rp_Runtime r) (rp_GenericWebhookConfigured r).

(** Every group of the key, in every section, qualifies. *)
Definition all_qualify (r : Report) (now : Z) (k : string) : Prop :=
  Forall (λ p, group_key p = k → qualifies (heldRefs (rp_Images r)) now p) (report_groups r).

Definition marked_group (r : Report) (now : Z) (p : string * PackageGroup) : string * PackageGroup :=
  (p.1, mute_group (keyEligible r now) p.1 p.2).

Lemma unmark_muted m img : unmark_image (mute_image m img) = unmark_image img.
Proof.
  unfold unmark_image, mute_image. cbn. f_equal. rewrite <- list_fmap_compose. apply list_fmap_ext.
  intros n g _. cbn. unfold mute_group. by destruct (default false _).
Qed.

Lemma unmarked_muted r now : unmarked (ApplyMuting r now) = unmarked r.
Proof.
  unfold ApplyMuting. destruct (rp_Runtime r) eqn:E; [|done]. unfold unmarked. cbn. rewrite E.
  f_equal; rewrite <- list_fmap_compose; apply list_fmap_ext; intros n img _; apply unmark_muted.
Qed.

(** The groups after, in order. *)
Lemma report_groups_muted r now :
  rp_Runtime r ≠ None → report_groups (ApplyMuting r now) = marked_group r now <$> report_groups r.
Proof.
  intros Hr. unfold report_groups, ApplyMuting. destruct (rp_Runtime r) as [i|]; [|done].
  set (m := mute_image (keyEligible r now)).
  assert (E : ∀ l, groups_of (m <$> l) = marked_group r now <$> groups_of l).
  { intros l. induction l as [|img l IH]; [done|].
    change (groups_of (m <$> img :: l)) with (((λ g, (if_Image (m img), g)) <$> if_Packages (m img)) ++ groups_of (m <$> l)).
    change (groups_of (img :: l)) with (((λ g, (if_Image img, g)) <$> if_Packages img) ++ groups_of l).
    rewrite fmap_app, IH. f_equal. unfold m, mute_image. cbn. by rewrite <- !list_fmap_compose. }
  unfold sections. cbn [mjoin list_join rp_Actionable rp_Watch rp_WontFix rp_EOLPackages].
  rewrite <- E, !fmap_app. done.
Qed.

Lemma mute_group_qualified r now p :
  p ∈ report_groups r →
  all_qualify r now (group_key p) ∧ mute_group (keyEligible r now) p.1 p.2 = set_muted p.2 ∨
  ¬ all_qualify r now (group_key p) ∧ mute_group (keyEligible r now) p.1 p.2 = p.2.
Proof.
  intros Hp. pose proof (keyEligible_lookup (heldRefs (rp_Images r)) now (report_groups r) (group_key p)) as Hk.
  unfold report_groups in Hk at 1.
  rewrite <- (keyEligible_fold (eligible_step (heldRefs (rp_Images r)) now)) in Hk.
  fold (keyEligible r now) in Hk. fold (all_qualify r now (group_key p)) in Hk.
  unfold mute_group. fold (group_key p). destruct (default false _).
  - left. split; [by apply Hk|done].
  - right. split; [|done]. intros Ha. enough (false = true) by done. apply Hk. split; [by exists p|done].
Qed.

(** ** Properties *)

(** C38: muting is all or nothing per (reference, package), changes nothing but
    marks, and never hides work to do. The report after [ApplyMuting] is the
    report before, up to the marks of its groups: the same groups in the same
    sections and order, with the same fields, and every other field of the
    report. Without runtime evidence nothing is marked. With it, the groups
    marked are exactly those for whose key every group of the report qualifies;
    of a report with no group muted yet, a group muted is never act-now, has no
    fix and is not end-of-life, is under a reference whose scan settled this
    cycle, and was positively not observed in at least one container, in each of
    them for the whole window. *)
Theorem ApplyMuting_all_or_nothing r now :
  Forall (λ p, pg_Muted p.2 = false) (report_groups r) →
  unmarked (ApplyMuting r now) = unmarked r ∧
  (rp_Runtime r = None → ApplyMuting r now = r) ∧
  (rp_Runtime r ≠ None →
   Forall2 (λ p p', p'.1 = p.1 ∧
     (all_qualify r now (group_key p) ∧ p'.2 = set_muted p.2 ∨ ¬ all_qualify r now (group_key p) ∧ p'.2 = p.2))
     (report_groups r) (report_groups (ApplyMuting r now)) ∧
   ∀ image g, (image, g) ∈ report_groups (ApplyMuting r now) → pg_Muted g = true →
     image ∉ heldRefs (rp_Images r) ∧ pg_Priority g ≠ PriorityActNow ∧
     (pg_Status g = StatusAffected ∨ pg_Status g = StatusWontFix) ∧
     rt_Usage (pg_Runtime g) = UsageNotObserved ∧ rt_Containers (pg_Runtime g) ≠ [] ∧
     ∀ c, c ∈ rt_Containers (pg_Runtime g) → IsZero (crt_GenerationStartedAt c) = false ∧
       (muteObservationWindow ≤ Sub now (crt_GenerationStartedAt c))%Z).
Proof.
  intros Hun. split; [apply unmarked_muted|]. split; [intros Hn; unfold ApplyMuting; by rewrite Hn|]. intros Hr.
  rewrite report_groups_muted by done. split.
  { apply Forall2_fmap_r. apply Forall_Forall2_diag, Forall_forall. intros p Hp. split; [done|]. by apply mute_group_qualified. }
  intros image g' ([image' g] & [= -> ->] & Hin)%list_elem_of_fmap. cbn [fst snd] in *. intros Hm.
  rewrite Forall_forall in Hun. destruct (mute_group_qualified r now _ Hin) as [[Hall E]|[_ E]]; cbn [fst snd] in E; rewrite E in Hm |- *.
  2: { pose proof (Hun _ Hin) as Hf. cbn [snd] in Hf. congruence. }
  unfold all_qualify in Hall. rewrite Forall_forall in Hall. destruct (Hall _ Hin eq_refl) as [Hheld Hel].
  cbn [fst snd] in Hheld, Hel. unfold eligibleForMuting in Hel. cbn [set_muted pg_Priority pg_Status pg_Runtime].
  destruct (String.eqb (pg_Status g) StatusAffected || _) eqn:Es; [|done].
  destruct (String.eqb_spec (rt_Usage (pg_Runtime g)) UsageNotObserved); [|done].
  destruct (String.eqb_spec (pg_Priority g) PriorityActNow); [done|]. cbn [negb] in Hel.
  destruct (Nat.eqb_spec (length (rt_Containers (pg_Runtime g))) 0) as [|Hne]; [done|].
  split_and!; [done..|by rewrite orb_true_iff, !String.eqb_eq in Es|done|by destruct (rt_Containers _)|].
  rewrite forallb_forall in Hel. intros c Hc%list_elem_of_In. specialize (Hel c Hc).
  apply negb_true_iff, orb_false_elim in Hel as [Hz Hw%Z.ltb_ge]. done.
Qed.

Definition example_group (status priority usage : string) : PackageGroup :=
  mk_group "curl" ClassOS "1" "" status "" 1 0 0 0 0 [] priority "" "debian" [] []
    (mk_runtime usage "" [] "" "" false [mk_container_rt "c" "c" 1 usage "" [] "" false]) false "".
Definition example_report (groups : list PackageGroup) : Report :=
  mk_report 1 [] [] [mk_findings "app:1" (mk_subject "app:1" zero_entity false) false groups []] [] [] []
    [] [] [] true (mk_intel true true 0) 0 (mk_environment "" "")
    (Some (mk_runtime_info (mk_sensor "" "" 0 0 30 (mk_isolation true true true 1) SensorOK
             (mk_events EventsOK "" 0 0 0 0)) false false)) false.

(** curl is muted; openssl is not, since one of its groups has to be acted on
    now. *)
Definition example_groups : list PackageGroup :=
  let ssl := example_group StatusAffected PriorityActNow UsageNotObserved in
  [example_group StatusAffected PriorityLow UsageNotObserved;
   mk_group "openssl" ClassOS "1" "" StatusAffected "" 1 0 0 0 0 [] PriorityLow "" "debian" [] [] (pg_Runtime ssl) false "";
   mk_group "openssl" ClassOS "2" "" StatusAffected "" 1 0 0 0 0 [] PriorityActNow "" "debian" [] [] (pg_Runtime ssl) false ""].

Definition example_muted : Report := ApplyMuting (example_report example_groups) (1 + muteObservationWindow).

Lemma ApplyMuting_all_or_nothing_witness :
  (λ p, (pg_Package p.2, pg_Muted p.2)) <$> report_groups example_muted = [("curl", true); ("openssl", false); ("openssl", false)] ∧
  unmarked example_muted = unmarked (example_report example_groups) ∧
  ∀ image g, (image, g) ∈ report_groups example_muted → pg_Muted g = true → pg_Priority g ≠ PriorityActNow.
Proof.
  split; [by vm_compute|].
  assert (Hun : Forall (λ p, pg_Muted p.2 = false) (report_groups (example_report example_groups))) by repeat constructor.
  destruct (ApplyMuting_all_or_nothing (example_report example_groups) (1 + muteObservationWindow) Hun) as (Hu & _ & Hr).
  split; [exact Hu|]. destruct (Hr ltac:(discriminate)) as [_ Hs]. intros image g Hin Hm. by destruct (Hs image g Hin Hm) as (_ & ? & _).
Defined.
