(* ===== verification/Build.v ===== *)
(** * Building a report

    internal/analyze/analyze.go: [Build] aggregates the scans of a cycle
    (internal/scanner/scanner.go, [ImageScan] and [Finding], without the fields
    that neither [Build] nor the comparison of scans reads) into the sections and the image inventory of a
    report. Go's maps of accumulators are maps of values here: an accumulator
    is only reached through its map. Every [range] over a map goes through
    [map_range], whose order the theorems quantify over. *)

From Stdlib Require Import ZArith Lia Bool Ascii String List Permutation Sorting.Sorted Floats.SpecFloat.
From stdpp Require Import base countable gmap strings list.
From S2P Require Import Prelude GoStrings Reference Inventory Triage Report.

Open Scope string_scope.
Open Scope Z_scope.
Open Scope nat_scope.
Open Scope list_scope.

(** ** What the scanner hands over *)

Record Finding := mk_finding {
  fi_Class : string; fi_Package : string; fi_InstalledVer : string; fi_FixedVer : string;
  fi_Status : string; fi_Severity : string; fi_VulnID : string; fi_URL : string; fi_Title : string;
  fi_Type : string; fi_Target : string; fi_PkgPath : string; fi_LayerDiffID : string }.

Definition finding_PackageRef (f : Finding) : PackageRef :=
  mk_package_ref (ParseEcosystem (fi_Type f)) (fi_Class f) (fi_Package f) (fi_InstalledVer f).

Definition SourceLocal : string := "local".
Definition SourceRemote : string := "remote".

Record Package := mk_package { ip_Name : string; ip_Version : string; ip_PkgPath : string }.

Record ResultPackages := mk_result_packages {
  rp_Target : string; rp_Class : string; rp_Type : string; rp_Packages : list Package }.

(** [Err] is the text of a non-nil error. *)
Record ImageScan := mk_scan {
  sn_Image : string; sn_OSEOSL : bool; sn_Findings : list Finding; sn_Err : option string;
  sn_Cause : string; sn_RegistryHost : string; sn_Subject : ImageSubject;
  sn_RegistryDigests : list string; sn_Pinned : bool; sn_Source : string;
  sn_RuntimeUnchecked : list string;
  sn_OSFamily : string; sn_Platform : Platform; sn_Packages : list ResultPackages;
  sn_PackagesTruncated : bool;
  sn_ScannedKey : EntityKey; sn_ComposeProject : string; sn_ComposeService : string }.

(** ** Statuses and risks *)

Definition sectionOf (s : string) : option string :=
  if String.eqb s StatusFixed || String.eqb s StatusWontFix || String.eqb s StatusEndOfLife then Some s
  else if String.eqb s StatusNotAffected then None
  else Some StatusAffected.

Definition mergeRawStatus (section a b : string) : string :=
  if String.eqb a section || String.eqb b section then section
  else if str_lt a b then a else b.

Definition RiskNone : string := "".
Definition RiskDistroUpdate : string := "distro_update".
Definition RiskSafe : string := "safe".
Definition RiskCaution : string := "caution".
Definition RiskUnknown : string := "unknown".

(** [v[:i]] for the digits [v] starts with. *)
Fixpoint leading_digits (v : string) : string :=
  match v with
  | EmptyString => ""
  | String c v' => if is_digit c then String c (leading_digits v') else ""
  end.

Definition majorVersion (v : string) : option Z :=
  let v :=
    match v with
    | String c v' => if Ascii.eqb c "v"%char || Ascii.eqb c "V"%char then v' else v
    | EmptyString => v
    end in
  if String.eqb (leading_digits v) "" then None else atoi (leading_digits v).

Definition langRisk (installed fixed : string) : string :=
  match majorVersion installed, majorVersion fixed with
  | Some im, Some fm => if (im <? fm)%Z then RiskCaution else RiskSafe
  | _, _ => RiskUnknown
  end.

Definition riskOf (status class installed fixed : string) : string :=
  if negb (String.eqb status StatusFixed) then RiskNone
  else if String.eqb class ClassOS then RiskDistroUpdate
  else langRisk installed fixed.

(** ** Accumulators *)

Record vulnInfo := mk_info { vi_sev : string; vi_url : string; vi_title : string; vi_status : string }.

(** [group] before [finalize]: what its first finding said. *)
Record pkgAcc := mk_acc {
  pa_Package : string; pa_Class : string; pa_InstalledVer : string; pa_FixedVer : string;
  pa_Status : string; pa_URL : string; pa_Ecosystem : string;
  pa_vulns : gmap string vulnInfo; pa_instances : gset Instance; pa_layers : gset string }.

Record obsAcc := mk_obs_acc {
  oa_total : nat; oa_failed : nat; oa_unconfirmed : nat; oa_contentIDs : gset string;
  oa_entityKeys : gset EntityKey; oa_registryDigests : gset string;
  oa_anyWithoutConfig : bool; oa_seenEOSL : bool }.
Definition zero_obs : obsAcc := mk_obs_acc 0 0 0 ∅ ∅ ∅ false false.

Notation packages := (gmap PackageRef pkgAcc).
Notation status_map := (gmap string (gmap imgKey packages)).

Record build_acc := mk_build {
  ba_byStatus : status_map; ba_obs : gmap string obsAcc; ba_meta : gmap imgKey entityMeta;
  ba_uncheckedSeen : gset RuntimeUncheckedRef; ba_ScanErrors : list ScanError;
  ba_EOSLImages : list string; ba_RuntimeUnchecked : list RuntimeUncheckedRef }.

Definition new_acc (section : string) (f : Finding) : pkgAcc :=
  mk_acc (fi_Package f) (fi_Class f) (fi_InstalledVer f) (fi_FixedVer f) section (fi_URL f)
    (pk_Ecosystem (finding_PackageRef f)) ∅ ∅ ∅.

(** The body of the loop over findings, once the accumulator is at hand. *)
Definition acc_finding (section : string) (acc : pkgAcc) (f : Finding) : pkgAcc :=
  let prev := pa_vulns acc !! fi_VulnID f in
  let title := if String.eqb (fi_Title f) "" then default "" (vi_title <$> prev) else fi_Title f in
  let status :=
    match prev with
    | Some p => mergeRawStatus section (vi_status p) (fi_Status f)
    | None => fi_Status f
    end in
  mk_acc (pa_Package acc) (pa_Class acc) (pa_InstalledVer acc) (pa_FixedVer acc) (pa_Status acc)
    (pa_URL acc) (pa_Ecosystem acc)
    (<[fi_VulnID f := mk_info (fi_Severity f) (fi_URL f) title status]> (pa_vulns acc))
    ({[mk_instance (finding_PackageRef f) (fi_Type f) (fi_Target f) (fi_PkgPath f)]} ∪ pa_instances acc)
    ({[fi_LayerDiffID f]} ∪ pa_layers acc).

Definition add_finding (k : imgKey) (m : status_map) (f : Finding) : status_map :=
  match sectionOf (fi_Status f) with
  | None => m
  | Some section =>
      let images := default ∅ (m !! section) in
      let pkgs := default ∅ (images !! k) in
      let ref := finding_PackageRef f in
      let acc := default (new_acc section f) (pkgs !! ref) in
      <[section := <[k := <[ref := acc_finding section acc f]> pkgs]> images]> m
  end.

(** The identity of a scan, recorded whether or not the scan succeeded. *)
Definition obs_identity (a : obsAcc) (s : ImageScan) : obsAcc :=
  let subject := sn_Subject s in
  let config := is_Resolved subject && String.eqb (dg_Kind (ek_Digest (is_Key subject))) DigestConfig in
  mk_obs_acc (S (oa_total a)) (oa_failed a) (oa_unconfirmed a)
    (if config then {[Digest_String (ek_Digest (is_Key subject))]} ∪ oa_contentIDs a else oa_contentIDs a)
    (if is_Resolved subject then {[is_Key subject]} ∪ oa_entityKeys a else oa_entityKeys a)
    (oa_registryDigests a) (oa_anyWithoutConfig a || negb config) (oa_seenEOSL a).

Definition obs_failed (a : obsAcc) : obsAcc :=
  mk_obs_acc (oa_total a) (S (oa_failed a)) (oa_unconfirmed a) (oa_contentIDs a) (oa_entityKeys a)
    (oa_registryDigests a) (oa_anyWithoutConfig a) (oa_seenEOSL a).

Definition unconfirmed_scan (s : ImageScan) : bool :=
  negb (sn_Pinned s) && String.eqb (sn_Source s) SourceRemote.

Definition obs_success (a : obsAcc) (s : ImageScan) : obsAcc :=
  mk_obs_acc (oa_total a) (oa_failed a)
    (if unconfirmed_scan s then S (oa_unconfirmed a) else oa_unconfirmed a)
    (oa_contentIDs a) (oa_entityKeys a)
    (if sn_Pinned s then list_to_set (sn_RegistryDigests s) ∪ oa_registryDigests a else oa_registryDigests a)
    (oa_anyWithoutConfig a) (sn_OSEOSL s || oa_seenEOSL a).

Definition unchecked_step (image : string) (acc : gset RuntimeUncheckedRef * list RuntimeUncheckedRef)
    (pkg : string) : gset RuntimeUncheckedRef * list RuntimeUncheckedRef :=
  let ref := mk_unchecked image pkg in
  if bool_decide (ref ∈ acc.1) then acc else ({[ref]} ∪ acc.1, acc.2 ++ [ref]).

(** One turn of the loop over scans. *)
Definition scan_step (b : build_acc) (s : ImageScan) : build_acc :=
  let a := obs_identity (default zero_obs (ba_obs b !! sn_Image s)) s in
  match sn_Err s with
  | Some err =>
      mk_build (ba_byStatus b) (<[sn_Image s := obs_failed a]> (ba_obs b)) (ba_meta b)
        (ba_uncheckedSeen b)
        (ba_ScanErrors b ++
           [mk_scan_error (sn_Image s) err (sn_Cause s) (sn_RegistryHost s) (sn_Subject s)])
        (ba_EOSLImages b) (ba_RuntimeUnchecked b)
  | None =>
      let k := (sn_Image s, is_Key (sn_Subject s)) in
      let unchecked := foldl (unchecked_step (sn_Image s)) (ba_uncheckedSeen b, ba_RuntimeUnchecked b)
                         (sn_RuntimeUnchecked s) in
      mk_build (foldl (add_finding k) (ba_byStatus b) (sn_Findings s))
        (<[sn_Image s := obs_success a s]> (ba_obs b))
        (<[k := mk_meta (sn_Subject s) (sn_Pinned s)]> (ba_meta b))
        unchecked.1 (ba_ScanErrors b)
        (if sn_OSEOSL s && negb (oa_seenEOSL a) then ba_EOSLImages b ++ [sn_Image s] else ba_EOSLImages b)
        unchecked.2
  end.

Definition scan_all (scans : list ImageScan) : build_acc :=
  foldl scan_step (mk_build ∅ ∅ ∅ ∅ [] [] []) scans.

(** ** Containers *)

Definition append_at `{Countable K} {A} (k : K) (x : A) (m : gmap K (list A)) : gmap K (list A) :=
  <[k := default [] (m !! k) ++ [x]]> m.

Definition index_step (acc : gmap imgKey (list Container) * gmap string (list Container)) (c : Container) :
    gmap imgKey (list Container) * gmap string (list Container) :=
  let ref := ri_Ref (ct_Image c) in
  if String.eqb ref "" then acc
  else (append_at (ref, entity_or_zero (ct_Image c)) c acc.1, append_at ref c acc.2).

Definition indexContainers (containers : list Container) :
    gmap imgKey (list Container) * gmap string (list Container) :=
  foldl index_step (∅, ∅) containers.

(** ** Groups and sections *)

Record tally := mk_tally {
  ta_counts : SeverityCounts; ta_Vulns : list VulnRef; ta_Priority : string }.

Definition count_severity `{GoUnicodeUpper} (sev : string) : SeverityCounts :=
  let s := to_upper sev in
  if String.eqb s SeverityCritical then mk_counts 1 0 0 0 0
  else if String.eqb s SeverityHigh then mk_counts 0 1 0 0 0
  else if String.eqb s SeverityMedium then mk_counts 0 0 1 0 0
  else if String.eqb s SeverityLow then mk_counts 0 0 0 1 0
  else mk_counts 0 0 0 0 1.

Definition vuln_ref (tr : Triage) (status : string) (id : string) (info : vulnInfo) : VulnRef :=
  let e := default zero_enrichment (tr_Enrich tr !! id) in
  mk_vuln id (vi_sev info) (vi_url info) (vi_title info) (vi_status info) (en_KEV e) (en_Ransomware e)
    (en_EPSS e) (en_EPSSKnown e) (priorityOf tr (vi_sev info) e status)
    (buildRefs e (default [] (tr_Refs tr !! id))).

Definition tally_step `{GoUnicodeUpper} (tr : Triage) (status : string) (t : tally)
    (p : string * vulnInfo) : tally :=
  let v := vuln_ref tr status p.1 p.2 in
  mk_tally (Add (ta_counts t) (count_severity (vi_sev p.2))) (ta_Vulns t ++ [v])
    (if Rank (ta_Priority t) <? Rank (vr_Priority v) then vr_Priority v else ta_Priority t).

Section build.
Context `{MapRange} `{GoUnicodeUpper}.

Definition tally_of (tr : Triage) (acc : pkgAcc) : tally :=
  foldl (tally_step tr (pa_Status acc)) (mk_tally zero_counts [] PriorityNone) (map_range (pa_vulns acc)).

Definition finalize (acc : pkgAcc) (tr : Triage) : PackageGroup :=
  let t := tally_of tr acc in
  let c := ta_counts t in
  mk_group (pa_Package acc) (pa_Class acc) (pa_InstalledVer acc) (pa_FixedVer acc) (pa_Status acc)
    (riskOf (pa_Status acc) (pa_Class acc) (pa_InstalledVer acc) (pa_FixedVer acc))
    (sc_Critical c) (sc_High c) (sc_Medium c) (sc_Low c) (sc_Unknown c)
    (sortVulns (ta_Vulns t)) (ta_Priority t) (pa_URL acc) (pa_Ecosystem acc)
    (sortInstances (set_range (pa_instances acc))) (sort_strings (set_range (pa_layers acc)))
    zero_runtime false "".

Definition section_image (tr : Triage) (byKey : gmap imgKey (list Container)) (meta : gmap imgKey entityMeta)
    (p : imgKey * packages) : ImageFindings :=
  let m := default zero_meta (meta !! p.1) in
  mk_findings p.1.1 (em_subject m) (em_pinned m)
    (sortPackages ((λ q, finalize q.2 tr) <$> map_range p.2))
    (default [] (byKey !! p.1)).

Definition buildSection (images : gmap imgKey packages) (tr : Triage)
    (byKey : gmap imgKey (list Container)) (meta : gmap imgKey entityMeta) : list ImageFindings :=
  sortImages (section_image tr byKey meta <$> map_range images).

Definition observation (byRef : gmap string (list Container)) (p : string * obsAcc) : ImageObservation :=
  let a := p.2 in
  mk_obs p.1 (sort_strings (set_range (oa_contentIDs a))) (sort_strings (set_range (oa_registryDigests a)))
    (1 <? size (oa_entityKeys a))
    ((0 <? oa_total a) && negb (oa_anyWithoutConfig a))
    ((0 <? oa_total a) && (oa_failed a =? oa_total a))
    (((0 <? oa_failed a) && (oa_failed a <? oa_total a)) || (0 <? oa_unconfirmed a))
    (0 <? oa_unconfirmed a)
    (default [] (byRef !! p.1)).

Definition less_obs (a b : ImageObservation) : bool := str_lt (io_Ref a) (io_Ref b).

Definition buildInventory (obs : gmap string obsAcc) (byRef : gmap string (list Container)) :
    list ImageObservation :=
  sort_by less_obs (observation byRef <$> map_range obs).

Definition less_unchecked (a b : RuntimeUncheckedRef) : bool :=
  if negb (String.eqb (ru_Image a) (ru_Image b)) then str_lt (ru_Image a) (ru_Image b)
  else str_lt (ru_Package a) (ru_Package b).

Definition Build (scans : list ImageScan) (containers : list Container) (tr : Triage) (now : Z) : Report :=
  let b := scan_all scans in
  let idx := indexContainers containers in
  let section s := buildSection (default ∅ (ba_byStatus b !! s)) tr idx.1 (ba_meta b) in
  let images := buildInventory (ba_obs b) idx.2 in
  mk_report (length scans) (sort_strings (ba_EOSLImages b)) (section StatusFixed) (section StatusAffected)
    (section StatusWontFix) (section StatusEndOfLife) (ba_ScanErrors b) images
    (io_Ref <$> filter (λ o, io_Unconfirmed o = true) images)
    (sort_by less_unchecked (ba_RuntimeUnchecked b)) (tr_Enabled tr) (tr_Intel tr) now
    (mk_environment "" "") None false.

End build.

(** ** What the accumulators hold *)

(** [byStatus[section][k][ref]] *)
Definition acc_at (m : status_map) (section : string) (k : imgKey) (ref : PackageRef) : option pkgAcc :=
  (m !! section ≫= λ images, images !! k) ≫= λ pkgs, pkgs !! ref.

(** The findings of the scans that succeeded, each with its entity. *)
Definition scan_findings (s : ImageScan) : list (imgKey * Finding) :=
  match sn_Err s with
  | Some _ => []
  | None => pair (sn_Image s, is_Key (sn_Subject s)) <$> sn_Findings s
  end.
Definition kept_findings (scans : list ImageScan) : list (imgKey * Finding) :=
  mjoin (scan_findings <$> scans).

(** The findings of one accumulator. *)
Definition belongs (section : string) (k : imgKey) (ref : PackageRef) (p : imgKey * Finding) : Prop :=
  sectionOf (fi_Status p.2) = Some section ∧ p.1 = k ∧ finding_PackageRef p.2 = ref.
#[export] Instance belongs_dec section k ref p : Decision (belongs section k ref p).
Proof. unfold belongs. apply _. Defined.

(** The section of a report a status names. *)
Definition section_named (r : Report) (section : string) : list ImageFindings :=
  if String.eqb section StatusFixed then rp_Actionable r
  else if String.eqb section StatusAffected then rp_Watch r
  else if String.eqb section StatusWontFix then rp_WontFix r
  else if String.eqb section StatusEndOfLife then rp_EOLPackages r
  else [].

Definition entity_of (img : ImageFindings) : imgKey := (if_Image img, is_Key (if_Subject img)).

Lemma acc_at_add k m f section k' ref :
  acc_at (add_finding k m f) section k' ref =
  if decide (belongs section k' ref (k, f))
  then Some (acc_finding section (default (new_acc section f) (acc_at m section k' ref)) f)
  else acc_at m section k' ref.
Proof.
  destruct (decide (belongs section k' ref (k, f))) as [(Hs & <- & <-)|Hb]; cbn [fst snd] in *.
  - unfold add_finding, acc_at. rewrite Hs. rewrite lookup_insert_eq. cbn [mbind option_bind].
    rewrite lookup_insert_eq. cbn [mbind option_bind]. rewrite lookup_insert_eq. do 3 f_equal.
    destruct (m !! section) as [images|]; cbn [mbind option_bind from_option id]; [|done].
    by destruct (images !! k) as [pkgs|].
  - unfold add_finding, acc_at. destruct (sectionOf (fi_Status f)) as [sec|] eqn:Hs; [|done].
    destruct (decide (sec = section)) as [->|Hsec]; [|by rewrite lookup_insert_ne].
    rewrite lookup_insert_eq. cbn [mbind option_bind].
    destruct (decide (k = k')) as [->|Hk].
    2: { rewrite lookup_insert_ne by done. by destruct (m !! section) as [images|]. }
    rewrite lookup_insert_eq. cbn [mbind option_bind].
    rewrite lookup_insert_ne by (intros E; apply Hb; by repeat split).
    destruct (m !! section) as [images|]; cbn [mbind option_bind from_option id]; [|done].
    by destruct (images !! k') as [pkgs|].
Qed.

Lemma scan_all_app scans s : scan_all (scans ++ [s]) = scan_step (scan_all scans) s.
Proof. unfold scan_all. by rewrite foldl_app. Qed.

Lemma kept_app scans s : kept_findings (scans ++ [s]) = kept_findings scans ++ scan_findings s.
Proof. unfold kept_findings. rewrite fmap_app, join_app. cbn. by rewrite List.app_nil_r. Qed.

Lemma foldl_fmap {A B C} (f : C → B → C) (g : A → B) c l :
  foldl f c (g <$> l) = foldl (λ c x, f c (g x)) c l.
Proof. revert c. induction l as [|x l IH]; intros c; [done|]. apply IH. Qed.

Lemma byStatus_fold scans :
  ba_byStatus (scan_all scans) = foldl (λ m p, add_finding p.1 m p.2) ∅ (kept_findings scans).
Proof.
  induction scans as [|s scans IH] using rev_ind; [done|].
  rewrite scan_all_app, kept_app, foldl_app, <- IH. unfold scan_step, scan_findings.
  destruct (sn_Err s); [done|]. cbn [ba_byStatus]. by rewrite foldl_fmap.
Qed.

Definition acc_of_findings (section : string) (l : list (imgKey * Finding)) : option pkgAcc :=
  match l with
  | [] => None
  | p :: _ => Some (foldl (acc_finding section) (new_acc section p.2) (snd <$> l))
  end.

Lemma acc_of_findings_snoc section l p :
  acc_of_findings section (l ++ [p]) =
  Some (acc_finding section (default (new_acc section p.2) (acc_of_findings section l)) p.2).
Proof.
  destruct l as [|q l]; [done|]. cbn [acc_of_findings app from_option id].
  by rewrite app_comm_cons, fmap_app, foldl_app.
Qed.

Lemma acc_at_fold section k ref l :
  acc_at (foldl (λ m p, add_finding p.1 m p.2) ∅ l) section k ref =
  acc_of_findings section (filter (belongs section k ref) l).
Proof.
  induction l as [|p l IH] using rev_ind; [done|].
  rewrite foldl_app, filter_app. cbn [foldl]. rewrite acc_at_add, IH.
  destruct p as [k' f]. destruct (decide (belongs section k ref (k', f))) as [Hb|Hb].
  - rewrite filter_cons_True by done. cbn [filter list_filter snd]. by rewrite acc_of_findings_snoc, decide_True.
  - rewrite filter_cons_False by done. cbn [filter list_filter]. by rewrite List.app_nil_r, decide_False.
Qed.

Lemma acc_at_scans scans section k ref :
  acc_at (ba_byStatus (scan_all scans)) section k ref =
  acc_of_findings section (filter (belongs section k ref) (kept_findings scans)).
Proof. by rewrite byStatus_fold, acc_at_fold. Qed.

(** *** One accumulator *)

Definition acc_ref (acc : pkgAcc) : PackageRef :=
  mk_package_ref (pa_Ecosystem acc) (pa_Class acc) (pa_Package acc) (pa_InstalledVer acc).

(** What an accumulator of [fs] under [section] and [ref] is known to hold. *)
Record acc_ok (section : string) (ref : PackageRef) (fs : list Finding) (acc : pkgAcc) : Prop := mk_acc_ok {
  ao_status : pa_Status acc = section;
  ao_ref : acc_ref acc = ref;
  ao_vulns : ∀ id, is_Some (pa_vulns acc !! id) ↔ id ∈ fi_VulnID <$> fs;
  ao_instances : ∀ i, i ∈ pa_instances acc ↔
    i ∈ (λ f, mk_instance ref (fi_Type f) (fi_Target f) (fi_PkgPath f)) <$> fs;
  ao_layers : ∀ l, l ∈ pa_layers acc ↔ l ∈ fi_LayerDiffID <$> fs }.

Lemma acc_ok_new section f : acc_ok section (finding_PackageRef f) [] (new_acc section f).
Proof.
  split; [done..| |set_solver|set_solver]. intros id. cbn [new_acc pa_vulns]. rewrite lookup_empty.
  split; [by intros [? ?]|by intros ?%not_elem_of_nil].
Qed.

Lemma acc_ok_finding section ref fs acc f :
  finding_PackageRef f = ref → acc_ok section ref fs acc →
  acc_ok section ref (fs ++ [f]) (acc_finding section acc f).
Proof.
  intros Hf [Hs Hr Hv Hi Hl]. split; [done..| | |].
  - intros id. cbn [acc_finding pa_vulns]. rewrite lookup_insert_is_Some', Hv, fmap_app, elem_of_app.
    cbn. rewrite list_elem_of_singleton. naive_solver.
  - intros i. cbn [acc_finding pa_instances]. rewrite Hf, elem_of_union, elem_of_singleton, Hi, fmap_app, elem_of_app.
    cbn. rewrite list_elem_of_singleton. tauto.
  - intros l. cbn [acc_finding pa_layers]. rewrite elem_of_union, elem_of_singleton, Hl, fmap_app, elem_of_app.
    cbn. rewrite list_elem_of_singleton. tauto.
Qed.

Lemma acc_of_findings_ok section k ref l :
  match acc_of_findings section (filter (belongs section k ref) l) with
  | Some acc => acc_ok section ref (snd <$> filter (belongs section k ref) l) acc
  | None => filter (belongs section k ref) l = []
  end.
Proof.
  induction l as [|[k' f] l IH] using rev_ind; [done|].
  rewrite filter_app. destruct (decide (belongs section k ref (k', f))) as [Hb|Hb].
  - rewrite filter_cons_True by done. cbn [filter list_filter].
    rewrite acc_of_findings_snoc, fmap_app. cbn [snd fmap list_fmap].
    destruct Hb as (Hs & <- & <-). apply acc_ok_finding; [done|]. cbn [snd fst] in *.
    destruct (acc_of_findings section _) eqn:E; cbn [from_option id]; [done|].
    rewrite IH. apply acc_ok_new.
  - rewrite filter_cons_False by done. cbn [filter list_filter]. by rewrite List.app_nil_r.
Qed.

(** The accumulator of [section], [k] and [ref] exists when a finding belongs
    to it, and holds what the findings that belong to it say. *)
Lemma acc_at_scans_ok scans section k ref acc :
  acc_at (ba_byStatus (scan_all scans)) section k ref = Some acc →
  acc_ok section ref (snd <$> filter (belongs section k ref) (kept_findings scans)) acc.
Proof.
  rewrite acc_at_scans. intros E.
  pose proof (acc_of_findings_ok section k ref (kept_findings scans)) as H. by rewrite E in H.
Qed.

Lemma acc_at_scans_is_Some scans section k ref :
  is_Some (acc_at (ba_byStatus (scan_all scans)) section k ref) ↔
  ∃ f, (k, f) ∈ kept_findings scans ∧ sectionOf (fi_Status f) = Some section ∧ finding_PackageRef f = ref.
Proof.
  rewrite acc_at_scans. split.
  - destruct (filter _ _) as [|[k' f] l] eqn:E; [by intros [? ?]|]. intros _. exists f.
    assert (Hin : (k', f) ∈ filter (belongs section k ref) (kept_findings scans)) by (rewrite E; left).
    apply list_elem_of_filter in Hin as [(Hs & Hk & Hr) Hin]. cbn in *. by subst.
  - intros (f & Hin & Hs & Hr).
    assert (Hf : (k, f) ∈ filter (belongs section k ref) (kept_findings scans))
      by by apply list_elem_of_filter.
    destruct (filter _ _) as [|p l]; [by apply not_elem_of_nil in Hf|]. by eexists.
Qed.

(** *** The identity of an entity *)

Lemma meta_key scans k m : ba_meta (scan_all scans) !! k = Some m → is_Key (em_subject m) = k.2.
Proof.
  revert k m. induction scans as [|s scans IH] using rev_ind; [done|]. intros k m.
  rewrite scan_all_app. unfold scan_step. destruct (sn_Err s); [apply IH|]. cbn [ba_meta].
  rewrite lookup_insert_Some. intros [[<- <-]|[_ Hm]]; [done|by apply IH].
Qed.

Lemma kept_scan scans k f :
  (k, f) ∈ kept_findings scans → ∃ s, s ∈ scans ∧ k = (sn_Image s, is_Key (sn_Subject s)).
Proof.
  unfold kept_findings. rewrite list_elem_of_join. intros (l & Hin & (s & -> & Hs)%list_elem_of_fmap).
  exists s. split; [done|]. unfold scan_findings in Hin.
  destruct (sn_Err s); [by apply not_elem_of_nil in Hin|]. by apply list_elem_of_fmap in Hin as (? & [= -> _] & _).
Qed.

(** An entity of a section has a finding. *)
Lemma section_entity_kept scans section images k pkgs :
  ba_byStatus (scan_all scans) !! section = Some images → images !! k = Some pkgs →
  ∃ f, (k, f) ∈ kept_findings scans.
Proof.
  intros E1 E2.
  assert (Hne : pkgs ≠ ∅).
  { revert section images k pkgs E1 E2. rewrite byStatus_fold.
    induction (kept_findings scans) as [|[k0 f] l IH] using rev_ind; [done|].
    rewrite foldl_app. cbn [foldl fst snd]. set (m := foldl _ ∅ l) in *. clearbody m.
    intros section images k pkgs. unfold add_finding.
    destruct (sectionOf (fi_Status f)) as [sec|]; [|apply IH].
    rewrite lookup_insert_Some. intros [[<- <-]|[_ E1]]; [|by eapply IH].
    rewrite lookup_insert_Some. intros [[<- <-]|[_ E2]]; [apply insert_non_empty|].
    destruct (m !! sec) as [images|] eqn:E; [|done]. by eapply IH. }
  destruct (map_choose pkgs Hne) as (ref & acc & E3).
  destruct (proj1 (acc_at_scans_is_Some scans section k ref)) as (f & Hf & _); [|by exists f].
  exists acc. unfold acc_at. rewrite E1. cbn [mbind option_bind]. by rewrite E2.
Qed.

Lemma meta_kept scans k f : (k, f) ∈ kept_findings scans → is_Some (ba_meta (scan_all scans) !! k).
Proof.
  induction scans as [|s scans IH] using rev_ind; [by intros ?%not_elem_of_nil|].
  rewrite kept_app, elem_of_app, scan_all_app. unfold scan_step, scan_findings.
  destruct (sn_Err s); cbn [ba_meta]; [intros [Hin|?%not_elem_of_nil]; [auto|done]|].
  rewrite lookup_insert_is_Some'. intros [Hin|(? & [= -> _] & _)%list_elem_of_fmap]; auto.
Qed.

(** *** Sections *)

Lemma Add_zero c : Add zero_counts c = c.
Proof. by destruct c. Qed.

Section sections.
Context `{R : MapRange} `{GoUnicodeUpper}.

Lemma sectionOf_four s section :
  sectionOf s = Some section →
  section = StatusFixed ∨ section = StatusAffected ∨ section = StatusWontFix ∨ section = StatusEndOfLife.
Proof.
  unfold sectionOf. destruct (String.eqb_spec s StatusFixed); cbn [orb]; [naive_solver|].
  destruct (String.eqb_spec s StatusWontFix); cbn [orb]; [naive_solver|].
  destruct (String.eqb_spec s StatusEndOfLife); [naive_solver|].
  destruct (String.eqb s StatusNotAffected); naive_solver.
Qed.

(** The groups of a section are the accumulators of its status. *)
Lemma elem_of_section_named scans containers tr now section img :
  img ∈ section_named (Build scans containers tr now) section ↔
  (section = StatusFixed ∨ section = StatusAffected ∨ section = StatusWontFix ∨ section = StatusEndOfLife) ∧
  ∃ k images pkgs, ba_byStatus (scan_all scans) !! section = Some images ∧ images !! k = Some pkgs ∧
    img = section_image tr (indexContainers containers).1 (ba_meta (scan_all scans)) (k, pkgs).
Proof.
  assert (Hb : ∀ sec, img ∈ buildSection (default ∅ (ba_byStatus (scan_all scans) !! sec)) tr
      (indexContainers containers).1 (ba_meta (scan_all scans)) ↔
    ∃ k images pkgs, ba_byStatus (scan_all scans) !! sec = Some images ∧ images !! k = Some pkgs ∧
      img = section_image tr (indexContainers containers).1 (ba_meta (scan_all scans)) (k, pkgs)).
  { intros sec. unfold buildSection, sortImages. rewrite elem_of_sort_by, list_elem_of_fmap. split.
    - intros ([k pkgs] & -> & Hin%elem_of_map_range).
      destruct (ba_byStatus (scan_all scans) !! sec) as [images|]; [|done]. by exists k, images, pkgs.
    - intros (k & images & pkgs & E & Hk & ->). exists (k, pkgs). split; [done|].
      apply elem_of_map_range. by rewrite E. }
  unfold section_named, Build.
  destruct (String.eqb_spec section StatusFixed) as [->|]; [cbn [rp_Actionable]; rewrite Hb; naive_solver|].
  destruct (String.eqb_spec section StatusAffected) as [->|]; [cbn [rp_Watch]; rewrite Hb; naive_solver|].
  destruct (String.eqb_spec section StatusWontFix) as [->|]; [cbn [rp_WontFix]; rewrite Hb; naive_solver|].
  destruct (String.eqb_spec section StatusEndOfLife) as [->|]; [cbn [rp_EOLPackages]; rewrite Hb; naive_solver|].
  split; [by intros ?%not_elem_of_nil|naive_solver].
Qed.

Lemma elem_of_section_packages tr byKey meta k pkgs g :
  g ∈ if_Packages (section_image tr byKey meta (k, pkgs)) ↔
  ∃ ref acc, pkgs !! ref = Some acc ∧ g = finalize acc tr.
Proof.
  cbn [section_image if_Packages snd]. unfold sortPackages.
  rewrite elem_of_sort_by, list_elem_of_fmap. split.
  - intros ([ref acc] & -> & Hin%elem_of_map_range). by exists ref, acc.
  - intros (ref & acc & Hin & ->). exists (ref, acc). split; [done|]. by apply elem_of_map_range.
Qed.

(** Every group is [finalize] of the accumulator of its section, its entity
    and its package. *)
Lemma report_group_iff scans containers tr now section k ref g :
  (∃ img, img ∈ section_named (Build scans containers tr now) section ∧ entity_of img = k ∧
          g ∈ if_Packages img ∧ group_PackageRef g = ref) ↔
  ∃ acc, acc_at (ba_byStatus (scan_all scans)) section k ref = Some acc ∧ g = finalize acc tr.
Proof.
  assert (Hent : ∀ pkgs images kk rr acc, ba_byStatus (scan_all scans) !! section = Some images →
    images !! kk = Some pkgs → pkgs !! rr = Some acc →
    entity_of (section_image tr (indexContainers containers).1 (ba_meta (scan_all scans)) (kk, pkgs)) = kk ∧
    group_PackageRef (finalize acc tr) = rr ∧
    (section = StatusFixed ∨ section = StatusAffected ∨ section = StatusWontFix ∨ section = StatusEndOfLife)).
  { intros pkgs images kk rr acc E1 E2 E3.
    assert (Hacc : acc_at (ba_byStatus (scan_all scans)) section kk rr = Some acc).
    { unfold acc_at. rewrite E1. cbn [mbind option_bind]. by rewrite E2. }
    pose proof (acc_at_scans_ok _ _ _ _ _ Hacc) as Hok.
    destruct (proj1 (acc_at_scans_is_Some scans section kk rr) (ex_intro _ _ Hacc)) as (f & Hin & Hs & Hr).
    split; [|split].
    - destruct (meta_kept _ _ _ Hin) as [m Hm]. unfold entity_of. cbn [section_image if_Image if_Subject fst].
      rewrite Hm. cbn [from_option id]. rewrite (meta_key _ _ _ Hm). by destruct kk.
    - rewrite <- (ao_ref _ _ _ _ Hok). done.
    - by eapply sectionOf_four. }
  split.
  - intros (img & Himg & Hk & Hg & Hr).
    apply elem_of_section_named in Himg as (_ & k' & images & pkgs & E1 & E2 & ->).
    apply elem_of_section_packages in Hg as (ref' & acc & E3 & ->).
    destruct (Hent _ _ _ _ _ E1 E2 E3) as (Hk' & Hr' & _).
    rewrite Hk in Hk'. rewrite Hr in Hr'. subst k' ref'. exists acc. split; [|done].
    unfold acc_at. rewrite E1. cbn [mbind option_bind]. by rewrite E2.
  - intros (acc & Hacc & ->). unfold acc_at in Hacc.
    apply bind_Some in Hacc as (pkgs & (images & E1 & E2)%bind_Some & Hacc).
    destruct (Hent _ _ _ _ _ E1 E2 Hacc) as (Hk & Hr & Hfour).
    eexists. split; [|split; [exact Hk|split; [|exact Hr]]].
    + apply elem_of_section_named. split; [done|]. exists k, images, pkgs. repeat split; done.
    + apply elem_of_section_packages. by exists ref, acc.
Qed.

(** *** Groups *)

Lemma ta_Vulns_tally tr acc :
  ta_Vulns (tally_of tr acc) = (λ p, vuln_ref tr (pa_Status acc) p.1 p.2) <$> map_range (pa_vulns acc).
Proof.
  unfold tally_of. generalize (map_range (pa_vulns acc)). intros l.
  set (t0 := mk_tally zero_counts [] PriorityNone).
  change ((λ p : string * vulnInfo, vuln_ref tr (pa_Status acc) p.1 p.2) <$> l)
    with (ta_Vulns t0 ++ ((λ p : string * vulnInfo, vuln_ref tr (pa_Status acc) p.1 p.2) <$> l)).
  generalize t0. clear t0. induction l as [|p l IH]; intros t0; cbn [foldl fmap list_fmap].
  - by rewrite List.app_nil_r.
  - rewrite IH. cbn [tally_step ta_Vulns]. by rewrite <- List.app_assoc.
Qed.

Lemma elem_of_group_vulns tr acc v :
  v ∈ pg_Vulns (finalize acc tr) ↔
  ∃ id info, pa_vulns acc !! id = Some info ∧ v = vuln_ref tr (pa_Status acc) id info.
Proof.
  cbn [finalize pg_Vulns]. unfold sortVulns. rewrite elem_of_sort_by, ta_Vulns_tally, list_elem_of_fmap. split.
  - intros ([id info] & -> & Hin%elem_of_map_range). by exists id, info.
  - intros (id & info & Hin & ->). exists (id, info). split; [done|]. by apply elem_of_map_range.
Qed.

Lemma group_vulns_NoDup tr acc : NoDup (vr_ID <$> pg_Vulns (finalize acc tr)).
Proof.
  cbn [finalize pg_Vulns]. unfold sortVulns. rewrite sort_by_perm, ta_Vulns_tally, <- list_fmap_compose.
  apply (NoDup_map_range_keys (pa_vulns acc)).
Qed.

Lemma counts_Total_Add c d : counts_Total (Add c d) = counts_Total c + counts_Total d.
Proof. destruct c, d. cbn. unfold counts_Total. cbn. lia. Qed.

Lemma count_severity_one sev : counts_Total (count_severity sev) = 1.
Proof. unfold count_severity. repeat case_match; reflexivity. Qed.

Lemma group_total tr acc : group_Total (finalize acc tr) = length (pg_Vulns (finalize acc tr)).
Proof.
  cbn [finalize pg_Vulns]. unfold sortVulns. rewrite length_sort_by, ta_Vulns_tally, length_fmap.
  unfold group_Total, Counts. cbn [pg_Critical pg_High pg_Medium pg_Low pg_Unknown].
  assert (Ht : ∀ t l, counts_Total (ta_counts (foldl (tally_step tr (pa_Status acc)) t l)) =
    counts_Total (ta_counts t) + length l).
  { intros t l. revert t. induction l as [|p l IH]; intros t; cbn [foldl length]; [lia|].
    rewrite IH. cbn [tally_step ta_counts]. rewrite counts_Total_Add, count_severity_one. lia. }
  specialize (Ht (mk_tally zero_counts [] PriorityNone) (map_range (pa_vulns acc))).
  fold (tally_of tr acc) in Ht. cbn [ta_counts] in Ht. change (counts_Total zero_counts) with 0 in Ht.
  cbn [Nat.add] in Ht. rewrite <- Ht. unfold finalize, counts_Total. reflexivity.
Qed.

Lemma priority_fold tr status t l :
  let t' := foldl (tally_step tr status) t l in
  Rank (ta_Priority t) <= Rank (ta_Priority t') ∧
  Forall (λ p, Rank (vr_Priority (vuln_ref tr status p.1 p.2)) <= Rank (ta_Priority t')) l ∧
  (ta_Priority t' = ta_Priority t ∨
   Exists (λ p, ta_Priority t' = vr_Priority (vuln_ref tr status p.1 p.2)) l).
Proof.
  revert t. induction l as [|p l IH]; intros t; cbn [foldl]; [split_and!; auto|].
  destruct (IH (tally_step tr status t p)) as (Hle & Hall & Hex).
  assert (Hmax : Rank (ta_Priority t) <= Rank (ta_Priority (tally_step tr status t p)) ∧
    Rank (vr_Priority (vuln_ref tr status p.1 p.2)) <= Rank (ta_Priority (tally_step tr status t p)) ∧
    (ta_Priority (tally_step tr status t p) = ta_Priority t ∨
     ta_Priority (tally_step tr status t p) = vr_Priority (vuln_ref tr status p.1 p.2))).
  { cbn [tally_step ta_Priority]. case_match eqn:E; [apply Nat.ltb_lt in E|apply Nat.ltb_ge in E];
      split_and!; auto; lia. }
  destruct Hmax as (H1 & H2 & H3). split; [lia|]. split; [constructor; [lia|done]|].
  destruct Hex as [->|Hex]; [|right; by apply List.Exists_cons_tl].
  destruct H3 as [->|H3]; [by left|]. right. by apply List.Exists_cons_hd.
Qed.

End sections.

(** *** The image inventory *)

Definition failed_scan (s : ImageScan) : bool := match sn_Err s with Some _ => true | None => false end.
Definition config_scan (s : ImageScan) : bool :=
  is_Resolved (sn_Subject s) && String.eqb (dg_Kind (ek_Digest (is_Key (sn_Subject s)))) DigestConfig.

Definition obs_scan (a : obsAcc) (s : ImageScan) : obsAcc :=
  match sn_Err s with
  | Some _ => obs_failed (obs_identity a s)
  | None => obs_success (obs_identity a s) s
  end.

(** The scans of a reference. *)
Definition scans_of (ref : string) (scans : list ImageScan) : list ImageScan :=
  filter (λ s, sn_Image s = ref) scans.

Lemma scans_of_snoc ref scans s :
  scans_of ref (scans ++ [s]) = scans_of ref scans ++ (if decide (sn_Image s = ref) then [s] else []).
Proof.
  unfold scans_of. by rewrite filter_app.
Qed.

Lemma obs_lookup scans ref :
  ba_obs (scan_all scans) !! ref =
  match scans_of ref scans with [] => None | l => Some (foldl obs_scan zero_obs l) end.
Proof.
  induction scans as [|s scans IH] using rev_ind; [done|].
  rewrite scan_all_app, scans_of_snoc.
  assert (E : ba_obs (scan_step (scan_all scans) s) =
    <[sn_Image s := obs_scan (default zero_obs (ba_obs (scan_all scans) !! sn_Image s)) s]>
      (ba_obs (scan_all scans))).
  { unfold scan_step, obs_scan. by destruct (sn_Err s). }
  rewrite E. destruct (decide (sn_Image s = ref)) as [<-|Hne].
  - rewrite lookup_insert_eq, IH. destruct (scans_of (sn_Image s) scans) as [|s0 l]; [done|].
    cbn [app from_option id]. by rewrite app_comm_cons, foldl_app.
  - by rewrite lookup_insert_ne, List.app_nil_r.
Qed.

Record obs_ok (l : list ImageScan) (a : obsAcc) : Prop := mk_obs_ok {
  oo_total : oa_total a = length l;
  oo_failed : oa_failed a = length (filter (λ s, failed_scan s = true) l);
  oo_unconfirmed : oa_unconfirmed a =
    length (filter (λ s, negb (failed_scan s) && unconfirmed_scan s = true) l);
  oo_content : ∀ id, id ∈ oa_contentIDs a ↔
    ∃ s, s ∈ l ∧ config_scan s = true ∧ id = Digest_String (ek_Digest (is_Key (sn_Subject s)));
  oo_keys : ∀ k, k ∈ oa_entityKeys a ↔ ∃ s, s ∈ l ∧ is_Resolved (sn_Subject s) = true ∧ k = is_Key (sn_Subject s);
  oo_digests : ∀ d, d ∈ oa_registryDigests a ↔
    ∃ s, s ∈ l ∧ failed_scan s = false ∧ sn_Pinned s = true ∧ d ∈ sn_RegistryDigests s;
  oo_config : oa_anyWithoutConfig a = false ↔ Forall (λ s, config_scan s = true) l }.

Lemma elem_snoc_ex {A} (l : list A) x (P : A → Prop) :
  (∃ y, y ∈ l ++ [x] ∧ P y) ↔ (∃ y, y ∈ l ∧ P y) ∨ P x.
Proof.
  split.
  - intros (y & [Hy| ->%list_elem_of_singleton]%elem_of_app & HP); [left; by exists y|by right].
  - intros [(y & Hy & HP)|HP]; [exists y|exists x]; (split; [apply elem_of_app|done]);
      [by left|right; by apply list_elem_of_singleton].
Qed.

Lemma length_filter_snoc {A} (P : A → Prop) `{∀ x, Decision (P x)} l x :
  length (filter P (l ++ [x])) = length (filter P l) + (if decide (P x) then 1 else 0).
Proof.
  rewrite filter_app, length_app. f_equal. cbn [filter list_filter]. by destruct (decide (P x)).
Qed.

Lemma obs_ok_fold l : obs_ok l (foldl obs_scan zero_obs l).
Proof.
  induction l as [|s l IH] using rev_ind.
  { split; cbn [foldl zero_obs oa_total oa_failed oa_unconfirmed oa_contentIDs oa_entityKeys
      oa_registryDigests oa_anyWithoutConfig]; try done; set_solver. }
  rewrite foldl_app. cbn [foldl]. set (a := foldl obs_scan zero_obs l) in *. clearbody a.
  destruct IH as [Ht Hf Hu Hc Hk Hd Hw].
  assert (Hkeys : ∀ k, k ∈ (if is_Resolved (sn_Subject s) then {[is_Key (sn_Subject s)]} ∪ oa_entityKeys a
      else oa_entityKeys a) ↔
    ∃ s', s' ∈ l ++ [s] ∧ is_Resolved (sn_Subject s') = true ∧ k = is_Key (sn_Subject s')).
  { intros k. rewrite elem_snoc_ex, <- Hk. destruct (is_Resolved (sn_Subject s)); [set_solver|naive_solver]. }
  assert (Hids : ∀ id, id ∈ (if config_scan s then {[Digest_String (ek_Digest (is_Key (sn_Subject s)))]} ∪ oa_contentIDs a
      else oa_contentIDs a) ↔
    ∃ s', s' ∈ l ++ [s] ∧ config_scan s' = true ∧ id = Digest_String (ek_Digest (is_Key (sn_Subject s')))).
  { intros id. rewrite elem_snoc_ex, <- Hc. destruct (config_scan s); [set_solver|naive_solver]. }
  assert (Hcfg : oa_anyWithoutConfig a || negb (config_scan s) = false ↔
    Forall (λ s, config_scan s = true) (l ++ [s])).
  { rewrite Forall_app, Forall_singleton, orb_false_iff, negb_false_iff, Hw. done. }
  unfold obs_scan.
  destruct (sn_Err s) eqn:E; (split; [..|exact Hids|exact Hkeys| |exact Hcfg]);
    cbn [obs_failed obs_success obs_identity oa_total oa_failed oa_unconfirmed oa_registryDigests];
    rewrite ?length_filter_snoc, ?length_app; cbn [length].
  all: assert (Hfs : failed_scan s = match sn_Err s with Some _ => true | None => false end) by done;
    rewrite E in Hfs.
  - lia.
  - rewrite decide_True by done. lia.
  - rewrite decide_False by (by rewrite Hfs). lia.
  - intros d. rewrite elem_snoc_ex, Hd, Hfs. naive_solver.
  - lia.
  - rewrite decide_False by (by rewrite Hfs). lia.
  - rewrite Hfs. cbn [negb andb].
    destruct (unconfirmed_scan s); [rewrite decide_True by done|rewrite decide_False by done]; lia.
  - intros d. rewrite elem_snoc_ex, <- Hd, Hfs.
    destruct (sn_Pinned s); [rewrite elem_of_union, elem_of_list_to_set; naive_solver|naive_solver].
Qed.

Lemma nonempty_pos {A} (l : list A) : l ≠ [] → 0 < length l.
Proof. destruct l; [done|]. cbn. lia. Qed.

Lemma Ambiguous_size (X : gset EntityKey) :
  1 < size X ↔ ∃ x y, x ∈ X ∧ y ∈ X ∧ x ≠ y.
Proof.
  split.
  - intros Hs. destruct (size_pos_elem_of X) as [x Hx]; [lia|].
    destruct (set_choose_or_empty (X ∖ {[x]})) as [[y Hy]|He].
    { apply elem_of_difference in Hy as [Hy Hxy]. rewrite elem_of_singleton in Hxy.
      exists x, y. by split_and!. }
    assert (Hx' : X ⊆ {[x]}).
    { intros y Hy. destruct (decide (y = x)) as [->|Hne]; [by apply elem_of_singleton|].
      exfalso. apply (not_elem_of_empty (C:=gset EntityKey) y). apply He.
      by rewrite elem_of_difference, elem_of_singleton. }
    apply subseteq_size in Hx'. rewrite size_singleton in Hx'. lia.
  - intros (x & y & Hx & Hy & Hne). assert (Hsub : {[x]} ∪ {[y]} ⊆ X)
      by (intros z; rewrite elem_of_union, !elem_of_singleton; naive_solver).
    apply subseteq_size in Hsub. rewrite size_union, !size_singleton in Hsub; [lia|].
    intros z. rewrite !elem_of_singleton. congruence.
Qed.

Lemma length_filter_pos {A} (P : A → Prop) `{∀ x, Decision (P x)} l :
  0 < length (filter P l) ↔ Exists P l.
Proof.
  rewrite Exists_exists. split.
  - destruct (filter P l) as [|x k] eqn:E; cbn [length]; [lia|]. intros _.
    assert (Hx : x ∈ filter P l) by (rewrite E; left). apply list_elem_of_filter in Hx as [Hp Hx]. by exists x.
  - intros (x & Hx & Hp). assert (Hin : x ∈ filter P l) by by apply list_elem_of_filter.
    destruct (filter P l); [by apply not_elem_of_nil in Hin|cbn; lia].
Qed.

Lemma length_filter_full {A} (P : A → Prop) `{∀ x, Decision (P x)} l :
  length (filter P l) = length l ↔ Forall P l.
Proof.
  induction l as [|x l IH]; [done|].
  destruct (decide (P x)); [rewrite filter_cons_True by done|rewrite filter_cons_False by done]; cbn [length].
  - rewrite List.Forall_cons_iff, <- IH. naive_solver.
  - pose proof (length_filter P l). rewrite List.Forall_cons_iff. split; [lia|naive_solver].
Qed.

(** *** Independence of the order of a [range] *)

Section order.
Context (R1 R2 : MapRange) `{GoUnicodeUpper}.

Notation finalize1 := (@finalize R1 _).
Notation finalize2 := (@finalize R2 _).

Lemma Add_comm3 a b c : Add (Add a b) c = Add (Add a c) b.
Proof. destruct a, b, c. unfold Add. cbn. f_equal; lia. Qed.

Lemma counts_perm tr status t l k :
  l ≡ₚ k →
  ta_counts (foldl (tally_step tr status) t l) = ta_counts (foldl (tally_step tr status) t k).
Proof.
  set (f := λ c (p : string * vulnInfo), Add c (count_severity (vi_sev p.2))).
  assert (E : ∀ l t, ta_counts (foldl (tally_step tr status) t l) = foldl f (ta_counts t) l).
  { clear t l k. intros l. induction l as [|p l IH]; intros t; [done|]. cbn [foldl]. by rewrite IH. }
  rewrite !E. generalize (ta_counts t). intros c Hp. revert c.
  induction Hp as [|x l k _ IH|x y l|l m k _ IH1 _ IH2]; intros c; cbn [foldl]; [done|apply IH| |by rewrite IH1].
  unfold f. by rewrite Add_comm3.
Qed.

Definition valid_priority (p : string) : Prop := p ∈ [PriorityNone; PriorityLow; PriorityWatch; PriorityActNow].

Lemma Rank_inj p q : valid_priority p → valid_priority q → Rank p = Rank q → p = q.
Proof. unfold valid_priority. rewrite !elem_of_cons, !elem_of_nil. intros Hp Hq. by naive_solver. Qed.

Lemma priorityOf_valid tr sev e status : valid_priority (priorityOf tr sev e status).
Proof.
  unfold priorityOf, valid_priority. rewrite !elem_of_cons. repeat case_match; naive_solver.
Qed.

Lemma priority_perm tr status l k :
  l ≡ₚ k →
  ta_Priority (foldl (tally_step tr status) (mk_tally zero_counts [] PriorityNone) l) =
  ta_Priority (foldl (tally_step tr status) (mk_tally zero_counts [] PriorityNone) k).
Proof.
  intros Hp. pose proof (priority_fold tr status (mk_tally zero_counts [] PriorityNone) l) as (_ & Hl & Hxl).
  pose proof (priority_fold tr status (mk_tally zero_counts [] PriorityNone) k) as (_ & Hk & Hxk).
  set (p := ta_Priority (foldl _ _ l)) in *. set (q := ta_Priority (foldl _ _ k)) in *.
  clearbody p q. cbn [ta_Priority] in *.
  assert (Hv : ∀ r m, r = PriorityNone ∨
      Exists (λ x : string * vulnInfo, r = vr_Priority (vuln_ref tr status x.1 x.2)) m → valid_priority r).
  { intros r m [->|(x & _ & ->)%Exists_exists]; [by left|]. apply priorityOf_valid. }
  assert (Hle : ∀ r r' m m', m ≡ₚ m' → Forall (λ x : string * vulnInfo,
      Rank (vr_Priority (vuln_ref tr status x.1 x.2)) <= Rank r) m →
    (r' = PriorityNone ∨ Exists (λ x : string * vulnInfo, r' = vr_Priority (vuln_ref tr status x.1 x.2)) m') →
    Rank r' <= Rank r).
  { intros r r' m m' Hm Hall [->|(x & Hx & ->)%Exists_exists];
      [change (Rank PriorityNone) with 0; lia|].
    rewrite <- Hm in Hx. rewrite Forall_forall in Hall. by apply Hall. }
  apply Rank_inj; [by eapply Hv|by eapply Hv|].
  pose proof (Hle p q l k Hp Hl Hxk). pose proof (Hle q p k l (symmetry Hp) Hk Hxl). lia.
Qed.

(** The scores the intel gives are numbers. *)
Definition scores_ok (tr : Triage) : Prop :=
  ∀ id e, tr_Enrich tr !! id = Some e → is_number (en_EPSS e) = true.

Lemma vuln_ref_number tr status id info :
  scores_ok tr → is_number (vr_EPSS (vuln_ref tr status id info)) = true.
Proof.
  intros Hok. cbn [vuln_ref vr_EPSS]. destruct (tr_Enrich tr !! id) as [e|] eqn:E; [|done]. by apply (Hok id).
Qed.

Lemma finalize_order tr section ref fs acc :
  scores_ok tr → acc_ok section ref fs acc → finalize1 acc tr = finalize2 acc tr.
Proof.
  intros Hs Hok. pose proof (map_range_perm2 R1 R2 (pa_vulns acc)) as Hp. unfold finalize, tally_of.
  rewrite (counts_perm tr _ _ _ _ Hp), (priority_perm tr _ _ _ Hp).
  assert (Ev : sortVulns (ta_Vulns (@tally_of R1 _ tr acc)) = sortVulns (ta_Vulns (@tally_of R2 _ tr acc))).
  { rewrite !ta_Vulns_tally. apply (sort_by_cmp_unique _ cmp_vuln); [| |by apply fmap_Permutation].
    - intros x y (p & -> & _)%list_elem_of_fmap (q & -> & _)%list_elem_of_fmap.
      apply less_vuln_cmp; by apply vuln_ref_number.
    - intros x y ([id info] & -> & Hx%elem_of_map_range)%list_elem_of_fmap.
      intros ([id' info'] & -> & Hy%elem_of_map_range)%list_elem_of_fmap.
      unfold cmp_vuln, cmp_then, cmp_on. rewrite !lexc_eq. intros (_ & _ & _ & E%str_cmp_eq).
      cbn [vuln_ref vr_ID fst snd] in *. subst id'. by rewrite Hx in Hy; injection Hy as ->. }
  assert (Ei : sortInstances (@set_range R1 _ _ _ (pa_instances acc)) =
               sortInstances (@set_range R2 _ _ _ (pa_instances acc))).
  { apply (sort_by_cmp_unique _ cmp_instance); [by intros; apply less_instance_cmp| |apply set_range_perm2].
    intros x y Hx Hy. rewrite elem_of_set_range, (ao_instances _ _ _ _ Hok) in Hx, Hy.
    apply list_elem_of_fmap in Hx as (f & -> & _), Hy as (f' & -> & _).
    unfold cmp_instance, cmp_then, cmp_on. rewrite !lexc_eq. cbn [it_Type it_Target it_PkgPath].
    by intros (->%str_cmp_eq & ->%str_cmp_eq & ->%str_cmp_eq). }
  assert (El : sort_strings (@set_range R1 _ _ _ (pa_layers acc)) =
               sort_strings (@set_range R2 _ _ _ (pa_layers acc)))
    by apply sort_strings_perm, set_range_perm2.
  unfold tally_of in Ev. by rewrite Ev, Ei, El.
Qed.

Lemma section_packages_order tr section k images pkgs scans :
  scores_ok tr → ba_byStatus (scan_all scans) !! section = Some images → images !! k = Some pkgs →
  sortPackages ((λ q, finalize1 q.2 tr) <$> @map_range R1 _ _ _ _ pkgs) =
  sortPackages ((λ q, finalize2 q.2 tr) <$> @map_range R2 _ _ _ _ pkgs).
Proof.
  intros Hs E1 E2.
  assert (Hok : ∀ ref acc, pkgs !! ref = Some acc →
    acc_ok section ref (snd <$> filter (belongs section k ref) (kept_findings scans)) acc).
  { intros ref acc E3. apply acc_at_scans_ok. unfold acc_at. rewrite E1. cbn [mbind option_bind]. by rewrite E2. }
  assert (Ef : (λ q, finalize1 q.2 tr) <$> @map_range R1 _ _ _ _ pkgs =
               (λ q, finalize2 q.2 tr) <$> @map_range R1 _ _ _ _ pkgs).
  { apply list_fmap_ext. intros i [ref acc] Hi%list_elem_of_lookup_2%elem_of_map_range. cbn [snd].
    eapply finalize_order; [done|]. by eapply Hok. }
  rewrite Ef. apply (sort_by_cmp_unique _ cmp_group); [by intros; apply less_group_cmp| |].
  - intros x y ([r a] & -> & Hx%elem_of_map_range)%list_elem_of_fmap.
    intros ([r' a'] & -> & Hy%elem_of_map_range)%list_elem_of_fmap.
    unfold cmp_group, cmp_then, cmp_on. rewrite !lexc_eq.
    intros (_ & _ & Hn%str_cmp_eq & He%str_cmp_eq & Hv%str_cmp_eq & Hc%str_cmp_eq).
    pose proof (ao_ref _ _ _ _ (Hok _ _ Hx)) as Hr. pose proof (ao_ref _ _ _ _ (Hok _ _ Hy)) as Hr'.
    cbn [finalize pg_Package pg_Ecosystem pg_InstalledVer pg_Class snd] in *. unfold acc_ref in *.
    rewrite Hn, He, Hv, Hc, Hr' in Hr. subst r'. by rewrite Hx in Hy; injection Hy as ->.
  - apply fmap_Permutation, map_range_perm2.
Qed.

(** A key [EntityKeyOf] derives names its algorithm by its kind. *)
Definition key_ok (k : EntityKey) : Prop :=
  dg_Algorithm (ek_Digest k) = if String.eqb (dg_Kind (ek_Digest k)) "" then "" else "sha256".

Lemma cmpEntityKey_ok a b : key_ok a → key_ok b → cmpEntityKey a b = Eq → a = b.
Proof.
  unfold cmpEntityKey, cmp_then, cmp_on, key_ok. rewrite !lexc_eq. intros Ha Hb (H1 & H2 & H3 & H4 & H5).
  apply str_cmp_eq in H1, H2, H3, H4, H5.
  destruct a as [[ka aa ha] [oa ara va]], b as [[kb ab hb] [ob arb vb]]. cbn in *. subst. done.
Qed.

Lemma buildSection_order tr section byKey scans :
  scores_ok tr → Forall (λ s, key_ok (is_Key (sn_Subject s))) scans →
  @buildSection R1 _ (default ∅ (ba_byStatus (scan_all scans) !! section)) tr byKey (ba_meta (scan_all scans)) =
  @buildSection R2 _ (default ∅ (ba_byStatus (scan_all scans) !! section)) tr byKey (ba_meta (scan_all scans)).
Proof.
  intros Hs Hkeys.
  set (images := default ∅ _).
  assert (Him : ∀ k pkgs, images !! k = Some pkgs → ba_byStatus (scan_all scans) !! section = Some images).
  { unfold images. by destruct (ba_byStatus (scan_all scans) !! section). }
  clearbody images. unfold buildSection.
  assert (Ef : @section_image R1 _ tr byKey (ba_meta (scan_all scans)) <$> @map_range R1 _ _ _ _ images =
               @section_image R2 _ tr byKey (ba_meta (scan_all scans)) <$> @map_range R1 _ _ _ _ images).
  { apply list_fmap_ext. intros i [k pkgs] Hi%list_elem_of_lookup_2%elem_of_map_range.
    unfold section_image. f_equal. cbn [snd]. eapply section_packages_order; eauto. }
  rewrite Ef. apply (sort_by_cmp_unique _ cmp_findings); [by intros; apply less_findings_cmp| |].
  2: apply fmap_Permutation, map_range_perm2.
  assert (Hkey : ∀ k pkgs, (k, pkgs) ∈ @map_range R1 _ _ _ _ images →
    key_ok k.2 ∧ is_Key (em_subject (default zero_meta (ba_meta (scan_all scans) !! k))) = k.2).
  { intros k pkgs Hin%elem_of_map_range. pose proof (Him _ _ Hin) as E1.
    destruct (section_entity_kept _ _ _ _ _ E1 Hin) as [f Hf]. split.
    - apply kept_scan in Hf as (s & Hs' & ->). rewrite Forall_forall in Hkeys. by apply Hkeys.
    - destruct (meta_kept _ _ _ Hf) as [m Hm]. rewrite Hm. by eapply meta_key. }
  intros x y (p & -> & Hp)%list_elem_of_fmap (q & -> & Hq)%list_elem_of_fmap.
  destruct p as [k pkgs], q as [k' pkgs']. destruct (Hkey _ _ Hp) as [Hok E], (Hkey _ _ Hq) as [Hok' E'].
  unfold cmp_findings, cmp_then, cmp_on. rewrite !lexc_eq. intros (_ & _ & _ & H4%str_cmp_eq & H5).
  cbn [section_image if_Image if_Subject fst snd] in *. rewrite E, E' in H5.
  apply cmpEntityKey_ok in H5; [|done..].
  assert (k = k') as <- by (destruct k, k'; cbn in *; by subst).
  apply elem_of_map_range in Hp, Hq. by rewrite Hp in Hq; injection Hq as ->.
Qed.

Lemma buildInventory_order obs byRef :
  @buildInventory R1 obs byRef = @buildInventory R2 obs byRef.
Proof.
  unfold buildInventory.
  assert (Ef : @observation R1 byRef <$> @map_range R1 _ _ _ _ obs =
               @observation R2 byRef <$> @map_range R1 _ _ _ _ obs).
  { apply list_fmap_ext. intros i [ref a] _. unfold observation.
    by rewrite (sort_strings_perm _ _ (set_range_perm2 R1 R2 (oa_contentIDs (ref, a).2))),
      (sort_strings_perm _ _ (set_range_perm2 R1 R2 (oa_registryDigests (ref, a).2))). }
  rewrite Ef. apply (sort_by_cmp_unique _ (cmp_on io_Ref str_cmp)); [done| |].
  - intros x y ([ref a] & -> & Hx%elem_of_map_range)%list_elem_of_fmap.
    intros ([ref' a'] & -> & Hy%elem_of_map_range)%list_elem_of_fmap. unfold cmp_on. cbn [observation io_Ref fst].
    intros ->%str_cmp_eq. by rewrite Hx in Hy; injection Hy as ->.
  - apply fmap_Permutation, map_range_perm2.
Qed.

End order.

(** ** Properties *)

Section properties.
Context `{R : MapRange} `{GoUnicodeUpper}.

(** C37: no finding is lost and none is invented. A vulnerability is listed
    under a package of an entity in a section of the report exactly when some
    scan of that entity that succeeded found it there with a status of that
    section; the only findings left out are the [not_affected] ones. *)
Theorem Build_findings_exact scans containers tr now section k ref id :
  (∃ img g v, img ∈ section_named (Build scans containers tr now) section ∧ entity_of img = k ∧
     g ∈ if_Packages img ∧ group_PackageRef g = ref ∧ v ∈ pg_Vulns g ∧ vr_ID v = id) ↔
  (∃ s f, s ∈ scans ∧ sn_Err s = None ∧ k = (sn_Image s, is_Key (sn_Subject s)) ∧
     f ∈ sn_Findings s ∧ sectionOf (fi_Status f) = Some section ∧
     finding_PackageRef f = ref ∧ fi_VulnID f = id).
Proof.
  assert (Hkept : ∀ f, (k, f) ∈ kept_findings scans ↔
    ∃ s, s ∈ scans ∧ sn_Err s = None ∧ k = (sn_Image s, is_Key (sn_Subject s)) ∧ f ∈ sn_Findings s).
  { intros f. unfold kept_findings. rewrite list_elem_of_join. split.
    - intros (l & Hin & (s & -> & Hs)%list_elem_of_fmap). exists s. unfold scan_findings in Hin.
      destruct (sn_Err s); [by apply not_elem_of_nil in Hin|].
      by apply list_elem_of_fmap in Hin as (f' & [= -> ->] & Hf).
    - intros (s & Hs & He & -> & Hf). exists (scan_findings s). split; [|by apply list_elem_of_fmap_2].
      unfold scan_findings. rewrite He. by apply list_elem_of_fmap_2. }
  split.
  - intros (img & g & v & Himg & Hk & Hg & Hr & Hv & Hid).
    destruct (proj1 (report_group_iff scans containers tr now section k ref g)) as (acc & Hacc & ->);
      [by exists img|].
    apply elem_of_group_vulns in Hv as (id' & info & Hi & ->). cbn [vuln_ref vr_ID] in Hid. subst id'.
    pose proof (acc_at_scans_ok _ _ _ _ _ Hacc) as Hok.
    pose proof (proj1 (ao_vulns _ _ _ _ Hok id) (ex_intro _ _ Hi)) as Hin.
    apply list_elem_of_fmap in Hin as (f & -> & Hin).
    apply list_elem_of_fmap in Hin as ([k' f'] & -> & Hin).
    apply list_elem_of_filter in Hin as [(Hs & Hk' & Hr') Hin]. cbn [fst snd] in *. subst k'.
    apply Hkept in Hin as (s & Hs' & He & Hk' & Hf). by exists s, f'.
  - intros (s & f & Hs & He & Hk & Hf & Hsec & Hr & Hid).
    assert (Hin : (k, f) ∈ kept_findings scans) by (apply Hkept; by exists s).
    destruct (proj2 (acc_at_scans_is_Some scans section k ref)) as [acc Hacc]; [by exists f|].
    pose proof (acc_at_scans_ok _ _ _ _ _ Hacc) as Hok.
    destruct (proj2 (ao_vulns _ _ _ _ Hok id)) as [info Hi].
    { apply list_elem_of_fmap. exists f. split; [done|]. apply list_elem_of_fmap. exists (k, f).
      split; [done|]. by apply list_elem_of_filter. }
    destruct (proj2 (report_group_iff scans containers tr now section k ref (finalize acc tr)))
      as (img & Himg & Hk' & Hg & Hr'); [by exists acc|].
    exists img, (finalize acc tr), (vuln_ref tr (pa_Status acc) id info). repeat split; try done.
    apply elem_of_group_vulns. by exists id, info.
Qed.

(** the counts and the priority of a package group are those of its
    vulnerabilities. Each vulnerability is listed once and counted once, under
    one severity; each has the priority the triage gives its severity, its
    enrichment and the group's status; and the group's priority is the highest
    of them. *)
Theorem Build_groups_consistent scans containers tr now section img g :
  img ∈ section_named (Build scans containers tr now) section → g ∈ if_Packages img →
  NoDup (vr_ID <$> pg_Vulns g) ∧ pg_Vulns g ≠ [] ∧ group_Total g = length (pg_Vulns g) ∧
  pg_Status g = section ∧
  (∀ v, v ∈ pg_Vulns g → Rank (vr_Priority v) <= Rank (pg_Priority g) ∧
    vr_Priority v =
      priorityOf tr (vr_Severity v) (default zero_enrichment (tr_Enrich tr !! vr_ID v)) section) ∧
  (tr_Enabled tr = true → ∃ v, v ∈ pg_Vulns g ∧ vr_Priority v = pg_Priority g).
Proof.
  intros Himg Hg.
  destruct (proj1 (report_group_iff scans containers tr now section (entity_of img) (group_PackageRef g) g))
    as (acc & Hacc & ->); [by exists img|].
  pose proof (acc_at_scans_ok _ _ _ _ _ Hacc) as Hok. pose proof (ao_status _ _ _ _ Hok) as Hst.
  pose proof (priority_fold tr (pa_Status acc) (mk_tally zero_counts [] PriorityNone)
    (map_range (pa_vulns acc))) as Hp. cbv zeta in Hp. fold (tally_of tr acc) in Hp.
  change (pg_Priority (finalize acc tr)) with (ta_Priority (tally_of tr acc)).
  destruct Hp as (_ & Hall & Hex). rewrite Forall_forall in Hall.
  assert (Hne : ∃ v, v ∈ pg_Vulns (finalize acc tr)).
  { destruct (proj1 (acc_at_scans_is_Some _ _ _ _) (ex_intro _ _ Hacc)) as (f & Hin & Hs & Hr).
    destruct (proj2 (ao_vulns _ _ _ _ Hok (fi_VulnID f))) as [info Hi].
    { apply list_elem_of_fmap. exists f. split; [done|]. apply list_elem_of_fmap.
      exists (entity_of img, f). split; [done|]. by apply list_elem_of_filter. }
    eexists. apply elem_of_group_vulns. by exists (fi_VulnID f), info. }
  split_and!.
  - apply group_vulns_NoDup.
  - intros E. destruct Hne as [v Hv]. rewrite E in Hv. by apply not_elem_of_nil in Hv.
  - apply group_total.
  - done.
  - intros v (id & info & Hi & ->)%elem_of_group_vulns. split; [|by rewrite <- Hst].
    apply (Hall (id, info)). by apply elem_of_map_range.
  - intros Hen. destruct Hex as [Hnone|Hex].
    + exfalso. destruct Hne as [v (id & info & Hi & ->)%elem_of_group_vulns].
      apply elem_of_map_range in Hi. specialize (Hall _ Hi). cbn [fst snd] in Hall. rewrite Hnone in Hall.
      cbn [ta_Priority vuln_ref vr_Priority] in Hall. unfold priorityOf in Hall. rewrite Hen in Hall.
      cbn [negb] in Hall. revert Hall. repeat case_match; vm_compute; lia.
    + apply Exists_exists in Hex as ([id info] & Hi%elem_of_map_range & E).
      eexists. split; [apply elem_of_group_vulns; exists id, info; split; [exact Hi|reflexivity]|].
      by rewrite E.
Qed.

(** the image inventory. It has one entry per scanned reference; a
    reference failed when all of its scans did, is partial when some but not
    all did or one could not be confirmed, and is ambiguous when two of its
    scans resolved to different entities; its content IDs are those its scans
    resolved, failed scans included. *)
Theorem Build_inventory scans containers tr now :
  let images := rp_Images (Build scans containers tr now) in
  NoDup (io_Ref <$> images) ∧
  (∀ ref, ref ∈ io_Ref <$> images ↔ ref ∈ sn_Image <$> scans) ∧
  (∀ o, o ∈ images →
    let l := scans_of (io_Ref o) scans in
    (io_ScanFailed o = true ↔ Forall (λ s, failed_scan s = true) l) ∧
    (io_Unconfirmed o = true ↔ Exists (λ s, negb (failed_scan s) && unconfirmed_scan s = true) l) ∧
    (io_PartialFailure o = true ↔
       (Exists (λ s, failed_scan s = true) l ∧ ¬ Forall (λ s, failed_scan s = true) l) ∨
       io_Unconfirmed o = true) ∧
    (io_Ambiguous o = true ↔ ∃ s s', s ∈ l ∧ s' ∈ l ∧ is_Resolved (sn_Subject s) = true ∧
       is_Resolved (sn_Subject s') = true ∧ is_Key (sn_Subject s) ≠ is_Key (sn_Subject s')) ∧
    (io_ConfigIdentityResolved o = true ↔ Forall (λ s, config_scan s = true) l) ∧
    (∀ id, id ∈ io_ContentIDs o ↔ ∃ s, s ∈ l ∧ config_scan s = true ∧
       id = Digest_String (ek_Digest (is_Key (sn_Subject s))))).
Proof.
  cbv zeta. unfold Build. cbn [rp_Images]. unfold buildInventory.
  set (obs := ba_obs (scan_all scans)). set (byRef := (indexContainers containers).2).
  assert (Hrefs : io_Ref <$> (observation byRef <$> map_range obs) = (map_range obs).*1)
    by (rewrite <- list_fmap_compose; done).
  split; [|split].
  - rewrite sort_by_perm, Hrefs. apply NoDup_map_range_keys.
  - intros ref. rewrite sort_by_perm, Hrefs, elem_of_map_range_keys. unfold obs. rewrite obs_lookup.
    rewrite list_elem_of_fmap. split.
    + intros [a Ha]. destruct (scans_of ref scans) as [|s l] eqn:E; [done|].
      assert (Hin : s ∈ scans_of ref scans) by (rewrite E; left).
      apply list_elem_of_filter in Hin as [<- Hin]. by exists s.
    + intros (s & -> & Hin). assert (Hs : s ∈ scans_of (sn_Image s) scans) by by apply list_elem_of_filter.
      destruct (scans_of (sn_Image s) scans); [by apply not_elem_of_nil in Hs|]. by eexists.
  - intros o. rewrite elem_of_sort_by.
    intros ([ref a] & -> & Hin%elem_of_map_range)%list_elem_of_fmap.
    unfold obs in Hin. rewrite obs_lookup in Hin. cbn [observation io_Ref fst snd io_ScanFailed io_Unconfirmed
      io_PartialFailure io_Ambiguous io_ConfigIdentityResolved io_ContentIDs].
    assert (Ha : a = foldl obs_scan zero_obs (scans_of ref scans) ∧ scans_of ref scans ≠ []).
    { destruct (scans_of ref scans); [done|]. by injection Hin as <-. }
    destruct Ha as [-> Hpos%nonempty_pos]. clear Hin. pose proof (obs_ok_fold (scans_of ref scans)) as Hok.
    set (a := foldl obs_scan zero_obs (scans_of ref scans)) in *. clearbody a.
    destruct Hok as [Ht Hf Hu Hc Hk Hd Hw].
    rewrite Ht, (proj2 (Nat.ltb_lt 0 _) Hpos). cbn [andb]. rewrite Hf, Hu.
    rewrite orb_true_iff, andb_true_iff, !Nat.ltb_lt, Nat.eqb_eq, negb_true_iff, length_filter_full,
      !length_filter_pos, Ambiguous_size.
    split_and!; try done.
    + rewrite <- (length_filter_full _ (scans_of ref scans)).
      pose proof (length_filter (λ s, failed_scan s = true) (scans_of ref scans)). intuition lia.
    + split.
      * intros (x & y & (s & Hs & Hrs & ->)%Hk & (s' & Hs' & Hrs' & ->)%Hk & Hne). by exists s, s'.
      * intros (s & s' & Hs & Hs' & Hrs & Hrs' & Hne).
        exists (is_Key (sn_Subject s)), (is_Key (sn_Subject s')). rewrite !Hk.
        split; [by exists s|]. split; [by exists s'|done].
    + intros id. rewrite elem_of_sort_strings, elem_of_set_range. apply Hc.
Qed.

End properties.

(** A report does not depend on the order in which Go visits its maps.
    Two runs of [Build] on the same scans give the same report, provided every
    exploitation score is a number and every entity key is one that
    [EntityKeyOf] derives. *)
Theorem Build_order_independent (R1 R2 : MapRange) `{GoUnicodeUpper} scans containers tr now :
  scores_ok tr → Forall (λ s, key_ok (is_Key (sn_Subject s))) scans →
  @Build R1 _ scans containers tr now = @Build R2 _ scans containers tr now.
Proof.
  intros Hs Hk. unfold Build. rewrite (buildInventory_order R1 R2).
  by rewrite !(buildSection_order R1 R2 tr _ _ _ Hs Hk).
Qed.

(** ** Witnesses *)

Definition example_finding (id sev status : string) : Finding :=
  mk_finding ClassOS "curl" "7.0" "7.1" status sev id "" "" "debian" "" "" "sha256:l".
Definition example_scan (image : string) (err : option string) (findings : list Finding) : ImageScan :=
  mk_scan image false findings err "" "" (mk_subject image zero_entity false) [] false SourceLocal []
    "" zero_platform [] false zero_entity "" "".
Definition example_triage : Triage :=
  mk_triage true (S754_finite false 1 (-3)) (S754_finite false 1 (-6)) ∅ ∅ (mk_intel true true 0).
Definition example_scans : list ImageScan :=
  [example_scan "app:1" None [example_finding "CVE-1" "HIGH" StatusFixed;
                              example_finding "CVE-2" "CRITICAL" StatusFixed;
                              example_finding "CVE-3" "LOW" StatusNotAffected];
   example_scan "db:1" (Some "pull failed") []].

Lemma Build_groups_consistent_witness :
  let r := Build example_scans [] example_triage 0 in
  let img := hd (mk_findings "" (mk_subject "" zero_entity false) false [] []) (rp_Actionable r) in
  let g := hd (example_group "" "" "") (if_Packages img) in
  group_Total g = length (pg_Vulns g) ∧ group_Total g = 2 ∧ pg_Priority g = PriorityWatch.
Proof.
  intros r img g. split; [|by vm_compute].
  refine (proj1 (proj2 (proj2 (Build_groups_consistent example_scans [] example_triage 0 StatusFixed img g _ _)))).
  - vm_compute. left.
  - vm_compute. left.
Defined.

Lemma Build_inventory_witness :
  io_Ref <$> rp_Images (Build example_scans [] example_triage 0) = ["app:1"; "db:1"] ∧
  NoDup (io_Ref <$> rp_Images (Build example_scans [] example_triage 0)).
Proof.
  split; [by vm_compute|].
  apply (Build_inventory example_scans [] example_triage 0).
Defined.

Lemma Build_order_independent_witness :
  let reversed : MapRange := {| map_range K EK CK V m := rev (map_to_list m);
                                map_range_perm K EK CK V m := symmetry (Permutation_rev (map_to_list m)) |} in
  @Build map_range_default _ example_scans [] example_triage 0 =
  @Build reversed _ example_scans [] example_triage 0.
Proof.
  intros reversed. apply (Build_order_independent map_range_default reversed).
  - intros id e He. cbn [example_triage tr_Enrich] in He. by rewrite lookup_empty in He.
  - by repeat (apply List.Forall_cons; [reflexivity|]).
Defined.
