(* ===== verification/State.v ===== *)
(** * What is remembered between scan cycles

    internal/state/state.go: the persisted state, its keys, the changes a diff
    reports, and the helpers of [Compute] on sets of identifiers. [Retag.v]
    models retag.go and [Compute.v] the diff itself. *)

From Stdlib Require Import ZArith Lia Bool Ascii String List Permutation Floats.SpecFloat.
From stdpp Require Import base countable gmap strings list.
From S2P Require Import Prelude GoStrings GoTime Reference Inventory Triage Report.

Open Scope string_scope.
Open Scope Z_scope.
Open Scope nat_scope.
Open Scope list_scope.

(** ** Data *)

Definition version : Z := 1.

Record Entry := mk_entry {
  ent_FirstSeen : Z; ent_Fixable : bool; ent_Priority : string; ent_VulnIDs : list string;
  ent_ContentID : string }.
Definition zero_entry : Entry := mk_entry 0 false "" [] "".

Record EOLEntry := mk_eol_entry {
  eol_FirstSeen : Z; eol_Priority : string; eol_VulnIDs : list string }.
Definition zero_eol_entry : EOLEntry := mk_eol_entry 0 "" [].

Record ImageMeta := mk_image_meta {
  im_ContentIDs : list string; im_RegistryDigests : list string; im_Ambiguous : bool;
  im_LastSeen : Z; im_Workloads : list string }.

Record EnvironmentRecord := mk_env_record { er_Name : string; er_Kind : string }.
Record ReportRef := mk_report_ref { rr_Channel : string; rr_TS : string; rr_Permalink : string }.

(** A nil map of the code is the empty map. *)
Record State := mk_state {
  st_Version : Z; st_Findings : gmap string Entry; st_EOSL : gmap string Z;
  st_EOLPackages : gmap string EOLEntry; st_Images : gmap string ImageMeta;
  st_LastFullReport : option ReportRef; st_Muted : gmap string bool;
  st_Environment : option EnvironmentRecord }.

Definition ValidFor (r : option ReportRef) (channel : string) : bool :=
  match r with
  | Some r => negb (String.eqb (rr_TS r) "") && negb (String.eqb (rr_Permalink r) "") &&
              String.eqb (rr_Channel r) channel
  | None => false
  end.

Definition empty_state : State := mk_state version ∅ ∅ ∅ ∅ None ∅ None.

(** ** Keys *)

Definition tab : ascii := "009"%char.
Definition key (image pkg : string) : string := image +:+ String tab pkg.

Definition keyImage (k : string) : string :=
  match index_byte k tab with Some i => stake i k | None => k end.
Definition keyPackage (k : string) : string :=
  match index_byte k tab with Some i => sdrop (S i) k | None => "" end.

(** ** Lookups *)

(** [m[k]] of a [map[string]bool]. *)
Definition flag (m : gmap string bool) (k : string) : bool := default false (m !! k).

Definition FirstSeen (s : State) (image pkg : string) : option Z :=
  ent_FirstSeen <$> st_Findings s !! key image pkg.
Definition EOLFirstSeen (s : State) (image pkg : string) : option Z :=
  eol_FirstSeen <$> st_EOLPackages s !! key image pkg.

Section range.
Context `{MapRange}.

(** [for k := range m], the keys only. *)
Definition range_keys `{Countable K} {V} (m : gmap K V) : list K := (map_range m).*1.

Definition HasFindingsFor (s : State) (ref : string) : bool :=
  existsb (λ k, String.eqb (keyImage k) ref) (range_keys (st_Findings s)) ||
  existsb (λ k, String.eqb (keyImage k) ref) (range_keys (st_EOLPackages s)).

(** [sortedIDs] *)
Definition sortedIDs (set : gset string) : list string := sort_strings (set_range set).

End range.

(** ** Loading and saving

    [read] is what reading the file gives, [unmarshal] is encoding/json. *)

Inductive file_read := NotExist | ReadError | Data (data : string).

Definition Load (unmarshal : string → option State) (read : file_read) : State * bool :=
  match read with
  | NotExist => (empty_state, false)
  | ReadError => (empty_state, true)
  | Data d =>
      match unmarshal d with
      | None => (empty_state, true)
      | Some st => if negb (st_Version st =? version)%Z then (empty_state, false) else (st, false)
      end
  end.

(** The state [Save] writes. *)
Definition Save (env : Environment) (st : State) : State :=
  mk_state (st_Version st) (st_Findings st) (st_EOSL st) (st_EOLPackages st) (st_Images st)
    (st_LastFullReport st) (st_Muted st)
    (if negb (String.eqb (env_Name env) "") then Some (mk_env_record (env_Name env) (env_Kind env)) else None).

(** ** The diff *)

Definition KindNew : string := "new".
Definition KindEscalated : string := "escalated".
Definition KindNewCVEs : string := "new_cves".
Definition KindNowFixable : string := "now_fixable".
Definition KindUnmuted : string := "unmuted".

Record Change := mk_change {
  ch_Image : string; ch_Package : string; ch_Kind : string; ch_NewCVEs : nat; ch_NewIDs : list string;
  ch_Groups : list PackageGroup; ch_EOLGroups : list PackageGroup }.

Record Resolved := mk_resolved { rs_Image : string; rs_Package : string }.

Definition EOLKindNew : string := "eol_new".
Definition EOLKindNewCVEs : string := "eol_new_cves".
Definition EOLKindEscalated : string := "eol_escalated".

Record EOLChange := mk_eol_change {
  ec_Image : string; ec_Package : string; ec_Kind : string; ec_NewIDs : list string;
  ec_Groups : list PackageGroup }.
Record ResolvedEOL := mk_resolved_eol { re_Image : string; re_Package : string; re_StillOpen : bool }.
Record ImageReplacement := mk_replacement {
  ip_Ref : string; ip_PrevContentIDs : list string; ip_ContentIDs : list string }.
Record RefChange := mk_ref_change {
  rc_Repository : string; rc_PreviousRef : string; rc_Ref : string; rc_Workloads : list string }.

Record Diff := mk_diff {
  df_NewEOSL : list string; df_ResolvedEOSL : list string; df_Changes : list Change;
  df_Resolved : list Resolved; df_Replaced : list ImageReplacement; df_RefChanges : list RefChange;
  df_OpenCritical : nat; df_OpenHigh : nat; df_OpenSevMedium : nat; df_OpenSevLow : nat;
  df_OpenSevUnknown : nat; df_OpenImages : nat; df_OldestOpen : Z;
  df_OpenActNow : nat; df_OpenWatch : nat; df_OpenLow : nat; df_OldestUrgent : Z;
  df_NewEOLPackages : list EOLChange; df_ResolvedEOLPackages : list ResolvedEOL;
  df_OpenEOSL : list string; df_OpenEOLPackages : nat; df_AnyOpen : bool }.

Definition nonempty {A} (l : list A) : bool := match l with [] => false | _ => true end.

Definition HasChanges (d : Diff) : bool :=
  nonempty (df_Changes d) || nonempty (df_Resolved d) || nonempty (df_NewEOSL d) ||
  nonempty (df_ResolvedEOSL d) || nonempty (df_Replaced d) || nonempty (df_RefChanges d) ||
  nonempty (df_NewEOLPackages d) || nonempty (df_ResolvedEOLPackages d).

(** float64 arithmetic, as [spec_float] with the parameters of binary64. *)
Definition float64 (z : Z) : spec_float := binary_normalize 53 1024 z 0 false.

(** [d.Hours()]: whole hours plus the rest as a fraction. *)
Definition Hours (d : Z) : spec_float :=
  SFadd 53 1024 (float64 (Z.quot d Hour)) (SFdiv 53 1024 (float64 (Z.rem d Hour)) (float64 Hour)).

(** [int(f)] truncates towards zero (no infinity or NaN arises here). *)
Definition float_trunc (f : spec_float) : Z :=
  match f with
  | S754_finite s m e =>
      let n := if (0 <=? e)%Z then Z.shiftl (Zpos m) e else Z.shiftr (Zpos m) (- e) in
      if s then (- n)%Z else n
  | _ => 0%Z
  end.

Definition wholeDays (t now : Z) : Z :=
  if IsZero t then 0%Z
  else
    let days := float_trunc (SFdiv 53 1024 (Hours (Sub now t)) (float64 24)) in
    if (days <? 0)%Z then 0%Z else days.
Definition OldestOpenDays (d : Diff) (now : Z) : Z := wholeDays (df_OldestOpen d) now.
Definition OldestUrgentDays (d : Diff) (now : Z) : Z := wholeDays (df_OldestUrgent d) now.

(** ** Sets of identifiers *)

(** The loops of [mergeSorted]: what is not seen yet, in order. *)
Fixpoint unseen (l : list string) (seen : gset string) : list string :=
  match l with
  | [] => []
  | id :: l' => if bool_decide (id ∈ seen) then unseen l' seen else id :: unseen l' ({[id]} ∪ seen)
  end.
Definition mergeSorted (a b : list string) : list string := sort_strings (unseen (a ++ b) ∅).

Definition newIDs (ids prev : list string) : list string :=
  let seen : gset string := list_to_set prev in
  filter (λ id, id ∉ seen) ids.

(** The loop index of [intersectSorted] advances in one list or both. *)
Fixpoint intersect_fuel (fuel : nat) (a b : list string) : list string :=
  match fuel with
  | O => []
  | S fuel' =>
      match a, b with
      | x :: a', y :: b' =>
          if String.eqb x y then x :: intersect_fuel fuel' a' b'
          else if str_lt x y then intersect_fuel fuel' a' b
          else intersect_fuel fuel' a b'
      | _, _ => []
      end
  end.
Definition intersectSorted (a b : list string) : list string := intersect_fuel (length a + length b) a b.

Fixpoint equalStrings (a b : list string) : bool :=
  match a, b with
  | [], [] => true
  | x :: a', y :: b' => String.eqb x y && equalStrings a' b'
  | _, _ => false
  end.

Definition urgent (p : string) : bool := String.eqb p PriorityActNow || String.eqb p PriorityWatch.

Definition allMuted (groups : list PackageGroup) : bool :=
  match groups with [] => false | _ => forallb pg_Muted groups end.

(** [carryMuted(next, prev, k)] *)
Definition carryMuted (next prev : gmap string bool) (k : string) : gmap string bool :=
  if flag prev k then <[k := true]> next else next.

(** ** Lemmas *)

Lemma elem_of_unseen id l seen : id ∈ unseen l seen ↔ id ∈ l ∧ id ∉ seen.
Proof.
  revert seen. induction l as [|x l IH]; intros seen; cbn [unseen].
  - split; [by intros ?%not_elem_of_nil|by intros [?%not_elem_of_nil _]].
  - case_bool_decide as Hx.
    + rewrite IH, elem_of_cons. naive_solver.
    + rewrite !elem_of_cons, IH, elem_of_union, elem_of_singleton.
      destruct (decide (id = x)) as [->|]; naive_solver.
Qed.

Lemma NoDup_unseen l seen : NoDup (unseen l seen).
Proof.
  revert seen. induction l as [|x l IH]; intros seen; cbn [unseen]; [constructor|].
  case_bool_decide; [apply IH|]. constructor; [|apply IH].
  rewrite elem_of_unseen, elem_of_union, elem_of_singleton. tauto.
Qed.

Lemma elem_of_mergeSorted id a b : id ∈ mergeSorted a b ↔ id ∈ a ∨ id ∈ b.
Proof. unfold mergeSorted. rewrite elem_of_sort_strings, elem_of_unseen, elem_of_app.
  split; [by intros [? _]|]. intros ?. split; [done|apply not_elem_of_empty]. Qed.

Lemma elem_of_newIDs id ids prev : id ∈ newIDs ids prev ↔ id ∈ ids ∧ id ∉ prev.
Proof. unfold newIDs. rewrite list_elem_of_filter, elem_of_list_to_set. tauto. Qed.

Lemma newIDs_nil ids prev : (∀ id, id ∈ ids → id ∈ prev) → newIDs ids prev = [].
Proof.
  intros H. destruct (newIDs ids prev) as [|x l] eqn:E; [done|].
  assert (Hx : x ∈ newIDs ids prev) by (rewrite E; left). apply elem_of_newIDs in Hx as [Hx Hn].
  by apply H in Hx.
Qed.

Lemma equalStrings_eq a b : equalStrings a b = true ↔ a = b.
Proof.
  revert b. induction a as [|x a IH]; intros [|y b]; cbn [equalStrings]; try done.
  rewrite andb_true_iff, String.eqb_eq, IH. naive_solver.
Qed.

Lemma elem_of_sortedIDs `{MapRange} id s : id ∈ sortedIDs s ↔ id ∈ s.
Proof. unfold sortedIDs. by rewrite elem_of_sort_strings, elem_of_set_range. Qed.

Lemma elem_of_range_keys `{MapRange} `{Countable K} {V} (m : gmap K V) k :
  k ∈ range_keys m ↔ is_Some (m !! k).
Proof. apply elem_of_map_range_keys. Qed.
