(* ===== verification/Retag.v ===== *)
(** * References that replace one another

    internal/state/retag.go: a workload that moves to another reference of the
    same repository keeps its recorded history. [pairRefChanges] finds the
    moves, [carryOverRefChanges] rewrites the previous state. *)

From Stdlib Require Import ZArith Lia Bool Ascii String List Permutation.
From stdpp Require Import base countable gmap strings list.
From S2P Require Import Prelude GoStrings GoRegexp GoText Reference Inventory Report Build State.

Open Scope string_scope.
Open Scope Z_scope.
Open Scope nat_scope.
Open Scope list_scope.

(** The loop over containers: each resolves, and to the entity of the first. *)
Fixpoint same_entity (first : option EntityKey) (l : list Container) : bool :=
  match l with
  | [] => true
  | c :: l' =>
      match EntityKeyOf (ct_Image c) with
      | None => false
      | Some k =>
          match first with
          | None => same_entity (Some k) l'
          | Some f => bool_decide (k = f) && same_entity first l'
          end
      end
  end.

Definition entityConfirmed (o : ImageObservation) : bool :=
  if io_ScanFailed o || io_PartialFailure o || io_Unconfirmed o || io_Ambiguous o ||
     (length (io_Containers o) =? 0) then false
  else same_entity None (io_Containers o).

(** Every value is appended under each of its keys. *)
Definition index_under (values : list (string * list string)) : gmap string (list string) :=
  foldl (λ m p, foldl (λ m w, append_at w p.1 m) m p.2) ∅ values.

Definition count_ref (m : gmap string nat) (ref : string) : gmap string nat :=
  <[ref := S (default 0 (m !! ref))]> m.

Definition less_ref_change (a b : RefChange) : bool :=
  if negb (String.eqb (rc_Ref a) (rc_Ref b)) then str_lt (rc_Ref a) (rc_Ref b)
  else str_lt (rc_PreviousRef a) (rc_PreviousRef b).

Section retag.
Context `{MapRange}.

Definition workloadKeys (containers : list Container) : list string :=
  sortedIDs (list_to_set (filter (λ k, k ≠ "") (WorkloadKey <$> containers))).

Definition hasHistory (prev : State) (ref : string) : bool :=
  match st_EOSL prev !! ref with
  | Some _ => true
  | None => HasFindingsFor prev ref ||
            existsb (λ k, String.eqb (keyImage k) ref) (range_keys (st_Muted prev))
  end.

Definition recorded_workloads (prev : State) (ref : string) : list string :=
  match st_Images prev !! ref with Some m => im_Workloads m | None => [] end.

Definition goneRefs (prev : State) (obs : list ImageObservation) : list string :=
  let observed : gset string := list_to_set (io_Ref <$> obs) in
  sort_strings (filter (λ ref, ref ∉ observed) (range_keys (st_Images prev))).

Definition appearedRefs (prev : State) (obs : list ImageObservation) : list (ImageObservation * list string) :=
  (λ o, (o, workloadKeys (io_Containers o))) <$> filter (λ o, st_Images prev !! io_Ref o = None) obs.

(** The inner loop body: one vanished and one appeared reference. *)
Definition candidate (prev : State) (oldRef : string) (a : ImageObservation * list string) : option RefChange :=
  match RepositoryKey oldRef, RepositoryKey (io_Ref a.1) with
  | Some oldRepo, Some newRepo =>
      if negb (String.eqb newRepo oldRepo) then None
      else
        let shared := intersectSorted (recorded_workloads prev oldRef) a.2 in
        if length shared =? 0 then None
        else Some (mk_ref_change (default "" (RepositoryOf (io_Ref a.1))) oldRef (io_Ref a.1) shared)
  | _, _ => None
  end.

Definition candidates (prev : State) (gone : list string) (appeared : list (ImageObservation * list string)) :
    list RefChange :=
  mjoin ((λ oldRef, omap (candidate prev oldRef) appeared) <$> gone).

Definition pairRefChanges (prev : State) (obs : list ImageObservation) : list RefChange :=
  let gone := goneRefs prev obs in
  let appeared := appearedRefs prev obs in
  if (length gone =? 0) || (length appeared =? 0) then []
  else
    let goneBy := index_under ((λ ref, (ref, recorded_workloads prev ref)) <$> gone) in
    let appearedBy := index_under ((λ a, (io_Ref a.1, a.2)) <$> appeared) in
    let byRef : gmap string ImageObservation := foldl (λ m a, <[io_Ref a.1 := a.1]> m) ∅ appeared in
    let cands := candidates prev gone appeared in
    let oldUses := foldl (λ m c, count_ref m (rc_PreviousRef c)) ∅ cands in
    let newUses := foldl (λ m c, count_ref m (rc_Ref c)) ∅ cands in
    let unique w := (length (default [] (goneBy !! w)) =? 1) && (length (default [] (appearedBy !! w)) =? 1) in
    let keep c :=
      if negb (default 0 (oldUses !! rc_PreviousRef c) =? 1) ||
         negb (default 0 (newUses !! rc_Ref c) =? 1) then false
      else if negb (forallb unique (rc_Workloads c)) then false
      else match byRef !! rc_Ref c with
           | Some o => entityConfirmed o && negb (hasHistory prev (rc_Ref c))
           | None => false
           end in
    sort_by less_ref_change (filter (λ c, keep c = true) cands).

(** ** Carrying history over *)

Definition moved_refs (changes : list RefChange) : gmap string string :=
  foldl (λ m c, <[rc_PreviousRef c := rc_Ref c]> m) ∅ changes.

Definition rekey (moved : gmap string string) (k : string) : string :=
  match moved !! keyImage k with Some n => key n (keyPackage k) | None => k end.

Definition move_entry (moved : gmap string string) (k : string) (e : Entry) : Entry :=
  match moved !! keyImage k with
  | Some _ => mk_entry (ent_FirstSeen e) (ent_Fixable e) (ent_Priority e) (ent_VulnIDs e) ""
  | None => e
  end.

(** [out[f(k)] = g(k, v)] for every [k, v] of a map. *)
Definition rebuild {V W} (f : string → string) (g : string → V → W) (m : gmap string V) : gmap string W :=
  foldl (λ acc p, <[f p.1 := g p.1 p.2]> acc) ∅ (map_range m).

Definition carryOverRefChanges (prev : State) (obs : list ImageObservation) : State * list RefChange :=
  let changes := pairRefChanges prev obs in
  if length changes =? 0 then (prev, [])
  else
    let moved := moved_refs changes in
    (mk_state (st_Version prev)
       (rebuild (rekey moved) (move_entry moved) (st_Findings prev))
       (rebuild (λ img, default img (moved !! img)) (λ _ t, t) (st_EOSL prev))
       (rebuild (rekey moved) (λ _ e, e) (st_EOLPackages prev))
       (foldl (λ acc p, match moved !! p.1 with Some _ => acc | None => <[p.1 := p.2]> acc end) ∅
          (map_range (st_Images prev)))
       (st_LastFullReport prev)
       (rebuild (rekey moved) (λ _ v, v) (st_Muted prev))
       (st_Environment prev), changes).

End retag.

(** ** Lemmas: keys *)

(** A key the program makes: a reference without a tab, a tab, a package. *)
Definition keyed (k : string) : Prop := contains_byte tab k = true.

Lemma keyImage_key image pkg : contains_byte tab image = false → keyImage (key image pkg) = image.
Proof.
  intros Hi. unfold keyImage, key. rewrite index_byte_app by done. apply stake_app.
Qed.

Lemma keyPackage_key image pkg : contains_byte tab image = false → keyPackage (key image pkg) = pkg.
Proof.
  intros Hi. unfold keyPackage, key. rewrite index_byte_app by done. apply sdrop_S_app.
Qed.

Lemma keyed_key image pkg : keyed (key image pkg).
Proof.
  unfold keyed, key. rewrite contains_byte_app. unfold contains_byte at 2. cbn [sexistsb].
  by rewrite Ascii.eqb_refl, orb_true_r.
Qed.

Lemma key_parts k : keyed k → k = key (keyImage k) (keyPackage k).
Proof.
  unfold keyed, key, keyImage, keyPackage. intros Hk.
  destruct (index_byte k tab) as [i|] eqn:E; [by apply index_byte_Some|].
  apply index_byte_None in E. congruence.
Qed.

Lemma key_inj k k' : keyed k → keyed k' → keyImage k = keyImage k' → keyPackage k = keyPackage k' → k = k'.
Proof. intros Hk Hk' Hi Hp. by rewrite (key_parts k Hk), (key_parts k' Hk'), Hi, Hp. Qed.

(** ** Lemmas: counting *)

Lemma count_ref_fold {A} (f : A → string) l ref :
  default 0 (foldl (λ m c, count_ref m (f c)) ∅ l !! ref) = length (filter (λ c, f c = ref) l).
Proof.
  induction l as [|c l IH] using rev_ind; [done|].
  rewrite foldl_app, length_filter_snoc, <- IH. cbn [foldl]. unfold count_ref.
  destruct (decide (f c = ref)) as [<-|Hne].
  - rewrite lookup_insert_eq. cbn [from_option id]. lia.
  - rewrite lookup_insert_ne by done. lia.
Qed.

Lemma length_filter_one {A} (P : A → Prop) `{∀ x, Decision (P x)} l x y :
  length (filter P l) = 1 → x ∈ l → y ∈ l → P x → P y → x = y.
Proof.
  intros H1 Hx Hy Hpx Hpy.
  assert (Hx' : x ∈ filter P l) by by apply list_elem_of_filter.
  assert (Hy' : y ∈ filter P l) by by apply list_elem_of_filter.
  destruct (filter P l) as [|z [|]]; try done.
  apply list_elem_of_singleton in Hx', Hy'. by subst.
Qed.

Lemma NoDup_fmap_inj_elem {A B} (f : A → B) l x y :
  NoDup (f <$> l) → x ∈ l → y ∈ l → f x = f y → x = y.
Proof.
  induction l as [|z l IH]; [by intros _ ?%not_elem_of_nil|]. cbn [fmap list_fmap].
  intros [Hz Hl]%NoDup_cons. rewrite !elem_of_cons. intros [->|Hx] [->|Hy] E; auto.
  - destruct Hz. rewrite E. by apply list_elem_of_fmap_2.
  - destruct Hz. rewrite <- E. by apply list_elem_of_fmap_2.
Qed.

Lemma filter_one_NoDup {A} (f : A → string) l :
  (∀ x, x ∈ l → length (filter (λ c, f c = f x) l) <= 1) → NoDup (f <$> l).
Proof.
  induction l as [|x l IH]; intros Hl; [constructor|]. cbn. constructor.
  - intros (y & Hxy & Hy)%list_elem_of_fmap. specialize (Hl x (list_elem_of_here _ _)).
    rewrite filter_cons_True in Hl by done. cbn [length] in Hl.
    assert (Hin : y ∈ filter (λ c, f c = f x) l) by by apply list_elem_of_filter.
    destruct (filter (λ c, f c = f x) l); [by apply not_elem_of_nil in Hin|cbn in Hl; lia].
  - apply IH. intros y Hy. specialize (Hl y (list_elem_of_further _ _ _ Hy)).
    etrans; [|exact Hl]. destruct (decide (f x = f y)).
    + rewrite filter_cons_True by done. cbn. lia.
    + by rewrite filter_cons_False.
Qed.

Lemma length_filter_filter {A} (P Q : A → Prop) `{∀ x, Decision (P x), ∀ x, Decision (Q x)} l :
  length (filter P (filter Q l)) <= length (filter P l).
Proof.
  induction l as [|x l IH]; [done|].
  destruct (decide (Q x)); [rewrite (filter_cons_True Q) by done|rewrite (filter_cons_False Q) by done];
    (destruct (decide (P x)); [rewrite !(filter_cons_True P) by done|rewrite !(filter_cons_False P) by done]);
    cbn [length]; lia.
Qed.

Lemma elem_of_index_under ref w vals :
  ref ∈ default [] (index_under vals !! w) ↔ ∃ p, p ∈ vals ∧ p.1 = ref ∧ w ∈ p.2.
Proof.
  assert (Hin : ∀ r ws (m : gmap string (list string)),
    ref ∈ default [] (foldl (λ m w, append_at w r m) m ws !! w) ↔
    ref ∈ default [] (m !! w) ∨ (r = ref ∧ w ∈ ws)).
  { intros r ws. induction ws as [|w' ws IH]; intros m; cbn [foldl].
    - rewrite elem_of_nil. tauto.
    - rewrite IH, elem_of_cons. unfold append_at. destruct (decide (w' = w)) as [->|Hne].
      + rewrite lookup_insert_eq. cbn [from_option id]. rewrite elem_of_app, list_elem_of_singleton. naive_solver.
      + rewrite lookup_insert_ne by done. naive_solver. }
  induction vals as [|p vals IH] using rev_ind; [split; [by intros ?%not_elem_of_nil|]|].
  { by intros (p & ?%not_elem_of_nil & _). }
  unfold index_under. rewrite foldl_app. cbn [foldl]. rewrite Hin. fold (index_under vals). rewrite IH.
  rewrite elem_snoc_ex. naive_solver.
Qed.

(** ** Lemmas: pairs *)

Section pairs.
Context `{R : MapRange}.

Lemma elem_of_goneRefs prev obs ref :
  ref ∈ goneRefs prev obs ↔ is_Some (st_Images prev !! ref) ∧ ref ∉ io_Ref <$> obs.
Proof.
  unfold goneRefs. rewrite elem_of_sort_strings, list_elem_of_filter, elem_of_range_keys, elem_of_list_to_set.
  tauto.
Qed.

Lemma elem_of_appearedRefs prev obs a :
  a ∈ appearedRefs prev obs ↔
  ∃ o, o ∈ obs ∧ st_Images prev !! io_Ref o = None ∧ a = (o, workloadKeys (io_Containers o)).
Proof.
  unfold appearedRefs. rewrite list_elem_of_fmap. split.
  - intros (o & -> & [Hn Ho]%list_elem_of_filter). by exists o.
  - intros (o & Ho & Hn & ->). exists o. split; [done|]. by apply list_elem_of_filter.
Qed.

Lemma candidate_Some prev old a c :
  candidate prev old a = Some c →
  rc_PreviousRef c = old ∧ rc_Ref c = io_Ref a.1 ∧ is_Some (RepositoryKey old) ∧
  RepositoryKey (io_Ref a.1) = RepositoryKey old ∧
  rc_Repository c = default "" (RepositoryOf (io_Ref a.1)) ∧
  rc_Workloads c = intersectSorted (recorded_workloads prev old) a.2 ∧ rc_Workloads c ≠ [].
Proof.
  unfold candidate. destruct (RepositoryKey old) as [oldRepo|]; [|done].
  destruct (RepositoryKey (io_Ref a.1)) as [newRepo|]; [|done].
  destruct (String.eqb_spec newRepo oldRepo) as [->|]; cbn [negb]; [|done].
  destruct (Nat.eqb_spec (length (intersectSorted (recorded_workloads prev old) a.2)) 0) as [|Hne]; [done|].
  intros [= <-]. cbn [rc_PreviousRef rc_Ref rc_Repository rc_Workloads].
  split_and!; try done. intros E. by rewrite E in Hne.
Qed.

Lemma elem_of_candidates prev gone appeared c :
  c ∈ candidates prev gone appeared ↔
  ∃ old a, old ∈ gone ∧ a ∈ appeared ∧ candidate prev old a = Some c.
Proof.
  unfold candidates. rewrite list_elem_of_join. split.
  - intros (l & Hc & (old & -> & Hold)%list_elem_of_fmap).
    apply list_elem_of_omap in Hc as (a & Ha & Hc). by exists old, a.
  - intros (old & a & Hold & Ha & Hc). exists (omap (candidate prev old) appeared).
    split; [apply list_elem_of_omap; by exists a|apply list_elem_of_fmap; by exists old].
Qed.

(** What the pairing has checked of a pair. *)
Record paired (prev : State) (obs : list ImageObservation) (c : RefChange) : Prop := mk_paired {
  pd_recorded : is_Some (st_Images prev !! rc_PreviousRef c);
  pd_gone : rc_PreviousRef c ∉ io_Ref <$> obs;
  pd_new : st_Images prev !! rc_Ref c = None;
  pd_confirmed : ∃ o, o ∈ obs ∧ io_Ref o = rc_Ref c ∧ entityConfirmed o = true ∧
    rc_Workloads c = intersectSorted (recorded_workloads prev (rc_PreviousRef c))
                       (workloadKeys (io_Containers o));
  pd_history : hasHistory prev (rc_Ref c) = false;
  pd_repository : is_Some (RepositoryKey (rc_Ref c)) ∧
    RepositoryKey (rc_Ref c) = RepositoryKey (rc_PreviousRef c) ∧
    rc_Repository c = default "" (RepositoryOf (rc_Ref c));
  pd_workloads : rc_Workloads c ≠ [];
  pd_gone_only : ∀ w ref, w ∈ rc_Workloads c → ref ∈ goneRefs prev obs →
    w ∈ recorded_workloads prev ref → ref = rc_PreviousRef c;
  pd_new_only : ∀ w o, w ∈ rc_Workloads c → o ∈ obs → st_Images prev !! io_Ref o = None →
    w ∈ workloadKeys (io_Containers o) → io_Ref o = rc_Ref c }.

Lemma elem_of_intersect_fuel n w a b : w ∈ intersect_fuel n a b → w ∈ a ∧ w ∈ b.
Proof.
  revert a b. induction n as [|n IH]; intros a b; cbn [intersect_fuel]; [by intros ?%not_elem_of_nil|].
  destruct a as [|x a]; [by intros ?%not_elem_of_nil|]. destruct b as [|y b]; [by intros ?%not_elem_of_nil|].
  destruct (String.eqb_spec x y) as [->|].
  - rewrite !elem_of_cons. intros [->|[]%IH]; auto.
  - destruct (str_lt x y); intros [Ha Hb]%IH; rewrite ?elem_of_cons in *; tauto.
Qed.

Lemma length_one_eq {A} (l : list A) x y : length l = 1 → x ∈ l → y ∈ l → x = y.
Proof.
  destruct l as [|z [|]]; try done. intros _ Hx Hy. apply list_elem_of_singleton in Hx, Hy. by subst.
Qed.

Lemma byRef_lookup (appeared : list (ImageObservation * list string)) ref o :
  foldl (λ m a, <[io_Ref a.1 := a.1]> m) (∅ : gmap string ImageObservation) appeared !! ref = Some o →
  ∃ a, a ∈ appeared ∧ a.1 = o ∧ io_Ref o = ref.
Proof.
  induction appeared as [|a l IH] using rev_ind; [done|]. rewrite foldl_app. cbn [foldl].
  rewrite lookup_insert_Some. intros [[<- <-]|[_ H]].
  - exists a. split; [|done]. apply elem_of_app. right. by apply list_elem_of_singleton.
  - destruct (IH H) as (a' & Ha & Hr). exists a'. split; [|done]. apply elem_of_app. by left.
Qed.

Lemma pairRefChanges_paired prev obs c :
  NoDup (io_Ref <$> obs) → c ∈ pairRefChanges prev obs → paired prev obs c.
Proof.
  intros Hnd. unfold pairRefChanges. destruct (_ || _); [by intros ?%not_elem_of_nil|].
  rewrite elem_of_sort_by, list_elem_of_filter. intros [Hkeep Hc].
  set (goneBy := index_under _) in Hkeep. set (appearedBy := index_under _) in Hkeep.
  destruct (_ || _); [done|]. destruct (forallb _ _) eqn:Hu; [|done]. cbn [negb] in Hkeep.
  destruct (foldl _ ∅ _ !! rc_Ref c) as [o|] eqn:Hby; [|done].
  apply andb_prop in Hkeep as [Hconf Hhist%negb_true_iff].
  apply elem_of_candidates in Hc as (old & a & Hold & Ha & Hcand).
  apply candidate_Some in Hcand as (Hp & Hr & Hs & Hrepo & Hrr & Hw & Hne). subst old.
  pose proof Ha as (o' & Ho' & Hnone & ->)%elem_of_appearedRefs. cbn [fst snd] in *.
  apply byRef_lookup in Hby as (a' & (o'' & Ho'' & Hn'' & ->)%elem_of_appearedRefs & <- & Hro). cbn [fst] in *.
  assert (o'' = o') as -> by (eapply (NoDup_fmap_inj_elem io_Ref obs); [done..|congruence]).
  rewrite forallb_forall in Hu. pose proof Hold as [Hrec Hobs]%elem_of_goneRefs.
  assert (Hws : ∀ w, w ∈ rc_Workloads c →
    w ∈ recorded_workloads prev (rc_PreviousRef c) ∧ w ∈ workloadKeys (io_Containers o')).
  { intros w Hin. rewrite Hw in Hin. by apply elem_of_intersect_fuel in Hin. }
  split; try done.
  - by rewrite Hr.
  - by exists o'.
  - rewrite Hr, Hrepo. split_and!; [done|done|]. by rewrite Hrr.
  - intros w ref Hwc Hg Hwr. specialize (Hu w (proj1 (list_elem_of_In _ _) Hwc)).
    apply andb_prop in Hu as [Hu _]. apply Nat.eqb_eq in Hu.
    eapply (length_one_eq _ _ _ Hu); apply elem_of_index_under.
    + exists (ref, recorded_workloads prev ref). split; [apply list_elem_of_fmap; by exists ref|done].
    + exists (rc_PreviousRef c, recorded_workloads prev (rc_PreviousRef c)).
      split; [apply list_elem_of_fmap; by exists (rc_PreviousRef c)|].
      split; [done|]. by apply Hws.
  - intros w o2 Hwc Ho2 Hn2 Hw2. specialize (Hu w (proj1 (list_elem_of_In _ _) Hwc)).
    apply andb_prop in Hu as [_ Hu]. apply Nat.eqb_eq in Hu.
    eapply (length_one_eq _ _ _ Hu); apply elem_of_index_under.
    + exists (io_Ref o2, workloadKeys (io_Containers o2)). split; [|done].
      apply list_elem_of_fmap. exists (o2, workloadKeys (io_Containers o2)). split; [done|].
      apply elem_of_appearedRefs. by exists o2.
    + exists (io_Ref o', workloadKeys (io_Containers o')). split; [|split; [by rewrite Hr|by apply Hws]].
      apply list_elem_of_fmap. by exists (o', workloadKeys (io_Containers o')).
Qed.

Lemma pairRefChanges_NoDup prev obs :
  NoDup (rc_PreviousRef <$> pairRefChanges prev obs) ∧ NoDup (rc_Ref <$> pairRefChanges prev obs).
Proof.
  unfold pairRefChanges. destruct (_ || _); [split; constructor|]. rewrite !sort_by_perm.
  set (cands := candidates _ _ _). set (keep := λ c : RefChange, _ = true).
  assert (Hk : ∀ c, keep c → length (filter (λ x, rc_PreviousRef x = rc_PreviousRef c) cands) = 1 ∧
    length (filter (λ x, rc_Ref x = rc_Ref c) cands) = 1).
  { intros c. unfold keep. rewrite !count_ref_fold.
    destruct (Nat.eqb_spec (length (filter (λ x, rc_PreviousRef x = rc_PreviousRef c) cands)) 1); [|done].
    destruct (Nat.eqb_spec (length (filter (λ x, rc_Ref x = rc_Ref c) cands)) 1); [|done]. done. }
  split; apply filter_one_NoDup; intros c [Hc _]%list_elem_of_filter; destruct (Hk c Hc) as [H1 H2];
    (etrans; [apply length_filter_filter|lia]).
Qed.

End pairs.

(** ** Lemmas: moving the history *)

Section moving.
Context `{R : MapRange}.

Lemma rebuild_lookup {V W} (f : string → string) (g : string → V → W) (m : gmap string V) k' w :
  (∀ k1 k2, is_Some (m !! k1) → is_Some (m !! k2) → f k1 = f k2 → k1 = k2) →
  rebuild f g m !! k' = Some w ↔ ∃ k v, m !! k = Some v ∧ k' = f k ∧ w = g k v.
Proof.
  intros Hinj.
  assert (H : ∀ l, NoDup l.*1 → (∀ p, p ∈ l → m !! p.1 = Some p.2) →
    foldl (λ acc p, <[f p.1 := g p.1 p.2]> acc) (∅ : gmap string W) l !! k' = Some w ↔
    ∃ p, p ∈ l ∧ k' = f p.1 ∧ w = g p.1 p.2).
  { induction l as [|p l IH] using rev_ind; intros Hnd Hl.
    { cbn [foldl]. rewrite lookup_empty. split; [done|]. by intros (p & ?%not_elem_of_nil & _). }
    rewrite foldl_app. cbn [foldl]. rewrite lookup_insert_Some.
    rewrite fmap_app in Hnd. apply NoDup_app in Hnd as (Hnd & Hdis & _).
    rewrite IH; [|done|intros q Hq; apply Hl, elem_of_app; by left]. split.
    - intros [[<- <-]|[_ (q & Hq & E)]].
      + exists p. split; [apply elem_of_app; right; by apply list_elem_of_singleton|done].
      + exists q. split; [apply elem_of_app; by left|exact E].
    - intros (q & [Hq| ->%list_elem_of_singleton]%elem_of_app & -> & ->); [right|by left].
      split; [|by exists q]. intros E. apply (Hdis q.1); [by apply list_elem_of_fmap_2|].
      cbn. apply list_elem_of_singleton. symmetry. apply Hinj; [| |done].
      + exists p.2. apply Hl, elem_of_app. right. by apply list_elem_of_singleton.
      + exists q.2. apply Hl, elem_of_app. by left. }
  unfold rebuild. rewrite H.
  - split.
    + intros ([k v] & Hin%elem_of_map_range & E). by exists k, v.
    + intros (k & v & Hm & E). exists (k, v). split; [|done]. by apply elem_of_map_range.
  - apply NoDup_map_range_keys.
  - intros [k v] Hin%elem_of_map_range. done.
Qed.

Lemma moved_refs_lookup changes old n :
  NoDup (rc_PreviousRef <$> changes) →
  moved_refs changes !! old = Some n ↔ ∃ c, c ∈ changes ∧ rc_PreviousRef c = old ∧ rc_Ref c = n.
Proof.
  intros Hnd. unfold moved_refs. induction changes as [|c l IH] using rev_ind.
  { cbn [foldl]. rewrite lookup_empty. split; [done|]. by intros (c & ?%not_elem_of_nil & _). }
  rewrite fmap_app in Hnd. apply NoDup_app in Hnd as (Hnd & Hdis & _).
  rewrite foldl_app. cbn [foldl]. rewrite lookup_insert_Some, (IH Hnd), elem_snoc_ex.
  split; [tauto|]. intros [(c' & Hc' & <- & <-)|E]; [right|by left].
  split; [|by exists c']. intros E. apply (Hdis (rc_PreviousRef c')); [by apply list_elem_of_fmap_2|].
  cbn. apply list_elem_of_singleton. by rewrite E.
Qed.

(** The keys of the state are keys the program makes. *)
Definition state_keyed (s : State) : Prop :=
  (∀ k, is_Some (st_Findings s !! k) → keyed k) ∧
  (∀ k, is_Some (st_EOLPackages s !! k) → keyed k) ∧
  (∀ k, is_Some (st_Muted s !! k) → keyed k).

Lemma hasHistory_false prev ref :
  hasHistory prev ref = false →
  st_EOSL prev !! ref = None ∧
  (∀ k, is_Some (st_Findings prev !! k) → keyImage k ≠ ref) ∧
  (∀ k, is_Some (st_EOLPackages prev !! k) → keyImage k ≠ ref) ∧
  (∀ k, is_Some (st_Muted prev !! k) → keyImage k ≠ ref).
Proof.
  assert (Hr : ∀ V (m : gmap string V), existsb (λ k, String.eqb (keyImage k) ref) (range_keys m) = false →
    ∀ k, is_Some (m !! k) → keyImage k ≠ ref).
  { intros V m Hm k Hk E. apply not_true_iff_false in Hm. apply Hm. apply existsb_exists.
    exists k. split; [by apply list_elem_of_In, elem_of_range_keys|]. by apply String.eqb_eq. }
  unfold hasHistory, HasFindingsFor. destruct (st_EOSL prev !! ref); [done|].
  intros [[H1 H2]%orb_false_iff H3]%orb_false_iff.
  split_and!; [done|by apply Hr..].
Qed.

Lemma repository_no_tab ref : is_Some (RepositoryKey ref) → contains_byte tab ref = false.
Proof.
  unfold RepositoryKey, RepositoryOf. intros [x Hx].
  destruct (splitReference ref) as [[[repo t] d]|] eqn:E; [|done].
  apply (bytes_contains reference_byte); [|by vm_compute].
  apply splitReference_bytes. by rewrite E.
Qed.

(** Keys under new references collide neither with one another nor with the
    keys that stay. *)
Lemma rekey_inj prev obs {V} (m : gmap string V) k1 k2 :
  NoDup (io_Ref <$> obs) → (∀ k, is_Some (m !! k) → keyed k) →
  (∀ c k, c ∈ pairRefChanges prev obs → is_Some (m !! k) → keyImage k ≠ rc_Ref c) →
  is_Some (m !! k1) → is_Some (m !! k2) →
  rekey (moved_refs (pairRefChanges prev obs)) k1 = rekey (moved_refs (pairRefChanges prev obs)) k2 →
  k1 = k2.
Proof.
  intros Hnd Hkeyed Hno H1 H2. destruct (pairRefChanges_NoDup prev obs) as [Hp Hr].
  assert (Hm : ∀ k n, moved_refs (pairRefChanges prev obs) !! keyImage k = Some n →
    ∃ c, c ∈ pairRefChanges prev obs ∧ rc_PreviousRef c = keyImage k ∧ rc_Ref c = n ∧
         contains_byte tab n = false).
  { intros k n (c & Hc & E1 & E2)%(moved_refs_lookup _ _ _ Hp). exists c. split_and!; try done.
    rewrite <- E2. apply repository_no_tab. by eapply pd_repository, pairRefChanges_paired. }
  unfold rekey.
  destruct (moved_refs (pairRefChanges prev obs) !! keyImage k1) as [n1|] eqn:E1;
    destruct (moved_refs (pairRefChanges prev obs) !! keyImage k2) as [n2|] eqn:E2; [..|done].
  - apply Hm in E1 as (c1 & Hc1 & P1 & N1 & T1), E2 as (c2 & Hc2 & P2 & N2 & T2). intros E.
    assert (n1 = n2) as En.
    { by rewrite <- (keyImage_key n1 (keyPackage k1) T1), E, keyImage_key. }
    assert (Hpk : keyPackage k1 = keyPackage k2).
    { by rewrite <- (keyPackage_key n1 (keyPackage k1) T1), E, keyPackage_key. }
    assert (c1 = c2) as -> by (eapply (NoDup_fmap_inj_elem rc_Ref); [exact Hr|done..|congruence]).
    apply key_inj; [by apply Hkeyed..|congruence|done].
  - apply Hm in E1 as (c1 & Hc1 & P1 & N1 & T1). intros E. exfalso.
    apply (Hno c1 k2 Hc1 H2). rewrite <- E, keyImage_key by done. done.
  - apply Hm in E2 as (c2 & Hc2 & P2 & N2 & T2). intros E. exfalso.
    apply (Hno c2 k1 Hc2 H1). rewrite E, keyImage_key by done. done.
Qed.

Lemma rebuild_id {V} (f : string → string) (g : string → V → V) (m : gmap string V) k' w :
  (∀ k, f k = k) → (∀ k v, g k v = v) →
  m !! k' = Some w ↔ ∃ k v, m !! k = Some v ∧ k' = f k ∧ w = g k v.
Proof.
  intros Hf Hg. split.
  - intros Hm. exists k', w. by rewrite Hf, Hg.
  - intros (k & v & Hm & -> & ->). by rewrite Hf, Hg.
Qed.

(** The four maps of a state after [carryOverRefChanges]. *)
Record carried (moved : gmap string string) (prev out : State) : Prop := mk_carried {
  cd_findings : ∀ k' e', st_Findings out !! k' = Some e' ↔
    ∃ k e, st_Findings prev !! k = Some e ∧ k' = rekey moved k ∧ e' = move_entry moved k e;
  cd_eol : ∀ k' e', st_EOLPackages out !! k' = Some e' ↔
    ∃ k e, st_EOLPackages prev !! k = Some e ∧ k' = rekey moved k ∧ e' = e;
  cd_muted : ∀ k' v', st_Muted out !! k' = Some v' ↔
    ∃ k v, st_Muted prev !! k = Some v ∧ k' = rekey moved k ∧ v' = v;
  cd_eosl : ∀ ref' t', st_EOSL out !! ref' = Some t' ↔
    ∃ ref t, st_EOSL prev !! ref = Some t ∧ ref' = default ref (moved !! ref) ∧ t' = t }.

Lemma carryOver_carried prev obs :
  NoDup (io_Ref <$> obs) → state_keyed prev →
  carried (moved_refs (pairRefChanges prev obs)) prev (carryOverRefChanges prev obs).1.
Proof.
  intros Hnd (Kf & Ke & Km). destruct (pairRefChanges_NoDup prev obs) as [Hp Hr].
  assert (Hno : ∀ c, c ∈ pairRefChanges prev obs → hasHistory prev (rc_Ref c) = false).
  { intros c Hc. by eapply pd_history, pairRefChanges_paired. }
  unfold carryOverRefChanges.
  destruct (Nat.eqb_spec (length (pairRefChanges prev obs)) 0) as [E|_]; cbn [fst].
  - apply length_zero_iff_nil in E. rewrite E. change (moved_refs []) with (∅ : gmap string string).
    assert (Hre : ∀ k, rekey ∅ k = k) by (intros k; unfold rekey; by rewrite lookup_empty).
    split; intros k' e'; apply rebuild_id; try done.
  - split; cbn [st_Findings st_EOLPackages st_Muted st_EOSL]; intros k' e'; apply rebuild_lookup; intros k1 k2 H1 H2.
    + apply (rekey_inj prev obs (st_Findings prev)); try done. intros c k Hc. by apply (hasHistory_false _ _ (Hno c Hc)).
    + apply (rekey_inj prev obs (st_EOLPackages prev)); try done. intros c k Hc. by apply (hasHistory_false _ _ (Hno c Hc)).
    + apply (rekey_inj prev obs (st_Muted prev)); try done. intros c k Hc. by apply (hasHistory_false _ _ (Hno c Hc)).
    + intros E.
      assert (Hm : ∀ k n, moved_refs (pairRefChanges prev obs) !! k = Some n →
        ∃ c, c ∈ pairRefChanges prev obs ∧ rc_PreviousRef c = k ∧ rc_Ref c = n ∧ st_EOSL prev !! n = None).
      { intros k n (c & Hc & E1 & E2)%(moved_refs_lookup _ _ _ Hp). exists c. split_and!; try done.
        rewrite <- E2. by apply hasHistory_false, Hno. }
      destruct (moved_refs _ !! k1) as [n1|] eqn:E1; destruct (moved_refs _ !! k2) as [n2|] eqn:E2;
        cbn [from_option id] in E; subst.
      * apply Hm in E1 as (c1 & Hc1 & <- & N1 & _), E2 as (c2 & Hc2 & <- & N2 & _).
        by assert (c1 = c2) as -> by (eapply (NoDup_fmap_inj_elem rc_Ref); [exact Hr|done..|congruence]).
      * apply Hm in E1 as (c1 & Hc1 & <- & N1 & T1). rewrite T1 in H2. by destruct H2.
      * apply Hm in E2 as (c2 & Hc2 & <- & N2 & T2). rewrite T2 in H1. by destruct H1.
      * done.
Qed.

End moving.

(** ** Properties *)

(** C40: histories move one to one and none is lost or merged. Every reported
    move is from a reference that vanished to one that appeared in the same
    repository, with a workload no other vanished or appeared reference
    carries, a confirmed entity and no history of its own; a reference takes
    part in one move at most; and the records of the previous state are those
    of the new one, each under its moved key, no two under the same. *)
Theorem carryOver_one_to_one `{R : MapRange} prev obs :
  NoDup (io_Ref <$> obs) → state_keyed prev →
  let '(out, changes) := carryOverRefChanges prev obs in
  Forall (paired prev obs) changes ∧
  NoDup (rc_PreviousRef <$> changes) ∧ NoDup (rc_Ref <$> changes) ∧
  carried (moved_refs changes) prev out ∧
  (∀ k1 k2, is_Some (st_Findings prev !! k1) → is_Some (st_Findings prev !! k2) →
     rekey (moved_refs changes) k1 = rekey (moved_refs changes) k2 → k1 = k2).
Proof.
  intros Hnd Hk. pose proof (carryOver_carried prev obs Hnd Hk) as Hc.
  assert (E : (carryOverRefChanges prev obs).2 = pairRefChanges prev obs).
  { unfold carryOverRefChanges. destruct (Nat.eqb_spec (length (pairRefChanges prev obs)) 0) as [E|]; [|done].
    by apply length_zero_iff_nil in E. }
  destruct (carryOverRefChanges prev obs) as [out changes]. cbn [fst snd] in *. subst changes.
  split; [|split; [|split; [|split]]]; [|apply pairRefChanges_NoDup..|done|].
  - apply Forall_forall. intros c. by apply pairRefChanges_paired.
  - intros k1 k2. apply (rekey_inj prev obs (st_Findings prev)); [done|apply Hk|].
    intros c k Hc'. apply (hasHistory_false _ _ (pd_history _ _ _ (pairRefChanges_paired _ _ _ Hnd Hc'))).
Qed.

Definition example_config : Digest := mk_digest DigestConfig "sha256" (join "" (replicate 64 "a")).
Definition example_container (ref name : string) : Container :=
  mk_container "id" name (mk_workload "" "" "") (mk_running ref example_config (mk_registry_ref "" zero_digest) zero_platform)
    false None None.
Definition example_obs (ref name : string) : ImageObservation :=
  mk_obs ref [] [] false true false false false [example_container ref name].
Definition example_entry : Entry := mk_entry 7 true "low" ["CVE-1"] "sha256:a".
Definition example_state : State :=
  mk_state 1 {[key "app:1" "curl" := example_entry]} ∅ ∅
    {["app:1" := mk_image_meta [] [] false 7 ["container/web"]]} None ∅ None.

Lemma carryOver_one_to_one_witness :
  let r := carryOverRefChanges example_state [example_obs "app:2" "web"] in
  r.2 = [mk_ref_change "app" "app:1" "app:2" ["container/web"]] ∧
  st_Findings r.1 !! key "app:2" "curl" = Some (mk_entry 7 true "low" ["CVE-1"] "") ∧
  NoDup (rc_Ref <$> r.2).
Proof.
  split; [by vm_compute|]. split; [by vm_compute|].
  refine (proj1 (proj2 (proj2 (carryOver_one_to_one example_state [example_obs "app:2" "web"] _ _)))).
  - apply (bool_decide_unpack (NoDup _)). by vm_compute.
  - split_and!; intros k; cbn [example_state st_Findings st_EOLPackages st_Muted]; [|by rewrite lookup_empty; intros [? ?]..].
    rewrite lookup_singleton_is_Some. intros <-. apply keyed_key.
Defined.
