(* ===== verification/Compute.v ===== *)
(** * The diff between scan cycles

    internal/state/state.go: [Compute] compares a report with the previous
    state and gives the diff and the next state. Its loops are folds over the
    same order the code visits: the report's own order for the sections, the
    order of a [range] (a parameter) for maps. *)

From Stdlib Require Import ZArith Lia Bool Ascii String List Permutation.
From stdpp Require Import base countable gmap strings list.
From S2P Require Import Prelude GoStrings GoTime Inventory Triage Report Build State Retag.

Open Scope string_scope.
Open Scope Z_scope.
Open Scope nat_scope.
Open Scope list_scope.

(** ** The view of the report *)

Record current := mk_current { cu_groups : list PackageGroup; cu_ids : gset string; cu_fixable : bool }.
Definition zero_current : current := mk_current [] ∅ false.

Notation cur_map := (gmap string current).

(** One group of a section. *)
Definition merge_group (image : string) (acc : cur_map * list string) (g : PackageGroup) :
    cur_map * list string :=
  let k := key image (pg_Package g) in
  let c := default zero_current (acc.1 !! k) in
  let order := match acc.1 !! k with Some _ => acc.2 | None => acc.2 ++ [k] end in
  (<[k := mk_current (cu_groups c ++ [g]) (list_to_set (VulnIDs g) ∪ cu_ids c)
            (String.eqb (pg_Status g) StatusFixed || cu_fixable c)]> acc.1, order).

Definition merge_image (acc : cur_map * list string) (img : ImageFindings) : cur_map * list string :=
  foldl (merge_group (if_Image img)) acc (if_Packages img).

Definition mergeSections (sections : list (list ImageFindings)) : cur_map * list string :=
  foldl merge_image (∅, []) (mjoin sections).

(** What [Compute] knows of the references of this cycle. *)
Record flags := mk_flags {
  fl_fullyFailed : gset string; fl_partiallyFailed : gset string; fl_contentID : gmap string string;
  fl_unchecked : gset RuntimeUncheckedRef }.

Definition flag_step (fl : flags) (o : ImageObservation) : flags :=
  mk_flags
    (if io_ScanFailed o then {[io_Ref o]} ∪ fl_fullyFailed fl else fl_fullyFailed fl)
    (if io_PartialFailure o then {[io_Ref o]} ∪ fl_partiallyFailed fl else fl_partiallyFailed fl)
    (match io_ContentIDs o with
     | [id] => if io_ConfigIdentityResolved o && negb (io_Ambiguous o) && negb (io_ScanFailed o)
                  && negb (io_PartialFailure o)
               then <[io_Ref o := id]> (fl_contentID fl) else fl_contentID fl
     | _ => fl_contentID fl
     end)
    (fl_unchecked fl).

Definition report_flags (r : Report) : flags :=
  foldl flag_step (mk_flags ∅ ∅ ∅ (list_to_set (rp_RuntimeUnchecked r))) (rp_Images r).

(** [runtimeUnchecked[RuntimeUncheckedRef{keyImage(k), keyPackage(k)}]] *)
Definition unchecked_key (fl : flags) (k : string) : bool :=
  bool_decide (mk_unchecked (keyImage k) (keyPackage k) ∈ fl_unchecked fl).
Definition fully_failed (fl : flags) (k : string) : bool := bool_decide (keyImage k ∈ fl_fullyFailed fl).
Definition partially_failed (fl : flags) (k : string) : bool :=
  bool_decide (keyImage k ∈ fl_partiallyFailed fl).

(** ** Images *)

Section images.
Context `{MapRange}.

Definition next_image (prevImages : gmap string ImageMeta) (now : Z) (m : gmap string ImageMeta)
    (o : ImageObservation) : gmap string ImageMeta :=
  let lastSeen :=
    if negb (io_ScanFailed o) && negb (io_PartialFailure o) then now
    else match prevImages !! io_Ref o with Some p => im_LastSeen p | None => 0%Z end in
  <[io_Ref o := mk_image_meta (io_ContentIDs o) (io_RegistryDigests o) (io_Ambiguous o) lastSeen
                  (workloadKeys (io_Containers o))]> m.

Definition nextImages (prevImages : gmap string ImageMeta) (obs : list ImageObservation) (now : Z) :
    gmap string ImageMeta := foldl (next_image prevImages now) ∅ obs.

End images.

Definition replacement (prevImages : gmap string ImageMeta) (o : ImageObservation) : option ImageReplacement :=
  match prevImages !! io_Ref o with
  | None => None
  | Some p =>
      if (length (im_ContentIDs p) =? 0) || (length (io_ContentIDs o) =? 0) then None
      else if negb (equalStrings (im_ContentIDs p) (io_ContentIDs o))
      then Some (mk_replacement (io_Ref o) (im_ContentIDs p) (io_ContentIDs o)) else None
  end.

Definition replacedImages (prevImages : gmap string ImageMeta) (obs : list ImageObservation) :
    list ImageReplacement :=
  sort_by (λ a b, str_lt (ip_Ref a) (ip_Ref b)) (omap (replacement prevImages) obs).

(** ** Judging the current findings *)

(** [if q.Rank() > p.Rank() { p = q }] *)
Definition higher (p q : string) : string := if Rank p <? Rank q then q else p.

Section judging.
Context `{MapRange}.
Variables (prev : State) (fl : flags) (degraded : bool) (now : Z).

Definition prev_entry (k : string) : Entry := default zero_entry (st_Findings prev !! k).
Definition prev_eol (k : string) : EOLEntry := default zero_eol_entry (st_EOLPackages prev !! k).
Definition known_entry (k : string) : bool := bool_decide (is_Some (st_Findings prev !! k)).
Definition known_eol (k : string) : bool := bool_decide (is_Some (st_EOLPackages prev !! k)).

Definition first_seen (k : string) : Z :=
  if known_entry k then ent_FirstSeen (prev_entry k)
  else if known_eol k then eol_FirstSeen (prev_eol k) else now.

Definition base_ids (k : string) : list string :=
  if known_eol k then mergeSorted (ent_VulnIDs (prev_entry k)) (eol_VulnIDs (prev_eol k))
  else ent_VulnIDs (prev_entry k).
Definition base_prio (k : string) : string := higher (ent_Priority (prev_entry k)) (eol_Priority (prev_eol k)).

(** The key's stored fields are merged with the last cycle's. *)
Definition held (k : string) : bool := partially_failed fl k && known_entry k.

Definition stored_entry (k : string) (c : current) : Entry :=
  let ids := sortedIDs (cu_ids c) in
  let prio := MaxPriority (cu_groups c) in
  let contentID := default "" (fl_contentID fl !! keyImage k) in
  if held k then
    mk_entry (first_seen k) (cu_fixable c || ent_Fixable (prev_entry k))
      (higher prio (ent_Priority (prev_entry k))) (mergeSorted ids (ent_VulnIDs (prev_entry k))) contentID
  else mk_entry (first_seen k) (cu_fixable c) prio ids contentID.

(** The kind of an ordinary change, [""] for none, and the CVEs added. *)
Definition added_ids (k : string) (c : current) : list string := newIDs (sortedIDs (cu_ids c)) (base_ids k).
Definition ordinary_kind (k : string) (c : current) : string :=
  let prio := MaxPriority (cu_groups c) in
  if negb (known_entry k || known_eol k) then KindNew
  else if negb degraded && negb (String.eqb (base_prio k) PriorityNone) && (Rank (base_prio k) <? Rank prio)
  then KindEscalated
  else if 0 <? length (added_ids k c) then KindNewCVEs
  else if cu_fixable c && negb (ent_Fixable (prev_entry k)) then KindNowFixable
  else "".

Definition muted_now (k : string) (c : current) : bool :=
  if held k then flag (st_Muted prev) k else allMuted (cu_groups c).
Definition became_unmuted (k : string) (c : current) : bool :=
  flag (st_Muted prev) k && negb (held k) && negb (muted_now k c).

Definition change_kind (k : string) (c : current) : string :=
  if negb (String.eqb (ordinary_kind k c) "") then ordinary_kind k c
  else if became_unmuted k c then KindUnmuted else "".

Definition change_of (curEOL : cur_map) (k : string) (c : current) : Change :=
  let new := String.eqb (change_kind k c) KindNewCVEs in
  mk_change (keyImage k) (keyPackage k) (change_kind k c)
    (if new then length (added_ids k c) else 0) (if new then added_ids k c else [])
    (cu_groups c) (match curEOL !! k with Some e => cu_groups e | None => [] end).

(** The state of the ordinary side: [next.Findings], [next.Muted], [heldKey],
    and the changes or the resolved findings. *)
Record side := mk_side {
  sd_Findings : gmap string Entry; sd_Muted : gmap string bool; sd_held : gset string;
  sd_changes : list Change; sd_resolved : list Resolved }.

Definition ordinary_step (cur curEOL : cur_map) (s : side) (k : string) : side :=
  let c := default zero_current (cur !! k) in
  mk_side (<[k := stored_entry k c]> (sd_Findings s))
    (if muted_now k c then <[k := true]> (sd_Muted s) else sd_Muted s)
    (if held k then {[k]} ∪ sd_held s else sd_held s)
    (if String.eqb (change_kind k c) "" then sd_changes s else sd_changes s ++ [change_of curEOL k c])
    (sd_resolved s).

Definition clear_content (e : Entry) : Entry :=
  mk_entry (ent_FirstSeen e) (ent_Fixable e) (ent_Priority e) (ent_VulnIDs e) "".

Definition hold (s : side) (k : string) (e : Entry) : side :=
  mk_side (<[k := e]> (sd_Findings s)) (carryMuted (sd_Muted s) (st_Muted prev) k) ({[k]} ∪ sd_held s)
    (sd_changes s) (sd_resolved s).

(** The loop over [prev.Findings]. *)
Definition carry_step (cur curEOL : cur_map) (s : side) (p : string * Entry) : side :=
  let '(k, e) := p in
  if bool_decide (is_Some (cur !! k)) then s
  else if fully_failed fl k then hold s k e
  else if partially_failed fl k then hold s k (clear_content e)
  else if unchecked_key fl k then hold s k (clear_content e)
  else if bool_decide (is_Some (curEOL !! k)) then s
  else mk_side (sd_Findings s) (sd_Muted s) (sd_held s) (sd_changes s)
         (sd_resolved s ++ [mk_resolved (keyImage k) (keyPackage k)]).

Definition ordinary_side (cur : cur_map) (order : list string) (curEOL : cur_map) : side :=
  foldl (carry_step cur curEOL)
    (foldl (ordinary_step cur curEOL) (mk_side ∅ ∅ ∅ [] []) order)
    (map_range (st_Findings prev)).

(** ** End-of-life packages *)

Definition stored_eol (k : string) (c : current) : EOLEntry :=
  let ids := sortedIDs (cu_ids c) in
  let prio := MaxPriority (cu_groups c) in
  let firstSeen := if known_eol k then eol_FirstSeen (prev_eol k) else now in
  if partially_failed fl k && known_eol k then
    mk_eol_entry firstSeen (higher prio (eol_Priority (prev_eol k)))
      (mergeSorted ids (eol_VulnIDs (prev_eol k)))
  else mk_eol_entry firstSeen prio ids.

Definition added_eol_ids (k : string) (c : current) : list string :=
  newIDs (sortedIDs (cu_ids c)) (eol_VulnIDs (prev_eol k)).

Definition eol_kind (k : string) (c : current) : string :=
  let prio := MaxPriority (cu_groups c) in
  let prevPrio := eol_Priority (prev_eol k) in
  if negb (known_eol k) then EOLKindNew
  else if negb degraded && negb (String.eqb prevPrio PriorityNone) && String.eqb prio PriorityActNow
          && (Rank prevPrio <? Rank prio) then EOLKindEscalated
  else if 0 <? length (added_eol_ids k c) then EOLKindNewCVEs
  else "".

Definition eol_change (k : string) (c : current) : EOLChange :=
  mk_eol_change (keyImage k) (keyPackage k) (eol_kind k c)
    (if String.eqb (eol_kind k c) EOLKindNewCVEs then added_eol_ids k c else []) (cu_groups c).

Record eol_side := mk_eol_side {
  es_EOLPackages : gmap string EOLEntry; es_changes : list EOLChange;
  es_Muted : gmap string bool; es_held : gset string; es_resolved : list ResolvedEOL }.

(** One turn of the loop of [computeEOL]. *)
Definition eol_step (curEOL : cur_map) (s : eol_side) (k : string) : eol_side :=
  let c := default zero_current (curEOL !! k) in
  mk_eol_side (<[k := stored_eol k c]> (es_EOLPackages s))
    (if String.eqb (eol_kind k c) "" then es_changes s else es_changes s ++ [eol_change k c])
    (es_Muted s) (es_held s) (es_resolved s).

(** The loop over [prev.EOLPackages]. *)
Definition carry_eol_step (cur curEOL : cur_map) (s : eol_side) (p : string * EOLEntry) : eol_side :=
  let '(k, e) := p in
  if bool_decide (is_Some (curEOL !! k)) then s
  else if fully_failed fl k || partially_failed fl k then
    mk_eol_side (<[k := e]> (es_EOLPackages s)) (es_changes s) (es_Muted s) (es_held s) (es_resolved s)
  else if unchecked_key fl k then
    mk_eol_side (<[k := e]> (es_EOLPackages s)) (es_changes s)
      (carryMuted (es_Muted s) (st_Muted prev) k) ({[k]} ∪ es_held s) (es_resolved s)
  else mk_eol_side (es_EOLPackages s) (es_changes s) (es_Muted s) (es_held s)
         (es_resolved s ++ [mk_resolved_eol (keyImage k) (keyPackage k) (bool_decide (is_Some (cur !! k)))]).

Definition computeEOL (curEOL : cur_map) (eolOrder : list string) (s : side) : eol_side :=
  foldl (eol_step curEOL) (mk_eol_side ∅ [] (sd_Muted s) (sd_held s) []) eolOrder.

Definition eol_sides (cur curEOL : cur_map) (eolOrder : list string) (s : side) : eol_side :=
  foldl (carry_eol_step cur curEOL) (computeEOL curEOL eolOrder s) (map_range (st_EOLPackages prev)).

(** ** End-of-life base systems: [next.EOSL], the new and the resolved ones *)

Definition eosl_step (acc : gmap string Z * list string) (img : string) : gmap string Z * list string :=
  match st_EOSL prev !! img with
  | Some t => (<[img := t]> acc.1, acc.2)
  | None => (<[img := now]> acc.1, acc.2 ++ [img])
  end.

Definition carry_eosl_step (acc : gmap string Z * list string) (p : string * Z) : gmap string Z * list string :=
  let '(img, t) := p in
  if bool_decide (is_Some (acc.1 !! img)) then acc
  else if bool_decide (img ∈ fl_fullyFailed fl) || bool_decide (img ∈ fl_partiallyFailed fl)
  then (<[img := t]> acc.1, acc.2)
  else (acc.1, acc.2 ++ [img]).

Definition new_eosl (images : list string) : gmap string Z * list string :=
  foldl eosl_step (∅, []) images.
Definition carry_eosl (eosl : gmap string Z) : gmap string Z * list string :=
  foldl carry_eosl_step (eosl, []) (map_range (st_EOSL prev)).

End judging.

(** ** The heartbeat *)

Record beat := mk_beat {
  bt_OldestOpen : Z; bt_OldestUrgent : Z; bt_ActNow : nat; bt_Watch : nat; bt_Low : nat; bt_EOL : nat }.

(** [older(&cur, t)] *)
Definition older (cur t : Z) : Z := if IsZero cur || Before t cur then t else cur.

Section heartbeat.
Variables (findings : gmap string Entry) (eol : gmap string EOLEntry) (muted : gmap string bool)
  (heldKey folded : gset string).

Definition eol_act_now (k : string) : bool :=
  String.eqb (eol_Priority (default zero_eol_entry (eol !! k))) PriorityActNow.

Definition beat_finding (b : beat) (p : string * Entry) : beat :=
  let '(k, e) := p in
  let m := flag muted k && negb (bool_decide (k ∈ heldKey)) in
  let prio := ent_Priority e in
  let actNow := (String.eqb prio PriorityActNow && negb m) || eol_act_now k in
  let watch := negb actNow && String.eqb prio PriorityWatch && negb m in
  let low := negb actNow && negb watch && String.eqb prio PriorityLow && negb m in
  mk_beat (older (bt_OldestOpen b) (ent_FirstSeen e))
    (if urgent prio && negb m then older (bt_OldestUrgent b) (ent_FirstSeen e) else bt_OldestUrgent b)
    (if actNow then S (bt_ActNow b) else bt_ActNow b) (if watch then S (bt_Watch b) else bt_Watch b)
    (if low then S (bt_Low b) else bt_Low b) (bt_EOL b).

Definition beat_eol (b : beat) (p : string * EOLEntry) : beat :=
  let '(k, e) := p in
  let actNow := String.eqb (eol_Priority e) PriorityActNow in
  let fold := bool_decide (keyImage k ∈ folded) in
  let shown := negb fold || actNow in
  mk_beat (if shown then older (bt_OldestOpen b) (eol_FirstSeen e) else bt_OldestOpen b)
    (if shown then older (bt_OldestUrgent b) (eol_FirstSeen e) else bt_OldestUrgent b)
    (if negb (bool_decide (is_Some (findings !! k))) && actNow then S (bt_ActNow b) else bt_ActNow b)
    (bt_Watch b) (bt_Low b) (if fold then bt_EOL b else S (bt_EOL b)).

Definition beat_eosl (b : beat) (p : string * Z) : beat :=
  mk_beat (older (bt_OldestOpen b) p.2) (older (bt_OldestUrgent b) p.2)
    (bt_ActNow b) (bt_Watch b) (bt_Low b) (bt_EOL b).

Definition heartbeat `{MapRange} (eosl : gmap string Z) : beat :=
  foldl beat_eosl
    (foldl beat_eol (foldl beat_finding (mk_beat 0 0 0 0 0 0) (map_range findings)) (map_range eol))
    (map_range eosl).

End heartbeat.

(** The severity counts of the groups that are not muted. *)
Definition open_counts (r : Report) : SeverityCounts :=
  foldl (λ c img, foldl (λ c g, if pg_Muted g then c else Add c (Counts g)) c (if_Packages img))
    zero_counts (mjoin (sections r)).

(** ** Compute *)

Section compute.
Context `{MapRange}.

Definition less_resolved (a b : Resolved) : bool :=
  if negb (String.eqb (rs_Image a) (rs_Image b)) then str_lt (rs_Image a) (rs_Image b)
  else str_lt (rs_Package a) (rs_Package b).
Definition less_resolved_eol (a b : ResolvedEOL) : bool :=
  if negb (String.eqb (re_Image a) (re_Image b)) then str_lt (re_Image a) (re_Image b)
  else str_lt (re_Package a) (re_Package b).

(** [Compute] after the carry-over of reference changes. *)
Definition compute_carried (prev : State) (refChanges : list RefChange) (r : Report) : Diff * State :=
  let now := rp_GeneratedAt r in
  let degraded := Degraded (rp_Intel r) in
  let fl := report_flags r in
  let '(cur, order) := mergeSections [rp_Actionable r; rp_Watch r; rp_WontFix r] in
  let '(curEOL, eolOrder) := mergeSections [rp_EOLPackages r] in
  let s := ordinary_side prev fl degraded now cur order curEOL in
  let e := eol_sides prev fl degraded now cur curEOL eolOrder s in
  let eosl := new_eosl prev now (rp_EOSLImages r) in
  let eosl' := carry_eosl prev fl eosl.1 in
  let openEOSL := sort_strings (range_keys eosl'.1) in
  let b := heartbeat (sd_Findings s) (es_EOLPackages e) (es_Muted e) (es_held e)
             (list_to_set openEOSL) eosl'.1 in
  let c := open_counts r in
  (mk_diff eosl.2 (sort_strings eosl'.2) (sd_changes s)
     (sort_by less_resolved (sd_resolved s)) (replacedImages (st_Images prev) (rp_Images r)) refChanges
     (sc_Critical c) (sc_High c) (sc_Medium c) (sc_Low c) (sc_Unknown c) (AffectedImageCount r)
     (bt_OldestOpen b) (bt_ActNow b) (bt_Watch b) (bt_Low b) (bt_OldestUrgent b)
     (es_changes e) (sort_by less_resolved_eol (es_resolved e)) openEOSL (bt_EOL b)
     (negb (bool_decide (sd_Findings s = ∅)) || negb (bool_decide (es_EOLPackages e = ∅))
      || negb (bool_decide (eosl'.1 = ∅))),
   mk_state version (sd_Findings s) eosl'.1 (es_EOLPackages e)
     (nextImages (st_Images prev) (rp_Images r) now) None (es_Muted e) None).

Definition Compute (prev : State) (r : Report) : Diff * State :=
  let c := carryOverRefChanges prev (rp_Images r) in
  compute_carried c.1 c.2 r.

End compute.

(** ** The view of the report holds the groups of its sections *)

(** The keys visited are the keys of the map, each once. *)
Definition order_ok (acc : cur_map * list string) : Prop :=
  NoDup acc.2 ∧ ∀ k, k ∈ acc.2 ↔ is_Some (acc.1 !! k).

Lemma merge_group_order image acc g : order_ok acc → order_ok (merge_group image acc g).
Proof.
  destruct acc as [cur order]. intros [Hnd Ho]. cbn [fst snd] in *. unfold merge_group, order_ok. cbn [fst snd].
  set (k := key image (pg_Package g)). destruct (cur !! k) as [c|] eqn:E.
  - split; [done|]. intros k'. rewrite Ho, lookup_insert_is_Some'. split; [auto|]. by intros [<-|]; [exists c|].
  - split.
    + apply NoDup_app. split; [done|]. split; [|apply NoDup_singleton].
      intros k' Hk' ->%list_elem_of_singleton. apply Ho in Hk'. rewrite E in Hk'. by destruct Hk'.
    + intros k'. rewrite elem_of_app, list_elem_of_singleton, Ho, lookup_insert_is_Some'. naive_solver.
Qed.

Lemma mergeSections_order sections : order_ok (mergeSections sections).
Proof.
  unfold mergeSections.
  assert (Hi : ∀ img acc, order_ok acc → order_ok (merge_image acc img)).
  { intros img. unfold merge_image. induction (if_Packages img) as [|g l IH]; intros acc Hacc; [done|].
    cbn [foldl]. by apply IH, merge_group_order. }
  assert (H0 : order_ok (∅, [])).
  { split; [constructor|]. intros k. cbn [fst snd]. rewrite lookup_empty.
    split; [by intros ?%not_elem_of_nil|by intros [? ?]]. }
  generalize dependent ((∅, []) : cur_map * list string). intros acc. revert acc.
  induction (mjoin sections) as [|img l IH]; intros acc Hacc; [done|]. cbn [foldl]. by apply IH, Hi.
Qed.

(** Every key of the view is one the program makes. *)
Lemma mergeSections_key sections k :
  is_Some ((mergeSections sections).1 !! k) →
  ∃ img g, img ∈ mjoin sections ∧ g ∈ if_Packages img ∧ k = key (if_Image img) (pg_Package g).
Proof.
  unfold mergeSections.
  assert (Hi : ∀ img acc, is_Some ((merge_image acc img).1 !! k) →
    is_Some (acc.1 !! k) ∨ ∃ g, g ∈ if_Packages img ∧ k = key (if_Image img) (pg_Package g)).
  { intros img. unfold merge_image. induction (if_Packages img) as [|g l IH] using rev_ind; intros acc; [auto|].
    rewrite foldl_app. cbn [foldl]. unfold merge_group at 1. cbn [fst].
    rewrite lookup_insert_is_Some'. intros [<-|Hk].
    - right. exists g. split; [apply elem_of_app; right; by apply list_elem_of_singleton|done].
    - destruct (IH acc Hk) as [?|(g' & Hg & ->)]; [auto|]. right. exists g'. split; [|done].
      apply elem_of_app. by left. }
  induction (mjoin sections) as [|img l IH] using rev_ind.
  { cbn [foldl fst]. rewrite lookup_empty. by intros [? ?]. }
  rewrite foldl_app. cbn [foldl]. intros [Hk|(g & Hg & ->)]%Hi.
  - destruct (IH Hk) as (img' & g & Himg & Hg & ->). exists img', g. split; [|done]. apply elem_of_app. by left.
  - exists img, g. split; [|done]. apply elem_of_app. right. by apply list_elem_of_singleton.
Qed.

(** ** What the loops leave behind *)

Section loops.
Context `{R : MapRange}.
Variables (prev : State) (fl : flags) (degraded : bool) (now : Z).
Variables (cur : cur_map) (order : list string) (curEOL : cur_map) (eolOrder : list string).
Hypotheses (Horder : order_ok (cur, order)) (HeolOrder : order_ok (curEOL, eolOrder)).

Notation cur_of k := (default zero_current (cur !! k)).
Notation eol_of k := (default zero_current (curEOL !! k)).
Notation the_side := (ordinary_side prev fl degraded now cur order curEOL).
Notation the_eol_side := (eol_sides prev fl degraded now cur curEOL eolOrder the_side).

(** What the loop over [prev.Findings] holds of a finding. *)
Definition carry_of (k : string) (e : Entry) : option Entry :=
  if bool_decide (is_Some (cur !! k)) then None
  else if fully_failed fl k then Some e
  else if partially_failed fl k || unchecked_key fl k then Some (clear_content e)
  else None.

(** What it reports resolved. *)
Definition resolved_of (p : string * Entry) : list Resolved :=
  if bool_decide (is_Some (cur !! p.1)) || fully_failed fl p.1 || partially_failed fl p.1
     || unchecked_key fl p.1 || bool_decide (is_Some (curEOL !! p.1)) then []
  else [mk_resolved (keyImage p.1) (keyPackage p.1)].

Definition change_list (k : string) : list Change :=
  if String.eqb (change_kind prev fl degraded k (cur_of k)) "" then []
  else [change_of prev fl degraded curEOL k (cur_of k)].

(** [next.Findings], key by key. *)
Lemma side_Findings k :
  sd_Findings the_side !! k =
  match cur !! k with
  | Some c => Some (stored_entry prev fl now k c)
  | None => st_Findings prev !! k ≫= carry_of k
  end.
Proof.
  unfold ordinary_side. rewrite (foldl_range _ sd_Findings carry_of).
  2: { intros s k0 e0 k1. unfold carry_step, carry_of, hold.
       destruct (decide (k0 = k1)) as [->|Hne].
       - repeat case_match; cbn [sd_Findings or_else orb]; simplify_eq;
           rewrite ?lookup_insert_eq; try done; naive_solver.
       - repeat case_match; cbn [sd_Findings]; rewrite ?lookup_insert_ne by done; done. }
  rewrite (foldl_keys _ sd_Findings (λ k, Some (stored_entry prev fl now k (cur_of k)))).
  2: { intros s k0 k1. cbn [ordinary_step sd_Findings]. destruct (decide (k0 = k1)) as [->|Hne];
       [by rewrite lookup_insert_eq|by rewrite lookup_insert_ne]. }
  cbn [sd_Findings]. rewrite lookup_empty.
  destruct Horder as [_ Ho]. cbn [fst snd] in Ho. destruct (cur !! k) as [c|] eqn:E.
  - rewrite decide_True by (apply Ho; by exists c). cbn [from_option id or_else].
    destruct (st_Findings prev !! k) as [e|]; [|done]. cbn [mbind option_bind]. unfold carry_of.
    by rewrite bool_decide_eq_true_2 by (rewrite E; by eexists).
  - rewrite decide_False; [by destruct (st_Findings prev !! k ≫= carry_of k)|].
    intros Hk%Ho. rewrite E in Hk. by destruct Hk.
Qed.

Lemma side_Muted k :
  sd_Muted the_side !! k =
  match cur !! k with
  | Some c => if muted_now prev fl k c then Some true else None
  | None => if bool_decide (is_Some (st_Findings prev !! k ≫= carry_of k)) && flag (st_Muted prev) k
            then Some true else None
  end.
Proof.
  unfold ordinary_side.
  rewrite (foldl_range _ sd_Muted
    (λ k e, if bool_decide (is_Some (carry_of k e)) && flag (st_Muted prev) k then Some true else None)).
  2: { intros s k0 e0 k1. unfold carry_step, carry_of, hold, carryMuted.
       destruct (decide (k0 = k1)) as [->|Hne].
       - repeat case_match; cbn [sd_Muted or_else orb andb] in *; simplify_eq;
           rewrite ?lookup_insert_eq; try done; naive_solver.
       - repeat case_match; cbn [sd_Muted]; rewrite ?lookup_insert_ne by done; done. }
  rewrite (foldl_keys _ sd_Muted (λ k, if muted_now prev fl k (cur_of k) then Some true else None)).
  2: { intros s k0 k1. cbn [ordinary_step sd_Muted]. destruct (decide (k0 = k1)) as [->|Hne].
       - destruct (muted_now prev fl k1 (cur_of k1)); [by rewrite lookup_insert_eq|done].
       - destruct (muted_now prev fl k0 (cur_of k0)); [by rewrite lookup_insert_ne|done]. }
  cbn [sd_Muted]. rewrite lookup_empty.
  destruct Horder as [_ Ho]. cbn [fst snd] in Ho. destruct (cur !! k) as [c|] eqn:E.
  - rewrite decide_True by (apply Ho; by exists c). cbn [from_option id].
    destruct (st_Findings prev !! k) as [e|]; cbn [mbind option_bind]; [|by destruct (muted_now _ _ _ _)].
    unfold carry_of. rewrite (bool_decide_eq_true_2 (is_Some (cur !! k))) by (rewrite E; by eexists).
    rewrite bool_decide_eq_false_2 by by intros [? ?]. cbn [andb or_else]. by destruct (muted_now _ _ _ _).
  - rewrite decide_False by (intros Hk%Ho; rewrite E in Hk; by destruct Hk).
    destruct (st_Findings prev !! k) as [e|]; cbn [mbind option_bind].
    + by destruct (bool_decide _ && _).
    + rewrite bool_decide_eq_false_2 by by intros [? ?]. done.
Qed.

Lemma side_resolved : sd_resolved the_side = mjoin (resolved_of <$> map_range (st_Findings prev)).
Proof.
  unfold ordinary_side. rewrite (foldl_log _ sd_resolved resolved_of).
  2: { intros s [k e]. unfold carry_step, resolved_of, hold. cbn [fst snd].
       repeat case_match; cbn [sd_resolved orb] in *; simplify_eq; by rewrite ?List.app_nil_r. }
  by rewrite (foldl_same (ordinary_step _ _ _ _ _ _) sd_resolved).
Qed.

Lemma side_changes : sd_changes the_side = mjoin (change_list <$> order).
Proof.
  unfold ordinary_side. rewrite (foldl_same (carry_step _ _ _ _) sd_changes).
  2: { intros s [k e]. unfold carry_step, hold. by repeat case_match. }
  rewrite (foldl_log _ sd_changes change_list); [done|].
  intros s k. unfold change_list. cbn [ordinary_step sd_changes].
  destruct (String.eqb _ ""); [by rewrite List.app_nil_r|done].
Qed.

(** The end-of-life side. *)
Definition carry_eol_of (k : string) (e : EOLEntry) : option EOLEntry :=
  if bool_decide (is_Some (curEOL !! k)) then None
  else if fully_failed fl k || partially_failed fl k || unchecked_key fl k then Some e
  else None.

Definition resolved_eol_of (p : string * EOLEntry) : list ResolvedEOL :=
  if bool_decide (is_Some (curEOL !! p.1)) || fully_failed fl p.1 || partially_failed fl p.1
     || unchecked_key fl p.1 then []
  else [mk_resolved_eol (keyImage p.1) (keyPackage p.1) (bool_decide (is_Some (cur !! p.1)))].

Definition eol_change_list (k : string) : list EOLChange :=
  if String.eqb (eol_kind prev degraded k (eol_of k)) "" then []
  else [eol_change prev degraded k (eol_of k)].

Lemma eol_side_EOLPackages k :
  es_EOLPackages the_eol_side !! k =
  match curEOL !! k with
  | Some c => Some (stored_eol prev fl now k c)
  | None => st_EOLPackages prev !! k ≫= carry_eol_of k
  end.
Proof.
  unfold eol_sides, computeEOL. rewrite (foldl_range _ es_EOLPackages carry_eol_of).
  2: { intros s k0 e0 k1. unfold carry_eol_step, carry_eol_of.
       destruct (decide (k0 = k1)) as [->|Hne].
       - repeat case_match; cbn [es_EOLPackages or_else orb] in *; simplify_eq;
           rewrite ?lookup_insert_eq; try done; naive_solver.
       - repeat case_match; cbn [es_EOLPackages]; rewrite ?lookup_insert_ne by done; done. }
  rewrite (foldl_keys _ es_EOLPackages (λ k, Some (stored_eol prev fl now k (eol_of k)))).
  2: { intros s k0 k1. cbn [eol_step es_EOLPackages]. destruct (decide (k0 = k1)) as [->|Hne];
       [by rewrite lookup_insert_eq|by rewrite lookup_insert_ne]. }
  cbn [es_EOLPackages]. rewrite lookup_empty.
  destruct HeolOrder as [_ Ho]. cbn [fst snd] in Ho. destruct (curEOL !! k) as [c|] eqn:E.
  - rewrite decide_True by (apply Ho; by exists c). cbn [from_option id or_else].
    destruct (st_EOLPackages prev !! k) as [e|]; [|done]. cbn [mbind option_bind]. unfold carry_eol_of.
    by rewrite bool_decide_eq_true_2 by (rewrite E; by eexists).
  - rewrite decide_False; [by destruct (st_EOLPackages prev !! k ≫= carry_eol_of k)|].
    intros Hk%Ho. rewrite E in Hk. by destruct Hk.
Qed.

(** The end-of-life loop carries the mark of a package it holds unchecked. *)
Definition eol_mute_of (k : string) (e : EOLEntry) : option bool :=
  if negb (bool_decide (is_Some (curEOL !! k))) && negb (fully_failed fl k) && negb (partially_failed fl k)
     && unchecked_key fl k && flag (st_Muted prev) k then Some true else None.

Lemma eol_side_Muted k :
  es_Muted the_eol_side !! k = or_else (st_EOLPackages prev !! k ≫= eol_mute_of k) (sd_Muted the_side !! k).
Proof.
  unfold eol_sides, computeEOL. generalize the_side. intros s0.
  rewrite (foldl_range _ es_Muted eol_mute_of).
  2: { intros s k0 e0 k1. unfold carry_eol_step, eol_mute_of, carryMuted.
       destruct (bool_decide (is_Some (curEOL !! k0))), (fully_failed fl k0), (partially_failed fl k0),
         (unchecked_key fl k0), (flag (st_Muted prev) k0); cbn [es_Muted or_else orb andb negb];
         destruct (decide (k0 = k1)) as [->|Hne]; rewrite ?lookup_insert_eq, ?lookup_insert_ne by done; done. }
  by rewrite (foldl_same (eol_step _ _ _ _ _) es_Muted).
Qed.

Lemma eol_side_resolved :
  es_resolved the_eol_side = mjoin (resolved_eol_of <$> map_range (st_EOLPackages prev)).
Proof.
  unfold eol_sides, computeEOL. rewrite (foldl_log _ es_resolved resolved_eol_of).
  2: { intros s [k e]. unfold carry_eol_step, resolved_eol_of. cbn [fst snd].
       destruct (bool_decide (is_Some (curEOL !! k))), (fully_failed fl k), (partially_failed fl k),
         (unchecked_key fl k); cbn [es_resolved orb]; by rewrite ?List.app_nil_r. }
  by rewrite (foldl_same (eol_step _ _ _ _ _) es_resolved).
Qed.

Lemma eol_side_changes : es_changes the_eol_side = mjoin (eol_change_list <$> eolOrder).
Proof.
  unfold eol_sides, computeEOL. rewrite (foldl_same (carry_eol_step _ _ _ _) es_changes).
  2: { intros s [k e]. unfold carry_eol_step. by repeat case_match. }
  rewrite (foldl_log _ es_changes eol_change_list); [done|].
  intros s k. unfold eol_change_list. cbn [eol_step es_changes].
  destruct (String.eqb _ ""); [by rewrite List.app_nil_r|done].
Qed.

End loops.

(** *** End-of-life base systems *)

Section eosl.
Context `{R : MapRange}.
Variables (prev : State) (fl : flags) (now : Z).

Definition eosl_failed (img : string) : bool :=
  bool_decide (img ∈ fl_fullyFailed fl) || bool_decide (img ∈ fl_partiallyFailed fl).
Definition carry_eosl_of (img : string) (t : Z) : option Z := if eosl_failed img then Some t else None.
Definition resolved_eosl_of (eosl : gmap string Z) (p : string * Z) : list string :=
  if bool_decide (is_Some (eosl !! p.1)) || eosl_failed p.1 then [] else [p.1].

Lemma new_eosl_lookup images img :
  (new_eosl prev now images).1 !! img =
  if decide (img ∈ images) then Some (default now (st_EOSL prev !! img)) else None.
Proof.
  unfold new_eosl. rewrite (foldl_keys _ fst (λ img, Some (default now (st_EOSL prev !! img)))).
  2: { intros s k0 k1. unfold eosl_step. destruct (decide (k0 = k1)) as [->|Hne].
       - destruct (st_EOSL prev !! k1); cbn [fst]; by rewrite lookup_insert_eq.
       - destruct (st_EOSL prev !! k0); cbn [fst]; by rewrite lookup_insert_ne. }
  cbn [fst or_else]. by rewrite lookup_empty.
Qed.

Lemma new_eosl_new images :
  (new_eosl prev now images).2 =
  mjoin ((λ img, match st_EOSL prev !! img with Some _ => [] | None => [img] end) <$> images).
Proof.
  unfold new_eosl. rewrite (foldl_log _ snd (λ img, match st_EOSL prev !! img with Some _ => [] | None => [img] end)).
  - done.
  - intros s img. unfold eosl_step. destruct (st_EOSL prev !! img); cbn [snd]; [by rewrite List.app_nil_r|done].
Qed.

Lemma carry_eosl_list l m r :
  NoDup l.*1 →
  (∀ k, (foldl (carry_eosl_step fl) (m, r) l).1 !! k =
     or_else (m !! k) ((list_to_map l : gmap string Z) !! k ≫= carry_eosl_of k)) ∧
  (foldl (carry_eosl_step fl) (m, r) l).2 = r ++ mjoin (resolved_eosl_of m <$> l).
Proof.
  revert m r. induction l as [|[k0 t0] l IH]; intros m r.
  { intros _. split; [|cbn; by rewrite List.app_nil_r]. intros k. cbn [list_to_map foldr foldl fst].
    rewrite lookup_empty. by destruct (m !! k). }
  cbn [fmap list_fmap fst foldl]. intros [Hk0 Hnd]%NoDup_cons.
  assert (Hsame : ∀ m', (∀ k, k ≠ k0 → m' !! k = m !! k) → resolved_eosl_of m' <$> l = resolved_eosl_of m <$> l).
  { intros m' Hm'. apply list_fmap_ext. intros i [k t] Hi%list_elem_of_lookup_2. unfold resolved_eosl_of.
    cbn [fst]. rewrite Hm'; [done|]. intros ->. apply Hk0. by apply (list_elem_of_fmap_2 fst) in Hi. }
  assert (E : carry_eosl_step fl (m, r) (k0, t0) =
    if bool_decide (is_Some (m !! k0)) then (m, r)
    else if eosl_failed k0 then (<[k0 := t0]> m, r) else (m, r ++ [k0])) by done.
  rewrite E. clear E.
  assert (Hk0' : (list_to_map l : gmap string Z) !! k0 = None) by by apply not_elem_of_list_to_map_1.
  cbn [mjoin list_join].
  assert (E : resolved_eosl_of m (k0, t0) =
    if bool_decide (is_Some (m !! k0)) || eosl_failed k0 then [] else [k0]) by done.
  rewrite E. clear E.
  destruct (bool_decide (is_Some (m !! k0))) eqn:Hb; cbn [orb app].
  - destruct (IH m r Hnd) as [IH1 IH2]. rewrite IH2. split; [|done]. intros k. rewrite IH1.
    destruct (decide (k0 = k)) as [->|Hne].
    + apply bool_decide_eq_true in Hb as [t Ht]. by rewrite Ht.
    + cbn [list_to_map foldr uncurry fst snd]. by rewrite lookup_insert_ne.
  - apply bool_decide_eq_false, eq_None_not_Some in Hb. destruct (eosl_failed k0) eqn:Hf.
    + destruct (IH (<[k0:=t0]> m) r Hnd) as [IH1 IH2]. cbn [fst snd] in *. rewrite IH2, Hsame.
      2: { intros k Hk. by rewrite lookup_insert_ne. }
      split; [|done]. intros k. rewrite IH1. cbn [list_to_map foldr uncurry fst snd].
      destruct (decide (k0 = k)) as [->|Hne].
      * rewrite !lookup_insert_eq, Hb. cbn [or_else mbind option_bind]. unfold carry_eosl_of. by rewrite Hf.
      * by rewrite !lookup_insert_ne.
    + destruct (IH m (r ++ [k0]) Hnd) as [IH1 IH2]. cbn [fst snd] in *. rewrite IH2.
      split; [|cbn; by rewrite <- List.app_assoc]. intros k. rewrite IH1. cbn [list_to_map foldr uncurry fst snd].
      destruct (decide (k0 = k)) as [->|Hne].
      * rewrite lookup_insert_eq, Hk0', Hb. cbn [or_else mbind option_bind]. unfold carry_eosl_of. by rewrite Hf.
      * by rewrite lookup_insert_ne.
Qed.

Lemma carry_eosl_lookup m k :
  (carry_eosl prev fl m).1 !! k = or_else (m !! k) (st_EOSL prev !! k ≫= carry_eosl_of k).
Proof.
  unfold carry_eosl.
  rewrite (proj1 (carry_eosl_list (map_range (st_EOSL prev)) m [] (NoDup_map_range_keys _))).
  by rewrite list_to_map_range.
Qed.

Lemma carry_eosl_resolved m :
  (carry_eosl prev fl m).2 = mjoin (resolved_eosl_of m <$> map_range (st_EOSL prev)).
Proof.
  unfold carry_eosl.
  by rewrite (proj2 (carry_eosl_list (map_range (st_EOSL prev)) m [] (NoDup_map_range_keys _))).
Qed.

End eosl.
