(* ===== verification/Diff.v ===== *)
(** * What the diff between scan cycles promises

    The theorems about [Compute] (internal/state/state.go): what is announced,
    what is resolved, what a failed scan leaves alone, and when a cycle has
    nothing to report. *)

From Stdlib Require Import ZArith Lia Bool Ascii String List Permutation.
From stdpp Require Import base countable gmap strings list.
From S2P Require Import Prelude GoStrings GoTime Reference Inventory Triage Report Build State Retag Compute.

Open Scope string_scope.
Open Scope Z_scope.
Open Scope nat_scope.
Open Scope list_scope.

(** ** The parts of a cycle *)

Definition ordinary_view (r : Report) : cur_map * list string :=
  mergeSections [rp_Actionable r; rp_Watch r; rp_WontFix r].
Definition eol_view (r : Report) : cur_map * list string := mergeSections [rp_EOLPackages r].

(** The previous state as [Compute] reads it. *)
Definition carried_state `{MapRange} (prev : State) (r : Report) : State :=
  (carryOverRefChanges prev (rp_Images r)).1.

(** A record no scan of this cycle settled: its reference failed to scan, or
    its language runtime was not checked. *)
Definition unsettled (r : Report) (k : string) : bool :=
  let fl := report_flags r in fully_failed fl k || partially_failed fl k || unchecked_key fl k.

Lemma elem_of_failed r ref :
  (ref ∈ fl_fullyFailed (report_flags r) ↔ ∃ o, o ∈ rp_Images r ∧ io_Ref o = ref ∧ io_ScanFailed o = true) ∧
  (ref ∈ fl_partiallyFailed (report_flags r) ↔
     ∃ o, o ∈ rp_Images r ∧ io_Ref o = ref ∧ io_PartialFailure o = true) ∧
  fl_unchecked (report_flags r) = list_to_set (rp_RuntimeUnchecked r).
Proof.
  unfold report_flags. induction (rp_Images r) as [|o l IH] using rev_ind.
  { split_and!; [| |done]; (split; [by intros ?%not_elem_of_empty|by intros (o & ?%not_elem_of_nil & _)]). }
  rewrite foldl_app. cbn [foldl]. destruct IH as (IH1 & IH2 & IH3).
  rewrite !elem_snoc_ex, <- IH1, <- IH2. cbn [flag_step fl_fullyFailed fl_partiallyFailed fl_unchecked].
  split_and!; [..|done].
  - destruct (io_ScanFailed o); [rewrite elem_of_union, elem_of_singleton; naive_solver|naive_solver].
  - destruct (io_PartialFailure o); [rewrite elem_of_union, elem_of_singleton; naive_solver|naive_solver].
Qed.

(** ** The next state, key by key *)

Section next.
Context `{R : MapRange}.
Variables (prev : State) (refChanges : list RefChange) (r : Report).

Notation fl := (report_flags r).
Notation cur := (ordinary_view r).1.
Notation curEOL := (eol_view r).1.
Notation now := (rp_GeneratedAt r).
Notation degraded := (Degraded (rp_Intel r)).
Notation the_side := (ordinary_side prev fl degraded now cur (ordinary_view r).2 curEOL).
Notation the_eol_side := (eol_sides prev fl degraded now cur curEOL (eol_view r).2 the_side).
Notation result := (compute_carried prev refChanges r).

Lemma ordinary_view_ok : order_ok (cur, (ordinary_view r).2).
Proof.
  pose proof (mergeSections_order [rp_Actionable r; rp_Watch r; rp_WontFix r]) as H.
  unfold ordinary_view. by destruct (mergeSections _).
Qed.
Lemma eol_view_ok : order_ok (curEOL, (eol_view r).2).
Proof.
  pose proof (mergeSections_order [rp_EOLPackages r]) as H. unfold eol_view. by destruct (mergeSections _).
Qed.

(** The components of the result. *)
Lemma result_parts :
  st_Findings result.2 = sd_Findings the_side ∧
  st_EOLPackages result.2 = es_EOLPackages the_eol_side ∧
  st_Muted result.2 = es_Muted the_eol_side ∧
  st_EOSL result.2 = (carry_eosl prev fl (new_eosl prev now (rp_EOSLImages r)).1).1 ∧
  st_Images result.2 = nextImages (st_Images prev) (rp_Images r) now ∧
  df_Changes result.1 = sd_changes the_side ∧
  df_Resolved result.1 = sort_by less_resolved (sd_resolved the_side) ∧
  df_NewEOLPackages result.1 = es_changes the_eol_side ∧
  df_ResolvedEOLPackages result.1 = sort_by less_resolved_eol (es_resolved the_eol_side) ∧
  df_NewEOSL result.1 = (new_eosl prev now (rp_EOSLImages r)).2 ∧
  df_ResolvedEOSL result.1 =
    sort_strings (carry_eosl prev fl (new_eosl prev now (rp_EOSLImages r)).1).2 ∧
  df_Replaced result.1 = replacedImages (st_Images prev) (rp_Images r) ∧
  df_RefChanges result.1 = refChanges.
Proof.
  unfold compute_carried, ordinary_view, eol_view.
  destruct (mergeSections [rp_Actionable r; rp_Watch r; rp_WontFix r]) as [c o].
  destruct (mergeSections [rp_EOLPackages r]) as [c' o']. cbn [fst snd]. by split_and!.
Qed.

Lemma next_Findings k :
  st_Findings result.2 !! k =
  match cur !! k with
  | Some c => Some (stored_entry prev fl now k c)
  | None => st_Findings prev !! k ≫= carry_of fl cur k
  end.
Proof. destruct result_parts as [-> _]. apply side_Findings, ordinary_view_ok. Qed.

Lemma next_EOLPackages k :
  st_EOLPackages result.2 !! k =
  match curEOL !! k with
  | Some c => Some (stored_eol prev fl now k c)
  | None => st_EOLPackages prev !! k ≫= carry_eol_of fl curEOL k
  end.
Proof. destruct result_parts as (_ & -> & _). apply eol_side_EOLPackages, eol_view_ok. Qed.

Lemma next_Muted k :
  st_Muted result.2 !! k =
  or_else (st_EOLPackages prev !! k ≫= eol_mute_of prev fl curEOL k)
    (match cur !! k with
     | Some c => if muted_now prev fl k c then Some true else None
     | None => if bool_decide (is_Some (st_Findings prev !! k ≫= carry_of fl cur k)) && flag (st_Muted prev) k
               then Some true else None
     end).
Proof.
  destruct result_parts as (_ & _ & -> & _). rewrite eol_side_Muted. f_equal.
  apply side_Muted, ordinary_view_ok.
Qed.

Lemma next_EOSL img :
  st_EOSL result.2 !! img =
  if decide (img ∈ rp_EOSLImages r) then Some (default now (st_EOSL prev !! img))
  else st_EOSL prev !! img ≫= carry_eosl_of fl img.
Proof.
  destruct result_parts as (_ & _ & _ & -> & _). rewrite carry_eosl_lookup, new_eosl_lookup.
  by destruct (decide _).
Qed.

Lemma elem_of_join_fmap {A B} (f : A → list B) l y : y ∈ mjoin (f <$> l) ↔ ∃ x, x ∈ l ∧ y ∈ f x.
Proof.
  rewrite list_elem_of_join. split.
  - intros (k & Hy & (x & -> & Hx)%list_elem_of_fmap). by exists x.
  - intros (x & Hx & Hy). exists (f x). split; [done|]. by apply list_elem_of_fmap_2.
Qed.

Lemma elem_of_Changes ch :
  ch ∈ df_Changes result.1 ↔
  ∃ k c, cur !! k = Some c ∧ change_kind prev fl degraded k c ≠ "" ∧
         ch = change_of prev fl degraded curEOL k c.
Proof.
  destruct result_parts as (_ & _ & _ & _ & _ & -> & _). rewrite side_changes, elem_of_join_fmap.
  destruct ordinary_view_ok as [_ Ho]. cbn [fst snd] in Ho. unfold change_list. split.
  - intros (k & [c Hc]%Ho & Hch). rewrite Hc in Hch. cbn [from_option id] in Hch.
    destruct (String.eqb_spec (change_kind prev fl degraded k c) "") as [|Hne]; [by apply not_elem_of_nil in Hch|].
    apply list_elem_of_singleton in Hch. by exists k, c.
  - intros (k & c & Hc & Hk & ->). exists k. split; [apply Ho; by exists c|]. rewrite Hc. cbn [from_option id].
    rewrite (proj2 (String.eqb_neq _ _) Hk). by apply list_elem_of_singleton.
Qed.

Lemma elem_of_NewEOL ch :
  ch ∈ df_NewEOLPackages result.1 ↔
  ∃ k c, curEOL !! k = Some c ∧ eol_kind prev degraded k c ≠ "" ∧ ch = eol_change prev degraded k c.
Proof.
  destruct result_parts as (_ & _ & _ & _ & _ & _ & _ & -> & _). rewrite eol_side_changes, elem_of_join_fmap.
  destruct eol_view_ok as [_ Ho]. cbn [fst snd] in Ho. unfold eol_change_list. split.
  - intros (k & [c Hc]%Ho & Hch). rewrite Hc in Hch. cbn [from_option id] in Hch.
    destruct (String.eqb_spec (eol_kind prev degraded k c) "") as [|Hne]; [by apply not_elem_of_nil in Hch|].
    apply list_elem_of_singleton in Hch. by exists k, c.
  - intros (k & c & Hc & Hk & ->). exists k. split; [apply Ho; by exists c|]. rewrite Hc. cbn [from_option id].
    rewrite (proj2 (String.eqb_neq _ _) Hk). by apply list_elem_of_singleton.
Qed.

Lemma elem_of_Resolved rs :
  rs ∈ df_Resolved result.1 ↔
  ∃ k e, st_Findings prev !! k = Some e ∧ cur !! k = None ∧ curEOL !! k = None ∧ unsettled r k = false ∧
         rs = mk_resolved (keyImage k) (keyPackage k).
Proof.
  destruct result_parts as (_ & _ & _ & _ & _ & _ & -> & _).
  rewrite elem_of_sort_by, side_resolved, elem_of_join_fmap. unfold resolved_of, unsettled. split.
  - intros ([k e] & Hp%elem_of_map_range & Hrs). cbn [fst] in Hrs.
    destruct (cur !! k) eqn:E1; [by apply not_elem_of_nil in Hrs|].
    destruct (curEOL !! k) eqn:E2; [rewrite orb_true_r in Hrs; by apply not_elem_of_nil in Hrs|].
    rewrite !bool_decide_eq_false_2 in Hrs by by intros [? ?]. rewrite orb_false_r in Hrs. cbn [orb] in Hrs.
    destruct (fully_failed fl k || partially_failed fl k || unchecked_key fl k) eqn:E3;
      [by apply not_elem_of_nil in Hrs|]. apply list_elem_of_singleton in Hrs. by exists k, e.
  - intros (k & e & He & E1 & E2 & E3 & ->). exists (k, e). split; [by apply elem_of_map_range|].
    cbn [fst]. rewrite E1, E2. rewrite !bool_decide_eq_false_2 by by intros [? ?].
    rewrite orb_false_r. cbn [orb]. rewrite E3. by apply list_elem_of_singleton.
Qed.

Lemma elem_of_ResolvedEOL rs :
  rs ∈ df_ResolvedEOLPackages result.1 ↔
  ∃ k e, st_EOLPackages prev !! k = Some e ∧ curEOL !! k = None ∧ unsettled r k = false ∧
         rs = mk_resolved_eol (keyImage k) (keyPackage k) (bool_decide (is_Some (cur !! k))).
Proof.
  destruct result_parts as (_ & _ & _ & _ & _ & _ & _ & _ & -> & _).
  rewrite elem_of_sort_by, eol_side_resolved, elem_of_join_fmap. unfold resolved_eol_of, unsettled. split.
  - intros ([k e] & Hp%elem_of_map_range & Hrs). cbn [fst] in Hrs.
    destruct (curEOL !! k) eqn:E2; [by apply not_elem_of_nil in Hrs|].
    rewrite bool_decide_eq_false_2 in Hrs by by intros [? ?]. cbn [orb] in Hrs.
    destruct (fully_failed fl k || partially_failed fl k || unchecked_key fl k) eqn:E3;
      [by apply not_elem_of_nil in Hrs|]. apply list_elem_of_singleton in Hrs. by exists k, e.
  - intros (k & e & He & E2 & E3 & ->). exists (k, e). split; [by apply elem_of_map_range|].
    cbn [fst]. rewrite E2, (bool_decide_eq_false_2 (is_Some None)) by by intros [? ?]. cbn [orb]. rewrite E3.
    by apply list_elem_of_singleton.
Qed.

Lemma elem_of_NewEOSL img : img ∈ df_NewEOSL result.1 ↔ img ∈ rp_EOSLImages r ∧ st_EOSL prev !! img = None.
Proof.
  destruct result_parts as (_ & _ & _ & _ & _ & _ & _ & _ & _ & -> & _).
  rewrite new_eosl_new, elem_of_join_fmap. split.
  - intros (x & Hx & Hi). destruct (st_EOSL prev !! x) eqn:E; [by apply not_elem_of_nil in Hi|].
    apply list_elem_of_singleton in Hi as ->. done.
  - intros [Hi E]. exists img. split; [done|]. rewrite E. by apply list_elem_of_singleton.
Qed.

Lemma elem_of_ResolvedEOSL img :
  img ∈ df_ResolvedEOSL result.1 ↔
  is_Some (st_EOSL prev !! img) ∧ img ∉ rp_EOSLImages r ∧ eosl_failed fl img = false.
Proof.
  destruct result_parts as (_ & _ & _ & _ & _ & _ & _ & _ & _ & _ & -> & _).
  rewrite elem_of_sort_strings, carry_eosl_resolved, elem_of_join_fmap. unfold resolved_eosl_of. split.
  - intros ([x t] & Hx%elem_of_map_range & Hi). cbn [fst] in Hi. rewrite new_eosl_lookup in Hi.
    destruct (decide (x ∈ rp_EOSLImages r)).
    { rewrite bool_decide_eq_true_2 in Hi by by eexists. by apply not_elem_of_nil in Hi. }
    rewrite bool_decide_eq_false_2 in Hi by by intros [? ?]. cbn [orb] in Hi.
    destruct (eosl_failed fl x) eqn:E; [by apply not_elem_of_nil in Hi|].
    apply list_elem_of_singleton in Hi as ->. split_and!; [by exists t|done|done].
  - intros ([t Ht] & Hn & E). exists (img, t). split; [by apply elem_of_map_range|]. cbn [fst].
    rewrite new_eosl_lookup, decide_False by done. rewrite bool_decide_eq_false_2 by by intros [? ?].
    rewrite E. by apply list_elem_of_singleton.
Qed.

End next.

Lemma carry_of_unsettled r k e :
  (ordinary_view r).1 !! k = None →
  if unsettled r k
  then ∃ e', carry_of (report_flags r) (ordinary_view r).1 k e = Some e' ∧ (e' = e ∨ e' = clear_content e)
  else carry_of (report_flags r) (ordinary_view r).1 k e = None.
Proof.
  intros E. unfold unsettled, carry_of. rewrite E, bool_decide_eq_false_2 by by intros [? ?].
  destruct (fully_failed _ k); cbn [orb]; [eauto|]. destruct (_ || _); eauto.
Qed.

Lemma carry_eol_of_unsettled r k e :
  (eol_view r).1 !! k = None →
  carry_eol_of (report_flags r) (eol_view r).1 k e = if unsettled r k then Some e else None.
Proof. intros E. unfold unsettled, carry_eol_of. by rewrite E, bool_decide_eq_false_2 by by intros [? ?]. Qed.

(** A record of a finding that is not in the report this cycle. *)
Lemma next_Findings_absent `{MapRange} prev refChanges r k e :
  st_Findings prev !! k = Some e → (ordinary_view r).1 !! k = None →
  if unsettled r k
  then ∃ e', st_Findings (compute_carried prev refChanges r).2 !! k = Some e' ∧
             (e' = e ∨ e' = clear_content e)
  else st_Findings (compute_carried prev refChanges r).2 !! k = None.
Proof.
  intros He Hc. rewrite next_Findings, Hc, He. cbn [mbind option_bind]. by apply carry_of_unsettled.
Qed.

Lemma stored_entry_first_seen `{MapRange} prev fl now k c :
  ent_FirstSeen (stored_entry prev fl now k c) = first_seen prev now k.
Proof. unfold stored_entry. by destruct (held prev fl k). Qed.

Lemma unknown_kind `{MapRange} prev fl degraded k c :
  st_Findings prev !! k = None → st_EOLPackages prev !! k = None →
  change_kind prev fl degraded k c = KindNew.
Proof.
  intros E1 E2. unfold change_kind, ordinary_kind, known_entry, known_eol.
  rewrite E1, E2, bool_decide_eq_false_2 by by intros [? ?]. done.
Qed.

(** C6: no record appears or disappears unannounced. A finding recorded before
    the cycle keeps its first-seen date in the next state, or has gone over to
    the package's end-of-life record, or is reported resolved; a finding the
    state did not know is announced as new and dated from this cycle; and a
    finding is reported resolved only if the report no longer has it, its
    reference was scanned in full and its runtime was checked, and then the
    next state has no record of it. *)
Theorem Compute_accounts_for_every_finding `{MapRange} prev r k e :
  let before := carried_state prev r in
  let '(d, next) := Compute prev r in
  (st_Findings before !! k = Some e →
     (∃ e', st_Findings next !! k = Some e' ∧ ent_FirstSeen e' = ent_FirstSeen e) ∨
     is_Some ((eol_view r).1 !! k) ∧ is_Some (st_EOLPackages next !! k) ∨
     mk_resolved (keyImage k) (keyPackage k) ∈ df_Resolved d) ∧
  (st_Findings next !! k = Some e →
   st_Findings before !! k = None → st_EOLPackages before !! k = None →
     ent_FirstSeen e = rp_GeneratedAt r ∧
     ∃ ch, ch ∈ df_Changes d ∧ ch_Kind ch = KindNew ∧ ch_Image ch = keyImage k ∧ ch_Package ch = keyPackage k) ∧
  (∀ rs, rs ∈ df_Resolved d ↔
     ∃ k', is_Some (st_Findings before !! k') ∧ st_Findings next !! k' = None ∧
           (eol_view r).1 !! k' = None ∧ unsettled r k' = false ∧
           rs = mk_resolved (keyImage k') (keyPackage k')).
Proof.
  unfold Compute, carried_state.
  destruct (carryOverRefChanges prev (rp_Images r)) as [before rc]. cbn [fst snd]. cbv zeta.
  pose proof (elem_of_Resolved before rc r) as Hres. pose proof (next_Findings before rc r) as Hf.
  pose proof (next_EOLPackages before rc r) as He. pose proof (elem_of_Changes before rc r) as Hch.
  destruct (compute_carried before rc r) as [d next] eqn:E. cbn [fst snd] in *.
  assert (Hnone : ∀ k', (ordinary_view r).1 !! k' = None ∧ unsettled r k' = false ↔
    st_Findings next !! k' = None ∧ (is_Some (st_Findings before !! k') → unsettled r k' = false)
    ∧ (st_Findings before !! k' = None → unsettled r k' = false)).
  { intros k'. rewrite Hf. split.
    - intros [E1 E2]. rewrite E1. split; [|by split]. destruct (st_Findings before !! k') as [e'|]; [|done].
      cbn [mbind option_bind]. pose proof (carry_of_unsettled r k' e' E1) as H'. by rewrite E2 in H'.
    - destruct ((ordinary_view r).1 !! k') as [c|] eqn:E1; [by intros [? _]|].
      intros (_ & H1 & H2). split; [done|]. destruct (st_Findings before !! k'); [apply H1; by eexists|by apply H2]. }
  split; [|split].
  - intros Hk. destruct ((ordinary_view r).1 !! k) as [c|] eqn:E1.
    { left. exists (stored_entry before (report_flags r) (rp_GeneratedAt r) k c).
      rewrite Hf, E1. split; [done|]. rewrite stored_entry_first_seen.
      unfold first_seen, known_entry, prev_entry. by rewrite Hk, bool_decide_eq_true_2. }
    destruct (unsettled r k) eqn:E2.
    { left. pose proof (carry_of_unsettled r k e E1) as H'. rewrite E2 in H'.
      destruct H' as (e' & H' & Hor). exists e'. rewrite Hf, E1, Hk. cbn [mbind option_bind].
      split; [done|]. by destruct Hor as [->| ->]. }
    right. destruct ((eol_view r).1 !! k) as [c|] eqn:E3.
    + left. rewrite He, E3. split; by eexists.
    + right. apply Hres. by exists k, e.
  - intros Hk E1 E2. rewrite Hf in Hk. destruct ((ordinary_view r).1 !! k) as [c|] eqn:E3.
    2: { by rewrite E1 in Hk. }
    injection Hk as <-. rewrite stored_entry_first_seen.
    unfold first_seen, known_entry, known_eol. rewrite E1, E2, bool_decide_eq_false_2 by by intros [? ?].
    split; [done|].
    exists (change_of before (report_flags r) (Degraded (rp_Intel r)) (eol_view r).1 k c).
    unfold change_of. rewrite (unknown_kind _ _ _ _ _ E1 E2).
    split; [|done]. apply Hch. exists k, c. unfold change_of. by rewrite (unknown_kind _ _ _ _ _ E1 E2).
  - intros rs. rewrite Hres. split.
    + intros (k' & e' & Hk & E1 & E2 & E3 & ->). exists k'. split_and!; [by eexists| |done..].
      by apply Hnone.
    + intros (k' & [e' Hk] & E1 & E2 & E3 & ->). exists k', e'. split_and!; try done. by apply Hnone.
Qed.

(** ** A reference whose scans all failed *)

Section failed.
Context `{R : MapRange} `{GoUnicodeUpper}.

Lemma Build_Images_NoDup scans containers tr now : NoDup (io_Ref <$> rp_Images (Build scans containers tr now)).
Proof.
  unfold Build. cbn [rp_Images]. unfold buildInventory. rewrite sort_by_perm, <- list_fmap_compose.
  apply (NoDup_map_range_keys (ba_obs (scan_all scans))).
Qed.

Lemma Build_failed_observation scans containers tr now ref :
  scans_of ref scans ≠ [] → Forall (λ s, failed_scan s = true) (scans_of ref scans) →
  ∃ o, o ∈ rp_Images (Build scans containers tr now) ∧ io_Ref o = ref ∧ io_ScanFailed o = true.
Proof.
  intros Hne Hall. unfold Build. cbn [rp_Images]. unfold buildInventory.
  set (a := foldl obs_scan zero_obs (scans_of ref scans)).
  exists (observation (indexContainers containers).2 (ref, a)). split; [|split; [done|]].
  - rewrite elem_of_sort_by. apply list_elem_of_fmap. exists (ref, a). split; [done|].
    apply elem_of_map_range. rewrite obs_lookup. by destruct (scans_of ref scans).
  - cbn [observation io_ScanFailed snd]. destruct (obs_ok_fold (scans_of ref scans)) as [Ht Hf _ _ _ _ _].
    fold a in Ht, Hf. rewrite Ht, Hf, (proj2 (length_filter_full _ _) Hall), Nat.eqb_refl, andb_true_r.
    apply Nat.ltb_lt. by apply nonempty_pos.
Qed.

(** The report of a failed reference has no sections. *)
Lemma Build_failed_no_image scans containers tr now ref section img :
  Forall (λ s, failed_scan s = true) (scans_of ref scans) →
  img ∈ section_named (Build scans containers tr now) section → if_Image img ≠ ref.
Proof.
  intros Hall (_ & k & images & pkgs & E1 & E2 & ->)%elem_of_section_named.
  cbn [section_image if_Image fst]. intros <-.
  destruct (section_entity_kept _ _ _ _ _ E1 E2) as [f Hf].
  unfold kept_findings in Hf. apply list_elem_of_join in Hf as (l & Hl & (s & -> & Hs)%list_elem_of_fmap).
  unfold scan_findings in Hl. destruct (sn_Err s) eqn:Es; [by apply not_elem_of_nil in Hl|].
  apply list_elem_of_fmap in Hl as (f' & [= -> _] & _). rewrite Forall_forall in Hall.
  specialize (Hall s). unfold failed_scan in Hall. rewrite Es in Hall. cbn [fst] in Hall.
  discriminate Hall. by apply list_elem_of_filter.
Qed.

Lemma Build_images_scanned scans containers tr now section img :
  img ∈ section_named (Build scans containers tr now) section → ∃ s, s ∈ scans ∧ if_Image img = sn_Image s.
Proof.
  intros (_ & k & images & pkgs & E1 & E2 & ->)%elem_of_section_named.
  destruct (section_entity_kept _ _ _ _ _ E1 E2) as [f (s & Hs & ->)%kept_scan]. by exists s.
Qed.

Lemma Build_EOSL_scanned scans containers tr now ref :
  ref ∈ rp_EOSLImages (Build scans containers tr now) →
  ∃ s, s ∈ scans ∧ sn_Err s = None ∧ ref = sn_Image s.
Proof.
  unfold Build. cbn [rp_EOSLImages]. rewrite elem_of_sort_strings.
  induction scans as [|s l IH] using rev_ind; [by intros ?%not_elem_of_nil|].
  rewrite scan_all_app, elem_snoc_ex. unfold scan_step.
  destruct (sn_Err s) eqn:E; cbn [ba_EOSLImages]; [by intros ?%IH; left|].
  destruct (_ && _); [|by intros ?%IH; left].
  rewrite elem_of_app, list_elem_of_singleton. intros [?%IH| ->]; [by left|by right].
Qed.

Lemma Build_sections scans containers tr now :
  let r := Build scans containers tr now in
  sections r = [section_named r StatusFixed; section_named r StatusAffected;
                section_named r StatusWontFix; section_named r StatusEndOfLife].
Proof. done. Qed.

(** No key of the views is of a failed reference. *)
Lemma Build_failed_no_key scans containers tr now ref k :
  Forall (λ s, contains_byte tab (sn_Image s) = false) scans →
  Forall (λ s, failed_scan s = true) (scans_of ref scans) → keyImage k = ref →
  (ordinary_view (Build scans containers tr now)).1 !! k = None ∧
  (eol_view (Build scans containers tr now)).1 !! k = None.
Proof.
  intros Htab Hall Hk. set (r := Build scans containers tr now).
  assert (Hin : ∀ img, img ∈ mjoin (sections r) → keyImage k = if_Image img → False).
  { intros img Himg E. subst r. rewrite Build_sections in Himg. cbn [mjoin list_join] in Himg.
    rewrite !elem_of_app, elem_of_nil in Himg.
    assert (Hs : ∃ section, img ∈ section_named (Build scans containers tr now) section) by naive_solver.
    destruct Hs as [section Hs]. apply (Build_failed_no_image _ _ _ _ ref _ _ Hall Hs). congruence. }
  assert (Hkey : ∀ img g, img ∈ mjoin (sections r) → k = key (if_Image img) (pg_Package g) → False).
  { intros img g Himg ->. apply (Hin img Himg). apply keyImage_key.
    subst r. rewrite Build_sections in Himg. cbn [mjoin list_join] in Himg.
    rewrite !elem_of_app, elem_of_nil in Himg.
    assert (Hs : ∃ section, img ∈ section_named (Build scans containers tr now) section) by naive_solver.
    destruct Hs as [section (s & Hs & ->)%Build_images_scanned]. rewrite Forall_forall in Htab. by apply Htab. }
  split; apply eq_None_not_Some; intros (img & g & Himg & _ & E)%mergeSections_key;
    apply (Hkey img g); try done; cbn [mjoin list_join sections] in *; rewrite !elem_of_app in *; tauto.
Qed.

End failed.

(** A record of an observed reference is carried over as it is, unless the
    reference took over another's history. *)
Lemma carried_observed `{R : MapRange} prev obs o k :
  NoDup (io_Ref <$> obs) → state_keyed prev → o ∈ obs → io_ScanFailed o = true → keyImage k = io_Ref o →
  st_Findings (carryOverRefChanges prev obs).1 !! k = st_Findings prev !! k ∧
  st_EOLPackages (carryOverRefChanges prev obs).1 !! k = st_EOLPackages prev !! k ∧
  st_Muted (carryOverRefChanges prev obs).1 !! k = st_Muted prev !! k ∧
  st_EOSL (carryOverRefChanges prev obs).1 !! io_Ref o = st_EOSL prev !! io_Ref o.
Proof.
  intros Hnd Hk Ho Hf E. destruct (carryOver_carried prev obs Hnd Hk) as [C1 C2 C3 C4].
  destruct (pairRefChanges_NoDup prev obs) as [Hp _].
  set (moved := moved_refs (pairRefChanges prev obs)) in *.
  assert (Hold : moved !! io_Ref o = None).
  { apply eq_None_not_Some. intros [n (c & Hc & E1 & _)%(moved_refs_lookup _ _ _ Hp)].
    apply (pd_gone _ _ _ (pairRefChanges_paired _ _ _ Hnd Hc)). rewrite E1. by apply list_elem_of_fmap_2. }
  assert (Hnew : ∀ ref n, moved !! ref = Some n → n ≠ io_Ref o ∧ contains_byte tab n = false).
  { intros ref n (c & Hc & _ & E2)%(moved_refs_lookup _ _ _ Hp). rewrite <- E2.
    pose proof (pairRefChanges_paired _ _ _ Hnd Hc) as Hpd.
    split; [|apply repository_no_tab; by eapply pd_repository].
    intros E3. destruct (pd_confirmed _ _ _ Hpd) as (o' & Ho' & E4 & Hconf & _).
    assert (o' = o) as -> by (eapply (NoDup_fmap_inj_elem io_Ref obs); [done..|congruence]).
    unfold entityConfirmed in Hconf. by rewrite Hf in Hconf. }
  assert (Hre : ∀ k0, keyImage k0 = io_Ref o ∨ rekey moved k0 = k → rekey moved k0 = k0 ∧ moved !! keyImage k0 = None).
  { intros k0 Hor. unfold rekey in *. destruct (moved !! keyImage k0) as [n|] eqn:E0; [|done].
    destruct (Hnew _ _ E0) as [Hn Ht]. destruct Hor as [Hor|Hor]; [congruence|].
    exfalso. apply Hn. by rewrite <- E, <- Hor, keyImage_key. }
  assert (Hstep : ∀ V (m m' : gmap string V) (g : string → V → V),
    (∀ k0 v, moved !! keyImage k0 = None → g k0 v = v) →
    (∀ k' v', m' !! k' = Some v' ↔ ∃ k0 v, m !! k0 = Some v ∧ k' = rekey moved k0 ∧ v' = g k0 v) →
    m' !! k = m !! k).
  { intros V m m' g Hg Hm. apply option_eq. intros v. rewrite Hm. split.
    - intros (k0 & v0 & Hv & E0 & ->). destruct (Hre k0 (or_intror (eq_sym E0))) as [E1 E2].
      rewrite E1 in E0. subst k0. by rewrite Hg.
    - intros Hv. destruct (Hre k (or_introl E)) as [E1 E2]. exists k, v. by rewrite E1, Hg. }
  split_and!.
  - apply (Hstep _ _ _ (move_entry moved)); [|done]. intros k0 v E0. unfold move_entry. by rewrite E0.
  - by apply (Hstep _ _ _ (λ _ v, v)).
  - by apply (Hstep _ _ _ (λ _ v, v)).
  - apply option_eq. intros t. rewrite C4. split.
    + intros (ref & t' & Ht & E0 & ->). destruct (moved !! ref) as [n|] eqn:En; cbn [from_option id] in E0.
      * destruct (Hnew _ _ En) as [Hn _]. congruence.
      * by subst ref.
    + intros Ht. exists (io_Ref o), t. by rewrite Hold.
Qed.

(** C2: a reference whose scans all failed keeps its history. When every scan
    of a reference fails, its findings, its end-of-life packages, its muting
    and its base-system record go unchanged from the previous state to the
    next, and nothing about it is announced as new, changed or resolved. *)
Theorem failed_scans_keep_history `{R : MapRange} `{GoUnicodeUpper} prev scans containers tr now ref :
  state_keyed prev → Forall (λ s, contains_byte tab (sn_Image s) = false) scans →
  scans_of ref scans ≠ [] → Forall (λ s, failed_scan s = true) (scans_of ref scans) →
  let '(d, next) := Compute prev (Build scans containers tr now) in
  (∀ k, keyImage k = ref →
     st_Findings next !! k = st_Findings prev !! k ∧
     st_EOLPackages next !! k = st_EOLPackages prev !! k ∧
     (is_Some (st_Findings prev !! k) → flag (st_Muted next) k = flag (st_Muted prev) k)) ∧
  st_EOSL next !! ref = st_EOSL prev !! ref ∧
  (∀ ch, ch ∈ df_Changes d → ch_Image ch ≠ ref) ∧ (∀ rs, rs ∈ df_Resolved d → rs_Image rs ≠ ref) ∧
  (∀ ch, ch ∈ df_NewEOLPackages d → ec_Image ch ≠ ref) ∧
  (∀ rs, rs ∈ df_ResolvedEOLPackages d → re_Image rs ≠ ref) ∧
  ref ∉ df_NewEOSL d ∧ ref ∉ df_ResolvedEOSL d.
Proof.
  intros Hk Htab Hne Hall. set (r := Build scans containers tr now).
  destruct (Build_failed_observation scans containers tr now ref Hne Hall) as (o & Ho & Hro & Hfo). fold r in Ho.
  assert (Hnd : NoDup (io_Ref <$> rp_Images r)) by apply Build_Images_NoDup.
  assert (Hfull : ref ∈ fl_fullyFailed (report_flags r)) by (apply elem_of_failed; by exists o).
  assert (Hkeys : ∀ k, keyImage k = ref → (ordinary_view r).1 !! k = None ∧ (eol_view r).1 !! k = None)
    by (intros k; by apply Build_failed_no_key).
  assert (Hff : ∀ k, keyImage k = ref → fully_failed (report_flags r) k = true).
  { intros k Ek. unfold fully_failed. rewrite Ek. by apply bool_decide_eq_true_2. }
  assert (Hus : ∀ k, keyImage k = ref → unsettled r k = true).
  { intros k Ek. unfold unsettled. by rewrite (Hff k Ek). }
  assert (Heosl : ref ∉ rp_EOSLImages r).
  { intros Hin. apply (Build_EOSL_scanned scans containers tr now) in Hin as (s & Hs & Es & ->).
    rewrite Forall_forall in Hall. specialize (Hall s). unfold failed_scan in Hall. rewrite Es in Hall.
    discriminate Hall. by apply list_elem_of_filter. }
  unfold Compute. pose proof (λ k, carried_observed prev (rp_Images r) o k Hnd Hk Ho Hfo) as Hcar.
  rewrite Hro in Hcar. destruct (carryOverRefChanges prev (rp_Images r)) as [before rc]. cbn [fst snd] in *.
  pose proof (next_Findings before rc r) as Nf. pose proof (next_EOLPackages before rc r) as Ne.
  pose proof (next_Muted before rc r) as Nm. pose proof (next_EOSL before rc r ref) as Nb.
  pose proof (elem_of_Changes before rc r) as Hch. pose proof (elem_of_Resolved before rc r) as Hres.
  pose proof (elem_of_NewEOL before rc r) as Hech. pose proof (elem_of_ResolvedEOL before rc r) as Heres.
  pose proof (elem_of_NewEOSL before rc r ref) as Hb. pose proof (elem_of_ResolvedEOSL before rc r ref) as Hbres.
  destruct (compute_carried before rc r) as [d next]. cbn [fst snd] in *.
  split; [|split; [|split_and!]].
  - intros k Ek. destruct (Hkeys k Ek) as [E1 E2]. destruct (Hcar k Ek) as (Cf & Ce & Cm & _).
    specialize (Nf k). specialize (Ne k). specialize (Nm k). rewrite E1 in Nf, Nm. rewrite E2 in Ne.
    assert (Hc : ∀ e, carry_of (report_flags r) (ordinary_view r).1 k e = Some e).
    { intros e. unfold carry_of. by rewrite E1, bool_decide_eq_false_2, (Hff k Ek) by by intros [? ?]. }
    split; [|split].
    + rewrite Nf, Cf. destruct (st_Findings prev !! k); [|done]. apply Hc.
    + rewrite Ne, Ce. destruct (st_EOLPackages prev !! k); [|done]. cbn [mbind option_bind].
      by rewrite carry_eol_of_unsettled, (Hus k Ek).
    + intros [e He]. unfold flag in *. rewrite Nm, Cf, He, Cm. cbn [mbind option_bind]. rewrite Hc.
      rewrite (bool_decide_eq_true_2 (is_Some (Some e))) by by eexists.
      assert (Hmute : ∀ e', eol_mute_of before (report_flags r) (eol_view r).1 k e' = None).
      { intros e'. unfold eol_mute_of. by rewrite (Hff k Ek), andb_false_r. }
      assert (Hb0 : st_EOLPackages before !! k ≫= eol_mute_of before (report_flags r) (eol_view r).1 k = None).
      { destruct (st_EOLPackages before !! k); [apply Hmute|done]. }
      rewrite Hb0. cbn [or_else andb]. destruct (st_Muted prev !! k) as [[]|]; done.
  - rewrite Nb, decide_False by done. destruct (Hcar (key ref "") ) as (_ & _ & _ & Cb).
    { apply keyImage_key. destruct (scans_of ref scans) as [|s l] eqn:El; [done|].
      assert (Hs : s ∈ scans_of ref scans) by (rewrite El; left).
      apply list_elem_of_filter in Hs as [<- Hs]. rewrite Forall_forall in Htab. by apply Htab. }
    rewrite Cb. destruct (st_EOSL prev !! ref); [|done]. cbn [mbind option_bind]. unfold carry_eosl_of, eosl_failed.
    by rewrite bool_decide_eq_true_2.
  - intros ch (k & c & E1 & _ & ->)%Hch Ei. cbn [change_of ch_Image] in Ei.
    destruct (Hkeys k Ei) as [E2 _]. by rewrite E1 in E2.
  - intros rs (k & e & _ & _ & _ & E3 & ->)%Hres Ei. by rewrite (Hus k Ei) in E3.
  - intros ch (k & c & E1 & _ & ->)%Hech Ei. cbn [eol_change ec_Image] in Ei.
    destruct (Hkeys k Ei) as [_ E2]. by rewrite E1 in E2.
  - intros rs (k & e & _ & _ & E3 & ->)%Heres Ei. by rewrite (Hus k Ei) in E3.
  - rewrite Hb. by intros [? _].
  - rewrite Hbres. intros (_ & _ & E). unfold eosl_failed in E. by rewrite bool_decide_eq_true_2 in E.
Qed.

(** ** A cycle with nothing new *)

Lemma Rank_higher p q : Rank p <= Rank (higher p q) ∧ Rank q <= Rank (higher p q).
Proof. unfold higher. destruct (Nat.ltb_spec (Rank p) (Rank q)); lia. Qed.

(** The same report, made at another time. *)
Definition later (r : Report) (now : Z) : Report :=
  mk_report (rp_ImagesTotal r) (rp_EOSLImages r) (rp_Actionable r) (rp_Watch r) (rp_WontFix r)
    (rp_EOLPackages r) (rp_ScanErrors r) (rp_Images r) (rp_UnconfirmedRefs r) (rp_RuntimeUnchecked r)
    (rp_Triage r) (rp_Intel r) now (rp_Environment r) (rp_Runtime r) (rp_GenericWebhookConfigured r).

Section quiet.
Context `{R : MapRange}.
Variables (prev : State) (rc : list RefChange) (r : Report) (now' : Z).
Hypothesis (Hnd : NoDup (io_Ref <$> rp_Images r)).

Notation next := (compute_carried prev rc r).2.
Notation fl := (report_flags r).
Notation cur := (ordinary_view r).1.
Notation curEOL := (eol_view r).1.

Lemma nextImages_lookup prevImages now o :
  o ∈ rp_Images r →
  ∃ m, nextImages prevImages (rp_Images r) now !! io_Ref o = Some m ∧ im_ContentIDs m = io_ContentIDs o.
Proof.
  unfold nextImages. revert Hnd. induction (rp_Images r) as [|o' l IH] using rev_ind; [by intros _ ?%not_elem_of_nil|].
  rewrite fmap_app. intros (Hl & Hdis & _)%NoDup_app. rewrite foldl_app. cbn [foldl]. unfold next_image at 1.
  rewrite elem_of_app, list_elem_of_singleton. intros [Ho| ->].
  - rewrite lookup_insert_ne; [by apply IH|]. intros E. apply (Hdis (io_Ref o)); [by apply list_elem_of_fmap_2|].
    rewrite <- E. by apply list_elem_of_singleton.
  - rewrite lookup_insert_eq. by eexists.
Qed.

Lemma next_no_moves : carryOverRefChanges next (rp_Images r) = (next, []).
Proof.
  destruct (result_parts prev rc r) as (_ & _ & _ & _ & Hi & _).
  assert (E : appearedRefs next (rp_Images r) = []).
  { destruct (appearedRefs next (rp_Images r)) as [|a l] eqn:E; [done|].
    assert (Ha : a ∈ appearedRefs next (rp_Images r)) by (rewrite E; left).
    apply elem_of_appearedRefs in Ha as (o & Ho & Hn & _). rewrite Hi in Hn.
    destruct (nextImages_lookup (st_Images prev) (rp_GeneratedAt r) o Ho) as (m & Hm & _). by rewrite Hm in Hn. }
  unfold carryOverRefChanges, pairRefChanges. rewrite E. cbn [length]. by rewrite orb_true_r.
Qed.

Lemma next_not_replaced : replacedImages (st_Images next) (rp_Images r) = [].
Proof.
  destruct (result_parts prev rc r) as (_ & _ & _ & _ & -> & _). unfold replacedImages.
  assert (E : omap (replacement (nextImages (st_Images prev) (rp_Images r) (rp_GeneratedAt r))) (rp_Images r) = []).
  { apply elem_of_nil_inv. intros x (o & Ho & Hx)%list_elem_of_omap.
    destruct (nextImages_lookup (st_Images prev) (rp_GeneratedAt r) o Ho) as (m & Hm & Hc).
    unfold replacement in Hx. rewrite Hm, Hc in Hx.
    destruct (_ || _); [done|]. by rewrite (proj2 (equalStrings_eq _ _) eq_refl) in Hx. }
  by rewrite E.
Qed.

Lemma next_resolves_nothing :
  df_Resolved (compute_carried next [] (later r now')).1 = [] ∧
  df_ResolvedEOLPackages (compute_carried next [] (later r now')).1 = [] ∧
  df_ResolvedEOSL (compute_carried next [] (later r now')).1 = [] ∧
  df_NewEOSL (compute_carried next [] (later r now')).1 = [].
Proof.
  split_and!; apply elem_of_nil_inv; intros x.
  - intros (k & e & He & E1 & E2 & E3 & _)%elem_of_Resolved.
    change (ordinary_view (later r now')) with (ordinary_view r) in E1.
    change (unsettled (later r now') k) with (unsettled r k) in E3.
    rewrite next_Findings, E1 in He. destruct (st_Findings prev !! k) as [e0|]; [|done].
    cbn [mbind option_bind] in He. pose proof (carry_of_unsettled r k e0 E1) as H'. rewrite E3 in H'. congruence.
  - intros (k & e & He & E2 & E3 & _)%elem_of_ResolvedEOL.
    change (eol_view (later r now')) with (eol_view r) in E2.
    change (unsettled (later r now') k) with (unsettled r k) in E3.
    rewrite next_EOLPackages, E2 in He. destruct (st_EOLPackages prev !! k) as [e0|]; [|done].
    cbn [mbind option_bind] in He. rewrite carry_eol_of_unsettled, E3 in He by done. done.
  - intros ([t Ht] & Hn & E)%elem_of_ResolvedEOSL. change (rp_EOSLImages (later r now')) with (rp_EOSLImages r) in Hn.
    change (report_flags (later r now')) with (report_flags r) in E.
    rewrite next_EOSL, decide_False in Ht by done. destruct (st_EOSL prev !! x); [|done].
    cbn [mbind option_bind] in Ht. unfold carry_eosl_of in Ht. by rewrite E in Ht.
  - intros [Hi E]%elem_of_NewEOSL. change (rp_EOSLImages (later r now')) with (rp_EOSLImages r) in Hi.
    by rewrite next_EOSL, decide_True in E.
Qed.

Hypothesis (Hunchecked : ∀ k, is_Some (cur !! k) → unchecked_key fl k = false).

(** What the state holds of a finding that is still in the report. *)
Lemma next_current k c :
  cur !! k = Some c →
  let e := stored_entry prev fl (rp_GeneratedAt r) k c in
  st_Findings next !! k = Some e ∧ flag (st_Muted next) k = muted_now prev fl k c ∧
  Rank (MaxPriority (cu_groups c)) <= Rank (ent_Priority e) ∧
  (∀ id, id ∈ sortedIDs (cu_ids c) → id ∈ ent_VulnIDs e) ∧
  (cu_fixable c = true → ent_Fixable e = true).
Proof.
  intros Hc. cbv zeta. split; [by rewrite next_Findings, Hc|]. split.
  { unfold flag. rewrite next_Muted, Hc.
    assert (E : st_EOLPackages prev !! k ≫= eol_mute_of prev fl curEOL k = None).
    { destruct (st_EOLPackages prev !! k); [|done]. cbn [mbind option_bind]. unfold eol_mute_of.
      by rewrite (Hunchecked k), andb_false_r by by eexists. }
    rewrite E. cbn [or_else]. by destruct (muted_now prev fl k c). }
  unfold stored_entry. destruct (held prev fl k); cbn [ent_Priority ent_VulnIDs ent_Fixable].
  - split; [apply Rank_higher|]. split; [intros id Hid; apply elem_of_mergeSorted; by left|]. by intros ->.
  - done.
Qed.

Lemma next_changes_nothing : df_Changes (compute_carried next [] (later r now')).1 = [].
Proof.
  apply elem_of_nil_inv. intros ch (k & c & Hc & Hne & _)%elem_of_Changes. apply Hne. clear Hne.
  change (ordinary_view (later r now')) with (ordinary_view r) in Hc.
  change (report_flags (later r now')) with (report_flags r).
  change (rp_Intel (later r now')) with (rp_Intel r).
  destruct (next_current k c Hc) as (Hf & Hm & Hp & Hids & Hfix).
  set (e := stored_entry prev fl (rp_GeneratedAt r) k c) in *. clearbody e.
  assert (Hk : known_entry next k = true) by (unfold known_entry; by rewrite Hf, bool_decide_eq_true_2).
  assert (Hpe : prev_entry next k = e) by (unfold prev_entry; by rewrite Hf).
  assert (Hkind : ordinary_kind next (Degraded (rp_Intel r)) k c = "").
  { unfold ordinary_kind. rewrite Hk. cbn [orb negb]. unfold base_prio. rewrite Hpe.
    rewrite (proj2 (Nat.ltb_ge _ _)), andb_false_r.
    2: { etrans; [exact Hp|]. apply Rank_higher. }
    unfold added_ids. rewrite newIDs_nil.
    2: { intros id Hid. unfold base_ids. rewrite Hpe. destruct (known_eol next k); [|by apply Hids].
         apply elem_of_mergeSorted. left. by apply Hids. }
    cbn [length Nat.ltb Nat.leb]. destruct (cu_fixable c); [by rewrite Hfix|done]. }
  unfold change_kind. rewrite Hkind. cbn [String.eqb negb].
  unfold became_unmuted. rewrite Hm. unfold muted_now, held. rewrite Hk, andb_true_r.
  destruct (partially_failed fl k) eqn:Hpf; [by rewrite andb_false_r|]. cbn [andb negb].
  by destruct (allMuted (cu_groups c)).
Qed.

Lemma next_eol_changes_nothing : df_NewEOLPackages (compute_carried next [] (later r now')).1 = [].
Proof.
  apply elem_of_nil_inv. intros ch (k & c & Hc & Hne & _)%elem_of_NewEOL. apply Hne. clear Hne.
  change (eol_view (later r now')) with (eol_view r) in Hc. change (rp_Intel (later r now')) with (rp_Intel r).
  pose proof (next_EOLPackages prev rc r k) as He. rewrite Hc in He.
  unfold eol_kind, known_eol, added_eol_ids, prev_eol. rewrite He.
  rewrite bool_decide_eq_true_2 by by eexists. cbn [negb from_option id].
  assert (Hp : Rank (MaxPriority (cu_groups c)) <= Rank (eol_Priority (stored_eol prev fl (rp_GeneratedAt r) k c))).
  { unfold stored_eol. destruct (_ && _); cbn [eol_Priority]; [apply Rank_higher|done]. }
  rewrite (proj2 (Nat.ltb_ge _ _) Hp), andb_false_r, newIDs_nil; [done|].
  intros id Hid. unfold stored_eol. destruct (_ && _); cbn [eol_VulnIDs]; [|done].
  apply elem_of_mergeSorted. by left.
Qed.

End quiet.

(** C4: a cycle that sees the same thing reports nothing. After any cycle, a
    second one on the same report, however much later, has no change of any
    kind to announce: carry-over, conservative merging and holding never make
    a record oscillate. (Provided every runtime among the current findings was
    checked; [unchecked_unmuted_repeats] shows why.) *)
Theorem unchanged_report_is_quiet `{R : MapRange} prev r now' :
  NoDup (io_Ref <$> rp_Images r) →
  (∀ k, is_Some ((ordinary_view r).1 !! k) → unchecked_key (report_flags r) k = false) →
  HasChanges (Compute (Compute prev r).2 (later r now')).1 = false.
Proof.
  intros Hnd Hun. unfold Compute at 2. set (before := (carryOverRefChanges prev (rp_Images r)).1).
  set (rc := (carryOverRefChanges prev (rp_Images r)).2). unfold Compute.
  change (rp_Images (later r now')) with (rp_Images r). rewrite next_no_moves by done. cbn [fst snd].
  destruct (next_resolves_nothing before rc r now') as (H1 & H2 & H3 & H4).
  unfold HasChanges. rewrite next_changes_nothing, next_eol_changes_nothing, H1, H2, H3, H4 by done.
  destruct (result_parts (compute_carried before rc r).2 [] (later r now')) as
    (_ & _ & _ & _ & _ & _ & _ & _ & _ & _ & _ & -> & ->).
  change (rp_Images (later r now')) with (rp_Images r). by rewrite next_not_replaced.
Qed.

(** ** Witnesses and examples *)

Definition example_report_of (groups : list PackageGroup) (obs : list ImageObservation)
    (unchecked : list RuntimeUncheckedRef) : Report :=
  mk_report 1 [] [] [mk_findings "app:1" (mk_subject "app:1" zero_entity false) false groups []] [] [] [] obs
    [] unchecked true (mk_intel true true 0) 100 (mk_environment "" "") None false.

(** The hypothesis of [unchanged_report_is_quiet] is needed: when a package
    that is in the report is also unchecked and has an end-of-life record, the
    end-of-life loop carries its muting mark over although the ordinary side
    has just judged it, and the same change is announced again. *)
Lemma unchecked_unmuted_repeats :
  let k := key "app:1" "curl" in
  let r := example_report_of [example_group StatusAffected PriorityLow "in_use"] [example_obs "app:1" "web"]
             [mk_unchecked "app:1" "curl"] in
  let prev := mk_state 1 {[k := mk_entry 7 false PriorityLow [] ""]} ∅
                {[k := mk_eol_entry 7 PriorityLow []]} ∅ None {[k := true]} None in
  let '(d1, s1) := Compute prev r in
  let '(d2, s2) := Compute s1 (later r 200) in
  (ch_Kind <$> df_Changes d1) = [KindUnmuted] ∧ (ch_Kind <$> df_Changes d2) = [KindUnmuted].
Proof. by vm_compute. Qed.

Lemma Compute_accounts_for_every_finding_witness :
  let r := example_report_of [] [example_obs "app:1" "web"] [] in
  let '(d, next) := Compute example_state r in
  st_Findings next !! key "app:1" "curl" = None ∧ mk_resolved "app:1" "curl" ∈ df_Resolved d.
Proof.
  split; [by vm_compute|].
  destruct (proj1 (Compute_accounts_for_every_finding example_state
    (example_report_of [] [example_obs "app:1" "web"] []) (key "app:1" "curl") example_entry))
    as [(e' & He & _)|[[Hc _]|Hr]].
  - by vm_compute.
  - by vm_compute in He.
  - exfalso. apply (is_Some_None (A := current)). by vm_compute in Hc.
  - exact Hr.
Defined.

Definition example_failed : list ImageScan := [example_scan "app:1" (Some "timeout") []].

Lemma failed_scans_keep_history_witness :
  let next := (Compute example_state (Build example_failed [] example_triage 100)).2 in
  st_Findings next !! key "app:1" "curl" = Some example_entry.
Proof.
  intros next.
  pose proof (failed_scans_keep_history example_state example_failed [] example_triage 100 "app:1") as H.
  destruct (Compute example_state (Build example_failed [] example_triage 100)) as [d next'] eqn:E.
  unfold next. destruct H as [H _].
  - split_and!; intros k; cbn [example_state st_Findings st_EOLPackages st_Muted];
      [|by rewrite lookup_empty; intros [? ?]..]. rewrite lookup_singleton_is_Some. intros <-. apply keyed_key.
  - by repeat (apply List.Forall_cons; [by vm_compute|]).
  - by vm_compute.
  - by repeat (apply List.Forall_cons; [by vm_compute|]).
  - cbn [snd]. rewrite (proj1 (H (key "app:1" "curl") eq_refl)). by vm_compute.
Defined.

Lemma unchanged_report_is_quiet_witness :
  let r := example_report_of [example_group StatusAffected PriorityLow "in_use"] [example_obs "app:1" "web"] [] in
  HasChanges (Compute empty_state r).1 = true ∧
  HasChanges (Compute (Compute empty_state r).2 (later r 200)).1 = false.
Proof.
  intros r. split; [by vm_compute|]. apply (unchanged_report_is_quiet empty_state r 200).
  - apply (bool_decide_unpack (NoDup _)). by vm_compute.
  - intros k _. unfold unchecked_key. apply bool_decide_eq_false_2. apply not_elem_of_empty.
Defined.
