(* ===== verification/Bpf.v ===== *)
(** * Bpf: the label-based assembler of seccomp programs

    [internal/sensor/sandbox/bpf.go]: labelled instructions, their resolution
    into the relative jumps of classic BPF, and the constructors of single
    instructions. The operation codes come from golang.org/x/sys/unix and are
    a parameter ([BpfABI]).

    Two semantics give the assembler its meaning. [exec] is the machine the
    kernel runs, on assembled instructions and relative offsets; [lexec] reads
    the labelled program, where a jump goes to the instruction that carries
    the label. [assemble] is proved to preserve one into the other, to emit
    only programs that [seccomp_check], the kernel's test of a filter,
    accepts, and every accepted program is proved to reach a verdict within
    as many steps as it has instructions. *)

From Stdlib Require Import ZArith Lia Bool String List.
From stdpp Require Import base gmap strings list.
From S2P Require Import Prelude.

Open Scope string_scope.
Open Scope Z_scope.
Open Scope list_scope.

(** ** Go's results, and the conversions to unsigned integers *)

Inductive result (E A : Type) : Type :=
  | Ok (a : A)
  | Err (e : E).
Arguments Ok {E A} a.
Arguments Err {E A} e.

#[export] Instance result_ret E : MRet (result E) := λ A a, Ok a.
#[export] Instance result_bind E : MBind (result E) :=
  λ A B f r, match r with Ok a => f a | Err e => Err e end.

Definition u8 (z : Z) : Z := z mod 2 ^ 8.
Definition u32 (z : Z) : Z := z mod 2 ^ 32.
Definition u64 (z : Z) : Z := z mod 2 ^ 64.

Lemma u32_id z : 0 <= z < 2 ^ 32 → u32 z = z.
Proof. intros. by apply Z.mod_small. Qed.

Lemma u8_id z : 0 <= z < 2 ^ 8 → u8 z = z.
Proof. intros. by apply Z.mod_small. Qed.

(** ** Instructions *)

Class BpfABI := {
  BPF_LD : Z; BPF_W : Z; BPF_ABS : Z;
  BPF_JMP : Z; BPF_JA : Z; BPF_JEQ : Z; BPF_JSET : Z; BPF_K : Z;
  BPF_RET : Z; BPF_ALU : Z; BPF_AND : Z;
  BPF_MAXINSNS : Z;
}.

(** [unix.SockFilter]. *)
Record SockFilter := mkSockFilter { Code : Z; Jt : Z; Jf : Z; K : Z }.

Record insn := mkInsn {
  label : string;
  sf : SockFilter;
  isCond : bool;
  jt : string;
  jf : string;
  isJA : bool;
  ja : string;
}.

Definition seccompDataOffNr : Z := 0.
Definition seccompDataOffArch : Z := 4.
Definition seccompDataOffArgBase : Z := 16.

Definition argOffsetLow (i : Z) : Z := u32 (seccompDataOffArgBase + i * 8).
Definition argOffsetHigh (i : Z) : Z := u32 (seccompDataOffArgBase + i * 8 + 4).

Section Assembler.
Context `{BpfABI}.

Definition stmt (code k : Z) : insn :=
  mkInsn "" (mkSockFilter code 0 0 k) false "" "" false "".

Definition labeled (l : string) (i : insn) : insn :=
  mkInsn l (sf i) (isCond i) (jt i) (jf i) (isJA i) (ja i).

Definition condJump (code k : Z) (jt jf : string) : insn :=
  mkInsn "" (mkSockFilter code 0 0 k) true jt jf false "".

Definition jumpAlways (target : string) : insn :=
  mkInsn "" (mkSockFilter (Z.lor BPF_JMP BPF_JA) 0 0 0) false "" "" true target.

Definition ld_w_abs : Z := Z.lor (Z.lor BPF_LD BPF_W) BPF_ABS.
Definition jmp_ja : Z := Z.lor BPF_JMP BPF_JA.
Definition jmp_jeq_k : Z := Z.lor (Z.lor BPF_JMP BPF_JEQ) BPF_K.
Definition jmp_jset_k : Z := Z.lor (Z.lor BPF_JMP BPF_JSET) BPF_K.
Definition ret_k : Z := Z.lor BPF_RET BPF_K.
Definition alu_and_k : Z := Z.lor (Z.lor BPF_ALU BPF_AND) BPF_K.

Definition loadNr : insn := stmt ld_w_abs seccompDataOffNr.
Definition loadArch : insn := stmt ld_w_abs seccompDataOffArch.
Definition loadArgLow (i : Z) : insn := stmt ld_w_abs (argOffsetLow i).
Definition loadArgHigh (i : Z) : insn := stmt ld_w_abs (argOffsetHigh i).
Definition jeq (k : Z) (jt jf : string) : insn := condJump jmp_jeq_k k jt jf.
Definition jset (k : Z) (jt jf : string) : insn := condJump jmp_jset_k k jt jf.
Definition ret (action : Z) : insn := stmt ret_k action.
Definition andK (k : Z) : insn := stmt alu_and_k k.

(** ** Assembling *)

Inductive asm_error :=
  | ErrDuplicateLabel (l : string)
  | ErrUndefinedLabel (l : string)
  | ErrBackwards (l : string) (from target : Z)
  | ErrOffsetRange (i jt jf : Z)
  | ErrTooLong (n : Z).

(** The map of label positions, built before any jump is resolved. *)
Fixpoint label_positions (i : nat) (prog : list insn) (pos : gmap string nat)
    : result asm_error (gmap string nat) :=
  match prog with
  | [] => Ok pos
  | x :: prog' =>
      if String.eqb (label x) "" then label_positions (S i) prog' pos
      else match pos !! label x with
           | Some _ => Err (ErrDuplicateLabel (label x))
           | None => label_positions (S i) prog' (<[label x := i]> pos)
           end
  end.

Definition resolve (pos : gmap string nat) (from : nat) (l : string) : result asm_error Z :=
  match pos !! l with
  | None => Err (ErrUndefinedLabel l)
  | Some target =>
      let off := Z.of_nat target - (Z.of_nat from + 1) in
      if off <? 0 then Err (ErrBackwards l (Z.of_nat from) (Z.of_nat target)) else Ok (u32 off)
  end.

(** One iteration of the emitting loop. *)
Definition emit (pos : gmap string nat) (i : nat) (x : insn) : result asm_error SockFilter :=
  if isJA x then
    off ← resolve pos i (ja x); Ok (mkSockFilter (Z.lor BPF_JMP BPF_JA) 0 0 off)
  else if isCond x then
    t ← resolve pos i (jt x);
    f ← resolve pos i (jf x);
    if (t >? 0xff) || (f >? 0xff) then Err (ErrOffsetRange (Z.of_nat i) t f)
    else Ok (mkSockFilter (Code (sf x)) (u8 t) (u8 f) (K (sf x)))
  else Ok (sf x).

Fixpoint emit_all (pos : gmap string nat) (i : nat) (prog : list insn)
    : result asm_error (list SockFilter) :=
  match prog with
  | [] => Ok []
  | x :: prog' =>
      f ← emit pos i x;
      out ← emit_all pos (S i) prog';
      Ok (f :: out)
  end.

Definition too_long (n : nat) : bool := Z.of_nat n >? BPF_MAXINSNS.

Definition assemble (prog : list insn) : result asm_error (list SockFilter) :=
  pos ← label_positions 0 prog ∅;
  out ← emit_all pos 0 prog;
  if too_long (length out) then Err (ErrTooLong (Z.of_nat (length out))) else Ok out.

(** ** The machine *)

(** [struct seccomp_data]: the call a filter judges. *)
Record seccomp_data := mkData {
  sd_nr : Z;
  sd_arch : Z;
  sd_ip : Z;
  sd_args : list Z;
}.

Definition low32 (w : Z) : Z := Z.land w (Z.ones 32).
Definition high32 (w : Z) : Z := Z.shiftr w 32.

Definition sd_arg (d : seccomp_data) (i : nat) : Z := default 0 (sd_args d !! i).

(** A 32-bit load of the record, little-endian; the kernel refuses a filter
    that loads at any other offset. *)
Definition load_ok (k : Z) : bool := (0 <=? k) && (k <? 64) && (k mod 4 =? 0).

Definition load_word (d : seccomp_data) (k : Z) : Z :=
  if k =? 0 then sd_nr d
  else if k =? 4 then sd_arch d
  else if k =? 8 then low32 (sd_ip d)
  else if k =? 12 then high32 (sd_ip d)
  else let a := sd_arg d (Z.to_nat ((k - 16) / 8)) in
       if (k - 16) mod 8 =? 0 then low32 a else high32 a.

Inductive opcode := OpLd | OpJa | OpJeq | OpJset | OpAnd | OpRet.

#[export] Instance opcode_eq_dec : EqDecision opcode.
Proof. solve_decision. Defined.

Definition decode (code : Z) : option opcode :=
  if code =? ld_w_abs then Some OpLd
  else if code =? jmp_ja then Some OpJa
  else if code =? jmp_jeq_k then Some OpJeq
  else if code =? jmp_jset_k then Some OpJset
  else if code =? alu_and_k then Some OpAnd
  else if code =? ret_k then Some OpRet
  else None.

Inductive outcome :=
  | Next (pc : nat) (acc : Z)
  | Done (action : Z)
  | Fault.

(** A statement that is not a jump. *)
Definition plain_step (op : opcode) (d : seccomp_data) (k : Z) (pc : nat) (acc : Z) : outcome :=
  match op with
  | OpLd => if load_ok k then Next (S pc) (load_word d k) else Fault
  | OpAnd => Next (S pc) (Z.land acc k)
  | OpRet => Done k
  | _ => Fault
  end.

Definition test_of (op : opcode) (acc k : Z) : bool :=
  match op with
  | OpJeq => acc =? k
  | OpJset => negb (Z.land acc k =? 0)
  | _ => false
  end.

Definition is_test (op : opcode) : bool :=
  match op with OpJeq | OpJset => true | _ => false end.

Definition step (prog : list SockFilter) (d : seccomp_data) (pc : nat) (acc : Z) : outcome :=
  match prog !! pc with
  | None => Fault
  | Some f =>
      match decode (Code f) with
      | None => Fault
      | Some OpJa => Next (S pc + Z.to_nat (K f)) acc
      | Some op =>
          if is_test op
          then Next (S pc + Z.to_nat (if test_of op acc (K f) then Jt f else Jf f)) acc
          else plain_step op d (K f) pc acc
      end
  end.

(** [None]: the machine faulted, or [fuel] steps were not enough. *)
Fixpoint exec (fuel : nat) (prog : list SockFilter) (d : seccomp_data) (pc : nat) (acc : Z) : option Z :=
  match fuel with
  | O => None
  | S fuel' =>
      match step prog d pc acc with
      | Next pc' acc' => exec fuel' prog d pc' acc'
      | Done a => Some a
      | Fault => None
      end
  end.

(** A filter is run from its first instruction with a zero accumulator. *)
Definition run_filter (prog : list SockFilter) (d : seccomp_data) : option Z :=
  exec (length prog) prog d 0 0.

(** ** The meaning of a labelled program *)

Fixpoint find_label (prog : list insn) (l : string) : option nat :=
  match prog with
  | [] => None
  | x :: prog' =>
      if negb (String.eqb (label x) "") && String.eqb (label x) l then Some O
      else S <$> find_label prog' l
  end.

Definition goto (prog : list insn) (l : string) (acc : Z) : outcome :=
  match find_label prog l with Some pc => Next pc acc | None => Fault end.

Definition lstep (prog : list insn) (d : seccomp_data) (pc : nat) (acc : Z) : outcome :=
  match prog !! pc with
  | None => Fault
  | Some x =>
      if isJA x then goto prog (ja x) acc
      else match decode (Code (sf x)) with
           | None => Fault
           | Some op =>
               if isCond x
               then goto prog (if test_of op acc (K (sf x)) then jt x else jf x) acc
               else plain_step op d (K (sf x)) pc acc
           end
  end.

Fixpoint lexec (fuel : nat) (prog : list insn) (d : seccomp_data) (pc : nat) (acc : Z) : option Z :=
  match fuel with
  | O => None
  | S fuel' =>
      match lstep prog d pc acc with
      | Next pc' acc' => lexec fuel' prog d pc' acc'
      | Done a => Some a
      | Fault => None
      end
  end.

(** Instructions the constructors of this file build: tests are conditional,
    the other codes are not, loads are of the record. *)
Definition wf_insn (x : insn) : bool :=
  if isJA x then true
  else match decode (Code (sf x)) with
       | Some op => if isCond x then is_test op
                    else match op with
                         | OpLd => load_ok (K (sf x))
                         | OpAnd | OpRet => true
                         | _ => false
                         end
       | None => false
       end.

Definition is_ret (x : insn) : bool :=
  negb (isJA x) && negb (isCond x) && bool_decide (decode (Code (sf x)) = Some OpRet).

(** ** The kernel's test of a filter *)

Definition check_insn (n pc : nat) (f : SockFilter) : bool :=
  match decode (Code f) with
  | Some OpLd => load_ok (K f)
  | Some OpJa => (0 <=? K f) && (Z.of_nat pc + 1 + K f <? Z.of_nat n)
  | Some OpJeq | Some OpJset =>
      (Z.of_nat pc + 1 + Jt f <? Z.of_nat n) && (Z.of_nat pc + 1 + Jf f <? Z.of_nat n) &&
      (0 <=? Jt f) && (Jt f <? 2 ^ 8) && (0 <=? Jf f) && (Jf f <? 2 ^ 8)
  | Some OpAnd | Some OpRet => true
  | None => false
  end.

Definition seccomp_check (prog : list SockFilter) : bool :=
  (0 <? Z.of_nat (length prog)) && negb (too_long (length prog)) &&
  forallb (λ '(pc, f), check_insn (length prog) pc f) (imap pair prog) &&
  match last prog with
  | Some f => bool_decide (decode (Code f) = Some OpRet)
  | None => false
  end.
End Assembler.

(** ** What the kernel's UAPI documents of the codes *)

Class BpfABIOk `{BpfABI} : Prop := {
  opcodes_distinct : NoDup [ld_w_abs; jmp_ja; jmp_jeq_k; jmp_jset_k; alu_and_k; ret_k];
  maxinsns_range : 64 <= BPF_MAXINSNS <= 2 ^ 16;
}.

Section Correctness.
Context `{BpfABIOk}.

Ltac opcode_neq :=
  pose proof opcodes_distinct as Hd;
  rewrite !NoDup_cons in Hd; destruct_and! Hd;
  repeat match goal with Hn : _ ∉ _ |- _ => rewrite ?not_elem_of_cons in Hn; destruct_and! Hn end;
  repeat match goal with |- context [?a =? ?b] => destruct (Z.eqb_spec a b) end;
  congruence.

Lemma decode_ld : decode ld_w_abs = Some OpLd.
Proof. unfold decode. by rewrite Z.eqb_refl. Qed.

Lemma decode_ja : decode jmp_ja = Some OpJa.
Proof. unfold decode. opcode_neq. Qed.

Lemma decode_jeq : decode jmp_jeq_k = Some OpJeq.
Proof. unfold decode. opcode_neq. Qed.

Lemma decode_jset : decode jmp_jset_k = Some OpJset.
Proof. unfold decode. opcode_neq. Qed.

Lemma decode_and : decode alu_and_k = Some OpAnd.
Proof. unfold decode. opcode_neq. Qed.

Lemma decode_ret : decode ret_k = Some OpRet.
Proof. unfold decode. opcode_neq. Qed.

(** ** Labels and their positions *)

Lemma find_label_lt prog l t : find_label prog l = Some t → (t < length prog)%nat.
Proof.
  revert t. induction prog as [|x prog IH]; intros t; cbn; [done|].
  destruct (_ && _); [intros [= <-]; lia|].
  destruct (find_label prog l) as [u|]; [|done]. intros [= <-]. specialize (IH _ eq_refl). lia.
Qed.

Lemma find_label_empty prog : find_label prog "" = None.
Proof.
  induction prog as [|x prog IH]; cbn; [done|]. rewrite IH. by destruct (String.eqb (label x) "").
Qed.

Lemma label_positions_spec i prog pos pos' l :
  label_positions i prog pos = Ok pos' →
  pos' !! l = match pos !! l with Some p => Some p | None => Nat.add i <$> find_label prog l end.
Proof.
  revert i pos. induction prog as [|x prog IH]; intros i pos; cbn.
  - intros [= <-]. by destruct (pos !! l).
  - destruct (String.eqb_spec (label x) "") as [E|E]; cbn.
    + intros Hp. rewrite (IH _ _ Hp). destruct (pos !! l); [done|].
      destruct (find_label prog l); cbn; [f_equal; lia|done].
    + destruct (pos !! label x) eqn:Ex; [done|]. intros Hp. rewrite (IH _ _ Hp).
      destruct (String.eqb_spec (label x) l) as [<-|Hn].
      * rewrite lookup_insert_eq, Ex. cbn. f_equal; lia.
      * rewrite lookup_insert_ne by done. destruct (pos !! l); [done|].
        destruct (find_label prog l); cbn; [f_equal; lia|done].
Qed.

Lemma emit_all_spec pos i prog out :
  emit_all pos i prog = Ok out →
  length out = length prog ∧
  ∀ j x, prog !! j = Some x → ∃ f, out !! j = Some f ∧ emit pos (i + j) x = Ok f.
Proof.
  revert i out. induction prog as [|x prog IH]; intros i out; cbn.
  - intros [= <-]. split; [done|]. by intros j y ?.
  - destruct (emit pos i x) as [f|] eqn:Ef; [|done]. cbn.
    destruct (emit_all pos (S i) prog) as [out'|] eqn:Eo; [|done]. cbn. intros [= <-].
    destruct (IH _ _ Eo) as [Hl Hj]. split; [cbn; lia|].
    intros [|j] y; cbn; [intros [= <-]; exists f; by rewrite Nat.add_0_r|].
    intros Hy. destruct (Hj j y Hy) as (g & Hg & He). exists g. split; [done|].
    by replace (i + S j)%nat with (S i + j)%nat by lia.
Qed.

(** What the assembler emits for the instruction [x] at position [j]. *)
Inductive emitted (prog : list insn) (j : nat) (x : insn) : SockFilter → Prop :=
  | emitted_ja t :
      isJA x = true → find_label prog (ja x) = Some t → (j < t)%nat →
      emitted prog j x (mkSockFilter jmp_ja 0 0 (Z.of_nat (t - S j)))
  | emitted_cond t f :
      isJA x = false → isCond x = true →
      find_label prog (jt x) = Some t → find_label prog (jf x) = Some f →
      (j < t)%nat → (j < f)%nat → (t - S j < 256)%nat → (f - S j < 256)%nat →
      emitted prog j x (mkSockFilter (Code (sf x)) (Z.of_nat (t - S j)) (Z.of_nat (f - S j)) (K (sf x)))
  | emitted_plain :
      isJA x = false → isCond x = false → emitted prog j x (sf x).

Lemma resolve_spec prog pos j l off :
  label_positions 0 prog ∅ = Ok pos → too_long (length prog) = false →
  resolve pos j l = Ok off →
  ∃ t, find_label prog l = Some t ∧ (j < t)%nat ∧ off = Z.of_nat (t - S j).
Proof.
  intros Hp Hs. unfold resolve. rewrite (label_positions_spec _ _ _ _ l Hp), lookup_empty.
  destruct (find_label prog l) as [t|] eqn:El; [|done]. cbn.
  destruct (Z.ltb_spec (Z.of_nat t - (Z.of_nat j + 1)) 0); [done|]. intros [= <-].
  exists t. apply find_label_lt in El. unfold too_long in Hs. pose proof maxinsns_range.
  rewrite u32_id; repeat split; lia.
Qed.

Lemma assemble_spec prog out :
  assemble prog = Ok out →
  length out = length prog ∧ too_long (length prog) = false ∧
  ∀ j x, prog !! j = Some x → ∃ f, out !! j = Some f ∧ emitted prog j x f.
Proof.
  unfold assemble. destruct (label_positions 0 prog ∅) as [pos|] eqn:Hp; [|done]. cbn.
  destruct (emit_all pos 0 prog) as [out'|] eqn:He; [|done]. cbn.
  destruct (emit_all_spec _ _ _ _ He) as [Hl Hj]. rewrite Hl.
  destruct (too_long (length prog)) eqn:Hs; [done|]. intros [= <-].
  split; [done|split; [done|]]. intros j x Hx. destruct (Hj j x Hx) as (f & Hf & E).
  exists f. split; [done|]. cbn in E. unfold emit in E.
  destruct (isJA x) eqn:Eja.
  - destruct (resolve pos j (ja x)) as [off|] eqn:Er; [|done]. injection E as <-.
    destruct (resolve_spec prog pos _ _ _ Hp Hs Er) as (t & ? & ? & ->). by apply emitted_ja.
  - destruct (isCond x) eqn:Ec; [|injection E as <-; by apply emitted_plain].
    destruct (resolve pos j (jt x)) as [a|] eqn:Ea; [|done]. cbn in E.
    destruct (resolve pos j (jf x)) as [b|] eqn:Eb; [|done]. cbn in E.
    destruct (resolve_spec prog pos _ _ _ Hp Hs Ea) as (t & ? & ? & ->).
    destruct (resolve_spec prog pos _ _ _ Hp Hs Eb) as (u & ? & ? & ->).
    destruct (Z.gtb_spec (Z.of_nat (t - S j)) 255); [done|].
    destruct (Z.gtb_spec (Z.of_nat (u - S j)) 255); [done|]. cbn in E. injection E as <-.
    rewrite !u8_id by lia. apply emitted_cond; auto; lia.
Qed.

(** Whether a program assembles depends on its labels alone. *)
Definition is_Ok {E A} (r : result E A) : bool := match r with Ok _ => true | Err _ => false end.

Definition skeleton (x : insn) : insn :=
  mkInsn (label x) (mkSockFilter 0 0 0 0) (isCond x) (jt x) (jf x) (isJA x) (ja x).

Lemma label_positions_skeleton i prog pos :
  label_positions i (map skeleton prog) pos = label_positions i prog pos.
Proof.
  revert i pos. induction prog as [|x prog IH]; intros i pos; cbn; [done|].
  destruct (String.eqb (label x) ""); [apply IH|]. by destruct (pos !! label x).
Qed.

Lemma emit_skeleton pos i x : is_Ok (emit pos i (skeleton x)) = is_Ok (emit pos i x).
Proof.
  unfold emit. cbn. destruct (isJA x); [done|]. destruct (isCond x); [|done].
  destruct (resolve pos i (jt x)); [|done]. cbn. destruct (resolve pos i (jf x)); [|done]. cbn.
  by destruct (_ || _).
Qed.

Lemma emit_all_skeleton pos i prog :
  is_Ok (emit_all pos i (map skeleton prog)) = is_Ok (emit_all pos i prog).
Proof.
  revert i. induction prog as [|x prog IH]; intros i; cbn; [done|].
  pose proof (emit_skeleton pos i x) as He. specialize (IH (S i)).
  destruct (emit pos i (skeleton x)), (emit pos i x); try done. cbn.
  by destruct (emit_all pos (S i) (map skeleton prog)), (emit_all pos (S i) prog).
Qed.

Definition labels_ok (prog : list insn) : bool :=
  match label_positions 0 prog ∅ with
  | Ok pos => is_Ok (emit_all pos 0 prog)
  | Err _ => false
  end && (length prog <=? 64)%nat.

Lemma assemble_labels prog :
  labels_ok (map skeleton prog) = true → ∃ out, assemble prog = Ok out.
Proof.
  unfold labels_ok. rewrite label_positions_skeleton, length_map, andb_true_iff, Nat.leb_le.
  intros [He Hl]. unfold assemble.
  destruct (label_positions 0 prog ∅) as [pos|]; [|done]. rewrite emit_all_skeleton in He. cbn.
  destruct (emit_all pos 0 prog) as [out|] eqn:Ho; [|done]. cbn.
  destruct (emit_all_spec _ _ _ _ Ho) as [-> _]. unfold too_long. pose proof maxinsns_range.
  destruct (Z.gtb_spec (Z.of_nat (length prog)) BPF_MAXINSNS); [lia|]. by eexists.
Qed.

(** ** The two semantics agree *)

Lemma goto_emitted prog l j t acc :
  find_label prog l = Some t → (j < t)%nat →
  Next (S j + Z.to_nat (Z.of_nat (t - S j))) acc = goto prog l acc.
Proof. intros Hl ?. unfold goto. rewrite Hl. f_equal. lia. Qed.

Lemma step_lstep prog out d pc acc :
  assemble prog = Ok out → Forall wf_insn prog →
  step out d pc acc = lstep prog d pc acc.
Proof.
  intros Ha Hwf. destruct (assemble_spec _ _ Ha) as (Hl & _ & Hj). unfold step, lstep.
  destruct (prog !! pc) as [x|] eqn:Hx; last first.
  { apply lookup_ge_None in Hx. by rewrite lookup_ge_None_2 by lia. }
  destruct (Hj pc x Hx) as (f & -> & He).
  pose proof (Forall_lookup_1 _ _ _ _ Hwf Hx) as Hw. cbn in Hw.
  unfold wf_insn in Hw. destruct He as [t E Ht ?|t u E Ec Ht Hu ? ? ? ?|E Ec]; rewrite E in Hw |- *; cbn.
  - rewrite decode_ja. by apply goto_emitted.
  - rewrite Ec in Hw |- *. destruct (decode (Code (sf x))) as [op|]; [|done].
    destruct op; try done; cbn [is_test];
      destruct (test_of _ _ _); by apply goto_emitted.
  - rewrite Ec in Hw |- *. destruct (decode (Code (sf x))) as [op|]; [|done]. by destruct op.
Qed.

Lemma exec_lexec prog out fuel d pc acc :
  assemble prog = Ok out → Forall wf_insn prog →
  exec fuel out d pc acc = lexec fuel prog d pc acc.
Proof.
  intros Ha Hwf. revert pc acc. induction fuel as [|fuel IH]; intros pc acc; [done|]. cbn.
  rewrite (step_lstep prog out) by done. by destruct (lstep prog d pc acc).
Qed.

(** ** Accepted filters reach a verdict *)

Lemma check_lookup prog pc f :
  seccomp_check prog = true → prog !! pc = Some f → check_insn (length prog) pc f = true.
Proof.
  unfold seccomp_check. rewrite !andb_true_iff, forallb_forall. intros [[_ Hf] _] Hpc.
  apply (Hf (pc, f)). apply list_elem_of_In, list_elem_of_lookup. exists pc.
  by rewrite list_lookup_imap, Hpc.
Qed.

Lemma check_last prog :
  seccomp_check prog = true →
  ∃ n f, length prog = S n ∧ prog !! n = Some f ∧ decode (Code f) = Some OpRet.
Proof.
  unfold seccomp_check. rewrite !andb_true_iff. intros [[[Hn _] _] Hl].
  rewrite last_lookup in Hl. destruct (length prog) as [|n] eqn:E; [done|]. cbn in Hl.
  destruct (prog !! n) as [f|] eqn:Ef; [|done]. exists n, f.
  split; [done|]. split; [done|]. by apply bool_decide_eq_true in Hl.
Qed.

(** One step of an accepted filter stops with the value of a return of the
    program, or moves forward inside the program. *)
Lemma check_step prog d pc acc :
  seccomp_check prog = true → (pc < length prog)%nat →
  match step prog d pc acc with
  | Next pc' _ => (pc < pc' < length prog)%nat
  | Done a => ∃ f, f ∈ prog ∧ decode (Code f) = Some OpRet ∧ a = K f
  | Fault => False
  end.
Proof.
  intros Hc Hpc. destruct (lookup_lt_is_Some_2 _ _ Hpc) as [f Hf].
  pose proof (check_lookup _ _ _ Hc Hf) as Hi. destruct (check_last _ Hc) as (n & g & Hn & Hg & Hr).
  unfold step, check_insn in *. rewrite Hf.
  destruct (decode (Code f)) as [op|] eqn:Ed; [|done].
  assert (op = OpRet ∨ pc ≠ n) as Hlast.
  { destruct (decide (pc = n)) as [->|]; [left|by right]. congruence. }
  destruct op; cbn [is_test plain_step]; rewrite ?andb_true_iff in Hi;
    try (destruct Hlast as [?|Hne]; [discriminate|]).
  - rewrite Hi. lia.
  - lia.
  - destruct (test_of _ _ _); lia.
  - destruct (test_of _ _ _); lia.
  - lia.
  - exists f. repeat split; [|done]. by eapply list_elem_of_lookup_2.
Qed.

Lemma check_exec prog d fuel pc acc :
  seccomp_check prog = true → (pc < length prog)%nat → (length prog <= fuel + pc)%nat →
  ∃ f, exec fuel prog d pc acc = Some (K f) ∧ f ∈ prog ∧ decode (Code f) = Some OpRet.
Proof.
  intros Hc. revert pc acc. induction fuel as [|fuel IH]; intros pc acc Hpc Hfuel; [lia|]. cbn.
  pose proof (check_step prog d pc acc Hc Hpc) as Hs.
  destruct (step prog d pc acc) as [pc' acc'|a|]; [|naive_solver|done].
  apply IH; lia.
Qed.

Lemma assemble_accepted prog out :
  assemble prog = Ok out → Forall wf_insn prog →
  (∃ x, last prog = Some x ∧ is_ret x = true) →
  seccomp_check out = true.
Proof.
  intros Ha Hwf (x & Hx & Hr). destruct (assemble_spec _ _ Ha) as (Hl & Hs & Hj).
  rewrite last_lookup in Hx. destruct (Hj _ _ Hx) as (f & Hf & He).
  unfold seccomp_check. rewrite last_lookup, Hl, Hf, Hs. rewrite !andb_true_iff. repeat split.
  - apply Z.ltb_lt. apply lookup_lt_Some in Hx. lia.
  - apply forallb_forall. intros [j g] Hin. apply list_elem_of_In, list_elem_of_lookup in Hin as [i Hi].
    rewrite list_lookup_imap in Hi. destruct (out !! i) as [g'|] eqn:Hg; [|done]. injection Hi as -> ->.
    destruct (prog !! j) as [y|] eqn:Hy; last first.
    { apply lookup_ge_None in Hy. apply lookup_lt_Some in Hg. lia. }
    destruct (Hj _ _ Hy) as (g' & Hg' & Hye). simplify_eq.
    pose proof (Forall_lookup_1 _ _ _ _ Hwf Hy) as Hw. cbn in Hw.
    unfold wf_insn in Hw. unfold check_insn.
    destruct Hye as [t E Ht ?|t u E Ec Ht Hu ? ? ? ?|E Ec]; rewrite E in Hw; cbn.
    + rewrite decode_ja. apply find_label_lt in Ht. rewrite andb_true_iff, Z.leb_le, Z.ltb_lt. lia.
    + rewrite Ec in Hw. apply find_label_lt in Ht, Hu.
      destruct (decode (Code (sf y))) as [[]|]; try done;
        rewrite !andb_true_iff, !Z.ltb_lt, !Z.leb_le; lia.
    + rewrite Ec in Hw. destruct (decode (Code (sf y))) as [[]|]; try done.
      by apply Is_true_true in Hw.
  - unfold is_ret in Hr. rewrite !andb_true_iff, !negb_true_iff in Hr. destruct Hr as [[E1 E2] E3].
    destruct He; congruence.
Qed.

(** C30: The assembler keeps the meaning of a program: when [assemble]
    succeeds on instructions built by the constructors of bpf.go, the machine
    that follows the emitted relative jumps behaves, on every system call,
    from every position and for every number of steps, as the labelled program
    does when each jump is read as "go to the instruction with that label". *)
Theorem assemble_preserves prog out d fuel pc acc :
  assemble prog = Ok out → Forall wf_insn prog →
  exec fuel out d pc acc = lexec fuel prog d pc acc.
Proof. apply exec_lexec. Qed.

(** Every program [assemble] emits is one the kernel accepts, and it
    terminates: if the labelled program ends in a return, the emitted one
    passes the kernel's test of a filter and, on every system call, it reaches
    a return instruction within as many steps as it has instructions, with
    that instruction's value as the verdict. *)
Theorem assembled_terminates prog out d :
  assemble prog = Ok out → Forall wf_insn prog →
  (∃ x, last prog = Some x ∧ is_ret x = true) →
  seccomp_check out = true ∧
  ∃ f, run_filter out d = Some (K f) ∧ f ∈ out ∧ decode (Code f) = Some OpRet.
Proof.
  intros Ha Hwf Hr. pose proof (assemble_accepted _ _ Ha Hwf Hr) as Hc. split; [done|].
  destruct (check_last _ Hc) as (n & g & Hn & _). apply check_exec; [done|lia|lia].
Qed.
End Correctness.

(** ** The codes of linux/bpf_common.h *)

Definition linux_bpf : BpfABI := {|
  BPF_LD := 0x00; BPF_W := 0x00; BPF_ABS := 0x20;
  BPF_JMP := 0x05; BPF_JA := 0x00; BPF_JEQ := 0x10; BPF_JSET := 0x40; BPF_K := 0x00;
  BPF_RET := 0x06; BPF_ALU := 0x04; BPF_AND := 0x50;
  BPF_MAXINSNS := 4096;
|}.

Lemma linux_bpf_ok : @BpfABIOk linux_bpf.
Proof.
  split; [|by vm_compute]. apply (bool_decide_unpack (NoDup _)). by vm_compute.
Qed.

Definition sample_prog : list insn :=
  let _ := linux_bpf in
  [loadNr; jeq 7 "allow" "deny"; labeled "allow" (ret 1); labeled "deny" (ret 0)].

Definition sample_data : seccomp_data := mkData 7 0 0 [].

Definition sample_filter : list SockFilter :=
  match @assemble linux_bpf sample_prog with Ok out => out | Err _ => [] end.

Lemma assemble_preserves_witness :
  @exec linux_bpf 3 sample_filter sample_data 0 0 = Some 1.
Proof.
  rewrite (@assemble_preserves linux_bpf linux_bpf_ok sample_prog);
    [by vm_compute|by vm_compute|by repeat apply List.Forall_cons].
Defined.

Lemma assembled_terminates_witness :
  @seccomp_check linux_bpf sample_filter = true.
Proof.
  apply (@assembled_terminates linux_bpf linux_bpf_ok sample_prog _ sample_data);
    [by vm_compute|by repeat apply List.Forall_cons|].
  by eexists.
Defined.

#[global] Opaque ld_w_abs jmp_ja jmp_jeq_k jmp_jset_k alu_and_k ret_k.
