(* ===== verification/Seccomp.v ===== *)
(** * Seccomp: the filters of the sensor's two processes

    [internal/sensor/sandbox]: [ParserFilter] (an allow-list) and
    [ObserverFilter] (a deny-list) with the per-architecture lists of
    [arch_amd64.go] and [arch_arm64.go]. System call numbers, open flags and
    seccomp actions come from golang.org/x/sys/unix, which differs by
    architecture, and are the parameter [Unix].

    For each filter an abstract policy says which calls it permits; running
    the assembled program on any call is proved to return the policy's
    verdict. *)

From Stdlib Require Import ZArith Lia Bool String List.
From stdpp Require Import base gmap strings list.
From S2P Require Import Prelude Bpf.

Open Scope string_scope.
Open Scope Z_scope.
Open Scope list_scope.

Class Unix := {
  #[global] unix_bpf :: BpfABI;
  SYS_READ : Z; SYS_PREAD64 : Z; SYS_RECVMSG : Z; SYS_SENDMSG : Z; SYS_MMAP : Z;
  SYS_MUNMAP : Z; SYS_MPROTECT : Z; SYS_MADVISE : Z; SYS_BRK : Z; SYS_FUTEX : Z;
  SYS_CLOCK_GETTIME : Z; SYS_RT_SIGRETURN : Z; SYS_CLOSE : Z; SYS_EXIT : Z; SYS_EXIT_GROUP : Z;
  SYS_EPOLL_CREATE1 : Z; SYS_EPOLL_CTL : Z; SYS_EPOLL_PWAIT : Z; SYS_EVENTFD2 : Z; SYS_WRITE : Z;
  SYS_PPOLL : Z; SYS_GETPID : Z; SYS_NANOSLEEP : Z; SYS_TGKILL : Z;
  SYS_OPENAT2 : Z; SYS_EXECVE : Z; SYS_EXECVEAT : Z; SYS_KILL : Z; SYS_TKILL : Z;
  SYS_RT_SIGQUEUEINFO : Z; SYS_RT_TGSIGQUEUEINFO : Z; SYS_PIDFD_SEND_SIGNAL : Z;
  SYS_SOCKETPAIR : Z; SYS_OPENAT : Z; SYS_BPF : Z;
  SYS_OPEN : Z; SYS_CREAT : Z;
  O_WRONLY : Z; O_RDWR : Z; O_CREAT : Z; O_TRUNC : Z; O_APPEND : Z; O_TMPFILE : Z;
  SECCOMP_RET_ALLOW : Z; SECCOMP_RET_ERRNO : Z; EPERM : Z;
}.

(** The two values of GOARCH the package has a file for. *)
Inductive goarch := amd64 | arm64.

Definition currentAuditArch (g : goarch) : Z :=
  match g with amd64 => 0xC000003E | arm64 => 0xC00000B7 end.

Definition bpfMapLookupElem : Z := 1.
Definition bpfMapUpdateElem : Z := 2.
Definition bpfMapDeleteElem : Z := 3.
Definition bpfMapGetNextKey : Z := 4.

Section Filters.
Context `{Unix}.

Definition legacySyscallsToDeny (g : goarch) : list Z :=
  match g with amd64 => [u32 SYS_OPEN; u32 SYS_CREAT] | arm64 => [] end.

Definition openWriteFlagsMask : Z :=
  u32 (Z.lor (Z.lor (Z.lor (Z.lor O_WRONLY O_RDWR) O_CREAT) O_TRUNC) O_APPEND).

Definition deny_action : Z := Z.lor SECCOMP_RET_ERRNO (u32 EPERM).

(** ** The parser's filter *)

Definition parser_prog (g : goarch) (selfPID : Z) : list insn := [
  loadArch;
  jeq (currentAuditArch g) "check_nr" "deny";

  labeled "check_nr" loadNr;
  jeq (u32 SYS_READ) "allow" "l1";
  labeled "l1" (jeq (u32 SYS_PREAD64) "allow" "l2");
  labeled "l2" (jeq (u32 SYS_RECVMSG) "allow" "l3");
  labeled "l3" (jeq (u32 SYS_SENDMSG) "allow" "l4");
  labeled "l4" (jeq (u32 SYS_MMAP) "allow" "l5");
  labeled "l5" (jeq (u32 SYS_MUNMAP) "allow" "l6");
  labeled "l6" (jeq (u32 SYS_MPROTECT) "allow" "l7");
  labeled "l7" (jeq (u32 SYS_MADVISE) "allow" "l8");
  labeled "l8" (jeq (u32 SYS_BRK) "allow" "l9");
  labeled "l9" (jeq (u32 SYS_FUTEX) "allow" "l10");
  labeled "l10" (jeq (u32 SYS_CLOCK_GETTIME) "allow" "l11");
  labeled "l11" (jeq (u32 SYS_RT_SIGRETURN) "allow" "l12");
  labeled "l12" (jeq (u32 SYS_CLOSE) "allow" "l13");
  labeled "l13" (jeq (u32 SYS_EXIT) "allow" "l14");
  labeled "l14" (jeq (u32 SYS_EXIT_GROUP) "allow" "l15");
  labeled "l15" (jeq (u32 SYS_EPOLL_CREATE1) "allow" "l16");
  labeled "l16" (jeq (u32 SYS_EPOLL_CTL) "allow" "l17");
  labeled "l17" (jeq (u32 SYS_EPOLL_PWAIT) "allow" "l18");
  labeled "l18" (jeq (u32 SYS_EVENTFD2) "allow" "l19");
  labeled "l19" (jeq (u32 SYS_WRITE) "allow" "l20");
  labeled "l20" (jeq (u32 SYS_PPOLL) "allow" "l21");
  labeled "l21" (jeq (u32 SYS_GETPID) "allow" "l22");
  labeled "l22" (jeq (u32 SYS_NANOSLEEP) "allow" "l23");
  labeled "l23" (jeq (u32 SYS_TGKILL) "check_tgkill" "deny");

  labeled "check_tgkill" (loadArgHigh 0);
  jeq 0 "check_tgkill_low" "deny";
  labeled "check_tgkill_low" (loadArgLow 0);
  jeq (u32 selfPID) "allow" "deny";

  labeled "allow" (ret SECCOMP_RET_ALLOW);
  labeled "deny" (ret deny_action)
].

Definition ParserFilter (g : goarch) (selfPID : Z) : result asm_error (list SockFilter) :=
  assemble (parser_prog g selfPID).

(** ** The observer's filter *)

(** [None]: the call panics. *)
Definition legacyOpenCreatChecks (nrs : list Z) (fallthroughLabel : string) : option (list insn) :=
  match nrs with
  | [] => Some []
  | [n] => Some [jeq n "deny" fallthroughLabel]
  | [n; m] => Some [jeq n "deny" "legacy_creat"; labeled "legacy_creat" (jeq m "deny" fallthroughLabel)]
  | _ => None
  end.

Definition observer_head (g : goarch) : list insn := [
  loadArch;
  jeq (currentAuditArch g) "check_nr" "deny";

  labeled "check_nr" loadNr
].

Definition observer_tail (selfPID : Z) : list insn := [
  labeled "l1" (jeq (u32 SYS_OPENAT2) "deny" "l2");
  labeled "l2" (jeq (u32 SYS_EXECVE) "deny" "l3");
  labeled "l3" (jeq (u32 SYS_EXECVEAT) "deny" "l4");
  labeled "l4" (jeq (u32 SYS_KILL) "deny" "l5");
  labeled "l5" (jeq (u32 SYS_TKILL) "deny" "l6");
  labeled "l6" (jeq (u32 SYS_RT_SIGQUEUEINFO) "deny" "l7");
  labeled "l7" (jeq (u32 SYS_RT_TGSIGQUEUEINFO) "deny" "l8");
  labeled "l8" (jeq (u32 SYS_PIDFD_SEND_SIGNAL) "deny" "l9");
  labeled "l9" (jeq (u32 SYS_SOCKETPAIR) "deny" "l10");
  labeled "l10" (jeq (u32 SYS_OPENAT) "check_openat" "l11");
  labeled "l11" (jeq (u32 SYS_TGKILL) "check_tgkill" "l12");
  labeled "l12" (jeq (u32 SYS_BPF) "check_bpf" "allow");

  labeled "check_openat" (loadArgLow 2);
  jset openWriteFlagsMask "deny" "check_openat_tmpfile";
  labeled "check_openat_tmpfile" (loadArgLow 2);
  andK (u32 O_TMPFILE);
  jeq (u32 O_TMPFILE) "deny" "allow";

  labeled "check_tgkill" (loadArgHigh 0);
  jeq 0 "check_tgkill_low" "deny";
  labeled "check_tgkill_low" (loadArgLow 0);
  jeq (u32 selfPID) "allow" "deny";

  labeled "check_bpf" (loadArgHigh 0);
  jeq 0 "check_bpf_low" "deny";
  labeled "check_bpf_low" (loadArgLow 0);
  jeq bpfMapLookupElem "allow" "bpf2";
  labeled "bpf2" (jeq bpfMapUpdateElem "allow" "bpf3");
  labeled "bpf3" (jeq bpfMapDeleteElem "allow" "bpf4");
  labeled "bpf4" (jeq bpfMapGetNextKey "allow" "deny");

  labeled "allow" (ret SECCOMP_RET_ALLOW);
  labeled "deny" (ret deny_action)
].

Definition observer_prog (g : goarch) (selfPID : Z) : option (list insn) :=
  checks ← legacyOpenCreatChecks (legacySyscallsToDeny g) "l1";
  Some (observer_head g ++ checks ++ observer_tail selfPID).

Definition ObserverFilter (g : goarch) (selfPID : Z) : option (result asm_error (list SockFilter)) :=
  prog ← observer_prog g selfPID; Some (assemble prog).

(** ** The policies *)

Definition parser_syscalls : list Z :=
  [SYS_READ; SYS_PREAD64; SYS_RECVMSG; SYS_SENDMSG; SYS_MMAP; SYS_MUNMAP; SYS_MPROTECT;
   SYS_MADVISE; SYS_BRK; SYS_FUTEX; SYS_CLOCK_GETTIME; SYS_RT_SIGRETURN; SYS_CLOSE; SYS_EXIT;
   SYS_EXIT_GROUP; SYS_EPOLL_CREATE1; SYS_EPOLL_CTL; SYS_EPOLL_PWAIT; SYS_EVENTFD2; SYS_WRITE;
   SYS_PPOLL; SYS_GETPID; SYS_NANOSLEEP].

Definition observer_denied (g : goarch) : list Z :=
  match g with amd64 => [SYS_OPEN; SYS_CREAT] | arm64 => [] end ++
  [SYS_OPENAT2; SYS_EXECVE; SYS_EXECVEAT; SYS_KILL; SYS_TKILL; SYS_RT_SIGQUEUEINFO;
   SYS_RT_TGSIGQUEUEINFO; SYS_PIDFD_SEND_SIGNAL; SYS_SOCKETPAIR].

(** The first argument, all 64 bits of it, is the process's own PID. *)
Definition signals_self (selfPID : Z) (d : seccomp_data) : bool := sd_arg d 0 =? u32 selfPID.

(** The flags of an open ask for writing, creating, truncating or appending,
    or for an unnamed temporary file. *)
Definition opens_for_writing (flags : Z) : bool :=
  existsb (λ b, negb (Z.land flags b =? 0)) [O_WRONLY; O_RDWR; O_CREAT; O_TRUNC; O_APPEND] ||
  (Z.land flags O_TMPFILE =? O_TMPFILE).

Definition map_commands : list Z := [1; 2; 3; 4].

Definition parser_allows (g : goarch) (selfPID : Z) (d : seccomp_data) : bool :=
  (sd_arch d =? currentAuditArch g) &&
  (existsb (Z.eqb (sd_nr d)) parser_syscalls ||
   (sd_nr d =? SYS_TGKILL) && signals_self selfPID d).

Definition observer_allows (g : goarch) (selfPID : Z) (d : seccomp_data) : bool :=
  (sd_arch d =? currentAuditArch g) &&
  negb (existsb (Z.eqb (sd_nr d)) (observer_denied g)) &&
  (if sd_nr d =? SYS_OPENAT then negb (opens_for_writing (low32 (sd_arg d 2)))
   else if sd_nr d =? SYS_TGKILL then signals_self selfPID d
   else if sd_nr d =? SYS_BPF then existsb (Z.eqb (sd_arg d 0)) map_commands
   else true).

Definition verdict (allowed : bool) : Z := if allowed then SECCOMP_RET_ALLOW else deny_action.

Definition unix_numbers : list Z :=
  parser_syscalls ++
  [SYS_TGKILL; SYS_OPENAT2; SYS_EXECVE; SYS_EXECVEAT; SYS_KILL; SYS_TKILL; SYS_RT_SIGQUEUEINFO;
   SYS_RT_TGSIGQUEUEINFO; SYS_PIDFD_SEND_SIGNAL; SYS_SOCKETPAIR; SYS_OPENAT; SYS_BPF; SYS_OPEN; SYS_CREAT;
   O_WRONLY; O_RDWR; O_CREAT; O_TRUNC; O_APPEND; O_TMPFILE].
End Filters.

(** Documented facts of the numbers: they fit 32 bits. *)
Class UnixOk `{Unix} : Prop := {
  #[global] unix_bpf_ok :: BpfABIOk;
  unix_range : Forall (λ n, 0 <= n < 2 ^ 32) unix_numbers;
}.

(** A call as the kernel presents it: 64-bit arguments. *)
Definition data_ok (d : seccomp_data) : Prop := Forall (λ a, 0 <= a < 2 ^ 64) (sd_args d).

Section Arguments.
Lemma sd_arg_range d i : data_ok d → 0 <= sd_arg d i < 2 ^ 64.
Proof.
  intros Hd. unfold sd_arg. destruct (sd_args d !! i) eqn:E; cbn; [|lia].
  by eapply (Forall_lookup_1 _ _ _ _ Hd).
Qed.

Lemma low32_mod a : low32 a = a mod 2 ^ 32.
Proof. unfold low32. by rewrite Z.land_ones. Qed.

Lemma high32_div a : high32 a = a / 2 ^ 32.
Proof. unfold high32. by rewrite Z.shiftr_div_pow2. Qed.

(** A 64-bit argument equals a 32-bit constant exactly when its high word is
    zero and its low word is the constant. *)
Lemma arg_is a k :
  0 <= a < 2 ^ 64 → 0 <= k < 2 ^ 32 →
  (a =? k) = (high32 a =? 0) && (low32 a =? k).
Proof.
  intros Ha Hk. rewrite low32_mod, high32_div.
  pose proof (Z.div_mod a (2 ^ 32)) as Hdm.
  destruct (Z.eqb_spec (a / 2 ^ 32) 0) as [E|E], (Z.eqb_spec (a mod 2 ^ 32) k) as [F|F];
    cbn [andb]; rewrite ?Z.eqb_eq, ?Z.eqb_neq; try lia.
  intros ->. rewrite Z.div_small in E; lia.
Qed.

Lemma arg_is_0 d k :
  data_ok d → 0 <= k < 2 ^ 32 →
  (sd_arg d 0 =? k) = (high32 (sd_arg d 0) =? 0) && (low32 (sd_arg d 0) =? k).
Proof. intros. apply arg_is; auto using sd_arg_range. Qed.

Lemma land_lor_zero f a b :
  (Z.land f (Z.lor a b) =? 0) = (Z.land f a =? 0) && (Z.land f b =? 0).
Proof.
  rewrite Z.land_lor_distr_r. apply eq_bool_prop_intro.
  rewrite andb_True, !Is_true_true, !Z.eqb_eq. apply Z.lor_eq_0_iff.
Qed.
End Arguments.

(** ** Running a labelled program, one instruction at a time *)

Section Running.
Context `{UnixOk}.
Implicit Types (prog : list insn) (d : seccomp_data).

Lemma lexec_ld prog fuel d pc acc l k :
  prog !! pc = Some (labeled l (stmt ld_w_abs k)) → load_ok k = true →
  lexec (S fuel) prog d pc acc = lexec fuel prog d (S pc) (load_word d k).
Proof. intros Hp Hk. cbn. unfold lstep. rewrite Hp. cbn. rewrite decode_ld. cbn. by rewrite Hk. Qed.

Lemma lexec_jeq prog fuel d pc acc l k t f pt pf :
  prog !! pc = Some (labeled l (jeq k t f)) →
  find_label prog t = Some pt → find_label prog f = Some pf →
  lexec (S fuel) prog d pc acc = lexec fuel prog d (if acc =? k then pt else pf) acc.
Proof.
  intros Hp Ht Hf. cbn. unfold lstep. rewrite Hp. cbn. rewrite decode_jeq. cbn. unfold goto.
  destruct (acc =? k); by rewrite ?Ht, ?Hf.
Qed.

Lemma lexec_jset prog fuel d pc acc l k t f pt pf :
  prog !! pc = Some (labeled l (jset k t f)) →
  find_label prog t = Some pt → find_label prog f = Some pf →
  lexec (S fuel) prog d pc acc = lexec fuel prog d (if Z.land acc k =? 0 then pf else pt) acc.
Proof.
  intros Hp Ht Hf. cbn. unfold lstep. rewrite Hp. cbn. rewrite decode_jset. cbn. unfold goto.
  destruct (Z.land acc k =? 0); cbn; by rewrite ?Ht, ?Hf.
Qed.

Lemma lexec_and prog fuel d pc acc l k :
  prog !! pc = Some (labeled l (andK k)) →
  lexec (S fuel) prog d pc acc = lexec fuel prog d (S pc) (Z.land acc k).
Proof. intros Hp. cbn. unfold lstep. rewrite Hp. cbn. by rewrite decode_and. Qed.

Lemma lexec_ret prog fuel d pc acc l a :
  prog !! pc = Some (labeled l (ret a)) → lexec (S fuel) prog d pc acc = Some a.
Proof. intros Hp. cbn. unfold lstep. rewrite Hp. cbn. by rewrite decode_ret. Qed.

Lemma u32_number n : n ∈ unix_numbers → u32 n = n.
Proof. intros Hn. apply u32_id. pose proof unix_range as Hr. rewrite Forall_forall in Hr. by apply Hr. Qed.

Lemma wf_ld l k : load_ok k = true → wf_insn (labeled l (stmt ld_w_abs k)) = true.
Proof. intros Hk. cbn. by rewrite decode_ld. Qed.

Lemma wf_jeq l k t f : wf_insn (labeled l (jeq k t f)) = true.
Proof. cbn. by rewrite decode_jeq. Qed.

Lemma wf_jset l k t f : wf_insn (labeled l (jset k t f)) = true.
Proof. cbn. by rewrite decode_jset. Qed.

Lemma wf_and l k : wf_insn (labeled l (andK k)) = true.
Proof. cbn. by rewrite decode_and. Qed.

Lemma wf_ret l a : wf_insn (labeled l (ret a)) = true.
Proof. cbn. by rewrite decode_ret. Qed.
End Running.

(** [numbers]: the truncations of known numbers disappear. *)
Ltac in_numbers :=
  unfold unix_numbers, parser_syscalls; cbn [app];
  repeat first [apply list_elem_of_here | apply list_elem_of_further].

Ltac numbers := repeat rewrite u32_number by in_numbers.

Ltac wf_prog :=
  repeat first [apply List.Forall_nil | apply List.Forall_cons];
  apply Is_true_true;
  first [apply (wf_jeq "") | apply wf_jeq | apply (wf_jset "") | apply (wf_and "") | apply wf_ret
        | by apply (wf_ld "") | by apply wf_ld].

(** [lrun]: execute the instruction at the current position. *)
Ltac lrun :=
  first [ erewrite lexec_jeq by reflexivity
        | erewrite lexec_ld by reflexivity
        | erewrite lexec_jset by reflexivity
        | erewrite lexec_and by reflexivity
        | erewrite lexec_ret by reflexivity ].

(** The labels of a program, evaluated, decide that it assembles. *)
Ltac assembles :=
  apply assemble_labels;
  cbv [map app skeleton parser_prog observer_head observer_tail
       labeled jeq jset andK condJump loadArch loadNr loadArgLow loadArgHigh stmt ret
       label sf isCond jt jf isJA ja];
  vm_cast_no_check (eq_refl true).

Lemma run_filter_lexec `{UnixOk} prog out d n :
  assemble prog = Ok out → Forall wf_insn prog → length prog = n →
  run_filter out d = lexec n prog d 0 0.
Proof.
  intros Ha Hwf <-. unfold run_filter. rewrite (exec_lexec prog out) by done.
  by destruct (assemble_spec _ _ Ha) as [-> _].
Qed.

Section Parser.
Context `{UnixOk}.

Lemma parser_assembles g pid : ∃ out, assemble (parser_prog g pid) = Ok out.
Proof. assembles. Qed.

Lemma parser_wf g pid : Forall wf_insn (parser_prog g pid).
Proof. unfold parser_prog. wf_prog. Qed.

Lemma parser_lexec g pid d :
  data_ok d →
  lexec (length (parser_prog g pid)) (parser_prog g pid) d 0 0 = Some (verdict (parser_allows g pid d)).
Proof.
  intros Hd. unfold parser_allows, parser_syscalls, signals_self. rewrite arg_is_0 by (done || apply Z.mod_pos_bound; lia).
  change (length _) with 33%nat.
  lrun. lrun. change (load_word d _) with (sd_arch d). destruct (sd_arch d =? currentAuditArch g); [|by lrun].
  lrun. change (load_word d _) with (sd_nr d). cbn [existsb andb].
  do 23 (lrun; numbers; destruct (sd_nr d =? _); [by lrun|cbn [orb]]).
  lrun; numbers. destruct (sd_nr d =? _); [|by lrun].
  lrun. change (load_word d _) with (high32 (sd_arg d 0)).
  lrun. destruct (high32 (sd_arg d 0) =? 0); [|by lrun].
  lrun. change (load_word d _) with (low32 (sd_arg d 0)).
  lrun. by destruct (low32 (sd_arg d 0) =? u32 pid); lrun.
Qed.
End Parser.

Section Observer.
Context `{UnixOk}.

Definition observer_list (g : goarch) (pid : Z) : list insn :=
  observer_head g ++
  match g with
  | amd64 => [jeq (u32 SYS_OPEN) "deny" "legacy_creat";
              labeled "legacy_creat" (jeq (u32 SYS_CREAT) "deny" "l1")]
  | arm64 => []
  end ++ observer_tail pid.

Lemma observer_prog_list g pid : observer_prog g pid = Some (observer_list g pid).
Proof. by destruct g. Qed.

Lemma observer_assembles g pid : ∃ out, assemble (observer_list g pid) = Ok out.
Proof. destruct g; unfold observer_list; assembles. Qed.

Lemma observer_wf g pid : Forall wf_insn (observer_list g pid).
Proof. destruct g; unfold observer_list, observer_head, observer_tail; cbn [app]; wf_prog. Qed.

Lemma write_mask f :
  existsb (λ b, negb (Z.land f b =? 0)) [O_WRONLY; O_RDWR; O_CREAT; O_TRUNC; O_APPEND] =
  negb (Z.land f openWriteFlagsMask =? 0).
Proof.
  unfold openWriteFlagsMask. rewrite u32_id.
  - rewrite !land_lor_zero. cbn [existsb]. by rewrite !negb_andb, orb_false_r, !orb_assoc.
  - pose proof unix_range as Hr. rewrite Forall_forall in Hr.
    assert (∀ a b, 0 <= a < 2 ^ 32 → 0 <= b < 2 ^ 32 → 0 <= Z.lor a b < 2 ^ 32) as Hor.
    { intros a b Ha Hb'. split; [apply Z.lor_nonneg; lia|].
      rewrite <- (Z.mod_small a (2 ^ 32)), <- (Z.mod_small b (2 ^ 32)) by lia.
      rewrite <- !Z.land_ones, <- Z.land_lor_distr_l, Z.land_ones by lia.
      apply Z.mod_pos_bound. lia. }
    repeat apply Hor; apply Hr; in_numbers.
Qed.

(** One comparison of the deny-list. *)
Ltac denied := lrun; numbers; destruct (sd_nr _ =? _); [by lrun|cbn [orb negb andb]].

(** From the architecture to the end of the deny-list. *)
Ltac deny_list d :=
  lrun; (change (load_word d _) with (sd_arch d));
  lrun; destruct (sd_arch d =? currentAuditArch _); [|by lrun];
  lrun; (change (load_word d _) with (sd_nr d));
  cbn [observer_denied app existsb andb]; repeat denied.

Ltac load_arg0 d :=
  lrun; (change (load_word d _) with (high32 (sd_arg d 0))); lrun;
  destruct (high32 (sd_arg d 0) =? 0); [|by lrun];
  lrun; (change (load_word d _) with (low32 (sd_arg d 0))).

(** The calls whose arguments are judged. *)
Ltac judged d :=
  lrun; numbers; destruct (sd_nr d =? SYS_OPENAT);
  [ lrun; (change (load_word d _) with (low32 (sd_arg d 2)));
    lrun; destruct (Z.land _ openWriteFlagsMask =? 0); [|by lrun];
    lrun; (change (load_word d _) with (low32 (sd_arg d 2)));
    lrun; lrun; numbers; destruct (Z.land _ O_TMPFILE =? O_TMPFILE); by lrun
  | ];
  lrun; numbers; destruct (sd_nr d =? SYS_TGKILL);
  [ load_arg0 d; lrun; destruct (low32 (sd_arg d 0) =? u32 _); by lrun | ];
  lrun; numbers; destruct (sd_nr d =? SYS_BPF); [|by lrun];
  load_arg0 d; cbn [andb orb];
  do 4 (lrun; destruct (low32 (sd_arg d 0) =? _); [by lrun|]; cbn [andb orb]); by lrun.

Lemma observer_lexec g pid d :
  data_ok d →
  lexec (length (observer_list g pid)) (observer_list g pid) d 0 0 = Some (verdict (observer_allows g pid d)).
Proof.
  intros Hd. unfold observer_allows, opens_for_writing, map_commands, signals_self. rewrite write_mask.
  rewrite arg_is_0 by (done || apply Z.mod_pos_bound; lia).
  cbn [existsb]. rewrite !arg_is_0 by (done || lia).
  destruct g.
  - change (length _) with 35%nat. deny_list d. judged d.
  - change (length _) with 33%nat. deny_list d. judged d.
Qed.
End Observer.

Section Policies.
Context `{UnixOk}.

Lemma filter_policy prog (allows : seccomp_data → bool) :
  (∃ out, assemble prog = Ok out) → Forall wf_insn prog →
  (∃ x, last prog = Some x ∧ is_ret x = true) →
  (∀ d, data_ok d → lexec (length prog) prog d 0 0 = Some (verdict (allows d))) →
  ∃ out, assemble prog = Ok out ∧ seccomp_check out = true ∧
    ∀ d, data_ok d → run_filter out d = Some (verdict (allows d)).
Proof.
  intros [out Ha] Hwf Hr He. exists out. split; [done|]. split; [by eapply assemble_accepted|].
  intros d Hd. by rewrite (run_filter_lexec prog out d (length prog)), He.
Qed.

Lemma ret_is_ret l a : is_ret (labeled l (ret a)) = true.
Proof. unfold is_ret. cbn. rewrite decode_ret. by apply bool_decide_eq_true. Qed.

(** C26: The parser's seccomp program implements its allow-list. On both
    architectures and for every PID it assembles into a filter the kernel
    accepts, and on every system call the filter allows exactly what the
    policy does: a call of the right audit architecture whose number is in the
    list, or tgkill of the process's own PID in all 64 bits of the argument;
    everything else, calls of another architecture's table included, is
    denied with an error. *)
Theorem ParserFilter_policy g pid :
  ∃ out, ParserFilter g pid = Ok out ∧ seccomp_check out = true ∧
    ∀ d, data_ok d → run_filter out d = Some (verdict (parser_allows g pid d)).
Proof.
  apply (filter_policy (parser_prog g pid) (parser_allows g pid)).
  - apply parser_assembles.
  - apply parser_wf.
  - exists (labeled "deny" (ret deny_action)). split; [done|]. apply ret_is_ret.
  - intros d. apply parser_lexec.
Qed.

(** C27: The observer's seccomp program implements its deny-list. On both
    architectures and for every PID no panic is reached, the program assembles
    into a filter the kernel accepts, and on every system call the filter
    denies exactly what the policy denies: a foreign architecture, a listed
    number (open and creat only where they exist), an openat that asks for
    writing, creating, truncating, appending or an unnamed file, a tgkill of
    another process, and every bpf command but the four map operations. *)
Theorem ObserverFilter_policy g pid :
  ∃ out, ObserverFilter g pid = Some (Ok out) ∧ seccomp_check out = true ∧
    ∀ d, data_ok d → run_filter out d = Some (verdict (observer_allows g pid d)).
Proof.
  destruct (filter_policy (observer_list g pid) (observer_allows g pid)) as (out & Ha & Hc & Hr).
  - apply observer_assembles.
  - apply observer_wf.
  - exists (labeled "deny" (ret deny_action)). split; [by destruct g|]. apply ret_is_ret.
  - intros d. apply observer_lexec.
  - exists out. split; [|done]. unfold ObserverFilter. rewrite observer_prog_list.
    exact (f_equal Some Ha).
Qed.
End Policies.

(** ** The numbers of linux/amd64 *)

Definition linux_amd64 : Unix := {|
  unix_bpf := linux_bpf;
  SYS_READ := 0; SYS_PREAD64 := 17; SYS_RECVMSG := 47; SYS_SENDMSG := 46; SYS_MMAP := 9;
  SYS_MUNMAP := 11; SYS_MPROTECT := 10; SYS_MADVISE := 28; SYS_BRK := 12; SYS_FUTEX := 202;
  SYS_CLOCK_GETTIME := 228; SYS_RT_SIGRETURN := 15; SYS_CLOSE := 3; SYS_EXIT := 60;
  SYS_EXIT_GROUP := 231; SYS_EPOLL_CREATE1 := 291; SYS_EPOLL_CTL := 233; SYS_EPOLL_PWAIT := 281;
  SYS_EVENTFD2 := 290; SYS_WRITE := 1; SYS_PPOLL := 271; SYS_GETPID := 39; SYS_NANOSLEEP := 35;
  SYS_TGKILL := 234; SYS_OPENAT2 := 437; SYS_EXECVE := 59; SYS_EXECVEAT := 322; SYS_KILL := 62;
  SYS_TKILL := 200; SYS_RT_SIGQUEUEINFO := 129; SYS_RT_TGSIGQUEUEINFO := 297;
  SYS_PIDFD_SEND_SIGNAL := 424; SYS_SOCKETPAIR := 53; SYS_OPENAT := 257; SYS_BPF := 321;
  SYS_OPEN := 2; SYS_CREAT := 85;
  O_WRONLY := 0x1; O_RDWR := 0x2; O_CREAT := 0x40; O_TRUNC := 0x200; O_APPEND := 0x400;
  O_TMPFILE := 0x410000;
  SECCOMP_RET_ALLOW := 0x7fff0000; SECCOMP_RET_ERRNO := 0x00050000; EPERM := 1;
|}.

Lemma linux_amd64_ok : @UnixOk linux_amd64.
Proof.
  split; [apply linux_bpf_ok|]. apply (bool_decide_unpack (Forall _ _)). by vm_compute.
Qed.

Definition tgkill_of (pid : Z) : seccomp_data := mkData 234 0xC000003E 0 [pid; pid; 23; 0; 0; 0].

Definition openat_with (flags : Z) : seccomp_data :=
  mkData 257 0xC000003E 0 [0xffffff9c; 0; flags; 0; 0; 0].

Lemma ParserFilter_policy_witness :
  ∃ out, @ParserFilter linux_amd64 amd64 4242 = Ok out ∧
    @run_filter linux_bpf out (tgkill_of 4242) = Some 0x7fff0000 ∧
    @run_filter linux_bpf out (tgkill_of (4242 + 2 ^ 32)) = Some 0x50001 ∧
    @run_filter linux_bpf out (mkData 59 0xC000003E 0 []) = Some 0x50001.
Proof.
  destruct (@ParserFilter_policy linux_amd64 linux_amd64_ok amd64 4242) as (out & Ho & _ & Hr).
  exists out. split; [exact Ho|].
  split; [|split]; (etransitivity; [apply Hr|by vm_compute]);
    apply (bool_decide_unpack (Forall _ _)); by vm_compute.
Defined.

(** A directory may be opened for reading; [O_TMPFILE], whose bits contain
    [O_DIRECTORY], may not. *)
Lemma ObserverFilter_policy_witness :
  ∃ out, @ObserverFilter linux_amd64 amd64 4242 = Some (Ok out) ∧
    @run_filter linux_bpf out (openat_with 0x10000) = Some 0x7fff0000 ∧
    @run_filter linux_bpf out (openat_with 0x410000) = Some 0x50001 ∧
    @run_filter linux_bpf out (openat_with 0x41) = Some 0x50001.
Proof.
  destruct (@ObserverFilter_policy linux_amd64 linux_amd64_ok amd64 4242) as (out & Ho & _ & Hr).
  exists out. split; [exact Ho|].
  split; [|split]; (etransitivity; [apply Hr|by vm_compute]);
    apply (bool_decide_unpack (Forall _ _)); by vm_compute.
Defined.
