(* ===== verification/Generation.v ===== *)
(** * Generation: the state of one container generation

    [internal/sensor/generation.go] (with [markIncomplete] of
    [incompletelog.go]): everything the daemon's loop keeps about one container
    generation, its bounded queues and their expiry, the records it
    accumulates, the retry schedule of rejected database files, and the
    published form of it all ([derivePublishedState], [toEvidence]).

    The copies [toEvidence] takes ([cloneOSPackage] and the like) are
    identities here: the model shares nothing. Log lines are not modelled,
    only the set of codes already logged. Counters of events, samples and
    failures are unbounded. *)

From Stdlib Require Import ZArith Lia Bool Ascii String List.
From stdpp Require Import base countable gmap strings list.
From S2P Require Import Prelude GoStrings GoText GoTime Inventory Evidence EvidenceFile.

Open Scope string_scope.
Open Scope Z_scope.
Open Scope nat_scope.
Open Scope list_scope.

(** ** Data *)

Inductive indexState := indexIdle | indexQueued | indexBuilding | indexReady | indexFailed.

#[export] Instance indexState_eq_dec : EqDecision indexState.
Proof. solve_decision. Defined.

Record mountBasis := mk_basis {
  mb_mntNS : string; mb_rootDev : string; mb_rootIno : Z; mb_ok : bool }.

Record sampleCandidate := mk_candidate {
  sc_kind : string; sc_dev : string; sc_inode : Z; sc_deleted : bool; sc_obs : ProcessObservation }.

Record candidateBatch := mk_batch {
  cb_candidates : gmap string (list sampleCandidate);
  cb_mergedUsrDirs : gset string;
  cb_verified : list string;
  cb_replaced : list string;
  cb_observedAt : Z;
  cb_epoch : nat;
  cb_basis : mountBasis }.

Record pendingLookup := mk_lookup {
  pl_batches : list candidateBatch; pl_seq : nat; pl_epoch : nat; pl_submittedAt : Z }.

(** [pkgKey]: a package name and version. *)
Notation pkgKey := (string * string)%type.

Record pendingEventItem := mk_pending_event {
  pe_seq : nat; pe_path : string; pe_dev : string; pe_inode : Z; pe_kind : string;
  pe_obs : ProcessObservation; pe_receivedAt : Z }.

(** [ebpf.Event], the fields of a usage event. *)
Record Event := mk_event {
  be_CgroupID : Z; be_MountNamespaceID : Z; be_UserNamespaceID : Z; be_TGID : Z;
  be_StartBoottimeNs : Z; be_CapEffective : Z; be_Dev : Z; be_Ino : Z; be_RootDev : Z;
  be_RootIno : Z; be_EUID : Z; be_Path : string }.

Record pendingMountViewEvent := mk_mount_view_event {
  me_path : string; me_ev : Event; me_kind : string; me_isExec : bool; me_receivedAt : Z }.

Record generationState := mk_gs {
  gs_container : ContainerRef;
  gs_init : InitProcess;
  gs_startedAt : Z;
  gs_endedAt : option Z;
  gs_endAppliedAt : Z;
  gs_lastVerifiedAt : Z;
  gs_lastAliveNs : Z;
  gs_lastAliveNsOK : bool;
  gs_ended : bool;
  gs_lastSampleDenied : bool;
  gs_forceParseFailed : bool;
  gs_packageDB : PackageDBInfo;
  gs_idxState : indexState;
  gs_idxRetryAfter : Z;
  gs_idxBasis : mountBasis;
  gs_idxEpoch : nat;
  gs_postIndexConfirmed : bool;
  gs_idxQueuedAt : Z;
  gs_incomplete : bool;
  gs_truncated : bool;
  gs_incompleteLogged : gset string;
  gs_eventsCoverage : string;
  gs_mntNsID : Z;
  gs_rootDev : string;
  gs_rootIno : Z;
  gs_mergedUsrDirs : gset string;
  gs_eventsLost : Z;
  gs_pendingEvents : list pendingEventItem;
  gs_nextEventSeq : nat;
  gs_pendingMountViewEvents : list pendingMountViewEvent;
  gs_pendingMapsLookups : nat;
  gs_pendingConfirms : nat;
  gs_osPackages : gmap pkgKey OSPackageEvidence;
  gs_unavailable : gmap pkgKey UnavailablePackage;
  gs_executables : gmap string ExecutableEvidence;
  gs_parseFailed : list ParseFailure;
  gs_sampleAlive : bool;
  gs_sampleStalled : bool;
  gs_pendingLookup : option pendingLookup;
  gs_nextLookupSeq : nat;
  gs_queuedCandidates : list candidateBatch;
  gs_candidatesLostPermanently : bool;
}.

#[export] Instance eta_gs : Eta generationState := λ g,
  mk_gs (gs_container g) (gs_init g) (gs_startedAt g) (gs_endedAt g) (gs_endAppliedAt g)
    (gs_lastVerifiedAt g) (gs_lastAliveNs g) (gs_lastAliveNsOK g) (gs_ended g)
    (gs_lastSampleDenied g) (gs_forceParseFailed g) (gs_packageDB g) (gs_idxState g)
    (gs_idxRetryAfter g) (gs_idxBasis g) (gs_idxEpoch g) (gs_postIndexConfirmed g)
    (gs_idxQueuedAt g) (gs_incomplete g) (gs_truncated g) (gs_incompleteLogged g)
    (gs_eventsCoverage g) (gs_mntNsID g) (gs_rootDev g) (gs_rootIno g) (gs_mergedUsrDirs g)
    (gs_eventsLost g) (gs_pendingEvents g) (gs_nextEventSeq g) (gs_pendingMountViewEvents g)
    (gs_pendingMapsLookups g) (gs_pendingConfirms g) (gs_osPackages g) (gs_unavailable g)
    (gs_executables g) (gs_parseFailed g) (gs_sampleAlive g) (gs_sampleStalled g)
    (gs_pendingLookup g) (gs_nextLookupSeq g) (gs_queuedCandidates g)
    (gs_candidatesLostPermanently g).

Section generation.
Implicit Types (g : generationState) (now t : Z).

Definition newGenerationState (container : ContainerRef) (init : InitProcess) (now : Z)
    (initialCoverage : string) : generationState :=
  mk_gs container init now None 0 0 0 false false false false
    (mk_db "" "" []) indexIdle 0 (mk_basis "" "" 0 false) 0 false 0
    false false ∅ initialCoverage 0 "" 0 ∅ 0 [] 0 [] 0 0 ∅ ∅ ∅ [] false false None 0 [] false.

(** ** Incompleteness and loss *)

Definition logIncomplete (code : string) g : generationState :=
  g <| gs_incompleteLogged := {[code]} ∪ gs_incompleteLogged g |>.

Definition markIncomplete (code : string) g : generationState :=
  logIncomplete code (g <| gs_incomplete := true |>).

Definition downgrade (coverage : string) : string :=
  if String.eqb coverage CoverageSinceStart then CoveragePartial else coverage.

Definition recordEventLoss (n : Z) g : generationState :=
  if (n <=? 0)%Z then g
  else
    let g := g <| gs_eventsLost := (gs_eventsLost g + n)%Z |> in
    let g := markIncomplete "event_loss" g in
    g <| gs_eventsCoverage := downgrade (gs_eventsCoverage g) |>.

Definition markCoveragePartial g : generationState :=
  let g := markIncomplete "event_coverage_partial" g in
  g <| gs_eventsCoverage := downgrade (gs_eventsCoverage g) |>.

Definition couldOwnLossSince g (since : Z) : bool :=
  if negb (gs_ended g) || IsZero since || IsZero (gs_endAppliedAt g) then true
  else negb (Before (gs_endAppliedAt g) since).

(** ** The bounded queues *)

Definition maxQueuedCandidateBatches : nat := 4096.
Definition maxQueuedCandidatePaths : nat := 16384.
Definition pendingLookupTTL : Z := (60 * Second)%Z.
Definition maxPendingEventsPerGeneration : nat := 4096.
Definition pendingEventTTL : Z := (60 * Second)%Z.
Definition maxPendingMountViewEvents : nat := 4096.
Definition pendingMountViewEventTTL : Z := (60 * Second)%Z.

Definition canQueueCandidateBatch g (b : candidateBatch) : bool :=
  if maxQueuedCandidateBatches <=? length (gs_queuedCandidates g) then false
  else if length (gs_queuedCandidates g) =? 0 then true
  else
    foldl (λ total q, total + size (cb_candidates q)) (size (cb_candidates b)) (gs_queuedCandidates g)
      <=? maxQueuedCandidatePaths.

Definition expirePendingLookup (now : Z) g : generationState :=
  match gs_pendingLookup g with
  | None => g
  | Some pl =>
      if (Sub now (pl_submittedAt pl) <=? pendingLookupTTL)%Z then g
      else g <| gs_pendingLookup := None |> <| gs_queuedCandidates := [] |>
             <| gs_candidatesLostPermanently := true |>
  end.

Definition recordPendingEvent (path dev : string) (inode : Z) (kind : string)
    (obs : ProcessObservation) (receivedAt : Z) g : generationState :=
  if maxPendingEventsPerGeneration <=? length (gs_pendingEvents g) then recordEventLoss 1 g
  else
    let seq := S (gs_nextEventSeq g) in
    g <| gs_nextEventSeq := seq |>
      <| gs_pendingEvents :=
           gs_pendingEvents g ++ [mk_pending_event seq path dev inode kind obs receivedAt] |>.

Definition event_expired (now : Z) (item : pendingEventItem) : bool :=
  (pendingEventTTL <? Sub now (pe_receivedAt item))%Z.

Definition expirePendingEvents (now : Z) g : generationState :=
  let kept := List.filter (λ item, negb (event_expired now item)) (gs_pendingEvents g) in
  let expired := Z.of_nat (length (gs_pendingEvents g) - length kept) in
  let g := g <| gs_pendingEvents := kept |> in
  if (0 <? expired)%Z then recordEventLoss expired g else g.

Definition recordPendingMountViewEvent (item : pendingMountViewEvent) g : generationState :=
  if maxPendingMountViewEvents <=? length (gs_pendingMountViewEvents g) then recordEventLoss 1 g
  else g <| gs_pendingMountViewEvents := gs_pendingMountViewEvents g ++ [item] |>.

Definition mount_view_expired (now : Z) (item : pendingMountViewEvent) : bool :=
  (pendingMountViewEventTTL <? Sub now (me_receivedAt item))%Z.

Definition expirePendingMountViewEvents (now : Z) g : generationState :=
  let kept := List.filter (λ item, negb (mount_view_expired now item)) (gs_pendingMountViewEvents g) in
  let expired := Z.of_nat (length (gs_pendingMountViewEvents g) - length kept) in
  let g := g <| gs_pendingMountViewEvents := kept |> in
  if (0 <? expired)%Z then recordEventLoss expired g else g.

(** ** The mount view *)

Definition matchesMountView g (eventMntNsID : Z) (eventRootDev : string) (eventRootIno : Z) : bool :=
  if (gs_mntNsID g =? 0)%Z || (eventMntNsID =? 0)%Z || negb (gs_mntNsID g =? eventMntNsID)%Z then false
  else
    negb (String.eqb (gs_rootDev g) "") && negb (String.eqb eventRootDev "") &&
    negb (gs_rootIno g =? 0)%Z && negb (eventRootIno =? 0)%Z &&
    String.eqb (gs_rootDev g) eventRootDev && (gs_rootIno g =? eventRootIno)%Z.

(** ** Records *)

Definition mirrorMaxStringBytes : nat := 512.

Definition validRecordString (s : string) : bool :=
  if mirrorMaxStringBytes <? slen s then false
  else forallb (λ r, negb (is_control_cp (rune_cp r) || (rune_cp r =? 65533)%N)) (runes s).

Definition validObservation (obs : option ProcessObservation) : bool :=
  match obs with
  | None => true
  | Some o => validRecordString (po_Exe o) && forallb validRecordString (po_Listeners o)
  end.

Definition maxEntitiesPerGenerationAccum : nat := 40000.

Definition entityCount g : nat :=
  size (gs_osPackages g) + size (gs_unavailable g) + size (gs_executables g).

Definition sampleKindOf (kind : string) : bool :=
  String.eqb kind KindExe || String.eqb kind KindMappedLibrary.

Definition mergeKindObservation (kinds : gmap string KindObservation) (kind : string) (now : Z)
    (sampling : bool) : gmap string KindObservation :=
  let k := default (mk_kind_obs now 0 0 0) (kinds !! kind) in
  let later := After now (ko_LastSeen k) in
  let k :=
    if sampling
    then if later then mk_kind_obs (ko_FirstSeen k) (ko_LastSeen k) (ko_Samples k + 1) (ko_Count k) else k
    else mk_kind_obs (ko_FirstSeen k) (ko_LastSeen k) (ko_Samples k) (ko_Count k + 1) in
  let k :=
    if later then mk_kind_obs (ko_FirstSeen k) now (ko_Samples k) (ko_Count k) else k in
  <[kind := k]> kinds.

Definition maxProcessObservations : nat := 8.

Definition sameProcessObservation (a b : ProcessObservation) : bool :=
  String.eqb (po_Exe a) (po_Exe b) && (po_EffectiveUID a =? po_EffectiveUID b)%Z &&
  Bool.eqb (po_Userns a) (po_Userns b) && String.eqb (po_CapEff a) (po_CapEff b) &&
  bool_decide (po_Listeners a = po_Listeners b).

Definition set_LastSeen (t : Z) (o : ProcessObservation) : ProcessObservation :=
  mk_proc_obs (po_Exe o) (po_EffectiveUID o) (po_Userns o) (po_CapEff o) (po_Listeners o) t.

(** The first loop: the list with the matching observation refreshed. *)
Fixpoint refresh (existing : list ProcessObservation) (obs : ProcessObservation)
    : option (list ProcessObservation) :=
  match existing with
  | [] => None
  | e :: existing' =>
      if sameProcessObservation e obs then
        Some ((if After (po_LastSeen obs) (po_LastSeen e) then set_LastSeen (po_LastSeen obs) e else e)
              :: existing')
      else cons e <$> refresh existing' obs
  end.

(** The second loop: the index of the first observation of least [LastSeen]. *)
Fixpoint oldest_loop (l : list ProcessObservation) (i oldest : nat) (least : Z) : nat :=
  match l with
  | [] => oldest
  | e :: l' =>
      if Before (po_LastSeen e) least then oldest_loop l' (S i) i (po_LastSeen e)
      else oldest_loop l' (S i) oldest least
  end.

Definition oldest (l : list ProcessObservation) : nat :=
  match l with
  | [] => 0
  | e :: l' => oldest_loop l' 1 0 (po_LastSeen e)
  end.

Definition mergeProcessObservation (existing : list ProcessObservation) (obs : ProcessObservation)
    : list ProcessObservation :=
  match refresh existing obs with
  | Some out => out
  | None =>
      let existing := existing ++ [obs] in
      if length existing <=? maxProcessObservations then existing
      else delete (oldest existing) existing
  end.

Definition merge_obs (existing : list ProcessObservation) (obs : option ProcessObservation)
    : list ProcessObservation :=
  match obs with Some o => mergeProcessObservation existing o | None => existing end.

(** The observation a record keeps: an invalid one is dropped and the
    generation marked. *)
Definition screen_observation (obs : option ProcessObservation) g
    : option ProcessObservation * generationState :=
  if validObservation obs then (obs, g) else (None, markIncomplete "invalid_observation" g).

Definition recordOSPackage (name version kind : string) (now : Z) (obs : option ProcessObservation) g
    : generationState :=
  if negb (validRecordString name) || negb (validRecordString version)
  then markIncomplete "invalid_record" g
  else
    let '(obs, g) := screen_observation obs g in
    let key := (name, version) in
    let g := g <| gs_unavailable := delete key (gs_unavailable g) |> in
    let put p := g <| gs_osPackages :=
      <[key := mk_os_pkg (op_Name p) (op_Version p)
                 (mergeKindObservation (op_Kinds p) kind now (sampleKindOf kind))
                 (merge_obs (op_Observations p) obs)]> (gs_osPackages g) |> in
    match gs_osPackages g !! key with
    | Some p => put p
    | None =>
        if maxEntitiesPerGenerationAccum <=? entityCount g then g <| gs_truncated := true |>
        else put (mk_os_pkg name version ∅ [])
    end.

Definition recordUnavailableOSPackage (name version reason : string) g : generationState :=
  if negb (validRecordString name) || negb (validRecordString version)
  then markIncomplete "invalid_record" g
  else
    let key := (name, version) in
    match gs_osPackages g !! key with
    | Some _ => g
    | None =>
        if negb (bool_decide (is_Some (gs_unavailable g !! key))) &&
           (maxEntitiesPerGenerationAccum <=? entityCount g)
        then g <| gs_truncated := true |>
        else g <| gs_unavailable := <[key := mk_unavail name version reason]> (gs_unavailable g) |>
    end.

Definition recordExecutable (path dev : string) (inode : Z) (kind : string) (now : Z)
    (obs : option ProcessObservation) g : generationState :=
  if negb (validRecordString path) || negb (validRecordString dev)
  then markIncomplete "invalid_record" g
  else
    let '(obs, g) := screen_observation obs g in
    let put e :=
      let '(d, i) := if negb (String.eqb dev "") then (dev, inode) else (ee_Dev e, ee_Inode e) in
      g <| gs_executables :=
        <[path := mk_exec (ee_Path e) d i
                   (mergeKindObservation (ee_Kinds e) kind now (sampleKindOf kind))
                   (merge_obs (ee_Observations e) obs)]> (gs_executables g) |> in
    match gs_executables g !! path with
    | Some e => put e
    | None =>
        if maxEntitiesPerGenerationAccum <=? entityCount g then g <| gs_truncated := true |>
        else put (mk_exec path "" 0 ∅ [])
    end.

(** ** The retry schedule of rejected files *)

Definition maxParseRetryBackoff : Z := (24 * Hour)%Z.

Definition same_input (input path : string) (pf : ParseFailure) : bool :=
  String.eqb (pf_Input pf) input && String.eqb (pf_Path pf) path.

Definition parseFailureIn (failures : list ParseFailure) (input path : string) : option ParseFailure :=
  find (same_input input path) failures.

(** What a build attempt identifies a file by. *)
Record fileIdentity := mk_file {
  fi_input : string; fi_path : string; fi_dev : string; fi_inode : Z; fi_size : Z }.

Definition same_content (f : fileIdentity) (pf : ParseFailure) : bool :=
  String.eqb (pf_Dev pf) (fi_dev f) && (pf_Inode pf =? fi_inode f)%Z && (pf_Size pf =? fi_size f)%Z.

Definition shouldSkipForBackoff (failures : list ParseFailure) (f : fileIdentity) (now : Z) : bool :=
  match parseFailureIn failures (fi_input f) (fi_path f) with
  | None => false
  | Some pf => if negb (same_content f pf) then false else Before now (pf_RetryAfter pf)
  end.

Definition fresh_failure (f : fileIdentity) (now interval : Z) : ParseFailure :=
  mk_parse_failure (fi_input f) (fi_path f) (fi_dev f) (fi_inode f) (fi_size f) now 1
    (now + int64_wrap (10 * interval)).

(** A repeated failure of the same content. *)
Definition repeat_failure (pf : ParseFailure) (now interval : Z) : ParseFailure :=
  let prevBackoff := Sub (pf_RetryAfter pf) (pf_FailedAt pf) in
  let prevBackoff := if (prevBackoff <=? 0)%Z then int64_wrap (10 * interval) else prevBackoff in
  let backoff := int64_wrap (prevBackoff * 2) in
  let backoff := if (maxParseRetryBackoff <? backoff)%Z then maxParseRetryBackoff else backoff in
  mk_parse_failure (pf_Input pf) (pf_Path pf) (pf_Dev pf) (pf_Inode pf) (pf_Size pf) now
    (pf_Count pf + 1) (now + backoff).

Fixpoint recordParseFailure (failures : list ParseFailure) (f : fileIdentity) (now interval : Z)
    : list ParseFailure :=
  match failures with
  | [] => [fresh_failure f now interval]
  | pf :: failures' =>
      if negb (same_input (fi_input f) (fi_path f) pf) then pf :: recordParseFailure failures' f now interval
      else if same_content f pf then repeat_failure pf now interval :: failures'
      else fresh_failure f now interval :: failures'
  end.

Definition recordParseSuccess (failures : list ParseFailure) (f : fileIdentity) : list ParseFailure :=
  List.filter (λ pf, negb (same_input (fi_input f) (fi_path f) pf)) failures.

Definition nextRetryTime (failures : list ParseFailure) : Z :=
  foldl (λ next pf, if IsZero next || Before (pf_RetryAfter pf) next then pf_RetryAfter pf else next)
    0%Z failures.

(** ** Publishing *)

Definition lastGoodSample (t : Z) (denied : bool) g : generationState :=
  g <| gs_lastVerifiedAt := t |> <| gs_lastSampleDenied := denied |>.

Definition derivePublishedState g : string :=
  if gs_ended g then StateEnded
  else if gs_sampleStalled g then StateStalled
  else if gs_lastSampleDenied g then StateDenied
  else if (0 <? length (gs_parseFailed g)) || gs_forceParseFailed g then StateParseFailed
  else if negb (bool_decide (gs_idxState g = indexReady)) || negb (gs_postIndexConfirmed g) ||
          (0 <? length (gs_pendingEvents g)) then StateInitializing
  else StateObserving.

Context `{MapRange}.

Definition toEvidence (hasPendingRouteEvent : bool) g : Generation :=
  mk_gen (gs_container g) (gs_init g) (gs_startedAt g) (gs_endedAt g) (gs_lastVerifiedAt g)
    (derivePublishedState g) (gs_packageDB g)
    (gs_incomplete g || bool_decide (is_Some (gs_pendingLookup g)) ||
     (0 <? length (gs_queuedCandidates g)) || gs_candidatesLostPermanently g ||
     (0 <? length (gs_pendingMountViewEvents g)) || (0 <? gs_pendingMapsLookups g) ||
     (0 <? gs_pendingConfirms g) || hasPendingRouteEvent)
    (gs_truncated g) (gs_eventsCoverage g) (gs_eventsLost g) (gs_parseFailed g)
    (map_range (gs_osPackages g)).*2 (map_range (gs_unavailable g)).*2
    (map_range (gs_executables g)).*2.
End generation.

Arguments maxEntitiesPerGenerationAccum : simpl never.
Arguments maxQueuedCandidateBatches : simpl never.
Arguments maxQueuedCandidatePaths : simpl never.
Arguments maxPendingEventsPerGeneration : simpl never.
Arguments maxPendingMountViewEvents : simpl never.
