(* ===== verification/Session.v ===== *)
(** * Session: what the sensor's loop does to its generations

    [internal/sensor/session.go], with the usage events of [events.go] and
    [usrmergeAlias] of [sampleworker.go]: the results of sample workers and of
    the database worker are folded into a generation, candidates are submitted
    for lookup or queued, builds are requested, generations end.

    Each operation takes the generation and the channel of database jobs, the
    two pieces of state it changes, and returns them. The clock is read once
    per operation ([now]). What a sample worker reads from /proc and what the
    parser answers are arguments ([sampleResult], [dbResult]). *)

From Stdlib Require Import ZArith Lia Bool Ascii String List.
From stdpp Require Import base countable gmap strings list.
From S2P Require Import Prelude GoStrings GoText GoTime Inventory Evidence EvidenceFile Generation.

Open Scope string_scope.
Open Scope Z_scope.
Open Scope nat_scope.
Open Scope list_scope.

(** ** Data *)

Inductive dbJobKind := dbJobBuild | dbJobLookup | dbJobForget.

#[export] Instance dbJobKind_eq_dec : EqDecision dbJobKind.
Proof. solve_decision. Defined.

Record dbJob := mk_job {
  jb_kind : dbJobKind;
  jb_genKey : string;
  jb_epoch : nat;
  jb_seq : nat;
  jb_knownFailures : list ParseFailure;
  jb_paths : list string }.

Record lookupOwner := mk_owner { lo_Name : string; lo_Version : string }.
Record lookupOutcome := mk_outcome { lc_owners : list lookupOwner; lc_truncated : bool }.

Record dbResult := mk_result {
  dr_kind : dbJobKind;
  dr_genKey : string;
  dr_settled : bool;
  dr_dbKind : string;
  dr_dbStatus : string;
  dr_truncated : bool;
  dr_noFileList : list string;
  dr_noChange : bool;
  dr_buildOK : bool;
  dr_failure : option fileIdentity;
  dr_succeededFiles : list fileIdentity;
  dr_failedFiles : list fileIdentity;
  dr_failuresTruncated : bool;
  dr_basis : mountBasis;
  dr_owners : gmap string lookupOutcome;
  dr_lookupFailed : bool;
  dr_epochStale : bool;
  dr_epoch : nat;
  dr_seq : nat }.

Record executableObs := mk_exec_obs {
  eo_path : string; eo_dev : string; eo_inode : Z; eo_kind : string; eo_obs : ProcessObservation }.

Record sampleResult := mk_sample {
  sr_attempted : nat; sr_denied : nat; sr_succeeded : nat;
  sr_incomplete : bool;
  sr_reasons : list string;
  sr_reasonsDropped : nat;
  sr_truncated : bool;
  sr_executables : list executableObs;
  sr_candidates : gmap string (list sampleCandidate);
  sr_verified : list string;
  sr_replaced : list string;
  sr_mergedUsrDirs : option (gset string);
  sr_basis : mountBasis;
  sr_initAliveNs : Z;
  sr_initAliveNsOK : bool;
  sr_indexReadyAtStart : bool;
  sr_verifiedEvents : list pendingEventItem;
  sr_lostEventItems : list pendingEventItem }.

Inductive sampleEnvelopeKind := sampleEnvResult | sampleEnvTimeout | sampleEnvFinished.

Definition dbJobChCapacity : nat := 4096.
Definition maxConcurrentSampleWorkers : nat := 8.
Definition buildSoftStall : Z := (5 * Minute)%Z.
Definition maxNoFileListPerGeneration : nat := 5000.
Definition endedRetention : Z := (7 * 24 * Hour)%Z.

(** ** Text *)

(** [%0wx] of an unsigned integer. *)
Definition hex_digit (n : N) : ascii := ascii_of_N (if (n <? 10)%N then n + 48 else n + 87)%N.

Fixpoint hex_fuel (fuel : nat) (n : N) (acc : string) : string :=
  match fuel with
  | O => acc
  | S fuel' =>
      let acc := String (hex_digit (n mod 16)%N) acc in
      if (n / 16 =? 0)%N then acc else hex_fuel fuel' (n / 16)%N acc
  end.

Definition zeros (n : nat) : string := join "" (replicate n "0").

Definition hex_pad (w : nat) (n : N) : string :=
  let s := hex_fuel (S (N.to_nat (N.log2 n))) n "" in zeros (w - slen s) +:+ s.

Definition kernelDevMinorBits : Z := 20.
Definition kernelDevMinorMask : Z := (2 ^ kernelDevMinorBits - 1)%Z.

Definition kernelDevMajorMinor (dev : Z) : Z * Z :=
  (Z.shiftr dev kernelDevMinorBits mod 2 ^ 32, Z.land dev kernelDevMinorMask)%Z.

Definition formatKernelDev (dev : Z) : string :=
  let '(major, minor) := kernelDevMajorMinor dev in
  hex_pad 2 (Z.to_N major) +:+ ":" +:+ hex_pad 2 (Z.to_N minor).

Definition formatCapEff (capEffective : Z) : string := hex_pad 16 (Z.to_N capEffective).

Definition parseNSLinkInode (prefix link : string) : option Z :=
  if negb (has_prefix link prefix) || negb (has_suffix link "]") then None
  else if slen link <? slen prefix + 1 then None
  else
    let digits := stake (slen link - slen prefix - 1) (sdrop (slen prefix) link) in
    if String.eqb digits "" || negb (sforallb is_digit digits) then None
    else
      let n := Z.of_N (dec_val digits) in
      if (n <? 2 ^ 32)%Z then Some n else None.

Definition parseMntNSInode (link : string) : option Z := parseNSLinkInode "mnt:[" link.

Definition usrmergeDirs : list (string * string) :=
  [("/bin/", "/usr/bin/"); ("/sbin/", "/usr/sbin/"); ("/lib64/", "/usr/lib64/"); ("/lib/", "/usr/lib/")].

Definition cutPrefix (s p : string) : option string :=
  if has_prefix s p then Some (sdrop (slen p) s) else None.

Fixpoint usrmerge_loop (pairs : list (string * string)) (path : string) (merged : gset string) : option string :=
  match pairs with
  | [] => None
  | (old, new) :: pairs' =>
      if negb (bool_decide (old ∈ merged)) then usrmerge_loop pairs' path merged
      else match cutPrefix path old with
           | Some rest => Some (new +:+ rest)
           | None =>
               match cutPrefix path new with
               | Some rest => Some (old +:+ rest)
               | None => usrmerge_loop pairs' path merged
               end
           end
  end.

Definition usrmergeAlias (path : string) (merged : gset string) : option string :=
  usrmerge_loop usrmergeDirs path merged.

Definition genKey (containerID : string) (init : InitProcess) : string :=
  containerID +:+ ":" +:+ signed_itoa (ip_PID init) +:+ ":" +:+ signed_itoa (ip_Starttime init).

Definition gs_key (g : generationState) : string := genKey (cr_ID (gs_container g)) (gs_init g).

Definition sameMountBasis (a b : mountBasis) : bool :=
  mb_ok a && mb_ok b && String.eqb (mb_mntNS a) (mb_mntNS b) &&
  String.eqb (mb_rootDev a) (mb_rootDev b) && (mb_rootIno a =? mb_rootIno b)%Z.

(** ** The channel of database jobs

    A non-blocking send: whether it was taken, and the channel. *)

Definition submitDBJob (job : dbJob) (ch : list dbJob) : bool * list dbJob :=
  if length ch <? dbJobChCapacity then (true, ch ++ [job]) else (false, ch).

Section session.
Implicit Types (g : generationState) (ch : list dbJob) (now : Z).

(** ** Submitting candidates *)

Definition lookup_paths (b : candidateBatch) : list string :=
  mjoin ((λ p, p :: match usrmergeAlias p (cb_mergedUsrDirs b) with Some a => [a] | None => [] end) <$>
         (cb_verified b ++ cb_replaced b)).

Definition submitCandidateBatches (now : Z) (epoch : nat) (batches : list candidateBatch) g ch
    : generationState * list dbJob :=
  let lookupSet := mjoin (lookup_paths <$> batches) in
  if length lookupSet =? 0 then (g, ch)
  else
    let g := g <| gs_nextLookupSeq := S (gs_nextLookupSeq g) |> in
    let seq := gs_nextLookupSeq g in
    let '(sent, ch) := submitDBJob (mk_job dbJobLookup (gs_key g) epoch seq [] lookupSet) ch in
    if sent then (g <| gs_pendingLookup := Some (mk_lookup batches seq epoch now) |>, ch)
    else (markIncomplete "lookup_submit_failed" g, ch).

(** Behind an outstanding lookup a batch waits, if there is room for it. *)
Definition queue_or_submit (now : Z) (batch : candidateBatch) g ch : generationState * list dbJob :=
  match gs_pendingLookup g with
  | Some _ =>
      if negb (canQueueCandidateBatch g batch) then (g <| gs_candidatesLostPermanently := true |>, ch)
      else (g <| gs_queuedCandidates := gs_queuedCandidates g ++ [batch] |>, ch)
  | None => submitCandidateBatches now (gs_idxEpoch g) [batch] g ch
  end.

Definition submitEventCandidate (now : Z) (path dev : string) (inode : Z) (kind : string)
    (obs : ProcessObservation) g ch : generationState * list dbJob :=
  let batch := mk_batch {[path := [mk_candidate kind dev inode false obs]]} (gs_mergedUsrDirs g)
                 [path] [] now (gs_idxEpoch g) (gs_idxBasis g) in
  queue_or_submit now batch g ch.

Definition flushQueuedCandidates (now : Z) g ch : generationState * list dbJob :=
  match gs_queuedCandidates g with
  | [] => (g, ch)
  | queued =>
      let current := List.filter (λ b, cb_epoch b =? gs_idxEpoch g) queued in
      let g := g <| gs_queuedCandidates := [] |> in
      let g := if length current <? length queued then g <| gs_candidatesLostPermanently := true |> else g in
      match current with
      | [] => (g, ch)
      | _ => submitCandidateBatches now (gs_idxEpoch g) current g ch
      end
  end.

(** ** Usage events *)

Section events.
(** The observer's own user namespace. *)
Variable ownUserNSInode : Z.

Definition eventInDistinctUserNS (ev : Event) : bool :=
  if (be_UserNamespaceID ev =? 0)%Z || (ownUserNSInode =? 0)%Z then false
  else negb (be_UserNamespaceID ev mod 2 ^ 32 =? ownUserNSInode)%Z.

Definition eventObservation (ev : Event) (path : string) (now : Z) : ProcessObservation :=
  mk_proc_obs path (be_EUID ev) (eventInDistinctUserNS ev) (formatCapEff (be_CapEffective ev)) [] now.

Definition dispatchUsageEvent (now : Z) (path : string) (ev : Event) (kind : string) (isExec : bool) g ch
    : generationState * list dbJob :=
  if negb (matchesMountView g (be_MountNamespaceID ev mod 2 ^ 32) (formatKernelDev (be_RootDev ev))
             (be_RootIno ev)) then
    if (gs_mntNsID g =? 0)%Z
    then (recordPendingMountViewEvent (mk_mount_view_event path ev kind isExec now) g, ch)
    else (markIncomplete "mount_view_mismatch" g, ch)
  else
    let dev := formatKernelDev (be_Dev ev) in
    let obs := eventObservation ev path now in
    let g := if isExec then recordExecutable path dev (be_Ino ev) kind now (Some obs) g else g in
    if negb (bool_decide (gs_idxState g = indexReady))
    then (recordPendingEvent path dev (be_Ino ev) kind obs now g, ch)
    else submitEventCandidate now path dev (be_Ino ev) kind obs g ch.

Definition drainPendingMountViewEvents (now : Z) g ch : generationState * list dbJob :=
  let items := gs_pendingMountViewEvents g in
  foldl (λ gc item, dispatchUsageEvent now (me_path item) (me_ev item) (me_kind item) (me_isExec item) gc.1 gc.2)
    (g <| gs_pendingMountViewEvents := [] |>, ch) items.

Definition applyEventVerificationResult (now : Z) (res : sampleResult) g ch
    : generationState * list dbJob :=
  let stillPending := pe_seq <$> List.filter (λ item, negb (event_expired now item)) (gs_pendingEvents g) in
  let answers item := bool_decide (pe_seq item ∈ stillPending) in
  let verified := List.filter answers (sr_verifiedEvents res) in
  let lost := List.filter answers (sr_lostEventItems res) in
  let '(g, ch) :=
    foldl (λ gc item, submitEventCandidate now (pe_path item) (pe_dev item) (pe_inode item) (pe_kind item)
                        (pe_obs item) gc.1 gc.2) (g, ch) verified in
  let g := recordEventLoss (Z.of_nat (length lost)) g in
  let processed := (pe_seq <$> verified) ++ (pe_seq <$> lost) in
  (g <| gs_pendingEvents :=
     List.filter (λ item, negb (bool_decide (pe_seq item ∈ processed))) (gs_pendingEvents g) |>, ch).

(** ** The result of a sample worker *)

Definition note_incomplete (res : sampleResult) g : generationState :=
  if negb (sr_incomplete res) then g
  else
    let g := g <| gs_incomplete := true |> in
    let g := foldl (λ g code, logIncomplete code g) g (sr_reasons res) in
    let g := if 0 <? sr_reasonsDropped res then logIncomplete "sample_reasons_dropped" g else g in
    if length (sr_reasons res) =? 0 then logIncomplete "sample_incomplete_unspecified" g else g.

(** The identity of the mount view is recorded once. *)
Definition note_mount_view (res : sampleResult) g : generationState :=
  let b := sr_basis res in
  let g :=
    if (gs_mntNsID g =? 0)%Z && mb_ok b then
      match parseMntNSInode (mb_mntNS b) with Some id => g <| gs_mntNsID := id |> | None => g end
    else g in
  if String.eqb (gs_rootDev g) "" && mb_ok b
  then g <| gs_rootDev := mb_rootDev b |> <| gs_rootIno := mb_rootIno b |> else g.

Definition note_alive (res : sampleResult) g : generationState :=
  if sr_initAliveNsOK res && (negb (gs_lastAliveNsOK g) || (gs_lastAliveNs g <? sr_initAliveNs res)%Z)
  then g <| gs_lastAliveNs := sr_initAliveNs res |> <| gs_lastAliveNsOK := true |> else g.

Definition basis_mismatch (res : sampleResult) g : bool :=
  bool_decide (gs_idxState g = indexReady) && mb_ok (gs_idxBasis g) && mb_ok (sr_basis res) &&
  negb (sameMountBasis (gs_idxBasis g) (sr_basis res)).

(** What a sample tells besides candidates and pending events. *)
Definition fold_sample (now : Z) (res : sampleResult) g ch : generationState * list dbJob :=
  let g := if sr_truncated res then g <| gs_truncated := true |> else g in
  let g := note_incomplete res g in
  let mountViewJustConfirmed := (gs_mntNsID g =? 0)%Z && mb_ok (sr_basis res) in
  let g := note_mount_view res g in
  let '(g, ch) :=
    if mountViewJustConfirmed && negb (gs_mntNsID g =? 0)%Z
    then drainPendingMountViewEvents now g ch else (g, ch) in
  let g := note_alive res g in
  let g := match sr_mergedUsrDirs res with Some m => g <| gs_mergedUsrDirs := m |> | None => g end in
  (foldl (λ g e, recordExecutable (eo_path e) (eo_dev e) (eo_inode e) (eo_kind e) now
                   (Some (eo_obs e)) g) g (sr_executables res), ch).

Definition all_denied (res : sampleResult) : bool :=
  (0 <? sr_attempted res) && (sr_denied res =? sr_attempted res).

Definition sample_confirmed (res : sampleResult) : bool :=
  (0 <? sr_succeeded res) || all_denied res.

Definition invalidate_index g : generationState :=
  let g := g <| gs_idxState := indexIdle |> in
  let g := markIncomplete "basis_mismatch" g in
  g <| gs_postIndexConfirmed := false |> <| gs_idxEpoch := S (gs_idxEpoch g) |>.

Definition applySampleResult (now : Z) (res : sampleResult) g ch : generationState * list dbJob :=
  let '(g, ch) := fold_sample now res g ch in
  let basisMismatch := basis_mismatch res g in
  let '(g, ch) := if negb basisMismatch then applyEventVerificationResult now res g ch else (g, ch) in
  let g := if sample_confirmed res then lastGoodSample now (all_denied res) g else g in
  if negb (sr_indexReadyAtStart res) then (g, ch)
  else if basisMismatch then (invalidate_index g, ch)
  else if size (sr_candidates res) =? 0 then
    if sample_confirmed res && bool_decide (gs_idxState g = indexReady) &&
       String.eqb (db_Status (gs_packageDB g)) DBStatusOK
    then (g <| gs_postIndexConfirmed := true |>, ch) else (g, ch)
  else if negb (bool_decide (gs_idxState g = indexReady)) ||
          negb (String.eqb (db_Status (gs_packageDB g)) DBStatusOK) then (g, ch)
  else
    queue_or_submit now
      (mk_batch (sr_candidates res) (default ∅ (sr_mergedUsrDirs res)) (sr_verified res) (sr_replaced res)
         now (gs_idxEpoch g) (sr_basis res)) g ch.
End events.

(** ** The results of the database worker *)

Definition set_db (kind status : string) g : generationState :=
  g <| gs_packageDB := mk_db kind status (db_NoFileList (gs_packageDB g)) |>.

Definition build_failures (now interval : Z) (res : dbResult) (failures : list ParseFailure)
    : list ParseFailure :=
  let failures := match dr_failure res with
                  | Some f => recordParseFailure failures f now interval
                  | None => failures
                  end in
  let failures := foldl recordParseSuccess failures (dr_succeededFiles res) in
  foldl (λ l f, recordParseFailure l f now interval) failures (dr_failedFiles res).

Definition keep_no_file_list (res : dbResult) g : generationState :=
  if String.eqb (dr_dbStatus res) DBStatusOK && dr_buildOK res then
    let g := if maxNoFileListPerGeneration <? length (dr_noFileList res)
             then g <| gs_truncated := true |> else g in
    g <| gs_packageDB := mk_db (db_Kind (gs_packageDB g)) (db_Status (gs_packageDB g))
           (take maxNoFileListPerGeneration (dr_noFileList res)) |>
  else g.

Definition applyBuildResult (now interval : Z) (res : dbResult) g : generationState :=
  let g := set_db (dr_dbKind res) (dr_dbStatus res) g in
  if dr_settled res then
    g <| gs_idxState := indexReady |> <| gs_idxBasis := dr_basis res |> <| gs_postIndexConfirmed := true |>
  else if dr_noChange res then g <| gs_idxState := indexFailed |>
  else
    let g := if dr_truncated res then g <| gs_truncated := true |> else g in
    let g := if dr_failuresTruncated res then markIncomplete "failures_truncated" g else g in
    let g := g <| gs_parseFailed := build_failures now interval res (gs_parseFailed g) |> in
    let g := keep_no_file_list res g in
    if dr_buildOK res && (length (gs_parseFailed g) =? 0) then
      g <| gs_idxState := indexReady |> <| gs_idxBasis := dr_basis res |>
        <| gs_postIndexConfirmed := false |>
    else
      g <| gs_idxState := indexFailed |> <| gs_idxRetryAfter := nextRetryTime (gs_parseFailed g) |>.

(** The answer for a path, its alias consulted when the path has no owner:
    the owners, whether it was answered, whether the owners were cut. *)
Definition lookup_answer (owners : gmap string lookupOutcome) (merged : gset string) (path : string)
    : list lookupOwner * bool * bool :=
  let primary := default (mk_outcome [] false) (owners !! path) in
  let primaryOK := bool_decide (is_Some (owners !! path)) in
  if 0 <? length (lc_owners primary) then (lc_owners primary, true, lc_truncated primary)
  else match usrmergeAlias path merged with
       | Some alias =>
           let aliasResult := default (mk_outcome [] false) (owners !! alias) in
           let aliasOK := bool_decide (is_Some (owners !! alias)) in
           if 0 <? length (lc_owners aliasResult)
           then (lc_owners aliasResult, true, lc_truncated aliasResult)
           else ([], primaryOK || aliasOK, lc_truncated primary || lc_truncated aliasResult)
       | None => (lc_owners primary, primaryOK, lc_truncated primary)
       end.

Definition apply_verified (res : dbResult) (batch : candidateBatch) (path : string) g : generationState :=
  let '(result, answered, truncated) := lookup_answer (dr_owners res) (cb_mergedUsrDirs batch) path in
  if negb answered then markIncomplete "lookup_unanswered" g
  else
    let g := if truncated then markIncomplete "lookup_owners_truncated" g else g in
    match result with
    | [] => g
    | [owner] =>
        foldl (λ g c, recordOSPackage (lo_Name owner) (lo_Version owner) (sc_kind c) (cb_observedAt batch)
                        (Some (sc_obs c)) g) g (default [] (cb_candidates batch !! path))
    | _ => foldl (λ g owner, recordUnavailableOSPackage (lo_Name owner) (lo_Version owner)
                               ReasonAttributionAmbiguous g) g result
    end.

Definition apply_replaced (res : dbResult) (batch : candidateBatch) (path : string) g : generationState :=
  let '(result, answered, truncated) := lookup_answer (dr_owners res) (cb_mergedUsrDirs batch) path in
  if negb answered then markIncomplete "lookup_unanswered" g
  else
    let g := if truncated then markIncomplete "lookup_owners_truncated" g else g in
    foldl (λ g owner, recordUnavailableOSPackage (lo_Name owner) (lo_Version owner)
                        ReasonFileReplaced g) g result.

Definition apply_batch (res : dbResult) g (batch : candidateBatch) : generationState :=
  let g := foldl (λ g path, apply_verified res batch path g) g (cb_verified batch) in
  foldl (λ g path, apply_replaced res batch path g) g (cb_replaced batch).

Definition applyLookupResult (now : Z) (res : dbResult) g ch : generationState * list dbJob :=
  match gs_pendingLookup g with
  | None => (g, ch)
  | Some pl =>
      if negb (dr_seq res =? pl_seq pl) then (g, ch)
      else
        let g := g <| gs_pendingLookup := None |> in
        let g :=
          if dr_epochStale res then g <| gs_candidatesLostPermanently := true |>
          else if dr_lookupFailed res then markIncomplete "lookup_failed" g
          else foldl (apply_batch res) g (pl_batches pl) <| gs_postIndexConfirmed := true |> in
        flushQueuedCandidates now g ch
  end.

(** [applyDBResult] on the generation the result names. *)
Definition applyDBResult (now interval : Z) (res : dbResult) g ch : generationState * list dbJob :=
  if gs_ended g then (g, ch)
  else match dr_kind res with
       | dbJobBuild => (applyBuildResult now interval res g, ch)
       | dbJobLookup => applyLookupResult now res g ch
       | dbJobForget => (g, ch)
       end.

(** ** Requests *)

Definition maybeSubmitBuild (now : Z) (buildQueueStalled : bool) g ch : generationState * list dbJob :=
  if negb (bool_decide (gs_idxState g = indexIdle)) && negb (bool_decide (gs_idxState g = indexFailed))
  then (g, ch)
  else if buildQueueStalled then (g, ch)
  else
    let '(sent, ch) :=
      submitDBJob (mk_job dbJobBuild (gs_key g) (gs_idxEpoch g) 0 (gs_parseFailed g) []) ch in
    if sent then (g <| gs_idxState := indexBuilding |> <| gs_idxQueuedAt := now |>, ch)
    else (g, ch).

(** The worker [startSampleWorker] starts is given what the index knows now:
    the generation, and the pending events handed over. *)
Definition startSampleWorker g : generationState * list pendingEventItem :=
  (g <| gs_sampleAlive := true |>,
   if bool_decide (gs_idxState g = indexReady) then gs_pendingEvents g else []).

(** [dispatchWork]'s expiry of one generation's queues. *)
Definition expire_queues (now : Z) g : generationState :=
  expirePendingLookup now (expirePendingMountViewEvents now (expirePendingEvents now g)).

Definition handleSampleEnvelope (own now : Z) (kind : sampleEnvelopeKind) (res : sampleResult) g ch
    : generationState * list dbJob :=
  match kind with
  | sampleEnvResult =>
      let g := g <| gs_sampleAlive := false |> <| gs_sampleStalled := false |> in
      if gs_ended g then (g, ch) else applySampleResult own now res g ch
  | sampleEnvTimeout => (if gs_ended g then g else g <| gs_sampleStalled := true |>, ch)
  | sampleEnvFinished => (g <| gs_sampleAlive := false |>, ch)
  end.

Definition endGeneration (now appliedAt : Z) g ch : generationState * list dbJob :=
  let g := g <| gs_ended := true |> <| gs_endedAt := Some now |> <| gs_endAppliedAt := appliedAt |> in
  (g, (submitDBJob (mk_job dbJobForget (gs_key g) 0 0 [] []) ch).2).

(** [writeParseFailedAndExit] on one generation. *)
Definition force_parse_failed g : generationState :=
  if gs_ended g then g else g <| gs_forceParseFailed := true |>.
End session.
