(* ===== verification/SensorInv.v ===== *)
(** * SensorInv: what holds of a generation in every reachable state

    The loop's operations of [Generation] and [Session] as a step relation on
    one generation ([loop_step]), the states reachable from a discovered
    container ([reachable]), and the invariant that the sensor keeps only
    records its own reader accepts. The other generations and the shared
    channel of database jobs appear as arbitrary channel contents. *)

From Stdlib Require Import ZArith Lia Bool Ascii String List.
From stdpp Require Import base countable gmap strings list.
From S2P Require Import Prelude GoStrings GoRegexp Decimals Semver GoText GoTime Inventory Evidence EvidenceFile.
From S2P Require Import Generation Session.

Open Scope string_scope.
Open Scope Z_scope.
Open Scope nat_scope.
Open Scope list_scope.

(** ** The records the reader accepts *)

Definition times_ok (t : Z) (o : KindObservation) : Prop :=
  (ko_FirstSeen o ≤ t)%Z ∧ (ko_LastSeen o ≤ t)%Z.

Definition kinds_ok (t : Z) (kinds : gmap string KindObservation) : Prop :=
  map_Forall (λ k o, k ∈ validRecordedKinds ∧ times_ok t o) kinds.

Definition obs_ok (t : Z) (o : ProcessObservation) : Prop :=
  validString (po_Exe o) = true ∧ validString (po_CapEff o) = true ∧
  forallb validString (po_Listeners o) = true ∧ (po_LastSeen o ≤ t)%Z.

Definition obs_list_ok (t : Z) (l : list ProcessObservation) : Prop :=
  length l ≤ maxObservationsPerEntity ∧ Forall (obs_ok t) l.

Definition os_ok (t : Z) (key : pkgKey) (p : OSPackageEvidence) : Prop :=
  (op_Name p, op_Version p) = key ∧ validString key.1 = true ∧ validString key.2 = true ∧
  op_Kinds p ≠ ∅ ∧ kinds_ok t (op_Kinds p) ∧ obs_list_ok t (op_Observations p).

Definition unavail_ok (key : pkgKey) (u : UnavailablePackage) : Prop :=
  (up_Name u, up_Version u) = key ∧ validString key.1 = true ∧ validString key.2 = true ∧
  up_Reason u ∈ validUnavailableReasons.

Definition exec_ok (t : Z) (path : string) (e : ExecutableEvidence) : Prop :=
  ee_Path e = path ∧ validString path = true ∧ validString (ee_Dev e) = true ∧
  hasExecutionEvidence (ee_Kinds e) = true ∧ kinds_ok t (ee_Kinds e) ∧ obs_list_ok t (ee_Observations e).

Definition failure_ok (t : Z) (p : ParseFailure) : Prop :=
  (pf_FailedAt p ≤ t)%Z ∧ (pf_RetryAfter p - pf_FailedAt p ≤ maxParseRetryBackoff)%Z.

(** ** The inputs of the loop *)

(** An observation before it is screened: its capability set is the kernel's
    hexadecimal text and it was made by [t]. *)
Definition obs_in (t : Z) (o : ProcessObservation) : Prop :=
  validString (po_CapEff o) = true ∧ (po_LastSeen o ≤ t)%Z.

Definition exec_kind (kind : string) : Prop := kind = KindExe ∨ kind = KindExecEvent.

Definition candidate_ok (t : Z) (c : sampleCandidate) : Prop :=
  sc_kind c ∈ validRecordedKinds ∧ obs_in t (sc_obs c).

Definition batch_ok (t : Z) (b : candidateBatch) : Prop :=
  (cb_observedAt b ≤ t)%Z ∧ map_Forall (λ _ l, Forall (candidate_ok t) l) (cb_candidates b).

Definition event_item_ok (t : Z) (item : pendingEventItem) : Prop :=
  pe_kind item ∈ validRecordedKinds ∧ obs_in t (pe_obs item).

Definition usage_kind (isExec : bool) : string :=
  if isExec then KindExecEvent else KindLibraryLoadEvent.

(** A capability set is a 64-bit mask. *)
Definition event_ok (ev : Event) : Prop := (0 ≤ be_CapEffective ev < 2 ^ 64)%Z.

Definition mount_view_item_ok (item : pendingMountViewEvent) : Prop :=
  me_kind item = usage_kind (me_isExec item) ∧ event_ok (me_ev item).

Definition sample_ok (t : Z) (res : sampleResult) : Prop :=
  Forall (λ e, exec_kind (eo_kind e) ∧ obs_in t (eo_obs e)) (sr_executables res) ∧
  map_Forall (λ _ l, Forall (candidate_ok t) l) (sr_candidates res) ∧
  Forall (event_item_ok t) (sr_verifiedEvents res).

(** The sampling intervals the command line accepts. *)
Definition interval_ok (interval : Z) : Prop := (10 * Second ≤ interval ≤ 5 * Minute)%Z.

(** ** The invariant *)

Definition entities_inv (t : Z) (g : generationState) : Prop :=
  map_Forall (os_ok t) (gs_osPackages g) ∧ map_Forall unavail_ok (gs_unavailable g) ∧
  map_Forall (exec_ok t) (gs_executables g) ∧ entityCount g ≤ maxEntitiesPerGenerationAccum.

Definition queues_inv (t : Z) (g : generationState) : Prop :=
  Forall (event_item_ok t) (gs_pendingEvents g) ∧
  Forall mount_view_item_ok (gs_pendingMountViewEvents g) ∧
  Forall (batch_ok t) (gs_queuedCandidates g) ∧
  (∀ pl, gs_pendingLookup g = Some pl → Forall (batch_ok t) (pl_batches pl)).

Definition facts_inv (t : Z) (g : generationState) : Prop :=
  cr_Runtime (gs_container g) = "docker" ∧ validContainerID (cr_ID (gs_container g)) = true ∧
  (gs_startedAt g ≤ t)%Z ∧ (gs_lastVerifiedAt g ≤ t)%Z ∧ (∀ e, gs_endedAt g = Some e → (e ≤ t)%Z) ∧
  gs_eventsCoverage g ∈ validEventsCoverages ∧ Forall (failure_ok t) (gs_parseFailed g).

(** Every event lost has left its mark. *)
Definition loss_inv (g : generationState) : Prop :=
  (0 ≤ gs_eventsLost g)%Z ∧
  ((0 < gs_eventsLost g)%Z → gs_incomplete g = true ∧ gs_eventsCoverage g ≠ CoverageSinceStart).

Record gs_inv (t : Z) (g : generationState) : Prop := {
  inv_entities : entities_inv t g;
  inv_queues : queues_inv t g;
  inv_facts : facts_inv t g;
  inv_loss : loss_inv g;
}.

(** ** Lists of observations and maps of kinds *)

Lemma validRecordString_valid s : validRecordString s = validString s.
Proof. reflexivity. Qed.

Lemma merge_kinds_ok t kinds kind now sampling :
  kinds_ok t kinds → kind ∈ validRecordedKinds → (0 ≤ t)%Z → (now ≤ t)%Z →
  kinds_ok t (mergeKindObservation kinds kind now sampling).
Proof.
  intros Hk Hin Ht Hnow. unfold mergeKindObservation. apply map_Forall_insert_2; [|done].
  split; [done|]. unfold times_ok, After. destruct (kinds !! kind) as [o|] eqn:E; cbn.
  - destruct (map_Forall_lookup_1 _ _ _ _ Hk E) as [_ [? ?]].
    destruct sampling, (ko_LastSeen o <? now)%Z; cbn; lia.
  - destruct sampling, (0 <? now)%Z eqn:?; cbn; lia.
Qed.

Lemma merge_kinds_ne kinds kind now sampling : mergeKindObservation kinds kind now sampling ≠ ∅.
Proof. unfold mergeKindObservation. apply insert_non_empty. Qed.

Lemma merge_kinds_exec kinds kind now sampling :
  exec_kind kind → hasExecutionEvidence (mergeKindObservation kinds kind now sampling) = true.
Proof.
  intros Hk. unfold hasExecutionEvidence, mergeKindObservation. rewrite orb_true_iff, !bool_decide_eq_true.
  destruct Hk as [-> | ->]; [left|right]; rewrite lookup_insert_eq; by eexists.
Qed.

Lemma merge_kinds_keeps kinds kind now sampling :
  hasExecutionEvidence kinds = true → hasExecutionEvidence (mergeKindObservation kinds kind now sampling) = true.
Proof.
  unfold hasExecutionEvidence, mergeKindObservation. rewrite !orb_true_iff, !bool_decide_eq_true.
  rewrite !lookup_insert_is_Some'. tauto.
Qed.

Lemma refresh_ok t l obs out :
  refresh l obs = Some out → Forall (obs_ok t) l → (po_LastSeen obs ≤ t)%Z →
  length out = length l ∧ Forall (obs_ok t) out.
Proof.
  revert out. induction l as [|e l IH]; intros out; cbn; [done|].
  destruct (sameProcessObservation e obs).
  - intros [= <-] [He Hl]%Forall_cons Ht. split; [done|]. apply Forall_cons. split; [|done].
    destruct (After _ _); [|done]. by destruct He as (?&?&?&?).
  - destruct (refresh l obs) as [out'|]; [|done]. intros [= <-] [He Hl]%Forall_cons Ht.
    destruct (IH out' eq_refl Hl Ht) as [Hlen ?]. split; [cbn; by rewrite Hlen|]. by apply Forall_cons.
Qed.

Lemma oldest_loop_lt l i j least n : j < n → i + length l ≤ n → oldest_loop l i j least < n.
Proof.
  revert i j least. induction l as [|e l IH]; intros i j least Hj Hn; cbn in *; [done|].
  destruct (Before _ _); apply IH; lia.
Qed.

Lemma oldest_lt l : l ≠ [] → oldest l < length l.
Proof. destruct l as [|e l]; [done|]. intros _. cbn. apply oldest_loop_lt; cbn; lia. Qed.

Lemma merge_obs_ok t l obs :
  obs_list_ok t l → (∀ o, obs = Some o → obs_ok t o) → obs_list_ok t (merge_obs l obs).
Proof.
  intros [Hlen Hl] Ho. destruct obs as [o|]; [|done]. specialize (Ho o eq_refl). cbn.
  unfold mergeProcessObservation. destruct (refresh l o) as [out|] eqn:Er.
  - assert (po_LastSeen o ≤ t)%Z as Hls by (by destruct Ho as (?&?&?&?)).
    destruct (refresh_ok t l o out Er Hl Hls) as [Hlo ?]. split; [by rewrite Hlo|done].
  - assert (Forall (obs_ok t) (l ++ [o])) as Ha by (apply Forall_app; split; [done|by apply Forall_singleton]).
    destruct (Nat.leb_spec (length (l ++ [o])) maxProcessObservations); [done|].
    split; [|by apply Forall_delete].
    rewrite length_delete by (apply lookup_lt_is_Some_2, oldest_lt; by destruct l).
    rewrite length_app in *. cbn in *. unfold maxObservationsPerEntity in *. lia.
Qed.

(** ** The steps that touch neither entities nor queues *)

Lemma screen_spec obs g :
  ∃ obs' g', screen_observation obs g = (obs', g') ∧
    (g' = g ∨ g' = markIncomplete "invalid_observation" g) ∧
    (∀ t o, obs' = Some o → (∀ o', obs = Some o' → obs_in t o') → obs_ok t o).
Proof.
  unfold screen_observation. destruct (validObservation obs) eqn:E.
  - exists obs, g. split; [done|]. split; [by left|]. intros t o -> Hin. destruct (Hin o eq_refl).
    cbn in E. apply andb_true_iff in E as [? ?]. by split_and!.
  - eexists None, _. split; [done|]. split; [by right|]. done.
Qed.

(** [keeps]: an update of fields the invariant does not read. *)
Ltac keeps Hi := destruct Hi as [He Hq Hf Hl]; split; [exact He|exact Hq|exact Hf|exact Hl].

Section preservation.
Context (t : Z) (Ht : (0 ≤ t)%Z).
Implicit Types (g : generationState) (ch : list dbJob).

Lemma inv_log code g : gs_inv t g → gs_inv t (logIncomplete code g).
Proof. intros Hi. keeps Hi. Qed.

Lemma inv_set_incomplete g : gs_inv t g → gs_inv t (g <| gs_incomplete := true |>).
Proof.
  intros [He Hq Hf [H0 H1]]. split; [done|done|done|]. split; [done|].
  intros Hp. split; [done|]. by apply H1.
Qed.

Lemma inv_mark code g : gs_inv t g → gs_inv t (markIncomplete code g).
Proof. intros Hi. by apply inv_log, inv_set_incomplete. Qed.

Lemma downgrade_valid c : c ∈ validEventsCoverages → downgrade c ∈ validEventsCoverages.
Proof.
  unfold downgrade. intros Hc. destruct (String.eqb c CoverageSinceStart); [|done].
  apply (bool_decide_unpack (_ ∈ _)). by vm_compute.
Qed.

Lemma downgrade_not_start c : downgrade c ≠ CoverageSinceStart.
Proof. unfold downgrade. by destruct (String.eqb_spec c CoverageSinceStart). Qed.

Lemma inv_downgrade g :
  gs_inv t g → gs_incomplete g = true →
  gs_inv t (g <| gs_eventsCoverage := downgrade (gs_eventsCoverage g) |>).
Proof.
  intros [He Hq Hf Hl] Hinc. split; [done|done| |].
  - destruct Hf as (?&?&?&?&?&?&?). split_and!; try done. by apply downgrade_valid.
  - destruct Hl as [H0 H1]. split; [done|]. intros _. split; [done|]. apply downgrade_not_start.
Qed.

Lemma inv_event_loss n g : gs_inv t g → gs_inv t (recordEventLoss n g).
Proof.
  intros Hi. unfold recordEventLoss. destruct (Z.leb_spec n 0); [done|]. cbv zeta.
  destruct Hi as [He Hq Hf [H0 H1]]. split; [done|done| |].
  - destruct Hf as (?&?&?&?&?&?&?). split_and!; try done. by apply downgrade_valid.
  - split; [cbn; lia|]. intros _. split; [done|]. apply downgrade_not_start.
Qed.

Lemma inv_partial g : gs_inv t g → gs_inv t (markCoveragePartial g).
Proof. intros Hi. unfold markCoveragePartial. apply inv_downgrade; [by apply inv_mark|done]. Qed.

(** A new value of one map of entities. *)
Lemma inv_set_entities g os un ex :
  gs_inv t g → map_Forall (os_ok t) os → map_Forall unavail_ok un → map_Forall (exec_ok t) ex →
  size os + size un + size ex ≤ maxEntitiesPerGenerationAccum →
  gs_inv t (g <| gs_osPackages := os |> <| gs_unavailable := un |> <| gs_executables := ex |>).
Proof. intros [He Hq Hf Hl] ???. by split. Qed.

Lemma inv_set_os g os :
  gs_inv t g → map_Forall (os_ok t) os →
  size os + size (gs_unavailable g) + size (gs_executables g) ≤ maxEntitiesPerGenerationAccum →
  gs_inv t (g <| gs_osPackages := os |>).
Proof. intros Hi ??. destruct (inv_entities _ _ Hi) as (?&?&?&?). by apply (inv_set_entities g). Qed.

Lemma inv_set_un g un :
  gs_inv t g → map_Forall unavail_ok un →
  size (gs_osPackages g) + size un + size (gs_executables g) ≤ maxEntitiesPerGenerationAccum →
  gs_inv t (g <| gs_unavailable := un |>).
Proof. intros Hi ??. destruct (inv_entities _ _ Hi) as (?&?&?&?). by apply (inv_set_entities g). Qed.

Lemma inv_set_ex g ex :
  gs_inv t g → map_Forall (exec_ok t) ex →
  size (gs_osPackages g) + size (gs_unavailable g) + size ex ≤ maxEntitiesPerGenerationAccum →
  gs_inv t (g <| gs_executables := ex |>).
Proof. intros Hi ??. destruct (inv_entities _ _ Hi) as (?&?&?&?). by apply (inv_set_entities g). Qed.

Lemma inv_truncated g : gs_inv t g → gs_inv t (g <| gs_truncated := true |>).
Proof. intros Hi. keeps Hi. Qed.

Lemma size_insert_old `{Countable K} {A} (m : gmap K A) k x y :
  m !! k = Some y → size (<[k := x]> m) = size m.
Proof. intros E. rewrite map_size_insert, E. done. Qed.

Lemma size_insert_new `{Countable K} {A} (m : gmap K A) k x :
  m !! k = None → size (<[k := x]> m) = S (size m).
Proof. intros E. rewrite map_size_insert, E. done. Qed.

Lemma size_delete_le `{Countable K} {A} (m : gmap K A) k : size (delete k m) ≤ size m.
Proof. rewrite map_size_delete. destruct (m !! k); cbn; lia. Qed.

Lemma inv_recordOSPackage name version kind now obs g :
  gs_inv t g → kind ∈ validRecordedKinds → (now ≤ t)%Z → (∀ o, obs = Some o → obs_in t o) →
  gs_inv t (recordOSPackage name version kind now obs g).
Proof.
  intros Hi Hk Hnow Hobs. unfold recordOSPackage.
  rewrite (validRecordString_valid name), (validRecordString_valid version).
  destruct (validString name) eqn:En; [|by apply inv_mark].
  destruct (validString version) eqn:Ev; [|by apply inv_mark]. cbn [negb orb].
  destruct (screen_spec obs g) as (obs' & g1 & -> & Hg1 & Ho). specialize (Ho t).
  assert (gs_inv t g1) as Hi1 by (destruct Hg1 as [-> | ->]; [done|by apply inv_mark]).
  clear Hi Hg1. cbv zeta. set (key := (name, version)).
  set (g2 := g1 <| gs_unavailable := delete key (gs_unavailable g1) |>).
  destruct (inv_entities _ _ Hi1) as (Hos & Hun & Hex & Hc). unfold entityCount in Hc.
  pose proof (size_delete_le (gs_unavailable g1) key) as Hd.
  assert (gs_inv t g2) as Hi2.
  { apply inv_set_un; [done|by apply map_Forall_delete|lia]. }
  change (gs_osPackages g2) with (gs_osPackages g1).
  assert (gs_unavailable g2 = delete key (gs_unavailable g1) ∧ gs_executables g2 = gs_executables g1)
    as [Hu2 Hx2] by done.
  change (entityCount g2) with
    (size (gs_osPackages g1) + size (delete key (gs_unavailable g1)) + size (gs_executables g1)).
  destruct (gs_osPackages g1 !! key) as [p|] eqn:Ep.
  - apply inv_set_os; [done| |].
    + apply map_Forall_insert_2; [|done].
      destruct (map_Forall_lookup_1 _ _ _ _ Hos Ep) as (?&?&?&?&?&?). split_and!; try done.
      * apply merge_kinds_ne.
      * by apply merge_kinds_ok.
      * apply merge_obs_ok; [done|]. intros o Eo. by apply Ho.
    + rewrite (size_insert_old _ _ _ _ Ep). rewrite Hu2, Hx2. lia.
  - destruct (Nat.leb_spec maxEntitiesPerGenerationAccum
      (size (gs_osPackages g1) + size (delete key (gs_unavailable g1)) + size (gs_executables g1)));
      [by apply inv_truncated|].
    apply inv_set_os; [done| |].
    + apply map_Forall_insert_2; [|done]. split_and!; try done.
      * apply merge_kinds_ok; [|done..]. apply map_Forall_empty.
      * apply merge_obs_ok; [split; [cbn; lia|done]|]. intros o Eo. by apply Ho.
    + rewrite (size_insert_new _ _ _ Ep). rewrite Hu2, Hx2. lia.
Qed.

Lemma inv_recordUnavailable name version reason g :
  gs_inv t g → reason ∈ validUnavailableReasons →
  gs_inv t (recordUnavailableOSPackage name version reason g).
Proof.
  intros Hi Hr. unfold recordUnavailableOSPackage.
  rewrite (validRecordString_valid name), (validRecordString_valid version).
  destruct (validString name) eqn:En; [|by apply inv_mark].
  destruct (validString version) eqn:Ev; [|by apply inv_mark]. cbn [negb orb].
  destruct (gs_osPackages g !! (name, version)); [done|].
  destruct (inv_entities _ _ Hi) as (Hos & Hun & Hex & Hc). unfold entityCount in *.
  destruct (gs_unavailable g !! (name, version)) as [u|] eqn:Eu; cbn.
  - apply inv_set_un; [done| |].
    + by apply map_Forall_insert_2.
    + rewrite (size_insert_old _ _ _ _ Eu). lia.
  - destruct (Nat.leb_spec maxEntitiesPerGenerationAccum
      (size (gs_osPackages g) + size (gs_unavailable g) + size (gs_executables g)));
      [by apply inv_truncated|].
    apply inv_set_un; [done| |].
    + by apply map_Forall_insert_2.
    + rewrite (size_insert_new _ _ _ Eu). lia.
Qed.

Lemma inv_recordExecutable path dev inode kind now obs g :
  gs_inv t g → exec_kind kind → (now ≤ t)%Z → (∀ o, obs = Some o → obs_in t o) →
  gs_inv t (recordExecutable path dev inode kind now obs g).
Proof.
  intros Hi Hk Hnow Hobs. unfold recordExecutable.
  rewrite (validRecordString_valid path), (validRecordString_valid dev).
  destruct (validString path) eqn:En; [|by apply inv_mark].
  destruct (validString dev) eqn:Ev; [|by apply inv_mark]. cbn [negb orb].
  destruct (screen_spec obs g) as (obs' & g1 & -> & Hg1 & Ho). specialize (Ho t).
  assert (gs_inv t g1) as Hi1 by (destruct Hg1 as [-> | ->]; [done|by apply inv_mark]).
  clear Hi Hg1. cbv zeta.
  assert (kind ∈ validRecordedKinds) as Hrk.
  { destruct Hk as [-> | ->]; apply (bool_decide_unpack (_ ∈ _)); by vm_compute. }
  destruct (inv_entities _ _ Hi1) as (Hos & Hun & Hex & Hc). unfold entityCount in *.
  destruct (gs_executables g1 !! path) as [e|] eqn:Ep.
  - destruct (map_Forall_lookup_1 _ _ _ _ Hex Ep) as (?&?&?&?&?&?).
    destruct (if negb (String.eqb dev "") then (dev, inode) else (ee_Dev e, ee_Inode e)) as [d i] eqn:Ed.
    apply inv_set_ex; [done| |].
    + apply map_Forall_insert_2; [|done]. split_and!; try done.
      * cbn. destruct (negb (String.eqb dev "")); by simplify_eq.
      * by apply merge_kinds_keeps.
      * by apply merge_kinds_ok.
      * apply merge_obs_ok; [done|]. intros o Eo. by apply Ho.
    + rewrite (size_insert_old _ _ _ _ Ep). lia.
  - destruct (Nat.leb_spec maxEntitiesPerGenerationAccum
      (size (gs_osPackages g1) + size (gs_unavailable g1) + size (gs_executables g1)));
      [by apply inv_truncated|].
    destruct (if negb (String.eqb dev "") then (dev, inode) else _) as [d i] eqn:Ed.
    apply inv_set_ex; [done| |].
    + apply map_Forall_insert_2; [|done]. split_and!; try done.
      * cbn. cbn in Ed. destruct (negb (String.eqb dev "")); by simplify_eq.
      * by apply merge_kinds_exec.
      * apply merge_kinds_ok; [|done..]. apply map_Forall_empty.
      * apply merge_obs_ok; [split; [cbn; lia|done]|]. intros o Eo. by apply Ho.
    + rewrite (size_insert_new _ _ _ Ep). lia.
Qed.

(** ** The queues *)

Lemma inv_set_queues g pe mv qc pl :
  gs_inv t g → queues_inv t (g <| gs_pendingEvents := pe |> <| gs_pendingMountViewEvents := mv |>
    <| gs_queuedCandidates := qc |> <| gs_pendingLookup := pl |>) →
  gs_inv t (g <| gs_pendingEvents := pe |> <| gs_pendingMountViewEvents := mv |>
    <| gs_queuedCandidates := qc |> <| gs_pendingLookup := pl |>).
Proof. intros [He Hq Hf Hl] ?. by split. Qed.

Lemma inv_set_pe g pe :
  gs_inv t g → Forall (event_item_ok t) pe → gs_inv t (g <| gs_pendingEvents := pe |>).
Proof. intros [He (?&?&?&?) Hf Hl] ?. by split. Qed.

Lemma inv_set_mv g mv :
  gs_inv t g → Forall mount_view_item_ok mv → gs_inv t (g <| gs_pendingMountViewEvents := mv |>).
Proof. intros [He (?&?&?&?) Hf Hl] ?. by split. Qed.

Lemma inv_set_qc g qc :
  gs_inv t g → Forall (batch_ok t) qc → gs_inv t (g <| gs_queuedCandidates := qc |>).
Proof. intros [He (?&?&?&?) Hf Hl] ?. by split. Qed.

Lemma inv_set_pl g pl :
  gs_inv t g → (∀ p, pl = Some p → Forall (batch_ok t) (pl_batches p)) →
  gs_inv t (g <| gs_pendingLookup := pl |>).
Proof. intros [He (?&?&?&?) Hf Hl] ?. by split. Qed.

Lemma inv_set_seq g n : gs_inv t g → gs_inv t (g <| gs_nextLookupSeq := n |>).
Proof. intros Hi. keeps Hi. Qed.

Lemma inv_lost_candidates g : gs_inv t g → gs_inv t (g <| gs_candidatesLostPermanently := true |>).
Proof. intros Hi. keeps Hi. Qed.

Lemma inv_submitBatches now epoch batches g ch :
  gs_inv t g → Forall (batch_ok t) batches →
  gs_inv t (submitCandidateBatches now epoch batches g ch).1.
Proof.
  intros Hi Hb. unfold submitCandidateBatches. destruct (_ =? 0); [done|].
  destruct (submitDBJob _ _) as [[] ch']; cbn [fst].
  - apply inv_set_pl; [by apply inv_set_seq|]. by intros p [= <-].
  - by apply inv_mark, inv_set_seq.
Qed.

Lemma inv_queue_or_submit now b g ch :
  gs_inv t g → batch_ok t b → gs_inv t (queue_or_submit now b g ch).1.
Proof.
  intros Hi Hb. unfold queue_or_submit. destruct (gs_pendingLookup g).
  - destruct (negb _); cbn [fst]; [by apply inv_lost_candidates|].
    apply inv_set_qc; [done|]. destruct (inv_queues _ _ Hi) as (?&?&?&?).
    apply Forall_app. by rewrite Forall_singleton.
  - apply inv_submitBatches; [done|]. by apply Forall_singleton.
Qed.

Lemma inv_submitEvent now path dev inode kind obs g ch :
  gs_inv t g → (now ≤ t)%Z → kind ∈ validRecordedKinds → obs_in t obs →
  gs_inv t (submitEventCandidate now path dev inode kind obs g ch).1.
Proof.
  intros Hi Hnow Hk Ho. apply inv_queue_or_submit; [done|]. split; [done|].
  apply map_Forall_singleton. by apply Forall_singleton.
Qed.

Lemma inv_flush now g ch : gs_inv t g → gs_inv t (flushQueuedCandidates now g ch).1.
Proof.
  intros Hi. unfold flushQueuedCandidates. destruct (inv_queues _ _ Hi) as (_&_&Hqc&_).
  destruct (gs_queuedCandidates g) as [|b q]; [done|].
  set (current := List.filter _ _).
  assert (Forall (batch_ok t) current) as Hcur.
  { apply Forall_forall. intros x [Hx _]%list_elem_of_In%filter_In. rewrite Forall_forall in Hqc.
    by apply Hqc, list_elem_of_In. }
  assert (gs_inv t (g <| gs_queuedCandidates := [] |>)) as Hi' by (by apply inv_set_qc).
  cbv zeta. clearbody current. destruct (_ <? _), current; try done;
    try apply inv_submitBatches; try done; by apply inv_lost_candidates.
Qed.

Lemma recordEventLoss_queues n g :
  gs_pendingEvents (recordEventLoss n g) = gs_pendingEvents g ∧
  gs_pendingMountViewEvents (recordEventLoss n g) = gs_pendingMountViewEvents g.
Proof. unfold recordEventLoss. by destruct (n <=? 0)%Z. Qed.

Lemma inv_recordPendingEvent path dev inode kind obs r g :
  gs_inv t g → kind ∈ validRecordedKinds → obs_in t obs →
  gs_inv t (recordPendingEvent path dev inode kind obs r g).
Proof.
  intros Hi Hk Ho. unfold recordPendingEvent. destruct (_ <=? _); [by apply inv_event_loss|].
  destruct (inv_queues _ _ Hi) as (Hpe&?&?&?). cbv zeta.
  assert (gs_inv t (g <| gs_nextEventSeq := S (gs_nextEventSeq g) |>)) as Hi' by keeps Hi.
  apply inv_set_pe; [done|]. apply Forall_app. split; [done|]. by apply Forall_singleton.
Qed.

Lemma inv_recordMountView item g :
  gs_inv t g → mount_view_item_ok item → gs_inv t (recordPendingMountViewEvent item g).
Proof.
  intros Hi Hm. unfold recordPendingMountViewEvent. destruct (_ <=? _); [by apply inv_event_loss|].
  destruct (inv_queues _ _ Hi) as (?&Hmv&?&?). apply inv_set_mv; [done|].
  apply Forall_app. split; [done|]. by apply Forall_singleton.
Qed.

Lemma Forall_list_filter {A} (P : A → Prop) (f : A → bool) l :
  Forall P l → Forall P (List.filter f l).
Proof.
  rewrite !Forall_forall. intros Hl x [Hx _]%list_elem_of_In%filter_In. by apply Hl, list_elem_of_In.
Qed.

Lemma inv_expire now g : gs_inv t g → gs_inv t (expire_queues now g).
Proof.
  intros Hi. unfold expire_queues.
  assert (gs_inv t (expirePendingEvents now g)) as H1.
  { unfold expirePendingEvents. destruct (inv_queues _ _ Hi) as (?&?&?&?).
    destruct (0 <? _)%Z; [apply inv_event_loss|]; (apply inv_set_pe; [done|by apply Forall_list_filter]). }
  revert H1. generalize (expirePendingEvents now g). clear g Hi. intros g Hi.
  assert (gs_inv t (expirePendingMountViewEvents now g)) as H1.
  { unfold expirePendingMountViewEvents. destruct (inv_queues _ _ Hi) as (?&?&?&?).
    destruct (0 <? _)%Z; [apply inv_event_loss|]; (apply inv_set_mv; [done|by apply Forall_list_filter]). }
  revert H1. generalize (expirePendingMountViewEvents now g). clear g Hi. intros g Hi.
  unfold expirePendingLookup. destruct (gs_pendingLookup g); [|done]. destruct (_ <=? _)%Z; [done|].
  apply inv_lost_candidates, inv_set_qc; [|done]. by apply inv_set_pl.
Qed.

(** ** Usage events and samples *)

Lemma inv_foldl {A} (f : generationState → A → generationState) l g :
  (∀ x g, x ∈ l → gs_inv t g → gs_inv t (f g x)) → gs_inv t g → gs_inv t (foldl f g l).
Proof.
  revert g. induction l as [|x l IH]; intros g Hf Hi; [done|]. cbn. apply IH.
  - intros y g' Hy. apply Hf. by right.
  - apply Hf; [by left|done].
Qed.

Lemma inv_foldl_ch {A} (f : generationState * list dbJob → A → generationState * list dbJob) l gc :
  (∀ x gc, x ∈ l → gs_inv t gc.1 → gs_inv t (f gc x).1) → gs_inv t gc.1 → gs_inv t (foldl f gc l).1.
Proof.
  revert gc. induction l as [|x l IH]; intros gc Hf Hi; [done|]. cbn. apply IH.
  - intros y g' Hy. apply Hf. by right.
  - apply Hf; [by left|done].
Qed.
End preservation.

(** ** The text of a capability set *)

Definition hex_byte (c : ascii) : bool := is_digit c || in_range 97 102 c.

Lemma hex_digit_byte n : (n < 16)%N → hex_byte (hex_digit n) = true.
Proof.
  intros Hn. unfold hex_byte, hex_digit, is_digit, in_range, byte_n.
  destruct (N.ltb_spec n 10); rewrite N_ascii_embedding by lia;
    rewrite orb_true_iff, !andb_true_iff, !N.leb_le; lia.
Qed.

Lemma hex_fuel_spec fuel n acc :
  sforallb hex_byte acc = true →
  sforallb hex_byte (hex_fuel fuel n acc) = true ∧ slen (hex_fuel fuel n acc) ≤ fuel + slen acc.
Proof.
  revert n acc. induction fuel as [|fuel IH]; intros n acc Ha; cbn [hex_fuel]; [done|].
  assert (sforallb hex_byte (String (hex_digit (n mod 16)) acc) = true) as Hc.
  { cbn [sforallb]. rewrite hex_digit_byte by (by apply N.mod_lt). done. }
  cbv zeta. destruct (n / 16 =? 0)%N; [split; [done|rewrite slen_cons; lia]|].
  destruct (IH (n / 16)%N _ Hc) as [? Hl]. split; [done|]. rewrite slen_cons in Hl. lia.
Qed.

Lemma zeros_spec n : sforallb hex_byte (zeros n) = true ∧ slen (zeros n) = n.
Proof.
  induction n as [|n [IH1 IH2]]; [done|]. assert (zeros (S n) = "0" +:+ zeros n) as ->.
  { unfold zeros, join. cbn. by destruct n. }
  rewrite sforallb_app, IH1, slen_app, IH2. done.
Qed.

Lemma valid_plain s :
  slen s ≤ 512 → sforallb (λ c, is_ascii_byte c && negb (is_control_cp (byte_n c))) s = true →
  validString s = true.
Proof.
  intros Hl Hs. unfold validString. destruct (Nat.ltb_spec maxStringBytes (slen s)); [unfold maxStringBytes in *; lia|].
  rewrite ascii_runes by (eapply sforallb_impl; [|exact Hs]; by intros c [? _]%andb_prop).
  apply forallb_forall. intros r [c [-> Hc]]%list_elem_of_In%list_elem_of_fmap. cbn.
  pose proof (sforallb_In _ _ _ Hs Hc) as [Ha Hn]%andb_prop. apply negb_true_iff in Hn. rewrite Hn.
  unfold is_ascii_byte in Ha. apply N.ltb_lt in Ha.
  destruct (N.eqb_spec (byte_n c) 65533); [lia|done].
Qed.

Lemma formatCapEff_valid n : (0 ≤ n < 2 ^ 64)%Z → validString (formatCapEff n) = true.
Proof.
  intros Hn. unfold formatCapEff, hex_pad. set (m := Z.to_N n).
  destruct (hex_fuel_spec (S (N.to_nat (N.log2 m))) m "" eq_refl) as [Hb Hl].
  destruct (zeros_spec (16 - slen (hex_fuel (S (N.to_nat (N.log2 m))) m ""))) as [Hzb Hzl].
  apply valid_plain.
  - rewrite slen_app, Hzl. change (slen "") with 0 in Hl.
    assert (N.log2 m ≤ 63)%N; [|lia].
    destruct (decide (m = 0%N)) as [->|]; [done|].
    apply N.lt_succ_r, N.log2_lt_pow2; [lia|]. change (2 ^ N.succ 63)%N with 18446744073709551616%N. lia.
  - rewrite sforallb_app, andb_true_iff. split; eapply sforallb_impl; try eassumption; cbn;
      intros c; unfold hex_byte, is_ascii_byte, is_control_cp, is_digit, in_range;
      rewrite orb_true_iff, !andb_true_iff, negb_true_iff, orb_false_iff, andb_false_iff, !N.leb_le, !N.ltb_lt,
        N.ltb_ge, !N.leb_gt; lia.
Qed.

Section loop_preservation.
Context (own t : Z) (Ht : (0 ≤ t)%Z).
Implicit Types (g : generationState) (ch : list dbJob).

Lemma usage_kind_recorded b : usage_kind b ∈ validRecordedKinds.
Proof. destruct b; apply (bool_decide_unpack (_ ∈ _)); by vm_compute. Qed.

Lemma obs_in_event ev path : event_ok ev → obs_in t (eventObservation own ev path t).
Proof. intros Hev. split; [by apply formatCapEff_valid|cbn; lia]. Qed.

Lemma inv_dispatch path ev isExec g ch :
  gs_inv t g → event_ok ev →
  gs_inv t (dispatchUsageEvent own t path ev (usage_kind isExec) isExec g ch).1.
Proof.
  intros Hi Hev. unfold dispatchUsageEvent. destruct (negb (matchesMountView _ _ _ _)).
  - destruct (gs_mntNsID g =? 0)%Z; cbn [fst]; [by apply inv_recordMountView|by apply inv_mark].
  - cbv zeta. pose proof (obs_in_event ev path Hev) as Ho.
    set (g1 := if isExec then _ else g).
    assert (gs_inv t g1) as Hi1.
    { unfold g1. destruct isExec; [|done]. apply inv_recordExecutable; [done|done|by right|lia|].
      by intros o [= <-]. }
    clearbody g1. destruct (negb _); cbn [fst].
    + apply inv_recordPendingEvent; [done|apply usage_kind_recorded|done].
    + apply inv_submitEvent; [done|lia|apply usage_kind_recorded|done].
Qed.

Lemma inv_drain g ch : gs_inv t g → gs_inv t (drainPendingMountViewEvents own t g ch).1.
Proof.
  intros Hi. unfold drainPendingMountViewEvents. apply inv_foldl_ch.
  - intros item [g' ch'] Hin Hi'. destruct (inv_queues _ _ Hi) as (_&Hmv&_).
    rewrite Forall_forall in Hmv. destruct (Hmv item Hin) as [-> ?]. by apply inv_dispatch.
  - by apply inv_set_mv.
Qed.

Lemma inv_verification res g ch :
  gs_inv t g → sample_ok t res → gs_inv t (applyEventVerificationResult t res g ch).1.
Proof.
  intros Hi (_ & _ & Hv). unfold applyEventVerificationResult. cbv zeta.
  set (ver := List.filter _ (sr_verifiedEvents res)). set (lost := List.filter _ (sr_lostEventItems res)).
  assert (Forall (event_item_ok t) ver) as Hver by by apply Forall_list_filter.
  clearbody ver lost. destruct (foldl _ (g, ch) ver) as [g1 ch1] eqn:E.
  assert (gs_inv t g1) as Hi1.
  { change g1 with (g1, ch1).1. rewrite <- E. apply inv_foldl_ch; [|done].
    intros item [g' ch'] Hin Hi'. rewrite Forall_forall in Hver. destruct (Hver item Hin).
    apply inv_submitEvent; [done|lia|done|done]. }
  cbn [fst]. apply inv_set_pe; [by apply inv_event_loss|].
  apply Forall_list_filter.
  assert (gs_inv t (recordEventLoss (Z.of_nat (length lost)) g1)) as Hi2 by by apply inv_event_loss.
  by destruct (inv_queues _ _ Hi2) as (?&?&?&?).
Qed.

Lemma inv_note_incomplete res g : gs_inv t g → gs_inv t (note_incomplete res g).
Proof.
  intros Hi. unfold note_incomplete. destruct (negb _); [done|]. cbv zeta.
  set (g1 := foldl _ _ _).
  assert (gs_inv t g1) as Hi1.
  { apply inv_foldl; [|by apply inv_set_incomplete]. intros. by apply inv_log. }
  clearbody g1. destruct (0 <? _), (_ =? 0); try done; by repeat apply inv_log.
Qed.

Lemma inv_note_mount_view res g : gs_inv t g → gs_inv t (note_mount_view res g).
Proof.
  intros Hi. unfold note_mount_view. cbv zeta.
  set (g1 := if (gs_mntNsID g =? 0)%Z && mb_ok (sr_basis res) then _ else g).
  assert (gs_inv t g1) as Hi1.
  { unfold g1. destruct (_ && _); [|done]. destruct (parseMntNSInode _); [keeps Hi|done]. }
  clearbody g1. destruct (_ && _); [keeps Hi1|done].
Qed.

Lemma inv_fold_sample res g ch :
  gs_inv t g → sample_ok t res → gs_inv t (fold_sample own t res g ch).1.
Proof.
  intros Hi Hs. unfold fold_sample. cbv zeta.
  set (g0 := if sr_truncated res then _ else g).
  assert (gs_inv t g0) as Hi0 by (unfold g0; destruct (sr_truncated res); [by apply inv_truncated|done]).
  assert (gs_inv t (note_mount_view res (note_incomplete res g0))) as Hi1
    by by apply inv_note_mount_view, inv_note_incomplete.
  revert Hi1. generalize (note_mount_view res (note_incomplete res g0)).
  generalize ((gs_mntNsID (note_incomplete res g0) =? 0)%Z && mb_ok (sr_basis res)). clear g g0 Hi Hi0.
  intros b g Hi. destruct (if b && _ then _ else _) as [g1 ch1] eqn:E.
  assert (gs_inv t g1) as Hi1.
  { destruct (b && _); [|by simplify_eq]. change g1 with (g1, ch1).1. rewrite <- E. by apply inv_drain. }
  clear E Hi g. cbn [fst]. destruct Hs as (Hx & _). apply inv_foldl.
  - intros e g Hin Hi. rewrite Forall_forall in Hx. destruct (Hx e Hin).
    apply inv_recordExecutable; [done|done|done|lia|]. by intros o [= <-].
  - assert (gs_inv t (note_alive res g1)) as Hi2 by (unfold note_alive; destruct (_ && _); [keeps Hi1|done]).
    destruct (sr_mergedUsrDirs res); [keeps Hi2|done].
Qed.

Lemma inv_lastGoodSample denied g : gs_inv t g → gs_inv t (lastGoodSample t denied g).
Proof.
  intros [He Hq Hf Hl]. split; [done|done| |done].
  destruct Hf as (?&?&?&?&?&?&?). by split_and!.
Qed.

Lemma inv_applySample res g ch :
  gs_inv t g → sample_ok t res → gs_inv t (applySampleResult own t res g ch).1.
Proof.
  intros Hi Hs. unfold applySampleResult.
  pose proof (inv_fold_sample res g ch Hi Hs) as Hi1.
  destruct (fold_sample own t res g ch) as [g1 ch1]. cbn [fst] in Hi1. cbv zeta.
  generalize (basis_mismatch res g1). intros mismatch.
  destruct (if negb mismatch then _ else _) as [g2 ch2] eqn:E.
  assert (gs_inv t g2) as Hi2.
  { destruct mismatch; cbn [negb] in E; [by simplify_eq|]. change g2 with (g2, ch2).1. rewrite <- E.
    by apply inv_verification. }
  set (g3 := if sample_confirmed res then _ else g2).
  assert (gs_inv t g3) as Hi3.
  { unfold g3. destruct (sample_confirmed res); [by apply inv_lastGoodSample|done]. }
  clearbody g3. destruct (sr_indexReadyAtStart res); cbn [negb]; [|done]. destruct mismatch; cbn [fst].
  { unfold invalidate_index. assert (gs_inv t (g3 <| gs_idxState := indexIdle |>)) as Hi4 by keeps Hi3.
    pose proof (inv_mark t "basis_mismatch" _ Hi4) as Hi5. keeps Hi5. }
  destruct (size (sr_candidates res) =? 0).
  { destruct (_ && _); [keeps Hi3|done]. }
  destruct (_ || _); [done|]. apply inv_queue_or_submit; [done|].
  destruct Hs as (_ & Hc & _). split; [cbn; lia|exact Hc].
Qed.
End loop_preservation.

(** ** The retry schedule *)

Lemma int64_small z : (0 ≤ z ≤ 48 * Hour)%Z → int64_wrap z = z.
Proof. intros Hz. apply int64_wrap_id. unfold int64_ok, Hour, Minute, Second, Millisecond in *. lia. Qed.

Lemma first_backoff interval :
  interval_ok interval → int64_wrap (10 * interval) = (10 * interval)%Z ∧
  (100 * Second ≤ 10 * interval ≤ 50 * Minute)%Z.
Proof.
  intros Hi. unfold interval_ok, Minute, Second, Millisecond in *. split; [|lia].
  apply int64_small. unfold Hour, Minute, Second, Millisecond. lia.
Qed.

Lemma Sub_sign u v : (0 < Sub u v ↔ 0 < u - v)%Z.
Proof. unfold Sub, minDuration, maxDuration. lia. Qed.

Lemma repeat_backoff pf now interval :
  interval_ok interval → (pf_RetryAfter pf - pf_FailedAt pf ≤ maxParseRetryBackoff)%Z →
  let d := (pf_RetryAfter pf - pf_FailedAt pf)%Z in
  pf_RetryAfter (repeat_failure pf now interval) =
    (now + Z.min maxParseRetryBackoff (2 * (if d <=? 0 then 10 * interval else d)))%Z.
Proof.
  intros Hi Hd d. destruct (first_backoff _ Hi) as [Hw Hb]. unfold repeat_failure. cbn [pf_RetryAfter].
  rewrite Hw. fold d in Hd. unfold maxParseRetryBackoff in *.
  assert (Sub (pf_RetryAfter pf) (pf_FailedAt pf) <=? 0 = (d <=? 0))%Z as ->.
  { pose proof (Sub_sign (pf_RetryAfter pf) (pf_FailedAt pf)) as Hs. fold d in Hs.
    clearbody d. destruct Hs. destruct (Z.leb_spec d 0), (Z.leb_spec (Sub (pf_RetryAfter pf) (pf_FailedAt pf)) 0);
      try done; lia. }
  destruct (Z.leb_spec d 0) as [Hneg|Hpos].
  - rewrite int64_small by (clear - Hb; unfold Hour, Minute, Second, Millisecond in *; lia).
    destruct (Z.ltb_spec (24 * Hour) (10 * interval * 2)); lia.
  - assert (Sub (pf_RetryAfter pf) (pf_FailedAt pf) = d) as ->.
    { apply Sub_in_range. fold d. clearbody d. clear - Hd Hpos.
      unfold int64_ok, Hour, Minute, Second, Millisecond in *. lia. }
    rewrite int64_small by lia. destruct (Z.ltb_spec (24 * Hour) (d * 2)); lia.
Qed.

Lemma fresh_failure_ok t f interval :
  interval_ok interval → failure_ok t (fresh_failure f t interval).
Proof.
  intros Hi. destruct (first_backoff _ Hi) as [Hw Hb]. unfold fresh_failure. rewrite Hw.
  split_and!; cbn; try done; try lia. unfold maxParseRetryBackoff, Hour, Minute, Second, Millisecond in *. lia.
Qed.

Lemma repeat_failure_ok t pf interval :
  interval_ok interval → failure_ok t pf → failure_ok t (repeat_failure pf t interval).
Proof.
  intros Hi [? Hd]. split; [done|].
  rewrite repeat_backoff by done. unfold repeat_failure. cbn [pf_FailedAt]. lia.
Qed.

Lemma recordParseFailure_ok t l f interval :
  interval_ok interval → Forall (failure_ok t) l →
  Forall (failure_ok t) (recordParseFailure l f t interval).
Proof.
  intros Hi. induction 1 as [|pf l Hpf Hl IH]; cbn [recordParseFailure].
  - apply Forall_singleton. by apply fresh_failure_ok.
  - destruct (negb _); [by apply Forall_cons|].
    destruct (same_content f pf); (apply Forall_cons; split; [|done]).
    + by apply repeat_failure_ok.
    + by apply fresh_failure_ok.
Qed.

Section worker_preservation.
Context (t interval : Z) (Ht : (0 ≤ t)%Z) (Hivl : interval_ok interval).
Implicit Types (g : generationState) (ch : list dbJob).

Lemma inv_set_pf g l : gs_inv t g → Forall (failure_ok t) l → gs_inv t (g <| gs_parseFailed := l |>).
Proof.
  intros [He Hq Hf Hl] ?. split; [done|done| |done].
  destruct Hf as (?&?&?&?&?&?&?). by split_and!.
Qed.

Lemma build_failures_ok res l :
  Forall (failure_ok t) l → Forall (failure_ok t) (build_failures t interval res l).
Proof.
  intros Hl. unfold build_failures. cbv zeta.
  set (l0 := match dr_failure res with Some f => _ | None => l end).
  assert (Forall (failure_ok t) l0) as H0.
  { unfold l0. destruct (dr_failure res) as [f|] eqn:E; [|done].
    by apply recordParseFailure_ok. }
  clearbody l0. clear Hl l. revert l0 H0. generalize (dr_succeededFiles res).
  assert (∀ fs l, Forall (failure_ok t) l →
    Forall (failure_ok t) (foldl (λ l f, recordParseFailure l f t interval) l fs)) as Hfold.
  { induction fs as [|f fs IH]; intros l Hl; [done|].
    cbn. apply IH. by apply recordParseFailure_ok. }
  intros succ. induction succ as [|f succ IH]; intros l Hl; cbn; [by apply Hfold|].
  apply IH. by apply Forall_list_filter.
Qed.

Lemma inv_keep_no_file_list res g : gs_inv t g → gs_inv t (keep_no_file_list res g).
Proof.
  intros Hi. unfold keep_no_file_list. destruct (_ && _); [|done]. destruct (_ <? _); keeps Hi.
Qed.

Lemma inv_applyBuild res g : gs_inv t g → gs_inv t (applyBuildResult t interval res g).
Proof.
  intros Hi. unfold applyBuildResult. cbv zeta.
  assert (gs_inv t (set_db (dr_dbKind res) (dr_dbStatus res) g)) as Hi1 by keeps Hi.
  revert Hi1. generalize (set_db (dr_dbKind res) (dr_dbStatus res) g). clear g Hi. intros g Hi.
  destruct (dr_settled res); [keeps Hi|]. destruct (dr_noChange res); [keeps Hi|].
  set (g1 := if dr_truncated res then _ else g).
  assert (gs_inv t g1) as Hi1 by (unfold g1; destruct (dr_truncated res); [by apply inv_truncated|done]).
  clearbody g1. set (g2 := if dr_failuresTruncated res then _ else g1).
  assert (gs_inv t g2) as Hi2 by (unfold g2; destruct (dr_failuresTruncated res); [by apply inv_mark|done]).
  clearbody g2.
  assert (gs_inv t (g2 <| gs_parseFailed := build_failures t interval res (gs_parseFailed g2) |>)) as Hi3.
  { apply inv_set_pf; [done|]. apply build_failures_ok.
    by destruct (inv_facts _ _ Hi2) as (?&?&?&?&?&?&?). }
  pose proof (inv_keep_no_file_list res _ Hi3) as Hi4.
  destruct (_ && _); keeps Hi4.
Qed.

Lemma reason_ambiguous : ReasonAttributionAmbiguous ∈ validUnavailableReasons.
Proof. apply (bool_decide_unpack (_ ∈ _)). by vm_compute. Qed.

Lemma reason_replaced : ReasonFileReplaced ∈ validUnavailableReasons.
Proof. apply (bool_decide_unpack (_ ∈ _)). by vm_compute. Qed.

Lemma inv_apply_batch res g b : gs_inv t g → batch_ok t b → gs_inv t (apply_batch res g b).
Proof.
  intros Hi [Hobs Hc]. unfold apply_batch. cbv zeta. apply inv_foldl; [|apply inv_foldl; [|done]].
  - intros path g' _ Hi'. unfold apply_replaced.
    destruct (lookup_answer _ _ _) as [[result answered] truncated]. destruct answered; cbn [negb]; [|by apply inv_mark].
    apply inv_foldl; [|destruct truncated; [by apply inv_mark|done]].
    intros o g2 _ Hi2. apply inv_recordUnavailable; [done|apply reason_replaced].
  - intros path g' _ Hi'. unfold apply_verified.
    destruct (lookup_answer _ _ _) as [[result answered] truncated]. destruct answered; cbn [negb]; [|by apply inv_mark].
    cbv zeta. set (g1 := if truncated then _ else g').
    assert (gs_inv t g1) as Hi1 by (unfold g1; destruct truncated; [by apply inv_mark|done]).
    clearbody g1. destruct result as [|owner [|owner' result]]; [done| |].
    + apply inv_foldl; [|done]. intros c g2 Hin Hi2.
      destruct (cb_candidates b !! path) as [l|] eqn:El; [|by apply not_elem_of_nil in Hin].
      pose proof (map_Forall_lookup_1 _ _ _ _ Hc El) as Hl. rewrite Forall_forall in Hl.
      destruct (Hl c Hin). apply inv_recordOSPackage; [done|done|done|done|]. by intros o [= <-].
    + apply inv_foldl; [|done]. intros o g2 _ Hi2. apply inv_recordUnavailable; [done|apply reason_ambiguous].
Qed.

Lemma inv_applyLookup res g ch : gs_inv t g → gs_inv t (applyLookupResult t res g ch).1.
Proof.
  intros Hi. unfold applyLookupResult. destruct (gs_pendingLookup g) as [pl|] eqn:Epl; [|done].
  destruct (negb _); [done|]. cbv zeta. apply inv_flush.
  assert (gs_inv t (g <| gs_pendingLookup := None |>)) as Hi1 by (by apply inv_set_pl).
  destruct (inv_queues _ _ Hi) as (_&_&_&Hpl). specialize (Hpl pl Epl).
  destruct (dr_epochStale res); [by apply inv_lost_candidates|].
  destruct (dr_lookupFailed res); [by apply inv_mark|].
  assert (gs_inv t (foldl (apply_batch res) (g <| gs_pendingLookup := None |>) (pl_batches pl))) as Hi2.
  { apply inv_foldl; [|done]. intros b g' Hin Hi'. apply inv_apply_batch; [done|].
    rewrite Forall_forall in Hpl. by apply Hpl. }
  keeps Hi2.
Qed.

Lemma inv_applyDB res g ch :
  gs_inv t g → gs_inv t (applyDBResult t interval res g ch).1.
Proof.
  intros Hi. unfold applyDBResult. destruct (gs_ended g); [done|]. destruct (dr_kind res); cbn [fst].
  - by apply inv_applyBuild.
  - by apply inv_applyLookup.
  - done.
Qed.
End worker_preservation.

(** ** The loop as a step relation *)

Section reachability.
Context (own interval : Z).

(** One step of the loop on one generation at the instant [now]; [ch] is what
    the channel of database jobs holds, whoever put it there. *)
Inductive loop_step (now : Z) (g : generationState) : generationState → Prop :=
  | ls_envelope kind res ch :
      sample_ok now res → loop_step now g (handleSampleEnvelope own now kind res g ch).1
  | ls_event path ev isExec ch :
      event_ok ev → loop_step now g (dispatchUsageEvent own now path ev (usage_kind isExec) isExec g ch).1
  | ls_db res ch : loop_step now g (applyDBResult now interval res g ch).1
  | ls_build stalled ch : loop_step now g (maybeSubmitBuild now stalled g ch).1
  | ls_start : loop_step now g (startSampleWorker g).1
  | ls_expire : loop_step now g (expire_queues now g)
  | ls_loss n : loop_step now g (recordEventLoss n g)
  | ls_partial : loop_step now g (markCoveragePartial g)
  | ls_mark code : loop_step now g (markIncomplete code g)
  | ls_pending maps confirms :
      loop_step now g (g <| gs_pendingMapsLookups := maps |> <| gs_pendingConfirms := confirms |>)
  | ls_alive ns : loop_step now g (g <| gs_lastAliveNs := ns |> <| gs_lastAliveNsOK := true |>)
  | ls_end appliedAt ch : loop_step now g (endGeneration now appliedAt g ch).1
  | ls_force : loop_step now g (force_parse_failed g).

(** The states of a generation at the instant [t]. *)
Inductive reachable : Z → generationState → Prop :=
  | reach_new id init now coverage :
      validContainerID id = true → coverage ∈ validEventsCoverages → (0 ≤ now)%Z →
      reachable now (newGenerationState (mk_container_ref "docker" id "" "" "") init now coverage)
  | reach_step t g now g' :
      reachable t g → (t ≤ now)%Z → loop_step now g g' → reachable now g'.

Context (Hivl : interval_ok interval).

Lemma obs_ok_mono t u o : (t ≤ u)%Z → obs_ok t o → obs_ok u o.
Proof. intros Htu (?&?&?&?). split_and!; try done. lia. Qed.

Lemma kinds_ok_mono t u kinds : (t ≤ u)%Z → kinds_ok t kinds → kinds_ok u kinds.
Proof.
  intros Htu Hk. eapply map_Forall_impl; [exact Hk|]. intros k o [? [? ?]]. split; [done|].
  split; lia.
Qed.

Lemma obs_list_mono t u l : (t ≤ u)%Z → obs_list_ok t l → obs_list_ok u l.
Proof. intros Htu [? Hl]. split; [done|]. eapply Forall_impl; [exact Hl|]. intros o. by apply obs_ok_mono. Qed.

Lemma obs_in_mono t u o : (t ≤ u)%Z → obs_in t o → obs_in u o.
Proof. intros Htu [? ?]. split; [done|lia]. Qed.

Lemma batch_ok_mono t u b : (t ≤ u)%Z → batch_ok t b → batch_ok u b.
Proof.
  intros Htu [? Hc]. split; [lia|]. eapply map_Forall_impl; [exact Hc|]. intros k l Hl.
  eapply Forall_impl; [exact Hl|]. intros c [? ?]. split; [done|]. by eapply obs_in_mono.
Qed.

Lemma gs_inv_mono t u g : (t ≤ u)%Z → gs_inv t g → gs_inv u g.
Proof.
  intros Htu [(Hos&Hun&Hex&?) (Hpe&?&Hqc&Hpl) (?&?&?&?&He&?&Hpf) Hl]. split; [| | |done].
  - split_and!; try done.
    + eapply map_Forall_impl; [exact Hos|]. intros k p (?&?&?&?&?&?). split_and!; try done.
      * by eapply kinds_ok_mono.
      * by eapply obs_list_mono.
    + eapply map_Forall_impl; [exact Hex|]. intros k p (?&?&?&?&?&?). split_and!; try done.
      * by eapply kinds_ok_mono.
      * by eapply obs_list_mono.
  - split_and!; try done.
    + eapply Forall_impl; [exact Hpe|]. intros i [? ?]. split; [done|]. by eapply obs_in_mono.
    + eapply Forall_impl; [exact Hqc|]. intros b. by apply batch_ok_mono.
    + intros pl E. eapply Forall_impl; [by apply Hpl|]. intros b. by apply batch_ok_mono.
  - split_and!; try done; try lia.
    + intros e E. specialize (He e E). lia.
    + eapply Forall_impl; [exact Hpf|]. intros p [? ?]. split; [lia|done].
Qed.

Lemma step_inv t g g' : (0 ≤ t)%Z → gs_inv t g → loop_step t g g' → gs_inv t g'.
Proof.
  intros Ht Hi Hs. destruct Hs.
  - unfold handleSampleEnvelope. destruct kind; cbn [fst].
    + assert (gs_inv t (g <| gs_sampleAlive := false |> <| gs_sampleStalled := false |>)) as Hi' by keeps Hi.
      cbv zeta. destruct (gs_ended _); [done|]. by apply inv_applySample.
    + destruct (gs_ended g); [done|keeps Hi].
    + keeps Hi.
  - by apply inv_dispatch.
  - by apply inv_applyDB.
  - unfold maybeSubmitBuild. destruct (_ && _); [done|]. destruct stalled; [done|].
    destruct (submitDBJob _ _) as [[] ch']; [keeps Hi|done].
  - keeps Hi.
  - by apply inv_expire.
  - by apply inv_event_loss.
  - by apply inv_partial.
  - by apply inv_mark.
  - keeps Hi.
  - keeps Hi.
  - unfold endGeneration. cbv zeta. cbn [fst]. destruct Hi as [He Hq (?&?&?&?&?&?&?) Hl].
    split; [done|done| |done]. split_and!; try done. intros e [= <-]. lia.
  - unfold force_parse_failed. destruct (gs_ended g); [done|keeps Hi].
Qed.

Lemma reachable_inv t g : reachable t g → (0 ≤ t)%Z ∧ gs_inv t g.
Proof.
  induction 1 as [id init now coverage Hid Hcov Hnow|t g now g' _ [Ht IH] Hle Hs].
  - split; [done|]. split.
    + repeat (split; [apply map_Forall_empty|]). apply Nat.le_0_l.
    + by split_and!.
    + split_and!; try done; cbn; lia.
    + split; [done|]. cbn. lia.
  - split; [lia|]. eapply step_inv; [lia| |exact Hs]. by eapply gs_inv_mono.
Qed.
End reachability.
