(* ===== verification/SensorEvol.v ===== *)
(** * SensorEvol: how a generation evolves

    [evolves t g g'] relates the states of a generation before and after any
    operation of the loop at the instant [t]: evidence and the marks of its
    loss are never withdrawn, and the bounded queues stay within their caps.
    It is a preorder, so the operations compose. *)

From Stdlib Require Import ZArith Lia Bool Ascii String List.
From stdpp Require Import base countable gmap strings list.
From S2P Require Import Prelude GoStrings GoText GoTime Inventory Evidence EvidenceFile.
From S2P Require Import Generation Session SensorInv.

Open Scope string_scope.
Open Scope Z_scope.
Open Scope nat_scope.
Open Scope list_scope.

(** ** The queues *)

Definition queued_paths (q : list candidateBatch) : nat :=
  foldl (λ total b, total + size (cb_candidates b)) 0 q.

Definition queue_bounds (t : Z) (pe : list pendingEventItem) (mv : list pendingMountViewEvent)
    (pl : option pendingLookup) (qc : list candidateBatch) (db : PackageDBInfo) : Prop :=
  (Forall (λ i, pe_receivedAt i ≤ t)%Z pe ∧ length pe ≤ maxPendingEventsPerGeneration) ∧
  (Forall (λ i, me_receivedAt i ≤ t)%Z mv ∧ length mv ≤ maxPendingMountViewEvents) ∧
  (∀ l, pl = Some l → pl_submittedAt l ≤ t)%Z ∧
  (length qc ≤ maxQueuedCandidateBatches ∧ (length qc ≤ 1 ∨ queued_paths qc ≤ maxQueuedCandidatePaths)) ∧
  length (db_NoFileList db) ≤ maxNoFileListPerGeneration.

Definition queues_bounded (t : Z) (g : generationState) : Prop :=
  queue_bounds t (gs_pendingEvents g) (gs_pendingMountViewEvents g) (gs_pendingLookup g)
    (gs_queuedCandidates g) (gs_packageDB g).

(** Nothing waits behind a lookup that is not there. *)
Definition quiet (g : generationState) : Prop := gs_pendingLookup g = None → gs_queuedCandidates g = [].

Record evolves (t : Z) (g g' : generationState) : Prop := {
  ev_os : dom (gs_osPackages g) ⊆ dom (gs_osPackages g');
  ev_exec : dom (gs_executables g) ⊆ dom (gs_executables g');
  ev_lost : (gs_eventsLost g ≤ gs_eventsLost g')%Z;
  ev_incomplete : gs_incomplete g = true → gs_incomplete g' = true;
  ev_truncated : gs_truncated g = true → gs_truncated g' = true;
  ev_candidates : gs_candidatesLostPermanently g = true → gs_candidatesLostPermanently g' = true;
  ev_ended : gs_ended g = true → gs_ended g' = true;
  ev_queues : queues_bounded t g → queues_bounded t g';
  ev_quiet : quiet g → quiet g';
}.

#[export] Instance evolves_preorder t : PreOrder (evolves t).
Proof.
  split.
  - intros g. by split.
  - intros g1 g2 g3 [] []. split; try tauto; try lia; by etrans.
Qed.

(** [evolve]: an update of fields that [evolves] does not read, or that it
    allows whatever the state. *)
Ltac evolve := split; try done.

Section evolution.
Context (t : Z).
Implicit Types (g : generationState) (ch : list dbJob).

Lemma evolves_foldl {A} (f : generationState → A → generationState) l g :
  (∀ x g, x ∈ l → evolves t g (f g x)) → evolves t g (foldl f g l).
Proof.
  revert g. induction l as [|x l IH]; intros g Hf; [done|]. cbn. etrans; [apply Hf; by left|].
  apply IH. intros y g' Hy. apply Hf. by right.
Qed.

Lemma evolves_foldl_ch {A} (f : generationState * list dbJob → A → generationState * list dbJob) l gc :
  (∀ x gc, x ∈ l → evolves t gc.1 (f gc x).1) → evolves t gc.1 (foldl f gc l).1.
Proof.
  revert gc. induction l as [|x l IH]; intros gc Hf; [done|]. cbn. etrans; [apply Hf; by left|].
  apply IH. intros y g' Hy. apply Hf. by right.
Qed.

(** A choice between staying and evolving. *)
Lemma evolves_if (b : bool) g g' : evolves t g g' → evolves t g (if b then g' else g).
Proof. by destruct b. Qed.

Lemma evolves_if_not (b : bool) g g' : evolves t g g' → evolves t g (if b then g else g').
Proof. by destruct b. Qed.

Lemma ev_log code g : evolves t g (logIncomplete code g).
Proof. evolve. Qed.

Lemma ev_mark code g : evolves t g (markIncomplete code g).
Proof. evolve. Qed.

Lemma ev_truncate g : evolves t g (g <| gs_truncated := true |>).
Proof. evolve. Qed.

Lemma ev_lose_candidates g : evolves t g (g <| gs_candidatesLostPermanently := true |>).
Proof. evolve. Qed.

Lemma ev_event_loss n g : evolves t g (recordEventLoss n g).
Proof. unfold recordEventLoss. destruct (Z.leb_spec n 0); [done|]. evolve. cbn. lia. Qed.

Lemma ev_partial g : evolves t g (markCoveragePartial g).
Proof. evolve. Qed.

Lemma ev_screen obs g : evolves t g (screen_observation obs g).2.
Proof. unfold screen_observation. destruct (validObservation obs); [done|]. apply ev_mark. Qed.

(** ** Records *)

Lemma ev_set_os m g : dom (gs_osPackages g) ⊆ dom m → evolves t g (g <| gs_osPackages := m |>).
Proof. intros Hm. evolve. Qed.

Lemma ev_set_exec m g : dom (gs_executables g) ⊆ dom m → evolves t g (g <| gs_executables := m |>).
Proof. intros Hm. evolve. Qed.

Lemma ev_recordOS name version kind now obs g :
  evolves t g (recordOSPackage name version kind now obs g).
Proof.
  unfold recordOSPackage. destruct (_ || _); [apply ev_mark|].
  pose proof (ev_screen obs g) as Hs. destruct (screen_observation obs g) as [obs' g'].
  cbn [snd] in Hs. cbv zeta. etrans; [exact Hs|].
  set (g2 := g' <| gs_unavailable := _ |>). assert (evolves t g' g2) as H2 by evolve.
  etrans; [exact H2|]. clearbody g2. destruct (gs_osPackages g2 !! _).
  - apply ev_set_os. set_solver.
  - destruct (_ <=? _); [apply ev_truncate|]. apply ev_set_os. set_solver.
Qed.

Lemma ev_recordUnavailable name version reason g :
  evolves t g (recordUnavailableOSPackage name version reason g).
Proof.
  unfold recordUnavailableOSPackage. destruct (_ || _); [apply ev_mark|]. cbv zeta.
  destruct (gs_osPackages g !! _); [done|]. destruct (_ && _); evolve.
Qed.

Lemma ev_recordExecutable path dev inode kind now obs g :
  evolves t g (recordExecutable path dev inode kind now obs g).
Proof.
  unfold recordExecutable. destruct (_ || _); [apply ev_mark|].
  pose proof (ev_screen obs g) as Hs. destruct (screen_observation obs g) as [obs' g'].
  cbn [snd] in Hs. cbv zeta. etrans; [exact Hs|]. destruct (gs_executables g' !! path).
  - destruct (negb _); apply ev_set_exec; set_solver.
  - destruct (_ <=? _); [apply ev_truncate|]. destruct (negb _); apply ev_set_exec; set_solver.
Qed.

(** ** Queues *)

Lemma queued_paths_app q b : queued_paths (q ++ [b]) = queued_paths q + size (cb_candidates b).
Proof. unfold queued_paths. by rewrite foldl_app. Qed.

Lemma foldl_sizes q n :
  foldl (λ total b, total + size (cb_candidates b)) n q = n + queued_paths q.
Proof.
  unfold queued_paths. revert n. induction q as [|b q IH]; intros n; cbn; [lia|].
  rewrite IH, (IH (size _)). lia.
Qed.

Lemma canQueue_spec g b :
  canQueueCandidateBatch g b = true →
  let q := gs_queuedCandidates g ++ [b] in
  length q ≤ maxQueuedCandidateBatches ∧ (length q ≤ 1 ∨ queued_paths q ≤ maxQueuedCandidatePaths).
Proof.
  unfold canQueueCandidateBatch. cbv zeta. rewrite length_app, queued_paths_app. cbn [length].
  destruct (Nat.leb_spec maxQueuedCandidateBatches (length (gs_queuedCandidates g))); [done|].
  destruct (Nat.eqb_spec (length (gs_queuedCandidates g)) 0) as [->|]; [intros _; split; [lia|by left]|].
  rewrite foldl_sizes, Nat.leb_le. intros. split; [lia|right; lia].
Qed.

Lemma ev_submitBatches epoch batches g ch :
  gs_queuedCandidates g = [] → evolves t g (submitCandidateBatches t epoch batches g ch).1.
Proof.
  intros Hq. unfold submitCandidateBatches. destruct (length _ =? 0); [done|]. cbv zeta.
  destruct (submitDBJob _ ch) as [[] ch']; [|evolve].
  evolve. unfold queues_bounded. cbn. rewrite Hq. intros (?&?&?&?&?). split_and!; try tauto.
  intros l [= <-]. cbn. lia.
Qed.

Lemma ev_queue_or_submit batch g ch :
  quiet g → evolves t g (queue_or_submit t batch g ch).1.
Proof.
  intros Hb. unfold queue_or_submit. destruct (gs_pendingLookup g) as [pl|] eqn:Epl.
  - destruct (canQueueCandidateBatch g batch) eqn:Ec; cbn [negb fst]; [|apply ev_lose_candidates].
    apply canQueue_spec in Ec. cbv zeta in Ec. evolve; [|unfold quiet; cbn; by rewrite Epl].
    unfold queues_bounded. cbn. rewrite Epl. intros (?&?&?&?&?). split_and!; try (done || tauto).
  - apply ev_submitBatches. by apply Hb.
Qed.

(** [ev_queue_or_submit] asks for the state it starts from to be [quiet]; [evolves_from] carries it along. *)
Definition evolves_from (g g' : generationState) : Prop := quiet g → evolves t g g'.

Lemma from_trans g1 g2 g3 : evolves_from g1 g2 → evolves_from g2 g3 → evolves_from g1 g3.
Proof.
  intros H12 H23 Hq. specialize (H12 Hq). etrans; [exact H12|]. apply H23. by apply (ev_quiet _ _ _ H12).
Qed.

Lemma from_evolves g g' : evolves t g g' → evolves_from g g'.
Proof. by intros ? ?. Qed.

Lemma from_foldl_ch {A} (f : generationState * list dbJob → A → generationState * list dbJob) l gc :
  (∀ x gc, x ∈ l → evolves_from gc.1 (f gc x).1) → evolves_from gc.1 (foldl f gc l).1.
Proof.
  revert gc. induction l as [|x l IH]; intros gc Hf; [by intros ?|]. cbn.
  eapply from_trans; [apply Hf; by left|]. apply IH. intros y g' Hy. apply Hf. by right.
Qed.

Lemma ev_submitEvent path dev inode kind obs g ch :
  evolves_from g (submitEventCandidate t path dev inode kind obs g ch).1.
Proof. intros Hq. by apply ev_queue_or_submit. Qed.

Lemma ev_flush g g1 ch :
  evolves t g (g1 <| gs_queuedCandidates := [] |>) →
  evolves t g (flushQueuedCandidates t g1 ch).1.
Proof.
  intros Hg. unfold flushQueuedCandidates. destruct (gs_queuedCandidates g1) as [|b q] eqn:Eq.
  { replace g1 with (g1 <| gs_queuedCandidates := [] |>); [done|]. destruct g1. cbn in Eq. by subst. }
  set (current := List.filter _ _). cbv zeta. clearbody current.
  set (g2 := if length current <? length (b :: q) then _ else _).
  assert (evolves t g g2 ∧ gs_queuedCandidates g2 = []) as [Hg2 Hq2].
  { unfold g2. destruct (_ <? _); split; try done. etrans; [exact Hg|apply ev_lose_candidates]. }
  clearbody g2. destruct current; [done|]. etrans; [exact Hg2|]. by apply ev_submitBatches.
Qed.

Lemma ev_recordPendingEvent path dev inode kind obs g :
  evolves t g (recordPendingEvent path dev inode kind obs t g).
Proof.
  unfold recordPendingEvent. destruct (Nat.leb_spec maxPendingEventsPerGeneration (length (gs_pendingEvents g)));
    [apply ev_event_loss|].
  evolve. unfold queues_bounded. cbn. intros ([? ?]&?&?&?&?). split_and!; try tauto.
  - apply Forall_app. split; [done|]. apply Forall_singleton. cbn. lia.
  - rewrite length_app. cbn [length]. lia.
Qed.

Lemma ev_recordMountView item g :
  me_receivedAt item = t → evolves t g (recordPendingMountViewEvent item g).
Proof.
  intros Hr. unfold recordPendingMountViewEvent.
  destruct (Nat.leb_spec maxPendingMountViewEvents (length (gs_pendingMountViewEvents g))); [apply ev_event_loss|].
  evolve. unfold queues_bounded. cbn. intros (?&[? ?]&?&?&?). split_and!; try tauto.
  - apply Forall_app. split; [done|]. apply Forall_singleton. lia.
  - rewrite length_app. cbn [length]. lia.
Qed.

(** Dropping items of a queue. *)
Lemma length_list_filter {A} (f : A → bool) l : length (List.filter f l) ≤ length l.
Proof. induction l as [|x l IH]; cbn; [done|]. destruct (f x); cbn; lia. Qed.

Lemma ev_filter_events f g :
  evolves t g (g <| gs_pendingEvents := List.filter f (gs_pendingEvents g) |>).
Proof.
  evolve. unfold queues_bounded. cbn. intros ([? ?]&?&?&?&?). split_and!; try tauto.
  - by apply Forall_list_filter.
  - etrans; [apply length_list_filter|done].
Qed.

Lemma ev_filter_mount_views f g :
  evolves t g (g <| gs_pendingMountViewEvents := List.filter f (gs_pendingMountViewEvents g) |>).
Proof.
  evolve. unfold queues_bounded. cbn. intros (?&[? ?]&?&?&?). split_and!; try tauto.
  - by apply Forall_list_filter.
  - etrans; [apply length_list_filter|done].
Qed.

Lemma ev_expireEvents now g : evolves t g (expirePendingEvents now g).
Proof. etrans; [apply ev_filter_events|]. apply evolves_if, ev_event_loss. Qed.

Lemma ev_expireMountViews now g : evolves t g (expirePendingMountViewEvents now g).
Proof. etrans; [apply ev_filter_mount_views|]. apply evolves_if, ev_event_loss. Qed.

Lemma ev_expireLookup now g : evolves t g (expirePendingLookup now g).
Proof.
  unfold expirePendingLookup. destruct (gs_pendingLookup g); [|done]. destruct (_ <=? _)%Z; [done|].
  evolve. unfold queues_bounded. cbn. intros (?&?&?&?&?).
  split_and!; try tauto; try done; try apply Nat.le_0_l; left; apply Nat.le_0_l.
Qed.

Lemma ev_expire now g : evolves t g (expire_queues now g).
Proof.
  unfold expire_queues. etrans; [apply ev_expireEvents|]. etrans; [apply ev_expireMountViews|].
  apply ev_expireLookup.
Qed.
End evolution.

(** ** The loop *)

Section loop_evolution.
Context (own interval t : Z).
Implicit Types (g : generationState) (ch : list dbJob).

Lemma ev_dispatch path ev kind isExec g ch :
  evolves_from t g (dispatchUsageEvent own t path ev kind isExec g ch).1.
Proof.
  unfold dispatchUsageEvent. destruct (negb (matchesMountView _ _ _ _)).
  - apply from_evolves. destruct (gs_mntNsID g =? 0)%Z; cbn [fst]; [by apply ev_recordMountView|apply ev_mark].
  - cbv zeta. eapply from_trans; [|destruct (negb _)].
    + apply from_evolves. apply (evolves_if _ isExec). apply ev_recordExecutable.
    + apply from_evolves, ev_recordPendingEvent.
    + apply ev_submitEvent.
Qed.

Lemma ev_drain g ch : evolves_from t g (drainPendingMountViewEvents own t g ch).1.
Proof.
  unfold drainPendingMountViewEvents. eapply from_trans.
  - apply from_evolves, (ev_filter_mount_views _ (λ _, false)).
  - replace (List.filter (λ _, false) (gs_pendingMountViewEvents g)) with (@nil pendingMountViewEvent)
      by (by induction (gs_pendingMountViewEvents g)).
    apply (from_foldl_ch t (λ gc item, dispatchUsageEvent own t (me_path item) (me_ev item) (me_kind item) (me_isExec item) gc.1 gc.2)
      (gs_pendingMountViewEvents g) (_, ch)).
    intros item gc _. apply ev_dispatch.
Qed.

Lemma ev_verification res g ch :
  evolves_from t g (applyEventVerificationResult t res g ch).1.
Proof.
  unfold applyEventVerificationResult. cbv zeta.
  set (ver := List.filter _ (sr_verifiedEvents res)). set (lost := List.filter _ (sr_lostEventItems res)).
  destruct (foldl _ (g, ch) ver) as [g1 ch1] eqn:E. cbn [fst].
  apply (from_trans _ _ g1).
  - change g1 with (g1, ch1).1. rewrite <- E. apply (from_foldl_ch _ _ _ (g, ch)).
    intros item gc _. apply ev_submitEvent.
  - apply from_evolves. etrans; [apply ev_event_loss|apply ev_filter_events].
Qed.

Lemma ev_note_incomplete res g : evolves t g (note_incomplete res g).
Proof.
  unfold note_incomplete. destruct (negb _); [done|]. cbv zeta.
  etrans; [|apply evolves_if, ev_log]. etrans; [|apply evolves_if, ev_log].
  etrans; [|apply evolves_foldl; intros; apply ev_log]. evolve.
Qed.

Lemma ev_note_mount_view res g : evolves t g (note_mount_view res g).
Proof.
  unfold note_mount_view. cbv zeta. etrans; [|apply evolves_if; evolve].
  destruct (_ && _); [|done]. destruct (parseMntNSInode _); evolve.
Qed.

Lemma ev_fold_sample res g ch : evolves_from t g (fold_sample own t res g ch).1.
Proof.
  unfold fold_sample. cbv zeta.
  set (g0 := if sr_truncated res then _ else g). apply (from_trans _ _ g0).
  { apply from_evolves, evolves_if, ev_truncate. }
  clearbody g0. clear g. rename g0 into g.
  apply (from_trans _ _ (note_mount_view res (note_incomplete res g))).
  { apply from_evolves. etrans; [apply ev_note_incomplete|apply ev_note_mount_view]. }
  generalize ((gs_mntNsID (note_incomplete res g) =? 0)%Z && mb_ok (sr_basis res)).
  generalize (note_mount_view res (note_incomplete res g)). clear g. intros g b.
  destruct (if b && _ then _ else _) as [g1 ch1] eqn:E. apply (from_trans _ _ g1).
  { destruct (b && _); [|simplify_eq; by intros ?]. change g1 with (g1, ch1).1. rewrite <- E. apply ev_drain. }
  apply from_evolves. cbn [fst]. etrans; [|apply evolves_foldl; intros; apply ev_recordExecutable].
  assert (evolves t g1 (note_alive res g1)) as H1 by (apply evolves_if; evolve).
  destruct (sr_mergedUsrDirs res); [etrans; [exact H1|evolve]|exact H1].
Qed.

Lemma ev_applySample res g ch : evolves_from t g (applySampleResult own t res g ch).1.
Proof.
  unfold applySampleResult. pose proof (ev_fold_sample res g ch) as H1.
  destruct (fold_sample own t res g ch) as [g1 ch1]. cbn [fst] in H1. cbv zeta.
  generalize (basis_mismatch res g1). intros mismatch. eapply from_trans; [exact H1|]. clear H1.
  destruct (if negb mismatch then _ else _) as [g2 ch2] eqn:E. apply (from_trans _ _ g2).
  { destruct mismatch; cbn [negb] in E; [simplify_eq; by intros ?|]. change g2 with (g2, ch2).1. rewrite <- E.
    apply ev_verification. }
  apply (from_trans _ _ (if sample_confirmed res then lastGoodSample t (all_denied res) g2 else g2)).
  { apply from_evolves, evolves_if. evolve. }
  generalize (if sample_confirmed res then lastGoodSample t (all_denied res) g2 else g2).
  clear E g1 g2 ch1 g ch. intros g. destruct (sr_indexReadyAtStart res); cbn [negb]; [|by intros ?].
  destruct mismatch; [apply from_evolves; evolve|].
  destruct (size (sr_candidates res) =? 0); [destruct (_ && _); [apply from_evolves; evolve|by intros ?]|].
  destruct (_ || _); [by intros ?|]. intros Hq. by apply ev_queue_or_submit.
Qed.

Lemma ev_keep_no_file_list res g : evolves t g (keep_no_file_list res g).
Proof.
  unfold keep_no_file_list. destruct (_ && _); [|done]. cbv zeta.
  set (g1 := if _ <? _ then _ else g). assert (evolves t g g1) as H1 by apply evolves_if, ev_truncate.
  etrans; [exact H1|]. clearbody g1. evolve. unfold queues_bounded.
  cbn -[take maxNoFileListPerGeneration].
  intros (?&?&?&?&?). split_and!; try tauto. cbn [db_NoFileList].
  rewrite length_take. apply Nat.le_min_l.
Qed.

Lemma ev_applyBuild res g : evolves t g (applyBuildResult t interval res g).
Proof.
  unfold applyBuildResult. cbv zeta.
  assert (evolves t g (set_db (dr_dbKind res) (dr_dbStatus res) g)) as H1 by evolve.
  etrans; [exact H1|]. clear H1. generalize (set_db (dr_dbKind res) (dr_dbStatus res) g). clear g. intros g.
  destruct (dr_settled res); [evolve|]. destruct (dr_noChange res); [evolve|].
  set (g1 := if dr_truncated res then _ else g).
  assert (evolves t g g1) as H1 by apply evolves_if, ev_truncate. etrans; [exact H1|]. clearbody g1. clear H1 g.
  set (g2 := if dr_failuresTruncated res then _ else g1).
  assert (evolves t g1 g2) as H2 by apply evolves_if, ev_mark. etrans; [exact H2|]. clearbody g2. clear H2 g1.
  rename g2 into g.
  pose proof (ev_keep_no_file_list res (g <| gs_parseFailed := build_failures t interval res (gs_parseFailed g) |>)) as Hk.
  etrans; [|etrans; [exact Hk|]]; [evolve|]. destruct (_ && _); evolve.
Qed.

Lemma ev_apply_batch res g b : evolves t g (apply_batch res g b).
Proof.
  unfold apply_batch. cbv zeta. etrans; apply evolves_foldl; clear g; intros path g _.
  - unfold apply_verified. destruct (lookup_answer _ _ _) as [[result answered] truncated].
    destruct answered; cbn [negb]; [|apply ev_mark]. cbv zeta.
    etrans; [apply (evolves_if _ truncated), ev_mark|].
    destruct result as [|owner [|owner' result]]; [done| |]; apply evolves_foldl; intros.
    + apply ev_recordOS.
    + apply ev_recordUnavailable.
  - unfold apply_replaced. destruct (lookup_answer _ _ _) as [[result answered] truncated].
    destruct answered; cbn [negb]; [|apply ev_mark]. cbv zeta.
    etrans; [apply (evolves_if _ truncated), ev_mark|]. apply evolves_foldl. intros. apply ev_recordUnavailable.
Qed.
Lemma ev_applyLookup res g ch : evolves t g (applyLookupResult t res g ch).1.
Proof.
  unfold applyLookupResult. destruct (gs_pendingLookup g) as [pl|] eqn:Epl; [|done].
  destruct (negb _); [done|]. cbv zeta. set (g0 := g <| gs_pendingLookup := None |>).
  assert (∀ g1, evolves t g0 g1 → evolves t g (flushQueuedCandidates t g1 ch).1) as Hflush.
  { intros g1 [? ? ? ? ? ? ? Hb _]. apply ev_flush. split; try done.
    intros Hg. assert (queues_bounded t g0) as H0.
    { revert Hg. unfold queues_bounded. cbn. intros (?&?&?&?&?). by split_and!; try tauto. }
    specialize (Hb H0). revert Hb. unfold queues_bounded. cbn. intros (?&?&?&?&?). split_and!; try tauto.
    - apply Nat.le_0_l.
    - left. apply Nat.le_0_l. }
  destruct (dr_epochStale res); [apply Hflush, ev_lose_candidates|].
  destruct (dr_lookupFailed res); [apply Hflush, ev_mark|].
  apply Hflush.
  transitivity (foldl (apply_batch res) g0 (pl_batches pl)); [|evolve].
  apply evolves_foldl. intros. apply ev_apply_batch.
Qed.

Lemma ev_applyDB res g ch : evolves t g (applyDBResult t interval res g ch).1.
Proof.
  unfold applyDBResult. destruct (gs_ended g); [done|]. destruct (dr_kind res); cbn [fst].
  - apply ev_applyBuild.
  - apply ev_applyLookup.
  - done.
Qed.

Lemma step_evolves g g' : quiet g → loop_step own interval t g g' → evolves t g g'.
Proof.
  intros Hq Hs. destruct Hs.
  - unfold handleSampleEnvelope. destruct kind; cbn [fst]; [cbv zeta|by apply evolves_if_not; evolve|evolve].
    set (g1 := g <| gs_sampleAlive := false |> <| gs_sampleStalled := false |>).
    apply (from_trans _ _ g1); [apply from_evolves; evolve| |done].
    destruct (gs_ended g1); [by intros ?|apply ev_applySample].
  - by apply ev_dispatch.
  - apply ev_applyDB.
  - unfold maybeSubmitBuild. destruct (_ && _); [done|]. destruct stalled; [done|].
    destruct (submitDBJob _ _) as [[] ch']; [evolve|done].
  - evolve.
  - apply ev_expire.
  - apply ev_event_loss.
  - apply ev_partial.
  - apply ev_mark.
  - evolve.
  - evolve.
  - evolve.
  - unfold force_parse_failed. destruct (gs_ended g); [done|evolve].
Qed.
End loop_evolution.

(** ** Reachable generations *)

Lemma queues_bounded_mono t u g : (t ≤ u)%Z → queues_bounded t g → queues_bounded u g.
Proof.
  unfold queues_bounded, queue_bounds. intros Htu ([Hpe ?]&[Hmv ?]&Hpl&?&?). split_and!; try tauto.
  - eapply Forall_impl; [exact Hpe|]. cbn. lia.
  - eapply Forall_impl; [exact Hmv|]. cbn. lia.
  - intros l Hl. specialize (Hpl l Hl). lia.
Qed.

Lemma reachable_queues own interval t g :
  reachable own interval t g → queues_bounded t g ∧ quiet g.
Proof.
  induction 1 as [id init now coverage _ _ _|t g now g' _ [Hb Hq] Hle Hs].
  - split; [|done]. split_and!; try done; try apply Nat.le_0_l. left. apply Nat.le_0_l.
  - pose proof (step_evolves _ _ _ _ _ Hq Hs) as He.
    split; [|by apply (ev_quiet _ _ _ He)]. apply (ev_queues _ _ _ He). by eapply queues_bounded_mono.
Qed.

(** A run of the loop: steps at instants that never go back. *)
Inductive runs (own interval : Z) : Z → generationState → Z → generationState → Prop :=
  | runs_refl t g : runs own interval t g t g
  | runs_step t g u g1 now g2 :
      runs own interval t g u g1 → (u ≤ now)%Z → loop_step own interval now g1 g2 →
      runs own interval t g now g2.

Lemma runs_reachable own interval t g u g' :
  runs own interval t g u g' → reachable own interval t g → reachable own interval u g' ∧ (t ≤ u)%Z.
Proof.
  induction 1 as [|t g u g1 now g2 _ IH Hle Hs]; intros Hr; [done|]. destruct (IH Hr) as [Hr1 ?].
  split; [|lia]. by eapply reach_step.
Qed.

(** What no run withdraws. *)
Record keeps_evidence (g g' : generationState) : Prop := {
  ke_os : dom (gs_osPackages g) ⊆ dom (gs_osPackages g');
  ke_exec : dom (gs_executables g) ⊆ dom (gs_executables g');
  ke_lost : (gs_eventsLost g ≤ gs_eventsLost g')%Z;
  ke_incomplete : gs_incomplete g = true → gs_incomplete g' = true;
  ke_truncated : gs_truncated g = true → gs_truncated g' = true;
  ke_candidates : gs_candidatesLostPermanently g = true → gs_candidatesLostPermanently g' = true;
  ke_ended : gs_ended g = true → gs_ended g' = true;
}.

Lemma runs_keeps_evidence own interval t g u g' :
  runs own interval t g u g' → reachable own interval t g → keeps_evidence g g'.
Proof.
  induction 1 as [|t g u g1 now g2 H1 IH Hle Hs]; intros Hr; [by split|].
  destruct (IH Hr). destruct (runs_reachable _ _ _ _ _ _ H1 Hr) as [Hr1 _].
  destruct (reachable_queues _ _ _ _ Hr1) as [_ Hq].
  destruct (step_evolves _ _ _ _ _ Hq Hs). split; try tauto; try lia; by etrans.
Qed.
