(* ===== verification/SensorSpec.v ===== *)
(** * SensorSpec: what the sensor's published evidence guarantees

    The properties of every reachable generation: what the sensor writes its
    own reader accepts unchanged, what a verdict of "not observed" on it
    implies, and how its queues and its retries make progress. *)

From Stdlib Require Import ZArith Lia Bool Ascii String List.
From stdpp Require Import base countable gmap strings list.
From S2P Require Import Prelude GoStrings GoRegexp Decimals Semver GoText GoTime Inventory Evidence EvidenceFile.
From S2P Require Import Generation Session SensorInv SensorEvol.

Open Scope string_scope.
Open Scope Z_scope.
Open Scope nat_scope.
Open Scope list_scope.

(** ** The reader's filters keep what the sensor recorded *)

Section filters.
Context `{MapRange}.

Lemma filterKinds_id t kinds : kinds_ok t kinds → filterKinds kinds = (kinds, false).
Proof.
  intros Hk. unfold filterKinds. destruct (existsb _ _) eqn:E; [|done].
  apply existsb_exists in E as ([k v] & Hin%list_elem_of_In%elem_of_map_range & Hn).
  destruct (map_Forall_lookup_1 _ _ _ _ Hk Hin) as [Hr _]. apply mem_spec in Hr.
  cbn [fst] in Hn. by rewrite Hr in Hn.
Qed.

Lemma obs_strings_ok t l : obs_list_ok t l → validObservationStrings l = true.
Proof.
  intros [_ Hl]. apply forallb_forall. intros o Ho%list_elem_of_In. rewrite Forall_forall in Hl.
  destruct (Hl o Ho) as (-> & -> & -> & _). done.
Qed.

Lemma filterOS_id t l inc :
  Forall (λ p, ∃ k, os_ok t k p) l → filterOSPackageStrings l inc = (l, inc).
Proof.
  induction 1 as [|p l [k Hp] _ IH]; cbn [filterOSPackageStrings]; [done|].
  destruct Hp as (<- & Hn & Hv & Hne & Hk & Ho). cbn in Hn, Hv.
  rewrite Hn, Hv, (obs_strings_ok _ _ Ho), (filterKinds_id _ _ Hk). cbn.
  rewrite bool_decide_eq_false_2 by done. rewrite IH. by destruct p.
Qed.

Lemma filterUnavailable_id l inc :
  Forall (λ u, ∃ k, unavail_ok k u) l → filterUnavailableStrings l inc = (l, inc).
Proof.
  induction 1 as [|u l [k Hu] _ IH]; cbn [filterUnavailableStrings]; [done|].
  destruct Hu as (<- & Hn & Hv & Hr%mem_spec). cbn in Hn, Hv. by rewrite Hn, Hv, Hr, IH.
Qed.

Lemma filterExecutable_id t l inc :
  Forall (λ e, ∃ k, exec_ok t k e) l → filterExecutableStrings l inc = (l, inc).
Proof.
  induction 1 as [|e l [k He] _ IH]; cbn [filterExecutableStrings]; [done|].
  destruct He as (<- & Hv & Hx & Hne & Hk & Ho).
  rewrite Hv, (obs_strings_ok _ _ Ho), (filterKinds_id _ _ Hk), Hx. cbn.
  rewrite Hne, bool_decide_eq_false_2, IH; [by destruct e|].
  intros E. rewrite E in Hne. by vm_compute in Hne.
Qed.

(** A parse failure the reader takes as it is. The sensor records the path of a
    file as it finds it, also one with control characters or too long. *)
Definition failure_text (p : ParseFailure) : bool :=
  validString (pf_Input p) && validString (pf_Path p) && validString (pf_Dev p).

(** The evidence as the reader keeps it: without the failures it does not take,
    and marked incomplete when there is one. *)
Definition taken (gen : Generation) : Generation :=
  mk_gen (ge_Container gen) (ge_Init gen) (ge_StartedAt gen) (ge_EndedAt gen) (ge_LastVerifiedAt gen)
    (ge_State gen) (ge_PackageDB gen) (ge_Incomplete gen || negb (forallb failure_text (ge_ParseFailed gen)))
    (ge_Truncated gen) (ge_EventsCoverage gen) (ge_EventsLost gen)
    (List.filter failure_text (ge_ParseFailed gen)) (ge_OSPackages gen) (ge_Unavailable gen) (ge_Executables gen).

Lemma filterParseFailed_exact l inc :
  filterParseFailedStrings l inc = (List.filter failure_text l, inc || negb (forallb failure_text l)).
Proof.
  revert inc. induction l as [|p l IH]; intros inc; cbn [filterParseFailedStrings List.filter forallb]; [by rewrite orb_false_r|].
  rewrite <- !negb_andb. fold (failure_text p). destruct (failure_text p); cbn [negb andb]; rewrite IH; [done|].
  by rewrite orb_true_r.
Qed.

Lemma taken_whole gen : forallb failure_text (ge_ParseFailed gen) = true → taken gen = gen.
Proof.
  intros Hf. unfold taken. rewrite Hf. cbn [negb]. rewrite orb_false_r.
  assert (List.filter failure_text (ge_ParseFailed gen) = ge_ParseFailed gen) as ->; [|by destruct gen].
  revert Hf. generalize (ge_ParseFailed gen). intros l. induction l as [|p l IH]; [done|]. cbn.
  intros [-> ?]%andb_prop. by rewrite IH.
Qed.

(** The values of a map satisfy what its entries do. *)
Lemma map_values `{Countable K} {V} (P : K → V → Prop) (m : gmap K V) :
  map_Forall P m → Forall (λ v, ∃ k, P k v) (map_range m).*2.
Proof.
  intros Hm. apply Forall_forall. intros v ([k v'] & -> & Hkv)%list_elem_of_fmap.
  exists k. apply Hm. by apply elem_of_map_range.
Qed.

Lemma length_values `{Countable K} {V} (m : gmap K V) : length (map_range m).*2 = size m.
Proof. rewrite length_fmap, map_range_perm. apply length_map_to_list. Qed.

Lemma coverage_id c : c ∈ validEventsCoverages → normalizeEventsCoverage c = c.
Proof. intros Hc%mem_spec. unfold normalizeEventsCoverage. by rewrite Hc. Qed.

Lemma toEvidence_kept t g pend :
  gs_inv t g → filterGeneration (toEvidence pend g) = taken (toEvidence pend g).
Proof.
  intros [(Hos&Hun&Hex&_) _ (_&_&_&_&_&Hcov&Hpf) _]. unfold filterGeneration, toEvidence. cbn.
  rewrite (filterOS_id t), filterUnavailable_id, (filterExecutable_id t), filterParseFailed_exact,
    (coverage_id _ Hcov); try done; by apply map_values.
Qed.

(** ** What the reader's verdicts say of the generation *)

Lemma in_use_recorded t g pend ref :
  gs_inv t g →
  vd_Usage (JudgeOSPackage (toEvidence pend g) ref) = UsageInUse ↔
    (pk_Name ref, pk_Version ref) ∈ dom (gs_osPackages g).
Proof.
  intros [(Hos&_) _ _ _]. rewrite (proj2 (judge_os_iff _ ref)), Exists_exists, elem_of_dom.
  unfold toEvidence. cbn [ge_OSPackages]. setoid_rewrite list_elem_of_fmap. split.
  - intros (p & ([k p'] & -> & Hk%elem_of_map_range) & <- & <-). cbn.
    destruct (map_Forall_lookup_1 _ _ _ _ Hos Hk) as (-> & _). by eexists.
  - intros [p Hp]. exists p. split; [by exists ((pk_Name ref, pk_Version ref), p); rewrite elem_of_map_range|].
    by destruct (map_Forall_lookup_1 _ _ _ _ Hos Hp) as ([= -> ->] & _).
Qed.

Lemma observing_iff g :
  derivePublishedState g = StateObserving ↔
  gs_ended g = false ∧ gs_sampleStalled g = false ∧ gs_lastSampleDenied g = false ∧
  gs_parseFailed g = [] ∧ gs_forceParseFailed g = false ∧ gs_idxState g = indexReady ∧
  gs_postIndexConfirmed g = true ∧ gs_pendingEvents g = [].
Proof.
  unfold derivePublishedState.
  destruct (gs_ended g), (gs_sampleStalled g), (gs_lastSampleDenied g); try (split; [done|naive_solver]).
  destruct (gs_parseFailed g), (gs_forceParseFailed g); cbn [length Nat.ltb Nat.leb orb];
    try (split; [done|naive_solver]).
  destruct (gs_idxState g), (gs_postIndexConfirmed g), (gs_pendingEvents g); cbn; split; naive_solver.
Qed.

(** ** The reader's tests of one generation *)

Lemma not_future x t now skew : (x ≤ t)%Z → (t ≤ now)%Z → (0 ≤ skew)%Z → isFuture x now skew = false.
Proof. intros. unfold isFuture, After. destruct (IsZero x); [done|]. apply Z.ltb_ge. lia. Qed.

Lemma kinds_not_future t now kinds l :
  (t ≤ now)%Z → kinds_ok t kinds → obs_list_ok t l → validateKindsAndObservations kinds l now = true.
Proof.
  intros Hle Hk [Hlen Hl]. unfold validateKindsAndObservations. rewrite !andb_true_iff. split_and!.
  - apply forallb_forall. intros [k o] Hin%list_elem_of_In%elem_of_map_range.
    destruct (map_Forall_lookup_1 _ _ _ _ Hk Hin) as [_ [? ?]]. cbn.
    by rewrite !(not_future _ t) by done.
  - by apply Nat.leb_le.
  - apply forallb_forall. intros o Ho%list_elem_of_In. rewrite Forall_forall in Hl.
    destruct (Hl o Ho) as (_&_&_&?). by rewrite (not_future _ t) by done.
Qed.

Lemma toEvidence_valid t now g pend :
  gs_inv t g → (t ≤ now)%Z → validGeneration (toEvidence pend g) now = true.
Proof.
  intros [(Hos&Hun&Hex&Hc) _ (_&_&Hs&Hv&He&_&Hpf) _] Hle. unfold validGeneration, toEvidence. cbn.
  rewrite (not_future (gs_startedAt g) t), (not_future (gs_lastVerifiedAt g) t) by done. cbn [negb andb].
  rewrite !andb_true_iff. split_and!.
  - destruct (gs_endedAt g) as [e|]; [|done]. by rewrite (not_future e t) by (try apply He; done).
  - rewrite !length_values. apply Z.leb_le. unfold entityCount in Hc.
    assert (Z.of_nat maxEntitiesPerGenerationAccum = 40000%Z) as Hm by by vm_compute.
    unfold maxEntitiesPerGeneration. lia.
  - apply forallb_forall. intros p Hp%list_elem_of_In.
    pose proof (map_values _ _ Hos) as Hf. rewrite Forall_forall in Hf.
    destruct (Hf p Hp) as (k&_&_&_&_&?&?). by apply (kinds_not_future t).
  - apply forallb_forall. intros p Hp%list_elem_of_In.
    pose proof (map_values _ _ Hex) as Hf. rewrite Forall_forall in Hf.
    destruct (Hf p Hp) as (k&_&_&_&_&?&?). by apply (kinds_not_future t).
  - unfold validateParseFailedTimes. apply forallb_forall. intros p Hp%list_elem_of_In.
    rewrite Forall_forall in Hpf. destruct (Hpf p Hp) as (Hfa&Hr).
    rewrite (not_future (pf_FailedAt p) t) by done.
    unfold isFuture. destruct (IsZero _); [done|]. unfold After.
    replace (now + maxRetryAfterSkew <? pf_RetryAfter p)%Z with false; [done|].
    symmetry. apply Z.ltb_ge. unfold maxRetryAfterSkew. unfold maxParseRetryBackoff in Hr. lia.
Qed.

Definition identity (g : generationState) : string * Z * Z :=
  (cr_ID (gs_container g), ip_PID (gs_init g), ip_Starttime (gs_init g)).

Lemma generations_accepted t now (pend : generationState → bool) gens seen :
  Forall (gs_inv t) gens → (t ≤ now)%Z → NoDup (identity <$> gens) →
  (∀ g, g ∈ gens → identity g ∉ seen) →
  validateGenerations ((λ g, toEvidence (pend g) g) <$> gens) seen now =
    Some ((λ g, taken (toEvidence (pend g) g)) <$> gens).
Proof.
  intros Hi Hle. revert seen. induction Hi as [|g gens Hg Hgens IH]; intros seen Hnd Hseen; [done|].
  cbn [fmap list_fmap] in *. apply NoDup_cons in Hnd as [Hnin Hnd]. cbn [validateGenerations].
  destruct (inv_facts _ _ Hg) as (Hdocker&Hid&_). unfold toEvidence at 1 2. cbn [ge_Container].
  rewrite Hdocker, Hid. cbn [String.eqb negb].
  change (String.eqb "docker" "docker") with true. cbn [negb].
  change (generationKey (toEvidence (pend g) g)) with (identity g).
  rewrite decide_False by (apply Hseen; by left).
  rewrite (toEvidence_valid t) by done. cbn [negb].
  rewrite IH; [|done|].
  - cbn. by rewrite (toEvidence_kept t).
  - intros g' Hg'. apply not_elem_of_union. split; [|apply Hseen; by right].
    rewrite elem_of_singleton. intros E. apply Hnin. rewrite <- E. by apply list_elem_of_fmap_2.
Qed.
End filters.

(** ** Expiry *)

Lemma list_filter_none {A} (f : A → bool) l : (∀ x, x ∈ l → f x = false) → List.filter f l = [].
Proof.
  induction l as [|x l IH]; intros Hf; [done|]. cbn. rewrite (Hf x) by (by left). apply IH.
  intros y Hy. apply Hf. by right.
Qed.

Lemma expire_all_events now g :
  Forall (λ i, pendingEventTTL < Sub now (pe_receivedAt i))%Z (gs_pendingEvents g) →
  expirePendingEvents now g = recordEventLoss (Z.of_nat (length (gs_pendingEvents g))) (g <| gs_pendingEvents := [] |>).
Proof.
  intros Hf. unfold expirePendingEvents. cbv zeta. rewrite list_filter_none.
  - cbn [length]. rewrite Nat.sub_0_r. destruct (Z.ltb_spec 0 (Z.of_nat (length (gs_pendingEvents g)))); [done|].
    unfold recordEventLoss. destruct (Z.leb_spec (Z.of_nat (length (gs_pendingEvents g))) 0); [done|lia].
  - intros i Hi. rewrite Forall_forall in Hf. unfold event_expired. by rewrite (proj2 (Z.ltb_lt _ _) (Hf i Hi)).
Qed.

Lemma expire_all_mount_views now g :
  Forall (λ i, pendingMountViewEventTTL < Sub now (me_receivedAt i))%Z (gs_pendingMountViewEvents g) →
  expirePendingMountViewEvents now g =
    recordEventLoss (Z.of_nat (length (gs_pendingMountViewEvents g))) (g <| gs_pendingMountViewEvents := [] |>).
Proof.
  intros Hf. unfold expirePendingMountViewEvents. cbv zeta. rewrite list_filter_none.
  - cbn [length]. rewrite Nat.sub_0_r.
    destruct (Z.ltb_spec 0 (Z.of_nat (length (gs_pendingMountViewEvents g)))); [done|].
    unfold recordEventLoss. destruct (Z.leb_spec (Z.of_nat (length (gs_pendingMountViewEvents g))) 0); [done|lia].
  - intros i Hi. rewrite Forall_forall in Hf. unfold mount_view_expired.
    by rewrite (proj2 (Z.ltb_lt _ _) (Hf i Hi)).
Qed.

(** What recording a loss changes, and what it does not. *)
Lemma loss_spec n g g' :
  (0 ≤ n)%Z → g' = recordEventLoss n g →
  gs_eventsLost g' = (gs_eventsLost g + n)%Z ∧
  ((0 < n)%Z ∨ gs_incomplete g = true → gs_incomplete g' = true) ∧
  gs_pendingEvents g' = gs_pendingEvents g ∧
  gs_pendingMountViewEvents g' = gs_pendingMountViewEvents g ∧
  gs_pendingLookup g' = gs_pendingLookup g ∧ gs_queuedCandidates g' = gs_queuedCandidates g.
Proof.
  intros Hn ->. unfold recordEventLoss. destruct (Z.leb_spec n 0) as [H|H].
  - assert (n = 0)%Z as -> by lia. rewrite Z.add_0_r. split_and!; try done. intros [?|?]; [lia|done].
  - cbv zeta. by split_and!.
Qed.

Lemma expire_lookup_spec now g :
  (∀ l, gs_pendingLookup g = Some l → pendingLookupTTL < Sub now (pl_submittedAt l))%Z → quiet g →
  let g' := expirePendingLookup now g in
  gs_pendingLookup g' = None ∧ gs_queuedCandidates g' = [] ∧
  (is_Some (gs_pendingLookup g) → gs_candidatesLostPermanently g' = true) ∧
  gs_eventsLost g' = gs_eventsLost g ∧ gs_incomplete g' = gs_incomplete g ∧
  gs_pendingEvents g' = gs_pendingEvents g ∧ gs_pendingMountViewEvents g' = gs_pendingMountViewEvents g.
Proof.
  intros Hl Hq. unfold expirePendingLookup. destruct (gs_pendingLookup g) as [l|] eqn:El.
  - specialize (Hl l eq_refl). destruct (Z.leb_spec (Sub now (pl_submittedAt l)) pendingLookupTTL); [lia|].
    cbv zeta. by split_and!.
  - cbv zeta. split_and!; try done; by apply Hq.
Qed.

(** ** Retries *)

Lemma find_record l f now interval :
  parseFailureIn (recordParseFailure l f now interval) (fi_input f) (fi_path f) =
    Some (match parseFailureIn l (fi_input f) (fi_path f) with
          | Some pf => if same_content f pf then repeat_failure pf now interval else fresh_failure f now interval
          | None => fresh_failure f now interval
          end).
Proof.
  unfold parseFailureIn. assert (same_input (fi_input f) (fi_path f) (fresh_failure f now interval) = true) as Hf.
  { unfold same_input. cbn. by rewrite !String.eqb_refl. }
  induction l as [|pf l IH]; cbn [recordParseFailure find]; [by rewrite Hf|].
  destruct (same_input (fi_input f) (fi_path f) pf) eqn:E; cbn [negb].
  - destruct (same_content f pf); cbn [find]; [|by rewrite Hf].
    unfold same_input in *. cbn [repeat_failure pf_Input pf_Path]. by rewrite E.
  - cbn [find]. by rewrite E, IH.
Qed.

Lemma find_record_other l f now interval input path :
  (input, path) ≠ (fi_input f, fi_path f) →
  parseFailureIn (recordParseFailure l f now interval) input path = parseFailureIn l input path.
Proof.
  intros Hne. unfold parseFailureIn.
  assert (∀ pf, pf_Input pf = fi_input f → pf_Path pf = fi_path f → same_input input path pf = false) as Hf.
  { intros pf Ei Ep. unfold same_input. rewrite Ei, Ep.
    destruct (String.eqb_spec (fi_input f) input), (String.eqb_spec (fi_path f) path); try done. congruence. }
  induction l as [|pf l IH]; cbn [recordParseFailure find]; [by rewrite Hf|].
  destruct (same_input (fi_input f) (fi_path f) pf) eqn:E; cbn [negb find]; [|by rewrite IH].
  apply andb_prop in E as [Ei%String.eqb_eq Ep%String.eqb_eq].
  rewrite (Hf pf) by done. destruct (same_content f pf); cbn [find]; by rewrite Hf.
Qed.

Definition backoff (interval : Z) (n : nat) : Z :=
  Z.min maxParseRetryBackoff (10 * interval * 2 ^ Z.of_nat n).

Lemma backoff_S interval n :
  interval_ok interval → Z.min maxParseRetryBackoff (2 * backoff interval n) = backoff interval (S n).
Proof.
  intros Hi. unfold backoff. rewrite Nat2Z.inj_succ, Z.pow_succ_r by lia.
  assert (0 < maxParseRetryBackoff)%Z by by vm_compute. lia.
Qed.

Lemma backoff_pos interval n : interval_ok interval → (0 < backoff interval n ≤ maxParseRetryBackoff)%Z.
Proof.
  intros [Hi _]. unfold backoff. assert (0 < maxParseRetryBackoff)%Z by by vm_compute.
  assert (0 < 2 ^ Z.of_nat n)%Z by (apply Z.pow_pos_nonneg; lia).
  assert (0 < 10 * interval)%Z by (unfold Second, Millisecond in Hi; lia). nia.
Qed.

Lemma backoff_0 interval : interval_ok interval → backoff interval 0 = (10 * interval)%Z.
Proof.
  intros Hi. destruct (first_backoff _ Hi) as [_ Hb]. unfold backoff, maxParseRetryBackoff.
  unfold Hour, Minute, Second, Millisecond in *. cbn. lia.
Qed.

(** The state of one file's schedule after its [n + 1]-th failure in a row. *)
Definition scheduled (f : fileIdentity) (interval : Z) (n : nat) (last : Z) (pf : ParseFailure) : Prop :=
  same_content f pf = true ∧ pf_Count pf = (Z.of_nat n + 1)%Z ∧ pf_FailedAt pf = last ∧
  pf_RetryAfter pf = (last + backoff interval n)%Z.

Lemma schedule_step f interval n last pf t :
  interval_ok interval → scheduled f interval n last pf → scheduled f interval (S n) t (repeat_failure pf t interval).
Proof.
  intros Hi (Hc & Hn & Hf & Hr). destruct (backoff_pos interval n Hi) as [Hp Hm].
  assert (pf_RetryAfter pf - pf_FailedAt pf = backoff interval n)%Z as Hd by (rewrite Hr, Hf; lia).
  split_and!; try done.
  - unfold repeat_failure. cbn [pf_Count]. rewrite Hn. lia.
  - rewrite repeat_backoff by (by rewrite ?Hd). rewrite Hd, (proj2 (Z.leb_gt _ _)), backoff_S by done. done.
Qed.

Lemma schedule_run f interval l ts t0 :
  interval_ok interval → parseFailureIn l (fi_input f) (fi_path f) = None →
  ∃ pf, parseFailureIn (foldl (λ l t, recordParseFailure l f t interval) l (t0 :: ts))
          (fi_input f) (fi_path f) = Some pf ∧
        scheduled f interval (length ts) (List.last ts t0) pf.
Proof.
  intros Hi Hn. induction ts as [|t ts IH] using rev_ind.
  - cbn [foldl]. rewrite find_record, Hn. eexists. split; [done|]. destruct (first_backoff _ Hi) as [Hw _].
    split_and!; try done.
    + unfold same_content, fresh_failure. cbn. by rewrite String.eqb_refl, !Z.eqb_refl.
    + unfold fresh_failure. cbn [pf_RetryAfter]. rewrite Hw. change (length []) with 0. by rewrite backoff_0.
  - destruct IH as (pf & Hpf & Hs). rewrite app_comm_cons, foldl_app.
    set (l' := foldl _ l (t0 :: ts)) in *. cbn [foldl].
    rewrite find_record, Hpf. destruct Hs as (Hc & Hrest). rewrite Hc.
    eexists. split; [done|]. rewrite length_app, last_last, Nat.add_comm. by eapply schedule_step.
Qed.

Lemma run_other f interval l ts input path :
  (input, path) ≠ (fi_input f, fi_path f) →
  parseFailureIn (foldl (λ l t, recordParseFailure l f t interval) l ts) input path = parseFailureIn l input path.
Proof.
  intros Hne. revert l. induction ts as [|t ts IH]; intros l; cbn [foldl]; [done|].
  by rewrite IH, find_record_other.
Qed.

(** ** Outstanding failures *)

Lemma success_keeps l f input path :
  (input, path) ≠ (fi_input f, fi_path f) →
  parseFailureIn (recordParseSuccess l f) input path = parseFailureIn l input path.
Proof.
  intros Hne. unfold recordParseSuccess, parseFailureIn.
  induction l as [|pf l IH]; cbn [List.filter find]; [done|].
  destruct (same_input (fi_input f) (fi_path f) pf) eqn:E; cbn [negb find]; rewrite IH; [|done].
  destruct (same_input input path pf) eqn:E'; [|done]. unfold same_input in *.
  apply andb_prop in E as [Ei%String.eqb_eq Ep%String.eqb_eq].
  apply andb_prop in E' as [Ei'%String.eqb_eq Ep'%String.eqb_eq]. congruence.
Qed.

Lemma failure_keeps l f now interval input path :
  is_Some (parseFailureIn l input path) → is_Some (parseFailureIn (recordParseFailure l f now interval) input path).
Proof.
  intros Hl. destruct (decide ((input, path) = (fi_input f, fi_path f))) as [[= -> ->]|Hne].
  - rewrite find_record. by eexists.
  - by rewrite find_record_other.
Qed.

(** A result of the database worker that does not name a file as parsed. *)
Definition does_not_parse (input path : string) (res : dbResult) : Prop :=
  dr_settled res = false ∧ Forall (λ f, (fi_input f, fi_path f) ≠ (input, path)) (dr_succeededFiles res).

Lemma build_keeps_failure now interval res l input path :
  does_not_parse input path res → is_Some (parseFailureIn l input path) →
  is_Some (parseFailureIn (build_failures now interval res l) input path).
Proof.
  intros [_ Hs] Hl. unfold build_failures. cbv zeta.
  set (l0 := match dr_failure res with Some f => _ | None => l end).
  assert (is_Some (parseFailureIn l0 input path)) as H0.
  { unfold l0. destruct (dr_failure res); [by apply failure_keeps|done]. }
  clearbody l0. clear Hl l. revert l0 H0. induction Hs as [|f fs Hf Hs IH]; intros l Hl; cbn [foldl].
  - revert l Hl. generalize (dr_failedFiles res). intros fs. induction fs as [|f fs IH]; intros l Hl; [done|].
    cbn [foldl]. by apply IH, failure_keeps.
  - apply IH. rewrite success_keeps; [done|congruence].
Qed.

Lemma keep_no_file_list_pf res g : gs_parseFailed (keep_no_file_list res g) = gs_parseFailed g.
Proof. unfold keep_no_file_list. destruct (_ && _); [|done]. cbv zeta. by destruct (_ <? _). Qed.

(** The last part of a build that parsed: the failures kept, the index ready
    only when none is left. *)
Lemma applyBuild_failed now interval res g input path :
  does_not_parse input path res → is_Some (parseFailureIn (gs_parseFailed g) input path) →
  let g' := applyBuildResult now interval res g in
  is_Some (parseFailureIn (gs_parseFailed g') input path) ∧ gs_idxState g' = indexFailed.
Proof.
  intros Hd Hf. unfold applyBuildResult. cbv zeta. pose proof Hd as [-> _].
  destruct (dr_noChange res); [done|].
  set (g1 := if dr_truncated res then _ else set_db _ _ g). 
  assert (gs_parseFailed g1 = gs_parseFailed g) as E1 by (unfold g1; by destruct (dr_truncated res)).
  clearbody g1. set (g2 := if dr_failuresTruncated res then _ else g1).
  assert (gs_parseFailed g2 = gs_parseFailed g) as E2 by (unfold g2; by destruct (dr_failuresTruncated res)).
  clearbody g2. rewrite E2. set (l := build_failures now interval res (gs_parseFailed g)).
  assert (is_Some (parseFailureIn l input path)) as Hl by by apply build_keeps_failure.
  clearbody l. pose proof (keep_no_file_list_pf res (g2 <| gs_parseFailed := l |>)) as Ek.
  set (g3 := keep_no_file_list res _) in *. change (gs_parseFailed (g2 <| gs_parseFailed := l |>)) with l in Ek.
  rewrite Ek. destruct l as [|pf l]; [by destruct Hl|]. cbn [length Nat.eqb]. rewrite andb_false_r. clearbody g3. cbn. by rewrite Ek.
Qed.

Section properties.
Context `{MapRange} (own interval : Z) (Hivl : interval_ok interval).

(** C28: Whatever the sensor's loop writes, its own reader accepts, and changes
    nothing of it but parse failures it cannot take. Take any set of generations,
    each in a state the loop can reach from a discovered container by any
    sequence of samples (whose observations carry valid capability texts and are
    not from the future), usage events, database results, expiries and losses,
    with distinct identities, and a header the reader accepts: validating the
    snapshot at that time or later succeeds and drops no record and no
    observation kind, and changes no coverage. Of the parse failures, whose file
    names the sensor does not screen, it drops those with an invalid string, and
    then marks that generation incomplete; when there is none the snapshot is
    taken unchanged. In particular the sensor's caps on entities, observations
    and retry times never exceed the reader's limits. *)
Theorem sensor_snapshots_accepted (pend : generationState → bool) gens t now s :
  Forall (reachable own interval t) gens → (t ≤ now)%Z →
  NoDup (identity <$> gens) → length gens ≤ maxGenerations →
  validateSnapshot (mk_snapshot Schema s []) now = Some (mk_snapshot Schema s []) →
  let snap := mk_snapshot Schema s ((λ g, toEvidence (pend g) g) <$> gens) in
  validateSnapshot snap now = Some (mk_snapshot Schema s (taken <$> sn_Generations snap)) ∧
  (Forall (λ g, forallb failure_text (gs_parseFailed g) = true) gens → validateSnapshot snap now = Some snap).
Proof.
  intros Hr Hle Hnd Hlen Hs snap.
  assert (Forall (gs_inv t) gens) as Hi.
  { eapply Forall_impl; [exact Hr|]. intros g Hg. by eapply reachable_inv. }
  unfold validateSnapshot in *. cbn [sn_Schema sn_Sensor sn_Generations snap] in *.
  repeat match type of Hs with
  | (if ?b then None else _) = _ => destruct b; [done|]
  end.
  clear Hs. rewrite length_fmap.
  destruct (Nat.ltb_spec maxGenerations (length gens)); [lia|].
  rewrite (generations_accepted t) by (done || set_solver). cbn [mbind option_bind]. rewrite <- list_fmap_compose.
  split; [done|]. intros Hf. do 2 f_equal. apply list_fmap_ext. intros n g Hg. apply taken_whole.
  rewrite Forall_forall in Hf. by apply Hf, (list_elem_of_lookup_2 _ n).
Qed.

(** C25: "Not observed" is only said of a settled generation. When the
    published evidence of a reachable generation leads the reader to that
    verdict on an OS package, then the generation is alive, its last sample was
    neither refused nor overdue, its index is ready and confirmed by a later
    sample or lookup, no database file is rejected, no event was ever lost,
    nothing was discarded, and every queue is empty: no event, no candidate, no
    lookup is still on its way to attribution. *)
Theorem not_observed_settled pend t g ref :
  reachable own interval t g →
  vd_Usage (JudgeOSPackage (toEvidence pend g) ref) = UsageNotObserved →
  (pend = false ∧ gs_ended g = false ∧ gs_sampleStalled g = false ∧ gs_lastSampleDenied g = false) ∧
  (gs_idxState g = indexReady ∧ gs_postIndexConfirmed g = true ∧ gs_parseFailed g = [] ∧
   gs_forceParseFailed g = false) ∧
  (gs_eventsLost g = 0%Z ∧ gs_incomplete g = false ∧ gs_truncated g = false ∧
   gs_candidatesLostPermanently g = false) ∧
  (gs_pendingEvents g = [] ∧ gs_pendingMountViewEvents g = [] ∧ gs_pendingLookup g = None ∧
   gs_queuedCandidates g = [] ∧ gs_pendingMapsLookups g = 0 ∧ gs_pendingConfirms g = 0) ∧
  (pk_Name ref, pk_Version ref) ∉ dom (gs_osPackages g).
Proof.
  intros Hr Hv. destruct (reachable_inv _ _ Hivl _ _ Hr) as [_ Hi].
  assert ((pk_Name ref, pk_Version ref) ∉ dom (gs_osPackages g)) as Hnin.
  { rewrite <- (in_use_recorded t g pend) by done. by rewrite Hv. }
  apply judge_os_iff in Hv as (Htr & Hinc & Hst & _). cbn [toEvidence ge_Truncated ge_Incomplete ge_State] in Htr, Hinc, Hst.
  apply observing_iff in Hst as (?&?&?&?&?&?&?&?). rewrite !orb_false_iff in Hinc.
  destruct Hinc as (((((((?&Hpl)&Hqc)&?)&Hmv)&Hml)&Hpc)&?).
  destruct (inv_loss _ _ Hi) as [Hl0 Hl1].
  apply bool_decide_eq_false in Hpl. apply Nat.ltb_ge in Hqc, Hmv, Hml, Hpc.
  split_and!; try done; try lia.
  - destruct (Z.leb_spec (gs_eventsLost g) 0); [lia|]. destruct Hl1 as [Hl1 _]; [lia|congruence].
  - apply length_zero_iff_nil. lia.
  - by apply eq_None_not_Some.
  - apply length_zero_iff_nil. lia.
Qed.

(** C29: Evidence is never withdrawn. Along any run of the loop from a reachable
    generation, a package the reader calls "in use" stays "in use"; and once a
    generation has lost anything (an event, a candidate, a record), no package
    is ever called "not observed" on it again. *)
Theorem evidence_never_withdrawn pend pend' t g u g' ref :
  reachable own interval t g → runs own interval t g u g' →
  (vd_Usage (JudgeOSPackage (toEvidence pend g) ref) = UsageInUse →
   vd_Usage (JudgeOSPackage (toEvidence pend' g') ref) = UsageInUse) ∧
  (gs_incomplete g || gs_truncated g || gs_candidatesLostPermanently g = true ∨ (0 < gs_eventsLost g)%Z →
   vd_Usage (JudgeOSPackage (toEvidence pend' g') ref) ≠ UsageNotObserved).
Proof.
  intros Hr Hrun. destruct (runs_reachable _ _ _ _ _ _ Hrun Hr) as [Hr' _].
  destruct (runs_keeps_evidence _ _ _ _ _ _ Hrun Hr) as [Hos _ _ Hinc Htr Hc _].
  destruct (reachable_inv _ _ Hivl _ _ Hr) as [_ Hi]. destruct (reachable_inv _ _ Hivl _ _ Hr') as [_ Hi'].
  split.
  - rewrite (in_use_recorded t), (in_use_recorded u) by done. apply Hos.
  - intros Hlost Hv. apply judge_os_iff in Hv as (Htr' & Hinc' & _). cbn [toEvidence ge_Truncated ge_Incomplete] in Htr', Hinc'.
    rewrite !orb_false_iff in Hinc'. destruct Hinc' as (((((((?&_)&_)&?)&_)&_)&_)&_).
    assert (gs_incomplete g || gs_truncated g || gs_candidatesLostPermanently g = true) as Hl.
    { destruct Hlost as [|Hl]; [done|]. destruct (inv_loss _ _ Hi) as [_ Hl1].
      by destruct (Hl1 Hl) as [-> _]. }
    rewrite !orb_true_iff in Hl. destruct Hl as [[Hl|Hl]|Hl]; [apply Hinc in Hl|apply Htr in Hl|apply Hc in Hl];
      congruence.
Qed.

(** C32: The sensor's memory of a generation is bounded. In every reachable
    state each queue is within its cap, batches wait only behind an outstanding
    lookup, the candidate paths waiting stay within theirs unless a single
    batch alone exceeds it, and records, observations per record and the
    packages without a file list are capped. *)
Theorem generation_memory_bounded t g :
  reachable own interval t g →
  length (gs_pendingEvents g) ≤ 4096 ∧ length (gs_pendingMountViewEvents g) ≤ 4096 ∧
  length (gs_queuedCandidates g) ≤ 4096 ∧
  (length (gs_queuedCandidates g) ≤ 1 ∨ queued_paths (gs_queuedCandidates g) ≤ maxQueuedCandidatePaths) ∧
  (gs_pendingLookup g = None → gs_queuedCandidates g = []) ∧
  size (gs_osPackages g) + size (gs_unavailable g) + size (gs_executables g) ≤ maxEntitiesPerGenerationAccum ∧
  map_Forall (λ _ p, length (op_Observations p) ≤ 8) (gs_osPackages g) ∧
  map_Forall (λ _ e, length (ee_Observations e) ≤ 8) (gs_executables g) ∧
  length (db_NoFileList (gs_packageDB g)) ≤ maxNoFileListPerGeneration.
Proof.
  intros Hr. destruct (reachable_inv _ _ Hivl _ _ Hr) as [_ [(Hos&_&Hex&Hc) _ _ _]].
  destruct (reachable_queues _ _ _ _ Hr) as [([_ Hpe]&[_ Hmv]&_&[Hqc Hqp]&Hnf) Hq].
  split_and!; try done.
  - eapply map_Forall_impl; [exact Hos|]. by intros k p (_&_&_&_&_&Hl&_).
  - eapply map_Forall_impl; [exact Hex|]. by intros k p (_&_&_&_&_&Hl&_).
Qed.

(** C31: Nothing waits forever. One expiry at a moment more than a minute after a
    reachable state empties the queues of unattributed events and the
    outstanding lookup with everything behind it; each event dropped is counted
    as lost and marks the generation incomplete, and a dropped lookup is
    recorded as candidates lost. *)
Theorem queues_expire t g now :
  reachable own interval t g → (60 * Second < now - t)%Z →
  let g' := expire_queues now g in
  gs_pendingEvents g' = [] ∧ gs_pendingMountViewEvents g' = [] ∧ gs_pendingLookup g' = None ∧
  gs_queuedCandidates g' = [] ∧
  gs_eventsLost g' = (gs_eventsLost g + Z.of_nat (length (gs_pendingEvents g)) +
                      Z.of_nat (length (gs_pendingMountViewEvents g)))%Z ∧
  (gs_pendingEvents g ≠ [] ∨ gs_pendingMountViewEvents g ≠ [] → gs_incomplete g' = true) ∧
  (is_Some (gs_pendingLookup g) → gs_candidatesLostPermanently g' = true).
Proof.
  intros Hr Hnow. destruct (reachable_queues _ _ _ _ Hr) as [([Hpe _]&[Hmv _]&Hpl&_) Hq].
  assert (∀ r, (r ≤ t)%Z → (60 * Second < Sub now r)%Z) as Hold.
  { intros r ?. unfold Sub, maxDuration, minDuration, Second, Millisecond in *. lia. }
  unfold expire_queues. rewrite (expire_all_events now g).
  2: { eapply Forall_impl; [exact Hpe|]. intros i. apply Hold. }
  set (n := length (gs_pendingEvents g)).
  set (g1 := recordEventLoss _ _).
  destruct (loss_spec (Z.of_nat n) (g <| gs_pendingEvents := [] |>) g1 ltac:(lia) eq_refl) as (L1&I1&P1&M1&K1&C1).
  clearbody g1. cbn in L1, I1, P1, M1, K1, C1.
  rewrite (expire_all_mount_views now g1).
  2: { rewrite M1. eapply Forall_impl; [exact Hmv|]. intros i. apply Hold. }
  rewrite M1. set (m := length (gs_pendingMountViewEvents g)).
  set (g2 := recordEventLoss _ _).
  destruct (loss_spec (Z.of_nat m) (g1 <| gs_pendingMountViewEvents := [] |>) g2 ltac:(lia) eq_refl)
    as (L2&I2&P2&M2&K2&C2).
  clearbody g2. cbn in L2, I2, P2, M2, K2, C2.
  destruct (expire_lookup_spec now g2) as (?&?&Hc&El&Ei&Ep&Em).
  { rewrite K2, K1. intros l Hl. apply Hold. by apply Hpl. }
  { unfold quiet. rewrite K2, K1, C2, C1. exact Hq. }
  split_and!; [congruence|congruence|done|done|rewrite El, L2, L1; lia| |by rewrite K2, K1 in Hc].
  rewrite Ei. intros [Hne|Hne]; apply I2.
  - right. apply I1. left. destruct (gs_pendingEvents g); [done|]. cbn in n. unfold n. lia.
  - left. destruct (gs_pendingMountViewEvents g); [done|]. cbn in m. unfold m. lia.
Qed.

(** The retry schedule of a rejected file. After [n + 1] failures in a row of
    a file with the same content, whatever other failures are outstanding, it is
    skipped until ten sampling intervals doubled [n] times have passed since the
    last of them, and never longer than 24 hours; from that moment on it is
    tried again; a file of other content at the same path is tried at once; and
    the schedules of other files are untouched. *)
Theorem retry_schedule f l t0 ts :
  parseFailureIn l (fi_input f) (fi_path f) = None →
  let l' := foldl (λ l t, recordParseFailure l f t interval) l (t0 :: ts) in
  let due := (List.last ts t0 + Z.min (24 * Hour) (10 * interval * 2 ^ Z.of_nat (length ts)))%Z in
  (∀ now, shouldSkipForBackoff l' f now = (now <? due)%Z) ∧
  (∀ f' now, fi_input f' = fi_input f → fi_path f' = fi_path f →
     (fi_dev f', fi_inode f', fi_size f') ≠ (fi_dev f, fi_inode f, fi_size f) →
     shouldSkipForBackoff l' f' now = false) ∧
  (∀ input path, (input, path) ≠ (fi_input f, fi_path f) →
     parseFailureIn l' input path = parseFailureIn l input path).
Proof.
  intros Hn l' due. destruct (schedule_run f interval l ts t0 Hivl Hn) as (pf & Hpf & Hc & _ & _ & Hr).
  fold l' in Hpf. split_and!.
  - intros now. unfold shouldSkipForBackoff. rewrite Hpf, Hc. cbn [negb]. unfold Before. by rewrite Hr.
  - intros f' now Hi Hp Hne. unfold shouldSkipForBackoff. rewrite Hi, Hp, Hpf.
    destruct (same_content f' pf) eqn:Hc'; [|done]. exfalso. unfold same_content in *.
    rewrite !andb_true_iff, String.eqb_eq, !Z.eqb_eq in Hc, Hc'. naive_solver congruence.
  - intros input path Hne. by apply run_other.
Qed.

(** A rejected file blocks the index until that very file parses. While one
    failure is outstanding, any number of build results that do not report its
    path as parsed, even results in which every file sent was accepted, leave
    the failure outstanding and the index failed, so the generation is never
    published as observing. *)
Theorem outstanding_failure_blocks input path g (rs : list (Z * dbResult)) :
  is_Some (parseFailureIn (gs_parseFailed g) input path) →
  Forall (λ r, does_not_parse input path r.2) rs →
  let g' := foldl (λ g r, applyBuildResult r.1 interval r.2 g) g rs in
  is_Some (parseFailureIn (gs_parseFailed g') input path) ∧
  (rs ≠ [] → gs_idxState g' = indexFailed) ∧
  derivePublishedState g' ≠ StateObserving ∧ derivePublishedState g' ≠ StateInitializing.
Proof.
  intros Hf Hrs.
  assert (∀ g, is_Some (parseFailureIn (gs_parseFailed g) input path) →
    derivePublishedState g ≠ StateObserving ∧ derivePublishedState g ≠ StateInitializing) as Hst.
  { clear. intros g Hf. unfold derivePublishedState. destruct (gs_parseFailed g) as [|pf l]; [by destruct Hf|].
    by destruct (gs_ended g), (gs_sampleStalled g), (gs_lastSampleDenied g). }
  revert g Hf. induction Hrs as [|[now res] rs Hr Hrs IH]; intros g Hf; cbn [foldl].
  - split_and!; try done; by apply Hst.
  - cbn [fst snd] in *. destruct (applyBuild_failed now interval res g input path Hr Hf) as [Hf' Hx].
    destruct (IH _ Hf') as (?&Hi&?&?). split_and!; try done. intros _. destruct rs; [done|by apply Hi].
Qed.
End properties.

(** ** Examples: a generation whose index is built and confirmed *)

Definition example_interval : Z := (60 * Second)%Z.
Definition example_id : string := join "" (replicate 64 "a").

Definition example_new : generationState :=
  newGenerationState (mk_container_ref "docker" example_id "" "" "") (mk_init_process 7 9) 100 CoverageSinceStart.

Definition example_build (ok : bool) (succeeded : list fileIdentity) : dbResult :=
  mk_result dbJobBuild "" false "dpkg" DBStatusOK false [] false ok None succeeded [] false
    (mk_basis "mnt:[4]" "fe:01" 2 true) ∅ false false 0 0.

Definition example_sample : sampleResult :=
  mk_sample 1 0 1 false [] 0 false [] ∅ [] [] None (mk_basis "mnt:[4]" "fe:01" 2 true) 0 false true [] [].

Definition example_built : generationState := (applyDBResult 100 example_interval (example_build true []) example_new []).1.

Definition example_observing : generationState :=
  (handleSampleEnvelope 0 100 sampleEnvResult example_sample example_built []).1.

Definition example_ref : PackageRef := mk_package_ref "debian" ClassOS "openssl" "3.0".

Lemma example_interval_ok : interval_ok example_interval.
Proof. by vm_compute. Qed.

Lemma example_new_reachable : reachable 0 example_interval 100 example_new.
Proof. apply reach_new; [by vm_compute|apply (bool_decide_unpack (_ ∈ _)); by vm_compute|lia]. Qed.

Lemma example_built_reachable : reachable 0 example_interval 100 example_built.
Proof.
  apply (reach_step _ _ 100 example_new); [apply example_new_reachable|lia|]. apply ls_db.
Qed.

Lemma example_observing_reachable : reachable 0 example_interval 100 example_observing.
Proof.
  apply (reach_step _ _ 100 example_built); [apply example_built_reachable|lia|]. apply ls_envelope.
  split_and!; try apply List.Forall_nil. apply map_Forall_empty.
Qed.

(** An event that waits for its mount view, in the same generation. *)
Definition example_event : Event := mk_event 1 4 0 7 0 0 0 5 0 2 0 "/bin/true".

Definition example_waiting : generationState :=
  (dispatchUsageEvent 0 100 "/bin/true" example_event KindExecEvent true example_new []).1.

Lemma example_waiting_reachable : reachable 0 example_interval 100 example_waiting.
Proof.
  apply (reach_step _ _ 100 example_new); [apply example_new_reachable|lia|].
  apply (ls_event _ _ _ _ "/bin/true" example_event true []). split; cbn; lia.
Qed.

(** A build that failed on a file whose name holds a newline. *)
Definition example_odd : fileIdentity := mk_file "dpkg_info" (String "010"%char "x.list") "fe:01" 3 40.

Definition example_failed : generationState :=
  (applyDBResult 100 example_interval
    (mk_result dbJobBuild "" false "dpkg" DBStatusOK false [] false false (Some example_odd) [] [example_odd] false
      (mk_basis "mnt:[4]" "fe:01" 2 true) ∅ false false 0 0) example_new []).1.

Lemma example_failed_reachable : reachable 0 example_interval 100 example_failed.
Proof.
  apply (reach_step _ _ 100 example_new); [apply example_new_reachable|lia|]. apply ls_db.
Qed.

Lemma sensor_snapshots_accepted_witness :
  let s := mk_sensor "1" "s" 1 2 30 (mk_isolation true true true 4) SensorOK (mk_events EventsOK "" 1 0 0 0) in
  (length (gs_parseFailed example_failed) = 1 ∧
   validateSnapshot (mk_snapshot Schema s [toEvidence false example_failed]) 200 =
     Some (mk_snapshot Schema s [taken (toEvidence false example_failed)])) ∧
  let snap := mk_snapshot Schema s [toEvidence false example_observing] in
  validateSnapshot snap 200 = Some snap.
Proof.
  split.
  { split; [by vm_compute|].
    apply (sensor_snapshots_accepted 0 example_interval example_interval_ok (λ _, false) [example_failed] 100 200
      (mk_sensor "1" "s" 1 2 30 (mk_isolation true true true 4) SensorOK (mk_events EventsOK "" 1 0 0 0))).
    - apply List.Forall_cons; [apply example_failed_reachable|apply List.Forall_nil].
    - lia.
    - apply (bool_decide_unpack (NoDup _)). by vm_compute.
    - apply Nat.leb_le. by vm_compute.
    - by vm_compute. }
  apply (sensor_snapshots_accepted 0 example_interval example_interval_ok (λ _, false) [example_observing] 100 200
    (mk_sensor "1" "s" 1 2 30 (mk_isolation true true true 4) SensorOK (mk_events EventsOK "" 1 0 0 0))).
  - apply List.Forall_cons; [apply example_observing_reachable|apply List.Forall_nil].
  - lia.
  - apply (bool_decide_unpack (NoDup _)). by vm_compute.
  - apply Nat.leb_le. by vm_compute.
  - by vm_compute.
  - apply List.Forall_cons; [by vm_compute|apply List.Forall_nil].
Defined.

Lemma not_observed_settled_witness :
  vd_Usage (JudgeOSPackage (toEvidence false example_observing) example_ref) = UsageNotObserved ∧
  gs_idxState example_observing = indexReady.
Proof.
  assert (vd_Usage (JudgeOSPackage (toEvidence false example_observing) example_ref) = UsageNotObserved) as H
    by by vm_compute.
  split; [exact H|].
  by destruct (not_observed_settled 0 example_interval example_interval_ok false 100 example_observing example_ref
    example_observing_reachable H) as (_ & (Hx & _) & _).
Defined.

Lemma evidence_never_withdrawn_witness :
  vd_Usage (JudgeOSPackage (toEvidence false (expire_queues (200 * Second) (recordEventLoss 1 example_observing)))
    example_ref) ≠ UsageNotObserved.
Proof.
  assert (runs 0 example_interval 100 (recordEventLoss 1 example_observing) (200 * Second)
    (expire_queues (200 * Second) (recordEventLoss 1 example_observing))) as Hrun.
  { eapply runs_step; [apply runs_refl|by vm_compute|apply ls_expire]. }
  apply (proj2 (evidence_never_withdrawn 0 example_interval example_interval_ok false false 100
    (recordEventLoss 1 example_observing) (200 * Second) _ example_ref
    (reach_step _ _ 100 _ 100 _ example_observing_reachable (Z.le_refl 100) (ls_loss _ _ _ _ 1)) Hrun)).
  by left.
Defined.

Lemma generation_memory_bounded_witness : length (gs_pendingMountViewEvents example_waiting) ≤ 4096.
Proof.
  by destruct (generation_memory_bounded 0 example_interval example_interval_ok 100 example_waiting
    example_waiting_reachable) as (_ & H & _).
Defined.

Lemma queues_expire_witness :
  gs_pendingMountViewEvents example_waiting ≠ [] ∧
  gs_incomplete (expire_queues (100 + 61 * Second) example_waiting) = true.
Proof.
  split; [done|].
  destruct (queues_expire 0 example_interval 100 example_waiting (100 + 61 * Second)%Z example_waiting_reachable)
    as (_ & _ & _ & _ & _ & H & _); [by vm_compute|]. apply H. by right.
Defined.

Definition example_file : fileIdentity := mk_file "dpkg_status" "/var/lib/dpkg/status" "fe:01" 3 40.

Lemma retry_schedule_witness :
  shouldSkipForBackoff
    (foldl (λ l t, recordParseFailure l example_file t example_interval) [] [0; 700 * Second; 2000 * Second]%Z)
    example_file (2000 * Second + 2399 * Second) = true.
Proof.
  rewrite (proj1 (retry_schedule example_interval example_interval_ok example_file [] 0
    [700 * Second; 2000 * Second]%Z eq_refl)). by vm_compute.
Defined.

Lemma outstanding_failure_blocks_witness :
  let pf := fresh_failure (mk_file "dpkg_info" "/var/lib/dpkg/info/gone.list" "fe:01" 5 6) 50 example_interval in
  gs_idxState (foldl (λ g r, applyBuildResult r.1 example_interval r.2 g)
    (example_new <| gs_parseFailed := [pf] |>) [(100%Z, example_build true [example_file])]) = indexFailed.
Proof.
  intros pf.
  destruct (outstanding_failure_blocks example_interval "dpkg_info" "/var/lib/dpkg/info/gone.list"
    (example_new <| gs_parseFailed := [pf] |>) [(100%Z, example_build true [example_file])]) as (_ & H & _).
  - by eexists.
  - apply List.Forall_cons; [|apply List.Forall_nil]. split; [done|]. apply List.Forall_cons; [done|apply List.Forall_nil].
  - apply H. discriminate.
Defined.

(** An index that was ready and confirmed is built again: a sample that finds
    init's root elsewhere sends the state back to idle. *)
Definition example_moved : sampleResult :=
  mk_sample 1 0 1 false [] 0 false [] ∅ [] [] None (mk_basis "mnt:[9]" "fe:02" 2 true) 0 false true [] [].

Lemma ready_index_reenters_idle :
  gs_idxState example_observing = indexReady ∧
  gs_idxState (handleSampleEnvelope 0 200 sampleEnvResult example_moved example_observing []).1 = indexIdle.
Proof. split; by vm_compute. Qed.

(** A worker that ends after its budget leaves its generation stalled. *)
Lemma finished_keeps_stalled own now res g ch :
  gs_sampleStalled (handleSampleEnvelope own now sampleEnvFinished res g ch).1 = gs_sampleStalled g.
Proof. done. Qed.
