(* ===== verification/PySpec.v ===== *)
(** * PySpec: version specifiers and requirements of Python

    internal/remediation: the specifier clauses of lang_match.go, the
    specifiers, Python minors and lower bounds of lang_pip.go, the requirement
    strings of lang_range.go and lock_pip.go. The versions are [Pep440]'s.

    A Python is often known only up to its minor release, X.Y. The key lemma is
    [clause_between]: a clause that holds at the lowest and at a high patch
    level, and at the patch level it names, holds at every one in between; so
    [pythonMinorAllows], which tries those, is right about every patch level
    when it says yes. *)

From Stdlib Require Import ZArith Lia Bool Ascii String List.
From stdpp Require Import base gmap strings list.
From S2P Require Import Prelude GoStrings GoRegexp Decimals Semver GoText Pep440 MavenVersion Versions.

Open Scope string_scope.
Open Scope nat_scope.
Open Scope list_scope.
Open Scope kl_scope.

(** ** Go's string functions *)

(** [strings.TrimSuffix], [Count] of one byte, [ReplaceAll] of one
    byte with nothing, and [Trim] with a set of bytes. *)
Definition trim_suffix (s p : string) : string :=
  if has_suffix s p then stake (slen s - slen p) s else s.

Fixpoint count_byte (c : ascii) (s : string) : nat :=
  match s with
  | EmptyString => 0
  | String d s' => (if Ascii.eqb d c then 1 else 0) + count_byte c s'
  end.

Fixpoint remove_byte (c : ascii) (s : string) : string :=
  match s with
  | EmptyString => ""
  | String d s' => if Ascii.eqb d c then remove_byte c s' else String d (remove_byte c s')
  end.

Fixpoint trim_left_set (set s : string) : string :=
  match s with
  | EmptyString => ""
  | String c s' => if contains_byte c set then trim_left_set set s' else s
  end.

Fixpoint trim_right_set (set s : string) : string :=
  match s with
  | EmptyString => ""
  | String c s' =>
      let t := trim_right_set set s' in
      if String.eqb t "" && contains_byte c set then "" else String c t
  end.

Definition trim_set (set s : string) : string := trim_right_set set (trim_left_set set s).

(** ** Clauses of a specifier (lang_match.go) *)

Record pyClause := mk_clause {
  pc_op : string;
  pc_version : pyVersion;
  pc_wildcard : bool
}.

Definition zero_py : pyVersion := mk_py "" [] 0 "" false "" false "" false [].
Definition zero_clause : pyClause := mk_clause "" zero_py false.

Definition pyReleaseOnlyRE : re :=
  RSeqs [ROpt (RSeq (RPlus RDigit) (RChar "!"%char));
         RPlus RDigit; RStar (RSeq (RChar "."%char) (RPlus RDigit))].

Definition specifier_ops : list string := ["==="; "=="; "!="; "<="; ">="; "~="; "<"; ">"].

(** The loop over the operators, which stops at the first prefix. *)
Definition leading_op (clause : string) : string :=
  default "" (List.find (λ o, has_prefix clause o) specifier_ops).

Definition equality_op (op : string) : bool := String.eqb op "==" || String.eqb op "!=".

(** The result is the clause, [grammar] and [ok]. *)
Definition parseSpecifierClause `{GoUnicode} (clause : string) : pyClause * bool * bool :=
  let op := leading_op clause in
  let ver := trim_space (trim_prefix clause op) in
  if String.eqb op "" || String.eqb ver "" then (zero_clause, false, false)
  else if String.eqb op "===" then (mk_clause op zero_py false, true, false)
  else
    let wild := has_suffix ver ".*" in
    if wild && negb (equality_op op) then (zero_clause, false, false)
    else
      let ver' := if wild then trim_suffix ver ".*" else ver in
      if wild && negb (match_full pyReleaseOnlyRE ver') then (zero_clause, false, false)
      else
        match parsePEP440 ver' with
        | None => (zero_clause, false, false)
        | Some v =>
            if str_contains ver' "*" then (zero_clause, false, false)
            else if (0 <? length (py_local v)) && negb (equality_op op) then (zero_clause, false, false)
            else if String.eqb op "~=" && (length (py_release v) <? 2) then (zero_clause, false, false)
            else (mk_clause op v wild, true, true)
        end.

Definition sameBase (a b : pyVersion) : bool :=
  String.eqb (py_epoch a) (py_epoch b) &&
  match cmpRelease (py_release a) (py_release b) with Eq => true | _ => false end &&
  Bool.eqb (py_hasPre a) (py_hasPre b) &&
  (negb (py_hasPre a) || (py_preKind a =? py_preKind b)%Z && String.eqb (py_preNum a) (py_preNum b)).

(** The loop over [prefix], with [rel] from the same index on. *)
Fixpoint releasePrefixEqual (rel prefix : list string) : bool :=
  match prefix with
  | [] => true
  | p :: prefix' =>
      match rel with
      | [] => String.eqb "0" p && releasePrefixEqual [] prefix'
      | r :: rel' => String.eqb r p && releasePrefixEqual rel' prefix'
      end
  end.

(** The candidate a clause is asked about: a specifier without a local label
    ignores the candidate's. *)
Definition without_local (v : pyVersion) : pyVersion :=
  mk_py (py_epoch v) (py_release v) (py_preKind v) (py_preNum v) (py_hasPre v)
    (py_postNum v) (py_hasPost v) (py_devNum v) (py_hasDev v) [].

Definition candidate (v s : pyVersion) : pyVersion :=
  if length (py_local s) =? 0 then without_local v else v.

Definition is_eq (c : comparison) : bool := match c with Eq => true | _ => false end.
Definition is_gt (c : comparison) : bool := match c with Gt => true | _ => false end.
Definition is_ge (c : comparison) : bool := match c with Lt => false | _ => true end.
Definition is_le (c : comparison) : bool := match c with Gt => false | _ => true end.

(** The switch on the operator, which leaves [met] false on another one. *)
Definition clause_met (v : pyVersion) (cl : pyClause) : bool :=
  let s := pc_version cl in
  let op := pc_op cl in
  let cand := candidate v s in
  let c := py_compare cand s in
  let equal := if pc_wildcard cl
               then String.eqb (py_epoch cand) (py_epoch s) && releasePrefixEqual (py_release cand) (py_release s)
               else is_eq c in
  if String.eqb op "==" then equal
  else if String.eqb op "!=" then negb equal
  else if String.eqb op ">=" then is_ge c
  else if String.eqb op "<=" then is_le c
  else if String.eqb op ">" then is_gt c && negb (negb (py_hasPost s) && py_hasPost cand && sameBase cand s)
  else if String.eqb op "<" then
    is_lt c && negb (negb (py_isPrerelease s) && py_isPrerelease cand && negb (py_hasPost cand) &&
                     String.eqb (py_epoch cand) (py_epoch s) &&
                     is_eq (cmpRelease (py_release cand) (py_release s)))
  else if String.eqb op "~=" then
    is_ge c && String.eqb (py_epoch cand) (py_epoch s) &&
    releasePrefixEqual (py_release cand) (removelast (py_release s))
  else false.

Definition maxSpecifierBytes : nat := 4096.
Definition maxSpecifierClauses : nat := 64.

(** The loop over the clauses; [ok] is its variable. *)
Fixpoint satisfies_loop `{GoUnicode} (v : pyVersion) (clauses : list string) (ok : bool) : bool * bool :=
  match clauses with
  | [] => (ok, true)
  | clause :: rest =>
      let '(cl, _, valid) := parseSpecifierClause clause in
      if negb valid then (false, false)
      else satisfies_loop v rest (if clause_met v cl then ok else false)
  end.

(** The result is [ok] and [evaluable]. *)
Definition pySatisfies `{GoUnicode} (v : pyVersion) (constraint : string) : bool * bool :=
  if String.eqb constraint "" then (true, true)
  else if (maxSpecifierBytes <? slen constraint) || (maxSpecifierClauses <=? count_byte ","%char constraint)
  then (false, false)
  else satisfies_loop v (split_byte ","%char constraint) true.

(** ** Requirement strings (lock_pip.go, lang_range.go) *)

Definition re_space (c : ascii) : bool :=
  Ascii.eqb c " "%char || in_range 9 10 c || in_range 12 13 c.

Definition name_inner (c : ascii) : bool :=
  is_alnum c || Ascii.eqb c "."%char || Ascii.eqb c "_"%char || Ascii.eqb c "-"%char.

Definition pipNameRE : re :=
  RSeqs [RGroup 1 (RSeq (RClass is_alnum) (ROpt (RSeq (RStar (RClass name_inner)) (RClass is_alnum))));
         RStar (RClass re_space);
         ROpt (RGroup 2 (RSeqs [RChar "["%char; RStar (RClass (λ c, negb (Ascii.eqb c "]"%char))); RChar "]"%char]));
         RStar (RClass re_space);
         RGroup 3 (RStar RDot)].

Definition pipClauseRE : re :=
  RSeqs [RGroup 1 (RAlts [RLit "==="; RLit "=="; RLit "!="; RLit "<="; RLit ">="; RLit "~="; RLit "<"; RLit ">"]);
         RStar (RClass re_space);
         RGroup 2 (RPlus (RClass (λ c, negb (re_space c))))].

Definition clause_text (m : caps) : string := group 1 m +:+ group 2 m.

(** The part of a string before a byte, all of it when the byte is missing. *)
Definition before_byte (c : ascii) (s : string) : string :=
  match index_byte s c with Some i => stake i s | None => s end.
Definition after_byte (c : ascii) (s : string) : string :=
  match index_byte s c with Some i => sdrop (S i) s | None => "" end.

(** The loop over the clauses of a requirement: [None] is the early return. *)
Fixpoint requirement_clauses (l : list string) : option (list string) :=
  match l with
  | [] => Some []
  | c :: l' =>
      m ← find_full pipClauseRE (trim_space c);
      rest ← requirement_clauses l';
      Some (clause_text m :: rest)
  end.

(** The name and the constraint; [None] is [ok = false]. *)
Definition pythonRequirement `{GoUnicode} (s : string) : option (string * string) :=
  m ← find_full pipNameRE (trim_space (before_byte ";"%char s));
  let rest := trim_space (group 3 m) in
  if has_prefix rest "@" then None
  else
    let rest := trim_space (trim_suffix (trim_prefix rest "(") ")") in
    if String.eqb rest "" then Some (normalizePyName (group 1 m), "")
    else
      clauses ← requirement_clauses (split_byte ","%char rest);
      Some (normalizePyName (group 1 m), join "," clauses).

Definition pipExtras `{GoUnicode} (g : string) : list string :=
  let g := trim_space (trim_set "[]" g) in
  if String.eqb g "" then []
  else List.filter (λ e, negb (String.eqb e ""))
         ((λ e, to_lower (trim_space e)) <$> split_byte ","%char g).

Definition normExtra `{GoUnicode} (s : string) : string := normalizePyName s.

Definition requirementExtras `{GoUnicode} (s : string) : list string :=
  match find_full pipNameRE (trim_space (before_byte ";"%char s)) with
  | None => []
  | Some m => normExtra <$> pipExtras (group 2 m)
  end.

(** ** Specifiers and the minors of Python (lang_pip.go) *)

Fixpoint specifier_clauses (l : list string) : option (list string) :=
  match l with
  | [] => Some []
  | c :: l' =>
      m ← find_full pipClauseRE (trim_space (remove_byte " "%char (trim_space c)));
      rest ← specifier_clauses l';
      Some (clause_text m :: rest)
  end.

Definition normalizeSpecifier (s : string) : option string :=
  if String.eqb (trim_space s) "" then Some ""
  else if (maxSpecifierBytes <? slen s) || (maxSpecifierClauses <=? count_byte ","%char s) then None
  else join "," <$> specifier_clauses (split_byte ","%char s).

Definition named_patch (minor c : string) : list string :=
  match find_full pipClauseRE c with
  | None => []
  | Some m =>
      let lit := trim_suffix (group 2 m) ".*" in
      if has_prefix lit (minor +:+ ".") then [lit] else []
  end.

Definition patch_samples (norm minor : string) : list string :=
  [minor +:+ ".0"; minor +:+ ".9999"] ++ (split_byte ","%char norm ≫= named_patch minor).

(** The loop over the samples: [None] is the early return. *)
Fixpoint sample_results `{GoUnicode} (norm : string) (samples : list string) : option (list bool) :=
  match samples with
  | [] => Some []
  | sample :: rest =>
      v ← parsePEP440 sample;
      let '(ok, evaluable) := pySatisfies v norm in
      if negb evaluable then None
      else
        results ← sample_results norm rest;
        Some (ok :: results)
  end.

(** The result is [ok] and [decided]. *)
Definition pythonMinorAllows `{GoUnicode} (spec minor : string) : bool * bool :=
  match normalizeSpecifier spec with
  | None => (false, false)
  | Some norm =>
      if String.eqb norm "" then (true, true)
      else
        match sample_results norm (patch_samples norm minor) with
        | Some (r :: rest) => if forallb (Bool.eqb r) rest then (r, true) else (false, false)
        | _ => (false, false)
        end
  end.

(** The version a clause bounds from below, [None] for [continue]. *)
Definition lower_clause (c : string) : option string :=
  if has_prefix c ">=" then Some (trim_prefix c ">=")
  else if has_prefix c "~=" then Some (trim_prefix c "~=")
  else if has_prefix c "==" && has_suffix c ".*" then Some (trim_suffix (trim_prefix c "==") ".*" +:+ ".0")
  else None.

(** The loop of [pythonLowerBound]: [best] is its best version so far, with
    its text. *)
Fixpoint lower_loop `{GoUnicode} (l : list string) (best : option (string * pyVersion)) : option (string * pyVersion) :=
  match l with
  | [] => best
  | c :: l' =>
      match lower_clause c with
      | None => lower_loop l' best
      | Some v =>
          match parsePEP440 v with
          | None => None
          | Some pv =>
              let better := match best with None => true | Some (_, b) => is_gt (py_compare pv b) end in
              lower_loop l' (if better then Some (v, pv) else best)
          end
      end
  end.

Definition pythonLowerBound `{GoUnicode} (spec : string) : option string :=
  norm ← normalizeSpecifier spec;
  if String.eqb norm "" then None
  else fst <$> lower_loop (split_byte ","%char norm) None.

(** ** The Pythons of one minor *)

(** Python X.Y.n, and the clauses whose version names a patch level of X.Y. *)
Definition py_patch (X Y : string) (n : nat) : pyVersion :=
  mk_py "0" [X; Y; itoa (N.of_nat n)] 0 "" false "" false "" false [].

Definition names_patch (X Y : string) (s : pyVersion) : bool :=
  String.eqb (py_epoch s) "0" &&
  match py_release s with
  | x :: y :: _ :: _ => String.eqb x X && String.eqb y Y
  | _ => false
  end.

Lemma itoa_inj m n : itoa (N.of_nat m) = itoa (N.of_nat n) → m = n.
Proof.
  intros H. apply Nat2N.inj. rewrite <- (proj2 (itoa_spec (N.of_nat m))), H. apply itoa_spec.
Qed.

Lemma cmpNum_refl s : cmpNum s s = Eq.
Proof. apply (cmp_refl cmpNum). Qed.

Lemma cmpNum_Eq a b : cmpNum a b = Eq → a = b.
Proof. apply (cmp_eq_eq (cmp := cmpNum)). Qed.

Lemma candidate_self s : candidate s s = s.
Proof. unfold candidate. destruct s as [? ? ? ? ? ? ? ? ? [|x l]]; reflexivity. Qed.

Lemma candidate_patch X Y n s : candidate (py_patch X Y n) s = py_patch X Y n.
Proof. unfold candidate. by destruct (_ =? 0). Qed.

Lemma releasePrefixEqual_self l k : releasePrefixEqual (l ++ k) l = true.
Proof. induction l as [|x l IH]; simpl; [done|]. by rewrite String.eqb_refl. Qed.

Lemma releasePrefixEqual_removelast l : releasePrefixEqual l (removelast l) = true.
Proof.
  destruct (decide (l = [])) as [->|H]; [done|].
  rewrite (app_removelast_last "" H) at 1. apply releasePrefixEqual_self.
Qed.

Section patch.
Context (X Y : string).
Notation pv := (py_patch X Y).

Lemma compare_patch m n : py_compare (pv m) (pv n) = Nat.compare m n.
Proof.
  unfold py_compare, py_patch; simpl. unfold cmpRelease; simpl.
  rewrite !cmpNum_refl, cmpNum_itoa; simpl. by destruct (m ?= n).
Qed.

Lemma patch_mono m n s : m ≤ n →
  (py_compare (pv m) s ≠ Lt → py_compare (pv n) s ≠ Lt) ∧
  (py_compare (pv m) s = Gt → py_compare (pv n) s = Gt).
Proof.
  intros Hmn. assert (Hle : py_compare (pv m) (pv n) ≠ Gt).
  { rewrite compare_patch. by apply Nat.compare_le_iff. }
  split.
  - intros H Hl. apply H. by apply (cmp_le_lt_trans py_compare _ (pv n)).
  - intros H%(cmp_gt_lt py_compare). apply (cmp_gt_lt py_compare).
    by apply (cmp_lt_le_trans py_compare _ (pv m)).
Qed.

Lemma patch_eq_names n s : n ≠ 0 → py_compare (pv n) s = Eq → names_patch X Y s = true.
Proof.
  intros Hn. unfold py_compare. rewrite !lexc_eq. intros (He & Hr & _). apply cmpNum_Eq in He.
  cbn [py_patch py_release py_epoch] in *. unfold names_patch. rewrite <- He.
  assert (Hi : cmpNum (itoa (N.of_nat n)) "0" ≠ Eq).
  { intros H%cmpNum_Eq. change "0" with (itoa (N.of_nat 0)) in H. by apply itoa_inj in H. }
  unfold cmpRelease in Hr. destruct (py_release s) as [|x [|y [|z r]]]; simpl in Hr;
    rewrite !lexc_eq in Hr; try (by destruct Hr as (_ & _ & ? & _)).
  destruct Hr as (->%cmpNum_Eq & ->%cmpNum_Eq & _). by rewrite !String.eqb_refl.
Qed.

(** A prefix that tells two patch levels apart names one. *)
Lemma prefix_differs m n p :
  releasePrefixEqual (py_release (pv m)) p ≠ releasePrefixEqual (py_release (pv n)) p →
  ∃ z r, p = X :: Y :: z :: r.
Proof.
  destruct p as [|x [|y [|z r]]]; simpl; try done.
  destruct (String.eqb_spec X x) as [->|], (String.eqb_spec Y y) as [->|]; try done. by exists z, r.
Qed.

Lemma prefix_third n z r : releasePrefixEqual (py_release (pv n)) (X :: Y :: z :: r) = true → z = itoa (N.of_nat n).
Proof.
  simpl. rewrite !String.eqb_refl. cbn [andb]. intros [H _]%andb_true_iff. by apply String.eqb_eq in H.
Qed.

(** Two patch levels do not both begin with a prefix that names one, and do
    not both equal one version. *)
Lemma prefix_two m n z r : m ≠ n →
  releasePrefixEqual (py_release (pv m)) (X :: Y :: z :: r) = true →
  releasePrefixEqual (py_release (pv n)) (X :: Y :: z :: r) = true → False.
Proof. intros Hmn Hm%prefix_third Hn%prefix_third. apply Hmn, itoa_inj. congruence. Qed.

Lemma equal_two m n s : m ≠ n → py_compare (pv m) s = Eq → py_compare (pv n) s = Eq → False.
Proof.
  intros Hmn Hm Hn. apply Hmn, Nat.compare_eq_iff. rewrite <- compare_patch.
  rewrite (cmp_eq_l py_compare _ s) by done. by apply (cmp_eq_sym py_compare).
Qed.

(** The equality test of a clause. *)
Definition clause_equal (v : pyVersion) (cl : pyClause) : bool :=
  if pc_wildcard cl
  then String.eqb (py_epoch v) (py_epoch (pc_version cl)) && releasePrefixEqual (py_release v) (py_release (pc_version cl))
  else is_eq (py_compare v (pc_version cl)).

Definition clause_compatible (v s : pyVersion) : bool :=
  is_ge (py_compare v s) && String.eqb (py_epoch v) (py_epoch s) &&
  releasePrefixEqual (py_release v) (removelast (py_release s)).

Lemma clause_met_patch n cl : clause_met (pv n) cl =
  if String.eqb (pc_op cl) "==" then clause_equal (pv n) cl
  else if String.eqb (pc_op cl) "!=" then negb (clause_equal (pv n) cl)
  else if String.eqb (pc_op cl) ">=" then is_ge (py_compare (pv n) (pc_version cl))
  else if String.eqb (pc_op cl) "<=" then is_le (py_compare (pv n) (pc_version cl))
  else if String.eqb (pc_op cl) ">" then is_gt (py_compare (pv n) (pc_version cl))
  else if String.eqb (pc_op cl) "<" then is_lt (py_compare (pv n) (pc_version cl))
  else if String.eqb (pc_op cl) "~=" then clause_compatible (pv n) (pc_version cl)
  else false.
Proof.
  unfold clause_met, clause_equal, clause_compatible. rewrite candidate_patch.
  assert (H1 : py_hasPost (pv n) = false) by done. assert (H2 : py_isPrerelease (pv n) = false) by done.
  rewrite H1, H2, !andb_false_r. cbn [andb negb]. by rewrite !andb_true_r.
Qed.

Lemma clause_equal_self cl : clause_equal (pc_version cl) cl = true.
Proof.
  unfold clause_equal. destruct (pc_wildcard cl).
  - rewrite String.eqb_refl. rewrite <- (List.app_nil_r (py_release _)) at 1. apply releasePrefixEqual_self.
  - by rewrite (cmp_refl py_compare).
Qed.

Lemma clause_compatible_self s : clause_compatible s s = true.
Proof.
  unfold clause_compatible. by rewrite (cmp_refl py_compare), String.eqb_refl, releasePrefixEqual_removelast.
Qed.

(** A test of equality, or of compatibility, that two patch levels answer
    differently names a patch level. *)
Lemma equal_const cl N n b : 0 < N → n ≤ N →
  clause_equal (pv 0) cl = b → clause_equal (pv N) cl = b →
  (names_patch X Y (pc_version cl) = true → b = true) → clause_equal (pv n) cl = b.
Proof.
  intros HN Hn H0 H1 Hnames. destruct (Bool.bool_dec (clause_equal (pv n) cl) b) as [|Hne]; [done|exfalso].
  unfold clause_equal in *. destruct cl as [op s w]; cbn [pc_wildcard pc_version] in *. destruct w.
  - destruct (String.eqb_spec (py_epoch (pv n)) (py_epoch s)) as [He|]; cbn [py_patch py_epoch] in *; [|simplify_eq/=].
    2: { destruct (String.eqb_spec "0" (py_epoch s)); simplify_eq/=. }
    rewrite <- He in *. cbn [String.eqb Ascii.eqb Bool.eqb andb] in *. rewrite <- H0 in Hne.
    destruct (prefix_differs _ _ _ Hne) as (z & r & Hr). assert (Hb : b = true).
    { apply Hnames. unfold names_patch. rewrite <- He, Hr. by rewrite !String.eqb_refl. }
    rewrite Hr, Hb in *. by apply (prefix_two 0 N z r); [lia|..].
  - destruct b.
    + apply (equal_two 0 N s); [lia|..].
      * by destruct (py_compare (pv 0) s).
      * by destruct (py_compare (pv N) s).
    + destruct (decide (n = 0)) as [->|Hn0]; [congruence|].
      assert (names_patch X Y s = true); [|naive_solver].
      apply (patch_eq_names n); [done|]. by destruct (py_compare (pv n) s).
Qed.

Lemma compatible_const s N n b : 0 < N → n ≤ N →
  clause_compatible (pv 0) s = b → clause_compatible (pv N) s = b →
  (names_patch X Y s = true → b = true) → clause_compatible (pv n) s = b.
Proof.
  intros HN Hn H0 H1 Hnames. unfold clause_compatible in *. cbn [py_patch py_epoch] in *.
  destruct (String.eqb_spec "0" (py_epoch s)) as [He|]; [|by rewrite !andb_false_r in *].
  rewrite !andb_true_r in *.
  assert (Hshape : ∀ i j, releasePrefixEqual (py_release (pv i)) (removelast (py_release s)) ≠
                          releasePrefixEqual (py_release (pv j)) (removelast (py_release s)) → False).
  { intros i j Hne. destruct (prefix_differs _ _ _ Hne) as (z & r & Hr).
    assert (Hb : b = true).
    { apply Hnames. unfold names_patch. rewrite <- He. clear -Hr.
      destruct (py_release s) as [|x [|y [|z' r']]]; try discriminate Hr.
      simpl in Hr. destruct r'; injection Hr as -> ->; by rewrite !String.eqb_refl. }
    rewrite Hb in *. apply andb_true_iff in H0 as [_ H0], H1 as [_ H1]. rewrite Hr in *.
    by apply (prefix_two 0 N z r); [lia|..]. }
  destruct (releasePrefixEqual (py_release (pv 0)) (removelast (py_release s))) eqn:E0,
           (releasePrefixEqual (py_release (pv N)) (removelast (py_release s))) eqn:E1,
           (releasePrefixEqual (py_release (pv n)) (removelast (py_release s))) eqn:En;
    try (by exfalso; apply (Hshape 0 N); rewrite E0, E1);
    try (by exfalso; apply (Hshape 0 n); rewrite E0, En);
    rewrite ?andb_false_r, ?andb_true_r in *; [|done].
  destruct b.
  - destruct (patch_mono 0 n s) as [Hm _]; [lia|].
    destruct (py_compare (pv 0) s), (py_compare (pv n) s); naive_solver.
  - destruct (patch_mono n N s) as [Hm _]; [lia|].
    destruct (py_compare (pv n) s), (py_compare (pv N) s); naive_solver.
Qed.

(** What a clause answers about its own version. *)
Lemma clause_met_self cl :
  (pc_op cl = "==" → clause_met (pc_version cl) cl = true) ∧
  (pc_op cl = "!=" → clause_met (pc_version cl) cl = false) ∧
  (pc_op cl = "~=" → clause_met (pc_version cl) cl = true).
Proof.
  unfold clause_met. rewrite candidate_self.
  pose proof (clause_equal_self cl) as He. pose proof (clause_compatible_self (pc_version cl)) as Hc.
  unfold clause_equal in He. unfold clause_compatible in Hc. rewrite He, Hc.
  split_and!; intros ->; reflexivity.
Qed.

(** A clause that gives one answer at the lowest and at a high patch level, and
    at the version it names, gives it at every one in between. *)
Lemma clause_between cl N n b : 0 < N → n ≤ N →
  clause_met (pv 0) cl = b → clause_met (pv N) cl = b →
  (names_patch X Y (pc_version cl) = true → clause_met (pc_version cl) cl = b) →
  clause_met (pv n) cl = b.
Proof.
  intros HN Hn. rewrite !clause_met_patch. destruct (clause_met_self cl) as (Seq & Sne & Sco).
  destruct (patch_mono 0 n (pc_version cl)) as [L1 L2]; [lia|].
  destruct (patch_mono n N (pc_version cl)) as [U1 U2]; [lia|].
  destruct (String.eqb_spec (pc_op cl) "==") as [E|_].
  { rewrite Seq by done. intros. apply (equal_const cl N); auto. intros Hs. symmetry. auto. }
  destruct (String.eqb_spec (pc_op cl) "!=") as [E|_].
  { rewrite Sne by done. intros H0 H1 Hs. rewrite <- (negb_involutive b). f_equal.
    apply (equal_const cl N); [done..|by rewrite <- H0, negb_involutive|by rewrite <- H1, negb_involutive|].
    intros Hk. by rewrite <- (Hs Hk). }
  repeat (match goal with |- context [String.eqb (pc_op cl) ?o] =>
    destruct (String.eqb_spec (pc_op cl) o) as [?|_] end;
    [intros H0 H1 Hs; first
       [ by apply (compatible_const _ N); auto; intros Hk; rewrite <- Hs by done; rewrite Sco
       | destruct b, (py_compare (pv 0) _), (py_compare (pv N) _), (py_compare (pv n) _); naive_solver ]|]).
  done.
Qed.
End patch.

(** ** Reading a clause *)

Lemma first_full_app l k : first_full (l ++ k) = match first_full l with Some c => Some c | None => first_full k end.
Proof. induction l as [|[[|d s] c] l IH]; simpl; auto. Qed.

Lemma first_full_unique l c : ("", c) ∈ l → (∀ c', ("", c') ∈ l → c' = c) → first_full l = Some c.
Proof.
  intros Hc Hu. destruct (first_full l) as [c'|] eqn:E.
  - f_equal. apply Hu. by apply first_full_Some.
  - by apply (first_full_None _ c) in E.
Qed.

Definition nonspace (c : ascii) : bool := negb (re_space c).

(** The part of [pipClauseRE] after the operator, on a text without spaces. *)
Definition clause_tail : re := RSeqs [RStar (RClass re_space); RGroup 2 (RPlus (RClass nonspace))].

Lemma sforallb_both p s : sforallb p s = true → sforallb (λ c, negb (p c)) s = true → s = "".
Proof.
  destruct s as [|d s]; [done|]. cbn [sforallb]. intros [Hd _]%andb_prop [Hn _]%andb_prop.
  by rewrite Hd in Hn.
Qed.

Lemma clause_tail_cap w c c' : sforallb nonspace w = true →
  re_cap clause_tail w c c' → c' = (2, w) :: c.
Proof.
  intros Hw Hcap. unfold clause_tail in Hcap. cbn [RSeqs] in Hcap.
  apply cap_seq_inv in Hcap as (s1 & s2 & c1 & -> & H1 & H2).
  apply cap_class_star in H1 as [Hs1 ->]. rewrite sforallb_app in Hw. apply andb_prop in Hw as [Hw1 Hw2].
  apply sforallb_both in Hs1 as ->; [|done]. rewrite app_nil_l in *.
  apply cap_group_inv in H2 as (c2 & -> & H2). by apply cap_class_plus in H2 as (_ & _ & ->).
Qed.

Lemma clause_tail_word w c : w ≠ "" → sforallb nonspace w = true →
  first_full (mt clause_tail w c) = Some ((2, w) :: c).
Proof.
  intros Hne Hw.
  assert (Hall : ∀ c', ("", c') ∈ mt clause_tail w c → c' = (2, w) :: c).
  { intros c' Hc'. apply mt_sound in Hc' as (u & Hu & Hcap). rewrite app_nil_r in Hu. subst u.
    by apply clause_tail_cap. }
  apply first_full_unique; [|done].
  destruct (mt_complete clause_tail w "" c) as (c' & Hc').
  { unfold clause_tail. cbn [RSeqs]. rewrite <- (app_nil_l w). apply lang_seq; [constructor|].
    constructor. by apply lang_class_plus. }
  rewrite app_nil_r in Hc'. by rewrite <- (Hall c' Hc').
Qed.

Lemma stake_sub a b : stake (slen (a +:+ b) - slen b) (a +:+ b) = a.
Proof. rewrite slen_app, Nat.add_sub. apply stake_app. Qed.

(** A literal matches a prefix, and a choice of literals the prefixes among
    them, in their order. *)
Lemma mt_lit p s c : mt (RLit p) s c = if has_prefix s p then [(sdrop (slen p) s, c)] else [].
Proof.
  revert s c. induction p as [|d p IH]; intros s c; [by destruct s|].
  destruct p as [|e p].
  - destruct s as [|x s]; [done|]. cbn [RLit mt RChar has_prefix sdrop String.length].
    rewrite (Ascii.eqb_sym d x). destruct (Ascii.eqb x d); [|done]. by destruct s.
  - change (mt (RLit (String d (String e p))) s c) with
      (mt (RChar d) s c ≫= λ '(s', c'), mt (RLit (String e p)) s' c').
    destruct s as [|x s]; [done|]. cbn [mt RChar].
    change (has_prefix (String x s) (String d (String e p))) with (Ascii.eqb x d && has_prefix s (String e p)).
    rewrite (Ascii.eqb_sym d x). destruct (Ascii.eqb x d); [|done].
    change ([(s, c)] ≫= λ '(s', c'), mt (RLit (String e p)) s' c') with (mt (RLit (String e p)) s c ++ []).
    rewrite List.app_nil_r. apply IH.
Qed.

Lemma mt_alts l s c : l ≠ [] → mt (RAlts l) s c = l ≫= λ r, mt r s c.
Proof.
  induction l as [|r [|r' l] IH]; intros Hne; [done| |].
  - change (mt (RAlts [r]) s c) with (mt r s c).
    change ([r] ≫= λ r, mt r s c) with (mt r s c ++ []). by rewrite List.app_nil_r.
  - change (mt (RAlts (r :: r' :: l)) s c) with (mt r s c ++ mt (RAlts (r' :: l)) s c).
    rewrite IH by done. done.
Qed.

Definition clause_head : re := RGroup 1 (RAlts (RLit <$> specifier_ops)).

Lemma lits_first ops s c op : List.find (λ o, has_prefix s o) ops = Some op →
  ∃ rest, ((RLit <$> ops) ≫= λ r, mt r s c) = (sdrop (slen op) s, c) :: rest.
Proof.
  induction ops as [|o ops IH]; [done|]. cbn [List.find].
  change ((RLit <$> o :: ops) ≫= λ r, mt r s c) with (mt (RLit o) s c ++ ((RLit <$> ops) ≫= λ r, mt r s c)).
  rewrite mt_lit. destruct (has_prefix s o); [|exact IH]. intros [= ->]. by eexists.
Qed.

(** A clause without spaces is read as its operator and the rest. *)
Lemma pipClauseRE_word c op w : List.find (λ o, has_prefix c o) specifier_ops = Some op →
  c = op +:+ w → w ≠ "" → sforallb nonspace w = true →
  find_full pipClauseRE c = Some [(2, w); (1, op)].
Proof.
  intros Hop Hc Hne Hw. unfold find_full. change pipClauseRE with (RSeq clause_head clause_tail).
  change (mt (RSeq clause_head clause_tail) c []) with
    (((λ '(s', c'), (s', (1, stake (slen c - slen s') c) :: c')) <$> mt (RAlts (RLit <$> specifier_ops)) c [])
       ≫= λ '(s', c'), mt clause_tail s' c').
  rewrite mt_alts by done. destruct (lits_first _ _ [] _ Hop) as (rest & ->).
  change (((?x :: rest) ≫= ?f)) with (f x ++ (rest ≫= f)). cbn [fmap list_fmap].
  change (((?x :: ?r) ≫= ?f)) with (f x ++ (r ≫= f)). cbn beta iota.
  assert (Hd : sdrop (slen op) c = w) by (rewrite Hc; apply sdrop_app).
  rewrite Hd, Hc, stake_sub, first_full_app. by rewrite clause_tail_word.
Qed.

(** ** What the loops compute *)

Section specifier.
Context `{U : GoUnicode}.

Definition clause_valid (c : string) : bool := snd (parseSpecifierClause c).
Definition clause_of (c : string) : pyClause := fst (fst (parseSpecifierClause c)).

Lemma satisfies_loop_spec v l ok :
  satisfies_loop v l ok =
  if forallb clause_valid l then (ok && forallb (λ c, clause_met v (clause_of c)) l, true) else (false, false).
Proof.
  revert ok. induction l as [|c l IH]; intros ok; simpl; [by rewrite andb_true_r|].
  unfold clause_valid at 1, clause_of at 1. destruct (parseSpecifierClause c) as [[cl g] valid]; simpl.
  destruct valid; simpl; [|done]. rewrite IH. destruct (forallb _ l); [|done].
  by destruct (clause_met v cl), ok.
Qed.

(** A specifier within the bounds is satisfied exactly when all its clauses are
    valid and met. *)
Lemma pySatisfies_true v norm : norm ≠ "" →
  pySatisfies v norm = (true, true) ↔
  slen norm ≤ maxSpecifierBytes ∧ count_byte ","%char norm < maxSpecifierClauses ∧
  Forall (λ c, clause_valid c = true ∧ clause_met v (clause_of c) = true) (split_byte ","%char norm).
Proof.
  intros Hne. unfold pySatisfies. rewrite (proj2 (String.eqb_neq _ _) Hne).
  destruct (Nat.ltb_spec maxSpecifierBytes (slen norm)) as [H1|H1]; [simpl; split; [done|lia]|].
  destruct (Nat.leb_spec maxSpecifierClauses (count_byte ","%char norm)) as [H2|H2]; [simpl; split; [done|lia]|].
  cbn [orb]. rewrite satisfies_loop_spec. cbn [andb].
  rewrite Forall_and, <- !forallb_True.
  destruct (forallb clause_valid _), (forallb _ (split_byte _ _)); naive_solver.
Qed.

Lemma sample_results_spec norm samples rs :
  sample_results norm samples = Some rs →
  Forall2 (λ s r, ∃ v, parsePEP440 s = Some v ∧ pySatisfies v norm = (r, true)) samples rs.
Proof.
  revert rs. induction samples as [|s samples IH]; intros rs; simpl; [intros [= <-]; constructor|].
  destruct (parsePEP440 s) as [v|] eqn:Ev; [|done]. simpl.
  destruct (pySatisfies v norm) as [ok ev] eqn:Es. destruct ev; [|done]. simpl.
  destruct (sample_results norm samples) as [rs'|]; [|done]. simpl. intros [= <-].
  constructor; [by exists v|by apply IH].
Qed.

(** A specifier is allowed for a minor when every sample satisfies it. *)
Lemma pythonMinorAllows_yes spec minor norm : normalizeSpecifier spec = Some norm → norm ≠ "" →
  pythonMinorAllows spec minor = (true, true) →
  Forall (λ s, ∃ v, parsePEP440 s = Some v ∧ pySatisfies v norm = (true, true)) (patch_samples norm minor).
Proof.
  intros Hn Hne. unfold pythonMinorAllows. rewrite Hn, (proj2 (String.eqb_neq _ _) Hne).
  destruct (sample_results norm _) as [[|r rest]|] eqn:E; [done| |done].
  destruct (forallb (Bool.eqb r) rest) eqn:Hr; [|done]. intros [= ->].
  apply sample_results_spec in E. apply forallb_True in Hr.
  assert (Hall : Forall (λ b, b = true) (true :: rest)).
  { constructor; [done|]. eapply Forall_impl; [exact Hr|]. intros b. by destruct b. }
  clear Hr. revert Hall. induction E as [|s b ss bs (v & Hv & Hs) _ IH]; [constructor|].
  intros [-> Hall]%Forall_cons. constructor; [by exists v|auto].
Qed.

(** ** The patch levels of X.Y *)

Definition minor_of (X Y : string) : string := X +:+ "." +:+ Y.
Definition patch_text (X Y : string) (n : nat) : string := minor_of X Y +:+ "." +:+ itoa (N.of_nat n).

Lemma trimZeros_id s : canonical s = true → trimZeros s = s.
Proof.
  intros H. apply canonical_inj; [|done|apply trimZeros_val].
  by apply trimZeros_canonical, canonical_digits.
Qed.

Lemma canonical_isDigits s : canonical s = true → isDigits s = true.
Proof. intros [H1 H2]%canonical_digits. by apply isDigits_spec. Qed.

Lemma parse_patch X Y n : canonical X = true → canonical Y = true →
  parsePEP440 (patch_text X Y n) = Some (py_patch X Y n).
Proof.
  intros HX HY. pose proof (proj1 (itoa_spec (N.of_nat n))) as Hn.
  assert (Ht : patch_text X Y n = dotted [X; Y; itoa (N.of_nat n)]).
  { unfold patch_text, minor_of, dotted, join. cbn [String.concat]. by rewrite !app_assoc_s. }
  rewrite Ht, parsePEP440_dotted.
  - unfold py_patch. cbn [fmap list_fmap]. by rewrite !trimZeros_id.
  - apply dotted_ok_Forall. split; [done|]. repeat constructor; by apply canonical_isDigits.
Qed.

(** A clause of ASCII text without spaces that, when its version names a patch
    level of X.Y, begins it with the text X.Y. *)
Definition plain_clause (X Y c : string) : bool :=
  sforallb word_byte c &&
  (negb (names_patch X Y (pc_version (clause_of c))) ||
   has_prefix (trim_suffix (trim_prefix c (leading_op c)) ".*") (minor_of X Y +:+ ".")).

Lemma word_nonspace s : sforallb word_byte s = true → sforallb nonspace s = true.
Proof.
  apply sforallb_impl. intros c [_ Hc]%andb_prop. unfold nonspace, re_space.
  apply negb_true_iff in Hc. unfold is_space_cp in Hc. apply negb_true_iff.
  destruct c as [[] [] [] [] [] [] [] []]; try reflexivity; by vm_compute in Hc.
Qed.

(** A valid clause is its operator, then its version. *)
Lemma clause_valid_parts c : sforallb word_byte c = true → clause_valid c = true →
  ∃ op w, List.find (λ o, has_prefix c o) specifier_ops = Some op ∧ c = op +:+ w ∧ w ≠ "" ∧
          trim_prefix c (leading_op c) = w ∧ sforallb word_byte w = true ∧
          parsePEP440 (trim_suffix w ".*") = Some (pc_version (clause_of c)) ∧
          str_contains (trim_suffix w ".*") "*" = false.
Proof.
  intros Hc. unfold clause_valid, clause_of, parseSpecifierClause.
  destruct (List.find (λ o, has_prefix c o) specifier_ops) as [op|] eqn:Hop.
  2: { unfold leading_op. rewrite Hop. done. }
  assert (Hlead : leading_op c = op) by (unfold leading_op; by rewrite Hop). rewrite Hlead.
  apply List.find_some in Hop as Hp. destruct Hp as [_ Hp].
  assert (Hw : trim_prefix c op = sdrop (slen op) c) by (unfold trim_prefix; by rewrite Hp).
  apply has_prefix_split in Hp. set (w := sdrop (slen op) c) in *. rewrite Hw.
  assert (Hword : sforallb word_byte w = true).
  { rewrite Hp, sforallb_app in Hc. by apply andb_prop in Hc as [_ ?]. }
  rewrite (trim_space_word w Hword).
  destruct (String.eqb_spec op "") as [->|_]; [done|].
  destruct (String.eqb_spec w "") as [->|Hne]; [done|]. cbn [orb].
  destruct (String.eqb_spec op "==="); [done|].
  destruct (has_suffix w ".*" && negb (equality_op op)); [done|].
  destruct (has_suffix w ".*" && negb (match_full _ _)); [done|].
  replace (if has_suffix w ".*" then trim_suffix w ".*" else w) with (trim_suffix w ".*")
    by (unfold trim_suffix; by destruct (has_suffix w ".*")).
  destruct (parsePEP440 (trim_suffix w ".*")) as [v|] eqn:Ev; [|done].
  destruct (str_contains (trim_suffix w ".*") "*") eqn:Est; [done|].
  destruct (_ && _); [done|]. destruct (_ && _); [done|]. intros _. exists op, w. by split_and!.
Qed.


(** The patch level a clause names is among the samples. *)
Lemma named_patch_clause X Y c : plain_clause X Y c = true → clause_valid c = true →
  names_patch X Y (pc_version (clause_of c)) = true →
  ∃ lit, lit ∈ named_patch (minor_of X Y) c ∧ parsePEP440 lit = Some (pc_version (clause_of c)).
Proof.
  unfold plain_clause. intros [Hc Hp]%andb_prop Hv Hn. rewrite Hn in Hp. cbn [negb orb] in Hp.
  destruct (clause_valid_parts c Hc Hv) as (op & w & Hop & Hcw & Hne & Htp & Hword & Hparse & _).
  rewrite Htp in Hp. exists (trim_suffix w ".*"). split; [|done].
  unfold named_patch. rewrite (pipClauseRE_word c op w Hop Hcw Hne (word_nonspace w Hword)).
  cbn [group Nat.eqb]. rewrite Hp. by apply list_elem_of_singleton.
Qed.

(** The specifiers [pythonMinorAllows] reads right: bounded, and made of plain
    clauses. *)
Definition plain_spec (X Y norm : string) : bool :=
  forallb (plain_clause X Y) (split_byte ","%char norm).

(** When [pythonMinorAllows] says that a minor of Python is allowed, every
    one of its patch levels up to the sampled bound satisfies the specifier, not
    only those it tried: nothing the specifier says of a single patch level is
    overlooked. *)
Theorem pythonMinorAllows_sound spec norm X Y n :
  canonical X = true → canonical Y = true →
  normalizeSpecifier spec = Some norm → plain_spec X Y norm = true →
  pythonMinorAllows spec (minor_of X Y) = (true, true) → n ≤ 9999 →
  ∃ v, parsePEP440 (patch_text X Y n) = Some v ∧ pySatisfies v norm = (true, true).
Proof.
  intros HX HY Hnorm Hplain Hallow Hn. exists (py_patch X Y n). split; [by apply parse_patch|].
  destruct (decide (norm = "")) as [->|Hne]; [done|].
  pose proof (pythonMinorAllows_yes _ _ _ Hnorm Hne Hallow) as Hs.
  unfold patch_samples in Hs. apply Forall_app in Hs as [Hends Hnamed].
  apply Forall_cons in Hends as [(v0 & E0 & S0) (v1 & E1 & S1)%Forall_singleton].
  change (minor_of X Y +:+ ".0") with (patch_text X Y 0) in E0.
  change (minor_of X Y +:+ ".9999") with (patch_text X Y 9999) in E1.
  rewrite parse_patch in E0, E1 by done. simplify_eq.
  apply pySatisfies_true in S0 as (Hb & Hc & H0); [|done]. apply pySatisfies_true in S1 as (_ & _ & H1); [|done].
  apply pySatisfies_true; [done|]. split_and!; [done..|].
  unfold plain_spec in Hplain. apply forallb_True in Hplain.
  rewrite Forall_forall in *. intros c Hin. destruct (H0 c Hin) as [Hv M0], (H1 c Hin) as [_ M1].
  split; [done|]. apply (clause_between X Y _ 9999); [apply Nat.lt_0_succ|done|done|done|].
  intros Hnames. destruct (named_patch_clause X Y c) as (lit & Hlit & Hp); auto.
  destruct (Hnamed lit) as (v & Hv' & Hs).
  { apply list_elem_of_bind. by exists c. }
  rewrite Hp in Hv'. injection Hv' as <-. apply pySatisfies_true in Hs as (_ & _ & Hs); [|done].
  rewrite Forall_forall in Hs. by apply Hs.
Qed.
End specifier.

Definition example_spec : string := ">=3.8, !=3.11.*, <4".

Lemma pythonMinorAllows_sound_witness :
  pythonMinorAllows example_spec "3.12" = (true, true) ∧
  ∃ v, parsePEP440 (patch_text "3" "12" 4321) = Some v ∧ pySatisfies v ">=3.8,!=3.11.*,<4" = (true, true).
Proof.
  split; [by vm_compute|].
  apply (pythonMinorAllows_sound example_spec ">=3.8,!=3.11.*,<4" "3" "12" 4321); try by vm_compute.
  apply (Nat.leb_le 4321 9999). by vm_compute.
Defined.

(** The other answer is not sound in general: no sample satisfies
    [>3.12.3,<3.12.5], and 3.12.4 does. *)
Lemma pythonMinorAllows_gap :
  pythonMinorAllows ">3.12.3,<3.12.5" "3.12" = (false, true) ∧
  pySatisfies (py_patch "3" "12" 4) ">3.12.3,<3.12.5" = (true, true).
Proof. split; by vm_compute. Qed.
