(* ===== verification/PyMarker.v ===== *)
(** * PyMarker: environment markers of Python requirements

    internal/remediation/lang_marker.go: the tokens, the parser and the
    three-valued evaluation of PEP 508 markers, and the requirement strings that
    carry them. The parser evaluates as it reads; [parser_exact] gives it a
    grammar, as trees with their own printing and meaning. A marker is decided
    in an environment known only in part; [eval_sound] says that what is decided
    holds in every environment that agrees with the known part. *)

From Stdlib Require Import ZArith Lia Bool Ascii String List.
From stdpp Require Import base gmap strings list.
From S2P Require Import Prelude GoStrings GoRegexp Reference Decimals Semver GoText Pep440 PySpec.

Open Scope string_scope.
Open Scope nat_scope.
Open Scope list_scope.
Open Scope kl_scope.

(** ** Results *)

Inductive markerError :=
  | MarkerTooLong | MarkerTooManyTokens | MarkerUnterminated | MarkerBadCharacter
  | MarkerTrailing | MarkerTooDeep | MarkerUnclosed | MarkerNoOperand | MarkerNoOperator
  | errMarkerBudget | MarkerContext | errMarkerUnknown | MarkerBadRequirement
  | MarkerNoFuel.

(** A value or an error, with the fields of the budget beside it where the code
    changes them. [MarkerNoFuel] stands for a loop of the model that was not
    given enough rounds, which [markerTokens_fuel] and [p_or_fuel] exclude. *)
Inductive outcome (A : Type) := Ok (a : A) | Err (e : markerError).
Arguments Ok {A} a.
Arguments Err {A} e.

#[export] Instance outcome_bind : MBind outcome := λ A B f o,
  match o with Ok a => f a | Err e => Err e end.

Inductive tri := triFalse | triTrue | triUnknown.

#[export] Instance tri_eq_dec : EqDecision tri.
Proof. solve_decision. Defined.

Definition triOf (b : bool) : tri := if b then triTrue else triFalse.

(** The switches of [or] and [and]. *)
Definition tri_or (l r : tri) : tri :=
  match l, r with
  | triTrue, _ | _, triTrue => triTrue
  | triUnknown, _ | _, triUnknown => triUnknown
  | _, _ => triFalse
  end.

Definition tri_and (l r : tri) : tri :=
  match l, r with
  | triFalse, _ | _, triFalse => triFalse
  | triUnknown, _ | _, triUnknown => triUnknown
  | _, _ => triTrue
  end.

(** ** Tokens *)

Inductive markerTok := TStr (val : string) | TWord (val : string) | TOp (val : string) | TOpen | TClose.

#[export] Instance markerTok_eq_dec : EqDecision markerTok.
Proof. solve_decision. Defined.

Definition maxMarkerBytes : nat := 4096.
Definition maxMarkerTokens : nat := 512.

Definition is_op_byte (c : ascii) : bool := contains_byte c "=!<>~".
Definition is_word_byte (c : ascii) : bool := Ascii.eqb c "_"%char || Ascii.eqb c "."%char || is_alnum c.
Definition is_quote (c : ascii) : bool := Ascii.eqb c "034"%char || Ascii.eqb c "'"%char.

(** The bytes from the front that satisfy [p], and the rest. *)
Fixpoint span_bytes (p : ascii → bool) (s : string) : string * string :=
  match s with
  | EmptyString => ("", "")
  | String c s' =>
      if p c then let '(w, t) := span_bytes p s' in (String c w, t) else ("", s)
  end.

(** The loop: [s] is what is left of the marker, [out] the tokens so far in
    reverse. *)
Fixpoint tokens_loop (fuel : nat) (s : string) (out : list markerTok) : outcome (list markerTok) :=
  match s with
  | EmptyString => Ok (rev out)
  | String c s' =>
      match fuel with
      | O => Err MarkerNoFuel
      | S f =>
          if maxMarkerTokens <? length out then Err MarkerTooManyTokens
          else if Ascii.eqb c " "%char || Ascii.eqb c "009"%char then tokens_loop f s' out
          else if Ascii.eqb c "("%char then tokens_loop f s' (TOpen :: out)
          else if Ascii.eqb c ")"%char then tokens_loop f s' (TClose :: out)
          else if is_quote c then
            match index_byte s' c with
            | None => Err MarkerUnterminated
            | Some j => tokens_loop f (sdrop (S j) s') (TStr (stake j s') :: out)
            end
          else if is_op_byte c then
            let '(w, t) := span_bytes is_op_byte s in tokens_loop f t (TOp w :: out)
          else if is_word_byte c then
            let '(w, t) := span_bytes is_word_byte s in tokens_loop f t (TWord w :: out)
          else Err MarkerBadCharacter
      end
  end.

Definition markerTokens (s : string) : outcome (list markerTok) :=
  if maxMarkerBytes <? slen s then Err MarkerTooLong else tokens_loop (slen s) s [].

(** ** The parser *)

Record markerOperand := mk_operand { mo_variable : bool; mo_name : string; mo_literal : string }.

Definition keyword (w : string) : bool :=
  String.eqb w "and" || String.eqb w "or" || String.eqb w "in" || String.eqb w "not".

(** The methods take the tokens from the position on and give those after it. *)
Definition operand (toks : list markerTok) : option (markerOperand * list markerTok) :=
  match toks with
  | TStr v :: rest => Some (mk_operand false "" v, rest)
  | TWord w :: rest => if keyword w then None else Some (mk_operand true w "", rest)
  | _ => None
  end.

Definition comparison_op (v : string) : bool :=
  existsb (String.eqb v) ["=="; "!="; "<"; "<="; ">"; ">="; "~="; "==="].

Definition operator (toks : list markerTok) : option (string * list markerTok) :=
  match toks with
  | TOp v :: rest => if comparison_op v then Some (v, rest) else None
  | TWord w :: rest =>
      if String.eqb w "in" then Some ("in", rest)
      else if String.eqb w "not" then
        match rest with
        | TWord w' :: rest => if String.eqb w' "in" then Some ("not in", rest) else None
        | _ => None
        end
      else None
  | _ => None
  end.

(** [p.peek()] is the word [w]: the tokens after it. *)
Definition peek_word (w : string) (toks : list markerTok) : option (list markerTok) :=
  match toks with
  | TWord v :: rest => if String.eqb v w then Some rest else None
  | _ => None
  end.

Section parser.
(** [p.env.compare] *)
Variable compare : markerOperand → string → markerOperand → tri.

(** The end of [atom]: a comparison. *)
Definition p_comparison (toks : list markerTok) : outcome (tri * list markerTok) :=
  match operand toks with
  | None => Err MarkerNoOperand
  | Some (lo, toks) =>
      match operator toks with
      | None => Err MarkerNoOperator
      | Some (op, toks) =>
          match operand toks with
          | None => Err MarkerNoOperand
          | Some (ro, toks) => Ok (compare lo op ro, toks)
          end
      end
  end.

Section level.
(** [or] one parenthesis further in; [None] where that one is too deep. *)
Variable or_inside : option (list markerTok → outcome (tri * list markerTok)).

Definition p_atom (toks : list markerTok) : outcome (tri * list markerTok) :=
  match toks with
  | TOpen :: rest =>
      match or_inside with
      | None => Err MarkerTooDeep
      | Some p_or =>
          '(v, rest) ← p_or rest;
          match rest with
          | TClose :: rest => Ok (v, rest)
          | _ => Err MarkerUnclosed
          end
      end
  | _ => p_comparison toks
  end.

Fixpoint and_loop (fuel : nat) (l : tri) (toks : list markerTok) : outcome (tri * list markerTok) :=
  match peek_word "and" toks with
  | Some rest =>
      match fuel with
      | O => Err MarkerNoFuel
      | S f => '(r, rest) ← p_atom rest; and_loop f (tri_and l r) rest
      end
  | None => Ok (l, toks)
  end.

Definition p_and (toks : list markerTok) : outcome (tri * list markerTok) :=
  '(l, rest) ← p_atom toks; and_loop (length rest) l rest.

Fixpoint or_loop (fuel : nat) (l : tri) (toks : list markerTok) : outcome (tri * list markerTok) :=
  match peek_word "or" toks with
  | Some rest =>
      match fuel with
      | O => Err MarkerNoFuel
      | S f => '(r, rest) ← p_and rest; or_loop f (tri_or l r) rest
      end
  | None => Ok (l, toks)
  end.

Definition p_or_at (toks : list markerTok) : outcome (tri * list markerTok) :=
  '(l, rest) ← p_and toks; or_loop (length rest) l rest.
End level.

(** [or] where [levels] more parentheses may open: 32 less [p.depth]. *)
Fixpoint p_or (levels : nat) (toks : list markerTok) : outcome (tri * list markerTok) :=
  p_or_at (match levels with O => None | S k => Some (p_or k) end) toks.
End parser.

Definition maxMarkerDepth : nat := 32.

(** ** The environment *)

Record markerEnv := mk_env {
  me_pyMinor : string;
  me_machine : string;
  me_extras : gmap string bool;
  me_extra : string;
  me_pythonOnly : bool
}.

#[export] Instance markerEnv_eta : Eta markerEnv :=
  λ e, mk_env (me_pyMinor e) (me_machine e) (me_extras e) (me_extra e) (me_pythonOnly e).

(** The budget, [nil] being [None]: [ctx.Err] is asked when the count stands at
    its argument. *)
Record markerBudget := mk_budget {
  mb_ctx : Z → bool;
  mb_evals : Z;
  mb_max : Z;
  mb_toks : gmap string (list markerTok)
}.

#[export] Instance markerBudget_eta : Eta markerBudget :=
  λ b, mk_budget (mb_ctx b) (mb_evals b) (mb_max b) (mb_toks b).

Definition tokens (b : option markerBudget) (marker : string) : outcome (list markerTok) * option markerBudget :=
  match b ≫= λ b, mb_toks b !! marker with
  | Some t => (Ok t, b)
  | None =>
      match markerTokens marker with
      | Err e => (Err e, b)
      | Ok t => (Ok t, (λ b, b <| mb_toks := <[marker := t]> (mb_toks b) |>) <$> b)
      end
  end.

Definition spend (b : markerBudget) : outcome unit * markerBudget :=
  let b := b <| mb_evals := (mb_evals b + 1)%Z |> in
  (if (mb_max b <? mb_evals b)%Z then Err errMarkerBudget
   else if mb_ctx b (mb_evals b) then Err MarkerContext else Ok (), b).

Definition values (e : markerEnv) (name : string) : option (list string) :=
  if me_pythonOnly e && negb (String.eqb name "python_version") && negb (String.eqb name "python_full_version")
  then None
  else if String.eqb name "python_version" then Some [me_pyMinor e]
  else if String.eqb name "python_full_version" || String.eqb name "implementation_version"
  then Some [me_pyMinor e +:+ ".0"; me_pyMinor e +:+ ".9999"]
  else if String.eqb name "sys_platform" then Some ["linux"]
  else if String.eqb name "platform_system" then Some ["Linux"]
  else if String.eqb name "os_name" then Some ["posix"]
  else if String.eqb name "platform_machine" then Some [me_machine e]
  else if String.eqb name "implementation_name" then Some ["cpython"]
  else if String.eqb name "platform_python_implementation" then Some ["CPython"]
  else None.

Definition flipOp (op : string) : string :=
  if String.eqb op "<" then ">" else if String.eqb op "<=" then ">="
  else if String.eqb op ">" then "<" else if String.eqb op ">=" then "<="
  else if existsb (String.eqb op) ["=="; "!="; "==="; "~="; "in"; "not in"] then op else "".

(** The first value is there for every variable with a value. *)
Definition eachValue (vals : list string) (f : string → tri) : tri :=
  match vals with
  | [] => triUnknown
  | v :: rest => if forallb (λ w, bool_decide (f w = f v)) rest then f v else triUnknown
  end.

Definition substring_op (op : string) : bool := String.eqb op "in" || String.eqb op "not in".
Definition full_version (name : string) : bool :=
  String.eqb name "python_full_version" || String.eqb name "implementation_version".
Definition is_version (name : string) : bool := String.eqb name "python_version" || full_version name.

(** The last closure of [compareVar]: a variable that has the value [v]. *)
Definition compare_value `{GoUnicode} (name op lit v : string) : tri :=
  if is_version name then
    match parsePEP440 v with
    | None => triUnknown
    | Some pv =>
        if String.eqb op "===" then triOf (String.eqb v lit)
        else
          let '(ok, evaluable) := pySatisfies pv (op +:+ lit) in
          if negb evaluable then triUnknown else triOf ok
    end
  else if String.eqb op "==" || String.eqb op "===" then triOf (String.eqb v lit)
  else if String.eqb op "!=" then triOf (negb (String.eqb v lit))
  else triUnknown.

(** The patch level the literal itself names. *)
Definition literal_sample `{GoUnicode} (minor name lit : string) : list string :=
  if full_version name && has_prefix lit (minor +:+ ".") then
    match parsePEP440 lit with
    | Some _ => if str_contains lit "*" then [] else [lit]
    | None => []
    end
  else [].

Definition compareVar `{GoUnicode} (e : markerEnv) (name op lit : string) (swapped : bool) : tri :=
  match values e name with
  | None => triUnknown
  | Some vals =>
      if full_version name && (substring_op op || String.eqb op "===") then triUnknown
      else if substring_op op then
        eachValue vals (λ v, triOf (Bool.eqb (if swapped then str_contains v lit else str_contains lit v)
                                             (String.eqb op "in")))
      else
        let op := if swapped then flipOp op else op in
        eachValue (vals ++ literal_sample (me_pyMinor e) name lit) (compare_value name op lit)
  end.

Definition compareExtra `{GoUnicode} (e : markerEnv) (l : markerOperand) (op : string) (r : markerOperand) : tri :=
  let lit := if mo_variable l then mo_literal r else mo_literal l in
  if Bool.eqb (mo_variable l) (mo_variable r) || negb (String.eqb op "==") && negb (String.eqb op "!=")
  then triUnknown
  else
    let has := negb (String.eqb (me_extra e) "") && String.eqb (normExtra (me_extra e)) (normExtra lit) in
    triOf (if String.eqb op "==" then has else negb has).

Definition compare `{GoUnicode} (e : markerEnv) (l : markerOperand) (op : string) (r : markerOperand) : tri :=
  if mo_variable l && String.eqb (mo_name l) "extra" || mo_variable r && String.eqb (mo_name r) "extra"
  then compareExtra e l op r
  else if Bool.eqb (mo_variable l) (mo_variable r) then triUnknown
  else if mo_variable l then compareVar e (mo_name l) op (mo_literal r) false
  else compareVar e (mo_name r) op (mo_literal l) true.

(** ** Evaluation *)

(** The extras in order, then none. *)
Definition bindings `{MapRange} (e : markerEnv) : list string :=
  sort_strings (map_range (me_extras e)).*1 ++ [""].

Definition with_extra (e : markerEnv) (x : string) : markerEnv := e <| me_extra := x |>.

(** One round of the loop: the marker with [extra] bound to [x]. *)
Definition eval_binding `{GoUnicode} (e : markerEnv) (toks : list markerTok) (x : string) : outcome tri :=
  '(v, rest) ← p_or (compare (with_extra e x)) maxMarkerDepth toks;
  match rest with [] => Ok v | _ :: _ => Err MarkerTrailing end.

Fixpoint eval_loop `{GoUnicode} (e : markerEnv) (toks : list markerTok) (l : list string) (unknown : bool)
    (b : option markerBudget) : outcome bool * option markerBudget :=
  match l with
  | [] => (if unknown then Err errMarkerUnknown else Ok false, b)
  | x :: l' =>
      let '(spent, b) :=
        match b with
        | None => (Ok (), None)
        | Some b => let '(o, b) := spend b in (o, Some b)
        end in
      match spent ≫= λ _, eval_binding e toks x with
      | Err err => (Err err, b)
      | Ok triTrue => (Ok true, b)
      | Ok triUnknown => eval_loop e toks l' true b
      | Ok triFalse => eval_loop e toks l' unknown b
      end
  end.

Definition eval `{GoUnicode, MapRange} (e : markerEnv) (marker : string) (b : option markerBudget) :
    outcome bool * option markerBudget :=
  let '(toks, b) := tokens b marker in
  match toks with
  | Err err => (Err err, b)
  | Ok toks => eval_loop e toks (bindings e) false b
  end.

(** ** Requirements *)

(** The name, the constraint and the marker, [None] for [ok = false]. *)
Definition requirementOf `{GoUnicode} (s : string) : option (string * string * string) :=
  '(name, constraint) ← pythonRequirement (before_byte ";"%char s);
  Some (name, constraint, trim_space (after_byte ";"%char s)).

Definition applies `{GoUnicode, MapRange} (e : markerEnv) (reqDist : string) (b : option markerBudget) :
    outcome (string * string * bool) * option markerBudget :=
  match requirementOf reqDist with
  | None => (Err MarkerBadRequirement, b)
  | Some (name, constraint, marker) =>
      if String.eqb marker "" then (Ok (name, constraint, true), b)
      else
        let '(o, b) := eval e marker b in
        (o ≫= λ v, Ok (name, constraint, v), b)
  end.

(** ** The grammar of markers *)

Inductive atom := ACmp (l : markerOperand) (op : string) (r : markerOperand) | AParen (d : disjunction)
with conjunction := COne (a : atom) | CAnd (c : conjunction) (a : atom)
with disjunction := DOne (c : conjunction) | DOr (d : disjunction) (c : conjunction).

Definition operand_ok (o : markerOperand) : bool :=
  if mo_variable o then negb (keyword (mo_name o)) && String.eqb (mo_literal o) "" else String.eqb (mo_name o) "".

Definition operator_ok (op : string) : bool := comparison_op op || substring_op op.

Definition print_operand (o : markerOperand) : list markerTok :=
  if mo_variable o then [TWord (mo_name o)] else [TStr (mo_literal o)].

Definition print_operator (op : string) : list markerTok :=
  if String.eqb op "in" then [TWord "in"]
  else if String.eqb op "not in" then [TWord "not"; TWord "in"] else [TOp op].

Fixpoint print_atom (a : atom) : list markerTok :=
  match a with
  | ACmp l op r => print_operand l ++ print_operator op ++ print_operand r
  | AParen d => TOpen :: print_disj d ++ [TClose]
  end
with print_conj (c : conjunction) : list markerTok :=
  match c with
  | COne a => print_atom a
  | CAnd c a => print_conj c ++ TWord "and" :: print_atom a
  end
with print_disj (d : disjunction) : list markerTok :=
  match d with
  | DOne c => print_conj c
  | DOr d c => print_disj d ++ TWord "or" :: print_conj c
  end.

(** The tree is made of operands and operators the grammar knows, and opens at
    most [levels] parentheses inside one another. *)
Fixpoint atom_ok (levels : nat) (a : atom) : bool :=
  match a with
  | ACmp l op r => operand_ok l && operator_ok op && operand_ok r
  | AParen d => match levels with O => false | S k => disj_ok k d end
  end
with conj_ok (levels : nat) (c : conjunction) : bool :=
  match c with
  | COne a => atom_ok levels a
  | CAnd c a => conj_ok levels c && atom_ok levels a
  end
with disj_ok (levels : nat) (d : disjunction) : bool :=
  match d with
  | DOne c => conj_ok levels c
  | DOr d c => disj_ok levels d && conj_ok levels c
  end.

(** The text ends here: it does not go on with a connective. *)
Definition ends_conj (rest : list markerTok) : Prop := peek_word "and" rest = None.
Definition ends_disj (rest : list markerTok) : Prop := ends_conj rest ∧ peek_word "or" rest = None.

Lemma peek_word_Some w toks rest : peek_word w toks = Some rest ↔ toks = TWord w :: rest.
Proof.
  destruct toks as [|[v|v|v| |] toks]; simpl; try done.
  destruct (String.eqb_spec v w) as [->|Hne]; naive_solver.
Qed.

Lemma operand_exact toks o rest :
  operand toks = Some (o, rest) ↔ operand_ok o = true ∧ toks = print_operand o ++ rest.
Proof.
  unfold operand, operand_ok, print_operand. split.
  - destruct toks as [|[v|w|v| |] toks]; try done; [by intros [= <- <-]|].
    destruct (keyword w) eqn:E; [done|]. intros [= <- <-]. simpl. by rewrite E.
  - destruct o as [[] n l]; simpl.
    + intros [[Hk ->%String.eqb_eq]%andb_prop ->]. simpl. apply negb_true_iff in Hk. by rewrite Hk.
    + by intros [->%String.eqb_eq ->].
Qed.

Lemma comparison_not_word op : comparison_op op = true → substring_op op = false.
Proof.
  unfold comparison_op, substring_op. simpl.
  repeat (match goal with |- context [String.eqb op ?s] => destruct (String.eqb_spec op s) as [->|_] end; [done|]).
  done.
Qed.

Lemma operator_exact toks op rest :
  operator toks = Some (op, rest) ↔ operator_ok op = true ∧ toks = print_operator op ++ rest.
Proof.
  unfold operator, operator_ok, print_operator. split.
  - destruct toks as [|[v|w|v| |] toks]; try done.
    + destruct (String.eqb_spec w "in") as [->|_]; [by intros [= <- <-]|].
      destruct (String.eqb_spec w "not") as [->|_]; [|done].
      destruct toks as [|[v|w|v| |] toks]; try done.
      destruct (String.eqb_spec w "in") as [->|_]; [by intros [= <- <-]|done].
    + destruct (comparison_op v) eqn:E; [|done]. intros [= <- <-].
      pose proof (comparison_not_word v E) as [-> ->]%orb_false_iff. by rewrite E.
  - intros [Hop ->]. destruct (comparison_op op) eqn:E.
    + pose proof (comparison_not_word op E) as [-> ->]%orb_false_iff. simpl. by rewrite E.
    + cbn [orb] in Hop. unfold substring_op in Hop. apply orb_prop in Hop as [->%String.eqb_eq| ->%String.eqb_eq]; done.
Qed.

Section grammar.
Variable cmp : markerOperand → string → markerOperand → tri.

Fixpoint eval_atom (a : atom) : tri :=
  match a with
  | ACmp l op r => cmp l op r
  | AParen d => eval_disj d
  end
with eval_conj (c : conjunction) : tri :=
  match c with
  | COne a => eval_atom a
  | CAnd c a => tri_and (eval_conj c) (eval_atom a)
  end
with eval_disj (d : disjunction) : tri :=
  match d with
  | DOne c => eval_conj c
  | DOr d c => tri_or (eval_disj d) (eval_conj c)
  end.

Lemma print_atom_nonempty a : print_atom a ≠ [].
Proof. destruct a as [[[] ? ?] ? ?|]; done. Qed.

Lemma print_conj_nonempty c : print_conj c ≠ [].
Proof. destruct c; simpl; [apply print_atom_nonempty|by destruct (print_conj c)]. Qed.

(** What the parser of one level owes to the one around it. *)
Definition inside_exact (inside : option (list markerTok → outcome (tri * list markerTok))) (levels : nat) : Prop :=
  match inside, levels with
  | None, O => True
  | Some p, S k => ∀ toks v rest, p toks = Ok (v, rest) ↔
      ∃ d, disj_ok k d = true ∧ toks = print_disj d ++ rest ∧ v = eval_disj d ∧ ends_disj rest
  | _, _ => False
  end.

Lemma p_comparison_exact toks v rest :
  p_comparison cmp toks = Ok (v, rest) ↔
  ∃ l op r, operand_ok l && operator_ok op && operand_ok r = true ∧
            toks = print_atom (ACmp l op r) ++ rest ∧ v = cmp l op r.
Proof.
  unfold p_comparison. split.
  - destruct (operand toks) as [[l t1]|] eqn:E1; [|done]. destruct (operator t1) as [[op t2]|] eqn:E2; [|done].
    destruct (operand t2) as [[r t3]|] eqn:E3; [|done]. intros [= <- <-].
    apply operand_exact in E1 as [H1 ->], E3 as [H3 ->]. apply operator_exact in E2 as [H2 ->].
    exists l, op, r. rewrite H1, H2, H3. split; [done|]. simpl. by rewrite <- !List.app_assoc.
  - intros (l & op & r & [[H1 H2]%andb_prop H3]%andb_prop & -> & ->). simpl. rewrite <- !List.app_assoc.
    rewrite (proj2 (operand_exact _ _ _) (conj H1 eq_refl)).
    rewrite (proj2 (operator_exact _ _ _) (conj H2 eq_refl)).
    by rewrite (proj2 (operand_exact _ _ _) (conj H3 eq_refl)).
Qed.

Section level_exact.
Context (inside : option (list markerTok → outcome (tri * list markerTok))) (levels : nat).
Hypothesis Hinside : inside_exact inside levels.

Lemma p_atom_paren t v rest :
  p_atom cmp inside (TOpen :: t) = Ok (v, rest) ↔
  ∃ d, atom_ok levels (AParen d) = true ∧ t = print_disj d ++ TClose :: rest ∧ v = eval_disj d.
Proof.
  simpl. destruct inside as [p|], levels as [|k]; try done; simpl in Hinside.
  - split.
    + destruct (p t) as [[v' t']|] eqn:Ep; [|done]. simpl. destruct t' as [|[| | | |] t']; try done.
      intros [= <- <-]. apply Hinside in Ep as (d & Hd & -> & -> & _). by exists d.
    + intros (d & Hok & -> & ->).
      by rewrite (proj2 (Hinside _ _ (TClose :: rest)) ltac:(exists d; done)).
  - split; [done|]. by intros (d & Hok & _).
Qed.

Lemma p_atom_exact toks v rest :
  p_atom cmp inside toks = Ok (v, rest) ↔
  ∃ a, atom_ok levels a = true ∧ toks = print_atom a ++ rest ∧ v = eval_atom a.
Proof.
  assert (Hsplit : (∃ t, toks = TOpen :: t) ∨ p_atom cmp inside toks = p_comparison cmp toks ∧ ∀ t, toks ≠ TOpen :: t).
  { destruct toks as [|[| | | |] toks]; eauto; by right. }
  destruct Hsplit as [[t ->]|[-> Hopen]].
  - rewrite p_atom_paren. split.
    + intros (d & Hok & -> & ->). exists (AParen d). simpl. by rewrite <- List.app_assoc.
    + intros ([[[] ? ?] op r|d] & Hok & Heq & ->); try done. simpl in Heq. injection Heq as ->.
      exists d. by rewrite <- List.app_assoc.
  - rewrite p_comparison_exact. split.
    + intros (l & op & r & H). by exists (ACmp l op r).
    + intros ([l op r|d] & Hok & Heq & Hv); [by exists l, op, r|]. simpl in Heq. by apply Hopen in Heq.
Qed.

Lemma p_atom_shorter toks v rest : p_atom cmp inside toks = Ok (v, rest) → length rest < length toks.
Proof.
  intros (a & _ & -> & _)%p_atom_exact. rewrite length_app.
  pose proof (print_atom_nonempty a). destruct (print_atom a); [done|simpl; lia].
Qed.

(** The loops: what is read extends the tree read so far, up to the first word
    that is not the connective, and any number of rounds that is at least the
    number of tokens is enough. *)
Lemma and_loop_sound f c toks v rest : conj_ok levels c = true →
  and_loop cmp inside f (eval_conj c) toks = Ok (v, rest) →
  ∃ c', conj_ok levels c' = true ∧ print_conj c ++ toks = print_conj c' ++ rest ∧ v = eval_conj c' ∧ ends_conj rest.
Proof.
  revert c toks. induction f as [|f IH]; intros c toks Hc; cbn [and_loop].
  - destruct (peek_word "and" toks) eqn:E; [done|]. intros [= <- <-]. by exists c.
  - destruct (peek_word "and" toks) as [t|] eqn:E; [|intros [= <- <-]; by exists c].
    apply peek_word_Some in E as ->. destruct (p_atom cmp inside t) as [[r t']|] eqn:Ea; [|done]. simpl.
    apply p_atom_exact in Ea as (a & Ha & -> & ->). intros H.
    destruct (IH (CAnd c a) t') as (c' & Hok & Heq & Hv & Hend); [by simpl; rewrite Hc, Ha|done|].
    exists c'. split_and!; [done| |done..]. rewrite <- Heq. simpl. by rewrite <- List.app_assoc.
Qed.

Lemma and_loop_fuel f g l toks : length toks ≤ f → length toks ≤ g →
  and_loop cmp inside f l toks = and_loop cmp inside g l toks.
Proof.
  revert g l toks. induction f as [|f IH]; intros g l toks Hf Hg.
  { destruct toks; simpl in Hf; [by destruct g|lia]. }
  destruct g as [|g]; [destruct toks; simpl in Hg; [done|lia]|]. cbn [and_loop].
  destruct (peek_word "and" toks) as [t|] eqn:E; [|done]. apply peek_word_Some in E as ->. simpl in Hf, Hg.
  destruct (p_atom cmp inside t) as [[r t']|] eqn:Ea; [|done]. simpl.
  apply p_atom_shorter in Ea. apply IH; lia.
Qed.

Lemma p_and_print c rest : conj_ok levels c = true →
  p_and cmp inside (print_conj c ++ rest) = and_loop cmp inside (length rest) (eval_conj c) rest.
Proof.
  revert rest. induction c as [a|c IH a]; intros rest; simpl.
  - intros Ha. unfold p_and. by rewrite (proj2 (p_atom_exact _ _ _) ltac:(exists a; done)).
  - intros [Hc Ha]%andb_prop. rewrite <- List.app_assoc, IH by done. simpl.
    rewrite (proj2 (p_atom_exact _ _ rest) ltac:(exists a; done)). simpl.
    apply and_loop_fuel; [rewrite length_app; lia|done].
Qed.

Lemma p_and_exact toks v rest :
  p_and cmp inside toks = Ok (v, rest) ↔
  ∃ c, conj_ok levels c = true ∧ toks = print_conj c ++ rest ∧ v = eval_conj c ∧ ends_conj rest.
Proof.
  split.
  - unfold p_and. destruct (p_atom cmp inside toks) as [[l t]|] eqn:Ea; [|done]. simpl.
    apply p_atom_exact in Ea as (a & Ha & -> & ->). intros H.
    destruct (and_loop_sound _ (COne a) _ _ _ Ha H) as (c' & ? & Heq & ?).
    simpl in Heq. rewrite Heq. by exists c'.
  - intros (c & Hc & -> & -> & Hend). rewrite p_and_print by done.
    by destruct rest; cbn [length and_loop]; [|rewrite Hend].
Qed.

Lemma p_and_shorter toks v rest : p_and cmp inside toks = Ok (v, rest) → length rest < length toks.
Proof.
  intros (c & _ & -> & _)%p_and_exact. rewrite length_app.
  pose proof (print_conj_nonempty c). destruct (print_conj c); [done|simpl; lia].
Qed.

Lemma or_loop_sound f d toks v rest : disj_ok levels d = true → ends_conj toks →
  or_loop cmp inside f (eval_disj d) toks = Ok (v, rest) →
  ∃ d', disj_ok levels d' = true ∧ print_disj d ++ toks = print_disj d' ++ rest ∧ v = eval_disj d' ∧ ends_disj rest.
Proof.
  revert d toks. induction f as [|f IH]; intros d toks Hd He; cbn [or_loop].
  - destruct (peek_word "or" toks) eqn:E; [done|]. intros [= <- <-]. by exists d.
  - destruct (peek_word "or" toks) as [t|] eqn:E; [|intros [= <- <-]; by exists d].
    apply peek_word_Some in E as ->. destruct (p_and cmp inside t) as [[r t']|] eqn:Ea; [|done]. simpl.
    apply p_and_exact in Ea as (c & Hc & -> & -> & He'). intros H.
    destruct (IH (DOr d c) t') as (d' & Hok & Heq & Hv & Hend); [by simpl; rewrite Hd, Hc|done..|].
    exists d'. split_and!; [done| |done..]. rewrite <- Heq. simpl. by rewrite <- List.app_assoc.
Qed.

Lemma or_loop_fuel f g l toks : length toks ≤ f → length toks ≤ g →
  or_loop cmp inside f l toks = or_loop cmp inside g l toks.
Proof.
  revert g l toks. induction f as [|f IH]; intros g l toks Hf Hg.
  { destruct toks; simpl in Hf; [by destruct g|lia]. }
  destruct g as [|g]; [destruct toks; simpl in Hg; [done|lia]|]. cbn [or_loop].
  destruct (peek_word "or" toks) as [t|] eqn:E; [|done]. apply peek_word_Some in E as ->. simpl in Hf, Hg.
  destruct (p_and cmp inside t) as [[r t']|] eqn:Ea; [|done]. simpl.
  apply p_and_shorter in Ea. apply IH; lia.
Qed.

Lemma p_or_at_print d rest : disj_ok levels d = true → ends_conj rest →
  p_or_at cmp inside (print_disj d ++ rest) = or_loop cmp inside (length rest) (eval_disj d) rest.
Proof.
  revert rest. induction d as [c|d IH c]; intros rest; simpl.
  - intros Hc He. unfold p_or_at. by rewrite (proj2 (p_and_exact _ _ _) ltac:(exists c; done)).
  - intros [Hd Hc]%andb_prop He. rewrite <- List.app_assoc, IH by done. simpl.
    rewrite (proj2 (p_and_exact _ _ rest) ltac:(exists c; done)). simpl.
    apply or_loop_fuel; [rewrite length_app; lia|done].
Qed.

Lemma p_or_at_exact toks v rest :
  p_or_at cmp inside toks = Ok (v, rest) ↔
  ∃ d, disj_ok levels d = true ∧ toks = print_disj d ++ rest ∧ v = eval_disj d ∧ ends_disj rest.
Proof.
  split.
  - unfold p_or_at. destruct (p_and cmp inside toks) as [[l t]|] eqn:Ea; [|done]. simpl.
    apply p_and_exact in Ea as (c & Hc & -> & -> & He). intros H.
    destruct (or_loop_sound _ (DOne c) _ _ _ Hc He H) as (d' & ? & Heq & ?).
    simpl in Heq. rewrite Heq. by exists d'.
  - intros (d & Hd & -> & -> & He & Hend). rewrite p_or_at_print by done.
    by destruct rest; cbn [length or_loop]; [|rewrite Hend].
Qed.
End level_exact.

Lemma p_or_exact levels toks v rest :
  p_or cmp levels toks = Ok (v, rest) ↔
  ∃ d, disj_ok levels d = true ∧ toks = print_disj d ++ rest ∧ v = eval_disj d ∧ ends_disj rest.
Proof.
  revert toks v rest. induction levels as [|k IH]; intros toks v rest; simpl.
  - by apply p_or_at_exact.
  - by apply p_or_at_exact.
Qed.
End grammar.

(** ** Fuel *)

Definition fueled {A} (o : outcome A) : Prop := o ≠ Err MarkerNoFuel.

Lemma fueled_bind {A B} (o : outcome A) (f : A → outcome B) :
  fueled o → (∀ a, o = Ok a → fueled (f a)) → fueled (o ≫= f).
Proof. intros Ho Hf. destruct o as [a|e]; [by apply Hf|]. intros [= ->]. by apply Ho. Qed.

Lemma span_bytes_app p s : s = fst (span_bytes p s) +:+ snd (span_bytes p s).
Proof.
  induction s as [|c s IH]; [done|]. simpl. destruct (p c); [|done].
  destruct (span_bytes p s) as [w t]. simpl in *. by rewrite app_cons, <- IH.
Qed.

Lemma span_bytes_shorter p c s : p c = true → slen (snd (span_bytes p (String c s))) ≤ slen s.
Proof.
  intros Hc. simpl. rewrite Hc. pose proof (span_bytes_app p s) as H.
  destruct (span_bytes p s) as [w t]. simpl in *. rewrite H, slen_app. lia.
Qed.

Lemma slen_sdrop n s : slen (sdrop n s) ≤ slen s.
Proof. revert s. induction n as [|n IH]; intros [|c s]; simpl; try lia. specialize (IH s). lia. Qed.

Lemma tokens_loop_fuel f s out : slen s ≤ f → fueled (tokens_loop f s out).
Proof.
  revert s out. induction f as [|f IH]; intros [|c s] out Hf; try done; simpl in Hf; [lia|].
  unfold fueled. cbn [tokens_loop].
  destruct (maxMarkerTokens <? length out); [done|].
  repeat (match goal with |- context [if ?b then tokens_loop f s _ else _] => destruct b end; [apply IH; lia|]).
  destruct (is_quote c).
  { destruct (index_byte s c) as [j|]; [|done]. apply IH. pose proof (slen_sdrop (S j) s). lia. }
  destruct (is_op_byte c) eqn:Eo.
  { pose proof (span_bytes_shorter is_op_byte c s Eo). destruct (span_bytes is_op_byte (String c s)).
    apply IH. simpl in *. lia. }
  destruct (is_word_byte c) eqn:Ew; [|done].
  pose proof (span_bytes_shorter is_word_byte c s Ew). destruct (span_bytes is_word_byte (String c s)).
  apply IH. simpl in *. lia.
Qed.

(** The scanner always has rounds enough. *)
Lemma markerTokens_fuel s : fueled (markerTokens s).
Proof. unfold markerTokens. destruct (_ <? _); [done|]. by apply tokens_loop_fuel. Qed.

Section fuel.
Variable cmp : markerOperand → string → markerOperand → tri.
Context (inside : option (list markerTok → outcome (tri * list markerTok))) (levels : nat).
Hypothesis Hinside : inside_exact cmp inside levels.
Hypothesis Hfueled : ∀ p toks, inside = Some p → fueled (p toks).

Lemma p_atom_fuel toks : fueled (p_atom cmp inside toks).
Proof.
  assert (Hc : fueled (p_comparison cmp toks)) by (unfold p_comparison, fueled; repeat case_match; done).
  destruct toks as [|[| | | |] t]; try exact Hc. cbn [p_atom].
  destruct inside as [p|]; [|done]. apply fueled_bind; [by apply Hfueled|].
  intros [v rest] _. unfold fueled. by repeat case_match.
Qed.

Lemma and_loop_enough f l toks : length toks ≤ f → fueled (and_loop cmp inside f l toks).
Proof.
  revert l toks. induction f as [|f IH]; intros l toks Hf; [by destruct toks; simpl in *; [|lia]|].
  cbn [and_loop]. destruct (peek_word "and" toks) as [t|] eqn:E; [|done]. apply peek_word_Some in E as ->.
  apply fueled_bind; [apply p_atom_fuel|]. intros [v rest] Ha. apply IH.
  apply (p_atom_shorter _ _ _ Hinside) in Ha. simpl in Hf. lia.
Qed.

Lemma p_and_fuel toks : fueled (p_and cmp inside toks).
Proof. apply fueled_bind; [apply p_atom_fuel|]. intros [v rest] _. by apply and_loop_enough. Qed.

Lemma or_loop_enough f l toks : length toks ≤ f → fueled (or_loop cmp inside f l toks).
Proof.
  revert l toks. induction f as [|f IH]; intros l toks Hf; [by destruct toks; simpl in *; [|lia]|].
  cbn [or_loop]. destruct (peek_word "or" toks) as [t|] eqn:E; [|done]. apply peek_word_Some in E as ->.
  apply fueled_bind; [apply p_and_fuel|]. intros [v rest] Ha. apply IH.
  apply (p_and_shorter _ _ _ Hinside) in Ha. simpl in Hf. lia.
Qed.

Lemma p_or_at_fuel toks : fueled (p_or_at cmp inside toks).
Proof. apply fueled_bind; [apply p_and_fuel|]. intros [v rest] _. by apply or_loop_enough. Qed.
End fuel.

(** So has the parser. *)
Lemma p_or_fuel cmp levels toks : fueled (p_or cmp levels toks).
Proof.
  revert toks. induction levels as [|k IH]; intros toks; simpl.
  - by apply (p_or_at_fuel cmp None 0).
  - apply (p_or_at_fuel cmp (Some (p_or cmp k)) (S k)).
    + intros t v rest. apply p_or_exact.
    + intros p t [= <-]. apply IH.
Qed.

Lemma eval_loop_fuel `{GoUnicode} e toks l unknown b : fueled (fst (eval_loop e toks l unknown b)).
Proof.
  revert unknown b. induction l as [|x l IH]; intros unknown b; simpl; [by destruct unknown|].
  assert (He : fueled (eval_binding e toks x)).
  { apply fueled_bind; [apply p_or_fuel|]. intros [v [|]] _; done. }
  destruct b as [b|]; simpl.
  - unfold spend. destruct (_ <? _)%Z; [done|]. destruct (mb_ctx _ _); [done|]. simpl.
    destruct (eval_binding e toks x) as [[]|err]; try done. intros [= ->]. by apply He.
  - destruct (eval_binding e toks x) as [[]|err]; try done. intros [= ->]. by apply He.
Qed.

(** ** What is decided is true *)

(** The order of information: what is unknown may turn out either way. *)
Definition refines (a c : tri) : Prop := a = triUnknown ∨ a = c.

Lemma refines_refl a : refines a a.
Proof. by right. Qed.

Lemma refines_or a b c d : refines a c → refines b d → refines (tri_or a b) (tri_or c d).
Proof. unfold refines. destruct a, b, c, d; simpl; naive_solver. Qed.

Lemma refines_and a b c d : refines a c → refines b d → refines (tri_and a b) (tri_and c d).
Proof. unfold refines. destruct a, b, c, d; simpl; naive_solver. Qed.

(** Every comparison of a tree satisfies [P]. *)
Section all.
Variable P : markerOperand → string → markerOperand → bool.
Fixpoint all_atom (a : atom) : bool :=
  match a with
  | ACmp l op r => P l op r
  | AParen d => all_disj d
  end
with all_conj (c : conjunction) : bool :=
  match c with
  | COne a => all_atom a
  | CAnd c a => all_conj c && all_atom a
  end
with all_disj (d : disjunction) : bool :=
  match d with
  | DOne c => all_conj c
  | DOr d c => all_disj d && all_conj c
  end.
End all.

Scheme atom_tree := Induction for atom Sort Prop
with conj_tree := Induction for conjunction Sort Prop
with disj_tree := Induction for disjunction Sort Prop.

(** Comparisons that refine one another give trees that do. *)
Lemma eval_refines P cmp1 cmp2 levels d :
  (∀ l op r, operator_ok op = true → P l op r = true → refines (cmp1 l op r) (cmp2 l op r)) →
  disj_ok levels d = true → all_disj P d = true → refines (eval_disj cmp1 d) (eval_disj cmp2 d).
Proof.
  intros Hc. revert levels.
  apply (disj_tree
    (λ a, ∀ k, atom_ok k a = true → all_atom P a = true → refines (eval_atom cmp1 a) (eval_atom cmp2 a))
    (λ c, ∀ k, conj_ok k c = true → all_conj P c = true → refines (eval_conj cmp1 c) (eval_conj cmp2 c))
    (λ d, ∀ k, disj_ok k d = true → all_disj P d = true → refines (eval_disj cmp1 d) (eval_disj cmp2 d))); simpl.
  - intros l op r k [[_ Hop]%andb_prop _]%andb_prop HP. auto.
  - intros d' IH [|k]; [done|]. eauto.
  - eauto.
  - intros c IHc a IHa k [? ?]%andb_prop [? ?]%andb_prop. apply refines_and; eauto.
  - eauto.
  - intros d' IHd c IHc k [? ?]%andb_prop [? ?]%andb_prop. apply refines_or; eauto.
Qed.

(** *** Concrete environments *)

Section concrete.
Context `{U : GoUnicode}.

(** A complete environment gives variables their values; one it does not know
    has none. The comparisons are those of the code, on the one value. *)
Definition concrete_var (ρ : string → option string) (name op lit : string) (swapped : bool) : tri :=
  match ρ name with
  | None => triUnknown
  | Some v =>
      if substring_op op
      then triOf (Bool.eqb (if swapped then str_contains v lit else str_contains lit v) (String.eqb op "in"))
      else compare_value name (if swapped then flipOp op else op) lit v
  end.

Definition concrete_compare (ρ : string → option string) (e : markerEnv) (l : markerOperand) (op : string) (r : markerOperand) : tri :=
  if mo_variable l && String.eqb (mo_name l) "extra" || mo_variable r && String.eqb (mo_name r) "extra"
  then compareExtra e l op r
  else if Bool.eqb (mo_variable l) (mo_variable r) then triUnknown
  else if mo_variable l then concrete_var ρ (mo_name l) op (mo_literal r) false
  else concrete_var ρ (mo_name r) op (mo_literal l) true.

(** The complete environments [e] may stand for: a variable of one value has
    that value, the full version is some patch level of the minor. *)
Definition describes (X Y : string) (e : markerEnv) (ρ : string → option string) : Prop :=
  me_pyMinor e = minor_of X Y ∧
  ∀ name vals, values e name = Some vals →
    ∃ v, ρ name = Some v ∧
      if full_version name then ∃ n, n ≤ 9999 ∧ v = patch_text X Y n else vals = [v].

(** A literal the full version is compared with: one clause of ASCII text that
    names a patch level of the minor only by writing it out. *)
Definition plain_literal (X Y op lit : string) : bool :=
  sforallb word_byte (op +:+ lit) && negb (contains_byte ","%char lit) &&
  (negb (names_patch X Y (pc_version (clause_of (op +:+ lit)))) ||
   has_prefix lit (minor_of X Y +:+ ".") && negb (has_suffix lit ".*")).

Definition plain_compare (X Y : string) (l : markerOperand) (op : string) (r : markerOperand) : bool :=
  if mo_variable l then negb (full_version (mo_name l)) || substring_op op || plain_literal X Y op (mo_literal r)
  else negb (full_version (mo_name r)) || substring_op op || plain_literal X Y (flipOp op) (mo_literal l).

Lemma eachValue_decided vals f : eachValue vals f ≠ triUnknown → ∀ v, v ∈ vals → f v = eachValue vals f.
Proof.
  destruct vals as [|v rest]; [done|]. simpl. destruct (forallb _ rest) eqn:E; [|done].
  intros _ w [->|Hw]%elem_of_cons; [done|]. apply forallb_True in E. rewrite Forall_forall in E.
  specialize (E w Hw). by apply bool_decide_eq_true in E.
Qed.

Lemma leading_op_digit op d w : op ∈ specifier_ops → is_digit d = true →
  List.find (λ o, has_prefix (op +:+ String d w) o) specifier_ops = Some op.
Proof.
  intros Hop Hd. unfold specifier_ops in Hop.
  repeat (apply elem_of_cons in Hop as [->|Hop];
    [destruct d as [[] [] [] [] [] [] [] []]; try (exfalso; by vm_compute in Hd); reflexivity|]).
  by apply elem_of_nil in Hop.
Qed.

Lemma flipOp_specifier op : comparison_op op = true → flipOp op ∈ specifier_ops.
Proof.
  unfold comparison_op. intros (o & Ho & ->%String.eqb_eq)%existsb_exists.
  unfold specifier_ops. repeat (destruct Ho as [<-|Ho]; [cbn; set_solver|]). done.
Qed.

Lemma comparison_specifier op : comparison_op op = true → op ∈ specifier_ops.
Proof.
  unfold comparison_op. intros (o & Ho & ->%String.eqb_eq)%existsb_exists.
  unfold specifier_ops. repeat (destruct Ho as [<-|Ho]; [cbn; set_solver|]). done.
Qed.

Lemma split_byte_none c s : contains_byte c s = false → split_byte c s = [s] ∧ count_byte c s = 0.
Proof.
  unfold contains_byte. induction s as [|d s IH]; [done|]. cbn [sexistsb split_byte count_byte].
  intros [Hd Hs]%orb_false_iff. rewrite Ascii.eqb_sym, Hd. by destruct (IH Hs) as [-> ->].
Qed.

(** The version comparison of one clause is the clause. *)
Lemma pySatisfies_clause v c : c ≠ "" → contains_byte ","%char c = false →
  pySatisfies v c =
  if maxSpecifierBytes <? slen c then (false, false)
  else if clause_valid c then (clause_met v (clause_of c), true) else (false, false).
Proof.
  intros Hne Hc. destruct (split_byte_none _ _ Hc) as [Hs Hn]. unfold pySatisfies.
  rewrite (proj2 (String.eqb_neq _ _) Hne), Hs, Hn, orb_false_r. destruct (_ <? _); [done|].
  rewrite satisfies_loop_spec. cbn [forallb andb]. rewrite !andb_true_r. by destruct (clause_valid c).
Qed.
End concrete.

Section soundness.
Context `{U : GoUnicode}.
Context (X Y : string) (HX : canonical X = true) (HY : canonical Y = true).

Lemma compare_value_full name op lit v pv : full_version name = true → op ≠ "===" → parsePEP440 v = Some pv →
  compare_value name op lit v =
  let '(ok, evaluable) := pySatisfies pv (op +:+ lit) in if negb evaluable then triUnknown else triOf ok.
Proof.
  intros Hf Hop Hv. unfold compare_value, is_version. rewrite Hf, orb_true_r, Hv.
  by rewrite (proj2 (String.eqb_neq _ _) Hop).
Qed.

Lemma minor_head : ∃ d w, minor_of X Y +:+ "." = String d w ∧ is_digit d = true.
Proof.
  destruct (canonical_digits X HX) as [Hd Hne]. destruct X as [|d s]; [done|].
  simpl in Hd. apply andb_prop in Hd as [Hd _]. exists d, ((s +:+ "." +:+ Y) +:+ "."). split; [|done].
  unfold minor_of. by rewrite !app_cons.
Qed.

(** The sample for the literal is the version the clause names. *)
Lemma literal_sample_named name op lit : full_version name = true → op ∈ specifier_ops →
  plain_literal X Y op lit = true → clause_valid (op +:+ lit) = true →
  names_patch X Y (pc_version (clause_of (op +:+ lit))) = true →
  literal_sample (minor_of X Y) name lit = [lit] ∧ parsePEP440 lit = Some (pc_version (clause_of (op +:+ lit))).
Proof.
  unfold plain_literal. intros Hf Hop [[Hw _]%andb_prop Hp]%andb_prop Hv Hn. rewrite Hn in Hp. cbn [negb orb] in Hp.
  apply andb_prop in Hp as [Hpre Hsuf]. apply negb_true_iff in Hsuf.
  destruct (clause_valid_parts _ Hw Hv) as (op' & w & Hfind & Hcw & _ & _ & _ & Hparse & Hstar).
  destruct minor_head as (d & m & Hm & Hd).
  assert (∃ t, lit = String d t) as [t Hlit].
  { rewrite Hm in Hpre. apply has_prefix_split in Hpre. rewrite Hpre, app_cons. eauto. }
  assert (op' = op) as ->.
  { pose proof (leading_op_digit op d t Hop Hd) as H. rewrite <- Hlit, Hfind in H. by injection H. }
  apply app_inj_l in Hcw as <-.
  assert (Ht : trim_suffix lit ".*" = lit) by (unfold trim_suffix; by rewrite Hsuf).
  rewrite Ht in Hparse, Hstar. split; [|done]. unfold literal_sample. by rewrite Hf, Hpre, Hparse, Hstar.
Qed.

Lemma full_version_refines name op lit n : full_version name = true → op ∈ specifier_ops → op ≠ "===" →
  plain_literal X Y op lit = true → n ≤ 9999 →
  refines (eachValue ([minor_of X Y +:+ ".0"; minor_of X Y +:+ ".9999"] ++ literal_sample (minor_of X Y) name lit)
             (compare_value name op lit))
          (compare_value name op lit (patch_text X Y n)).
Proof.
  intros Hf Hop Hne Hplain Hn.
  change (minor_of X Y +:+ ".0") with (patch_text X Y 0). change (minor_of X Y +:+ ".9999") with (patch_text X Y 9999).
  set (vals := _ ++ _). destruct (decide (eachValue vals (compare_value name op lit) = triUnknown)) as [|Hdec]; [by left|right].
  pose proof (eachValue_decided _ _ Hdec) as Hall. set (r := eachValue _ _) in *. clearbody r.
  assert (Hends : compare_value name op lit (patch_text X Y 0) = r ∧ compare_value name op lit (patch_text X Y 9999) = r).
  { split; apply Hall; unfold vals; rewrite elem_of_app; left; set_solver. }
  assert (Hc : op +:+ lit ≠ "").
  { intros H. apply (f_equal String.length) in H. rewrite slen_app in H. destruct op; [|done].
    unfold specifier_ops in Hop. set_solver. }
  pose proof Hplain as Hp. unfold plain_literal in Hp. apply andb_prop in Hp as [[Hw Hcomma]%andb_prop _].
  apply negb_true_iff in Hcomma.
  assert (Hcc : contains_byte ","%char (op +:+ lit) = false).
  { unfold contains_byte in *. assert (Hs : sexistsb (Ascii.eqb ","%char) op = false).
    { unfold specifier_ops in Hop. repeat (apply elem_of_cons in Hop as [->|Hop]; [done|]). by apply elem_of_nil in Hop. }
    clear -Hs Hcomma. induction op as [|c op IH]; [done|]. cbn in Hs. apply orb_false_iff in Hs as [H1 H2].
    rewrite app_cons. cbn. rewrite H1. by apply IH. }
  rewrite !(compare_value_full name op lit _ (py_patch X Y _)) in Hends by (done || by apply parse_patch).
  rewrite (compare_value_full name op lit _ (py_patch X Y n)) by (done || by apply parse_patch).
  rewrite !pySatisfies_clause in * by done.
  destruct (maxSpecifierBytes <? slen (op +:+ lit)) eqn:Eb; [by destruct Hends as [<- _]|].
  destruct (clause_valid (op +:+ lit)) eqn:Ev; [|by destruct Hends as [<- _]]. cbn [negb] in *.
  destruct Hends as [H0 H1]. rewrite <- H0 in H1 |- *. f_equal. symmetry.
  assert (Hinj : ∀ b b', triOf b = triOf b' → b = b') by by intros [] [].
  apply Hinj in H1. apply (clause_between X Y _ 9999); [apply Nat.lt_0_succ|done|done|done|].
  intros Hnames. destruct (literal_sample_named name op lit) as [Hs Hpl]; [done..|].
  specialize (Hall lit). rewrite (compare_value_full name op lit _ _ Hf Hne Hpl) in Hall.
  rewrite pySatisfies_clause, Eb, Ev in Hall by done. cbn [negb] in Hall.
  apply Hinj. rewrite Hall; [by symmetry|]. unfold vals. rewrite Hs, elem_of_app. right. by apply list_elem_of_singleton.
Qed.

Context (e : markerEnv) (ρ : string → option string) (Hd : describes X Y e ρ).

Lemma compareVar_refines name op lit (swapped : bool) : operator_ok op = true →
  negb (full_version name) || substring_op op || plain_literal X Y (if swapped then flipOp op else op) lit = true →
  refines (compareVar e name op lit swapped) (concrete_var ρ name op lit swapped).
Proof.
  intros Hop Hplain. destruct Hd as [Hm Hvals]. unfold compareVar, concrete_var.
  destruct (values e name) as [vals|] eqn:Ev; [|by left].
  destruct (Hvals name vals Ev) as (v & -> & Hv). destruct (full_version name) eqn:Ef.
  - cbn [andb negb orb] in *. destruct (substring_op op) eqn:Es; [by left|]. cbn [orb].
    destruct (String.eqb_spec op "===") as [->|Hne]; [by left|]. cbn [orb] in Hplain.
    destruct Hv as (n & Hn & ->). unfold operator_ok in Hop. rewrite Es, orb_false_r in Hop.
    assert (vals = [minor_of X Y +:+ ".0"; minor_of X Y +:+ ".9999"]) as ->.
    { unfold values in Ev. rewrite Hm in Ev. unfold full_version in Ef.
      apply orb_prop in Ef as [->%String.eqb_eq| ->%String.eqb_eq]; destruct (me_pythonOnly e);
        cbn -[minor_of append] in Ev; first [discriminate Ev | by injection Ev as <-].  }
    rewrite Hm. apply full_version_refines; try done.
    + destruct swapped; [by apply flipOp_specifier|by apply comparison_specifier].
    + intros H. destruct swapped; [|done]. unfold flipOp in H. repeat case_match; try done.
  - subst vals. cbn [andb]. right. destruct (substring_op op); [done|].
    unfold literal_sample. rewrite Ef. done.
Qed.

(** A comparison the code decides comes out the same in every environment
    described. *)
Lemma compare_refines x l op r : operator_ok op = true → plain_compare X Y l op r = true →
  refines (compare (with_extra e x) l op r) (concrete_compare ρ (with_extra e x) l op r).
Proof.
  intros Hop Hp. unfold compare, concrete_compare, plain_compare in *.
  destruct (mo_variable l && (mo_name l =? "extra")%string || mo_variable r && (mo_name r =? "extra")%string);
    [apply refines_refl|]. destruct (Bool.eqb _ _); [apply refines_refl|].
  destruct (mo_variable l).
  - by apply (compareVar_refines (mo_name l) op (mo_literal r) false).
  - by apply (compareVar_refines (mo_name r) op (mo_literal l) true).
Qed.
End soundness.

(** ** The tokens of a text *)

Definition is_blank (c : ascii) : bool := Ascii.eqb c " "%char || Ascii.eqb c "009"%char.

Definition starts_with (p : ascii → bool) (s : string) : bool :=
  match s with EmptyString => false | String c _ => p c end.

(** A text is blanks and tokens, with nothing left out: parentheses, strings up
    to the quote they begin with, and operators and words as long as they go. *)
Inductive lexes : string → list markerTok → Prop :=
  | lx_end : lexes "" []
  | lx_blank c s t : is_blank c = true → lexes s t → lexes (String c s) t
  | lx_open s t : lexes s t → lexes (String "("%char s) (TOpen :: t)
  | lx_close s t : lexes s t → lexes (String ")"%char s) (TClose :: t)
  | lx_str q v s t : is_quote q = true → contains_byte q v = false → lexes s t →
      lexes (String q (v +:+ String q s)) (TStr v :: t)
  | lx_op w s t : w ≠ "" → sforallb is_op_byte w = true → starts_with is_op_byte s = false → lexes s t →
      lexes (w +:+ s) (TOp w :: t)
  | lx_word w s t : w ≠ "" → sforallb is_word_byte w = true → starts_with is_word_byte s = false → lexes s t →
      lexes (w +:+ s) (TWord w :: t).

Fixpoint ends_blank (s : string) : bool :=
  match s with
  | EmptyString => false
  | String c EmptyString => is_blank c
  | String _ s' => ends_blank s'
  end.

(** The limit is looked at before every byte that begins something: one token
    more than the limit is let through when nothing follows it. *)
Definition within_tokens (n : nat) (s : string) (t : list markerTok) : Prop :=
  n + length t ≤ maxMarkerTokens ∨ n + length t = S maxMarkerTokens ∧ ends_blank s = false.

Lemma op_byte_class c : is_op_byte c = true →
  is_blank c = false ∧ Ascii.eqb c "("%char = false ∧ Ascii.eqb c ")"%char = false ∧ is_quote c = false ∧ is_word_byte c = false.
Proof. by destruct c as [[] [] [] [] [] [] [] []]. Qed.

Lemma word_byte_class c : is_word_byte c = true →
  is_blank c = false ∧ Ascii.eqb c "("%char = false ∧ Ascii.eqb c ")"%char = false ∧ is_quote c = false ∧ is_op_byte c = false.
Proof. by destruct c as [[] [] [] [] [] [] [] []]. Qed.

Lemma quote_class c : is_quote c = true →
  is_blank c = false ∧ Ascii.eqb c "("%char = false ∧ Ascii.eqb c ")"%char = false ∧ is_op_byte c = false ∧ is_word_byte c = false.
Proof. by destruct c as [[] [] [] [] [] [] [] []]. Qed.

Lemma blank_class c : is_blank c = true →
  Ascii.eqb c "("%char = false ∧ Ascii.eqb c ")"%char = false ∧ is_quote c = false ∧ is_op_byte c = false ∧ is_word_byte c = false.
Proof. by destruct c as [[] [] [] [] [] [] [] []]. Qed.

Lemma span_bytes_max p w s : sforallb p w = true → starts_with p s = false → span_bytes p (w +:+ s) = (w, s).
Proof.
  intros Hw Hs. induction w as [|c w IH].
  - change (span_bytes p s = ("", s)). destruct s as [|d s]; [done|]. cbn [starts_with] in Hs. cbn [span_bytes]. by rewrite Hs.
  - cbn [sforallb] in Hw. apply andb_prop in Hw as [Hc Hw]. rewrite app_cons. cbn [span_bytes]. by rewrite Hc, IH.
Qed.

Lemma span_bytes_spec p s w t : span_bytes p s = (w, t) → s = w +:+ t ∧ sforallb p w = true ∧ starts_with p t = false.
Proof.
  revert w t. induction s as [|c s IH]; intros w t; cbn [span_bytes]; [by intros [= <- <-]|].
  destruct (p c) eqn:Ec; [|intros [= <- <-]; by rewrite <- Ec].
  destruct (span_bytes p s) as [w' t'] eqn:E. intros [= <- <-]. destruct (IH _ _ eq_refl) as (-> & Hw & Ht).
  split; [by rewrite app_cons|]. cbn [sforallb]. by rewrite Ec, Hw.
Qed.

Lemma ends_blank_app a s : ends_blank (a +:+ s) = if String.eqb s "" then ends_blank a else ends_blank s.
Proof.
  destruct (String.eqb_spec s "") as [->|Hne].
  - induction a as [|c a IH]; [done|]. rewrite app_cons. destruct a as [|d a]; [done|]. exact IH.
  - induction a as [|c a IH]; [done|]. rewrite app_cons. rewrite <- IH. destruct a; [|done]. by destruct s.
Qed.

Lemma ends_blank_bytes p w : (∀ c, p c = true → is_blank c = false) → sforallb p w = true → ends_blank w = false.
Proof.
  intros Hp. induction w as [|c w IH]; [done|]. cbn [sforallb]. intros [Hc Hw]%andb_prop.
  destruct w; [by apply Hp|]. exact (IH Hw).
Qed.

Lemma lexes_nil s : lexes s [] → s ≠ "" → ends_blank s = true.
Proof.
  intros H. remember [] as t eqn:E. induction H; try done. intros _. destruct s as [|d s]; [done|]. by apply IHlexes.
Qed.

Lemma within_token n a s tok t : ends_blank a = false → within_tokens n (a +:+ s) (tok :: t) ↔ within_tokens (S n) s t.
Proof.
  intros Ha. unfold within_tokens. rewrite ends_blank_app. cbn [length]. rewrite Nat.add_succ_r.
  destruct (String.eqb_spec s "") as [->|]; [rewrite Ha|]; done.
Qed.

Lemma within_blank n c s t : n ≤ maxMarkerTokens → lexes s t → within_tokens n (String c s) t ↔ within_tokens n s t.
Proof.
  intros Hn Hl. unfold within_tokens. destruct s as [|d s]; [|done]. inversion Hl as [E| | | | |w ? ? Hw ? ? ? E|w ? ? Hw ? ? ? E]; subst.
  - cbn [length]. split; intros _; left; lia.
  - by destruct w.
  - by destruct w.
Qed.

Lemma index_byte_before s c i : index_byte s c = Some i → contains_byte c (stake i s) = false.
Proof.
  revert i. unfold contains_byte. induction s as [|d s IH]; intros i; [done|]. cbn [index_byte].
  destruct (Ascii.eqb d c) eqn:E; [by intros [= <-]|]. intros (j & Hj & ->)%fmap_Some. cbn [stake sexistsb].
  by rewrite Ascii.eqb_sym, E, (IH _ Hj).
Qed.

(** The text by its first byte. *)
Lemma lexes_cons c s t :
  lexes (String c s) t ↔
  is_blank c = true ∧ lexes s t ∨
  Ascii.eqb c "("%char = true ∧ (∃ t', t = TOpen :: t' ∧ lexes s t') ∨
  Ascii.eqb c ")"%char = true ∧ (∃ t', t = TClose :: t' ∧ lexes s t') ∨
  is_quote c = true ∧ (∃ j t', index_byte s c = Some j ∧ t = TStr (stake j s) :: t' ∧ lexes (sdrop (S j) s) t') ∨
  is_op_byte c = true ∧ (∃ w r t', span_bytes is_op_byte (String c s) = (w, r) ∧ t = TOp w :: t' ∧ lexes r t') ∨
  is_word_byte c = true ∧ (∃ w r t', span_bytes is_word_byte (String c s) = (w, r) ∧ t = TWord w :: t' ∧ lexes r t').
Proof.
  split.
  - intros Hl. remember (String c s) as z eqn:Ez. destruct Hl as [|c' z t Hc Hl|z t Hl|z t Hl|q v z t Hq Hv Hl|w z t Hw Hp Hs Hl|w z t Hw Hp Hs Hl].
    + done.
    + injection Ez as -> ->. by left.
    + injection Ez as <- ->. right; left. naive_solver.
    + injection Ez as <- ->. do 2 right; left. naive_solver.
    + injection Ez as -> <-. do 3 right; left. split; [done|]. exists (slen v), t.
      rewrite index_byte_app by done. split; [done|]. rewrite stake_app. split; [done|]. by rewrite sdrop_S_app.
    + do 4 right; left. destruct w as [|d w]; [done|]. pose proof Hp as Hd. cbn [sforallb] in Hd. apply andb_prop in Hd as [Hd _].
      rewrite app_cons in Ez. injection Ez as -> Ez. split; [done|]. exists (String c w), z, t.
      subst s. split; [by apply (span_bytes_max _ (String c w))|done].
    + do 5 right. destruct w as [|d w]; [done|]. pose proof Hp as Hd. cbn [sforallb] in Hd. apply andb_prop in Hd as [Hd _].
      rewrite app_cons in Ez. injection Ez as -> Ez. split; [done|]. exists (String c w), z, t.
      subst s. split; [by apply (span_bytes_max _ (String c w))|done].
  - intros [[Hc Hl]|[[->%Ascii.eqb_eq (t' & -> & Hl)]|[[->%Ascii.eqb_eq (t' & -> & Hl)]|[[Hq (j & t' & Hj & -> & Hl)]|[[Hc (w & r & t' & E & -> & Hl)]|[Hc (w & r & t' & E & -> & Hl)]]]]]].
    + by constructor.
    + by constructor.
    + by constructor.
    + enough (Hq' : lexes (String c (stake j s +:+ String c (sdrop (S j) s))) (TStr (stake j s) :: t')) by (by rewrite <- (index_byte_Some _ _ _ Hj) in Hq').
      constructor; [done| |done]. by apply index_byte_before.
    + pose proof E as E'. cbn [span_bytes] in E'. rewrite Hc in E'. apply span_bytes_spec in E as (-> & Hw & Hr). constructor; try done.
      destruct (span_bytes is_op_byte s). by injection E' as <- _.
    + pose proof E as E'. cbn [span_bytes] in E'. rewrite Hc in E'. apply span_bytes_spec in E as (-> & Hw & Hr). constructor; try done.
      destruct (span_bytes is_word_byte s). by injection E' as <- _.
Qed.

(** A byte is of one class. *)
Lemma classes c :
  let n (b : bool) := if b then 1 else 0 in
  n (is_blank c) + n (Ascii.eqb c "("%char) + n (Ascii.eqb c ")"%char) + n (is_quote c) + n (is_op_byte c) + n (is_word_byte c) ≤ 1.
Proof. destruct c as [[] [] [] [] [] [] [] []]; vm_compute; lia. Qed.

(** One round of the scanner that takes the text [a] as a token. *)
Lemma take_token s a z tok out r :
  s = a +:+ z → ends_blank a = false → (∀ t, lexes s t ↔ ∃ t', t = tok :: t' ∧ lexes z t') →
  (∃ t, r = rev out ++ t ∧ lexes s t ∧ within_tokens (length out) s t) ↔
  (∃ t, r = rev (tok :: out) ++ t ∧ lexes z t ∧ within_tokens (length (tok :: out)) z t).
Proof.
  intros -> Ha Hl. cbn [rev length]. split.
  - intros (t & -> & (t' & -> & Hz)%Hl & Hw). exists t'. rewrite <- app_assoc. split; [done|]. split; [done|].
    exact (proj1 (within_token _ a _ tok _ Ha) Hw).
  - intros (t & -> & Hz & Hw). exists (tok :: t). rewrite <- app_assoc. split; [done|]. split; [apply Hl; by exists t|].
    exact (proj2 (within_token _ a _ tok _ Ha) Hw).
Qed.

Lemma tokens_loop_exact f s out r : slen s ≤ f → length out ≤ S maxMarkerTokens →
  tokens_loop f s out = Ok r ↔ ∃ t, r = rev out ++ t ∧ lexes s t ∧ within_tokens (length out) s t.
Proof.
  revert s out. induction f as [|f IH]; intros [|c s] out Hf Ho; try (cbn [slen] in Hf; lia).
  1,2: cbn [tokens_loop]; split; [intros [= <-]; exists []; rewrite List.app_nil_r; split; [done|]; split; [constructor|]; unfold within_tokens;
    cbn [length ends_blank]; lia|]; intros (t & -> & Hl & _); inversion Hl as [E| | | | |w ? ? Hw ? ? ? E|w ? ? Hw ? ? ? E]; subst;
    [by rewrite List.app_nil_r|by destruct w|by destruct w].
  cbn [slen] in Hf. cbn [tokens_loop]. destruct (Nat.ltb_spec maxMarkerTokens (length out)) as [Hlt|Hle].
  { split; [done|]. intros (t & -> & Hl & [Hw|[Hw He]]); [lia|]. assert (t = []) as -> by (destruct t; [done|cbn in Hw; lia]).
    by rewrite (lexes_nil _ Hl) in He. }
  pose proof (classes c) as Hc. cbv zeta in Hc.
  pose proof (λ t, lexes_cons c s t) as Hcons.
  fold (is_blank c).
  destruct (is_blank c) eqn:Eb; [|destruct (Ascii.eqb c "("%char) eqn:E1; [|destruct (Ascii.eqb c ")"%char) eqn:E2;
    [|destruct (is_quote c) eqn:Eq; [|destruct (is_op_byte c) eqn:Eo; [|destruct (is_word_byte c) eqn:Ew]]]]].
  - rewrite IH by lia. apply exist_proper. intros t.
    assert (Hl : lexes (String c s) t ↔ lexes s t).
    { rewrite Hcons. destruct (Ascii.eqb c "("%char), (Ascii.eqb c ")"%char), (is_quote c), (is_op_byte c), (is_word_byte c); try lia.
      naive_solver. }
    rewrite Hl. split; intros (-> & Hs & Hw); (split; [done|]); (split; [done|]);
      [by apply (proj2 (within_blank _ c _ _ Hle Hs))|by apply (proj1 (within_blank _ c _ _ Hle Hs))].
  - rewrite IH by (cbn [length]; lia). symmetry. apply (take_token _ (String c "")); [done|exact Eb|]. intros t. rewrite Hcons.
    destruct (Ascii.eqb c ")"%char), (is_quote c), (is_op_byte c), (is_word_byte c); try lia. naive_solver.
  - rewrite IH by (cbn [length]; lia). symmetry. apply (take_token _ (String c "")); [done|exact Eb|]. intros t. rewrite Hcons.
    destruct (is_quote c), (is_op_byte c), (is_word_byte c); try lia. naive_solver.
  - assert (Hl : ∀ t, lexes (String c s) t ↔ ∃ j t', index_byte s c = Some j ∧ t = TStr (stake j s) :: t' ∧ lexes (sdrop (S j) s) t').
    { intros t. rewrite Hcons. destruct (is_op_byte c), (is_word_byte c); try lia. naive_solver. }
    destruct (index_byte s c) as [j|] eqn:Ej; [|split; [done|]; intros (t & _ & (? & ? & ? & _)%Hl & _); done].
    pose proof (index_byte_Some _ _ _ Ej) as Es. pose proof (slen_sdrop (S j) s).
    rewrite IH by (cbn [length]; lia). symmetry. apply (take_token _ (String c (stake j s +:+ String c ""))).
    + rewrite app_cons, app_assoc_s. f_equal. exact Es.
    + rewrite <- app_cons, ends_blank_app. exact Eb.
    + intros t. rewrite Hl. naive_solver.
  - destruct (span_bytes is_op_byte (String c s)) as [w z] eqn:E. pose proof (span_bytes_shorter is_op_byte c s Eo) as Hs. rewrite E in Hs.
    cbn [snd] in Hs. pose proof (span_bytes_spec _ _ _ _ E) as (Es & Hp & _).
    rewrite IH by (cbn [length]; lia). symmetry. apply (take_token _ w); [done| |].
    + apply (ends_blank_bytes is_op_byte); [apply op_byte_class|done].
    + intros t. rewrite Hcons. destruct (is_word_byte c); try lia. naive_solver.
  - destruct (span_bytes is_word_byte (String c s)) as [w z] eqn:E. pose proof (span_bytes_shorter is_word_byte c s Ew) as Hs. rewrite E in Hs.
    cbn [snd] in Hs. pose proof (span_bytes_spec _ _ _ _ E) as (Es & Hp & _).
    rewrite IH by (cbn [length]; lia). symmetry. apply (take_token _ w); [done| |].
    + apply (ends_blank_bytes is_word_byte); [apply word_byte_class|done].
    + intros t. rewrite Hcons. naive_solver.
  - split; [done|]. intros (t & _ & Hl%Hcons & _). naive_solver.
Qed.

(** The scanner gives the tokens of the text, if it is short enough. *)
Lemma markerTokens_exact s toks :
  markerTokens s = Ok toks ↔ lexes s toks ∧ slen s ≤ maxMarkerBytes ∧ within_tokens 0 s toks.
Proof.
  unfold markerTokens. destruct (Nat.ltb_spec maxMarkerBytes (slen s)); [split; [done|]; intros (_ & ? & _); lia|].
  rewrite tokens_loop_exact by (cbn [length]; lia). cbn [rev length]. naive_solver.
Qed.

(** ** Whole markers *)

Section markers.
Context `{U : GoUnicode} `{R : MapRange}.

(** The trees of a text: what [or] reads when it reads all of it. *)
Definition tree_of (toks : list markerTok) (d : disjunction) : Prop :=
  disj_ok maxMarkerDepth d = true ∧ toks = print_disj d.

Lemma binding_tree e toks x v :
  eval_binding e toks x = Ok v ↔ ∃ d, tree_of toks d ∧ v = eval_disj (compare (with_extra e x)) d.
Proof.
  unfold eval_binding, tree_of. split.
  - destruct (p_or _ _ toks) as [[v' rest]|] eqn:E; [|done]. simpl. destruct rest; [|done]. intros [= <-].
    apply p_or_exact in E as (d & Hok & -> & -> & _). exists d. by rewrite List.app_nil_r.
  - intros (d & [Hok ->] & ->).
    by rewrite (proj2 (p_or_exact _ _ (print_disj d) _ []) ltac:(exists d; by rewrite List.app_nil_r)).
Qed.

Lemma eval_loop_Ok e toks l unknown b r : fst (eval_loop e toks l unknown b) = Ok r →
  if r then ∃ x, x ∈ l ∧ eval_binding e toks x = Ok triTrue
  else unknown = false ∧ ∀ x, x ∈ l → eval_binding e toks x = Ok triFalse.
Proof.
  revert unknown b. induction l as [|x l IH]; intros unknown b; simpl.
  { destruct unknown; [done|]. intros [= <-]. split; [done|]. by intros x ?%elem_of_nil. }
  destruct (match b with None => _ | Some b => _ end) as [spent b'].
  destruct spent; [|done]. simpl. destruct (eval_binding e toks x) as [[]|err] eqn:E; [| | |done].
  - intros H%IH. destruct r; [destruct H as (y & Hy & ?); exists y; by split; [right|]|].
    destruct H as [-> H]. split; [done|]. by intros y [->|Hy]%elem_of_cons; [|apply H].
  - intros [= <-]. exists x. by split; [left|].
  - intros H%IH. destruct r; [destruct H as (y & Hy & ?); exists y; by split; [right|]|]. by destruct H.
Qed.

Lemma eval_loop_exact e toks d l unknown : tree_of toks d →
  fst (eval_loop e toks l unknown None) =
  let value x := eval_disj (compare (with_extra e x)) d in
  if existsb (λ x, bool_decide (value x = triTrue)) l then Ok true
  else if unknown || existsb (λ x, bool_decide (value x = triUnknown)) l then Err errMarkerUnknown
  else Ok false.
Proof.
  intros Ht. revert unknown. induction l as [|x l IH]; intros unknown; cbn zeta; simpl.
  { rewrite orb_false_r. by destruct unknown. }
  rewrite (proj2 (binding_tree e toks x _) ltac:(exists d; done)). simpl.
  destruct (eval_disj _ d); simpl; [by rewrite IH|done|]. rewrite IH. simpl. by rewrite orb_true_r.
Qed.

(** The cache holds what the scanner says. *)
Definition budget_ok (b : option markerBudget) : Prop :=
  ∀ b', b = Some b' → ∀ m t, mb_toks b' !! m = Some t → markerTokens m = Ok t.

Lemma tokens_spec b marker : budget_ok b →
  fst (tokens b marker) = markerTokens marker ∧ budget_ok (snd (tokens b marker)).
Proof.
  intros Hb. unfold tokens. destruct b as [b|]; simpl; [|by destruct (markerTokens marker)].
  destruct (mb_toks b !! marker) as [t|] eqn:E; [by rewrite (Hb b eq_refl _ _ E)|].
  destruct (markerTokens marker) as [t|err] eqn:Et; [|done]. split; [done|]. simpl.
  intros b' [= <-] m t'. simpl. destruct (decide (marker = m)) as [->|Hne].
  - rewrite lookup_insert_eq. by intros [= <-].
  - rewrite lookup_insert_ne by done. by apply Hb.
Qed.

Lemma eval_fst e marker b : budget_ok b →
  fst (eval e marker b) =
  match markerTokens marker with
  | Err err => Err err
  | Ok toks => fst (eval_loop e toks (bindings e) false (snd (tokens b marker)))
  end.
Proof.
  intros Hb. destruct (tokens_spec b marker Hb) as [Hf _]. unfold eval.
  destruct (tokens b marker) as [o b']. simpl in *. subst o. by destruct (markerTokens marker).
Qed.

Lemma elem_of_bindings e x : x ∈ bindings e ↔ x = "" ∨ is_Some (me_extras e !! x).
Proof.
  unfold bindings. rewrite elem_of_app, list_elem_of_singleton, elem_of_sort_strings, elem_of_map_range_keys. tauto.
Qed.

(** C35: the text of a marker is read exactly when it is a text of the grammar
    within the limits, whatever the environment, and its value is that of its
    tree. The text is blanks and tokens with nothing left out: parentheses,
    strings up to the quote they begin with, operators and words as long as they
    go; of at most 4096 bytes and 512 tokens, or 513 when not even a blank
    follows the last. The tokens are a tree written out: comparisons of an
    operand, an operator and an operand, under [and], [or] and at most 32
    parentheses; [and] binds tighter than [or], both associate to the left, and
    no token is skipped or left over. *)
Theorem marker_grammar e s x v :
  (markerTokens s ≫= λ toks, eval_binding e toks x) = Ok v ↔
  ∃ d, lexes s (print_disj d) ∧ slen s ≤ maxMarkerBytes ∧ within_tokens 0 s (print_disj d) ∧
    disj_ok maxMarkerDepth d = true ∧ v = eval_disj (compare (with_extra e x)) d.
Proof.
  split.
  - destruct (markerTokens s) as [toks|err] eqn:E; [|done]. apply markerTokens_exact in E as (Hl & Hb & Hw).
    intros (d & (Hok & ->) & ->)%binding_tree. by exists d.
  - intros (d & Hl & Hb & Hw & Hok & ->). rewrite (proj2 (markerTokens_exact s (print_disj d))) by done.
    apply binding_tree. by exists d.
Qed.

(** [eval] is true exactly when the marker is true for one of the extras
    asked for, or for none; it is false when it is false for all of them; and it
    is undecided when some of them cannot be decided and none is true. *)
Theorem eval_decides e marker toks d :
  markerTokens marker = Ok toks → disj_ok maxMarkerDepth d = true → toks = print_disj d →
  let value x := eval_disj (compare (with_extra e x)) d in
  let asked x := x = "" ∨ is_Some (me_extras e !! x) in
  (fst (eval e marker None) = Ok true ↔ ∃ x, asked x ∧ value x = triTrue) ∧
  (fst (eval e marker None) = Ok false ↔ ∀ x, asked x → value x = triFalse) ∧
  (fst (eval e marker None) = Err errMarkerUnknown ↔
     (∃ x, asked x ∧ value x = triUnknown) ∧ ∀ x, asked x → value x ≠ triTrue).
Proof.
  intros Ht Hok Hd value asked. rewrite eval_fst by done. rewrite Ht.
  assert (Hnone : snd (tokens None marker) = None) by (unfold tokens; simpl; by rewrite Ht).
  rewrite Hnone.
  rewrite (eval_loop_exact e toks d) by done. cbn zeta. fold value. rewrite orb_false_l.
  assert (Hex : ∀ t, existsb (λ x, bool_decide (value x = t)) (bindings e) = true ↔ ∃ x, asked x ∧ value x = t).
  { intros t. rewrite existsb_exists. unfold asked. split.
    - intros (x & Hx%list_elem_of_In%elem_of_bindings & Hv%bool_decide_eq_true). by exists x.
    - intros (x & Hx & Hv). exists x. split; [by apply list_elem_of_In, elem_of_bindings|by apply bool_decide_eq_true]. }
  destruct (existsb (λ x, bool_decide (value x = triTrue)) (bindings e)) eqn:E1.
  { apply Hex in E1 as H1. split_and!; split; try done.
    - intros H. destruct H1 as (x & Hx & Hv). by rewrite H in Hv.
    - intros [_ H]. destruct H1 as (x & Hx & Hv). by apply H in Hv. }
  assert (N1 : ∀ x, asked x → value x ≠ triTrue).
  { intros x Hx Hv. assert (existsb (λ x, bool_decide (value x = triTrue)) (bindings e) = true); [|congruence].
    apply Hex. by exists x. }
  destruct (existsb (λ x, bool_decide (value x = triUnknown)) (bindings e)) eqn:E2.
  { apply Hex in E2 as H2. split_and!; split; try done.
    - intros (x & Hx & Hv). by apply N1 in Hv.
    - intros H. destruct H2 as (x & Hx & Hv). by rewrite H in Hv. }
  assert (N2 : ∀ x, asked x → value x ≠ triUnknown).
  { intros x Hx Hv. assert (existsb (λ x, bool_decide (value x = triUnknown)) (bindings e) = true); [|congruence].
    apply Hex. by exists x. }
  split_and!; split; try done.
  - intros (x & Hx & Hv). by apply N1 in Hv.
  - intros _ x Hx. specialize (N1 x Hx). specialize (N2 x Hx). by destruct (value x).
  - intros [(x & Hx & Hv) _]. by apply N2 in Hv.
Qed.

End markers.

(** ** Witnesses *)

Definition example_env : markerEnv := mk_env "3.12" "x86_64" {["socks" := true]} "" false.
Definition example_marker : string := "python_full_version >= '3.8.1' and extra == 'Socks' or os_name == 'nt'".
Definition example_tree : disjunction :=
  DOr (DOne (CAnd (COne (ACmp (mk_operand true "python_full_version" "") ">=" (mk_operand false "" "3.8.1")))
                  (ACmp (mk_operand true "extra" "") "==" (mk_operand false "" "Socks"))))
      (COne (ACmp (mk_operand true "os_name" "") "==" (mk_operand false "" "nt"))).
Definition example_python (name : string) : option string :=
  if String.eqb name "python_full_version" then Some "3.12.7"
  else if String.eqb name "implementation_version" then Some "3.12.7"
  else if String.eqb name "platform_release" then Some "6.1"
  else match values example_env name with Some (v :: _) => Some v | _ => None end.

Lemma example_describes : describes "3" "12" example_env example_python.
Proof.
  split; [done|]. intros name vals. unfold example_python, full_version.
  destruct (String.eqb_spec name "python_full_version") as [->|Hf].
  { intros _. exists "3.12.7". split; [done|]. exists 7. split; [|done]. apply (Nat.leb_le 7 9999). by vm_compute. }
  destruct (String.eqb_spec name "implementation_version") as [->|Hi].
  { intros _. exists "3.12.7". split; [done|]. exists 7. split; [|done]. apply (Nat.leb_le 7 9999). by vm_compute. }
  cbn [orb]. destruct (String.eqb_spec name "platform_release") as [->|Hr]; [by vm_compute|].
  unfold values. rewrite (proj2 (String.eqb_neq _ _) Hf), (proj2 (String.eqb_neq _ _) Hi). simpl.
  repeat case_match; intros; simplify_eq/=; eauto.
Qed.

Lemma eval_decides_witness :
  markerTokens example_marker = Ok (print_disj example_tree) ∧
  fst (eval example_env example_marker None) = Ok true.
Proof.
  split; [by vm_compute|].
  apply (eval_decides example_env example_marker (print_disj example_tree) example_tree); [by vm_compute|done|done|].
  exists "socks". split; [right; exists true; by vm_compute|by vm_compute].
Defined.


(** A literal that names a patch level in another notation is not among the
    samples: the marker is decided, and wrong for 3.12.4. *)
Lemma other_notation_gap :
  fst (eval example_env "python_full_version != '3.12.4.*'" None) = Ok true ∧
  compare_value "python_full_version" "!=" "3.12.4.*" "3.12.4" = triFalse.
Proof. split; by vm_compute. Qed.

(** The limit on tokens lets one more through when nothing follows it. *)
Lemma one_token_more :
  length <$> (match markerTokens (join "" (replicate 513 "(")) with Ok t => Some t | Err _ => None end) = Some 513 ∧
  markerTokens (join "" (replicate 513 "(") +:+ " ") = Err MarkerTooManyTokens.
Proof. split; by vm_compute. Qed.
