(* ===== verification/PyCore.v ===== *)
(** * PyCore: the CPython runtime of an image

    internal/pycore: versions and their order (version.go), the reading of CVE
    records (cve.go), of the advisory archive (archive.go) and of the release
    lists, the join of the datasets and the match of one version
    (snapshot.go), and what the advisor adds to a scan (pycore.go). JSON is a
    parameter: [PyFeeds] decodes the bytes of a document into its struct. *)

From Stdlib Require Import ZArith Lia Bool Ascii String List Permutation Sorting.Sorted.
From stdpp Require Import base gmap strings list.
From S2P Require Import Prelude GoStrings GoRegexp Decimals Semver GoText Reference Inventory Triage Report Build.

Open Scope string_scope.
Open Scope Z_scope.
Open Scope nat_scope.
Open Scope list_scope.
Open Scope kl_scope.

(** ** Versions (version.go) *)

Definition phaseAlpha : Z := 0.
Definition phaseBeta : Z := 1.
Definition phaseRC : Z := 2.
Definition phaseFinal : Z := 3.

Record version := mk_version {
  v_major : Z; v_minor : Z; v_micro : Z; v_phase : Z; v_pre : Z
}.

#[export] Instance version_eq_dec : EqDecision version.
Proof. solve_decision. Defined.

Definition maxVersionDigits : nat := 9.

Definition versionRe : re :=
  RSeqs [RGroup 1 numRE; RChar "."%char; RGroup 2 numRE; RChar "."%char; RGroup 3 numRE;
         ROpt (RSeq (RGroup 4 (RAlts [RLit "a"; RLit "b"; RLit "rc"])) (RGroup 5 numRE))].

(** One round of the loop over the numbers. *)
Definition version_number (s : string) : option Z :=
  if String.eqb s "" then Some 0%Z
  else if maxVersionDigits <? slen s then None else atoi s.

Definition parseVersion (s : string) : option version :=
  m ← find_full versionRe s;
  major ← version_number (group 1 m);
  minor ← version_number (group 2 m);
  micro ← version_number (group 3 m);
  pre ← version_number (group 5 m);
  Some (if String.eqb (group 4 m) "a" then mk_version major minor micro phaseAlpha pre
        else if String.eqb (group 4 m) "b" then mk_version major minor micro phaseBeta pre
        else if String.eqb (group 4 m) "rc" then mk_version major minor micro phaseRC pre
        else mk_version major minor micro phaseFinal 0).

Definition version_final (v : version) : bool := (v_phase v =? phaseFinal)%Z.

Definition version_String (v : version) : string :=
  signed_itoa (v_major v) +:+ "." +:+ signed_itoa (v_minor v) +:+ "." +:+ signed_itoa (v_micro v) +:+
  (if (v_phase v =? phaseAlpha)%Z then "a" +:+ signed_itoa (v_pre v)
   else if (v_phase v =? phaseBeta)%Z then "b" +:+ signed_itoa (v_pre v)
   else if (v_phase v =? phaseRC)%Z then "rc" +:+ signed_itoa (v_pre v)
   else "").

Definition version_compare (v o : version) : comparison :=
  Z.compare (v_major v) (v_major o) <?> Z.compare (v_minor v) (v_minor o) <?>
  Z.compare (v_micro v) (v_micro o) <?> Z.compare (v_phase v) (v_phase o) <?>
  Z.compare (v_pre v) (v_pre o).

Definition zero_version : version := mk_version 0 0 0 0 0.

Record versionRange := mk_range {
  vr_lo : version; vr_noLower : bool; vr_hi : version; vr_inclusive : bool
}.

Definition range_contains (r : versionRange) (v : version) : bool :=
  if negb (vr_noLower r) && is_lt (version_compare v (vr_lo r)) then false
  else
    match version_compare v (vr_hi r) with
    | Lt => true
    | Eq => vr_inclusive r
    | Gt => false
    end.

Definition anyContains (rs : list versionRange) (v : version) : bool :=
  existsb (λ r, range_contains r v) rs.

(** ** CVE records (cve.go) *)

Definition cnaVendor : string := "Python Software Foundation".
Definition cnaProduct : string := "CPython".

Record rangeItem := mk_item { it_platforms : list string; it_ranges : list versionRange }.

Record cveInfo := mk_info {
  ci_rejected : bool; ci_ranged : bool; ci_severity : string; ci_items : list rangeItem
}.

Record rawVersion := mk_raw_version {
  rv_Version : string; rv_LessThan : string; rv_LessThanOrEqual : string;
  rv_Status : string; rv_VersionType : string; rv_Changes : string
}.

Record rawAffected := mk_raw_affected {
  ra_Vendor : string; ra_Product : string; ra_Platforms : list string; ra_Versions : list rawVersion
}.

(** The base severities of the three scores, [None] for a nil pointer. *)
Record rawMetric := mk_raw_metric { rm_V4 : option string; rm_V31 : option string; rm_V30 : option string }.

Record rawCVE := mk_raw_cve {
  rc_CVEID : string; rc_State : string;
  rc_Affected : list rawAffected; rc_Metrics : list rawMetric; rc_ADP : list (list rawMetric)
}.

Record rawAdvisory := mk_raw_advisory {
  rd_ID : string; rd_Aliases : list string; rd_Summary : string; rd_Details : string;
  rd_Withdrawn : string; rd_References : list (string * string)
}.

(** [IsPublished] is nil, false or true. *)
Record rawRelease := mk_raw_release { rr_Name : string; rr_PreRelease : bool; rr_IsPublished : option bool }.

(** encoding/json on the documents this package reads: [None] is its error. *)
Class PyFeeds := {
  json_cve : string → option rawCVE;
  json_advisory : string → option rawAdvisory;
  json_releases : string → option (list rawRelease);
  json_cycle : string → option (gmap string string)
}.

Inductive cveError :=
  | NotRecord | WrongID | BadState | NoAffected
  | HasChanges | UnknownVersionType | RangeStatus | BadLower | TwoUppers | BadUpper | NoUpper.

Definition checkCVERecord `{PyFeeds} (cve data : string) : option cveError :=
  match json_cve data with
  | None => Some NotRecord
  | Some raw =>
      if negb (String.eqb (rc_CVEID raw) cve) then Some WrongID
      else if equal_fold (rc_State raw) "REJECTED" then None
      else if negb (equal_fold (rc_State raw) "PUBLISHED") then Some BadState
      else match rc_Affected raw with [] => Some NoAffected | _ :: _ => None end
  end.

Definition has_upper (v : rawVersion) : bool :=
  negb (String.eqb (rv_LessThan v) "") || negb (String.eqb (rv_LessThanOrEqual v) "").

Definition is_cpython (a : rawAffected) : bool :=
  String.eqb (ra_Vendor a) cnaVendor && String.eqb (ra_Product a) cnaProduct.

Definition hasCPythonRanges `{PyFeeds} (data : string) : bool :=
  match json_cve data with
  | None => false
  | Some raw =>
      if equal_fold (rc_State raw) "REJECTED" then false
      else existsb (λ a, is_cpython a && existsb has_upper (ra_Versions a)) (rc_Affected raw)
  end.

Definition isRejected `{PyFeeds} (data : string) : bool :=
  match json_cve data with Some raw => equal_fold (rc_State raw) "REJECTED" | None => false end.

(** The range of one affected version. *)
Definition version_range (v : rawVersion) : versionRange + cveError :=
  match (if String.eqb (rv_Version v) "0" then Some (zero_version, true)
         else lo ← parseVersion (rv_Version v); Some (lo, false)) with
  | None => inr BadLower
  | Some (lo, noLower) =>
      let lt := negb (String.eqb (rv_LessThan v) "") in
      let le := negb (String.eqb (rv_LessThanOrEqual v) "") in
      if lt && le then inr TwoUppers
      else if lt then
        match parseVersion (rv_LessThan v) with
        | None => inr BadUpper
        | Some hi => inl (mk_range lo noLower hi false)
        end
      else if le then
        match parseVersion (rv_LessThanOrEqual v) with
        | None => inr BadUpper
        | Some hi => inl (mk_range lo noLower hi true)
        end
      else if noLower then inr NoUpper
      else inl (mk_range lo noLower lo true)
  end.

(** One round of the loop over the versions: [inl None] is [continue]. *)
Definition item_version (v : rawVersion) : option versionRange + cveError :=
  if 0 <? slen (rv_Changes v) then inr HasChanges
  else if negb (existsb (String.eqb (rv_VersionType v)) [""; "python"; "custom"]) then inr UnknownVersionType
  else if negb (String.eqb (rv_Status v) "affected") then
    if has_upper v then inr RangeStatus else inl None
  else match version_range v with inl r => inl (Some r) | inr e => inr e end.

Fixpoint item_ranges (l : list rawVersion) : list versionRange + cveError :=
  match l with
  | [] => inl []
  | v :: l' =>
      match item_version v with
      | inr e => inr e
      | inl o =>
          match item_ranges l' with
          | inr e => inr e
          | inl rs => inl (match o with Some r => r :: rs | None => rs end)
          end
      end
  end.

(** [inl None] is [ranged = false]. *)
Definition parseItem (a : rawAffected) : option rangeItem + cveError :=
  if negb (existsb has_upper (ra_Versions a)) then inl None
  else match item_ranges (ra_Versions a) with
       | inr e => inr e
       | inl rs => inl (Some (mk_item (ra_Platforms a) rs))
       end.

(** The loop over the CNA's affected items. *)
Fixpoint cve_items (l : list rawAffected) : list rangeItem + cveError :=
  match l with
  | [] => inl []
  | a :: l' =>
      if negb (is_cpython a) then cve_items l'
      else
        match parseItem a with
        | inr e => inr e
        | inl o =>
            match cve_items l' with
            | inr e => inr e
            | inl items => inl (match o with Some item => item :: items | None => items end)
            end
        end
  end.

(** The closure [pick]. *)
Fixpoint pick_severity `{GoUnicodeUpper} (get : rawMetric → option string) (l : list rawMetric) : string :=
  match l with
  | [] => ""
  | m :: l' =>
      match get m with
      | None => pick_severity get l'
      | Some s =>
          let s := to_upper (trim_space s) in
          if negb (String.eqb s "") then s else pick_severity get l'
      end
  end.

Fixpoint first_nonempty (l : list string) : string :=
  match l with
  | [] => ""
  | s :: l' => if negb (String.eqb s "") then s else first_nonempty l'
  end.

Definition firstSeverity `{GoUnicodeUpper} (metrics : list rawMetric) : string :=
  first_nonempty ((λ get, pick_severity get metrics) <$> [rm_V4; rm_V31; rm_V30]).

Definition severityOf `{GoUnicodeUpper} (raw : rawCVE) : string :=
  first_nonempty (firstSeverity (rc_Metrics raw) :: (firstSeverity <$> rc_ADP raw) ++ ["UNKNOWN"]).

Definition parseCVE `{PyFeeds, GoUnicodeUpper} (cve data : string) : cveInfo + cveError :=
  match json_cve data with
  | None => inr NotRecord
  | Some raw =>
      if negb (String.eqb (rc_CVEID raw) cve) then inr WrongID
      else if equal_fold (rc_State raw) "REJECTED" then inl (mk_info true false "UNKNOWN" [])
      else
        match cve_items (rc_Affected raw) with
        | inr e => inr e
        | inl items =>
            inl (mk_info false (match items with [] => false | _ :: _ => true end) (severityOf raw) items)
        end
  end.

Definition knownOtherOS : list string := ["windows"; "macos"; "ios"; "android"; "wasi"; "emscripten"].

(** The switch on one platform. *)
Definition platform_matches `{GoUnicode} (osName p : string) : bool :=
  let p := to_lower (trim_space p) in
  let linuxLike := str_contains p "linux" || str_contains p "posix" || str_contains p "unix" in
  (negb linuxLike && negb (existsb (String.eqb p) knownOtherOS)) ||
  (String.eqb osName "linux" && linuxLike) || (negb (String.eqb osName "linux") && String.eqb p osName).

Definition platformApplies `{GoUnicode} (platforms : list string) (osName : string) : bool :=
  match platforms with
  | [] => true
  | _ :: _ =>
      let osName := to_lower (trim_space osName) in
      let osName := if String.eqb osName "" then "linux" else osName in
      existsb (platform_matches osName) platforms
  end.

(** ** The advisory archive (archive.go) *)

Record advisory := mk_advisory {
  ad_id : string; ad_cves : list string; ad_summary : string; ad_details : string;
  ad_url : string; ad_withdrawn : bool
}.

Definition maxArchiveBytes : Z := 16 * 2 ^ 20.
Definition maxArchiveEntries : nat := N.to_nat 20000.
Definition maxAdvisoryBytes : Z := 2 ^ 20.
Definition maxAdvisories : nat := 2000.
Definition maxAliases : nat := 32.

Definition advisoryIDRe : re := RSeqs [RLit "PSF-"; RRep 4 RDigit; RChar "-"%char; RDigit; RUpTo 5 RDigit].
Definition advisoryFileRe : re := RSeqs [RGroup 1 advisoryIDRe; RLit ".json"].
Definition cveIDRe : re :=
  RSeqs [RLit "CVE-"; RGroup 1 (RRep 4 RDigit); RChar "-"%char; RGroup 2 (RSeqs [RRep 4 RDigit; RUpTo 4 RDigit])].

(** The loop over the aliases: [seen] is its map. *)
Fixpoint alias_cves (l : list string) (seen : gset string) : list string :=
  match l with
  | [] => []
  | a :: l' =>
      if match_full cveIDRe a && negb (bool_decide (a ∈ seen)) then a :: alias_cves l' ({[a]} ∪ seen)
      else alias_cves l' seen
  end.

Definition advisory_url (refs : list (string * string)) : string :=
  match List.find (λ r, String.eqb (fst r) "ADVISORY" && negb (String.eqb (snd r) "")) refs with
  | Some r => snd r
  | None => ""
  end.

Definition parseAdvisory `{PyFeeds} (fileID data : string) : option advisory :=
  raw ← json_advisory data;
  if negb (match_full advisoryIDRe (rd_ID raw)) || negb (String.eqb (rd_ID raw) fileID) then None
  else if maxAliases <? length (rd_Aliases raw) then None
  else Some (mk_advisory (rd_ID raw) (alias_cves (rd_Aliases raw) ∅) (trim_space (rd_Summary raw))
               (trim_space (rd_Details raw)) (advisory_url (rd_References raw))
               (negb (String.eqb (rd_Withdrawn raw) ""))).

(** What the tar reader gives: an entry, with the bytes read from it ([None]
    when reading failed), or an error that ends the archive. *)
Inductive tarItem :=
  | TarEntry (name : string) (regular : bool) (size : Z) (body : option string)
  | TarError.

(** The state of the loop. *)
Record archive_acc := mk_archive {
  ac_out : list advisory; ac_seen : gset string; ac_root : string; ac_entries : nat
}.

(** One entry: [None] is an error. *)
Definition archive_step `{PyFeeds} (a : archive_acc) (it : tarItem) : option archive_acc :=
  match it with
  | TarError => None
  | TarEntry name regular size body =>
      let a := mk_archive (ac_out a) (ac_seen a) (ac_root a) (S (ac_entries a)) in
      if maxArchiveEntries <? ac_entries a then None
      else if negb regular then Some a
      else
        match split_byte "/"%char (trim_prefix name "./") with
        | [root; dir; lang; file] =>
            if String.eqb root "" || String.eqb root "." || String.eqb root ".." ||
               negb (String.eqb dir "advisories") || negb (String.eqb lang "python") then Some a
            else
              match find_full advisoryFileRe file with
              | None => Some a
              | Some m =>
                  if negb (String.eqb (ac_root a) "") && negb (String.eqb root (ac_root a)) then None
                  else if (maxAdvisoryBytes <? size)%Z then None
                  else
                    body ← body;
                    if (maxAdvisoryBytes <? Z.of_nat (slen body))%Z then None
                    else if bool_decide (group 1 m ∈ ac_seen a) then None
                    else if maxAdvisories <=? length (ac_out a) then None
                    else
                      adv ← parseAdvisory (group 1 m) body;
                      Some (mk_archive (ac_out a ++ [adv]) ({[group 1 m]} ∪ ac_seen a) root (ac_entries a))
              end
        | _ => Some a
        end
  end.

Fixpoint archive_loop `{PyFeeds} (a : archive_acc) (l : list tarItem) : option archive_acc :=
  match l with
  | [] => Some a
  | it :: l' => a ← archive_step a it; archive_loop a l'
  end.

(** The archive of [size] bytes, [items] as the tar reader gives them, [None]
    when the bytes are not a gzip stream. *)
Definition parseArchive `{PyFeeds} (size : Z) (items : option (list tarItem)) : option (list advisory) :=
  if (maxArchiveBytes <? size)%Z then None
  else
    items ← items;
    a ← archive_loop (mk_archive [] ∅ "" 0) items;
    match ac_out a with
    | [] => None
    | _ :: _ => Some (sort_by (λ x y, str_lt (ad_id x) (ad_id y)) (ac_out a))
    end.

Definition advisoryIDs (advs : list advisory) : gset string := list_to_set (ad_id <$> advs).

Definition newline : string := String "010"%char "".

Definition firstSentence (s : string) : string :=
  let s := trim_space s in
  let s := match split_at s (newline +:+ newline) with Some (a, _) => a | None => s end in
  let s := join " " (fields s) in
  let s := match split_at s ". " with Some (a, _) => a +:+ "." | None => s end in
  trim_space s.

(** ** The snapshot (snapshot.go) *)

Definition osvURLBase : string := "https://osv.dev/vulnerability/".

Record cveAdvisory := mk_cve {
  cv_id : string; cv_title : string; cv_url : string; cv_severity : string; cv_items : list rangeItem
}.

Record Snapshot := mk_snapshot {
  sn_cves : list cveAdvisory;
  sn_finals : gmap Z (list version);
  sn_eol : gmap Z bool;
  sn_outOfScope : nat; sn_rejected : nat; sn_withdrawn : nat
}.

Record Advisory := mk_match {
  am_VulnID : string; am_Title : string; am_URL : string; am_Severity : string;
  am_Status : string; am_FixedVer : string
}.

Definition releaseNameRe : re :=
  RSeqs [RLit "Python "; RGroup 1 (RSeqs [RLit "3."; RPlus RDigit; RChar "."%char; RPlus RDigit])].
Definition cycleLineRe : re := RSeqs [RLit "3."; RGroup 1 numRE].

(** The final release a list entry names. *)
Definition final_release (r : rawRelease) : option version :=
  m ← find_full releaseNameRe (rr_Name r);
  if rr_PreRelease r || negb (default true (rr_IsPublished r)) then None
  else
    v ← parseVersion (group 1 m);
    if version_final v then Some v else None.

Definition add_final (finals : gmap Z (list version)) (v : version) : gmap Z (list version) :=
  <[v_minor v := default [] (finals !! v_minor v) ++ [v]]> finals.

Definition less_version (a b : version) : bool := less_of version_compare a b.

Definition parseReleases `{PyFeeds} (data : string) : option (gmap Z (list version)) :=
  raw ← json_releases data;
  match omap final_release raw with
  | [] => None
  | finals => Some (sort_by less_version <$> foldl add_final ∅ finals)
  end.

(** The line a key of the release cycle names. *)
Definition cycle_line (k : string) : option Z :=
  m ← find_full cycleLineRe k;
  atoi (group 1 m).

Definition cycle_step (eol : gmap Z bool) (kv : string * string) : gmap Z bool :=
  match cycle_line (fst kv) with
  | Some minor => if String.eqb (snd kv) "end-of-life" then <[minor := true]> eol else eol
  | None => eol
  end.

Definition parseReleaseCycle `{PyFeeds, MapRange} (data : string) : option (gmap Z bool) :=
  raw ← json_cycle data;
  if existsb (λ kv, match cycle_line (fst kv) with Some _ => true | None => false end) (map_range raw)
  then Some (foldl cycle_step ∅ (map_range raw))
  else None.

(** A missing record is the zero value. *)
Definition record_of (records : gmap string cveInfo) (id : string) : cveInfo :=
  default (mk_info false false "" []) (records !! id).

Definition cve_of (a : advisory) (id : string) (rec : cveInfo) : cveAdvisory :=
  let title := if String.eqb (ad_summary a) "" then firstSentence (ad_details a) else ad_summary a in
  let url := if String.eqb (ad_url a) "" then osvURLBase +:+ ad_id a else ad_url a in
  mk_cve id title url (ci_severity rec) (ci_items rec).

(** The inner loop, over the CVEs of one advisory; the state is the snapshot
    and [seen]. *)
Definition join_cve (records : gmap string cveInfo) (a : advisory) (st : Snapshot * gset string) (id : string) :
    Snapshot * gset string :=
  let '(sn, seen) := st in
  if bool_decide (id ∈ seen) then st
  else
    let seen := {[id]} ∪ seen in
    let rec := record_of records id in
    if ci_rejected rec
    then (mk_snapshot (sn_cves sn) (sn_finals sn) (sn_eol sn) (sn_outOfScope sn) (S (sn_rejected sn)) (sn_withdrawn sn), seen)
    else if negb (ci_ranged rec)
    then (mk_snapshot (sn_cves sn) (sn_finals sn) (sn_eol sn) (S (sn_outOfScope sn)) (sn_rejected sn) (sn_withdrawn sn), seen)
    else (mk_snapshot (sn_cves sn ++ [cve_of a id rec]) (sn_finals sn) (sn_eol sn) (sn_outOfScope sn) (sn_rejected sn) (sn_withdrawn sn), seen).

Definition join_advisory (records : gmap string cveInfo) (st : Snapshot * gset string) (a : advisory) :
    Snapshot * gset string :=
  let '(sn, seen) := st in
  if ad_withdrawn a
  then (mk_snapshot (sn_cves sn) (sn_finals sn) (sn_eol sn) (sn_outOfScope sn) (sn_rejected sn) (S (sn_withdrawn sn)), seen)
  else foldl (join_cve records a) st (ad_cves a).

Definition newSnapshot (advs : list advisory) (records : gmap string cveInfo)
    (finals : gmap Z (list version)) (eol : gmap Z bool) : Snapshot :=
  let sn := fst (foldl (join_advisory records) (mk_snapshot [] finals eol 0 0 0, ∅) advs) in
  mk_snapshot (sort_by (λ x y, str_lt (cv_id x) (cv_id y)) (sn_cves sn)) (sn_finals sn) (sn_eol sn)
    (sn_outOfScope sn) (sn_rejected sn) (sn_withdrawn sn).

(** The loop of [fixedIn] runs from the last release down: on the reversed
    list, with the fix found so far. *)
Fixpoint fixed_loop (v : version) (ranges : list versionRange) (l : list version) (fix_ : option version) : option version :=
  match l with
  | [] => fix_
  | r :: l' =>
      if negb (is_lt (version_compare v r)) || anyContains ranges r then fix_
      else fixed_loop v ranges l' (Some r)
  end.

Definition fixedIn (sn : Snapshot) (v : version) (ranges : list versionRange) : option version :=
  if negb (v_major v =? 3)%Z then None
  else fixed_loop v ranges (rev (default [] (sn_finals sn !! v_minor v))) None.

Definition cve_ranges `{GoUnicode} (c : cveAdvisory) (osName : string) : list versionRange :=
  List.filter (λ it, platformApplies (it_platforms it) osName) (cv_items c) ≫= it_ranges.

(** One round of [Match]. *)
Definition match_cve `{GoUnicode} (sn : Snapshot) (v : version) (osName : string) (c : cveAdvisory) : option Advisory :=
  let ranges := cve_ranges c osName in
  if negb (anyContains ranges v) then None
  else
    let '(status, fixed) :=
      match fixedIn sn v ranges with
      | Some f => (StatusFixed, version_String f)
      | None => (if default false (sn_eol sn !! v_minor v) then StatusEndOfLife else StatusAffected, "")
      end in
    Some (mk_match (cv_id c) (cv_title c) (cv_url c) (cv_severity c) status fixed).

Definition Match `{GoUnicode} (sn : Snapshot) (v : version) (osName : string) : list Advisory :=
  omap (match_cve sn v osName) (sn_cves sn).

(** ** The advisor (pycore.go) *)

Record RuntimeAugment := mk_augment {
  ra_Findings : list Finding; ra_Packages : list ResultPackages; ra_Unchecked : list string
}.
Definition zero_augment : RuntimeAugment := mk_augment [] [] [].

Definition PythonRuntimePackage : string := "Python runtime".
Definition binaryPrefix : string := "usr/local/bin/python3.".

Definition pythonVersionRe : re := RSeqs [RLit "3."; RGroup 1 numRE; RChar "."%char; RGroup 2 numRE].

(** The last entry of the environment that sets the variable. *)
Definition env_value (name : string) (env : list string) : option string :=
  foldl (λ found e, if has_prefix e (name +:+ "=") then Some (trim_prefix e (name +:+ "=")) else found) None env.

Definition detectVersion (env : list string) : option version :=
  val ← env_value (RuntimeVersionEnv EcosystemPythonRuntime) env;
  if negb (match_full pythonVersionRe val) then None else parseVersion val.

Definition wanted `{GoUnicodeUpper} (severities : list string) : gset string :=
  list_to_set ((λ s, to_upper (trim_space s)) <$> severities).

Definition runtime_finding (bin : string) (ver : version) (adv : Advisory) : Finding :=
  mk_finding ClassLang PythonRuntimePackage (version_String ver) (am_FixedVer adv) (am_Status adv)
    (am_Severity adv) (am_VulnID adv) (am_URL adv) (am_Title adv) EcosystemPythonRuntime bin bin "".

(** [highest] after one more advisory. *)
Definition raise_highest (highest : option version) (adv : Advisory) : option version :=
  if String.eqb (am_Status adv) StatusFixed then
    match parseVersion (am_FixedVer adv) with
    | Some fv =>
        match highest with
        | Some h => if is_lt (version_compare h fv) then Some fv else highest
        | None => Some fv
        end
    | None => highest
    end
  else highest.

Definition set_fixed (highest : option version) (f : Finding) : Finding :=
  match highest with
  | Some h =>
      if String.eqb (fi_Status f) StatusFixed
      then mk_finding (fi_Class f) (fi_Package f) (fi_InstalledVer f) (version_String h) (fi_Status f)
             (fi_Severity f) (fi_VulnID f) (fi_URL f) (fi_Title f) (fi_Type f) (fi_Target f) (fi_PkgPath f) (fi_LayerDiffID f)
      else f
  | None => f
  end.

(** [env] and [osName] are the fields of the scan it reads; the snapshot is
    what [Set] stored last. *)
Definition Augment `{GoUnicode, GoUnicodeUpper} (snap : option Snapshot) (env : list string) (osName : string)
    (severities : list string) : RuntimeAugment :=
  match detectVersion env with
  | None => zero_augment
  | Some ver =>
      match snap with
      | None => mk_augment [] [] [PythonRuntimePackage]
      | Some sn =>
          let bin := binaryPrefix +:+ signed_itoa (v_minor ver) in
          let want := wanted severities in
          let advs := List.filter (λ a, bool_decide (am_Severity a ∈ want)) (Match sn ver osName) in
          let highest := foldl raise_highest None advs in
          let findings := set_fixed highest <$> (runtime_finding bin ver <$> advs) in
          mk_augment (sort_by (λ x y, str_lt (fi_VulnID x) (fi_VulnID y)) findings)
            [mk_result_packages bin ClassLang EcosystemPythonRuntime
               [mk_package PythonRuntimePackage (version_String ver) bin]] []
      end
  end.

(** ** Versions *)

#[export] Instance version_order : CmpOrder version_compare.
Proof.
  change (CmpOrder (cmp_then (cmp_on v_major Z.compare) (cmp_then (cmp_on v_minor Z.compare)
    (cmp_then (cmp_on v_micro Z.compare) (cmp_then (cmp_on v_phase Z.compare) (cmp_on v_pre Z.compare)))))).
  apply _.
Qed.

#[export] Instance version_eq : CmpEq version_compare.
Proof.
  intros [? ? ? ? ?] [? ? ? ? ?]. unfold version_compare. simpl. rewrite !lexc_eq, !Z.compare_eq_iff. naive_solver.
Qed.

Lemma atoi_itoa s n : canonical s = true → atoi s = Some n → signed_itoa n = s.
Proof.
  unfold atoi. intros Hc. destruct (negb _ && _); [|done]. destruct (_ <? _)%Z; [|done]. intros [= <-].
  unfold signed_itoa. rewrite (proj2 (Z.ltb_ge _ _)) by lia. rewrite N2Z.id.
  destruct (itoa_spec (dec_val s)). by apply canonical_inj.
Qed.

Lemma version_number_text s n : canonical s = true → version_number s = Some n → signed_itoa n = s.
Proof.
  intros Hc. unfold version_number. destruct (String.eqb_spec s "") as [->|_]; [done|].
  destruct (_ <? _); [done|]. by apply atoi_itoa.
Qed.

(** The parts a version text is matched into. *)
Definition version_parts (s : string) (m : caps) : Prop :=
  canonical (group 1 m) = true ∧ canonical (group 2 m) = true ∧ canonical (group 3 m) = true ∧
  (group 4 m = "" ∧ group 5 m = "" ∧ s = group 1 m +:+ "." +:+ group 2 m +:+ "." +:+ group 3 m ∨
   (group 4 m = "a" ∨ group 4 m = "b" ∨ group 4 m = "rc") ∧ canonical (group 5 m) = true ∧
   s = group 1 m +:+ "." +:+ group 2 m +:+ "." +:+ group 3 m +:+ group 4 m +:+ group 5 m).

Lemma versionRe_parts s m : find_full versionRe s = Some m → version_parts s m.
Proof.
  intros H%find_full_cap. unfold versionRe in H. cbn [RSeqs] in H.
  apply cap_seq_inv in H as (s1 & r1 & c1 & -> & H1 & H). apply cap_group_inv in H1 as (k1 & -> & H1).
  apply numRE_canonical in H1 as [N1 ->].
  apply cap_seq_inv in H as (d1 & r2 & c2 & -> & Hd & H). apply cap_char in Hd as [-> ->].
  apply cap_seq_inv in H as (s2 & r3 & c3 & -> & H2 & H). apply cap_group_inv in H2 as (k2 & -> & H2).
  apply numRE_canonical in H2 as [N2 ->].
  apply cap_seq_inv in H as (d2 & r4 & c4 & -> & Hd & H). apply cap_char in Hd as [-> ->].
  apply cap_seq_inv in H as (s3 & r5 & c5 & -> & H3 & H). apply cap_group_inv in H3 as (k3 & -> & H3).
  apply numRE_canonical in H3 as [N3 ->].
  unfold version_parts. unfold ROpt in H. apply cap_alt_inv in H as [H|H].
  - apply cap_seq_inv in H as (s4 & s5 & c6 & -> & H4 & H5). apply cap_group_inv in H4 as (k4 & -> & H4).
    apply cap_group_inv in H5 as (k5 & -> & H5). apply numRE_canonical in H5 as [N5 ->].
    assert (k4 = [(3, s3); (2, s2); (1, s1)] ∧ (s4 = "a" ∨ s4 = "b" ∨ s4 = "rc")) as [-> Hs4].
    { cbn [RAlts] in H4. apply cap_alt_inv in H4 as [H4|H4]; [apply cap_char in H4 as [-> ->]; auto|].
      apply cap_alt_inv in H4 as [H4|H4]; [apply cap_char in H4 as [-> ->]; auto|].
      cbn [RLit] in H4. apply cap_seq_inv in H4 as (? & ? & ? & -> & Ha & Hb).
      apply cap_char in Ha as [-> ->], Hb as [-> ->]. auto. }
    cbn [group Nat.eqb]. rewrite !app_cons, !app_nil_l. auto 10.
  - apply cap_eps_inv in H as [-> ->]. cbn [group Nat.eqb]. rewrite !app_cons, !app_nil_l, app_nil_r. auto 10.
Qed.

(** A version is read only from its own text. *)
Lemma parse_String s v : parseVersion s = Some v → version_String v = s.
Proof.
  unfold parseVersion. destruct (find_full versionRe s) as [m|] eqn:Em; [|done]. simpl.
  destruct (versionRe_parts s m Em) as (N1 & N2 & N3 & Hs).
  destruct (version_number (group 1 m)) as [x1|] eqn:E1; [|done]. simpl.
  destruct (version_number (group 2 m)) as [x2|] eqn:E2; [|done]. simpl.
  destruct (version_number (group 3 m)) as [x3|] eqn:E3; [|done]. simpl.
  destruct (version_number (group 5 m)) as [x5|] eqn:E5; [|done]. simpl.
  apply version_number_text in E1, E2, E3; [|done..].
  destruct Hs as [(-> & _ & ->)|(Hp & N5 & ->)].
  - intros [= <-]. unfold version_String. simpl. rewrite E1, E2, E3, app_nil_r. done.
  - apply version_number_text in E5; [|done].
    destruct Hp as [Hp|[Hp|Hp]]; rewrite Hp; intros [= <-]; unfold version_String; simpl;
      rewrite E1, E2, E3, E5; done.
Qed.

Lemma parse_again s v : parseVersion s = Some v → parseVersion (version_String v) = Some v.
Proof. intros H. by rewrite (parse_String s v H). Qed.

(** ** The version that fixes *)

Definition ascending (l : list version) : Prop := StronglySorted (λ a b, version_compare a b ≠ Gt) l.

(** [f] and every later release of the line are outside the ranges. *)
Definition line_clear (finals : list version) (ranges : list versionRange) (f : version) : Prop :=
  ∀ r, r ∈ finals → version_compare f r ≠ Gt → anyContains ranges r = false.

Definition good_release (v : version) (ranges : list versionRange) (r : version) : Prop :=
  version_compare v r = Lt ∧ anyContains ranges r = false.

Lemma fixed_loop_spec v ranges l f :
  ∃ p s, l = p ++ s ∧ Forall (good_release v ranges) p ∧
         (s = [] ∨ ∃ b s', s = b :: s' ∧ ¬ good_release v ranges b) ∧
         fixed_loop v ranges l f = match last p with Some x => Some x | None => f end.
Proof.
  revert f. induction l as [|r l IH]; intros f; cbn [fixed_loop].
  { exists [], []. auto. }
  destruct (negb (is_lt (version_compare v r)) || anyContains ranges r) eqn:E.
  - exists [], (r :: l). split_and!; [done|done| |done]. right. exists r, l. split; [done|].
    intros [Hlt Hc]. rewrite Hlt, Hc in E. done.
  - apply orb_false_iff in E as [Hlt Hc]. apply negb_false_iff in Hlt.
    destruct (IH (Some r)) as (p & s & -> & Hp & Hs & ->). exists (r :: p), s. split_and!; [done| |done|].
    + constructor; [|done]. split; [|done]. by destruct (version_compare v r).
    + destruct p as [|a p]; [done|]. change (last (r :: a :: p)) with (last (a :: p)).
      destruct (last (a :: p)) eqn:E; [done|]. by apply last_None in E.
Qed.

Lemma ascending_versions_app l k : ascending (l ++ k) → ∀ x y, x ∈ l → y ∈ k → version_compare x y ≠ Gt.
Proof.
  induction l as [|z l IH]; simpl; intros Hs x y Hx Hy; [by apply elem_of_nil in Hx|].
  apply StronglySorted_inv in Hs as [Hs Hz]. apply elem_of_cons in Hx as [->|Hx]; [|by apply IH].
  rewrite Forall_forall in Hz. apply Hz. rewrite elem_of_app. auto.
Qed.

Lemma version_not_gt_both x y : version_compare x y ≠ Gt → version_compare y x ≠ Gt → x = y.
Proof.
  intros H1 H2. apply (cmp_eq_eq (cmp := version_compare)). rewrite (cmp_antisym version_compare) in H2.
  by destruct (version_compare x y).
Qed.

Lemma elem_of_rev {A} (x : A) l : x ∈ rev l ↔ x ∈ l.
Proof. rewrite rev_alt. apply elem_of_reverse. Qed.

(** What [fixedIn] answers about a line whose releases are in order. *)
Lemma fixedIn_spec sn v ranges : v_major v = 3%Z →
  let finals := default [] (sn_finals sn !! v_minor v) in
  ascending finals →
  match fixedIn sn v ranges with
  | Some f => f ∈ finals ∧ version_compare v f = Lt ∧ line_clear finals ranges f ∧
              ∀ g, g ∈ finals → version_compare v g = Lt → line_clear finals ranges g → version_compare f g ≠ Gt
  | None => ∀ g, g ∈ finals → version_compare v g = Lt → ¬ line_clear finals ranges g
  end.
Proof.
  intros Hm finals Hs. unfold fixedIn. rewrite Hm. cbn [negb Z.eqb Pos.eqb]. fold finals.
  destruct (fixed_loop_spec v ranges (rev finals) None) as (p & s & Hl & Hp & Hb & ->).
  assert (Hf : finals = rev s ++ rev p) by by rewrite <- rev_app_distr, <- Hl, rev_involutive.
  assert (Hrel : ∀ x y, x ∈ s → y ∈ p → version_compare x y ≠ Gt).
  { intros x y Hx Hy. rewrite Hf in Hs. apply (ascending_versions_app _ _ Hs); by apply elem_of_rev. }
  assert (Hmem : ∀ g, g ∈ finals ↔ g ∈ s ∨ g ∈ p).
  { intros g. by rewrite Hf, elem_of_app, !elem_of_rev. }
  rewrite Forall_forall in Hp.
  assert (Hbad : ∀ g, g ∈ finals → version_compare v g = Lt → line_clear finals ranges g → g ∈ p).
  { intros g Hg Hlt Hc. apply Hmem in Hg as [Hg|]; [exfalso|done].
    destruct Hb as [->|(b & s' & -> & Hb)]; [by apply elem_of_nil in Hg|]. apply Hb.
    assert (Hgb : version_compare g b ≠ Gt).
    { apply elem_of_cons in Hg as [->|Hg]; [by rewrite (cmp_refl version_compare)|].
      rewrite Hf in Hs. simpl in Hs. rewrite <- List.app_assoc in Hs. apply (ascending_versions_app _ _ Hs).
      - by apply elem_of_rev.
      - left. }
    split.
    - by apply (cmp_lt_le_trans version_compare _ g).
    - apply Hc; [|done]. apply Hmem. left. left. }
  destruct (last p) as [f|] eqn:El.
  - apply last_Some in El as [p' ->]. assert (Hfp : f ∈ p' ++ [f]) by (rewrite elem_of_app; right; left).
    destruct (Hp f Hfp) as [Hlt Hc]. split_and!.
    + apply Hmem. auto.
    + done.
    + intros r Hr Hfr. apply Hmem in Hr as [Hr|Hr]; [|by apply Hp].
      assert (r = f) as ->; [|done]. apply version_not_gt_both; [by apply Hrel|done].
    + intros g Hg Hlg Hcg. specialize (Hbad g Hg Hlg Hcg). rewrite Hf, rev_app_distr in Hs. simpl in Hs.
      apply elem_of_app in Hbad as [Hg'|Hg'%list_elem_of_singleton].
      * change (f :: rev p') with ([f] ++ rev p') in Hs. rewrite List.app_assoc in Hs.
        apply (ascending_versions_app _ _ Hs); [rewrite elem_of_app; right; left|].
        by apply elem_of_rev.
      * subst g. by rewrite (cmp_refl version_compare).
  - apply last_None in El as ->. intros g Hg Hlt Hc. specialize (Hbad g Hg Hlt Hc). by apply elem_of_nil in Hbad.
Qed.

(** ** What the release list gives *)

(** The lines of a snapshot are in order, and hold releases of the line read
    from a text. *)
Definition finals_ok (finals : gmap Z (list version)) : Prop :=
  ∀ line l, finals !! line = Some l →
    ascending l ∧ ∀ r, r ∈ l → v_minor r = line ∧ ∃ s, parseVersion s = Some r.

Lemma sorted_ascending l : ascending (sort_by less_version l).
Proof.
  unfold ascending. pose proof (sort_by_sorted less_version (H := less_of_strict_weak version_compare _) l) as H.
  unfold sorted_by in H. induction H as [|x k _ IH Hx]; constructor; [done|].
  eapply Forall_impl; [exact Hx|]. intros y. unfold less_version, less_of.
  rewrite (cmp_antisym version_compare). by destruct (version_compare x y).
Qed.

Lemma foldl_finals l finals :
  (∀ line k r, finals !! line = Some k → r ∈ k → v_minor r = line ∧ ∃ s, parseVersion s = Some r) →
  Forall (λ v, ∃ s, parseVersion s = Some v) l →
  ∀ line k r, foldl add_final finals l !! line = Some k → r ∈ k → v_minor r = line ∧ ∃ s, parseVersion s = Some r.
Proof.
  revert finals. induction l as [|v l IH]; intros finals Hf Hl; simpl; [exact Hf|].
  apply Forall_cons in Hl as [Hv Hl]. apply IH; [|done]. intros line k r. unfold add_final.
  destruct (decide (v_minor v = line)) as [<-|Hne].
  - rewrite lookup_insert_eq. intros [= <-]. rewrite elem_of_app, list_elem_of_singleton. intros [Hr|Hr].
    + destruct (finals !! v_minor v) as [k|] eqn:E; [by apply (Hf _ k)|by apply elem_of_nil in Hr].
    + subst r. by split.
  - rewrite lookup_insert_ne by done. by apply Hf.
Qed.

Lemma parseReleases_ok `{PyFeeds} data finals : parseReleases data = Some finals → finals_ok finals.
Proof.
  unfold parseReleases. destruct (json_releases data) as [raw|]; [|done]. simpl.
  assert (Hall : Forall (λ v, ∃ s, parseVersion s = Some v) (omap final_release raw)).
  { rewrite Forall_forall. intros v (rr & _ & Hv)%list_elem_of_omap. unfold final_release in Hv.
    destruct (find_full releaseNameRe _) as [m|]; [|done]. simpl in Hv. destruct (_ || _); [done|].
    destruct (parseVersion (group 1 m)) as [w|] eqn:Ew; [|done]. simpl in Hv.
    destruct (version_final w); [|done]. injection Hv as <-. eauto. }
  destruct (omap final_release raw) as [|v vs]; [done|]. intros [= <-] line l.
  rewrite lookup_fmap, fmap_Some. intros (k & Hk & ->). split; [apply sorted_ascending|].
  intros r Hr%elem_of_sort_by. apply (foldl_finals (v :: vs) ∅) with k; [|done..].
  intros ? ? ? Hl. by rewrite lookup_empty in Hl.
Qed.

(** ** The join of the datasets *)

(** A CVE is matched when its record is of a CVE in force with ranges. *)
Definition in_scope (records : gmap string cveInfo) (id : string) : bool :=
  negb (ci_rejected (record_of records id)) && ci_ranged (record_of records id).

Definition listed (advs : list advisory) (id : string) : Prop :=
  ∃ a, a ∈ advs ∧ ad_withdrawn a = false ∧ id ∈ ad_cves a.

Record joined (records : gmap string cveInfo) (ids : string → Prop) (st : Snapshot * gset string) : Prop := mk_joined {
  jn_seen : ∀ id, id ∈ snd st ↔ ids id;
  jn_nodup : NoDup (cv_id <$> sn_cves (fst st));
  jn_ids : ∀ id, id ∈ cv_id <$> sn_cves (fst st) ↔ id ∈ snd st ∧ in_scope records id = true;
  jn_record : ∀ c, c ∈ sn_cves (fst st) →
    cv_items c = ci_items (record_of records (cv_id c)) ∧ cv_severity c = ci_severity (record_of records (cv_id c))
}.

Lemma joined_ext records (P Q : string → Prop) st : (∀ id, P id ↔ Q id) → joined records P st → joined records Q st.
Proof. intros H [H1 H2 H3 H4]. constructor; [|done..]. intros id. by rewrite H1. Qed.

Lemma join_cve_joined records a ids st id : joined records ids st →
  joined records (λ x, ids x ∨ x = id) (join_cve records a st id).
Proof.
  destruct st as [sn seen]. intros [H1 H2 H3 H4]. simpl in *. destruct (bool_decide (id ∈ seen)) eqn:Eb.
  { apply bool_decide_eq_true in Eb. constructor; simpl; [|done..]. intros x. rewrite H1. split; [auto|].
    intros [| ->]; [done|by apply H1]. }
  apply bool_decide_eq_false in Eb.
  assert (Hseen : ∀ x, x ∈ {[id]} ∪ seen ↔ ids x ∨ x = id).
  { intros x. rewrite elem_of_union, elem_of_singleton, H1. tauto. }
  assert (Hout : in_scope records id = false →
    ∀ x, x ∈ cv_id <$> sn_cves sn ↔ x ∈ {[id]} ∪ seen ∧ in_scope records x = true).
  { intros Hs x. rewrite H3, elem_of_union, elem_of_singleton. split; [tauto|].
    intros [[->|Hx] Hr]; [congruence|tauto]. }
  destruct (ci_rejected (record_of records id)) eqn:Er.
  { constructor; simpl; [done|done| |done]. apply Hout. unfold in_scope. by rewrite Er. }
  destruct (ci_ranged (record_of records id)) eqn:Eg; simpl.
  - constructor; simpl; [done|..].
    + rewrite fmap_app, NoDup_app. split_and!; [done| |apply NoDup_singleton].
      intros x Hx ->%list_elem_of_singleton. by apply H3 in Hx as [? _].
    + intros x. rewrite fmap_app, elem_of_app, H3, elem_of_union, elem_of_singleton. simpl.
      rewrite list_elem_of_singleton. split; [|tauto].
      intros [[? ?]| ->]; [tauto|]. split; [auto|]. unfold in_scope. by rewrite Er, Eg.
    + intros c. rewrite elem_of_app, list_elem_of_singleton. intros [Hc| ->]; [by apply H4|done].
  - constructor; simpl; [done|done| |done]. apply Hout. unfold in_scope. by rewrite Er, Eg.
Qed.

Lemma join_advisory_joined records a ids st : joined records ids st →
  joined records (λ x, ids x ∨ ad_withdrawn a = false ∧ x ∈ ad_cves a) (join_advisory records st a).
Proof.
  intros H. destruct st as [sn seen]. simpl. destruct (ad_withdrawn a).
  { destruct H. constructor; simpl in *; [|done..]. intros x. rewrite jn_seen0. naive_solver. }
  generalize dependent (sn, seen). intros st. clear sn seen. revert st ids.
  induction (ad_cves a) as [|id l IH]; intros st ids H; simpl.
  { eapply joined_ext; [|exact H]. intros x. rewrite elem_of_nil. tauto. }
  eapply joined_ext; [|apply IH, join_cve_joined, H]. intros x. simpl. rewrite elem_of_cons. tauto.
Qed.

Lemma newSnapshot_joined advs records finals eol :
  joined records (listed advs) (foldl (join_advisory records) (mk_snapshot [] finals eol 0 0 0, ∅) advs) ∧
  sn_finals (newSnapshot advs records finals eol) = finals ∧
  sn_eol (newSnapshot advs records finals eol) = eol.
Proof.
  assert (Hj : ∀ l st ids, joined records ids st →
    joined records (λ x, ids x ∨ listed l x) (foldl (join_advisory records) st l)).
  { induction l as [|a l IH]; intros st ids H; simpl.
    - eapply joined_ext; [|exact H]. intros x. unfold listed. split; [auto|].
      intros [|(a & Ha & _)]; [done|by apply elem_of_nil in Ha].
    - eapply joined_ext; [|apply IH, join_advisory_joined, H]. intros x. unfold listed. simpl.
      setoid_rewrite elem_of_cons. naive_solver. }
  assert (Hc : ∀ a l st, sn_finals (fst (foldl (join_cve records a) st l)) = sn_finals (fst st) ∧
                         sn_eol (fst (foldl (join_cve records a) st l)) = sn_eol (fst st)).
  { intros a l. induction l as [|id l IH]; intros st; simpl; [done|]. destruct (IH (join_cve records a st id)) as [-> ->].
    destruct st as [sn seen]. simpl. by repeat case_match. }
  assert (Ha : ∀ l st, sn_finals (fst (foldl (join_advisory records) st l)) = sn_finals (fst st) ∧
                       sn_eol (fst (foldl (join_advisory records) st l)) = sn_eol (fst st)).
  { induction l as [|a l IH]; intros st; simpl; [done|]. destruct (IH (join_advisory records st a)) as [-> ->].
    destruct st as [sn seen]. simpl. destruct (ad_withdrawn a); [done|]. apply Hc. }
  split; [|apply (Ha advs (mk_snapshot [] finals eol 0 0 0, ∅))].
  eapply joined_ext; [|apply (Hj advs _ (λ _, False))]; [intros; tauto|].
  constructor; simpl; [set_solver|constructor|set_solver|]. intros c Hc'. by apply elem_of_nil in Hc'.
Qed.

(** The CVEs of a snapshot: each listed CVE in scope once, in the order of
    their ids, with what its record says. *)
Lemma newSnapshot_cves advs records finals eol :
  let sn := newSnapshot advs records finals eol in
  NoDup (cv_id <$> sn_cves sn) ∧
  (∀ id, id ∈ cv_id <$> sn_cves sn ↔ listed advs id ∧ in_scope records id = true) ∧
  (∀ c, c ∈ sn_cves sn → cv_items c = ci_items (record_of records (cv_id c)) ∧
                          cv_severity c = ci_severity (record_of records (cv_id c))).
Proof.
  destruct (newSnapshot_joined advs records finals eol) as ([H1 H2 H3 H4] & _). unfold newSnapshot. simpl.
  set (cves := sn_cves _) in *.
  pose proof (sort_by_perm (λ x y, str_lt (cv_id x) (cv_id y)) cves) as Hp.
  split_and!.
  - by rewrite Hp.
  - intros id. rewrite Hp, H3, H1. done.
  - intros c. rewrite Hp. apply H4.
Qed.

Section matching.
Context `{GoUnicode}.

Lemma anyContains_spec rs v : anyContains rs v = true ↔ ∃ r, r ∈ rs ∧ range_contains r v = true.
Proof.
  unfold anyContains. rewrite existsb_exists.
  split; intros (r & Hr & Hv); exists r; (split; [|done]); by apply list_elem_of_In.
Qed.

Lemma cve_ranges_spec c os r :
  r ∈ cve_ranges c os ↔ ∃ it, it ∈ cv_items c ∧ platformApplies (it_platforms it) os = true ∧ r ∈ it_ranges it.
Proof.
  unfold cve_ranges. rewrite list_elem_of_bind. split.
  - intros (it & Hr & [Hit Hp]%list_elem_of_In%filter_In). exists it. by rewrite list_elem_of_In.
  - intros (it & Hit & Hp & Hr). exists it. split; [done|]. apply list_elem_of_In, filter_In. by rewrite <- list_elem_of_In.
Qed.

Lemma match_cve_Some sn v os c a : match_cve sn v os c = Some a ↔
  anyContains (cve_ranges c os) v = true ∧
  a = mk_match (cv_id c) (cv_title c) (cv_url c) (cv_severity c)
        (match fixedIn sn v (cve_ranges c os) with
         | Some _ => StatusFixed
         | None => if default false (sn_eol sn !! v_minor v) then StatusEndOfLife else StatusAffected
         end)
        (match fixedIn sn v (cve_ranges c os) with Some f => version_String f | None => "" end).
Proof.
  unfold match_cve. destruct (anyContains (cve_ranges c os) v); simpl; [|naive_solver].
  destruct (fixedIn sn v (cve_ranges c os)); naive_solver.
Qed.

(** C34: an image's CPython is reported for exactly the CVEs some advisory that
    was not withdrawn lists, whose record is not rejected and gives, for a
    platform that is or may be this one, a range with the version; each once. *)
Theorem Match_exact advs records finals eol v os id :
  let sn := newSnapshot advs records finals eol in
  NoDup (am_VulnID <$> Match sn v os) ∧
  (id ∈ am_VulnID <$> Match sn v os ↔
   (∃ a, a ∈ advs ∧ ad_withdrawn a = false ∧ id ∈ ad_cves a) ∧
   ci_rejected (record_of records id) = false ∧ ci_ranged (record_of records id) = true ∧
   ∃ it r, it ∈ ci_items (record_of records id) ∧ platformApplies (it_platforms it) os = true ∧
           r ∈ it_ranges it ∧ range_contains r v = true).
Proof.
  intros sn. destruct (newSnapshot_cves advs records finals eol) as (Hn & Hids & Hrec). fold sn in Hn, Hids, Hrec.
  unfold Match. split.
  - clear Hids Hrec. induction (sn_cves sn) as [|c l IH]; simpl in *; [constructor|].
    apply NoDup_cons in Hn as [Hc Hl]. destruct (match_cve sn v os c) as [a|] eqn:E; [|auto]. simpl.
    apply NoDup_cons. split; [|auto]. apply match_cve_Some in E as [_ ->]. simpl.
    intros (b & Hb & (c' & Hc' & E)%list_elem_of_omap)%list_elem_of_fmap.
    apply match_cve_Some in E as [_ ->]. simpl in Hb. apply Hc. apply list_elem_of_fmap. by exists c'.
  - rewrite list_elem_of_fmap. setoid_rewrite list_elem_of_omap. setoid_rewrite match_cve_Some.
    setoid_rewrite anyContains_spec. setoid_rewrite cve_ranges_spec. split.
    + intros (a & -> & c & Hc & (r & (it & Hit & Hp & Hr) & Hv) & ->). simpl.
      destruct (Hrec c Hc) as [Hi _]. assert (Hid : cv_id c ∈ cv_id <$> sn_cves sn) by (apply list_elem_of_fmap; by exists c).
      apply Hids in Hid as [Hl Hs]. unfold in_scope in Hs. apply andb_prop in Hs as [Hs1 Hs2].
      split_and!; [exact Hl|by apply negb_true_iff|done|]. exists it, r. by rewrite <- Hi.
    + intros (Hl & Hr1 & Hr2 & it & r & Hit & Hp & Hr & Hv).
      assert (Hid : id ∈ cv_id <$> sn_cves sn). { apply Hids. split; [exact Hl|]. unfold in_scope. by rewrite Hr1, Hr2. }
      apply list_elem_of_fmap in Hid as (c & -> & Hc). destruct (Hrec c Hc) as [Hi _].
      eexists. split; [|exists c; split; [done|]; split; [|reflexivity]; exists r; split; [|done]; exists it; by rewrite Hi].
      done.
Qed.
End matching.

(** ** The highest of the fixes *)

(** The fold both advisors compute: it keeps the highest of what [fix] reads. *)
Section highest.
Context {A B : Type} (cmp : A → A → comparison) `{!CmpOrder cmp} (fix_ : B → option A) (raise : option A → B → option A).
Hypothesis Hraise : ∀ h b, raise h b =
  match fix_ b with
  | Some fv => match h with Some h0 => if is_lt (cmp h0 fv) then Some fv else h | None => Some fv end
  | None => h
  end.

(** It is one of the fixes, and none is above it. *)
Lemma highest_of l h0 :
  match foldl raise h0 l with
  | Some h => (h0 = Some h ∨ h ∈ omap fix_ l) ∧ ∀ x, h0 = Some x ∨ x ∈ omap fix_ l → cmp x h ≠ Gt
  | None => h0 = None ∧ omap fix_ l = []
  end.
Proof.
  revert h0. induction l as [|a l IH]; intros h0; simpl.
  { destruct h0 as [h|]; [|done]. split; [auto|]. intros x [[= ->]|Hx]; [by rewrite (cmp_refl cmp)|].
    by apply elem_of_nil in Hx. }
  specialize (IH (raise h0 a)). rewrite Hraise in *. destruct (fix_ a) as [fv|]; [|exact IH].
  destruct h0 as [h0|].
  - destruct (is_lt (cmp h0 fv)) eqn:El.
    + destruct (foldl raise (Some fv) l) as [h|]; [|naive_solver]. destruct IH as [Hh Hall]. split.
      * rewrite elem_of_cons. naive_solver.
      * intros x. rewrite elem_of_cons. intros [[= <-]|[->|Hx]]; [|auto..].
        assert (cmp fv h ≠ Gt) by auto. assert (cmp h0 fv ≠ Gt) by by destruct (cmp h0 fv).
        by apply (cmp_le_trans cmp _ fv).
    + destruct (foldl raise (Some h0) l) as [h|]; [|naive_solver]. destruct IH as [Hh Hall]. split.
      * rewrite elem_of_cons. naive_solver.
      * intros x. rewrite elem_of_cons. intros [[= <-]|[->|Hx]]; [auto| |auto].
        assert (cmp h0 h ≠ Gt) by auto. apply (cmp_le_trans cmp _ h0); [|done].
        rewrite (cmp_antisym cmp). by destruct (cmp h0 fv).
  - destruct (foldl raise (Some fv) l) as [h|]; [|naive_solver]. destruct IH as [Hh Hall]. split.
    + rewrite elem_of_cons. naive_solver.
    + intros x. rewrite elem_of_cons. intros [?|[->|Hx]]; [done|auto..].
Qed.
End highest.

(** ** The version of the group *)

Section augment.
Context `{GoUnicode, GoUnicodeUpper}.

Definition fix_of (a : Advisory) : option version :=
  if String.eqb (am_Status a) StatusFixed then parseVersion (am_FixedVer a) else None.

Lemma raise_highest_fix h0 a : raise_highest h0 a =
  match fix_of a with
  | Some fv => match h0 with Some h => if is_lt (version_compare h fv) then Some fv else h0 | None => Some fv end
  | None => h0
  end.
Proof. unfold raise_highest, fix_of. destruct (String.eqb _ _); [|done]. by destruct (parseVersion _). Qed.

Lemma fixedIn_major sn v ranges f : fixedIn sn v ranges = Some f → v_major v = 3%Z.
Proof. unfold fixedIn. destruct (Z.eqb_spec (v_major v) 3); [done|]. simpl. done. Qed.

Lemma ascending_line finals line : finals_ok finals → ascending (default [] (finals !! line)).
Proof.
  intros Hok. destruct (finals !! line) as [l|] eqn:E; simpl; [|constructor]. by destruct (Hok line l E).
Qed.

(** A match with a fix: the fix is a release of the line that reads back. *)
Lemma Match_fix sn v os a : finals_ok (sn_finals sn) → a ∈ Match sn v os → am_Status a = StatusFixed →
  ∃ c f, c ∈ sn_cves sn ∧ cv_id c = am_VulnID a ∧ am_FixedVer a = version_String f ∧ fix_of a = Some f ∧
         let line := default [] (sn_finals sn !! v_minor v) in
         f ∈ line ∧ version_compare v f = Lt ∧ line_clear line (cve_ranges c os) f.
Proof.
  intros Hok (c & Hc & [_ ->]%match_cve_Some)%list_elem_of_omap. simpl. intros Hst.
  destruct (fixedIn sn v (cve_ranges c os)) as [f|] eqn:Ef.
  2: { destruct (default false (sn_eol sn !! v_minor v)); discriminate Hst. }
  pose proof (fixedIn_spec sn v (cve_ranges c os) (fixedIn_major _ _ _ _ Ef) (ascending_line _ _ Hok)) as Hs.
  rewrite Ef in Hs. destruct Hs as (Hf & Hlt & Hclear & _).
  exists c, f. split_and!; try done.
  unfold fix_of. simpl. destruct (sn_finals sn !! v_minor v) as [l|] eqn:El; [|by apply elem_of_nil in Hf].
  destruct (Hok _ _ El) as [_ Hr]. destruct (Hr f Hf) as [_ [s Hp]]. by apply (parse_again s).
Qed.

(** The advisories that are reported. *)
Definition reported (sn : Snapshot) (ver : version) (os : string) (sevs : list string) : list Advisory :=
  List.filter (λ a, bool_decide (am_Severity a ∈ wanted sevs)) (Match sn ver os).

Lemma elem_of_reported sn ver os sevs a : a ∈ reported sn ver os sevs ↔ a ∈ Match sn ver os ∧ am_Severity a ∈ wanted sevs.
Proof.
  unfold reported. rewrite list_elem_of_In, filter_In, <- list_elem_of_In, bool_decide_eq_true. done.
Qed.

Lemma Augment_findings sn env os sevs ver g : detectVersion env = Some ver →
  g ∈ ra_Findings (Augment (Some sn) env os sevs) ↔
  ∃ a, a ∈ reported sn ver os sevs ∧
       g = set_fixed (foldl raise_highest None (reported sn ver os sevs))
             (runtime_finding (binaryPrefix +:+ signed_itoa (v_minor ver)) ver a).
Proof.
  intros Hd. unfold Augment. rewrite Hd. simpl. rewrite elem_of_sort_by. unfold reported.
  rewrite list_elem_of_fmap. setoid_rewrite list_elem_of_fmap. naive_solver.
Qed.

Lemma set_fixed_same h f : fi_Status (set_fixed h f) = fi_Status f ∧ fi_VulnID (set_fixed h f) = fi_VulnID f.
Proof. unfold set_fixed. destruct h; [|done]. by destruct (String.eqb (fi_Status f) StatusFixed). Qed.

(** C22: the fixed version shown for the runtime fixes it: every fixable finding
    carries one and the same version, a published release of the line above the
    installed one, and neither that release nor any later one of the line is
    affected by any of the CVEs reported as fixed. *)
Theorem Augment_fixes_all sn env os sevs ver f :
  finals_ok (sn_finals sn) → detectVersion env = Some ver →
  f ∈ ra_Findings (Augment (Some sn) env os sevs) → fi_Status f = StatusFixed →
  let line := default [] (sn_finals sn !! v_minor ver) in
  ∃ F, F ∈ line ∧ version_compare ver F = Lt ∧
       ∀ g, g ∈ ra_Findings (Augment (Some sn) env os sevs) → fi_Status g = StatusFixed →
         fi_FixedVer g = version_String F ∧
         ∃ c, c ∈ sn_cves sn ∧ cv_id c = fi_VulnID g ∧ line_clear line (cve_ranges c os) F.
Proof.
  intros Hok Hd Hf Hst line. setoid_rewrite (Augment_findings sn env os sevs ver); [|done].
  apply (Augment_findings _ _ _ _ ver) in Hf as (a & Ha & ->); [|done].
  set (advs := reported sn ver os sevs) in *. set (h := foldl raise_highest None advs).
  rewrite (proj1 (set_fixed_same _ _)) in Hst. simpl in Hst.
  assert (Hfix : ∀ b, b ∈ advs → am_Status b = StatusFixed →
    ∃ c x, c ∈ sn_cves sn ∧ cv_id c = am_VulnID b ∧ x ∈ omap fix_of advs ∧ x ∈ line ∧
           version_compare ver x = Lt ∧ line_clear line (cve_ranges c os) x).
  { intros b Hb Hs. pose proof (proj1 (elem_of_reported _ _ _ _ _) Hb) as [Hm _].
    destruct (Match_fix _ _ _ _ Hok Hm Hs) as (c & x & ? & ? & ? & ? & ? & ? & ?).
    exists c, x. split_and!; try done. apply list_elem_of_omap. by exists b. }
  pose proof (highest_of version_compare fix_of raise_highest raise_highest_fix advs None) as Hh. fold h in Hh. destruct h as [F|] eqn:Eh.
  2: { destruct (Hfix a Ha Hst) as (_ & x & _ & _ & Hx & _). destruct Hh as [_ Hn]. rewrite Hn in Hx. by apply elem_of_nil in Hx. }
  destruct Hh as [[?|HF] Hall]; [done|].
  apply list_elem_of_omap in HF as (b & Hb & HbF). assert (Hbs : am_Status b = StatusFixed).
  { unfold fix_of in HbF. by destruct (String.eqb_spec (am_Status b) StatusFixed). }
  pose proof (proj1 (elem_of_reported _ _ _ _ _) Hb) as [Hbm _].
  destruct (Match_fix _ _ _ _ Hok Hbm Hbs) as (cb & xb & _ & _ & _ & HxF & Hin & Hlt & _).
  rewrite HbF in HxF. injection HxF as <-. exists F. split_and!; [done|done|].
  intros g (d & Hdm & ->) Hgs. rewrite (proj1 (set_fixed_same _ _)) in Hgs. simpl in Hgs.
  rewrite (proj2 (set_fixed_same _ _)). simpl. split.
  - unfold set_fixed. cbn [fi_Status runtime_finding]. by rewrite Hgs, String.eqb_refl.
  - destruct (Hfix d Hdm Hgs) as (c & x & Hc & Hid & Hx & Hxl & Hxlt & Hclear). exists c. split_and!; [done|done|].
    intros r Hr HFr. apply Hclear; [done|]. apply (cmp_le_trans version_compare _ F); [|done]. apply Hall. auto.
Qed.
End augment.

(** ** Nothing of a CVE record is skipped *)

Lemma item_ranges_all l rs : item_ranges l = inl rs →
  (∀ v, v ∈ l → rv_Status v = "affected" → ∃ r, version_range v = inl r ∧ r ∈ rs) ∧
  (∀ r, r ∈ rs → ∃ v, v ∈ l ∧ rv_Status v = "affected" ∧ version_range v = inl r).
Proof.
  revert rs. induction l as [|v l IH]; intros rs; simpl.
  { intros [= <-]. split; intros x Hx; by apply elem_of_nil in Hx. }
  destruct (item_version v) as [o|e] eqn:Ev; [|done]. destruct (item_ranges l) as [rs'|e] eqn:El; [|done].
  intros [= <-]. destruct (IH rs' eq_refl) as [IH1 IH2].
  assert (Hv : match o with
               | Some r => rv_Status v = "affected" ∧ version_range v = inl r
               | None => rv_Status v ≠ "affected"
               end).
  { unfold item_version in Ev. destruct (0 <? slen (rv_Changes v)); [done|]. destruct (negb _); [done|].
    destruct (String.eqb_spec (rv_Status v) "affected") as [Hs|Hs]; simpl in Ev.
    - destruct (version_range v) as [r|]; [|done]. by injection Ev as <-.
    - destruct (has_upper v); [done|]. by injection Ev as <-. }
  destruct o as [r|].
  - destruct Hv as [Hs Hr]. split.
    + intros x [->|Hx]%elem_of_cons Hxs.
      * exists r. split; [done|left].
      * destruct (IH1 x Hx Hxs) as (r' & ? & ?). exists r'. split; [done|by right].
    + intros x [->|Hx]%elem_of_cons.
      * exists v. split; [left|done].
      * destruct (IH2 x Hx) as (v' & ? & ?). exists v'. split; [by right|done].
  - split.
    + intros x [->|Hx]%elem_of_cons Hxs; [done|by apply IH1].
    + intros x Hx. destruct (IH2 x Hx) as (v' & ? & ?). exists v'. split; [by right|done].
Qed.

(** An item of the record, as the information keeps it. *)
Definition item_kept (a : rawAffected) (it : rangeItem) : Prop :=
  it_platforms it = ra_Platforms a ∧
  (∀ v, v ∈ ra_Versions a → rv_Status v = "affected" → ∃ r, version_range v = inl r ∧ r ∈ it_ranges it) ∧
  (∀ r, r ∈ it_ranges it → ∃ v, v ∈ ra_Versions a ∧ rv_Status v = "affected" ∧ version_range v = inl r).

Lemma cve_items_all l items : cve_items l = inl items →
  (∀ a, a ∈ l → is_cpython a = true → existsb has_upper (ra_Versions a) = true → ∃ it, it ∈ items ∧ item_kept a it) ∧
  (∀ it, it ∈ items → ∃ a, a ∈ l ∧ is_cpython a = true ∧ item_kept a it).
Proof.
  revert items. induction l as [|a l IH]; intros items; simpl.
  { intros [= <-]. split; intros x Hx; by apply elem_of_nil in Hx. }
  destruct (is_cpython a) eqn:Ec; simpl.
  2: { intros H. destruct (IH _ H) as [IH1 IH2]. split.
       - intros x [->|Hx]%elem_of_cons; [congruence|auto].
       - intros it Hit. destruct (IH2 it Hit) as (x & ? & ?). exists x. split; [by right|done]. }
  unfold parseItem. destruct (existsb has_upper (ra_Versions a)) eqn:Eu; simpl.
  - destruct (item_ranges (ra_Versions a)) as [rs|e] eqn:Er; [|done].
    destruct (cve_items l) as [items'|e] eqn:El; [|done]. intros [= <-]. destruct (IH _ eq_refl) as [IH1 IH2].
    assert (Hk : item_kept a (mk_item (ra_Platforms a) rs)) by (split; [done|by apply item_ranges_all]). split.
    + intros x [->|Hx]%elem_of_cons Hxc Hxu.
      * eexists. split; [left|exact Hk].
      * destruct (IH1 x Hx Hxc Hxu) as (it & ? & ?). exists it. split; [by right|done].
    + intros it [->|Hit]%elem_of_cons.
      * exists a. split; [left|done].
      * destruct (IH2 it Hit) as (x & ? & ?). exists x. split; [by right|done].
  - destruct (cve_items l) as [items'|e] eqn:El; [|done]. intros [= <-]. destruct (IH _ eq_refl) as [IH1 IH2]. split.
    + intros x [->|Hx]%elem_of_cons Hxc Hxu; [congruence|auto].
    + intros it Hit. destruct (IH2 it Hit) as (x & ? & ?). exists x. split; [by right|done].
Qed.

(** C36: a CVE record is read completely or not at all: when it is accepted, and
    not rejected, every affected version of every CPython item with an upper
    bound is one of the ranges, for the platforms of its item, and every range
    comes from one; so no affected version is dropped in silence. *)
Theorem parseCVE_complete `{PyFeeds, GoUnicodeUpper} cve data raw info :
  parseCVE cve data = inl info → json_cve data = Some raw → ci_rejected info = false →
  rc_CVEID raw = cve ∧
  (∀ a, a ∈ rc_Affected raw → is_cpython a = true → existsb has_upper (ra_Versions a) = true →
     ∃ it, it ∈ ci_items info ∧ it_platforms it = ra_Platforms a ∧
       ∀ v, v ∈ ra_Versions a → rv_Status v = "affected" → ∃ r, version_range v = inl r ∧ r ∈ it_ranges it) ∧
  (∀ it r, it ∈ ci_items info → r ∈ it_ranges it →
     ∃ a v, a ∈ rc_Affected raw ∧ is_cpython a = true ∧ it_platforms it = ra_Platforms a ∧
            v ∈ ra_Versions a ∧ rv_Status v = "affected" ∧ version_range v = inl r) ∧
  (ci_ranged info = true ↔ ∃ a, a ∈ rc_Affected raw ∧ is_cpython a = true ∧ existsb has_upper (ra_Versions a) = true).
Proof.
  unfold parseCVE. intros Hp Hj Hr. rewrite Hj in Hp.
  destruct (String.eqb_spec (rc_CVEID raw) cve) as [Hid|]; [simpl in Hp|done].
  destruct (equal_fold _ _); [by injection Hp as <-|].
  destruct (cve_items (rc_Affected raw)) as [items|e] eqn:Ei; [|done]. injection Hp as <-. simpl.
  destruct (cve_items_all _ _ Ei) as [H1 H2]. split_and!; [done|..].
  - intros a Ha Hc Hu. destruct (H1 a Ha Hc Hu) as (it & Hit & Hpl & Hv & _). by exists it.
  - intros it r Hit Hrr. destruct (H2 it Hit) as (a & Ha & Hc & Hpl & _ & Hv). destruct (Hv r Hrr) as (v & ? & ? & ?).
    by exists a, v.
  - split.
    + destruct items as [|it items']; [done|]. intros _. clear H1 H2 Hr. revert it items' Ei.
      induction (rc_Affected raw) as [|a l IH]; intros it items' Ei; [done|]. simpl in Ei.
      destruct (is_cpython a) eqn:Ec; simpl in Ei.
      2: { destruct (IH _ _ Ei) as (x & ? & ?). exists x. split; [by right|done]. }
      destruct (existsb has_upper (ra_Versions a)) eqn:Eu; [exists a; split; [left|done]|].
      unfold parseItem in Ei. rewrite Eu in Ei. simpl in Ei. destruct (cve_items l) as [k|e]; [|done].
      injection Ei as ->. destruct (IH _ _ eq_refl) as (x & ? & ?). exists x. split; [by right|done].
    + intros (a & Ha & Hc & Hu). destruct (H1 a Ha Hc Hu) as (it & Hit & _). by destruct items; [apply elem_of_nil in Hit|].
Qed.

(** ** Witnesses *)

Definition example_v (minor micro : Z) : version := mk_version 3 minor micro phaseFinal 0.

Definition example_finals : gmap Z (list version) :=
  {[12%Z := [example_v 12 0; example_v 12 1; example_v 12 2; example_v 12 3]]}.

Definition example_raw : rawCVE :=
  mk_raw_cve "CVE-2024-0001" "PUBLISHED"
    [mk_raw_affected cnaVendor cnaProduct []
       [mk_raw_version "0" "3.12.2" "" "affected" "python" ""; mk_raw_version "3.13.0a1" "" "3.13.0rc1" "affected" "" ""]]
    [mk_raw_metric None (Some "high") None] [].

Definition example_feeds : PyFeeds := {|
  json_cve := λ s, if String.eqb s "record" then Some example_raw else None;
  json_advisory := λ _, None;
  json_releases := λ _, None;
  json_cycle := λ _, None
|}.

Definition example_range (lo hi : version) : versionRange := mk_range lo false hi false.

Definition example_snapshot : Snapshot :=
  newSnapshot
    [mk_advisory "PSF-2024-1" ["CVE-2024-0001"; "CVE-2024-0002"] "one" "" "" false]
    (<["CVE-2024-0001" := mk_info false true "HIGH" [mk_item [] [example_range (example_v 12 0) (example_v 12 2)]]]>
      {["CVE-2024-0002" := mk_info false true "LOW" [mk_item [] [example_range (example_v 12 0) (example_v 12 3)]]]})
    example_finals ∅.

Lemma example_finals_ok : finals_ok example_finals.
Proof.
  intros line l. unfold example_finals. rewrite lookup_singleton_Some. intros [<- <-]. split.
  - repeat constructor; by vm_compute.
  - assert (Hp : ∀ k, k ∈ ["3.12.0"; "3.12.1"; "3.12.2"; "3.12.3"] → is_Some (parseVersion k)).
    { intros k Hk. repeat (apply elem_of_cons in Hk as [->|Hk]; [by eexists; vm_compute|]). by apply elem_of_nil in Hk. }
    intros r Hr. repeat (apply elem_of_cons in Hr as [->|Hr]; [split; [done|]|]); [..|by apply elem_of_nil in Hr].
    + by exists "3.12.0".
    + by exists "3.12.1".
    + by exists "3.12.2".
    + by exists "3.12.3".
Qed.

Definition example_augment : RuntimeAugment :=
  Augment (Some example_snapshot) ["PYTHON_VERSION=3.12.1"] "linux" ["high"; "low"].

Lemma Augment_fixes_all_witness :
  (fi_FixedVer <$> ra_Findings example_augment) = ["3.12.3"; "3.12.3"] ∧
  ∃ F, F ∈ default [] (sn_finals example_snapshot !! 12%Z) ∧ version_compare (example_v 12 1) F = Lt ∧
       ∀ g, g ∈ ra_Findings example_augment → fi_Status g = StatusFixed →
         fi_FixedVer g = version_String F ∧
         ∃ c, c ∈ sn_cves example_snapshot ∧ cv_id c = fi_VulnID g ∧
              line_clear (default [] (sn_finals example_snapshot !! 12%Z)) (cve_ranges c "linux") F.
Proof.
  split; [by vm_compute|].
  apply (Augment_fixes_all example_snapshot ["PYTHON_VERSION=3.12.1"] "linux" ["high"; "low"] (example_v 12 1)
    (nth 0 (ra_Findings example_augment) (mk_finding "" "" "" "" "" "" "" "" "" "" "" "" ""))).
  - apply example_finals_ok.
  - by vm_compute.
  - vm_compute. left.
  - by vm_compute.
Defined.

Lemma parseCVE_complete_witness :
  ∃ info, @parseCVE example_feeds go_unicode_upper_ascii "CVE-2024-0001" "record" = inl info ∧
  rc_CVEID example_raw = "CVE-2024-0001" ∧
  (∀ a, a ∈ rc_Affected example_raw → is_cpython a = true → existsb has_upper (ra_Versions a) = true →
     ∃ it, it ∈ ci_items info ∧ it_platforms it = ra_Platforms a ∧
       ∀ v, v ∈ ra_Versions a → rv_Status v = "affected" → ∃ r, version_range v = inl r ∧ r ∈ it_ranges it).
Proof.
  destruct (@parseCVE example_feeds go_unicode_upper_ascii "CVE-2024-0001" "record") as [info|e] eqn:E;
    [|vm_compute in E; discriminate E].
  exists info. split; [done|].
  destruct (@parseCVE_complete example_feeds go_unicode_upper_ascii "CVE-2024-0001" "record" example_raw info E)
    as (H1 & H2 & _); [done| |by split].
  vm_compute in E. by injection E as <-.
Defined.
