(* ===== verification/NodeCore.v ===== *)
(** * NodeCore: the Node.js runtime of an image

    internal/nodecore: versions, intervals and the npm range subset of the
    security-wg index (ranges.go), the join of the advisories and the match of
    one version (advisories.go), and what the advisor adds to a scan
    (nodecore.go). JSON and [time.Parse] are parameters; the blog posts are
    read elsewhere and are data here. *)

From Stdlib Require Import ZArith Lia Bool Ascii String List Permutation.
From stdpp Require Import base countable gmap strings list.
From S2P Require Import Prelude GoStrings GoRegexp GoText GoTime Decimals Semver Inventory Triage Report Build.
From S2P Require PyCore.

Open Scope string_scope.
Open Scope Z_scope.
Open Scope nat_scope.
Open Scope list_scope.
Open Scope kl_scope.

(** ** Versions (ranges.go) *)

(** [version [3]int] *)
Notation version := (Z * Z * Z)%type.

Definition v_major (v : version) : Z := fst (fst v).
Definition zero_version : version := (0, 0, 0)%Z.

Definition maxVersionDigits : nat := 9.

Definition exactVersionRe : re :=
  RSeqs [RGroup 1 numRE; RChar "."%char; RGroup 2 numRE; RChar "."%char; RGroup 3 numRE].

(** One round of the loop over the components. *)
Definition version_component (s : string) : option Z :=
  if maxVersionDigits <? slen s then None else atoi s.

Definition parseVersion (s : string) : option version :=
  m ← find_full exactVersionRe s;
  a ← version_component (group 1 m);
  b ← version_component (group 2 m);
  c ← version_component (group 3 m);
  Some (a, b, c).

Definition version_String (v : version) : string :=
  let '(a, b, c) := v in signed_itoa a +:+ "." +:+ signed_itoa b +:+ "." +:+ signed_itoa c.

Definition version_compare (v o : version) : comparison :=
  let '(a, b, c) := v in
  let '(x, y, z) := o in
  Z.compare a x <?> Z.compare b y <?> Z.compare c z.

(** ** Intervals *)

Record interval := mk_interval { iv_lo : version; iv_hi : version; iv_unbounded : bool }.

Definition interval_empty (iv : interval) : bool :=
  negb (iv_unbounded iv) && negb (is_lt (version_compare (iv_lo iv) (iv_hi iv))).

Definition interval_contains (iv : interval) (v : version) : bool :=
  if is_lt (version_compare v (iv_lo iv)) then false
  else iv_unbounded iv || is_lt (version_compare v (iv_hi iv)).

Definition intersect (iv o : interval) : interval :=
  let lo := if is_lt (version_compare (iv_lo iv) (iv_lo o)) then iv_lo o else iv_lo iv in
  if iv_unbounded iv then mk_interval lo (iv_hi o) (iv_unbounded o)
  else if negb (iv_unbounded o) && is_lt (version_compare (iv_hi o) (iv_hi iv))
  then mk_interval lo (iv_hi o) (iv_unbounded iv)
  else mk_interval lo (iv_hi iv) (iv_unbounded iv).

Definition line (m : Z) : interval := mk_interval (m, 0, 0)%Z ((m + 1)%Z, 0, 0)%Z false.

Definition touchesMajor (iv : interval) (m : Z) : bool :=
  if interval_empty iv then false else negb (interval_empty (intersect iv (line m))).

Notation versionRange := (list interval).

Definition range_contains (r : versionRange) (v : version) : bool := existsb (λ iv, interval_contains iv v) r.
Definition range_touchesMajor (r : versionRange) (m : Z) : bool := existsb (λ iv, touchesMajor iv m) r.
Definition lowerBounds (r : versionRange) : list version :=
  iv_lo <$> List.filter (λ iv, negb (interval_empty iv)) r.

(** ** The range grammar *)

Definition re_space (c : ascii) : bool := Ascii.eqb c " "%char || in_range 9 10 c || in_range 12 13 c.

Definition operatorSpaceRe : re :=
  RSeq (RGroup 1 (RAlts [RLit ">="; RLit "<="; RLit ">"; RLit "<"; RLit "="; RLit "^"])) (RPlus (RClass re_space)).

(** [ReplaceAllString(s, "$1")] for an expression that matches no empty text. *)
Fixpoint replace_group1 (fuel : nat) (r : re) (s : string) : string :=
  match fuel, s with
  | S f, String c s' =>
      match mt r s [] with
      | (t, m) :: _ => group 1 m +:+ replace_group1 f r t
      | [] => String c (replace_group1 f r s')
      end
  | _, _ => s
  end.

Definition comparator_ops : list string := [">="; "<="; ">"; "<"; "="; "^"].

Definition isDecimal (s : string) : bool :=
  negb (String.eqb s "") && negb ((1 <? slen s) && has_prefix s "0") && sforallb is_digit s.

Definition is_wild (p : string) : bool := String.eqb p "x" || String.eqb p "X" || String.eqb p "*".

(** The loop over the parts; [wild] is its variable. The error of [Atoi] is
    ignored, and cannot happen. *)
Fixpoint comparator_nums (parts : list string) (wild : bool) : option (list Z) :=
  match parts with
  | [] => Some []
  | p :: parts' =>
      if is_wild p then comparator_nums parts' true
      else if wild || (maxVersionDigits <? slen p) || negb (isDecimal p) then None
      else nums ← comparator_nums parts' wild; Some (default 0%Z (atoi p) :: nums)
  end.

(** [copy(lo[:], nums)], and the next version after the last given part. *)
Definition lo_of (nums : list Z) : version :=
  match nums with
  | [] => zero_version
  | [a] => (a, 0, 0)%Z
  | [a; b] => (a, b, 0)%Z
  | a :: b :: c :: _ => (a, b, c)
  end.

Definition next_of (nums : list Z) : version :=
  match nums with
  | [] => zero_version
  | [a] => ((a + 1)%Z, 0, 0)%Z
  | [a; b] => (a, (b + 1)%Z, 0)%Z
  | a :: b :: c :: _ => (a, b, (c + 1)%Z)
  end.

Definition all_versions : interval := mk_interval zero_version zero_version true.

(** The switch on the operator, [None] for its errors. *)
Definition comparator_interval (op : string) (nums : list Z) : option interval :=
  let lo := lo_of nums in
  let next := next_of nums in
  let p := length nums in
  if String.eqb op "" || String.eqb op "=" then
    Some (if p =? 0 then all_versions else mk_interval lo next false)
  else if String.eqb op ">=" then Some (mk_interval lo zero_version true)
  else if String.eqb op ">" then
    if p =? 0 then None else Some (mk_interval next zero_version true)
  else if String.eqb op "<=" then
    Some (if p =? 0 then all_versions else mk_interval zero_version next false)
  else if String.eqb op "<" then
    if p =? 0 then None else Some (mk_interval zero_version lo false)
  else if p =? 0 then Some all_versions
  else
    let '(a, b, c) := lo in
    let hi :=
      if (0 <? a)%Z || (p =? 1) then ((a + 1)%Z, 0, 0)%Z
      else if (0 <? b)%Z || (p =? 2) then (0, (b + 1)%Z, 0)%Z
      else (0, 0, (c + 1))%Z in
    Some (mk_interval lo hi false).

Definition parseComparator (tok : string) : option interval :=
  let op := default "" (List.find (λ o, has_prefix tok o) comparator_ops) in
  let rest := sdrop (slen op) tok in
  let parts := split_byte "."%char rest in
  if String.eqb rest "" || (3 <? length parts) then None
  else nums ← comparator_nums parts false; comparator_interval op nums.

Fixpoint intersect_all (iv : interval) (toks : list string) : option interval :=
  match toks with
  | [] => Some iv
  | tok :: toks' => c ← parseComparator tok; intersect_all (intersect iv c) toks'
  end.

Definition parseAlternative (s : string) (patched : bool) : option interval :=
  let s := trim_space s in
  if String.eqb s "" then None
  else
    match (if patched then parseVersion s else None) with
    | Some v => Some (mk_interval v ((v_major v + 1)%Z, 0, 0)%Z false)
    | None => intersect_all all_versions (fields (replace_group1 (slen s) operatorSpaceRe s))
    end.

Fixpoint parse_alternatives (l : list string) (patched : bool) : option versionRange :=
  match l with
  | [] => Some []
  | alt :: l' =>
      iv ← parseAlternative alt patched;
      rest ← parse_alternatives l' patched;
      Some (iv :: rest)
  end.

Definition parseRange (s : string) (patched : bool) : option versionRange :=
  parse_alternatives (split_bars s) patched.

(** ** Advisories (advisories.go) *)

Definition blogPostURLBase : string := "https://nodejs.org/en/blog/vulnerability/".

Record Advisory := mk_match {
  am_VulnID : string; am_Title : string; am_URL : string; am_Severity : string;
  am_Status : string; am_FixedVer : string
}.

Record wgEntry := mk_wg {
  wg_id : Z; wg_cves : list string; wg_vulnerable : versionRange; wg_patched : versionRange;
  wg_severity : string; wg_title : string; wg_url : string; wg_envs : list string; wg_published : Z
}.

Record blogAdvisory := mk_blog {
  bl_cves : list string; bl_title : string; bl_severity : string; bl_slug : string; bl_posted : Z;
  bl_affected : gmap Z bool; bl_fixed : gmap Z version
}.

Record Snapshot := mk_snapshot {
  sn_wg : list wgEntry; sn_blog : list blogAdvisory; sn_covered : gset string; sn_eol : gmap Z Z;
  sn_wgSkipped : nat; sn_blogDropped : nat
}.

Record wgRaw := mk_wg_raw {
  wr_CVE : list string; wr_Vulnerable : string; wr_Patched : string; wr_Severity : string;
  wr_Description : string; wr_Overview : string; wr_Ref : string;
  wr_AffectedEnvironments : list string; wr_PublishDate : string
}.

(** encoding/json on the documents, a raw message being a string, and
    [time.Parse]: [None] is the error. *)
Class NodeFeeds := {
  json_index : string → option (gmap string string);
  json_entry : string → option wgRaw;
  json_releases : string → option (list (string * string));
  json_schedule : string → option (gmap string string);
  time_parse : string → string → option Z;
}.

Definition is_word_char (c : ascii) : bool := is_alnum c || Ascii.eqb c "_"%char.

(** [(?i)\bnpm\b]: the bytes n, p, m of either case between word boundaries.
    [prev] tells whether the byte before [s] is of a word. *)
Fixpoint npm_word (prev : bool) (s : string) : bool :=
  (negb prev && String.eqb (smap lower_byte (stake 3 s)) "npm" &&
   match sdrop 3 s with EmptyString => true | String c _ => negb (is_word_char c) end) ||
  match s with
  | EmptyString => false
  | String c s' => npm_word (is_word_char c) s'
  end.

Definition RFC3339 : string := "2006-01-02T15:04:05Z07:00".

Definition parseDate `{NodeFeeds} (s : string) : option Z :=
  let s := trim_space s in
  match time_parse RFC3339 s with
  | Some t => Some t
  | None => time_parse "2006-01-02" s
  end.

(** [strconv.Atoi] with a sign. *)
Definition atoi_signed (s : string) : option Z :=
  match s with
  | String c s' =>
      if Ascii.eqb c "-"%char then
        if negb (String.eqb s' "") && sforallb is_digit s' then
          let n := Z.of_N (dec_val s') in if (n <=? 2 ^ 63)%Z then Some (- n)%Z else None
        else None
      else if Ascii.eqb c "+"%char then atoi s' else atoi s
  | EmptyString => None
  end.

Inductive wg_result := WGError | WGNpm | WGEntry (e : wgEntry).

Definition newline : ascii := "010"%char.
Definition first_line (s : string) : string :=
  match index_byte s newline with Some i => stake i s | None => s end.

Definition parseWGEntry `{NodeFeeds} (key msg : string) : wg_result :=
  match atoi_signed key with
  | None => WGError
  | Some id =>
      match json_entry msg with
      | None => WGError
      | Some r =>
          if npm_word false (wr_Description r) || npm_word false (wr_Overview r) then WGNpm
          else
            match parseRange (wr_Vulnerable r) false, parseRange (wr_Patched r) true with
            | Some vuln, Some patched =>
                let title := if String.eqb (wr_Description r) ""
                             then trim_space (first_line (trim_space (wr_Overview r))) else wr_Description r in
                let published := if String.eqb (wr_PublishDate r) "" then 0%Z
                                 else default 0%Z (parseDate (wr_PublishDate r)) in
                WGEntry (mk_wg id (wr_CVE r) vuln patched (wr_Severity r) title (wr_Ref r)
                           (wr_AffectedEnvironments r) published)
            | _, _ => WGError
            end
      end
  end.

(** One round of the loop over the index. *)
Definition wg_step `{NodeFeeds} (st : list wgEntry * nat) (kv : string * string) : list wgEntry * nat :=
  let '(entries, skipped) := st in
  match parseWGEntry (fst kv) (snd kv) with
  | WGError => (entries, S skipped)
  | WGNpm => st
  | WGEntry e => (entries ++ [e], skipped)
  end.

Definition parseSecurityWG `{NodeFeeds, MapRange} (data : string) : option (list wgEntry * nat) :=
  raw ← json_index data;
  match map_range raw with
  | [] => None
  | l =>
      let '(entries, skipped) := foldl wg_step ([], 0) l in
      Some (sort_by (λ a b, (wg_id a <? wg_id b)%Z) entries, skipped)
  end.

Definition release_step `{NodeFeeds} (m : gmap version Z) (r : string * string) : gmap version Z :=
  match parseVersion (trim_prefix (fst r) "v"), parseDate (snd r) with
  | Some v, Some t => <[v := t]> m
  | _, _ => m
  end.

Definition parseReleases `{NodeFeeds} (data : string) : option (gmap version Z) :=
  raw ← json_releases data;
  let out := foldl release_step ∅ raw in
  if bool_decide (out = ∅) then None else Some out.

Definition schedule_step `{NodeFeeds} (m : gmap Z Z) (kv : string * string) : gmap Z Z :=
  match atoi_signed (trim_prefix (fst kv) "v"), parseDate (snd kv) with
  | Some n, Some t => if has_prefix (fst kv) "v" then <[n := t]> m else m
  | _, _ => m
  end.

Definition parseSchedule `{NodeFeeds, MapRange} (data : string) : option (gmap Z Z) :=
  raw ← json_schedule data;
  let out := foldl schedule_step ∅ (map_range raw) in
  if bool_decide (out = ∅) then None else Some out.

(** The earliest date so far is the zero time when there is none. *)
Definition earliestRelease (versions : list version) (releases : gmap version Z) : Z :=
  foldl (λ best v,
    match releases !! v with
    | Some t => if IsZero best || Before t best then t else best
    | None => best
    end) 0%Z versions.

Definition set_published (e : wgEntry) (t : Z) : wgEntry :=
  mk_wg (wg_id e) (wg_cves e) (wg_vulnerable e) (wg_patched e) (wg_severity e) (wg_title e) (wg_url e) (wg_envs e) t.

Definition newSnapshot (wg : list wgEntry) (wgSkipped : nat) (blog : list blogAdvisory) (blogDropped : nat)
    (releases : gmap version Z) (eol : gmap Z Z) : Snapshot :=
  mk_snapshot
    ((λ e, if IsZero (wg_published e) then set_published e (earliestRelease (lowerBounds (wg_patched e)) releases) else e) <$> wg)
    blog (list_to_set (wg ≫= wg_cves)) eol wgSkipped blogDropped.

Definition appliesTo `{GoUnicode} (e : wgEntry) (osName : string) : bool :=
  existsb (λ env, let env := to_lower env in String.eqb env "all" || String.eqb env osName) (wg_envs e).

Definition upperSeverity `{GoUnicodeUpper} (s : string) : string :=
  let s := to_upper (trim_space s) in if String.eqb s "" then "UNKNOWN" else s.

Definition endedBefore (sn : Snapshot) (major published : Z) : bool :=
  match sn_eol sn !! major with
  | Some end_ => negb (IsZero published) && Before end_ published
  | None => false
  end.

(** One round of the loop over the lower bounds. *)
Definition best_step (v : version) (best : option version) (lo : version) : option version :=
  if (v_major lo =? v_major v)%Z && is_lt (version_compare v lo) &&
     match best with None => true | Some b => is_lt (version_compare lo b) end
  then Some lo else best.

(** The status and the version that fixes; [None] is [ok = false]. *)
Definition matchWG (sn : Snapshot) (e : wgEntry) (v : version) : option (string * string) :=
  let major := v_major v in
  if range_contains (wg_vulnerable e) v && negb (range_contains (wg_patched e) v) then
    match foldl (best_step v) None (lowerBounds (wg_patched e)) with
    | Some best => Some (StatusFixed, version_String best)
    | None => Some (StatusAffected, "")
    end
  else if negb (range_touchesMajor (wg_vulnerable e) major) && negb (range_touchesMajor (wg_patched e) major) &&
          endedBefore sn major (wg_published e)
  then Some (StatusEndOfLife, "")
  else None.

Definition matchBlog (sn : Snapshot) (b : blogAdvisory) (v : version) : option (string * string) :=
  let major := v_major v in
  if default false (bl_affected b !! major) then
    match bl_fixed b !! major with
    | None => Some (StatusAffected, "")
    | Some f => if is_lt (version_compare v f) then Some (StatusFixed, version_String f) else None
    end
  else
    match bl_fixed b !! major with
    | None => if endedBefore sn major (bl_posted b) then Some (StatusEndOfLife, "") else None
    | Some _ => None
    end.

(** The loops of [Match]: the state is what was found and [seen]. *)
Definition wg_ids (e : wgEntry) : list string :=
  match wg_cves e with [] => ["NSWG-CORE-" +:+ signed_itoa (wg_id e)] | ids => ids end.

Definition wg_id_step `{GoUnicodeUpper} (sn : Snapshot) (v : version) (e : wgEntry)
    (st : list Advisory * gset string) (id : string) : list Advisory * gset string :=
  let '(out, seen) := st in
  if bool_decide (id ∈ seen) then st
  else
    let seen := {[id]} ∪ seen in
    match matchWG sn e v with
    | Some (status, fixed) =>
        (out ++ [mk_match id (wg_title e) (wg_url e) (upperSeverity (wg_severity e)) status fixed], seen)
    | None => (out, seen)
    end.

Definition wg_match_step `{GoUnicode, GoUnicodeUpper} (sn : Snapshot) (v : version) (osName : string)
    (st : list Advisory * gset string) (e : wgEntry) : list Advisory * gset string :=
  if appliesTo e osName then foldl (wg_id_step sn v e) st (wg_ids e) else st.

Definition blog_id_step `{GoUnicodeUpper} (sn : Snapshot) (b : blogAdvisory) (status fixed : string)
    (st : list Advisory * gset string) (id : string) : list Advisory * gset string :=
  let '(out, seen) := st in
  if bool_decide (id ∈ sn_covered sn) || bool_decide (id ∈ seen) then st
  else (out ++ [mk_match id (bl_title b) (blogPostURLBase +:+ bl_slug b) (upperSeverity (bl_severity b)) status fixed],
        {[id]} ∪ seen).

Definition blog_match_step `{GoUnicodeUpper} (sn : Snapshot) (v : version)
    (st : list Advisory * gset string) (b : blogAdvisory) : list Advisory * gset string :=
  match matchBlog sn b v with
  | None => st
  | Some (status, fixed) => foldl (blog_id_step sn b status fixed) st (bl_cves b)
  end.

Definition Match `{GoUnicode, GoUnicodeUpper} (sn : Snapshot) (ver osName : string) : list Advisory :=
  match parseVersion ver with
  | None => []
  | Some v =>
      let osName := to_lower osName in
      let osName := if String.eqb osName "" then "linux" else osName in
      fst (foldl (blog_match_step sn v) (foldl (wg_match_step sn v osName) ([], ∅) (sn_wg sn)) (sn_blog sn))
  end.

(** ** The advisor (nodecore.go) *)

Definition NodeRuntimePackage : string := "Node.js".
Definition defaultBinaryPath : string := "usr/local/bin/node".
Definition npmManifestSuffix : string := "/lib/node_modules/npm/package.json".

Definition detectVersion (env : list string) : option string :=
  val ← PyCore.env_value (RuntimeVersionEnv EcosystemNodeRuntime) env;
  if negb (match_full exactVersionRe val) then None
  else match parseVersion val with Some _ => Some val | None => None end.

(** One package of the loops of [binaryPath]: its path, when it is npm. *)
Definition npm_binary (p : Package) : option string :=
  let path := trim_prefix (ip_PkgPath p) "/" in
  if has_suffix path npmManifestSuffix
  then Some (stake (slen path - slen npmManifestSuffix) path +:+ "/bin/node")
  else if String.eqb path (trim_prefix npmManifestSuffix "/") then Some "bin/node"
  else None.

Definition binaryPath (pkgs : list ResultPackages) : string :=
  match omap npm_binary (pkgs ≫= rp_Packages) with
  | p :: _ => p
  | [] => defaultBinaryPath
  end.

Definition runtime_finding (bin ver : string) (adv : Advisory) : Finding :=
  mk_finding ClassLang NodeRuntimePackage ver (am_FixedVer adv) (am_Status adv)
    (am_Severity adv) (am_VulnID adv) (am_URL adv) (am_Title adv) EcosystemNodeRuntime bin bin "".

Definition raise_highest (highest : option version) (adv : Advisory) : option version :=
  if String.eqb (am_Status adv) StatusFixed then
    match parseVersion (am_FixedVer adv) with
    | Some fv =>
        match highest with
        | Some h => if is_lt (version_compare h fv) then Some fv else highest
        | None => Some fv
        end
    | None => highest
    end
  else highest.

Definition set_fixed (highest : option version) (f : Finding) : Finding :=
  match highest with
  | Some h =>
      if String.eqb (fi_Status f) StatusFixed
      then mk_finding (fi_Class f) (fi_Package f) (fi_InstalledVer f) (version_String h) (fi_Status f)
             (fi_Severity f) (fi_VulnID f) (fi_URL f) (fi_Title f) (fi_Type f) (fi_Target f) (fi_PkgPath f) (fi_LayerDiffID f)
      else f
  | None => f
  end.

(** The arguments are the fields of the scan it reads; the snapshot is what
    [Set] stored last. *)
Definition Augment `{GoUnicode, GoUnicodeUpper} (snap : option Snapshot) (env : list string) (osName : string)
    (pkgs : list ResultPackages) (severities : list string) : PyCore.RuntimeAugment :=
  match detectVersion env with
  | None => PyCore.zero_augment
  | Some ver =>
      match snap with
      | None => PyCore.mk_augment [] [] [NodeRuntimePackage]
      | Some sn =>
          let bin := binaryPath pkgs in
          let want := PyCore.wanted severities in
          let advs := List.filter (λ a, bool_decide (am_Severity a ∈ want)) (Match sn ver osName) in
          let highest := foldl raise_highest None advs in
          let findings := set_fixed highest <$> (runtime_finding bin ver <$> advs) in
          PyCore.mk_augment (sort_by (λ x y, str_lt (fi_VulnID x) (fi_VulnID y)) findings)
            [mk_result_packages bin ClassLang EcosystemNodeRuntime
               [mk_package NodeRuntimePackage ver bin]] []
      end
  end.

(** ** Versions *)

Lemma version_compare_alt v o :
  version_compare v o = cmp_then (cmp_on (λ v : version, fst (fst v)) Z.compare)
    (cmp_then (cmp_on (λ v : version, snd (fst v)) Z.compare) (cmp_on snd Z.compare)) v o.
Proof. by destruct v as [[a b] c], o as [[x y] z]. Qed.

#[export] Instance version_order : CmpOrder version_compare.
Proof.
  destruct (cmp_then_order (cmp_on (λ v : version, fst (fst v)) Z.compare)
    (cmp_then (cmp_on (λ v : version, snd (fst v)) Z.compare) (cmp_on snd Z.compare))) as [Ha Ht]; try apply _.
  split; intros *; rewrite !version_compare_alt; [apply Ha|apply Ht].
Qed.

#[export] Instance version_eq : CmpEq version_compare.
Proof.
  intros [[a b] c] [[x y] z]. unfold version_compare. rewrite !lexc_eq, !Z.compare_eq_iff. naive_solver.
Qed.

(** The order in numbers. *)
Definition vlt (v o : version) : Prop :=
  let '(a, b, c) := v in let '(x, y, z) := o in
  (a < x ∨ a = x ∧ (b < y ∨ b = y ∧ c < z))%Z.

Lemma is_lt_vlt v o : is_lt (version_compare v o) = true ↔ vlt v o.
Proof.
  destruct v as [[a b] c], o as [[x y] z]. unfold version_compare, vlt.
  destruct (Z.compare_spec a x), (Z.compare_spec b y), (Z.compare_spec c z); simpl; split; try done; lia.
Qed.

Lemma is_lt_false v o : is_lt (version_compare v o) = false ↔ ¬ vlt v o.
Proof. rewrite <- is_lt_vlt. by destruct (is_lt _). Qed.

(** The members of an interval, and of a range. *)
Definition in_interval (iv : interval) (v : version) : Prop :=
  ¬ vlt v (iv_lo iv) ∧ (if iv_unbounded iv then True else vlt v (iv_hi iv)).

Lemma interval_contains_iff iv v : interval_contains iv v = true ↔ in_interval iv v.
Proof.
  unfold interval_contains, in_interval. destruct (is_lt (version_compare v (iv_lo iv))) eqn:E.
  - apply is_lt_vlt in E. split; [done|tauto].
  - apply is_lt_false in E. destruct (iv_unbounded iv); simpl; [tauto|]. rewrite is_lt_vlt. tauto.
Qed.

Ltac vlt_lia :=
  repeat match goal with v : (Z * Z * Z)%type |- _ => destruct v as [[? ?] ?] end;
  unfold vlt, in_interval in *; simpl in *; lia.

(** An interval is empty exactly when it has no member, and an intersection has
    the common members. *)
Lemma interval_empty_iff iv : interval_empty iv = true ↔ ∀ v, ¬ in_interval iv v.
Proof.
  unfold interval_empty. rewrite andb_true_iff, !negb_true_iff, is_lt_false. split.
  - intros [Hu Hl] v [H1 H2]. rewrite Hu in H2. destruct iv as [lo hi u]. simpl in *. vlt_lia.
  - intros H. specialize (H (iv_lo iv)). destruct iv as [lo hi u]; simpl in *.
    destruct u; [exfalso|split; [done|]]; unfold in_interval in H; simpl in H; vlt_lia.
Qed.

Lemma intersect_iff iv o v : in_interval (intersect iv o) v ↔ in_interval iv v ∧ in_interval o v.
Proof.
  unfold intersect. destruct iv as [l1 h1 u1], o as [l2 h2 u2]. simpl.
  destruct (is_lt (version_compare l1 l2)) eqn:El; [apply is_lt_vlt in El|apply is_lt_false in El];
    (destruct (is_lt (version_compare h2 h1)) eqn:Eh; [apply is_lt_vlt in Eh|apply is_lt_false in Eh]);
    destruct u1, u2; simpl; vlt_lia.
Qed.

(** A version as [parseVersion] gives it. *)
Definition natural (v : version) : Prop := let '(a, b, c) := v in (0 <= a ∧ 0 <= b ∧ 0 <= c)%Z.

Lemma line_iff m v : natural v → in_interval (line m) v ↔ v_major v = m.
Proof. destruct v as [[a b] c]. unfold natural, line, in_interval, v_major, vlt. simpl. lia. Qed.

(** an interval touches a line exactly when a version of the line is in it:
    the emptiness test and the intersection are exact on versions. *)
Theorem touchesMajor_exact iv m : natural (iv_lo iv) → (0 <= m)%Z →
  touchesMajor iv m = true ↔ ∃ v, natural v ∧ v_major v = m ∧ in_interval iv v.
Proof.
  intros Hlo Hm. unfold touchesMajor. destruct (interval_empty iv) eqn:Ee.
  { split; [done|]. intros (v & _ & _ & Hv). by eapply (proj1 (interval_empty_iff iv)) in Hv. }
  rewrite negb_true_iff. split.
  - intros Hi. exists (iv_lo (intersect iv (line m))).
    assert (Hin : in_interval (intersect iv (line m)) (iv_lo (intersect iv (line m)))).
    { unfold interval_empty in Hi. apply andb_false_iff in Hi. rewrite !negb_false_iff, is_lt_vlt in Hi.
      destruct (intersect iv (line m)) as [lo hi u]. simpl in *. destruct u; [vlt_lia|].
      destruct Hi as [|Hi]; [done|]. vlt_lia. }
    assert (Hnat : natural (iv_lo (intersect iv (line m)))).
    { unfold intersect. repeat case_match; simpl; try done; unfold natural; lia. }
    apply intersect_iff in Hin as [H1 H2]. split_and!; [done| |done]. by apply line_iff.
  - intros (v & Hn & Hv & Hin). apply not_true_iff_false. rewrite interval_empty_iff. intros H.
    apply (H v), intersect_iff. split; [done|]. by apply line_iff.
Qed.

(** ** What an entry says of a version *)

Lemma range_contains_iff r v : range_contains r v = true ↔ ∃ iv, iv ∈ r ∧ in_interval iv v.
Proof.
  unfold range_contains. rewrite existsb_exists. setoid_rewrite interval_contains_iff.
  split; intros (iv & Hin & Hv); exists iv; (split; [by apply list_elem_of_In|done]).
Qed.

Lemma lowerBounds_iff r lo : lo ∈ lowerBounds r ↔ ∃ iv, iv ∈ r ∧ interval_empty iv = false ∧ lo = iv_lo iv.
Proof.
  unfold lowerBounds. rewrite list_elem_of_fmap. split.
  - intros (iv & -> & [Hin He]%list_elem_of_In%filter_In). exists iv. by rewrite list_elem_of_In, <- negb_true_iff.
  - intros (iv & Hin & He & ->). exists iv. split; [done|]. apply list_elem_of_In, filter_In.
    by rewrite <- list_elem_of_In, He.
Qed.

Lemma lower_bound_member iv : interval_empty iv = false → in_interval iv (iv_lo iv).
Proof.
  unfold interval_empty. destruct iv as [lo hi u]. simpl. rewrite andb_false_iff, !negb_false_iff, is_lt_vlt.
  destruct u; [vlt_lia|]. intros [|H]; [done|]. vlt_lia.
Qed.

(** A release of the line of [v] above it. *)
Definition above_in_line (v w : version) : Prop := v_major w = v_major v ∧ vlt v w.

Lemma best_spec v los best :
  (∀ b, best = Some b → above_in_line v b) →
  match foldl (best_step v) best los with
  | Some b => (best = Some b ∨ b ∈ los) ∧ above_in_line v b ∧
              ∀ lo, best = Some lo ∨ lo ∈ los → above_in_line v lo → ¬ vlt lo b
  | None => best = None ∧ ∀ lo, lo ∈ los → ¬ above_in_line v lo
  end.
Proof.
  revert best. induction los as [|lo los IH]; intros best Hb; simpl.
  { destruct best as [b|]; [|split; [done|intros lo Hlo; by apply elem_of_nil in Hlo]]. split_and!; [auto|auto|].
    intros x [[= ->]|Hx] _; [vlt_lia|by apply elem_of_nil in Hx]. }
  unfold best_step at 2. destruct (Z.eqb_spec (v_major lo) (v_major v)) as [Hm|Hm]; simpl.
  2: { specialize (IH best Hb). destruct (foldl _ _ _).
       - destruct IH as (H1 & H2 & H3). split_and!; [rewrite elem_of_cons; naive_solver|done|].
         intros x. rewrite elem_of_cons. intros [Hx|[->|Hx]] Hax; [auto|by destruct Hax|auto].
       - destruct IH as [H1 H2]. split; [done|]. intros x [->|Hx]%elem_of_cons [??]; [done|by apply (H2 x)]. }
  destruct (is_lt (version_compare v lo)) eqn:El; simpl.
  2: { apply is_lt_false in El. specialize (IH best Hb). destruct (foldl _ _ _).
       - destruct IH as (H1 & H2 & H3). split_and!; [rewrite elem_of_cons; naive_solver|done|].
         intros x. rewrite elem_of_cons. intros [Hx|[->|Hx]] Hax; [auto|by destruct Hax|auto].
       - destruct IH as [H1 H2]. split; [done|]. intros x [->|Hx]%elem_of_cons [??]; [done|by apply (H2 x)]. }
  apply is_lt_vlt in El. assert (Hlo : above_in_line v lo) by done.
  destruct (match best with None => true | Some b => is_lt (version_compare lo b) end) eqn:Eb.
  - specialize (IH (Some lo) ltac:(by intros ? [= <-])). destruct (foldl _ _ _) as [b|]; [|naive_solver].
    destruct IH as (H1 & H2 & H3). split_and!; [rewrite elem_of_cons; naive_solver|done|].
    intros x. rewrite elem_of_cons. intros [->|[->|Hx]] Hax; [|auto..].
    apply is_lt_vlt in Eb. specialize (H3 lo (or_introl eq_refl) Hlo). vlt_lia.
  - destruct best as [b0|]; [|done]. apply is_lt_false in Eb. specialize (IH (Some b0) Hb).
    destruct (foldl _ _ _) as [b|]; [|naive_solver].
    destruct IH as (H1 & H2 & H3). split_and!; [rewrite elem_of_cons; naive_solver|done|].
    intros x. rewrite elem_of_cons. intros [Hx|[->|Hx]] Hax; [auto| |auto].
    specialize (H3 b0 (or_introl eq_refl) (Hb b0 eq_refl)). vlt_lia.
Qed.

(** The release that fixes a version: the least patched one of its line above
    it. *)
Definition least_patched (e : wgEntry) (v f : version) : Prop :=
  range_contains (wg_patched e) f = true ∧ above_in_line v f ∧
  ∀ w, range_contains (wg_patched e) w = true → above_in_line v w → ¬ vlt w f.

(** A patched release above an unpatched version lies in an alternative whose
    lower bound is above it as well. *)
Lemma patched_above e v w : range_contains (wg_patched e) v = false → range_contains (wg_patched e) w = true →
  above_in_line v w → ∃ lo, lo ∈ lowerBounds (wg_patched e) ∧ above_in_line v lo ∧ ¬ vlt w lo.
Proof.
  intros Hv (iv & Hin & Hw)%range_contains_iff [Hm Hlt].
  assert (Hnv : ¬ in_interval iv v). { intros H. apply not_true_iff_false in Hv. apply Hv, range_contains_iff. by exists iv. }
  assert (He : interval_empty iv = false).
  { apply not_true_iff_false. intros H. by apply (proj1 (interval_empty_iff iv)) with w in H. }
  exists (iv_lo iv). split; [apply lowerBounds_iff; by exists iv|]. unfold above_in_line, v_major in *.
  destruct iv as [lo hi u]. simpl in *. destruct u; vlt_lia.
Qed.

Lemma best_least e v : range_contains (wg_patched e) v = false →
  match foldl (best_step v) None (lowerBounds (wg_patched e)) with
  | Some f => least_patched e v f
  | None => ∀ w, range_contains (wg_patched e) w = true → ¬ above_in_line v w
  end.
Proof.
  intros Hv. pose proof (best_spec v (lowerBounds (wg_patched e)) None ltac:(done)) as H.
  destruct (foldl _ _ _) as [f|].
  - destruct H as ([?|Hin] & Ha & Hmin); [done|]. split_and!; [|done|].
    + apply lowerBounds_iff in Hin as (iv & Hin & He & ->). apply range_contains_iff. exists iv.
      split; [done|]. by apply lower_bound_member.
    + intros w Hw Haw. destruct (patched_above e v w Hv Hw Haw) as (lo & Hlo & Hal & Hwl).
      specialize (Hmin lo (or_intror Hlo) Hal). vlt_lia.
  - destruct H as [_ Hnone]. intros w Hw Haw. destruct (patched_above e v w Hv Hw Haw) as (lo & Hlo & Hal & _).
    by apply (Hnone lo).
Qed.

(** An entry of the index affects a version exactly when its vulnerable
    range has it and its patched range has not; the fixed version it then gives
    is the least patched version of the same line above the installed one, and
    it says that there is no fix exactly when the line has none; it speaks of an
    ended line only when it names no version of the line and the line ended
    before the entry was published. *)
Theorem matchWG_exact sn e v :
  let affected := range_contains (wg_vulnerable e) v = true ∧ range_contains (wg_patched e) v = false in
  (∀ fixed, matchWG sn e v = Some (StatusFixed, fixed) ↔
     affected ∧ ∃ f, fixed = version_String f ∧ least_patched e v f) ∧
  (matchWG sn e v = Some (StatusAffected, "") ↔
     affected ∧ ∀ w, range_contains (wg_patched e) w = true → ¬ above_in_line v w) ∧
  (matchWG sn e v = Some (StatusEndOfLife, "") ↔
     ¬ affected ∧ range_touchesMajor (wg_vulnerable e) (v_major v) = false ∧
     range_touchesMajor (wg_patched e) (v_major v) = false ∧ endedBefore sn (v_major v) (wg_published e) = true).
Proof.
  intros affected. unfold matchWG. subst affected.
  destruct (range_contains (wg_vulnerable e) v) eqn:Ev, (range_contains (wg_patched e) v) eqn:Ep; cbn [andb negb].
  2: {
    pose proof (best_least e v Ep) as Hb. destruct (foldl _ _ _) as [f|].
    - split_and!; [|split; [done|]|split; [done|naive_solver]].
      + intros fixed. split; [intros [= <-]; eauto 10|]. intros (_ & g & -> & Hg).
        assert (f = g) as ->; [|done]. destruct Hb as (Hf1 & Hf2 & Hf3), Hg as (Hg1 & Hg2 & Hg3).
        specialize (Hf3 g Hg1 Hg2). specialize (Hg3 f Hf1 Hf2). clear -Hf3 Hg3.
        destruct f as [[? ?] ?], g as [[? ?] ?]. unfold vlt in *. f_equal; [f_equal|]; lia.
      + intros [_ H]. destruct Hb as (Hf1 & Hf2 & _). by apply H in Hf2.
    - split_and!; [|done|split; [done|naive_solver]].
      intros fixed. split; [done|]. intros (_ & f & -> & Hf1 & Hf2 & _). by apply Hb in Hf2. }
  all: split_and!; [intros fixed|..]; repeat case_match; split; try done; try naive_solver.
  all: repeat match goal with H : _ && _ = _ |- _ => apply andb_prop in H as [? ?] | H : negb _ = true |- _ => apply negb_true_iff in H end.
  all: try (intros _; split_and!; [naive_solver|done..]).
  all: intros (_ & E1 & E2 & E3); rewrite E1, E2, E3 in *; done.
Qed.

(** ** The matches of a version *)

Section matches.
Context `{GoUnicode, GoUnicodeUpper} (sn : Snapshot) (v : version) (os : string).

Notation ids st := (am_VulnID <$> fst st).

(** Between rounds, what was found has been seen, once. *)
Definition matches_ok (st : list Advisory * gset string) : Prop :=
  NoDup (ids st) ∧ ∀ id, id ∈ ids st → id ∈ snd st.

(** The entry that owns an id: the first one that applies and lists it. *)
Definition owner (l : list wgEntry) (id : string) : option wgEntry :=
  List.find (λ e, appliesTo e os && bool_decide (id ∈ wg_ids e)) l.

(** The advisory an entry gives for an id. *)
Definition wg_advisory (e : wgEntry) (id : string) : option Advisory :=
  '(status, fixed) ← matchWG sn e v;
  Some (mk_match id (wg_title e) (wg_url e) (upperSeverity (wg_severity e)) status fixed).

Lemma add_match_ok st a id : matches_ok st → id ∉ snd st → am_VulnID a = id →
  matches_ok (fst st ++ [a], {[id]} ∪ snd st).
Proof.
  intros [Hn Hs] Hid <-. split; simpl.
  - rewrite fmap_app, NoDup_app. split_and!; [done| |apply NoDup_singleton].
    intros x Hx ->%list_elem_of_singleton. auto.
  - intros x. rewrite fmap_app, elem_of_app, elem_of_union, elem_of_singleton. simpl.
    rewrite list_elem_of_singleton. naive_solver.
Qed.

Lemma wg_id_step_spec e st id : matches_ok st →
  matches_ok (wg_id_step sn v e st id) ∧
  (∀ x, x ∈ snd (wg_id_step sn v e st id) ↔ x ∈ snd st ∨ x = id) ∧
  (∀ a, a ∈ fst (wg_id_step sn v e st id) ↔ a ∈ fst st ∨ id ∉ snd st ∧ wg_advisory e id = Some a).
Proof.
  destruct st as [out seen]. intros Hok. unfold wg_id_step. destruct (bool_decide (id ∈ seen)) eqn:Eb.
  { apply bool_decide_eq_true in Eb. simpl. split_and!; [done| |]; naive_solver. }
  apply bool_decide_eq_false in Eb. unfold wg_advisory.
  destruct (matchWG sn e v) as [[status fixed]|]; simpl.
  - split_and!.
    + by apply (add_match_ok (out, seen)).
    + intros x. set_solver.
    + intros a. rewrite elem_of_app, list_elem_of_singleton. naive_solver.
  - destruct Hok as [Hn Hs]. split_and!; [split; [done|]; intros x Hx; simpl in *; set_solver|set_solver|naive_solver].
Qed.

Lemma wg_ids_fold e l st : matches_ok st →
  matches_ok (foldl (wg_id_step sn v e) st l) ∧
  (∀ x, x ∈ snd (foldl (wg_id_step sn v e) st l) ↔ x ∈ snd st ∨ x ∈ l) ∧
  (∀ a, a ∈ fst (foldl (wg_id_step sn v e) st l) ↔
        a ∈ fst st ∨ ∃ id, id ∈ l ∧ id ∉ snd st ∧ wg_advisory e id = Some a).
Proof.
  revert st. induction l as [|id l IH]; intros st Hok; simpl.
  { split_and!; [done|..]; intros x; setoid_rewrite elem_of_nil; naive_solver. }
  destruct (wg_id_step_spec e st id Hok) as (H1 & H2 & H3). destruct (IH _ H1) as (I1 & I2 & I3).
  split_and!; [done|..].
  - intros x. rewrite I2, H2, elem_of_cons. tauto.
  - intros a. rewrite I3, H3. setoid_rewrite H2. setoid_rewrite elem_of_cons. split.
    + naive_solver.
    + intros [?|(x & [->|Hx] & Hn & Ha)]; [auto..|].
      destruct (decide (x = id)) as [->|]; [auto|]. right. exists x. naive_solver.
Qed.

Lemma owner_cons e l id : owner (e :: l) id =
  if appliesTo e os && bool_decide (id ∈ wg_ids e) then Some e else owner l id.
Proof. done. Qed.

Lemma wg_fold l st : matches_ok st →
  let st' := foldl (wg_match_step sn v os) st l in
  matches_ok st' ∧
  (∀ x, x ∈ snd st' ↔ x ∈ snd st ∨ is_Some (owner l x)) ∧
  (∀ a, a ∈ fst st' ↔ a ∈ fst st ∨
     ∃ id e, id ∉ snd st ∧ owner l id = Some e ∧ wg_advisory e id = Some a).
Proof.
  revert st. induction l as [|e l IH]; intros st Hok; cbn [foldl].
  { simpl. split_and!; [done|..]; intros x; unfold owner; simpl; split; [auto| |auto|]; [intros [|[? ?]]|intros [|(? & ? & ? & ? & ?)]]; done. }
  unfold wg_match_step at 2 4 6. destruct (appliesTo e os) eqn:Ea.
  2: { destruct (IH st Hok) as (I1 & I2 & I3). split_and!; [done|..]; intros x.
       - rewrite I2, owner_cons, Ea. done.
       - rewrite I3. setoid_rewrite owner_cons. by rewrite Ea. }
  destruct (wg_ids_fold e (wg_ids e) st Hok) as (H1 & H2 & H3). destruct (IH _ H1) as (I1 & I2 & I3).
  split_and!; [done|..]; intros x.
  - rewrite I2, H2, owner_cons, Ea. cbn [andb]. destruct (bool_decide (x ∈ wg_ids e)) eqn:Eb.
    + apply bool_decide_eq_true in Eb. naive_solver.
    + apply bool_decide_eq_false in Eb. tauto.
  - rewrite I3, H3. setoid_rewrite H2. setoid_rewrite owner_cons. rewrite Ea. cbn [andb]. split.
    + intros [[?|(id & Hid & Hn & Ha)]|(id & e' & Hn & Ho & Ha)]; [auto|right..].
      * exists id, e. by rewrite bool_decide_eq_true_2.
      * exists id, e'. rewrite bool_decide_eq_false_2 by tauto. tauto.
    + intros [?|(id & e' & Hn & Ho & Ha)]; [auto|].
      destruct (bool_decide (id ∈ wg_ids e)) eqn:Eb.
      * apply bool_decide_eq_true in Eb. injection Ho as <-. left. right. by exists id.
      * apply bool_decide_eq_false in Eb. right. exists id, e'. tauto.
Qed.

(** The advisory a post gives for an id. *)
Definition blog_advisory (b : blogAdvisory) (id : string) : option Advisory :=
  '(status, fixed) ← matchBlog sn b v;
  Some (mk_match id (bl_title b) (blogPostURLBase +:+ bl_slug b) (upperSeverity (bl_severity b)) status fixed).

(** From the posts, only ids that no entry has had, each from the first post
    that affects the version. *)
Definition blog_owner (l : list blogAdvisory) (id : string) : option blogAdvisory :=
  List.find (λ b, bool_decide (id ∈ bl_cves b) && match matchBlog sn b v with Some _ => true | None => false end) l.

Lemma blog_ids_fold b status fixed l st : matches_ok st → matchBlog sn b v = Some (status, fixed) →
  let st' := foldl (blog_id_step sn b status fixed) st l in
  matches_ok st' ∧
  (∀ x, x ∈ snd st' ↔ x ∈ snd st ∨ x ∈ l ∧ x ∉ sn_covered sn) ∧
  (∀ a, a ∈ fst st' ↔ a ∈ fst st ∨ ∃ id, id ∈ l ∧ id ∉ snd st ∧ id ∉ sn_covered sn ∧ blog_advisory b id = Some a).
Proof.
  intros Hok Hm. revert st Hok. induction l as [|id l IH]; intros st Hok; simpl.
  { split_and!; [done|..]; intros x; setoid_rewrite elem_of_nil; naive_solver. }
  destruct st as [out seen]. unfold blog_id_step at 2 4 6.
  destruct (bool_decide (id ∈ sn_covered sn)) eqn:Ec; [|destruct (bool_decide (id ∈ seen)) eqn:Es]; cbn [orb].
  - apply bool_decide_eq_true in Ec. destruct (IH (out, seen) Hok) as (I1 & I2 & I3). split_and!; [done|..]; intros x.
    + rewrite I2, elem_of_cons. naive_solver.
    + rewrite I3. setoid_rewrite elem_of_cons. naive_solver.
  - apply bool_decide_eq_true in Es. destruct (IH (out, seen) Hok) as (I1 & I2 & I3). simpl in *. split_and!; [done|..]; intros x.
    + rewrite I2, elem_of_cons. naive_solver.
    + rewrite I3. setoid_rewrite elem_of_cons. naive_solver.
  - apply bool_decide_eq_false in Ec, Es.
    pose proof (add_match_ok (out, seen) (mk_match id (bl_title b) (blogPostURLBase +:+ bl_slug b)
      (upperSeverity (bl_severity b)) status fixed) id Hok Es eq_refl) as Hok'. simpl in Hok'.
    destruct (IH _ Hok') as (I1 & I2 & I3). simpl in *. split_and!; [done|..]; intros x.
    + rewrite I2, elem_of_union, elem_of_singleton, elem_of_cons. naive_solver.
    + rewrite I3, elem_of_app, list_elem_of_singleton. setoid_rewrite elem_of_union. setoid_rewrite elem_of_singleton.
      setoid_rewrite elem_of_cons. unfold blog_advisory. rewrite Hm. simpl. split.
      * intros [[?| ->]|(y & ? & ? & ? & ?)]; [auto|right; exists id; auto 10|right; exists y; naive_solver].
      * intros [?|(y & [->|?] & ? & ? & Hy)]; [auto|left; right; by injection Hy|].
        destruct (decide (y = id)) as [->|]; [left; right; by injection Hy|]. right. exists y. naive_solver.
Qed.

Lemma blog_fold l st : matches_ok st →
  let st' := foldl (blog_match_step sn v) st l in
  matches_ok st' ∧
  (∀ a, a ∈ fst st' ↔ a ∈ fst st ∨
     ∃ id b, id ∉ snd st ∧ id ∉ sn_covered sn ∧ blog_owner l id = Some b ∧ blog_advisory b id = Some a).
Proof.
  revert st. induction l as [|b l IH]; intros st Hok; cbn [foldl].
  { split; [done|]. intros a. unfold blog_owner. simpl. naive_solver. }
  assert (Hcons : ∀ id, blog_owner (b :: l) id =
    if bool_decide (id ∈ bl_cves b) && match matchBlog sn b v with Some _ => true | None => false end
    then Some b else blog_owner l id) by done.
  setoid_rewrite Hcons. unfold blog_match_step at 2 4. destruct (matchBlog sn b v) as [[status fixed]|] eqn:Em.
  2: { destruct (IH st Hok) as (I1 & I2). split; [done|]. intros a. rewrite I2. setoid_rewrite andb_false_r. done. }
  destruct (blog_ids_fold b status fixed (bl_cves b) st Hok Em) as (H1 & H2 & H3). destruct (IH _ H1) as (I1 & I2).
  split; [done|]. intros a. rewrite I2, H3. setoid_rewrite H2. setoid_rewrite andb_true_r. split.
  - intros [[?|(id & Hid & Hn & Hc & Ha)]|(id & b' & Hn & Hc & Ho & Ha)]; [auto|right..].
    + exists id, b. by rewrite bool_decide_eq_true_2.
    + exists id, b'. destruct (decide (id ∈ bl_cves b)); [tauto|]. rewrite bool_decide_eq_false_2 by done. tauto.
  - intros [?|(id & b' & Hn & Hc & Ho & Ha)]; [auto|]. destruct (bool_decide (id ∈ bl_cves b)) eqn:Eb.
    + apply bool_decide_eq_true in Eb. injection Ho as <-. left. right. by exists id.
    + apply bool_decide_eq_false in Eb. right. exists id, b'. tauto.
Qed.
End matches.

Definition os_or_linux `{GoUnicode} (os : string) : string :=
  let os := to_lower os in if String.eqb os "" then "linux" else os.

Lemma Match_elem `{GoUnicode, GoUnicodeUpper} sn ver v os : parseVersion ver = Some v →
  matches_ok (Match sn ver os, list_to_set (am_VulnID <$> Match sn ver os)) ∧
  ∀ a, a ∈ Match sn ver os ↔
    (∃ id e, owner (os_or_linux os) (sn_wg sn) id = Some e ∧ wg_advisory sn v e id = Some a) ∨
    (∃ id b, owner (os_or_linux os) (sn_wg sn) id = None ∧ id ∉ sn_covered sn ∧
             blog_owner sn v (sn_blog sn) id = Some b ∧ blog_advisory sn v b id = Some a).
Proof.
  intros Hv. unfold Match. rewrite Hv. fold (os_or_linux os). set (o := os_or_linux os).
  assert (Hinit : matches_ok ([], ∅)) by (split; simpl; [constructor|intros ? ?%elem_of_nil; done]).
  destruct (wg_fold sn v o (sn_wg sn) ([], ∅) Hinit) as (H1 & H2 & H3).
  destruct (blog_fold sn v (sn_blog sn) _ H1) as ([N _] & H4). split.
  { split; [done|]. intros id Hid. simpl. by apply elem_of_list_to_set. }
  intros a. rewrite H4, H3. setoid_rewrite H2. simpl. split.
  - intros [[?%elem_of_nil|(id & e & _ & Ho & Ha)]|(id & b & Hn & ?)]; [done|left; by exists id, e|right].
    exists id, b. split; [|done]. destruct (owner o (sn_wg sn) id); [|done]. exfalso. apply Hn. right. by eexists.
  - intros [(id & e & Ho & Ha)|(id & b & Ho & ?)].
    + left. right. exists id, e. split; [set_solver|done].
    + right. exists id, b. split; [|done]. rewrite Ho. intros [?%elem_of_empty|[? ?]]; done.
Qed.

(** a Node.js version is reported for each vulnerability at most once. A
    vulnerability the index lists for this platform is reported as the first
    entry that lists it says, and by no other source; one that only blog posts
    list, as the first post that affects the version says. *)
Theorem Match_owned `{GoUnicode, GoUnicodeUpper} sn ver v os :
  parseVersion ver = Some v →
  NoDup (am_VulnID <$> Match sn ver os) ∧
  ∀ a, a ∈ Match sn ver os ↔
    match owner (os_or_linux os) (sn_wg sn) (am_VulnID a) with
    | Some e => wg_advisory sn v e (am_VulnID a) = Some a
    | None => am_VulnID a ∉ sn_covered sn ∧
              ∃ b, blog_owner sn v (sn_blog sn) (am_VulnID a) = Some b ∧ blog_advisory sn v b (am_VulnID a) = Some a
    end.
Proof.
  intros Hv. destruct (Match_elem sn ver v os Hv) as ([Hn _] & Hm). split; [exact Hn|]. intros a. rewrite Hm.
  assert (Hw : ∀ e id, wg_advisory sn v e id = Some a → am_VulnID a = id).
  { intros e id. unfold wg_advisory. destruct (matchWG sn e v) as [[? ?]|]; simpl; [by intros [= <-]|done]. }
  assert (Hb : ∀ b id, blog_advisory sn v b id = Some a → am_VulnID a = id).
  { intros b id. unfold blog_advisory. destruct (matchBlog sn b v) as [[? ?]|]; simpl; [by intros [= <-]|done]. }
  split.
  - intros [(id & e & Ho & Ha)|(id & b & Ho & Hc & Hbo & Ha)].
    + rewrite (Hw e id Ha). by rewrite Ho.
    + rewrite (Hb b id Ha). rewrite Ho. split; [done|]. by exists b.
  - destruct (owner _ _ _) as [e|] eqn:Ho.
    + intros Ha. left. by exists (am_VulnID a), e.
    + intros (Hc & b & Hbo & Ha). right. by exists (am_VulnID a), b.
Qed.

(** ** The version of the group *)

(** The text of the version is read as the version. *)
Definition readable (f : version) : Prop := parseVersion (version_String f) = Some f.

(** The fixes of a snapshot read back: the least versions of the patched
    alternatives (nothing but a [>] of a component of nine nines gives one that
    does not), and the fixed versions of posts, which are of their lines. *)
Definition fixes_read (sn : Snapshot) : Prop :=
  (∀ e iv, e ∈ sn_wg sn → iv ∈ wg_patched e → interval_empty iv = false → readable (iv_lo iv)) ∧
  (∀ b m f, b ∈ sn_blog sn → bl_fixed b !! m = Some f → v_major f = m ∧ readable f).

(** What the source of an id says fixes it: the least patched version of the
    line above the installed one, or the version a post names for the line. *)
Definition own_fix `{GoUnicode, GoUnicodeUpper} (sn : Snapshot) (v : version) (os id : string) (f : version) : Prop :=
  match owner (os_or_linux os) (sn_wg sn) id with
  | Some e => least_patched e v f
  | None => ∃ b, blog_owner sn v (sn_blog sn) id = Some b ∧ bl_fixed b !! v_major v = Some f ∧ vlt v f
  end.

(** Once fixed, the line stays fixed: a post says so of every later version, and
    a patched range when the alternative that begins with the fix reaches the
    end of the line, as a bare X.Y.Z, a caret and [>=] do. *)
Definition stays_fixed `{GoUnicode} (sn : Snapshot) (os id : string) (f : version) : Prop :=
  match owner (os_or_linux os) (sn_wg sn) id with
  | Some e => ∃ iv, iv ∈ wg_patched e ∧ iv_lo iv = f ∧
                (iv_unbounded iv = true ∨ ¬ vlt (iv_hi iv) ((v_major f + 1)%Z, 0, 0)%Z)
  | None => True
  end.

(** [F] is outside what the source of an id says is vulnerable on the line. *)
Definition not_affected `{GoUnicode, GoUnicodeUpper} (sn : Snapshot) (v : version) (os id : string) (F : version) : Prop :=
  match owner (os_or_linux os) (sn_wg sn) id with
  | Some e => range_contains (wg_patched e) F = true
  | None => ∃ b f, blog_owner sn v (sn_blog sn) id = Some b ∧ bl_fixed b !! v_major v = Some f ∧ ¬ vlt F f
  end.

Section augment.
Context `{GoUnicode, GoUnicodeUpper}.

Definition fix_of (a : Advisory) : option version :=
  if String.eqb (am_Status a) StatusFixed then parseVersion (am_FixedVer a) else None.

Lemma raise_highest_line h0 a : raise_highest h0 a =
  match fix_of a with
  | Some fv => match h0 with Some h => if is_lt (version_compare h fv) then Some fv else h0 | None => Some fv end
  | None => h0
  end.
Proof. unfold raise_highest, fix_of. destruct (String.eqb _ _); [|done]. by destruct (parseVersion _). Qed.

Lemma not_gt_vlt a b : version_compare a b ≠ Gt ↔ ¬ vlt b a.
Proof. rewrite <- is_lt_vlt, (cmp_antisym version_compare a b). destruct (version_compare a b); simpl; naive_solver. Qed.

(** A match with a fix: the fix reads back and is what its source says; and if
    the line stays fixed, every later version of it is not affected. *)
Lemma Match_fix_line sn ver v os a : parseVersion ver = Some v → fixes_read sn →
  a ∈ Match sn ver os → am_Status a = StatusFixed →
  ∃ f, am_FixedVer a = version_String f ∧ fix_of a = Some f ∧ above_in_line v f ∧ own_fix sn v os (am_VulnID a) f ∧
       (stays_fixed sn os (am_VulnID a) f →
        ∀ F, v_major F = v_major v → ¬ vlt F f → not_affected sn v os (am_VulnID a) F).
Proof.
  intros Hv [Hwg Hbl] Ha Hst. destruct (Match_elem sn ver v os Hv) as [_ Hm]. apply Hm in Ha.
  unfold own_fix, stays_fixed, not_affected.
  destruct Ha as [(id & e & Ho & Ha)|(id & b & Ho & _ & Hbo & Ha)].
  - unfold wg_advisory in Ha. destruct (matchWG sn e v) as [[st fixed]|] eqn:Em; [|done]. simpl in Ha. injection Ha as <-.
    simpl in Hst. subst st. simpl. assert (He : e ∈ sn_wg sn) by (unfold owner in Ho; by apply List.find_some in Ho as [?%list_elem_of_In _]).
    unfold matchWG in Em. destruct (range_contains (wg_vulnerable e) v && negb (range_contains (wg_patched e) v)) eqn:Ea.
    2: { destruct (_ && _ && _); discriminate Em. }
    apply andb_prop in Ea as [_ Ep]. apply negb_true_iff in Ep.
    pose proof (best_least e v Ep) as Hbest. pose proof (best_spec v (lowerBounds (wg_patched e)) None ltac:(done)) as Hs.
    destruct (foldl _ _ _) as [f|]; [|discriminate Em]. injection Em as <-.
    destruct Hs as ([?|Hlo] & Habove & _); [done|]. apply lowerBounds_iff in Hlo as (iv & Hiv & Hne & ->).
    exists (iv_lo iv). rewrite Ho. split_and!; [done| |done|done|].
    + unfold fix_of. simpl. by apply (Hwg e).
    + intros (iv' & Hiv' & Elo & Hclose) F HF Hge. apply range_contains_iff. exists iv'. split; [done|].
      unfold above_in_line, v_major in *. destruct iv' as [lo hi u]. simpl in *. subst lo. destruct (iv_lo iv) as [[x y] z]. simpl in *.
      destruct u; [vlt_lia|]. destruct Hclose as [|Hclose]; [done|]. vlt_lia.
  - unfold blog_advisory in Ha. destruct (matchBlog sn b v) as [[st fixed]|] eqn:Em; [|done]. simpl in Ha. injection Ha as <-.
    simpl in Hst. subst st. simpl.
    assert (Hb : b ∈ sn_blog sn) by (unfold blog_owner in Hbo; by apply List.find_some in Hbo as [?%list_elem_of_In _]).
    unfold matchBlog in Em. destruct (default false (bl_affected b !! v_major v)).
    2: { destruct (bl_fixed b !! v_major v); [done|]. destruct (endedBefore _ _ _); discriminate Em. }
    destruct (bl_fixed b !! v_major v) as [f|] eqn:Ef; [|discriminate Em].
    destruct (is_lt (version_compare v f)) eqn:El; [|done]. injection Em as <-. apply is_lt_vlt in El.
    destruct (Hbl b _ f Hb Ef) as [Hmaj Hread]. exists f. rewrite Ho. split_and!; [done| |done|by exists b|].
    + unfold fix_of. simpl. exact Hread.
    + intros _ F _ Hge. by exists b, f.
Qed.

(** C23: the fixed version shown for a Node.js runtime is one for all fixable
    findings: the highest of what their sources say fixes them. Each source
    gives a version of the installed one's line above it (the least its patched
    range has there, or the one a post names); the version shown is one of
    these and none of the others is above it. It is one the source of a finding
    calls patched whenever that source keeps the line patched from its own fix
    on: a post always does, a patched range when the alternative that begins
    with the fix reaches the end of the line. Without that it need not be
    ([partial_line_gap]). The fixes of the snapshot are assumed to read back as
    versions, and those of posts to be of their lines. *)
Theorem Augment_fixes_every sn env os pkgs sevs ver v f :
  fixes_read sn → detectVersion env = Some ver → parseVersion ver = Some v →
  f ∈ PyCore.ra_Findings (Augment (Some sn) env os pkgs sevs) → fi_Status f = StatusFixed →
  let fixed g := g ∈ PyCore.ra_Findings (Augment (Some sn) env os pkgs sevs) ∧ fi_Status g = StatusFixed in
  ∃ F, above_in_line v F ∧ (∃ g, fixed g ∧ own_fix sn v os (fi_VulnID g) F) ∧
       ∀ g, fixed g → fi_FixedVer g = version_String F ∧
         ∃ own, own_fix sn v os (fi_VulnID g) own ∧ above_in_line v own ∧ ¬ vlt F own ∧
                (stays_fixed sn os (fi_VulnID g) own → not_affected sn v os (fi_VulnID g) F).
Proof.
  intros Hok Hd Hv. set (advs := List.filter (λ a, bool_decide (am_Severity a ∈ PyCore.wanted sevs)) (Match sn ver os)).
  set (h := foldl raise_highest None advs).
  assert (Hel : ∀ g, g ∈ PyCore.ra_Findings (Augment (Some sn) env os pkgs sevs) ↔
    ∃ a, a ∈ advs ∧ g = set_fixed h (runtime_finding (binaryPath pkgs) ver a)).
  { intros g. unfold Augment. rewrite Hd. simpl. rewrite elem_of_sort_by, list_elem_of_fmap.
    setoid_rewrite list_elem_of_fmap. unfold h, advs. naive_solver. }
  assert (Hst : ∀ x, fi_Status (set_fixed h x) = fi_Status x ∧ fi_VulnID (set_fixed h x) = fi_VulnID x).
  { intros x. unfold set_fixed. destruct h; [|done]. by destruct (String.eqb (fi_Status x) StatusFixed). }
  assert (Hm : ∀ a, a ∈ advs → a ∈ Match sn ver os).
  { intros a [Ha _]%list_elem_of_In%filter_In. by apply list_elem_of_In. }
  cbv zeta. setoid_rewrite Hel. intros (a & Ha & ->) Hs. rewrite (proj1 (Hst _)) in Hs. simpl in Hs.
  pose proof (PyCore.highest_of version_compare fix_of raise_highest raise_highest_line advs None) as Hh. fold h in Hh.
  destruct h as [F|].
  2: { destruct (Match_fix_line sn ver v os a Hv Hok (Hm a Ha) Hs) as (x & _ & Hx & _). destruct Hh as [_ Hn].
       assert (x ∈ omap fix_of advs) as Hin by (apply list_elem_of_omap; by exists a). rewrite Hn in Hin. by apply elem_of_nil in Hin. }
  destruct Hh as [[?|HF] Hall]; [done|]. apply list_elem_of_omap in HF as (b & Hb & HbF).
  assert (Hbs : am_Status b = StatusFixed).
  { unfold fix_of in HbF. by destruct (String.eqb_spec (am_Status b) StatusFixed). }
  destruct (Match_fix_line sn ver v os b Hv Hok (Hm b Hb) Hbs) as (x & _ & Hx & Habove & Hown & _). rewrite HbF in Hx. injection Hx as <-.
  exists F. split; [done|]. split.
  { exists (set_fixed (Some F) (runtime_finding (binaryPath pkgs) ver b)). rewrite (proj1 (Hst _)), (proj2 (Hst _)). split; [|exact Hown].
    split; [by exists b|exact Hbs]. }
  intros g [(d & Hdm & ->) Hgs]. rewrite (proj1 (Hst _)) in Hgs. simpl in Hgs.
  rewrite (proj2 (Hst _)). split.
  { unfold set_fixed. cbn [fi_Status runtime_finding]. by rewrite Hgs, String.eqb_refl. }
  change (fi_VulnID (runtime_finding (binaryPath pkgs) ver d)) with (am_VulnID d).
  destruct (Match_fix_line sn ver v os d Hv Hok (Hm d Hdm) Hgs) as (y & _ & Hy & Hya & Hyo & Hafter).
  assert (Hle : ¬ vlt F y) by (apply not_gt_vlt, Hall; right; apply list_elem_of_omap; by exists d).
  exists y. split_and!; [done..|]. intros Hstay. apply Hafter; [done|by destruct Habove|done].
Qed.
End augment.

Definition example_entry (id : Z) (cves : list string) (vulnerable patched : string) : wgEntry :=
  mk_wg id cves (default [] (parseRange vulnerable false)) (default [] (parseRange patched true))
    "high" "title" "url" ["all"] 0%Z.

Definition example_snapshot : Snapshot :=
  newSnapshot [example_entry 1 ["CVE-1"] "20.x || 22.x" "^20.11.1 || ^22.4.1"; example_entry 2 ["CVE-2"; "CVE-1"] "22.x" "^22.3.0"]
    0 [] 0 ∅ ∅.

Lemma Match_owned_witness :
  ((λ a, (am_VulnID a, am_FixedVer a)) <$> Match example_snapshot "22.1.0" "") = [("CVE-1", "22.4.1"); ("CVE-2", "22.3.0")] ∧
  NoDup (am_VulnID <$> Match example_snapshot "22.1.0" "").
Proof.
  split; [by vm_compute|].
  apply (Match_owned example_snapshot "22.1.0" (22, 1, 0)%Z ""). by vm_compute.
Defined.

Lemma example_fixes_read : fixes_read example_snapshot.
Proof.
  split; [|by intros b m f ?%elem_of_nil].
  intros e iv He Hiv _. apply list_elem_of_In in He. apply list_elem_of_In in Hiv. vm_compute in He.
  destruct He as [<-|[<-|[]]]; simpl in Hiv; destruct_or? Hiv; try done; subst iv; by vm_compute.
Qed.

Definition example_augment : PyCore.RuntimeAugment :=
  Augment (Some example_snapshot) ["NODE_VERSION=22.1.0"] "linux" [] ["high"].

Lemma Augment_fixes_every_witness :
  (fi_FixedVer <$> PyCore.ra_Findings example_augment) = ["22.4.1"; "22.4.1"] ∧
  let fixed g := g ∈ PyCore.ra_Findings example_augment ∧ fi_Status g = StatusFixed in
  ∃ F, above_in_line (22, 1, 0)%Z F ∧ (∃ g, fixed g ∧ own_fix example_snapshot (22, 1, 0)%Z "linux" (fi_VulnID g) F) ∧
       ∀ g, fixed g → fi_FixedVer g = version_String F ∧
         ∃ own, own_fix example_snapshot (22, 1, 0)%Z "linux" (fi_VulnID g) own ∧ above_in_line (22, 1, 0)%Z own ∧ ¬ vlt F own ∧
                (stays_fixed example_snapshot "linux" (fi_VulnID g) own →
                 not_affected example_snapshot (22, 1, 0)%Z "linux" (fi_VulnID g) F).
Proof.
  split; [by vm_compute|].
  apply (Augment_fixes_every example_snapshot ["NODE_VERSION=22.1.0"] "linux" [] ["high"] "22.1.0" (22, 1, 0)%Z
    (nth 0 (PyCore.ra_Findings example_augment) (mk_finding "" "" "" "" "" "" "" "" "" "" "" "" ""))).
  - apply example_fixes_read.
  - by vm_compute.
  - by vm_compute.
  - vm_compute. left.
  - by vm_compute.
Defined.

(** A patched range that names part of a line beside a higher fix: the version
    shown for both findings is not patched for the first. *)
Definition partial_entry : wgEntry := example_entry 1 ["CVE-1"] "22.x" "22.3.x".
Definition partial_snapshot : Snapshot :=
  newSnapshot [partial_entry; example_entry 2 ["CVE-2"] "22.x" "^22.4.1"] 0 [] 0 ∅ ∅.

Lemma partial_line_gap :
  ((λ g, (fi_VulnID g, fi_Status g, fi_FixedVer g)) <$>
     PyCore.ra_Findings (Augment (Some partial_snapshot) ["NODE_VERSION=22.1.0"] "linux" [] ["high"])) =
    [("CVE-1", StatusFixed, "22.4.1"); ("CVE-2", StatusFixed, "22.4.1")] ∧
  range_contains (wg_vulnerable partial_entry) (22, 4, 1)%Z = true ∧
  range_contains (wg_patched partial_entry) (22, 4, 1)%Z = false.
Proof. split_and!; by vm_compute. Qed.

Lemma touchesMajor_exact_witness :
  touchesMajor (mk_interval (20, 9, 0)%Z (22, 0, 0)%Z false) 21 = true ∧
  ∃ v, natural v ∧ v_major v = 21%Z ∧ in_interval (mk_interval (20, 9, 0)%Z (22, 0, 0)%Z false) v.
Proof.
  split; [by vm_compute|].
  apply (touchesMajor_exact (mk_interval (20, 9, 0)%Z (22, 0, 0)%Z false) 21); [by vm_compute|lia|by vm_compute].
Defined.
