(* ===== verification/ImageTag.v ===== *)
(** * ImageTag: what the tag of a running image says

    internal/remediation/tag.go: a tag is pinned (three numbers with a fixed
    prefix and suffix), floating, or excluded from the lookup of updates.
    [numericTagRE] is ambiguous about where its numbers end, so what it reports
    depends on Go's preference for the longest repetition; the lemmas on
    [greedy] repetitions compute it. *)

From Stdlib Require Import ZArith Lia Bool Ascii String List.
From stdpp Require Import base gmap strings list.
From S2P Require Import Prelude GoStrings GoRegexp Decimals Semver GoText Reference.

Open Scope string_scope.
Open Scope Z_scope.
Open Scope nat_scope.
Open Scope list_scope.

(** ** Data *)

(** [TagKind] and [ExcludeReason] are strings. *)
Definition TagPinned : string := "pinned".
Definition TagFloating : string := "floating".
Definition TagExcluded : string := "excluded".

Definition ExcludeNone : string := "".
Definition ExcludeDigestOnly : string := "digest_only".
Definition ExcludeTagAndDigest : string := "tag_and_digest".
Definition ExcludePrerelease : string := "prerelease".
Definition ExcludeBareDigest : string := "bare_digest".
Definition ExcludeUnparsable : string := "unparsable".
Definition ExcludeUnsupportedTag : string := "unsupported_tag_format".

Record TagVersion := mk_tag_version {
  tv_Prefix : string; tv_Major : Z; tv_Minor : Z; tv_Patch : Z; tv_Suffix : string }.

Definition zero_tag_version : TagVersion := mk_tag_version "" 0 0 0 "".

Definition TagVersion_String (v : TagVersion) : string :=
  tv_Prefix v +:+ signed_itoa (tv_Major v) +:+ "." +:+ signed_itoa (tv_Minor v) +:+ "." +:+
  signed_itoa (tv_Patch v) +:+ tv_Suffix v.

Record ImageRef := mk_image_ref {
  ir_Raw : string; ir_Repository : string; ir_Tag : string; ir_ImplicitTag : bool;
  ir_Digest : string; ir_Kind : string; ir_Exclude : string; ir_Version : TagVersion }.

(** ** Regular expressions *)

Definition is_letter (c : ascii) : bool := is_lower c || is_upper c.
Definition is_prefix_byte (c : ascii) : bool :=
  is_letter c || Ascii.eqb c "_"%char || Ascii.eqb c "-"%char.

Definition tagPrefixRE : re := RSeq (RClass is_letter) (RStar (RClass is_prefix_byte)).
Definition dotNumberRE : re := RSeq (RChar "."%char) (RPlus RDigit).
Definition tagNumbersRE : re := RSeq (RPlus RDigit) (RStar dotNumberRE).

Definition numericTagRE : re :=
  RSeq (ROpt (RGroup 1 tagPrefixRE)) (RSeq (RGroup 2 tagNumbersRE) (RGroup 3 (RStar RDot))).

Definition prereleaseTokenRE : re :=
  RAlts (RLit <$> ["alpha"; "beta"; "rc"; "dev"; "preview"; "pre"; "nightly"; "snapshot"; "canary"; "unstable"]).

Definition attachedPreRE : re :=
  RSeqs [RDigit; RClass (λ c, Ascii.eqb c "a"%char || Ascii.eqb c "b"%char); RPlus RDigit].

Definition tokenRE : re := RAlt (RPlus (RClass is_lower)) (RPlus RDigit).

Definition bareDigestRE : re := RSeq (RLit "sha256:") (RStar (RClass is_alnum)).

(** ** Classification *)

Definition maxVersionDigits : nat := 9.

Definition IsPrerelease `{GoUnicode} (tag : string) : bool :=
  let lower := to_lower tag in
  if existsb (match_full prereleaseTokenRE) (find_all tokenRE lower) then true
  else match_in attachedPreRE lower.

Definition canonicalNumber (s : string) : option Z :=
  if (maxVersionDigits <? slen s) || ((1 <? slen s) && has_prefix s "0") then None else atoi s.

Definition unsupported : string * TagVersion * string := (TagExcluded, zero_tag_version, ExcludeUnsupportedTag).

Definition classifyTag (tag : string) : string * TagVersion * string :=
  match find_full numericTagRE tag with
  | None =>
      if has_prefix tag "." then unsupported else (TagFloating, zero_tag_version, ExcludeNone)
  | Some m =>
      let parts := split_byte "."%char (group 2 m) in
      let rest := group 3 m in
      if (length parts <=? 2) && has_prefix rest "." then unsupported
      else if length parts <=? 2 then (TagFloating, zero_tag_version, ExcludeNone)
      else if 3 <? length parts then unsupported
      else if negb (String.eqb rest "") && negb (has_prefix rest "-" && (1 <? slen rest)) then unsupported
      else match mapM canonicalNumber parts with
           | Some [major; minor; patch] =>
               (TagPinned, mk_tag_version (group 1 m) major minor patch rest, ExcludeNone)
           | _ => unsupported
           end
  end.

Definition ParseTagVersion (tag : string) : TagVersion * bool :=
  let '(kind, v, _) := classifyTag tag in (v, String.eqb kind TagPinned).

Definition ParseImageRef `{GoUnicode} (ref : string) : ImageRef :=
  let excluded why := mk_image_ref ref "" "" false "" TagExcluded why zero_tag_version in
  if negb (contains_any ref "/@") && match_full bareDigestRE ref then excluded ExcludeBareDigest
  else
    match RepositoryOf ref with
    | None => excluded ExcludeUnparsable
    | Some repo =>
        let digest := DigestOf ref in
        let tag := TagOf ref in
        if negb (String.eqb tag "") && negb (String.eqb digest "")
        then mk_image_ref ref repo tag false digest TagExcluded ExcludeTagAndDigest zero_tag_version
        else if negb (String.eqb digest "")
        then mk_image_ref ref repo "" false digest TagExcluded ExcludeDigestOnly zero_tag_version
        else
          let '(tag, implicit) := if String.eqb tag "" then ("latest", true) else (tag, false) in
          if IsPrerelease tag
          then mk_image_ref ref repo tag implicit digest TagExcluded ExcludePrerelease zero_tag_version
          else
            let '(kind, v, why) := classifyTag tag in
            mk_image_ref ref repo tag implicit digest kind why
              (if String.eqb kind TagPinned then v else zero_tag_version)
    end.

(** ** Greedy repetition *)

(** The matcher's first result. *)
Definition first_match (r : re) (s : string) (c : caps) (out : string * caps) : Prop :=
  head (mt r s c) = Some out.

Lemma first_bind r1 r2 s c s1 c1 out :
  first_match r1 s c (s1, c1) → first_match r2 s1 c1 out → first_match (RSeq r1 r2) s c out.
Proof.
  unfold first_match. cbn [mt]. destruct (mt r1 s c) as [|[s1' c1'] l]; [done|]. intros [= -> ->].
  cbn. destruct (mt r2 s1 c1); [done|]. by intros [= ->].
Qed.

Lemma first_group n r w s c c1 :
  first_match r (w +:+ s) c (s, c1) → first_match (RGroup n r) (w +:+ s) c (s, (n, w) :: c1).
Proof.
  unfold first_match. cbn [mt]. destruct (mt r (w +:+ s) c) as [|[s1 c1'] l]; [done|]. intros [= -> ->].
  cbn. by rewrite slen_app, Nat.add_sub, stake_app.
Qed.

Lemma first_alt_l r1 r2 s c out : first_match r1 s c out → first_match (RAlt r1 r2) s c out.
Proof. unfold first_match. cbn [mt]. by destruct (mt r1 s c). Qed.

Lemma first_opt_none r s c : mt r s c = [] → first_match (ROpt r) s c (s, c).
Proof. unfold first_match, ROpt. cbn [mt]. by intros ->. Qed.

Lemma seq_none r1 r2 s c : mt r1 s c = [] → mt (RSeq r1 r2) s c = [].
Proof. cbn [mt]. by intros ->. Qed.

Lemma group_none n r s c : mt r s c = [] → mt (RGroup n r) s c = [].
Proof. cbn [mt]. by intros ->. Qed.

(** [r*] takes [w] and stops in front of [s]. *)
Definition greedy (r : re) (w s : string) : Prop :=
  ∀ n c, slen w ≤ n → head (mt_star (mt r) n (w +:+ s) c) = Some (s, c).

Lemma first_star r w s c : greedy r w s → first_match (RStar r) (w +:+ s) c (s, c).
Proof. intros Hg. apply Hg. rewrite slen_app. lia. Qed.

Lemma greedy_stop r s : (∀ c, mt r s c = []) → greedy r "" s.
Proof. intros Hs [|n] c _; cbn; [done|]. by rewrite Hs. Qed.

Lemma greedy_step r w1 w2 s :
  w1 ≠ "" → (∀ c, first_match r (w1 +:+ w2 +:+ s) c (w2 +:+ s, c)) → greedy r w2 s → greedy r (w1 +:+ w2) s.
Proof.
  intros Hne H1 H2 n c Hn. rewrite slen_app in Hn. destruct w1 as [|d w1]; [done|]. cbn in Hn.
  destruct n as [|n]; [lia|]. rewrite app_assoc_s. cbn [mt_star]. specialize (H1 c). unfold first_match in H1.
  destruct (mt r (String d w1 +:+ w2 +:+ s) c) as [|[s1 c1] l]; [done|]. cbn in H1. injection H1 as -> ->.
  cbn [mbind list_bind]. rewrite (proj2 (Nat.ltb_lt _ _)).
  - pose proof (H2 n c ltac:(lia)) as H. destruct (mt_star (mt r) n (w2 +:+ s) c); [done|]. exact H.
  - rewrite (slen_app (String d w1)). cbn. lia.
Qed.

(** The next byte, if any, is not one of [p]. *)
Definition stops (p : ascii → bool) (s : string) : Prop :=
  match s with String d _ => p d = false | EmptyString => True end.

Lemma class_no_match p s c : stops p s → mt (RClass p) s c = [].
Proof. destruct s as [|d s]; [done|]. cbn. by intros ->. Qed.

Lemma first_class p d s c : p d = true → first_match (RClass p) (String d s) c (s, c).
Proof. unfold first_match. cbn. by intros ->. Qed.

Lemma greedy_class p w s : sforallb p w = true → stops p s → greedy (RClass p) w s.
Proof.
  intros Hw Hs. induction w as [|d w IH]; [apply greedy_stop; intros; by apply class_no_match|].
  cbn in Hw. apply andb_prop in Hw as [Hd Hw]. apply (greedy_step _ (String d "")); [done| |by apply IH].
  intros c. by apply (first_class p d (w +:+ s)).
Qed.

Lemma first_plus p w s c :
  w ≠ "" → sforallb p w = true → stops p s → first_match (RPlus (RClass p)) (w +:+ s) c (s, c).
Proof.
  intros Hne Hw Hs. destruct w as [|d w]; [done|]. cbn in Hw. apply andb_prop in Hw as [Hd Hw].
  eapply first_bind; [by apply (first_class p d (w +:+ s))|]. by apply first_star, greedy_class.
Qed.

(** ** The numbers of a tag *)

Definition number (s : string) : Prop := s ≠ "" ∧ sforallb is_digit s = true.

(** What may follow a number for the dots after it to be read on. *)
Definition dotted_tail (l : list string) : string := foldr (λ s acc, "." +:+ s +:+ acc) "" l.

Lemma dot_no_match s c : stops (λ d, Ascii.eqb d "."%char) s → mt dotNumberRE s c = [].
Proof.
  destruct s as [|d s]; [done|]. cbn. intros Hd. unfold RChar.
  destruct (Ascii.eqb_spec "."%char d) as [<-|]; [by rewrite Ascii.eqb_refl in Hd|done].
Qed.

Lemma dotted_stops l s : stops is_digit s → stops is_digit (dotted_tail l +:+ s).
Proof. by destruct l. Qed.

Lemma greedy_dots l s :
  Forall number l → stops is_digit s → stops (λ d, Ascii.eqb d "."%char) s →
  greedy dotNumberRE (dotted_tail l) s.
Proof.
  intros Hl Hd Hp. induction Hl as [|x l [Hne Hx] Hl IH].
  { apply greedy_stop. intros. by apply dot_no_match. }
  cbn [dotted_tail foldr]. fold (dotted_tail l). rewrite <- app_assoc_s. apply greedy_step; [done| |done].
  intros c. rewrite app_assoc_s. cbn. eapply first_bind; [by apply first_class, Ascii.eqb_refl|].
  apply first_plus; [done|done|by apply dotted_stops].
Qed.

Lemma first_numbers x l s c :
  number x → Forall number l → stops is_digit s → stops (λ d, Ascii.eqb d "."%char) s →
  first_match tagNumbersRE ((x +:+ dotted_tail l) +:+ s) c (s, c).
Proof.
  intros [Hne Hx] Hl Hd Hp. rewrite app_assoc_s. eapply first_bind.
  - apply first_plus; [done|done|by apply dotted_stops].
  - apply first_star. by apply greedy_dots.
Qed.

(** A fixed prefix of a tag. *)
Definition prefix_ok (p : string) : bool :=
  match p with EmptyString => true | String d p' => is_letter d && sforallb is_prefix_byte p' end.

Definition no_newline (s : string) : bool := sforallb (λ c, negb (Ascii.eqb c "010"%char)) s.

Lemma letter_not_digit d : is_letter d = true → is_digit d = false.
Proof.
  unfold is_letter, is_lower, is_upper, is_digit, in_range.
  rewrite orb_true_iff, !andb_true_iff, andb_false_iff, !N.leb_le, !N.leb_gt. lia.
Qed.

Lemma digit_not_prefix d : is_digit d = true → is_prefix_byte d = false.
Proof.
  intros Hd. unfold is_prefix_byte. destruct (is_letter d) eqn:El; [by rewrite (letter_not_digit _ El) in Hd|].
  destruct (Ascii.eqb_spec d "_"%char) as [->|]; [done|]. by destruct (Ascii.eqb_spec d "-"%char) as [->|].
Qed.

Lemma number_stops x s : number x → stops is_prefix_byte (x +:+ s) ∧ stops is_letter (x +:+ s).
Proof.
  intros [Hne Hx]. destruct x as [|d x]; [done|]. cbn in *. apply andb_prop in Hx as [Hd _]. split.
  - by apply digit_not_prefix.
  - destruct (is_letter d) eqn:E; [|done]. by rewrite (letter_not_digit _ E) in Hd.
Qed.

(** What [numericTagRE] reports of a tag whose numbers end before a byte that
    cannot go on with them. *)
Lemma numericTag_groups p x l rest :
  prefix_ok p = true → number x → Forall number l → stops is_digit rest →
  stops (λ d, Ascii.eqb d "."%char) rest → no_newline rest = true →
  ∃ m, find_full numericTagRE (p +:+ (x +:+ dotted_tail l) +:+ rest) = Some m ∧
       group 1 m = p ∧ group 2 m = x +:+ dotted_tail l ∧ group 3 m = rest.
Proof.
  intros Hp Hx Hl Hd Hdot Hn. set (nums := x +:+ dotted_tail l).
  assert (∀ c, first_match (RSeq (RGroup 2 tagNumbersRE) (RGroup 3 (RStar RDot))) (nums +:+ rest) c
    ("", (3, rest) :: (2, nums) :: c)) as Htail.
  { intros c. eapply first_bind; [by apply first_group, first_numbers|].
    rewrite <- (app_nil_r rest) at 1. apply first_group. apply first_star. by apply greedy_class. }
  assert (∃ c, first_match (ROpt (RGroup 1 tagPrefixRE)) (p +:+ nums +:+ rest) [] (nums +:+ rest, c) ∧
    group 1 c = p) as (c & Hc & Hg).
  { destruct (number_stops x (dotted_tail l +:+ rest) Hx) as [Hs1 Hs2]. unfold nums. rewrite app_assoc_s.
    destruct p as [|d p].
    - exists []. split; [|done]. apply first_opt_none, group_none, seq_none.
      by apply class_no_match.
    - cbn in Hp. apply andb_prop in Hp as [Hd1 Hp]. exists [(1, String d p)]. split; [|done].
      apply first_alt_l. apply (first_group 1 tagPrefixRE (String d p)). eapply first_bind.
      + by apply (first_class _ d (p +:+ _)).
      + by apply first_star, greedy_class. }
  pose proof (first_bind _ _ _ _ _ _ _ Hc (Htail c)) as Hf.
  exists ((3, rest) :: (2, nums) :: c). split; [|done].
  unfold find_full, numericTagRE. unfold first_match in Hf.
  destruct (mt _ _ _) as [|[s1 c1] ms]; [done|]. cbn in Hf. by injection Hf as -> ->.
Qed.

(** ** Numbers that read back *)

Lemma canonicalNumber_iff s n :
  number s → canonicalNumber s = Some n ↔ (0 ≤ n < 10 ^ 9)%Z ∧ s = signed_itoa n.
Proof.
  intros [Hne Hd]. unfold canonicalNumber, atoi. rewrite Hd, (proj2 (String.eqb_neq s "")) by done. cbn [negb andb].
  pose proof (dec_val_lt s Hd) as Hlt. split.
  - destruct (Nat.ltb_spec maxVersionDigits (slen s)) as [|Hlen]; [done|]. cbn [orb].
    destruct ((1 <? slen s) && has_prefix s "0") eqn:Ez; [done|].
    destruct (Z.ltb_spec (Z.of_N (dec_val s)) (2 ^ 63)); [|done]. intros [= <-].
    assert (canonical s = true) as Hc.
    { unfold canonical. rewrite (proj2 (isDigits_spec s)) by done. cbn [andb].
      destruct (String.eqb_spec s "0") as [->|Hs0]; [done|]. cbn [orb]. apply andb_false_iff in Ez as [Ez|Ez]; [|by rewrite Ez].
      apply Nat.ltb_ge in Ez. destruct s as [|c [|c' s]]; [done| |cbn in Ez; lia]. cbn.
      destruct (Ascii.eqb_spec c "0"%char) as [->|]; done. }
    assert (dec_val s < 10 ^ 9)%N.
    { eapply N.lt_le_trans; [exact Hlt|]. apply N.pow_le_mono_r; [lia|]. unfold maxVersionDigits in Hlen. lia. }
    split; [change (10 ^ 9)%N with 1000000000%N in *; lia|].
    unfold signed_itoa. rewrite (proj2 (Z.ltb_ge _ _)) by lia. rewrite N2Z.id.
    destruct (itoa_spec (dec_val s)). by apply canonical_inj.
  - intros [Hn ->]. unfold signed_itoa in *. rewrite (proj2 (Z.ltb_ge n 0)) in * by lia.
    destruct (itoa_spec (Z.to_N n)) as [Hc Hv]. rewrite Hv.
    assert (slen (itoa (Z.to_N n)) ≤ 9) as Hl.
    { destruct (String.eqb_spec (itoa (Z.to_N n)) "0") as [->|H0]; [cbn; lia|].
      pose proof (canonical_lower _ Hc H0) as Hlow. rewrite Hv in Hlow.
      destruct (Nat.le_gt_cases (slen (itoa (Z.to_N n))) 9); [done|exfalso].
      assert (10 ^ 9 ≤ 10 ^ N.of_nat (pred (slen (itoa (Z.to_N n)))))%N.
      { apply N.pow_le_mono_r; lia. }
      change (10 ^ 9)%N with 1000000000%N in *. lia. }
    rewrite (proj2 (Nat.ltb_ge _ _)) by (unfold maxVersionDigits; lia). cbn [orb].
    destruct ((1 <? slen (itoa (Z.to_N n))) && has_prefix (itoa (Z.to_N n)) "0") eqn:Ez.
    + apply andb_prop in Ez as [E1%Nat.ltb_lt Ez]. destruct (itoa (Z.to_N n)) as [|c s]; [done|].
      pose proof (canonical_cons _ _ Hc) as (_ & _ & [->|Hb]); [cbn in E1; lia|].
      apply andb_prop in Ez as [->%Ascii.eqb_eq _]. vm_compute in Hb. done.
    + rewrite Z2N.id by lia. rewrite (proj2 (Z.ltb_lt _ _)) by lia. done.
Qed.

Lemma number_itoa n : (0 ≤ n)%Z → number (signed_itoa n).
Proof.
  intros Hn. unfold signed_itoa. rewrite (proj2 (Z.ltb_ge n 0)) by lia.
  destruct (itoa_spec (Z.to_N n)) as [Hc _]. by destruct (canonical_digits _ Hc).
Qed.

(** ** Pinned tags *)

Definition tag_number_ok (n : Z) : Prop := (0 ≤ n < 10 ^ 9)%Z.

(** What the fields of a pinned tag can be. *)
Definition tag_version_ok (v : TagVersion) : Prop :=
  prefix_ok (tv_Prefix v) = true ∧
  tag_number_ok (tv_Major v) ∧ tag_number_ok (tv_Minor v) ∧ tag_number_ok (tv_Patch v) ∧
  (tv_Suffix v = "" ∨ has_prefix (tv_Suffix v) "-" = true ∧ 1 < slen (tv_Suffix v)) ∧
  no_newline (tv_Suffix v) = true.

Lemma cap_dots w c c' : re_cap (RStar dotNumberRE) w c c' → ∃ l, w = dotted_tail l ∧ Forall number l.
Proof.
  intros H. remember (RStar dotNumberRE) as r eqn:Er.
  induction H as [| | | | | |r0 s1 s2 c c1 c2 H1 _ H2 IH|]; try done.
  - by exists [].
  - injection Er as ->. destruct (IH eq_refl) as (l & -> & Hl).
    apply cap_seq_inv in H1 as (d & x & c3 & -> & [-> ->]%cap_char & (Hx & Hne & _)%cap_class_plus).
    exists (x :: l). split; [by rewrite app_assoc_s|]. by apply Forall_cons.
Qed.

Lemma no_dot s : sforallb is_digit s = true → sforallb (λ d, negb (Ascii.eqb d "."%char)) s = true.
Proof.
  intros Hs. eapply sforallb_impl; [|exact Hs]. intros c Hc.
  by destruct (Ascii.eqb_spec c "."%char) as [->|].
Qed.

Lemma split_dots x l : number x → Forall number l → split_byte "."%char (x +:+ dotted_tail l) = x :: l.
Proof.
  intros [_ Hx] Hl. revert x Hx. induction Hl as [|y l [_ Hy] Hl IH]; intros x Hx; cbn [dotted_tail foldr].
  - rewrite app_nil_r. by apply split_byte_no, no_dot.
  - fold (dotted_tail l). rewrite (app_cons "."%char ""), app_nil_l, split_byte_app by (by apply no_dot). by rewrite IH.
Qed.

(** What a match says about the tag. *)
Lemma numericTag_sound tag m :
  find_full numericTagRE tag = Some m →
  ∃ x l, tag = group 1 m +:+ (x +:+ dotted_tail l) +:+ group 3 m ∧ group 2 m = x +:+ dotted_tail l ∧
    number x ∧ Forall number l ∧ prefix_ok (group 1 m) = true ∧ no_newline (group 3 m) = true.
Proof.
  intros H%find_full_cap. apply cap_seq_inv in H as (p & s2 & c1 & -> & Hp & H).
  apply cap_seq_inv in H as (w & rest & c2 & -> & Hw & Hr).
  apply cap_group_inv in Hw as (c3 & -> & Hw). pose proof (cap_no_groups tagNumbersRE _ _ _ eq_refl Hw) as ->.
  apply cap_group_inv in Hr as (c4 & -> & [Hr ->]%cap_class_star).
  apply cap_seq_inv in Hw as (x & t & c5 & -> & (Hx & Hne & ->)%cap_class_plus & (l & -> & Hl)%cap_dots).
  assert (group 1 c1 = p ∧ prefix_ok p = true) as [Hg Hok].
  { apply cap_alt_inv in Hp as [Hp|[-> ->]%cap_eps_inv]; [|done].
    apply cap_group_inv in Hp as (c6 & -> & Hp).
    apply cap_seq_inv in Hp as (d & q & c7 & -> & (d' & -> & Hd & ->)%cap_class_inv & [Hq ->]%cap_class_star).
    rewrite app_cons, app_nil_l. split; [done|]. cbn [prefix_ok]. by rewrite Hd. }
  exists x, l. cbn [group Nat.eqb]. rewrite Hg. done.
Qed.

Lemma suffix_ok_cases rest :
  negb (String.eqb rest "") && negb (has_prefix rest "-" && (1 <? slen rest)) = false ↔
  rest = "" ∨ has_prefix rest "-" = true ∧ 1 < slen rest.
Proof.
  rewrite andb_false_iff, !negb_false_iff, String.eqb_eq, andb_true_iff, Nat.ltb_lt. done.
Qed.

Lemma suffix_stops rest :
  rest = "" ∨ has_prefix rest "-" = true ∧ 1 < slen rest →
  stops is_digit rest ∧ stops (λ d, Ascii.eqb d "."%char) rest ∧ has_prefix rest "." = false.
Proof.
  intros [->|[Hp _]]; [done|]. destruct rest as [|d rest]; [done|]. cbn [has_prefix] in Hp.
  apply andb_prop in Hp as [->%Ascii.eqb_eq _]. done.
Qed.

Lemma classifyTag_sound tag v why :
  classifyTag tag = (TagPinned, v, why) → tag = TagVersion_String v ∧ tag_version_ok v ∧ why = ExcludeNone.
Proof.
  unfold classifyTag, unsupported. destruct (find_full numericTagRE tag) as [m|] eqn:Em.
  2: { by destruct (has_prefix tag "."). }
  destruct (numericTag_sound _ _ Em) as (x & l & Htag & Hg2 & Hx & Hl & Hp & Hn). cbv zeta.
  rewrite Hg2, split_dots by done. clear Hg2 Em.
  destruct (_ && has_prefix _ _); [done|]. destruct (length _ <=? 2); [done|].
  destruct (3 <? _); [done|]. destruct (negb (String.eqb _ _) && _) eqn:Es; [done|].
  apply suffix_ok_cases in Es.
  destruct (mapM canonicalNumber (x :: l)) as [nums|] eqn:Enum; [|done].
  destruct nums as [|major [|minor [|patch [|]]]]; try done. intros [= <- <-].
  apply mapM_Some in Enum. inversion Enum as [|? ? l1 ? Ha E1]; subst. clear Enum.
  inversion E1 as [|y ? l2 ? Hb E2]; subst. inversion E2 as [|z ? l3 ? Hc E3]; subst. inversion E3; subst.
  apply Forall_cons in Hl as [Hy [Hz _]%Forall_cons].
  apply canonicalNumber_iff in Ha as [Ha ->]; [|done]. apply canonicalNumber_iff in Hb as [Hb ->]; [|done].
  apply canonicalNumber_iff in Hc as [Hc ->]; [|done].
  split; [|split; [|done]].
  - unfold TagVersion_String. cbn [tv_Prefix tv_Major tv_Minor tv_Patch tv_Suffix dotted_tail foldr].
    by rewrite !app_assoc_s, app_nil_l.
  - by split_and!.
Qed.

Lemma classifyTag_complete v :
  tag_version_ok v → classifyTag (TagVersion_String v) = (TagPinned, v, ExcludeNone).
Proof.
  intros (Hp & Ha & Hb & Hc & Hs & Hn). destruct v as [p a b c rest]. cbn in *.
  destruct (suffix_stops rest Hs) as (Hd & Hdot & Hpre).
  assert (number (signed_itoa a) ∧ number (signed_itoa b) ∧ number (signed_itoa c)) as (Na & Nb & Nc).
  { unfold tag_number_ok in *. split_and!; apply number_itoa; lia. }
  assert (Forall number [signed_itoa b; signed_itoa c]) as Hl by (apply Forall_cons; split; [done|by apply Forall_singleton]).
  destruct (numericTag_groups p (signed_itoa a) _ rest Hp Na Hl Hd Hdot Hn) as (m & Hm & G1 & G2 & G3).
  assert (TagVersion_String (mk_tag_version p a b c rest) =
    p +:+ (signed_itoa a +:+ dotted_tail [signed_itoa b; signed_itoa c]) +:+ rest) as ->.
  { unfold TagVersion_String. cbn [tv_Prefix tv_Major tv_Minor tv_Patch tv_Suffix dotted_tail foldr].
    by rewrite !app_assoc_s, app_nil_l. }
  unfold classifyTag. rewrite Hm. cbv zeta. rewrite G1, G2, G3, split_dots by done.
  rewrite Hpre, andb_false_r, (proj2 (suffix_ok_cases rest)) by done. cbn [length Nat.leb Nat.ltb].
  assert (mapM canonicalNumber [signed_itoa a; signed_itoa b; signed_itoa c] = Some [a; b; c]) as ->; [|done].
  apply mapM_Some. unfold tag_number_ok in *. by repeat constructor; apply canonicalNumber_iff.
Qed.

(** Pinned tags read back. A tag parses as pinned with version [v] exactly
    when it is the text [v] is written as and [v]'s fields are what they can
    be: a prefix that starts with a letter, three numbers below a thousand
    million without leading zeros, and a suffix that is empty or starts with a
    dash. So nothing else is taken for a release, no tag has two readings, and
    a version the planner writes is read as the same version. *)
Theorem pinned_tags_roundtrip tag v :
  ParseTagVersion tag = (v, true) ↔ tag = TagVersion_String v ∧ tag_version_ok v.
Proof.
  unfold ParseTagVersion. split.
  - destruct (classifyTag tag) as [[kind v'] why] eqn:E. intros [= -> Hk%String.eqb_eq]. subst kind.
    by apply classifyTag_sound in E as (? & ? & _).
  - intros [-> Hv]. by rewrite classifyTag_complete.
Qed.

(** ** References to pinned tags *)

Section references.
Context `{GoUnicode}.

Lemma bare_digest_no_dot s : match_full bareDigestRE s = true → contains_byte "."%char s = false.
Proof.
  intros Hs. apply (bytes_contains (λ c, is_alnum c || Ascii.eqb c ":"%char)); [|done].
  eapply lang_bytes; [|exact Hs]. by vm_compute.
Qed.

Lemma version_has_dot v : contains_byte "."%char (TagVersion_String v) = true.
Proof.
  unfold TagVersion_String. rewrite contains_byte_app. apply orb_true_iff. right.
  rewrite contains_byte_app. apply orb_true_iff. by right.
Qed.

(** A reference to a release of a repository. *)
Definition pinned_reference (repo : string) (v : TagVersion) : Prop :=
  reference_ok repo (TagVersion_String v) "" = true ∧ tag_version_ok v ∧ IsPrerelease (TagVersion_String v) = false.

Lemma ParseImageRef_render ref repo v :
  ref = render_reference repo (TagVersion_String v) "" → pinned_reference repo v →
  ParseImageRef ref = mk_image_ref ref repo (TagVersion_String v) false "" TagPinned ExcludeNone v.
Proof.
  intros Hr (Hok & Hv & Hpre). unfold ParseImageRef.
  assert (TagVersion_String v ≠ "") as Hne.
  { intros E. pose proof (version_has_dot v) as Hd. by rewrite E in Hd. }
  assert (match_full bareDigestRE ref = false) as ->.
  { destruct (match_full bareDigestRE ref) eqn:Em; [|done]. apply bare_digest_no_dot in Em.
    rewrite Hr in Em. unfold render_reference in Em. rewrite (proj2 (String.eqb_neq _ "") Hne) in Em.
    rewrite !contains_byte_app, version_has_dot in Em. cbn [orb] in Em. by rewrite !orb_true_r in Em. }
  rewrite andb_false_r. unfold RepositoryOf, TagOf, DigestOf.
  assert (splitReference ref = Some (repo, TagVersion_String v, "")) as -> by (rewrite Hr; by apply splitReference_complete).
  rewrite (proj2 (String.eqb_neq _ "") Hne). cbn [String.eqb negb andb].
  change (String.eqb "" "") with true. cbn [negb andb]. rewrite Hpre, classifyTag_complete by done. done.
Qed.

(** A running image is treated as pinned to a release exactly when its
    reference is a well-formed repository with one tag and no digest, the tag
    is the text of a version, and it carries no prerelease marker; its
    classification then names that repository, that tag and that version.
    Every other reference is floating or excluded. *)
Theorem ParseImageRef_pinned ref :
  (ir_Kind (ParseImageRef ref) = TagPinned ↔
   ∃ repo v, ref = render_reference repo (TagVersion_String v) "" ∧ pinned_reference repo v) ∧
  (∀ repo v, ref = render_reference repo (TagVersion_String v) "" → pinned_reference repo v →
     ParseImageRef ref = mk_image_ref ref repo (TagVersion_String v) false "" TagPinned ExcludeNone v).
Proof.
  split; [split|].
  - unfold ParseImageRef. destruct (negb (contains_any ref "/@") && match_full bareDigestRE ref); [done|].
    unfold RepositoryOf, DigestOf, TagOf. destruct (splitReference ref) as [[[repo tag] digest]|] eqn:Es; [|done].
    apply splitReference_sound in Es as [Hok ->].
    destruct (String.eqb_spec digest "") as [->|]; [|by destruct (String.eqb tag "")].
    rewrite andb_false_r. cbn [negb].
    destruct (String.eqb_spec tag "") as [->|Htag]; cbn [negb andb].
    { destruct (IsPrerelease "latest"); [done|].
      assert (classifyTag "latest" = (TagFloating, zero_tag_version, ExcludeNone)) as -> by by vm_compute. done. }
    destruct (IsPrerelease tag) eqn:Epre; [done|].
    destruct (classifyTag tag) as [[kind v] why] eqn:Ec. cbn [ir_Kind]. intros ->.
    apply classifyTag_sound in Ec as (-> & Hv & ->). by exists repo, v.
  - intros (repo & v & Hr & Hp). by rewrite (ParseImageRef_render ref repo v Hr Hp).
  - intros repo v. apply ParseImageRef_render.
Qed.
End references.

Lemma pinned_tags_roundtrip_example :
  ParseTagVersion "v1.25.3-alpine" = (mk_tag_version "v" 1 25 3 "-alpine", true).
Proof. by vm_compute. Qed.

Lemma ParseImageRef_pinned_witness :
  pinned_reference "docker.io/library/nginx" (mk_tag_version "" 1 25 3 "") ∧
  ir_Kind (ParseImageRef "docker.io/library/nginx:1.25.3") = TagPinned.
Proof.
  assert (pinned_reference "docker.io/library/nginx" (mk_tag_version "" 1 25 3 "")) as H.
  { split; [by vm_compute|]. split; [|by vm_compute]. split_and!; try done. by left. }
  split; [exact H|].
  rewrite (proj2 (ParseImageRef_pinned "docker.io/library/nginx:1.25.3")
    "docker.io/library/nginx" (mk_tag_version "" 1 25 3 "") ltac:(by vm_compute) H). reflexivity.
Defined.
