(* ===== verification/TagSeries.v ===== *)
(** * TagSeries: reading the tags of one series from a registry

    internal/remediation/tag_series.go: for an image pinned to a release the
    planner needs the tags of the same series, and a repository may hold tens
    of thousands of others. The walk starts reading near the series, checks
    that nothing was lost by starting there, and stops behind it. What a
    registry answers is the interface [TagPager]; [answers] is what one that
    lists in ascending order promises, including the registry that drops the
    first tag after a position that is no tag. *)

From Stdlib Require Import ZArith Lia Bool Ascii String List Sorted.
From stdpp Require Import base gmap strings list.
From S2P Require Import Prelude GoStrings GoRegexp GoText Reference ImageTag.

Open Scope string_scope.
Open Scope Z_scope.
Open Scope nat_scope.
Open Scope list_scope.
Open Scope kl_scope.

(** ** The registry's answers (registry/tags.go) *)

Record TagsAfter := mk_tags_after { ta_Tags : list string; ta_More : bool; ta_Sent : bool }.

Record TagList := mk_tag_list { tl_Tags : list string; tl_Truncated : bool; tl_Pages : Z }.

(** [TagPager] and the whole-listing call of [Registry]: what a request
    returns may depend on the state of the other side. *)
Class TagPager (St Err : Type) :=
  ListTagsAfter : string → string → Z → St → (TagsAfter * option Err) * St.

Class Registry (St Err : Type) :=
  ListTagsUpTo : string → Z → St → (TagList * option Err) * St.

(** ** Positions *)

Definition seriesPageSize : Z := 1000.
Definition maxStartMinors : nat := 3.

Definition seriesBase (cur : TagVersion) : string :=
  tv_Prefix cur +:+ signed_itoa (tv_Major cur) +:+ "." +:+ signed_itoa (tv_Minor cur) +:+ ".".

Definition seriesKey (cur : TagVersion) : string := seriesBase cur +:+ tv_Suffix cur.

Definition inSeries (tag : string) (cur : TagVersion) : bool :=
  let '(v, ok) := ParseTagVersion tag in
  ok && String.eqb (tv_Prefix v) (tv_Prefix cur) && String.eqb (tv_Suffix v) (tv_Suffix cur) &&
  (tv_Major v =? tv_Major cur)%Z && (tv_Minor v =? tv_Minor cur)%Z.

(** Go's [string(b)] of a byte is the character of that number in UTF-8. *)
Definition byte_string (b : N) : string :=
  if (b <? 128)%N then String (ascii_of_N b) ""
  else String (ascii_of_N (N.lor 192 (N.shiftr b 6))) (String (ascii_of_N (N.lor 128 (N.land b 63))) "").

(** The last byte is taken down by one, modulo 256; the empty text, on which
    the code would panic, is never passed. *)
Fixpoint tagBefore (x : string) : string :=
  match x with
  | EmptyString => "~"
  | String c EmptyString => byte_string ((byte_n c + 255) mod 256) +:+ "~"
  | String c x => String c (tagBefore x)
  end.

(** The loop over earlier minor versions, of at most [maxStartMinors] steps. *)
Fixpoint start_minors (n : nat) (cur : TagVersion) (k : Z) : list string :=
  match n with
  | O => []
  | S n =>
      if (0 <=? k)%Z && (tv_Minor cur - Z.of_nat maxStartMinors <=? k)%Z
      then tagBefore (tv_Prefix cur +:+ signed_itoa (tv_Major cur) +:+ "." +:+ signed_itoa k +:+ ".")
           :: start_minors n cur (k - 1)
      else []
  end.

Definition seriesStarts (cur : TagVersion) : list string :=
  start_minors maxStartMinors cur (tv_Minor cur - 1) ++
  [tagBefore (tv_Prefix cur +:+ signed_itoa (tv_Major cur) +:+ "."); ""].

(** ** The walk *)

Record seriesWalk := mk_walk {
  sw_tags : list string; sw_complete : bool; sw_unreliable : bool; sw_requests : Z }.

#[export] Instance eta_seriesWalk : Eta seriesWalk := λ r,
  mk_walk (sw_tags r) (sw_complete r) (sw_unreliable r) (sw_requests r).

(** The check of a page's order: the page's last tag, [None] when a tag does
    not sort after the one before it. *)
Fixpoint page_order (prev : string) (tags : list string) : option string :=
  match tags with
  | [] => Some prev
  | tag :: rest => if negb (str_lt prev tag) then None else page_order tag rest
  end.

(** The pass that collects the series' tags; the flag reports a tag behind
    the series. *)
Fixpoint scan_page (cur : TagVersion) (tags acc : list string) : list string * bool :=
  match tags with
  | [] => (acc, false)
  | tag :: rest =>
      if has_prefix tag (seriesBase cur)
      then scan_page cur rest (if inSeries tag cur then acc ++ [tag] else acc)
      else if str_lt (seriesBase cur) tag then (acc, true)
      else scan_page cur rest acc
  end.

(** A page that does not show that the start was safe. *)
Definition unsafe_start (cur : TagVersion) (start : string) (page : TagsAfter) : bool :=
  negb (String.eqb start "") &&
  match ta_Tags page with [] => true | t :: _ => negb (str_lt t (seriesBase cur)) end.

(** What a page that is read adds to the walk, and where to go on from;
    [None] when it ends the walk. *)
Definition read_page (cur : TagVersion) (last : string) (page : TagsAfter) (w : seriesWalk)
    : seriesWalk * option string :=
  match ta_Tags page with
  | [] => (if ta_More page then w <| sw_unreliable := true |> else w <| sw_complete := true |>, None)
  | _ :: _ =>
      match page_order last (ta_Tags page) with
      | None => (w <| sw_unreliable := true |>, None)
      | Some prev =>
          let '(tags, ended) := scan_page cur (ta_Tags page) (sw_tags w) in
          let w := w <| sw_tags := tags |> in
          if ended || negb (ta_More page) then (w <| sw_complete := true |>, None) else (w, Some prev)
      end
  end.

Section walk.
Context {St Err : Type} {pager : TagPager St Err}.
Context (repo : string) (cur : TagVersion).

(** One turn of the loop for each unit of [fuel]; [None] when it ran out. *)
Fixpoint walk_loop (fuel : nat) (start : string) (maxRequests : Z) (w : seriesWalk) (last : string)
    (first : bool) (s : St) : option ((bool * option Err * seriesWalk) * St) :=
  match fuel with
  | O => None
  | S fuel =>
      if (maxRequests <=? sw_requests w)%Z then Some ((true, None, w), s)
      else
        let '((page, err), s) := ListTagsAfter repo last seriesPageSize s in
        let w := if ta_Sent page then w <| sw_requests := (sw_requests w + 1)%Z |> else w in
        match err with
        | Some e => Some ((true, Some e, w), s)
        | None =>
            if first && unsafe_start cur start page then Some ((false, None, w), s)
            else
              match read_page cur last page w with
              | (w, None) => Some ((true, None, w), s)
              | (w, Some prev) => walk_loop fuel start maxRequests w prev false s
              end
        end
  end.

Definition walkFrom (start : string) (maxRequests : Z) (w : seriesWalk) (s : St)
    : option ((bool * option Err * seriesWalk) * St) :=
  let w := mk_walk [] false false (sw_requests w) in
  walk_loop (S (Z.to_nat (maxRequests - sw_requests w))) start maxRequests w start true s.

Fixpoint walk_starts (starts : list string) (maxRequests : Z) (w : seriesWalk) (s : St)
    : option ((seriesWalk * option Err) * St) :=
  match starts with
  | [] => Some ((w, None), s)
  | start :: starts =>
      '((done, err, w), s) ← walkFrom start maxRequests w s;
      if (match err with Some _ => true | None => false end) || done then Some ((w, err), s)
      else walk_starts starts maxRequests w s
  end.

Definition walkSeries (maxRequests : Z) (s : St) : option ((seriesWalk * option Err) * St) :=
  walk_starts (seriesStarts cur) maxRequests (mk_walk [] false false 0) s.

End walk.

(** The type assertion on the registry is the argument [pager]. *)
Definition listPinnedSeries {St Err : Type} `{Registry St Err} (pager : option (TagPager St Err))
    (repo : string) (cur : TagVersion) (allowance : Z) (s : St)
    : option ((TagList * bool * option Err) * St) :=
  match pager with
  | None => let '((list, err), s) := ListTagsUpTo repo allowance s in Some ((list, true, err), s)
  | Some pager =>
      '((w, err), s) ← walkSeries (pager := pager) repo cur allowance s;
      match err with
      | Some e => Some ((mk_tag_list [] false (sw_requests w), false, Some e), s)
      | None =>
          if sw_unreliable w then
            let rest := (allowance - sw_requests w)%Z in
            if (rest <=? 0)%Z then Some ((mk_tag_list [] true (sw_requests w), false, None), s)
            else
              let '((l, err), s) := ListTagsUpTo repo rest s in
              Some ((mk_tag_list (tl_Tags l) (tl_Truncated l) (tl_Pages l + sw_requests w)%Z, true, err), s)
          else Some ((mk_tag_list (sw_tags w) (negb (sw_complete w)) (sw_requests w), false, None), s)
      end
  end.

Example seriesStarts_example :
  seriesStarts (mk_tag_version "" 8 19 16 "") = ["8.18-~"; "8.17-~"; "8.16-~"; "8-~"; ""].
Proof. by vm_compute. Qed.

(** ** Tags in order *)

Lemma filter_all (p : string → bool) l :
  Forall (λ t, p t = true) l → filter (λ t, p t = true) l = l.
Proof. induction 1; [done|]. rewrite filter_cons_True by done. by f_equal. Qed.

Lemma filter_none (p : string → bool) l :
  Forall (λ t, p t = false) l → filter (λ t, p t = true) l = [].
Proof. induction 1 as [|t l Ht]; [done|]. by rewrite filter_cons_False by (by rewrite Ht). Qed.

Lemma prefix_not_below t b : has_prefix t b = true → str_lt t b = false.
Proof.
  unfold str_lt, less_of, str_cmp. revert t. induction b as [|c b IH]; intros [|d t] Hp; cbn in *; try done.
  apply andb_prop in Hp as [->%Ascii.eqb_eq Hp]. rewrite (cmp_refl Ascii.compare). by apply IH.
Qed.

Lemma above_prefix t u b :
  str_lt b t = true → str_lt t u = true → has_prefix u b = true → has_prefix t b = true.
Proof.
  unfold str_lt, less_of, str_cmp. revert t u. induction b as [|c b IH]; intros [|d t] [|e u]; cbn; try done.
  intros H1 H2 [->%Ascii.eqb_eq Hp]%andb_prop.
  destruct (Ascii.compare c d) eqn:E1; [| |done].
  - apply (Ascii.compare_eq_iff c d) in E1 as ->. rewrite Ascii.eqb_refl. rewrite (cmp_refl Ascii.compare) in H2.
    by apply (IH t u).
  - by rewrite (proj2 (cmp_gt_lt Ascii.compare d c) E1) in H2.
Qed.

Lemma str_lt_trans a b c : str_lt a b = true → str_lt b c = true → str_lt a c = true.
Proof.
  unfold str_lt, less_of. destruct (str_cmp a b) eqn:E1; try done. destruct (str_cmp b c) eqn:E2; try done.
  by rewrite (cmp_lt_trans str_cmp _ _ _ E1 E2).
Qed.

Lemma str_lt_asym a b : str_lt a b = true → str_lt b a = false.
Proof.
  intros H. destruct (str_lt b a) eqn:E; [|done]. pose proof (str_lt_trans _ _ _ H E) as Hc.
  by rewrite str_lt_irrefl in Hc.
Qed.

(** A tag listing in ascending order. *)
Definition ascending (l : list string) : Prop := StronglySorted (λ x y, str_lt x y = true) l.

Lemma ascending_app l k :
  ascending (l ++ k) ↔ ascending l ∧ ascending k ∧ ∀ x y, x ∈ l → y ∈ k → str_lt x y = true.
Proof.
  unfold ascending. induction l as [|a l IH]; cbn [app].
  - split; [|tauto]. intros H. split_and!; [constructor|done|]. intros x y Hx. by apply elem_of_nil in Hx.
  - split.
    + intros [Hs Hf]%StronglySorted_inv. apply IH in Hs as (Hl & Hk & Hlk). apply Forall_app in Hf as [Hfl Hfk].
      rewrite Forall_forall in Hfk. split_and!; [by constructor|done|].
      intros x y [->|Hx]%elem_of_cons Hy; [by apply Hfk|by apply Hlk].
    + intros ([Hs Hf]%StronglySorted_inv & Hk & Hlk). constructor.
      * apply IH. split_and!; [done..|]. intros x y Hx. apply Hlk. by apply elem_of_cons; right.
      * apply Forall_app. split; [done|]. apply Forall_forall. intros y Hy. apply Hlk; [by apply elem_of_cons; left|done].
Qed.

Lemma page_order_last prev tags :
  ascending (prev :: tags) → page_order prev tags = Some (List.last tags prev).
Proof.
  unfold ascending. revert prev. induction tags as [|t tags IH]; intros prev [Hs Hf]%StronglySorted_inv; [done|].
  apply Forall_cons in Hf as [Ht _]. cbn [page_order]. rewrite Ht. cbn [negb]. rewrite IH by done.
  destruct tags as [|t' tags]; [done|]. f_equal. cbn. clear. revert t'. induction tags as [|x tags IH]; intros; [done|]. apply IH.
Qed.

Lemma page_order_sound prev tags p : page_order prev tags = Some p → p = List.last tags prev.
Proof.
  revert prev. induction tags as [|t tags IH]; intros prev; [by intros [= ->]|]. cbn [page_order].
  destruct (negb _); [done|]. intros ->%IH.
  destruct tags as [|t' tags]; [done|]. cbn. clear. revert t'. induction tags as [|x tags IH]; intros; [done|]. apply IH.
Qed.

(** ** Tags of the series *)

Section series.
Context (cur : TagVersion).

Lemma inSeries_prefix t : inSeries t cur = true → has_prefix t (seriesBase cur) = true.
Proof.
  unfold inSeries, ParseTagVersion. destruct (classifyTag t) as [[kind v] why] eqn:E.
  destruct (String.eqb_spec kind TagPinned) as [->|]; [|done]. cbn [andb].
  rewrite !andb_true_iff, !String.eqb_eq, !Z.eqb_eq. intros [[[Hp _] Ha] Hb].
  apply classifyTag_sound in E as (-> & _). unfold TagVersion_String, seriesBase. rewrite Hp, Ha, Hb.
  replace (tv_Prefix cur +:+ signed_itoa (tv_Major cur) +:+ "." +:+ signed_itoa (tv_Minor cur) +:+ "." +:+
    signed_itoa (tv_Patch v) +:+ tv_Suffix v) with (seriesBase cur +:+ (signed_itoa (tv_Patch v) +:+ tv_Suffix v))
    by (unfold seriesBase; by rewrite !app_assoc_s).
  apply has_prefix_app.
Qed.

(** The tags of the series in a listing. *)
Definition series_of (l : list string) : list string := filter (λ t, inSeries t cur = true) l.

Lemma series_none l : Forall (λ t, has_prefix t (seriesBase cur) = false) l → series_of l = [].
Proof.
  intros H. unfold series_of. apply filter_none. eapply Forall_impl; [exact H|]. intros t Ht. cbn beta in Ht.
  destruct (inSeries t cur) eqn:E; [|done]. apply inSeries_prefix in E. by rewrite E in Ht.
Qed.

Lemma series_below l : Forall (λ t, str_lt t (seriesBase cur) = true) l → series_of l = [].
Proof.
  intros H. apply series_none. eapply Forall_impl; [exact H|]. intros t Ht. cbn beta in Ht.
  destruct (has_prefix t (seriesBase cur)) eqn:E; [|done]. apply prefix_not_below in E. by rewrite E in Ht.
Qed.

(** Behind a tag that sorts after the series there is none of it. *)
Lemma series_behind t l :
  str_lt (seriesBase cur) t = true → has_prefix t (seriesBase cur) = false →
  ascending (t :: l) → series_of (t :: l) = [].
Proof.
  intros Hb Hp [_ Hf]%StronglySorted_inv. apply series_none, Forall_cons. split; [done|].
  eapply Forall_impl; [exact Hf|]. intros u Hu. cbn beta in Hu.
  destruct (has_prefix u (seriesBase cur)) eqn:E; [|done]. by rewrite (above_prefix t u _ Hb Hu E) in Hp.
Qed.

Lemma series_app l k : series_of (l ++ k) = series_of l ++ series_of k.
Proof. apply filter_app. Qed.

(** One pass over a page. *)
Lemma scan_page_spec tags acc :
  match scan_page cur tags acc with
  | (out, false) => out = acc ++ series_of tags
  | (out, true) => ∃ pre t post, tags = pre ++ t :: post ∧ out = acc ++ series_of pre ∧
      str_lt (seriesBase cur) t = true ∧ has_prefix t (seriesBase cur) = false
  end.
Proof.
  revert acc. induction tags as [|t tags IH]; intros acc; cbn [scan_page]; [by rewrite List.app_nil_r|].
  assert (∀ acc', acc' = acc ++ series_of [t] →
    match scan_page cur tags acc' with
    | (out, false) => out = acc ++ series_of (t :: tags)
    | (out, true) => ∃ pre t0 post, t :: tags = pre ++ t0 :: post ∧ out = acc ++ series_of pre ∧
        str_lt (seriesBase cur) t0 = true ∧ has_prefix t0 (seriesBase cur) = false
    end) as Hstep.
  { intros acc' ->. specialize (IH (acc ++ series_of [t])).
    destruct (scan_page cur tags (acc ++ series_of [t])) as [out [|]].
    - destruct IH as (pre & t0 & post & -> & -> & H1 & H2). exists (t :: pre), t0, post.
      split_and!; [done| |done..]. by rewrite <- (List.app_assoc acc), <- series_app.
    - rewrite IH. by rewrite <- (List.app_assoc acc), <- series_app. }
  destruct (has_prefix t (seriesBase cur)) eqn:Ep.
  - apply Hstep. unfold series_of. destruct (inSeries t cur) eqn:Ei.
    + by rewrite filter_cons_True.
    + rewrite filter_cons_False by (by rewrite Ei). by rewrite List.app_nil_r.
  - destruct (str_lt (seriesBase cur) t) eqn:Eb.
    + exists [], t, tags. by rewrite List.app_nil_r.
    + apply Hstep. rewrite series_none by (by apply Forall_singleton). by rewrite List.app_nil_r.
Qed.
End series.

(** ** A registry that lists in ascending order *)

Definition beyond (tags : list string) (last : string) : list string := filter (λ t, str_lt last t = true) tags.

(** A page of the tags after [last]: it starts with the first of them, or with
    the second when [last] is a position at which there is no tag; a page that
    does not say that more follow is the end; so is an empty page. *)
Record answers (tags : list string) (last : string) (page : TagsAfter) : Prop := {
  an_sent : ta_Sent page = true;
  an_rest : ∃ rem,
    (ta_Tags page ++ rem = beyond tags last ∨
     last ≠ "" ∧ last ∉ tags ∧ ta_Tags page ++ rem = tail (beyond tags last)) ∧
    (ta_More page = false ∨ ta_Tags page = [] → rem = [] ∧ ta_More page = false);
}.

Lemma beyond_split tags last :
  ascending tags → ∃ before, tags = before ++ beyond tags last ∧ Forall (λ t, str_lt last t = false) before.
Proof.
  unfold beyond. induction tags as [|t tags IH]; intros Hs; [by exists []|].
  destruct (str_lt last t) eqn:E.
  - exists []. split; [|done]. rewrite filter_cons_True by done. cbn. f_equal. symmetry. apply filter_all.
    apply StronglySorted_inv in Hs as [_ Hf]. eapply Forall_impl; [exact Hf|]. intros u Hu.
    by eapply str_lt_trans.
  - apply StronglySorted_inv in Hs as [Hs _]. destruct (IH Hs) as (before & Ht & Hb).
    exists (t :: before). rewrite filter_cons_False by (by rewrite E). cbn. split; [by f_equal|by constructor].
Qed.

Lemma beyond_after before last after :
  ascending (before ++ last :: after) → beyond (before ++ last :: after) last = after.
Proof.
  intros (_ & [_ Hf]%StronglySorted_inv & Hb)%ascending_app. unfold beyond.
  rewrite filter_app, filter_cons_False by (by rewrite str_lt_irrefl).
  rewrite (filter_all _ after) by done. rewrite filter_none; [done|].
  apply Forall_forall. intros x Hx. apply str_lt_asym, Hb; [done|]. by apply elem_of_cons; left.
Qed.

(** ** One page *)

Section reading.
Context (cur : TagVersion) (tags : list string) (Hasc : ascending tags).

(** Where the walk stands: at its start, or behind the tag [last], with the
    series' tags up to there. *)
Definition reading (start : string) (w : seriesWalk) (last : string) (first : bool) : Prop :=
  sw_complete w = false ∧ sw_unreliable w = false ∧
  if first then sw_tags w = [] ∧ last = start
  else ∃ before after, tags = before ++ last :: after ∧ sw_tags w = series_of cur (before ++ [last]).

Lemma base_not_empty : has_prefix "" (seriesBase cur) = false.
Proof.
  destruct (seriesBase cur) as [|c b] eqn:E; [|done]. exfalso. revert E. unfold seriesBase.
  destruct (tv_Prefix cur); [|done]. by destruct (signed_itoa (tv_Major cur)).
Qed.

Lemma below_page before t rest :
  ascending (before ++ t :: rest) → str_lt t (seriesBase cur) = true → series_of cur before = [].
Proof.
  intros (_ & _ & Hb)%ascending_app Ht. apply series_below, Forall_forall. intros x Hx.
  eapply str_lt_trans; [|exact Ht]. apply Hb; [done|]. by apply elem_of_cons; left.
Qed.

(** The page continues the listing at the place up to which the walk knows
    the series' tags: nothing of the series was lost. *)
Lemma page_position start w last first page :
  reading start w last first → answers tags last page → first && unsafe_start cur start page = false →
  ∃ before rem,
    tags = before ++ ta_Tags page ++ rem ∧ sw_tags w = series_of cur before ∧
    ascending (last :: ta_Tags page) ∧ length (ta_Tags page ++ rem) ≤ length (beyond tags last) ∧
    (ta_More page = false ∨ ta_Tags page = [] → rem = [] ∧ ta_More page = false).
Proof.
  intros (_ & _ & Hr) [_ (rem & Hrest & Hend)] Hsafe.
  destruct (beyond_split tags last Hasc) as (before & Et & Hb).
  assert (∃ skipped, beyond tags last = skipped ++ ta_Tags page ++ rem ∧
    (skipped = [] ∨ last ≠ "" ∧ last ∉ tags)) as (skipped & Es & Hskip).
  { destruct Hrest as [<-|(Hne & Hni & Hrest)]; [exists []; by split; [|left]|].
    destruct (beyond tags last) as [|d l]; [|exists [d]; cbn in *; by split; [rewrite Hrest|right]].
    cbn in Hrest. exists []. by split; [|left]. }
  assert (Forall (λ t, str_lt last t = true) (ta_Tags page)) as Habove.
  { apply Forall_forall. intros t Ht. assert (t ∈ beyond tags last) as H.
    { rewrite Es. by apply elem_of_app; right; apply elem_of_app; left. }
    by apply list_elem_of_filter in H as [? _]. }
  rewrite Es in Et. rewrite Es, (length_app skipped).
  assert (ascending (last :: ta_Tags page)) as Hpage.
  { constructor; [|done]. pose proof Hasc as Ha. rewrite Et in Ha.
    apply ascending_app in Ha as (_ & Ha & _). apply ascending_app in Ha as (_ & Ha & _).
    by apply ascending_app in Ha as (Ha & _). }
  enough (series_of cur (before ++ skipped) = sw_tags w) as Hs.
  { exists (before ++ skipped), rem. split_and!; [by rewrite <- List.app_assoc|done|done|lia|done]. }
  destruct first.
  - destruct Hr as [-> ->]. cbn [andb] in Hsafe. unfold unsafe_start in Hsafe.
    destruct (String.eqb_spec start "") as [->|Hne]; cbn [negb andb] in Hsafe.
    + destruct Hskip as [->|[? _]]; [|done]. rewrite List.app_nil_r. apply series_none.
      eapply Forall_impl; [exact Hb|]. intros [|c t] Ht; [apply base_not_empty|done].
    + destruct (ta_Tags page) as [|t ts]; [done|]. apply negb_false_iff in Hsafe.
      apply (below_page _ t (ts ++ rem)); [|done]. rewrite <- List.app_assoc. cbn [app] in Et. by rewrite <- Et.
  - destruct Hr as (before' & after & Et' & ->).
    assert (last ∈ tags) as Hin by (rewrite Et'; apply elem_of_app; right; by apply elem_of_cons; left).
    destruct Hskip as [->|[_ ?]]; [|done]. rewrite List.app_nil_r. f_equal.
    pose proof Hasc as Ha. rewrite Et' in Ha. apply beyond_after in Ha. rewrite <- Et', Es in Ha. cbn [app] in Ha.
    rewrite Ha in Et. rewrite Et' in Et.
    change (last :: after) with ([last] ++ after) in Et. rewrite (List.app_assoc before') in Et.
    by apply app_inv_tail in Et.
Qed.

Lemma read_page_spec start w last first page w' next :
  reading start w last first → answers tags last page → first && unsafe_start cur start page = false →
  read_page cur last page w = (w', next) →
  sw_unreliable w' = false ∧ sw_requests w' = sw_requests w ∧
  match next with
  | None => sw_complete w' = true ∧ sw_tags w' = series_of cur tags
  | Some prev => reading start w' prev false ∧ length (beyond tags prev) < length (beyond tags last)
  end.
Proof.
  intros Hr Ha Hsafe. pose proof (page_position _ _ _ _ _ Hr Ha Hsafe) as (before & rem & Et & Hw & Hp & Hlen & Hend).
  destruct Hr as (Hc & Hu & _). unfold read_page.
  destruct (ta_Tags page) as [|t ts] eqn:Ep.
  { destruct Hend as [-> ->]; [by right|]. intros [= <- <-]. cbn. split_and!; try done. rewrite Hw, Et. by rewrite List.app_nil_r. }
  rewrite page_order_last by done. rewrite <- Ep in *. pose proof (scan_page_spec cur (ta_Tags page) (sw_tags w)) as Hscan.
  destruct (scan_page cur (ta_Tags page) (sw_tags w)) as [out [|]].
  - destruct Hscan as (pre & x & post & Epage & -> & Hb & Hx). intros [= <- <-]. cbn. split_and!; try done.
    pose proof Hasc as Ht. rewrite Et, Epage in Ht. apply ascending_app in Ht as (_ & Ht & _).
    rewrite <- List.app_assoc in Ht. apply ascending_app in Ht as (_ & Ht & _). cbn [app] in Ht.
    assert (tags = before ++ pre ++ x :: post ++ rem) as -> by (rewrite Et, Epage; by rewrite <- List.app_assoc).
    by rewrite Hw, !series_app, (series_behind cur x _ Hb Hx Ht), List.app_nil_r.
  - destruct (ta_More page) eqn:Em; cbn [orb negb]; intros [= <- <-]; (split; [done|]; split; [done|]).
    + set (z := List.last (ta_Tags page) last).
      assert (∃ pre, ta_Tags page = pre ++ [z]) as (pre & Epre).
      { exists (removelast (ta_Tags page)). unfold z. rewrite Ep. by apply app_removelast_last. }
      clearbody z. clear Ep. rewrite Epre in *. rewrite <- (List.app_assoc pre) in Et. cbn [app] in Et.
      rewrite (List.app_assoc before) in Et. split.
      * split; [done|]. split; [done|]. exists (before ++ pre), rem. split; [done|].
        by rewrite Hscan, Hw, <- series_app, List.app_assoc.
      * assert (beyond tags z = rem) as ->; [|rewrite !length_app in Hlen; cbn in Hlen; lia].
        pose proof Hasc as Ht. rewrite Et in Ht |- *. by apply beyond_after.
    + split; [done|]. destruct Hend as [-> _]; [by left|]. cbn. rewrite Hscan, Hw, <- series_app, Et. by rewrite List.app_nil_r.
Qed.

(** What an outcome says of the series. *)
Definition walk_ok (w : seriesWalk) : Prop :=
  sw_unreliable w = false ∧ (sw_complete w = true → sw_tags w = series_of cur tags) ∧
  ∃ rest, series_of cur tags = sw_tags w ++ rest.

Lemma reading_ok start w last first : reading start w last first → walk_ok w.
Proof.
  intros (Hc & Hu & Hr). split; [done|]. split; [by rewrite Hc|]. destruct first.
  - destruct Hr as [-> _]. by exists (series_of cur tags).
  - destruct Hr as (before & after & Et & ->). exists (series_of cur after). rewrite <- series_app, Et.
    by rewrite <- List.app_assoc.
Qed.

Lemma reading_requests start w last first z :
  reading start w last first → reading start (w <| sw_requests := z |>) last first.
Proof. done. Qed.

End reading.

(** ** The walk *)

Section walks.
Context {St Err : Type} {pager : TagPager St Err}.
Context (repo : string) (cur : TagVersion) (tags : list string).

(** A successful answer says that its request went out. *)
Definition counts_requests : Prop :=
  ∀ last s page s', ListTagsAfter repo last seriesPageSize s = ((page, None), s') → ta_Sent page = true.

(** The registry lists [tags] in ascending order. *)
Definition lists_in_order : Prop :=
  ascending tags ∧
  ∀ last s page s', ListTagsAfter repo last seriesPageSize s = ((page, None), s') → answers tags last page.

Definition never_fails : Prop := ∀ last s, ∃ page s', ListTagsAfter repo last seriesPageSize s = ((page, None), s').

Lemma ordered_counts : lists_in_order → counts_requests.
Proof. intros [_ H] last s page s' E. by apply an_sent with tags last, (H _ _ _ _ E). Qed.

Lemma read_page_requests last page w w' next : read_page cur last page w = (w', next) → sw_requests w' = sw_requests w.
Proof.
  unfold read_page. destruct (ta_Tags page) eqn:E; [by destruct (ta_More page); intros [= <- _]|]. rewrite <- E.
  destruct (page_order _ _); [|by intros [= <- _]]. destruct (scan_page _ _ _) as [out ended].
  by destruct (ended || _); intros [= <- _].
Qed.

Lemma walk_loop_total start maxRequests fuel w last first s :
  counts_requests → Z.to_nat (maxRequests - sw_requests w) < fuel →
  ∃ done err w' s', walk_loop repo cur fuel start maxRequests w last first s = Some ((done, err, w'), s') ∧
    (sw_requests w ≤ sw_requests w' ≤ Z.max maxRequests (sw_requests w))%Z.
Proof.
  intros Hcount. revert w last first s. induction fuel as [|fuel IH]; intros w last first s Hfuel; [lia|].
  cbn [walk_loop]. destruct (Z.leb_spec maxRequests (sw_requests w)); [repeat eexists; lia|].
  destruct (ListTagsAfter repo last seriesPageSize s) as [[page err] s1] eqn:E.
  set (w1 := if ta_Sent page then _ else w). assert (sw_requests w ≤ sw_requests w1 ≤ sw_requests w + 1)%Z as Hw1.
  { unfold w1. destruct (ta_Sent page); cbn; lia. }
  destruct err as [e|]; [repeat eexists; lia|].
  assert (sw_requests w1 = sw_requests w + 1)%Z as Hreq by (unfold w1; by rewrite (Hcount _ _ _ _ E)).
  clearbody w1. destruct (first && _); [repeat eexists; lia|].
  destruct (read_page cur last page w1) as [w2 next] eqn:Er. apply read_page_requests in Er.
  destruct next as [prev|]; [|repeat eexists; lia].
  destruct (IH w2 prev false s1) as (fin & err & w' & s' & -> & Hb); [lia|]. repeat eexists; lia.
Qed.

Lemma walk_loop_ok start maxRequests fuel w last first s done err w' s' :
  lists_in_order → reading cur tags start w last first →
  walk_loop repo cur fuel start maxRequests w last first s = Some ((done, err, w'), s') → walk_ok cur tags w'.
Proof.
  intros [Hasc Hans]. revert w last first s. induction fuel as [|fuel IH]; intros w last first s Hr; [by intros|].
  cbn [walk_loop]. pose proof (reading_ok _ _ _ _ _ _ Hr) as Hok.
  destruct (maxRequests <=? sw_requests w)%Z; [by intros [= <- <- <- <-]|].
  destruct (ListTagsAfter repo last seriesPageSize s) as [[page e] s1] eqn:E.
  set (w1 := if ta_Sent page then _ else w).
  assert (reading cur tags start w1 last first) as Hr1 by (unfold w1; by destruct (ta_Sent page)).
  pose proof (reading_ok _ _ _ _ _ _ Hr1) as Hok1. clearbody w1.
  destruct e as [e|]; [by intros [= <- <- <- <-]|].
  destruct (first && _) eqn:Es; [by intros [= <- <- <- <-]|].
  destruct (read_page cur last page w1) as [w2 next] eqn:Er.
  pose proof (read_page_spec cur tags Hasc _ _ _ _ _ _ _ Hr1 (Hans _ _ _ _ E) Es Er) as (Hu & _ & Hnext).
  destruct next as [prev|]; [by apply IH, Hnext|]. intros [= <- <- <- <-].
  destruct Hnext as [Hc Ht]. split; [done|]. split; [done|]. exists []. by rewrite Ht, List.app_nil_r.
Qed.

Lemma walk_loop_done start maxRequests fuel w last first s done err w' s' :
  lists_in_order → never_fails → reading cur tags start w last first →
  (sw_requests w + Z.of_nat (length (beyond tags last)) + 1 ≤ maxRequests)%Z →
  walk_loop repo cur fuel start maxRequests w last first s = Some ((done, err, w'), s') →
  err = None ∧ (done = true ∧ sw_complete w' = true ∨
    done = false ∧ first = true ∧ start ≠ "" ∧ sw_requests w' = (sw_requests w + 1)%Z).
Proof.
  intros [Hasc Hans] Hnf. revert w last first s. induction fuel as [|fuel IH]; intros w last first s Hr Hmax; [by intros|].
  cbn [walk_loop]. destruct (Z.leb_spec maxRequests (sw_requests w)); [lia|].
  destruct (Hnf last s) as (page & s1 & E). rewrite E.
  rewrite (an_sent _ _ _ (Hans _ _ _ _ E)). set (w1 := w <| sw_requests := _ |>).
  pose proof (reading_requests _ _ _ _ _ _ (sw_requests w + 1) Hr : reading cur tags start w1 last first) as Hr1.
  destruct (first && unsafe_start cur start page) eqn:Es.
  { intros [= <- <- <- <-]. split; [done|]. right. apply andb_prop in Es as [-> Es]. split_and!; [done|done| |done].
     unfold unsafe_start in Es. apply andb_prop in Es as [Es _].
    by apply negb_true_iff, String.eqb_neq in Es. }
  destruct (read_page cur last page w1) as [w2 next] eqn:Er.
  pose proof (read_page_spec cur tags Hasc _ _ _ _ _ _ _ Hr1 (Hans _ _ _ _ E) Es Er) as (_ & Hreq & Hnext).
  cbn in Hreq. destruct next as [prev|].
  2: { intros [= <- <- <- <-]. split; [done|]. left. by destruct Hnext. }
  destruct Hnext as [Hr2 Hlt]. intros Hl. apply IH in Hl as [-> Hcases]; [|done|lia]. split; [done|].
  destruct Hcases as [?|(_ & ? & _)]; [by left|done].
Qed.

(** ** All starts *)

Lemma walkFrom_total start maxRequests w s :
  counts_requests →
  ∃ done err w' s', walkFrom repo cur start maxRequests w s = Some ((done, err, w'), s') ∧
    (sw_requests w ≤ sw_requests w' ≤ Z.max maxRequests (sw_requests w))%Z.
Proof. intros Hc. apply (walk_loop_total start maxRequests _ (mk_walk [] false false (sw_requests w))); [done|]. cbn. lia. Qed.

Lemma fresh_reading start z : reading cur tags start (mk_walk [] false false z) start true.
Proof. by split_and!. Qed.

Lemma walk_starts_total starts maxRequests w s :
  counts_requests →
  ∃ w' err s', walk_starts repo cur starts maxRequests w s = Some ((w', err), s') ∧
    (sw_requests w ≤ sw_requests w' ≤ Z.max maxRequests (sw_requests w))%Z.
Proof.
  intros Hc. revert w s. induction starts as [|start starts IH]; intros w s; cbn [walk_starts]; [repeat eexists; lia|].
  destruct (walkFrom_total start maxRequests w s Hc) as (fin & err & w1 & s1 & -> & Hb). cbn [mbind option_bind].
  destruct (_ || fin); [repeat eexists; lia|].
  destruct (IH w1 s1) as (w2 & err2 & s2 & -> & Hb2). repeat eexists; lia.
Qed.

Lemma walk_starts_ok starts maxRequests w s w' err s' :
  lists_in_order → walk_ok cur tags w →
  walk_starts repo cur starts maxRequests w s = Some ((w', err), s') → walk_ok cur tags w'.
Proof.
  intros Ho. revert w s. induction starts as [|start starts IH]; intros w s Hw; cbn [walk_starts]; [by intros [= <- <- <-]|].
  destruct (walkFrom repo cur start maxRequests w s) as [[[[fin e] w1] s1]|] eqn:E; [|done]. cbn [mbind option_bind].
  apply walk_loop_ok in E; [|done|apply fresh_reading]. destruct (_ || fin); [by intros [= <- <- <-]|]. by apply IH.
Qed.

Lemma walk_starts_done starts maxRequests w s :
  lists_in_order → never_fails →
  (sw_requests w + Z.of_nat (length starts) + Z.of_nat (length tags) + 1 ≤ maxRequests)%Z →
  ∃ w' s', walk_starts repo cur (starts ++ [""]) maxRequests w s = Some ((w', None), s') ∧ sw_complete w' = true.
Proof.
  intros Ho Hnf. pose proof (ordered_counts Ho) as Hc. revert w s.
  induction starts as [|start starts IH]; intros w s Hmax; cbn [walk_starts app length] in *;
    match goal with |- context [walkFrom _ _ ?st _ _ _] =>
      destruct (walkFrom_total st maxRequests w s Hc) as (fin & err & w1 & s1 & E & _);
      pose proof (length_filter (λ t, str_lt st t = true) tags) as Hlen end; rewrite E; cbn [mbind option_bind];
    apply walk_loop_done in E as [-> [[-> Hw]|(-> & _ & Hne & Hreq)]]; try apply fresh_reading; try done;
    try (unfold beyond; cbn [sw_requests]; lia); cbn [orb].
  - by eexists _, _.
  - by eexists _, _.
  - apply IH. cbn in Hreq. lia.
Qed.
End walks.

Lemma length_start_minors n cur k : length (start_minors n cur k) ≤ n.
Proof. revert k. induction n as [|n IH]; intros k; [done|]. cbn [start_minors]. destruct (_ && _); cbn [length]; [pose proof (IH (k - 1)%Z); apply le_n_S; assumption|apply Nat.le_0_l]. Qed.

Lemma seriesStarts_split cur : ∃ starts, seriesStarts cur = starts ++ [""] ∧ length starts ≤ 4.
Proof.
  eexists (_ ++ [_]). split; [unfold seriesStarts; by rewrite <- List.app_assoc|].
  rewrite length_app. pose proof (length_start_minors maxStartMinors cur (tv_Minor cur - 1)). cbn [length] in *. unfold maxStartMinors in *. lia.
Qed.

Lemma walkSeries_spec {St Err} {pager : TagPager St Err} repo cur tags maxRequests s :
  lists_in_order repo tags →
  ∃ w err s', walkSeries repo cur maxRequests s = Some ((w, err), s') ∧
    walk_ok cur tags w ∧ (0 ≤ sw_requests w ≤ Z.max maxRequests 0)%Z ∧
    (never_fails repo → (Z.of_nat (length tags) + 5 ≤ maxRequests)%Z → err = None ∧ sw_complete w = true).
Proof.
  intros Ho. unfold walkSeries. set (w0 := mk_walk [] false false 0).
  destruct (walk_starts_total repo cur (seriesStarts cur) maxRequests w0 s (ordered_counts _ _ Ho))
    as (w & err & s' & E & Hb).
  exists w, err, s'. split; [done|]. split; [|split; [done|]].
  - eapply walk_starts_ok; [done| |exact E]. apply (reading_ok cur tags "" w0 "" true), fresh_reading.
  - intros Hnf Hmax. destruct (seriesStarts_split cur) as (starts & Es & Hlen). rewrite Es in E.
    destruct (walk_starts_done repo cur tags starts maxRequests w0 s Ho Hnf) as (w' & s1 & E' & Hc).
    { cbn [w0 sw_requests]. lia. }
    rewrite E' in E. by injection E as <- <- <-.
Qed.

(** ** Guarantees *)

(** C24: The tags of a pinned image's series are read exactly. Against any
    registry that lists a repository's tags in ascending order, also one that
    drops the first tag after a position at which there is no tag, whatever the
    pages it cuts the listing into: reading the series returns a result within
    its allowance of requests and without falling back to the whole listing;
    when no request failed, the tags are the first of the series' tags in the
    listing, and all of them unless the result says it is truncated. So an
    update is never missed because the walk started past it or stopped before
    it. *)
Theorem listPinnedSeries_exact {St Err} `{Registry St Err} (pager : TagPager St Err) repo cur tags allowance s :
  lists_in_order repo tags →
  ∃ list err s', listPinnedSeries (Some pager) repo cur allowance s = Some ((list, false, err), s') ∧
    (0 ≤ tl_Pages list ≤ Z.max allowance 0)%Z ∧
    (err = None →
      (∃ rest, series_of cur tags = tl_Tags list ++ rest) ∧
      (tl_Truncated list = false → tl_Tags list = series_of cur tags)).
Proof.
  intros Ho. destruct (walkSeries_spec repo cur tags allowance s Ho) as (w & err & s' & E & (Hu & Hc & Hp) & Hb & _).
  unfold listPinnedSeries. rewrite E. cbn [mbind option_bind]. destruct err as [e|].
  { eexists _, _, _. split; [reflexivity|]. cbn. split; [lia|done]. }
  rewrite Hu. eexists _, _, _. split; [reflexivity|]. cbn. split; [lia|]. intros _. split; [done|].
  by rewrite negb_false_iff.
Qed.

(** And the series is found whenever it can be. If the registry lists in
    ascending order and no request fails, an allowance of five requests more
    than the repository has tags is enough, even when every page holds a single
    tag: the result is all tags of the series and nothing else, not
    truncated. *)
Theorem listPinnedSeries_complete {St Err} `{Registry St Err} (pager : TagPager St Err) repo cur tags allowance s :
  lists_in_order repo tags → never_fails repo → (Z.of_nat (length tags) + 5 ≤ allowance)%Z →
  ∃ pages s', listPinnedSeries (Some pager) repo cur allowance s =
    Some ((mk_tag_list (series_of cur tags) false pages, false, None), s').
Proof.
  intros Ho Hnf Hmax.
  destruct (walkSeries_spec repo cur tags allowance s Ho) as (w & err & s' & E & (Hu & Hc & _) & _ & Hlive).
  destruct (Hlive Hnf Hmax) as [-> Hw]. unfold listPinnedSeries. rewrite E. cbn [mbind option_bind].
  rewrite Hu, Hw, <- Hc by done. by eexists _, _.
Qed.

Lemma listPinnedSeries_total {St Err} `{Registry St Err} (pager : TagPager St Err) repo cur allowance s :
  counts_requests repo →
  (∀ n s list err s', (0 < n)%Z → ListTagsUpTo repo n s = ((list, err), s') → (tl_Pages list ≤ n)%Z) →
  ∃ list whole err s', listPinnedSeries (Some pager) repo cur allowance s = Some ((list, whole, err), s') ∧
    (tl_Pages list ≤ Z.max allowance 0)%Z.
Proof.
  intros Hc Hup. unfold listPinnedSeries, walkSeries.
  destruct (walk_starts_total repo cur (seriesStarts cur) allowance (mk_walk [] false false 0) s Hc)
    as (w & err & s' & -> & Hb). cbn [mbind option_bind sw_requests] in *.
  destruct err as [e|]; [eexists _, _, _, _; split; [reflexivity|]; cbn; lia|].
  destruct (sw_unreliable w); [|eexists _, _, _, _; split; [reflexivity|]; cbn; lia].
  destruct (Z.leb_spec (allowance - sw_requests w) 0); [eexists _, _, _, _; split; [reflexivity|]; cbn; lia|].
  destruct (ListTagsUpTo repo (allowance - sw_requests w)%Z s') as [[l err] s2] eqn:El.
  assert (tl_Pages l ≤ allowance - sw_requests w)%Z by (eapply Hup; [|exact El]; lia).
  eexists _, _, _, _. split; [reflexivity|]. cbn. lia.
Qed.

(** ** What is really requested

    [pages] counts the requests for pages a registry gets, each [weight] times:
    those of a walk that say they were sent, and what a whole listing says it
    made. The number a listing reports is that count. *)
Section requested.
Context {St Err : Type} `{Registry St Err} (pages : St → Z) (weight : Z) (repo : string) (cur : TagVersion).

Definition pages_sent (pager : TagPager St Err) : Prop :=
  ∀ last n s page err s', ListTagsAfter repo last n s = ((page, err), s') →
    (pages s' = pages s + weight * if ta_Sent page then 1 else 0)%Z.

Definition pages_listed : Prop :=
  ∀ n s list err s', ListTagsUpTo repo n s = ((list, err), s') → (pages s' = pages s + weight * tl_Pages list)%Z.

Lemma walk_loop_pages (pager : TagPager St Err) start maxRequests fuel w last first s done err w' s' :
  pages_sent pager → walk_loop repo cur fuel start maxRequests w last first s = Some ((done, err, w'), s') →
  (pages s' = pages s + weight * (sw_requests w' - sw_requests w))%Z.
Proof.
  intros Hs. revert w last first s. induction fuel as [|fuel IH]; intros w last first s; [done|]. cbn [walk_loop].
  destruct (maxRequests <=? sw_requests w)%Z; [intros [= _ _ <- <-]; lia|].
  destruct (ListTagsAfter repo last seriesPageSize s) as [[page e] s1] eqn:E. apply Hs in E.
  set (w1 := if ta_Sent page then _ else w).
  assert (Hw : (pages s1 = pages s + weight * (sw_requests w1 - sw_requests w))%Z).
  { rewrite E. unfold w1. destruct (ta_Sent page); cbn; lia. }
  clearbody w1. destruct e as [e|]; [by intros [= _ _ <- <-]|]. destruct (first && _); [by intros [= _ _ <- <-]|].
  destruct (read_page cur last page w1) as [w2 next] eqn:Er. apply read_page_requests in Er.
  destruct next as [prev|]; [intros Hl%IH; rewrite Hl; nia|]. intros [= _ _ <- <-]. by rewrite Er.
Qed.

Lemma walk_starts_pages (pager : TagPager St Err) starts maxRequests w s w' err s' :
  pages_sent pager → walk_starts repo cur starts maxRequests w s = Some ((w', err), s') →
  (pages s' = pages s + weight * (sw_requests w' - sw_requests w))%Z.
Proof.
  intros Hs. revert w s. induction starts as [|start starts IH]; intros w s; cbn [walk_starts]; [intros [= <- _ <-]; lia|].
  destruct (walkFrom repo cur start maxRequests w s) as [[[[fin e] w1] s1]|] eqn:E; [|done]. cbn [mbind option_bind].
  apply walk_loop_pages in E; [|done]. cbn [sw_requests] in E.
  destruct (_ || fin); [by intros [= <- _ <-]|]. intros Hl%IH. rewrite Hl. nia.
Qed.

Lemma listPinnedSeries_pages (pager : option (TagPager St Err)) allowance s list whole err s' :
  (∀ p, pager = Some p → pages_sent p) → pages_listed →
  listPinnedSeries pager repo cur allowance s = Some ((list, whole, err), s') →
  (pages s' = pages s + weight * tl_Pages list)%Z.
Proof.
  intros Hs Hl. unfold listPinnedSeries. destruct pager as [p|].
  - destruct (walkSeries repo cur allowance s) as [[[w e] s1]|] eqn:E; [|done]. cbn [mbind option_bind].
    apply walk_starts_pages in E; [|by apply Hs]. cbn [sw_requests] in E.
    destruct e; [intros [= <- _ _ <-]; cbn; lia|]. destruct (sw_unreliable w); [|intros [= <- _ _ <-]; cbn; lia].
    destruct (_ <=? 0)%Z; [intros [= <- _ _ <-]; cbn; lia|].
    destruct (ListTagsUpTo repo _ s1) as [[l e2] s2] eqn:El. apply Hl in El. intros [= <- _ _ <-]. cbn. nia.
  - destruct (ListTagsUpTo repo allowance s) as [[l e] s1] eqn:El. intros [= <- _ _ <-]. by apply Hl in El.
Qed.
End requested.

(** What counts as the whole listing is what the registry listed. *)
Lemma listPinnedSeries_whole {St Err} `{Registry St Err} (pager : option (TagPager St Err)) repo cur allowance s list err s' :
  listPinnedSeries pager repo cur allowance s = Some ((list, true, err), s') →
  ∃ n s0 l, ListTagsUpTo repo n s0 = ((l, err), s') ∧ tl_Tags list = tl_Tags l ∧ tl_Truncated list = tl_Truncated l.
Proof.
  unfold listPinnedSeries. destruct pager as [p|].
  - destruct (walkSeries repo cur allowance s) as [[[w e] s1]|]; [|done]. cbn [mbind option_bind].
    destruct e; [done|]. destruct (sw_unreliable w); [|done]. destruct (_ <=? 0)%Z; [done|].
    destruct (ListTagsUpTo repo _ s1) as [[l e2] s2] eqn:El. intros [= <- <- <-]. by eexists _, _, _.
  - destruct (ListTagsUpTo repo allowance s) as [[l e] s1] eqn:El. intros [= <- <- <-]. by eexists _, _, _.
Qed.

(** Reading a series ends whatever the registry answers. If a successful
    request always says that it was sent, and the whole listing never makes
    more requests than it was allowed, then the call returns, and it reports at
    most the allowed number of requests: also for a registry that lists out of
    order, repeats pages for ever, or says that more follow an empty page. *)
Theorem listPinnedSeries_returns {St Err} `{Registry St Err} (pager : TagPager St Err) repo cur allowance s :
  counts_requests repo →
  (∀ n s list err s', (0 < n)%Z → ListTagsUpTo repo n s = ((list, err), s') → (tl_Pages list ≤ n)%Z) →
  ∃ list whole err s', listPinnedSeries (Some pager) repo cur allowance s = Some ((list, whole, err), s') ∧
    (tl_Pages list ≤ Z.max allowance 0)%Z.
Proof. apply listPinnedSeries_total. Qed.

(** A registry that serves a listing page by page. *)
Definition sorted_pager (drops : bool) (n : nat) (tags : list string) : TagPager unit unit :=
  λ _ last _ s,
    let rest := beyond tags last in
    let rest := if drops && negb (String.eqb last "") && negb (bool_decide (last ∈ tags)) then tail rest else rest in
    ((mk_tags_after (take n rest) (n <? length rest) true, None), s).

Lemma sorted_pager_in_order drops n tags repo :
  0 < n → ascending tags → lists_in_order (pager := sorted_pager drops n tags) repo tags.
Proof.
  intros Hn Ha. split; [done|]. intros last s page s'. unfold ListTagsAfter, sorted_pager.
  set (rest := if drops && _ && _ then _ else _).
  assert (rest = beyond tags last ∨ last ≠ "" ∧ last ∉ tags ∧ rest = tail (beyond tags last)) as Hrest.
  { unfold rest. destruct (drops && _ && _) eqn:Ed; [right|by left].
    apply andb_prop in Ed as [[_ H1%negb_true_iff%String.eqb_neq]%andb_prop H2%negb_true_iff%bool_decide_eq_false].
    done. }
  clearbody rest. intros [= <- <-]. split; [done|]. exists (drop n rest). cbn [ta_Tags ta_More]. rewrite take_drop.
  split; [done|]. intros Hend. assert (length rest ≤ n) as Hl.
  { destruct Hend as [?%Nat.ltb_ge|Hnil]; [done|]. apply (f_equal length) in Hnil. rewrite length_take in Hnil. cbn in Hnil. lia. }
  split; [by apply drop_ge|by apply Nat.ltb_ge].
Qed.

Definition example_tags : list string := ["1.9.3"; "2.4.1"; "2.5.0"; "2.5.1"; "2.5.10"; "2.5.2-alpine"; "2.6.0"; "latest"].
Definition example_release : TagVersion := mk_tag_version "" 2 5 0 "".

#[local] Instance example_registry : Registry unit unit := λ _ n s, ((mk_tag_list example_tags false 1, None), s).

Lemma example_in_order drops : lists_in_order (pager := sorted_pager drops 3 example_tags) "app" example_tags.
Proof. apply sorted_pager_in_order; [lia|]. by repeat constructor. Qed.

Lemma listPinnedSeries_exact_witness :
  lists_in_order (pager := sorted_pager true 3 example_tags) "app" example_tags ∧
  ∃ list err s', listPinnedSeries (Some (sorted_pager true 3 example_tags)) "app" example_release 9 tt =
      Some ((list, false, err), s') ∧
    (0 ≤ tl_Pages list ≤ Z.max 9 0)%Z ∧
    (err = None →
      (∃ rest, series_of example_release example_tags = tl_Tags list ++ rest) ∧
      (tl_Truncated list = false → tl_Tags list = series_of example_release example_tags)).
Proof.
  split; [apply example_in_order|]. apply (listPinnedSeries_exact (sorted_pager true 3 example_tags)), example_in_order.
Defined.

Lemma example_never_fails drops : never_fails (pager := sorted_pager drops 3 example_tags) "app".
Proof. intros last s. unfold ListTagsAfter, sorted_pager. by eexists _, _. Qed.

Lemma listPinnedSeries_complete_witness :
  lists_in_order (pager := sorted_pager true 3 example_tags) "app" example_tags ∧
  never_fails (pager := sorted_pager true 3 example_tags) "app" ∧
  (Z.of_nat (length example_tags) + 5 ≤ 13)%Z ∧
  series_of example_release example_tags = ["2.5.0"; "2.5.1"; "2.5.10"] ∧
  ∃ pages s', listPinnedSeries (Some (sorted_pager true 3 example_tags)) "app" example_release 13 tt =
    Some ((mk_tag_list (series_of example_release example_tags) false pages, false, None), s').
Proof.
  split; [apply example_in_order|]. split; [apply example_never_fails|]. split; [cbn; lia|].
  split; [by vm_compute|].
  apply (listPinnedSeries_complete (sorted_pager true 3 example_tags));
    [apply example_in_order|apply example_never_fails|cbn; lia].
Defined.

(** A registry that says that more follow every page, and repeats it. *)
Definition repeating_pager : TagPager unit unit := λ _ last _ s, ((mk_tags_after ["1.0.0"; "zzz"] true true, None), s).

Lemma listPinnedSeries_returns_witness :
  counts_requests (pager := repeating_pager) "app" ∧
  (∀ n s list err s', (0 < n)%Z → ListTagsUpTo "app" n s = ((list, err), s') → (tl_Pages list ≤ n)%Z) ∧
  ∃ list whole err s', listPinnedSeries (Some repeating_pager) "app" example_release 7 tt = Some ((list, whole, err), s') ∧
    (tl_Pages list ≤ Z.max 7 0)%Z.
Proof.
  assert (counts_requests (pager := repeating_pager) "app") as H1 by (intros last s page s' [= <- <-]; done).
  assert (∀ n s list err s', (0 < n)%Z → ListTagsUpTo "app" n s = ((list, err), s') → (tl_Pages list ≤ n)%Z) as H2.
  { intros n s list err s' Hn [= <- <- <-]. cbn. lia. }
  split; [exact H1|]. split; [exact H2|]. apply (listPinnedSeries_returns repeating_pager); [exact H1|exact H2].
Defined.
