(* ===== verification/Compare.v ===== *)
(** * Compare: what an update does to the findings of an image

    internal/remediation/compare.go and the scan conditions of
    internal/scanner/conditions.go: a scan of the image that runs is compared
    with one of the candidate. Two scans are only compared when both are known
    to be of the image they claim, were taken under the same conditions, and
    list the packages they looked at; a finding that is gone counts as resolved
    only if the candidate's scan looked at that kind of package. Go's maps are
    visited through [map_range], and the order of the results does not depend
    on it. *)

From Stdlib Require Import ZArith Lia Bool Ascii String List Permutation Sorting.Sorted.
From stdpp Require Import base countable gmap strings list.
From S2P Require Import Prelude GoStrings GoTime Reference Inventory Triage Report Build.

Open Scope string_scope.
Open Scope Z_scope.
Open Scope nat_scope.
Open Scope list_scope.
Open Scope kl_scope.

(** ** Scan conditions (scanner/conditions.go) *)

Record DBInfo := mk_db { db_Version : Z; db_UpdatedAt : Z }.

Definition DBInfo_Known (d : DBInfo) : bool := negb (db_Version d =? 0)%Z && negb (IsZero (db_UpdatedAt d)).
Definition DBInfo_equal (d o : DBInfo) : bool :=
  (db_Version d =? db_Version o)%Z && (db_UpdatedAt d =? db_UpdatedAt o)%Z.

Record ScanConditions := mk_conditions {
  sc_TrivyVersion : string; sc_VulnerabilityDB : DBInfo; sc_JavaDB : DBInfo; sc_Severities : list string;
  sc_AnalysisSettings : string; sc_VulnerabilityDBSHA : string; sc_JavaDBSHA : string; sc_TrivySHA : string }.

Definition not_empty (s : string) : bool := negb (String.eqb s "").

Definition ScanConditions_Known (c : ScanConditions) : bool :=
  not_empty (sc_TrivyVersion c) && DBInfo_Known (sc_VulnerabilityDB c) && DBInfo_Known (sc_JavaDB c) &&
  (0 <? length (sc_Severities c)) && not_empty (sc_AnalysisSettings c) &&
  not_empty (sc_VulnerabilityDBSHA c) && not_empty (sc_JavaDBSHA c) && not_empty (sc_TrivySHA c).

Definition ScanConditions_Equal (c o : ScanConditions) : bool :=
  if negb (ScanConditions_Known c) || negb (ScanConditions_Known o) then false
  else if
    negb (String.eqb (sc_TrivyVersion c) (sc_TrivyVersion o)) ||
    negb (String.eqb (sc_AnalysisSettings c) (sc_AnalysisSettings o)) ||
    negb (String.eqb (sc_VulnerabilityDBSHA c) (sc_VulnerabilityDBSHA o)) ||
    negb (String.eqb (sc_JavaDBSHA c) (sc_JavaDBSHA o)) ||
    negb (String.eqb (sc_TrivySHA c) (sc_TrivySHA o)) ||
    negb (DBInfo_equal (sc_VulnerabilityDB c) (sc_VulnerabilityDB o)) ||
    negb (DBInfo_equal (sc_JavaDB c) (sc_JavaDB o)) ||
    negb (length (sc_Severities c) =? length (sc_Severities o))
  then false
  else forallb (λ '(x, y), String.eqb x y) (zip (sc_Severities c) (sc_Severities o)).

(** ** Verdicts *)

Definition ReasonScanFailed : string := "scan_failed".
Definition ReasonEntityUnverified : string := "entity_unverified".
Definition ReasonConditionsUnknown : string := "conditions_unknown".
Definition ReasonConditionsDiffer : string := "conditions_differ".
Definition ReasonPlatformUnknown : string := "platform_unknown".
Definition ReasonPlatformDiffer : string := "platform_differ".
Definition ReasonVariantUnsupported : string := "variant_unsupported".
Definition ReasonPackagesMissing : string := "packages_missing".
Definition ReasonPackagesTruncated : string := "packages_truncated".
Definition ReasonUnknownPackageType : string := "unknown_package_type".
Definition ReasonTypeNotAnalysed : string := "type_not_analysed".

Definition OutcomeResolved : string := "resolved".
Definition OutcomeRemaining : string := "remaining".
Definition OutcomeIntroduced : string := "introduced".
Definition OutcomeUnknown : string := "unknown".

Definition DispositionNone : string := "".
Definition DispositionRemoved : string := "package_removed".
Definition DispositionVersionChanged : string := "version_changed".
Definition DispositionSameVersion : string := "same_version".

Record PackageCoord := mk_coord { pc_Ecosystem : string; pc_Class : string; pc_Name : string }.

#[export] Instance PackageCoord_eq_dec : EqDecision PackageCoord.
Proof. solve_decision. Defined.
#[export] Program Instance PackageCoord_countable : Countable PackageCoord :=
  inj_countable' (λ c, (pc_Ecosystem c, pc_Class c, pc_Name c)) (λ '(e, c, n), mk_coord e c n) _.
Next Obligation. by intros []. Qed.

Record Occurrence := mk_occurrence {
  oc_Package : PackageRef; oc_Type : string; oc_Target : string; oc_PkgPath : string;
  oc_Status : string; oc_FixedVer : string }.

#[export] Instance Occurrence_eq_dec : EqDecision Occurrence.
Proof. solve_decision. Defined.
#[export] Program Instance Occurrence_countable : Countable Occurrence :=
  inj_countable' (λ o, (oc_Package o, oc_Type o, oc_Target o, oc_PkgPath o, oc_Status o, oc_FixedVer o))
    (λ '(p, t, g, h, s, f), mk_occurrence p t g h s f) _.
Next Obligation. by intros []. Qed.

Record VulnVerdict := mk_verdict {
  vv_VulnID : string; vv_Package : PackageCoord; vv_Severity : string;
  vv_Before : list Occurrence; vv_After : list Occurrence;
  vv_Outcome : string; vv_Disposition : string; vv_Reason : string }.

#[export] Instance eta_VulnVerdict : Eta VulnVerdict := λ r,
  mk_verdict (vv_VulnID r) (vv_Package r) (vv_Severity r) (vv_Before r) (vv_After r)
    (vv_Outcome r) (vv_Disposition r) (vv_Reason r).

Definition Versions (occ : list Occurrence) : list string :=
  sort_strings (foldl (λ out o, if decide (pk_Version (oc_Package o) ∈ out) then out
                                else out ++ [pk_Version (oc_Package o)]) [] occ).

Record ScanRecord := mk_record { sr_Scan : ImageScan; sr_Conditions : ScanConditions }.

Record VerificationResult := mk_result {
  vf_Comparable : bool; vf_Reason : string; vf_Detail : string;
  vf_BaselineEntity : string; vf_CandidateEntity : string; vf_Severities : list string; vf_Scope : string;
  vf_Verdicts : list VulnVerdict; vf_Introduced : list VulnVerdict }.

#[export] Instance eta_VerificationResult : Eta VerificationResult := λ r,
  mk_result (vf_Comparable r) (vf_Reason r) (vf_Detail r) (vf_BaselineEntity r) (vf_CandidateEntity r)
    (vf_Severities r) (vf_Scope r) (vf_Verdicts r) (vf_Introduced r).

Definition Counts (r : VerificationResult) : nat * nat * nat :=
  let '(resolved, remaining) :=
    foldl (λ '(a, b) v,
      if String.eqb (vv_Outcome v) OutcomeResolved then (S a, b)
      else if String.eqb (vv_Outcome v) OutcomeRemaining then (a, S b) else (a, b)) (0, 0) (vf_Verdicts r) in
  (resolved, remaining, length (vf_Introduced r)).

(** ** Pairs of a scan *)

Record verdictKey := mk_vkey { vk_vuln : string; vk_coord : PackageCoord }.

#[export] Instance verdictKey_eq_dec : EqDecision verdictKey.
Proof. solve_decision. Defined.
#[export] Program Instance verdictKey_countable : Countable verdictKey :=
  inj_countable' (λ k, (vk_vuln k, vk_coord k)) (λ '(v, c), mk_vkey v c) _.
Next Obligation. by intros []. Qed.

Record pairAcc := mk_pair { pa_severity : string; pa_occ : list Occurrence; pa_seen : gset Occurrence }.
Definition zero_pair : pairAcc := mk_pair "" [] ∅.

Definition coordOf (f : Finding) : PackageCoord :=
  let r := finding_PackageRef f in mk_coord (pk_Ecosystem r) (pk_Class r) (pk_Name r).

Definition keyOf (f : Finding) : verdictKey := mk_vkey (fi_VulnID f) (coordOf f).

Definition occurrence_of (f : Finding) : Occurrence :=
  mk_occurrence (finding_PackageRef f) (fi_Type f) (fi_Target f) (fi_PkgPath f) (fi_Status f) (fi_FixedVer f).

Definition less_occ (a b : Occurrence) : bool :=
  if negb (String.eqb (pk_Version (oc_Package a)) (pk_Version (oc_Package b)))
  then str_lt (pk_Version (oc_Package a)) (pk_Version (oc_Package b))
  else if negb (String.eqb (oc_Target a) (oc_Target b)) then str_lt (oc_Target a) (oc_Target b)
  else str_lt (oc_PkgPath a) (oc_PkgPath b).

Definition less_key (a b : verdictKey) : bool :=
  if negb (String.eqb (vk_vuln a) (vk_vuln b)) then str_lt (vk_vuln a) (vk_vuln b)
  else if negb (String.eqb (pc_Name (vk_coord a)) (pc_Name (vk_coord b)))
  then str_lt (pc_Name (vk_coord a)) (pc_Name (vk_coord b))
  else if negb (String.eqb (pc_Class (vk_coord a)) (pc_Class (vk_coord b)))
  then str_lt (pc_Class (vk_coord a)) (pc_Class (vk_coord b))
  else str_lt (pc_Ecosystem (vk_coord a)) (pc_Ecosystem (vk_coord b)).

Definition Unconfirmed : string := "unconfirmed".

Definition entityString (k : EntityKey) : string :=
  if negb (Digest_Valid (ek_Digest k)) then Unconfirmed
  else
    let s := dg_Kind (ek_Digest k) +:+ ":" +:+ Digest_String (ek_Digest k) in
    if Platform_Known (ek_Platform k)
    then s +:+ "@" +:+ pf_OS (ek_Platform k) +:+ "/" +:+ pf_Architecture (ek_Platform k) else s.

Definition EntityKeyString (k : EntityKey) : string := entityString k.

Definition comparisonScope (sev : list string) : string :=
  if length sev =? 0 then "no severity range known: nothing was evaluated"
  else "only findings of severity " +:+ join ", " sev +:+ " were evaluated; other severities are not covered".

(** ** What a scan covered *)

Definition packageVersions (scan : ImageScan) : gmap PackageCoord (gset string) :=
  foldl (λ out rp,
    let eco := ParseEcosystem (rp_Type rp) in
    foldl (λ out p,
      let c := mk_coord eco (rp_Class rp) (ip_Name p) in
      <[c := {[ip_Version p]} ∪ default ∅ (out !! c)]> out) out (rp_Packages rp)) ∅ (sn_Packages scan).

Definition dispositionOf (c : PackageCoord) (before : list string) (cand : gmap PackageCoord (gset string)) : string :=
  let have := default ∅ (cand !! c) in
  if decide (have = ∅) then DispositionRemoved
  else if existsb (λ v, bool_decide (v ∈ have)) before then DispositionSameVersion
  else DispositionVersionChanged.

(** [kindKey]: a result type and a class. *)
Definition analysedKinds (scan : ImageScan) : gset (string * string) :=
  foldl (λ out rp,
    if String.eqb (rp_Class rp) ClassOS && String.eqb (sn_OSFamily scan) "" then out
    else {[(rp_Type rp, rp_Class rp)]} ∪ out) ∅ (sn_Packages scan).

Fixpoint unanalysed (occ : list Occurrence) (analysed : gset (string * string)) : string :=
  match occ with
  | [] => ""
  | o :: occ =>
      if negb (bool_decide ((oc_Type o, pk_Class (oc_Package o)) ∈ analysed)) then oc_Type o
      else unanalysed occ analysed
  end.

(** ** Comparing *)

(** [%q] of [fmt.Sprintf]: the quoting of a text depends on the tables of
    printable characters of Go's strconv. *)
Class GoQuote := go_quote : string → string.

Instance go_quote_plain : GoQuote := λ s, String "034"%char s +:+ String "034"%char "".

Section compare.
Context `{GoUnicodeUpper, GoQuote, MapRange}.

Definition severity_range (sev : list string) : gset string := list_to_set (to_upper <$> sev).

Definition severity_in (rng : gset string) (f : Finding) : bool :=
  bool_decide (to_upper (fi_Severity f) ∈ rng).

Definition collect_step (rng : gset string) (out : gmap verdictKey pairAcc) (f : Finding) : gmap verdictKey pairAcc :=
  if negb (severity_in rng f) then out
  else
    let k := keyOf f in
    let acc := default (mk_pair (fi_Severity f) [] ∅) (out !! k) in
    let o := occurrence_of f in
    <[k := if bool_decide (o ∈ pa_seen acc) then acc
           else mk_pair (pa_severity acc) (pa_occ acc ++ [o]) ({[o]} ∪ pa_seen acc)]> out.

Definition sort_pair (acc : pairAcc) : pairAcc :=
  mk_pair (pa_severity acc) (sort_by less_occ (pa_occ acc)) (pa_seen acc).

Definition collect (scan : ImageScan) (rng : gset string) : gmap verdictKey pairAcc :=
  sort_pair <$> foldl (collect_step rng) ∅ (sn_Findings scan).

Definition sortedKeys (m : gmap verdictKey pairAcc) : list verdictKey := sort_by less_key (map_range m).*1.

(** [m[k]] of a key that is present. *)
Definition pair_at (m : gmap verdictKey pairAcc) (k : verdictKey) : pairAcc := default zero_pair (m !! k).

Definition baseline_verdict (bm : gmap verdictKey pairAcc) (k : verdictKey) : VulnVerdict :=
  mk_verdict (vk_vuln k) (vk_coord k) (pa_severity (pair_at bm k)) (pa_occ (pair_at bm k)) [] "" DispositionNone "".

Definition notComparable (base : ScanRecord) (reason detail : string) (rng : gset string) (sev : list string)
    : VerificationResult :=
  match sn_Err (sr_Scan base) with
  | Some _ => mk_result false reason detail "" "" sev (comparisonScope sev) [] []
  | None =>
      let bm := collect (sr_Scan base) rng in
      mk_result false reason detail (entityString (is_Key (sn_Subject (sr_Scan base)))) "" sev (comparisonScope sev)
        ((λ k, baseline_verdict bm k <| vv_Outcome := OutcomeUnknown |>) <$> sortedKeys bm) []
  end.

(** The checks of [Compare] in their order; the first that reports a reason
    decides. [sides] are the two rows its loops go over. *)
Definition sides (baseline candidate : ScanRecord) : list (string * ScanRecord) :=
  [("baseline", baseline); ("candidate", candidate)].

Definition check_scan (side : string * ScanRecord) : option (string * string) :=
  match sn_Err (sr_Scan side.2) with
  | Some err => Some (ReasonScanFailed, side.1 +:+ " scan failed: " +:+ err)
  | None => None
  end.

Definition check_entity (side : string * ScanRecord) : option (string * string) :=
  if negb (is_Resolved (sn_Subject (sr_Scan side.2))) || negb (sn_Pinned (sr_Scan side.2))
  then Some (ReasonEntityUnverified, side.1 +:+ " scan did not confirm the image it scanned") else None.

Definition check_conditions (b c : ScanConditions) : option (string * string) :=
  if negb (ScanConditions_Known b) || negb (ScanConditions_Known c)
  then Some (ReasonConditionsUnknown, "scan conditions are not known for both scans")
  else if negb (ScanConditions_Equal b c) then Some (ReasonConditionsDiffer, "the scans ran under different conditions")
  else None.

Definition check_platform (bp cp : Platform) : option (string * string) :=
  if negb (Platform_Known bp) || negb (Platform_Known cp)
  then Some (ReasonPlatformUnknown, "the platform of a scan is not known")
  else if not_empty (pf_Variant bp) || not_empty (pf_Variant cp)
  then Some (ReasonVariantUnsupported, "a platform variant is involved")
  else if negb (String.eqb (pf_OS bp) (pf_OS cp)) || negb (String.eqb (pf_Architecture bp) (pf_Architecture cp))
  then Some (ReasonPlatformDiffer, "the scans cover different platforms")
  else None.

Definition check_packages (side : string * ScanRecord) : option (string * string) :=
  if length (sn_Packages (sr_Scan side.2)) =? 0
  then Some (ReasonPackagesMissing, side.1 +:+ " scan has no package list")
  else if sn_PackagesTruncated (sr_Scan side.2)
  then Some (ReasonPackagesTruncated, side.1 +:+ " package list is truncated") else None.

Definition check_finding (side : string) (rng : gset string) (f : Finding) : option (string * string) :=
  if severity_in rng f && String.eqb (ParseEcosystem (fi_Type f)) EcosystemUnknown
  then Some (ReasonUnknownPackageType,
    side +:+ " finding " +:+ fi_VulnID f +:+ " in " +:+ go_quote (fi_Package f) +:+ " has package type " +:+ go_quote (fi_Type f))
  else None.

Definition check_listed (rp : ResultPackages) : option (string * string) :=
  if String.eqb (ParseEcosystem (rp_Type rp)) EcosystemUnknown
  then Some (ReasonUnknownPackageType, "candidate package list has result type " +:+ go_quote (rp_Type rp)) else None.

Definition checks (rng : gset string) (baseline candidate : ScanRecord) : list (option (string * string)) :=
  (check_scan <$> sides baseline candidate) ++
  (check_entity <$> sides baseline candidate) ++
  [check_conditions (sr_Conditions baseline) (sr_Conditions candidate);
   check_platform (sn_Platform (sr_Scan baseline)) (sn_Platform (sr_Scan candidate))] ++
  (check_packages <$> sides baseline candidate) ++
  (check_finding "baseline" rng <$> sn_Findings (sr_Scan baseline)) ++
  (check_listed <$> sn_Packages (sr_Scan candidate)) ++
  (check_finding "candidate" rng <$> sn_Findings (sr_Scan candidate)).

Definition first_some {A} (l : list (option A)) : option A := foldr or_else None l.

Definition compared_severities (baseline candidate : ScanRecord) : list string :=
  if length (sc_Severities (sr_Conditions baseline)) =? 0 then sc_Severities (sr_Conditions candidate)
  else sc_Severities (sr_Conditions baseline).

Definition compare_pair (bm cm : gmap verdictKey pairAcc) (candPkgs : gmap PackageCoord (gset string))
    (analysed : gset (string * string)) (k : verdictKey) : VulnVerdict :=
  let v := baseline_verdict bm k in
  match cm !! k with
  | Some c => v <| vv_After := pa_occ c |> <| vv_Outcome := OutcomeRemaining |>
  | None =>
      if not_empty (unanalysed (pa_occ (pair_at bm k)) analysed)
      then v <| vv_Outcome := OutcomeUnknown |> <| vv_Reason := ReasonTypeNotAnalysed |>
      else v <| vv_Outcome := OutcomeResolved |>
             <| vv_Disposition := dispositionOf (vk_coord k) (Versions (pa_occ (pair_at bm k))) candPkgs |>
  end.

Definition introduced_verdict (cm : gmap verdictKey pairAcc) (k : verdictKey) : VulnVerdict :=
  mk_verdict (vk_vuln k) (vk_coord k) (pa_severity (pair_at cm k)) [] (pa_occ (pair_at cm k))
    OutcomeIntroduced DispositionNone "".

Definition Compare (baseline candidate : ScanRecord) : VerificationResult :=
  let sev := compared_severities baseline candidate in
  let rng := severity_range sev in
  match first_some (checks rng baseline candidate) with
  | Some (reason, detail) => notComparable baseline reason detail rng sev
  | None =>
      let bm := collect (sr_Scan baseline) rng in
      let cm := collect (sr_Scan candidate) rng in
      let candPkgs := packageVersions (sr_Scan candidate) in
      let analysed := analysedKinds (sr_Scan candidate) in
      mk_result true "" "" (entityString (is_Key (sn_Subject (sr_Scan baseline))))
        (entityString (is_Key (sn_Subject (sr_Scan candidate)))) sev (comparisonScope sev)
        (compare_pair bm cm candPkgs analysed <$> sortedKeys bm)
        (introduced_verdict cm <$> filter (λ k, bm !! k = None) (sortedKeys cm))
  end.

End compare.

(** ** Coverage of the fixed targets *)

Record Target := mk_target {
  tg_VulnID : string; tg_Package : PackageCoord; tg_Severity : string; tg_FixedVers : list string;
  tg_Priority : string; tg_KEV : bool; tg_Types : list string; tg_Layers : list string }.

Definition has_gap (kinds : list (gset (string * string))) (t : Target) : bool :=
  existsb (λ typ, existsb (λ analysed, negb (bool_decide ((typ, pc_Class (tg_Package t)) ∈ analysed))) kinds)
    (tg_Types t).

Definition same_pair (t : Target) (v : VulnVerdict) : bool :=
  String.eqb (vv_VulnID v) (tg_VulnID t) && bool_decide (vv_Package v = tg_Package t).

Definition mark_unknown (t : Target) (v : VulnVerdict) : VulnVerdict :=
  if same_pair t v
  then v <| vv_Outcome := OutcomeUnknown |> <| vv_Reason := ReasonTypeNotAnalysed |> <| vv_Disposition := DispositionNone |>
  else v.

Definition cover_target (vs : list VulnVerdict) (t : Target) : list VulnVerdict :=
  let vs' := mark_unknown t <$> vs in
  if existsb (same_pair t) vs then vs'
  else vs' ++ [mk_verdict (tg_VulnID t) (tg_Package t) (tg_Severity t) [] [] OutcomeUnknown DispositionNone ReasonTypeNotAnalysed].

Definition ApplyCoverage (r : VerificationResult) (targets : list Target) (baseline candidate : ScanRecord)
    : VerificationResult :=
  if negb (vf_Comparable r) then r
  else
    let kinds := [analysedKinds (sr_Scan baseline); analysedKinds (sr_Scan candidate)] in
    let gaps := filter (λ t, has_gap kinds t = true) targets in
    if length gaps =? 0 then r
    else r <| vf_Verdicts := foldl cover_target (vf_Verdicts r) gaps |>.

(** ** What the maps hold *)

Section spec.
Context `{GoUnicodeUpper}.

(** The findings of a pair in the evaluated range. *)
Definition pair_findings (rng : gset string) (l : list Finding) (k : verdictKey) : list Finding :=
  filter (λ f, severity_in rng f = true ∧ keyOf f = k) l.

Definition reported (rng : gset string) (scan : ImageScan) (k : verdictKey) : Prop :=
  pair_findings rng (sn_Findings scan) k ≠ [].

Lemma reported_iff rng scan k :
  reported rng scan k ↔ ∃ f, f ∈ sn_Findings scan ∧ severity_in rng f = true ∧ keyOf f = k.
Proof.
  unfold reported, pair_findings. split.
  - destruct (filter _ _) as [|f l] eqn:E; [done|]. intros _. exists f.
    assert (f ∈ filter (λ f, severity_in rng f = true ∧ keyOf f = k) (sn_Findings scan)) as Hf by (rewrite E; left).
    by apply list_elem_of_filter in Hf as [[? ?] ?].
  - intros (f & Hf & Hs & Hk) E. assert (f ∈ filter (λ f, severity_in rng f = true ∧ keyOf f = k) (sn_Findings scan)) as Hin.
    { by apply list_elem_of_filter. }
    rewrite E in Hin. by apply elem_of_nil in Hin.
Qed.

Record pair_holds (fs : list Finding) (acc : pairAcc) : Prop := {
  ph_severity : Some (pa_severity acc) = fi_Severity <$> head fs;
  ph_occ : ∀ o, o ∈ pa_occ acc ↔ o ∈ occurrence_of <$> fs;
  ph_seen : ∀ o, o ∈ pa_seen acc ↔ o ∈ pa_occ acc;
  ph_nodup : NoDup (pa_occ acc);
}.

Lemma collect_fold rng l k :
  match foldl (collect_step rng) ∅ l !! k with
  | None => pair_findings rng l k = []
  | Some acc => pair_holds (pair_findings rng l k) acc
  end.
Proof.
  induction l as [|f l IH] using rev_ind; [cbn [foldl]; by rewrite lookup_empty|].
  rewrite foldl_app. cbn [foldl]. unfold pair_findings in *. rewrite filter_app. set (m := foldl _ _ l) in *.
  unfold collect_step at 1. destruct (severity_in rng f) eqn:Es; cbn [negb].
  2: { rewrite (filter_cons_False _ f) by (intros [? _]; congruence). cbn. by rewrite List.app_nil_r. }
  destruct (decide (keyOf f = k)) as [<-|Hk].
  2: { rewrite lookup_insert_ne by done. rewrite (filter_cons_False _ f) by tauto. cbn. by rewrite List.app_nil_r. }
  rewrite lookup_insert_eq, (filter_cons_True _ f) by done. set (fs := filter _ l) in *. cbn [filter list_filter].
  change (filter _ []) with (@nil Finding). clearbody fs.
  destruct (m !! keyOf f) as [acc|]; unfold default, id.
  - destruct IH as [I1 I2 I3 I4]. assert (∀ x, Some x = fi_Severity <$> head fs → Some x = fi_Severity <$> head (fs ++ [f])) as Hh.
    { intros x. destruct fs; [discriminate|done]. }
    destruct (bool_decide_reflect (occurrence_of f ∈ pa_seen acc)) as [Hs|Hs].
    + split; [by apply Hh| |done|done]. intros o. rewrite I2, fmap_app, elem_of_app. cbn. rewrite list_elem_of_singleton.
      split; [by left|]. intros [?| ->]; [done|]. by apply I2, I3.
    + split; cbn; [by apply Hh| | |].
      * intros o. rewrite fmap_app, !elem_of_app, I2. done.
      * intros o. rewrite elem_of_union, elem_of_app, elem_of_singleton, list_elem_of_singleton, I3. tauto.
      * apply NoDup_app. split; [done|]. split; [|apply NoDup_singleton]. intros o Ho ->%list_elem_of_singleton.
        by apply Hs, I3.
  - rewrite IH. cbn. rewrite bool_decide_eq_false_2 by set_solver. split; cbn; [done|done| |apply NoDup_singleton].
    intros o. set_solver.
Qed.

Lemma collect_spec scan rng k :
  match collect scan rng !! k with
  | None => pair_findings rng (sn_Findings scan) k = []
  | Some acc => pair_holds (pair_findings rng (sn_Findings scan) k) acc
  end.
Proof.
  unfold collect. rewrite lookup_fmap. pose proof (collect_fold rng (sn_Findings scan) k) as Hc.
  destruct (_ !! k) as [acc|]; [|done]. cbn. destruct Hc as [H1 H2 H3 H4]. split; cbn.
  - done.
  - intros o. by rewrite elem_of_sort_by.
  - intros o. by rewrite elem_of_sort_by.
  - by apply NoDup_sort_by.
Qed.

Lemma collect_reported scan rng k : is_Some (collect scan rng !! k) ↔ reported rng scan k.
Proof.
  unfold reported. pose proof (collect_spec scan rng k) as Hc. destruct (collect scan rng !! k) as [acc|].
  - split; [|by eexists]. intros _ E. destruct Hc as [Hs _ _ _]. by rewrite E in Hs.
  - rewrite Hc. split; [by intros [? ?]|done].
Qed.

Lemma collect_absent scan rng k : collect scan rng !! k = None ↔ ¬ reported rng scan k.
Proof. rewrite <- collect_reported. by rewrite eq_None_not_Some. Qed.

Lemma pair_at_occ scan rng k o :
  o ∈ pa_occ (pair_at (collect scan rng) k) ↔
  ∃ f, f ∈ sn_Findings scan ∧ severity_in rng f = true ∧ keyOf f = k ∧ o = occurrence_of f.
Proof.
  unfold pair_at. pose proof (collect_spec scan rng k) as Hc. destruct (collect scan rng !! k) as [acc|]; cbn [default].
  - rewrite (ph_occ _ _ Hc). unfold pair_findings. rewrite list_elem_of_fmap. setoid_rewrite list_elem_of_filter. naive_solver.
  - split; [by intros ?%elem_of_nil|]. intros (f & Hf & Hs & Hk & _).
    assert (f ∈ pair_findings rng (sn_Findings scan) k) as Hin by (by apply list_elem_of_filter).
    rewrite Hc in Hin. by apply elem_of_nil in Hin.
Qed.

(** ** What was analysed *)

(** The scan has a package list of this result type and class; one of the
    operating system only counts with a known family. *)
Definition analysed_kind (scan : ImageScan) (typ class : string) : Prop :=
  (∃ rp, rp ∈ sn_Packages scan ∧ rp_Type rp = typ ∧ rp_Class rp = class) ∧
  (class = ClassOS → sn_OSFamily scan ≠ "").

Lemma analysedKinds_spec scan typ class : (typ, class) ∈ analysedKinds scan ↔ analysed_kind scan typ class.
Proof.
  unfold analysedKinds, analysed_kind.
  enough (∀ l acc, (typ, class) ∈ foldl (λ out rp,
      if String.eqb (rp_Class rp) ClassOS && String.eqb (sn_OSFamily scan) "" then out
      else {[(rp_Type rp, rp_Class rp)]} ∪ out) acc l ↔
    (typ, class) ∈ acc ∨ (∃ rp, rp ∈ l ∧ rp_Type rp = typ ∧ rp_Class rp = class) ∧ (class = ClassOS → sn_OSFamily scan ≠ ""))
    as Hf by (rewrite Hf; set_solver).
  intros l. induction l as [|rp l IH]; intros acc; cbn [foldl]; [set_solver|]. rewrite IH. clear IH.
  destruct (String.eqb_spec (rp_Class rp) ClassOS) as [Hc|Hc]; cbn [andb];
    [destruct (String.eqb_spec (sn_OSFamily scan) "") as [Hf|Hf]|];
    setoid_rewrite elem_of_cons; rewrite ?elem_of_union, ?elem_of_singleton; naive_solver.
Qed.

(** With a known type in every occurrence the result is empty exactly when
    all were analysed. *)
Lemma unanalysed_spec occ scan :
  Forall (λ o, oc_Type o ≠ "") occ →
  unanalysed occ (analysedKinds scan) = "" ↔
  ∀ o, o ∈ occ → analysed_kind scan (oc_Type o) (pk_Class (oc_Package o)).
Proof.
  induction 1 as [|o occ Ho Hocc IH]; cbn [unanalysed]; [split; [by intros _ o ?%elem_of_nil|done]|].
  setoid_rewrite elem_of_cons. destruct (bool_decide_reflect ((oc_Type o, pk_Class (oc_Package o)) ∈ analysedKinds scan)) as [Ha|Ha];
    cbn [negb]; rewrite analysedKinds_spec in Ha.
  - rewrite IH. naive_solver.
  - naive_solver.
Qed.
End spec.

(** ** Order of the results *)

Definition cmp_key : verdictKey → verdictKey → comparison :=
  cmp_then (cmp_on vk_vuln str_cmp)
  (cmp_then (cmp_on (λ k, pc_Name (vk_coord k)) str_cmp)
  (cmp_then (cmp_on (λ k, pc_Class (vk_coord k)) str_cmp)
            (cmp_on (λ k, pc_Ecosystem (vk_coord k)) str_cmp))).

#[export] Instance cmp_key_order : CmpOrder cmp_key.
Proof. unfold cmp_key. repeat apply cmp_then_order; apply cmp_on_order, str_cmp_order. Qed.

Lemma less_key_cmp a b : less_key a b = less_of cmp_key a b.
Proof. unfold less_key. by rewrite (str_last (pc_Ecosystem (vk_coord a))), !str_step. Qed.

Lemma cmp_key_eq a b : cmp_key a b = Eq → a = b.
Proof.
  unfold cmp_key, cmp_then, cmp_on. rewrite !lexc_eq. intros (H1%str_cmp_eq & H2%str_cmp_eq & H3%str_cmp_eq & H4%str_cmp_eq).
  destruct a as [v [e c n]], b as [v' [e' c' n']]. cbn in *. by subst.
Qed.

Section keys.
Context `{MapRange}.

Lemma elem_of_sortedKeys m k : k ∈ sortedKeys m ↔ is_Some (m !! k).
Proof. unfold sortedKeys. by rewrite elem_of_sort_by, elem_of_map_range_keys. Qed.

Lemma NoDup_sortedKeys m : NoDup (sortedKeys m).
Proof. apply NoDup_sort_by, NoDup_map_range_keys. Qed.
End keys.

Lemma sortedKeys_order R1 R2 m : @sortedKeys R1 m = @sortedKeys R2 m.
Proof.
  unfold sortedKeys. apply (sort_by_cmp_unique less_key cmp_key).
  - intros. apply less_key_cmp.
  - intros ????. apply cmp_key_eq.
  - by rewrite (map_range_perm2 R1 R2).
Qed.

(** ** When two scans are compared *)

Lemma first_some_none {A} (l : list (option A)) : first_some l = None ↔ ∀ o, o ∈ l → o = None.
Proof.
  induction l as [|o l IH]; cbn.
  - split; [by intros _ o ?%elem_of_nil|done].
  - setoid_rewrite elem_of_cons. destruct o; cbn; [|rewrite IH]; naive_solver.
Qed.

Lemma DBInfo_equal_iff d o : DBInfo_equal d o = true ↔ d = o.
Proof. unfold DBInfo_equal. rewrite andb_true_iff, !Z.eqb_eq. destruct d, o. cbn. naive_solver. Qed.

Lemma strings_equal_iff l k :
  length l = length k → forallb (λ '(x, y), String.eqb x y) (zip l k) = true ↔ l = k.
Proof.
  revert k. induction l as [|x l IH]; intros [|y k]; cbn; try done. intros [= Hl].
  rewrite andb_true_iff, String.eqb_eq, (IH k Hl). naive_solver.
Qed.

Lemma ScanConditions_Equal_iff c o : ScanConditions_Equal c o = true ↔ ScanConditions_Known c = true ∧ c = o.
Proof.
  unfold ScanConditions_Equal. split.
  - destruct (ScanConditions_Known c), (ScanConditions_Known o); try done. cbn [negb orb].
    destruct (_ || negb (length _ =? length _)) eqn:E; [done|]. intros Hs.
    rewrite !orb_false_iff, !negb_false_iff, !String.eqb_eq, !DBInfo_equal_iff, Nat.eqb_eq in E.
    destruct E as [[[[[[[E1 E2] E3] E4] E5] E6] E7] E8]. apply (strings_equal_iff _ _ E8) in Hs.
    split; [done|]. destruct c, o. cbn in *. by subst.
  - intros [Hk <-]. rewrite Hk. cbn [negb orb]. rewrite !String.eqb_refl, Nat.eqb_refl.
    rewrite !(proj2 (DBInfo_equal_iff _ _)) by done. cbn [negb orb]. by apply strings_equal_iff.
Qed.

(** A scan of a confirmed image with its whole package list. *)
Definition verified (r : ScanRecord) : Prop :=
  sn_Err (sr_Scan r) = None ∧ is_Resolved (sn_Subject (sr_Scan r)) = true ∧ sn_Pinned (sr_Scan r) = true ∧
  sn_Packages (sr_Scan r) ≠ [] ∧ sn_PackagesTruncated (sr_Scan r) = false.

Definition known_type (typ : string) : Prop := ParseEcosystem typ ≠ EcosystemUnknown.

Section comparable.
Context `{GoUnicodeUpper, GoQuote}.

Definition evaluated (b c : ScanRecord) : gset string := severity_range (compared_severities b c).

Definition known_findings (rng : gset string) (s : ImageScan) : Prop :=
  ∀ f, f ∈ sn_Findings s → severity_in rng f = true → known_type (fi_Type f).

Record comparable_scans (b c : ScanRecord) : Prop := {
  cs_baseline : verified b;
  cs_candidate : verified c;
  cs_known : ScanConditions_Known (sr_Conditions b) = true;
  cs_conditions : sr_Conditions b = sr_Conditions c;
  cs_platform : sn_Platform (sr_Scan b) = sn_Platform (sr_Scan c);
  cs_platform_known : Platform_Known (sn_Platform (sr_Scan b)) = true;
  cs_variant : pf_Variant (sn_Platform (sr_Scan b)) = "";
  cs_baseline_types : known_findings (evaluated b c) (sr_Scan b);
  cs_candidate_types : known_findings (evaluated b c) (sr_Scan c);
  cs_listed_types : ∀ rp, rp ∈ sn_Packages (sr_Scan c) → known_type (rp_Type rp);
}.

Lemma check_scan_none side : check_scan side = None ↔ sn_Err (sr_Scan side.2) = None.
Proof. unfold check_scan. by destruct (sn_Err _). Qed.

Lemma check_entity_none side :
  check_entity side = None ↔ is_Resolved (sn_Subject (sr_Scan side.2)) = true ∧ sn_Pinned (sr_Scan side.2) = true.
Proof. unfold check_entity. destruct (is_Resolved _), (sn_Pinned _); naive_solver. Qed.

Lemma check_packages_none side :
  check_packages side = None ↔ sn_Packages (sr_Scan side.2) ≠ [] ∧ sn_PackagesTruncated (sr_Scan side.2) = false.
Proof. unfold check_packages. destruct (sn_Packages _), (sn_PackagesTruncated _); cbn; naive_solver. Qed.

Lemma check_conditions_none b c : check_conditions b c = None ↔ ScanConditions_Known b = true ∧ b = c.
Proof.
  unfold check_conditions. pose proof (ScanConditions_Equal_iff b c) as He.
  destruct (ScanConditions_Equal b c).
  - destruct (proj1 He eq_refl) as [Hk <-]. rewrite Hk. naive_solver.
  - destruct (negb _ || negb _) eqn:E; cbn; (split; [done|]); intros Hbc; by apply He in Hbc.
Qed.

Lemma check_platform_none p q :
  check_platform p q = None ↔ p = q ∧ Platform_Known p = true ∧ pf_Variant p = "".
Proof.
  unfold check_platform, not_empty. destruct p as [o a v], q as [o' a' v']. cbn.
  destruct (Platform_Known (mk_platform o a v)) eqn:E1; cbn [negb orb].
  2: { split; [done|]. by intros (_ & ? & _). }
  destruct (Platform_Known (mk_platform o' a' v')) eqn:E2; cbn [negb].
  2: { split; [done|]. intros ([= <- <- <-] & _). congruence. }
  destruct (String.eqb_spec v "") as [->|], (String.eqb_spec v' "") as [->|]; cbn [negb orb];
    destruct (String.eqb_spec o o') as [<-|], (String.eqb_spec a a') as [<-|]; cbn [negb orb]; naive_solver.
Qed.

Lemma check_findings_none side rng s :
  (∀ o, o ∈ check_finding side rng <$> sn_Findings s → o = None) ↔ known_findings rng s.
Proof.
  unfold known_findings, known_type. setoid_rewrite list_elem_of_fmap. unfold check_finding. split.
  - intros Hn f Hf Hs Ht. specialize (Hn _ (ex_intro _ f (conj eq_refl Hf))). rewrite Hs, Ht in Hn. done.
  - intros Hk o (f & -> & Hf). destruct (severity_in rng f) eqn:Es; [|done]. cbn [andb].
    by rewrite (proj2 (String.eqb_neq _ _) (Hk f Hf Es)).
Qed.

Lemma check_listed_none (l : list ResultPackages) :
  (∀ o, o ∈ check_listed <$> l → o = None) ↔ ∀ rp, rp ∈ l → known_type (rp_Type rp).
Proof.
  unfold known_type. setoid_rewrite list_elem_of_fmap. unfold check_listed. split.
  - intros Hn rp Hr Ht. specialize (Hn _ (ex_intro _ rp (conj eq_refl Hr))). rewrite Ht in Hn. done.
  - intros Hk o (rp & -> & Hr). by rewrite (proj2 (String.eqb_neq _ _) (Hk rp Hr)).
Qed.

Lemma forall_app {A} (P : A → Prop) (l k : list A) : (∀ x, x ∈ l ++ k → P x) ↔ (∀ x, x ∈ l → P x) ∧ (∀ x, x ∈ k → P x).
Proof. setoid_rewrite elem_of_app. naive_solver. Qed.

Lemma forall_two {A} (P : A → Prop) (x y : A) : (∀ z, z ∈ [x; y] → P z) ↔ P x ∧ P y.
Proof. setoid_rewrite elem_of_cons. setoid_rewrite list_elem_of_singleton. naive_solver. Qed.

Lemma checks_none b c : first_some (checks (evaluated b c) b c) = None ↔ comparable_scans b c.
Proof.
  rewrite first_some_none. unfold checks, sides. rewrite !forall_app. cbn [fmap list_fmap].
  rewrite !forall_two, !check_scan_none, !check_entity_none, !check_packages_none, check_conditions_none,
    check_platform_none, !check_findings_none, check_listed_none. cbn [snd]. unfold verified. split.
  - intros H1. destruct_and!. split; unfold verified; tauto.
  - intros []. unfold verified in *. tauto.
Qed.
End comparable.

(** ** Verdicts *)

Definition verdict_key (v : VulnVerdict) : verdictKey := mk_vkey (vv_VulnID v) (vv_Package v).

Section verdicts.
Context `{GoUnicodeUpper, GoQuote, MapRange}.

(** Every finding of the pair is of a kind of package the scan looked at. *)
Definition pair_analysed (rng : gset string) (b c : ImageScan) (k : verdictKey) : Prop :=
  ∀ f, f ∈ sn_Findings b → severity_in rng f = true → keyOf f = k → analysed_kind c (fi_Type f) (fi_Class f).

Lemma unanalysed_pair rng b c k :
  known_findings rng b →
  not_empty (unanalysed (pa_occ (pair_at (collect b rng) k)) (analysedKinds c)) = false ↔ pair_analysed rng b c k.
Proof.
  intros Hk. unfold not_empty. rewrite negb_false_iff, String.eqb_eq, unanalysed_spec.
  - unfold pair_analysed. setoid_rewrite pair_at_occ. split.
    + intros Ho f Hf Hs Hkey. apply (Ho (occurrence_of f)). naive_solver.
    + intros Hf o (f & ? & ? & ? & ->). by apply (Hf f).
  - apply Forall_forall. intros o (f & Hf & Hs & _ & ->)%pair_at_occ. cbn. intros E.
    apply (Hk f Hf Hs). by rewrite E.
Qed.

Lemma verdict_key_baseline bm k : verdict_key (baseline_verdict bm k) = k.
Proof. by destruct k. Qed.

Lemma verdict_key_pair bm cm pkgs kinds k : verdict_key (compare_pair bm cm pkgs kinds k) = k.
Proof. unfold compare_pair. destruct k, (cm !! _); [done|]. by destruct (not_empty _). Qed.

Lemma keys_fmap {A} (f : A → VulnVerdict) (g : A → verdictKey) (l : list A) :
  (∀ x, verdict_key (f x) = g x) → verdict_key <$> (f <$> l) = g <$> l.
Proof. intros Hf. rewrite <- list_fmap_compose. apply list_fmap_ext. intros i x _. apply Hf. Qed.

(** What the comparison says of one pair of the baseline. *)
Lemma compare_pair_outcome rng b c pkgs k :
  known_findings rng b →
  let v := compare_pair (collect b rng) (collect c rng) pkgs (analysedKinds c) k in
  (reported rng c k → vv_Outcome v = OutcomeRemaining) ∧
  (¬ reported rng c k → pair_analysed rng b c k → vv_Outcome v = OutcomeResolved) ∧
  (¬ reported rng c k → ¬ pair_analysed rng b c k →
     vv_Outcome v = OutcomeUnknown ∧ vv_Reason v = ReasonTypeNotAnalysed).
Proof.
  intros Hk. cbv zeta. unfold compare_pair. pose proof (unanalysed_pair rng b c k Hk) as Hu.
  destruct (collect c rng !! k) as [acc|] eqn:E.
  - assert (reported rng c k) by (apply collect_reported; by rewrite E). tauto.
  - apply collect_absent in E. destruct (not_empty _); [|naive_solver].
    split; [done|]. split; [|done]. intros _ Hp. by apply Hu in Hp.
Qed.

Lemma Compare_not_comparable b c :
  ¬ comparable_scans b c →
  vf_Comparable (Compare b c) = false ∧ vf_Introduced (Compare b c) = [] ∧
  ∀ v, v ∈ vf_Verdicts (Compare b c) →
    vv_Outcome v = OutcomeUnknown ∧ reported (evaluated b c) (sr_Scan b) (verdict_key v).
Proof.
  intros Hn. unfold Compare. fold (evaluated b c). pose proof (checks_none b c) as Hc.
  destruct (first_some (checks (evaluated b c) b c)) as [[reason detail]|]; [|by destruct Hn; apply Hc].
  unfold notComparable. destruct (sn_Err (sr_Scan b)); cbn; [by split_and!; [..|intros v ?%elem_of_nil]|].
  split_and!; [done..|]. intros v (k & -> & Hk%elem_of_sortedKeys)%list_elem_of_fmap. split; [done|].
  change (verdict_key _) with (verdict_key (baseline_verdict (collect (sr_Scan b) (evaluated b c)) k)).
  rewrite verdict_key_baseline. by apply collect_reported.
Qed.

(** The verdicts of scans that are compared. *)
Lemma Compare_comparable b c :
  comparable_scans b c →
  let r := Compare b c in let rng := evaluated b c in
  vf_Comparable r = true ∧
  NoDup (verdict_key <$> vf_Verdicts r) ∧ NoDup (verdict_key <$> vf_Introduced r) ∧
  (∀ k, k ∈ verdict_key <$> vf_Verdicts r ↔ reported rng (sr_Scan b) k) ∧
  (∀ k, k ∈ verdict_key <$> vf_Introduced r ↔ reported rng (sr_Scan c) k ∧ ¬ reported rng (sr_Scan b) k) ∧
  (∀ v, v ∈ vf_Verdicts r → let k := verdict_key v in
    (reported rng (sr_Scan c) k → vv_Outcome v = OutcomeRemaining) ∧
    (¬ reported rng (sr_Scan c) k → pair_analysed rng (sr_Scan b) (sr_Scan c) k → vv_Outcome v = OutcomeResolved) ∧
    (¬ reported rng (sr_Scan c) k → ¬ pair_analysed rng (sr_Scan b) (sr_Scan c) k →
      vv_Outcome v = OutcomeUnknown ∧ vv_Reason v = ReasonTypeNotAnalysed)).
Proof.
  intros Hc. cbv zeta. pose proof (cs_baseline_types _ _ Hc) as Hk. apply checks_none in Hc.
  unfold Compare. fold (evaluated b c). rewrite Hc. set (rng := evaluated b c) in *. cbn.
  rewrite (keys_fmap _ id) by (intros; apply verdict_key_pair).
  rewrite (keys_fmap _ id) by (by intros []). rewrite !list_fmap_id.
  split; [done|]. split; [apply NoDup_sortedKeys|]. split; [apply NoDup_filter, NoDup_sortedKeys|].
  split; [intros k; by rewrite elem_of_sortedKeys, collect_reported|].
  split; [intros k; rewrite list_elem_of_filter, elem_of_sortedKeys, collect_reported, collect_absent; tauto|].
  intros v (k & -> & Hin)%list_elem_of_fmap. rewrite verdict_key_pair. by apply compare_pair_outcome.
Qed.

End verdicts.

Lemma Compare_order `{GoUnicodeUpper, GoQuote} R1 R2 b c : @Compare _ _ R1 b c = @Compare _ _ R2 b c.
Proof. unfold Compare, notComparable. by rewrite !(sortedKeys_order R1 R2). Qed.

(** ** Coverage *)

Section coverage.
Implicit Types (t : Target) (v : VulnVerdict) (vs : list VulnVerdict).

Definition target_key t : verdictKey := mk_vkey (tg_VulnID t) (tg_Package t).

Lemma same_pair_iff t v : same_pair t v = true ↔ verdict_key v = target_key t.
Proof.
  unfold same_pair. rewrite andb_true_iff, String.eqb_eq, bool_decide_eq_true.
  destruct v, t. unfold verdict_key, target_key. cbn. split; [by intros [-> ->]|by intros [= -> ->]].
Qed.

Lemma mark_unknown_key t v : verdict_key (mark_unknown t v) = verdict_key v.
Proof. unfold mark_unknown. by destruct (same_pair t v). Qed.

(** One target: its pair is unknown afterwards, whatever it was, and every
    other verdict is as it was. *)
Lemma cover_target_other vs t v : verdict_key v ≠ target_key t → v ∈ cover_target vs t ↔ v ∈ vs.
Proof.
  intros Hne. unfold cover_target.
  assert (v ∈ mark_unknown t <$> vs ↔ v ∈ vs) as Hm.
  { rewrite list_elem_of_fmap. unfold mark_unknown. split.
    - intros (u & E & Hu). destruct (same_pair t u) eqn:Es; [|by rewrite E]. apply same_pair_iff in Es.
      by rewrite E in Hne.
    - intros Hv. exists v. split; [|done]. destruct (same_pair t v) eqn:Es; [by apply same_pair_iff in Es|done]. }
  destruct (existsb _ vs); [done|]. rewrite elem_of_app, Hm, list_elem_of_singleton. split; [|by left].
  intros [?| ->]; [done|]. by destruct Hne.
Qed.

Lemma cover_target_unknown vs t v :
  v ∈ cover_target vs t → verdict_key v = target_key t → vv_Outcome v = OutcomeUnknown.
Proof.
  unfold cover_target. intros Hv E.
  assert (v ∈ mark_unknown t <$> vs ∨ vv_Outcome v = OutcomeUnknown) as [(u & -> & Hu)%list_elem_of_fmap|?]; [|..|done].
  { destruct (existsb _ vs); [by left|]. apply elem_of_app in Hv as [Hv| ->%list_elem_of_singleton]; [by left|by right]. }
  rewrite mark_unknown_key in E. unfold mark_unknown. by rewrite (proj2 (same_pair_iff t u) E).
Qed.

Lemma cover_target_keys vs t k :
  k ∈ verdict_key <$> cover_target vs t ↔ k = target_key t ∨ k ∈ verdict_key <$> vs.
Proof.
  assert (verdict_key <$> (mark_unknown t <$> vs) = verdict_key <$> vs) as Hm.
  { rewrite <- list_fmap_compose. apply list_fmap_ext. intros i v _. apply mark_unknown_key. }
  unfold cover_target. destruct (existsb (same_pair t) vs) eqn:E.
  - rewrite Hm. split; [by right|]. intros [->|]; [|done]. apply existsb_exists in E as (v & Hv & Hs).
    apply same_pair_iff in Hs as <-. apply list_elem_of_fmap. exists v. by rewrite list_elem_of_In.
  - rewrite fmap_app, Hm, elem_of_app. cbn. rewrite list_elem_of_singleton. unfold target_key, verdict_key. cbn. tauto.
Qed.

(** The whole loop over the gaps. *)
Lemma cover_fold gaps vs :
  let vs' := foldl cover_target vs gaps in
  (∀ k, k ∈ verdict_key <$> vs' ↔ k ∈ target_key <$> gaps ∨ k ∈ verdict_key <$> vs) ∧
  (∀ v, v ∈ vs' → verdict_key v ∈ target_key <$> gaps → vv_Outcome v = OutcomeUnknown) ∧
  (∀ v, verdict_key v ∉ target_key <$> gaps → v ∈ vs' ↔ v ∈ vs).
Proof.
  cbv zeta. revert vs. induction gaps as [|t gaps IH]; intros vs; cbn [foldl].
  { split_and!; [set_solver|by intros v _ ?%elem_of_nil|done]. }
  destruct (IH (cover_target vs t)) as (I1 & I2 & I3). clear IH. cbn [fmap list_fmap]. split_and!.
  - intros k. rewrite I1, cover_target_keys, elem_of_cons. tauto.
  - intros v Hv Hk. destruct (decide (verdict_key v ∈ target_key <$> gaps)) as [Hg|Hg]; [by apply I2|].
    apply I3 in Hv; [|done]. apply elem_of_cons in Hk as [Hk|?]; [|done]. by eapply cover_target_unknown.
  - intros v [Hne Hg]%not_elem_of_cons. rewrite I3 by done. by apply cover_target_other.
Qed.

(** A pair is covered when both scans listed packages of every type that one
    of its targets was reported in. *)
Definition covered (targets : list Target) (b c : ImageScan) (k : verdictKey) : Prop :=
  ∀ t typ, t ∈ targets → target_key t = k → typ ∈ tg_Types t →
    analysed_kind b typ (pc_Class (tg_Package t)) ∧ analysed_kind c typ (pc_Class (tg_Package t)).

Definition gaps_of (targets : list Target) (b c : ImageScan) : list Target :=
  filter (λ t, has_gap [analysedKinds b; analysedKinds c] t = true) targets.

Lemma gaps_covered targets b c k : k ∉ target_key <$> gaps_of targets b c ↔ covered targets b c k.
Proof.
  unfold gaps_of, covered. split.
  - intros Hn t typ Ht <- Htyp. rewrite <- !analysedKinds_spec.
    destruct (has_gap [analysedKinds b; analysedKinds c] t) eqn:Eg.
    { destruct Hn. apply list_elem_of_fmap. exists t. split; [done|]. by apply list_elem_of_filter. }
    apply not_true_iff_false in Eg. unfold has_gap in Eg. rewrite existsb_exists in Eg.
    split; apply dec_stable; intros Hni; apply Eg; exists typ; (split; [by apply list_elem_of_In|]); cbn;
      rewrite (bool_decide_eq_false_2 _ Hni); cbn; rewrite ?orb_true_r; done.
  - intros Hc (t & -> & [Hg Ht]%list_elem_of_filter)%list_elem_of_fmap. unfold has_gap in Hg.
    apply existsb_exists in Hg as (typ & Htyp%list_elem_of_In & Hg).
    destruct (Hc t typ Ht eq_refl Htyp) as [Hb%analysedKinds_spec Hc'%analysedKinds_spec]. cbn in Hg.
    rewrite !bool_decide_eq_true_2 in Hg by done. done.
Qed.

Lemma ApplyCoverage_fields r targets b c :
  vf_Comparable (ApplyCoverage r targets b c) = vf_Comparable r ∧
  vf_Introduced (ApplyCoverage r targets b c) = vf_Introduced r ∧
  vf_Reason (ApplyCoverage r targets b c) = vf_Reason r.
Proof. unfold ApplyCoverage. destruct (negb _); [done|]. by destruct (length _ =? 0). Qed.

Lemma ApplyCoverage_verdicts r targets b c :
  vf_Comparable r = true →
  let vs := vf_Verdicts (ApplyCoverage r targets b c) in
  (∀ k, k ∈ verdict_key <$> vs ↔
     ¬ covered targets (sr_Scan b) (sr_Scan c) k ∨ k ∈ verdict_key <$> vf_Verdicts r) ∧
  (∀ v, v ∈ vs → ¬ covered targets (sr_Scan b) (sr_Scan c) (verdict_key v) → vv_Outcome v = OutcomeUnknown) ∧
  (∀ v, covered targets (sr_Scan b) (sr_Scan c) (verdict_key v) → v ∈ vs ↔ v ∈ vf_Verdicts r).
Proof.
  intros Hc. cbv zeta. unfold ApplyCoverage. rewrite Hc. cbn [negb].
  fold (gaps_of targets (sr_Scan b) (sr_Scan c)). setoid_rewrite <- gaps_covered.
  set (gaps := gaps_of _ _ _) in *.
  assert (vf_Verdicts (if length gaps =? 0 then r else r <| vf_Verdicts := foldl cover_target (vf_Verdicts r) gaps |>) =
    foldl cover_target (vf_Verdicts r) gaps) as -> by (by destruct gaps).
  destruct (cover_fold gaps (vf_Verdicts r)) as (H1 & H2 & H3).
  assert (∀ k : verdictKey, ¬ (k ∉ target_key <$> gaps) ↔ k ∈ target_key <$> gaps) as Hdn.
  { intros k. split; [apply dec_stable|by intros ? ?]. }
  split_and!; [intros k; by rewrite H1, Hdn|intros v Hv Hk; apply H2; [done|by apply Hdn]|done].
Qed.
End coverage.

(** ** The comparison as a whole *)

(** C33: What an update is said to do is what the two scans show, and nothing is
    claimed of scans that cannot be compared. Both scans are compared exactly
    when each confirmed its image and kept its whole package list, they ran
    under the same known conditions on the same known platform, and every type
    of package in question is a known one. Then each pair of vulnerability and
    package the running image reported has one verdict: "remaining" exactly
    when the candidate reports it too, "resolved" exactly when it does not and
    its scan looked at every kind of package the finding was in, and otherwise
    "unknown"; and the introduced pairs are exactly those of the candidate
    alone. Otherwise every verdict is "unknown" and nothing is introduced. *)
Theorem Compare_exact `{GoUnicodeUpper, GoQuote, MapRange} b c :
  let r := Compare b c in let rng := evaluated b c in
  (vf_Comparable r = true ↔ comparable_scans b c) ∧
  (comparable_scans b c →
    NoDup (verdict_key <$> vf_Verdicts r) ∧ NoDup (verdict_key <$> vf_Introduced r) ∧
    (∀ k, k ∈ verdict_key <$> vf_Verdicts r ↔ reported rng (sr_Scan b) k) ∧
    (∀ k, k ∈ verdict_key <$> vf_Introduced r ↔ reported rng (sr_Scan c) k ∧ ¬ reported rng (sr_Scan b) k) ∧
    ∀ v, v ∈ vf_Verdicts r → let k := verdict_key v in
      (reported rng (sr_Scan c) k → vv_Outcome v = OutcomeRemaining) ∧
      (¬ reported rng (sr_Scan c) k → pair_analysed rng (sr_Scan b) (sr_Scan c) k → vv_Outcome v = OutcomeResolved) ∧
      (¬ reported rng (sr_Scan c) k → ¬ pair_analysed rng (sr_Scan b) (sr_Scan c) k →
        vv_Outcome v = OutcomeUnknown ∧ vv_Reason v = ReasonTypeNotAnalysed)) ∧
  (¬ comparable_scans b c →
    vf_Introduced r = [] ∧
    ∀ v, v ∈ vf_Verdicts r → vv_Outcome v = OutcomeUnknown ∧ reported rng (sr_Scan b) (verdict_key v)).
Proof.
  cbv zeta. pose proof (checks_none b c) as Hc.
  assert (comparable_scans b c ∨ ¬ comparable_scans b c) as Hdec.
  { rewrite <- Hc. destruct (first_some _); [by right|by left]. }
  split; [|split].
  - split.
    + intros Hv. destruct Hdec as [?|Hn]; [done|]. apply Compare_not_comparable in Hn as (E & _ & _). congruence.
    + intros Hs. by apply Compare_comparable.
  - intros Hs. by apply Compare_comparable.
  - intros Hn. by apply Compare_not_comparable in Hn as (_ & ? & ?).
Qed.
