(* ===== verification/Adopt.v ===== *)
(** * Adopt: whether an update is proposed

    internal/remediation/adopt.go: the targets an update is to fix
    ([SelectTargets]) and the rule by which a comparison justifies proposing a
    candidate ([Decide]), with the theorem that a proposal is exactly what the
    two scans justify. *)

From Stdlib Require Import ZArith Lia Bool Ascii String List Permutation Sorting.Sorted.
From stdpp Require Import base countable gmap strings list.
From S2P Require Import Prelude GoStrings GoTime Reference Inventory Triage Report Build Compare.

Open Scope string_scope.
Open Scope Z_scope.
Open Scope nat_scope.
Open Scope list_scope.
Open Scope kl_scope.

(** ** Data *)

(** [Priority] has the values of the triage layer. *)
Definition Priority_Rank (p : string) : nat :=
  if String.eqb p PriorityActNow then 3
  else if String.eqb p PriorityWatch then 2
  else if String.eqb p PriorityLow then 1
  else 0.

Record VulnIntel := mk_vuln_intel { vi_Priority : string; vi_KEV : bool }.

(** A nil function is [None]; the flag is the second result. *)
Definition IntelFunc : Type := option (string → VulnIntel * bool).

Definition intel_lookup (f : IntelFunc) (id : string) : VulnIntel * bool :=
  match f with None => (mk_vuln_intel "" false, false) | Some f => f id end.

#[export] Instance eta_Target : Eta Target := λ r,
  mk_target (tg_VulnID r) (tg_Package r) (tg_Severity r) (tg_FixedVers r) (tg_Priority r) (tg_KEV r)
    (tg_Types r) (tg_Layers r).

(** ** Targets *)

Definition containsString (s : list string) (v : string) : bool := existsb (λ e, String.eqb e v) s.

Definition add_new (s : list string) (v : string) : list string := if containsString s v then s else s ++ [v].

Definition new_target (intel : IntelFunc) (f : Finding) : Target :=
  let t := mk_target (fi_VulnID f) (coordOf f) (fi_Severity f) [] "" false [] [] in
  let '(found, ok) := intel_lookup intel (fi_VulnID f) in
  if ok then t <| tg_Priority := vi_Priority found |> <| tg_KEV := vi_KEV found |> else t.

Definition extend_target (t : Target) (f : Finding) : Target :=
  let t := t <| tg_FixedVers := add_new (tg_FixedVers t) (fi_FixedVer f) |> in
  if not_empty (fi_Type f) then t <| tg_Types := add_new (tg_Types t) (fi_Type f) |> else t.

Definition fixable (f : Finding) : bool := String.eqb (fi_Status f) StatusFixed && not_empty (fi_FixedVer f).

Definition select_step (intel : IntelFunc) (acc : gmap verdictKey Target * list verdictKey) (f : Finding)
    : gmap verdictKey Target * list verdictKey :=
  let '(idx, order) := acc in
  if negb (fixable f) then (idx, order)
  else
    let k := keyOf f in
    match idx !! k with
    | Some t => (<[k := extend_target t f]> idx, order)
    | None => (<[k := extend_target (new_target intel f) f]> idx, order ++ [k])
    end.

Definition sort_target (t : Target) : Target :=
  t <| tg_FixedVers := sort_strings (tg_FixedVers t) |> <| tg_Types := sort_strings (tg_Types t) |>.

Definition less_target (a b : Target) : bool :=
  if negb (Priority_Rank (tg_Priority a) =? Priority_Rank (tg_Priority b))
  then Priority_Rank (tg_Priority b) <? Priority_Rank (tg_Priority a)
  else if negb (String.eqb (tg_VulnID a) (tg_VulnID b)) then str_lt (tg_VulnID a) (tg_VulnID b)
  else str_lt (pc_Name (tg_Package a)) (pc_Name (tg_Package b)).

Definition SelectTargets (findings : list Finding) (intel : IntelFunc) : list Target :=
  let '(idx, order) := foldl (select_step intel) (∅, []) findings in
  sort_by less_target (sort_target <$> omap (λ k, idx !! k) order).

Definition maxTargetPriority (ts : list Target) : string :=
  foldl (λ max t, if Priority_Rank max <? Priority_Rank (tg_Priority t) then tg_Priority t else max) PriorityNone ts.

(** ** Decisions *)

Definition DecisionAdopt : string := "adopt".
Definition DecisionAdoptPartial : string := "adopt_partial".
Definition DecisionNotResolving : string := "not_resolving".
Definition DecisionIntroduced : string := "introduced".
Definition DecisionNewKEV : string := "new_kev".
Definition DecisionAnalysisIncomplete : string := "analysis_incomplete".
Definition DecisionTargetsNotDetected : string := "targets_not_detected".
Definition DecisionNotComparable : string := "not_comparable".

Record Decision := mk_decision {
  dc_Kind : string; dc_Propose : bool;
  dc_Targets : nat; dc_Resolved : nat; dc_Remaining : nat; dc_Unknown : nat; dc_Undetected : nat;
  dc_Introduced : nat;
  dc_IntroducedKEV : list string; dc_IntroducedTopPriority : string; dc_IntroducedUnknownIntel : nat;
  dc_Note : string }.

#[export] Instance eta_Decision : Eta Decision := λ r,
  mk_decision (dc_Kind r) (dc_Propose r) (dc_Targets r) (dc_Resolved r) (dc_Remaining r) (dc_Unknown r)
    (dc_Undetected r) (dc_Introduced r) (dc_IntroducedKEV r) (dc_IntroducedTopPriority r)
    (dc_IntroducedUnknownIntel r) (dc_Note r).

Definition zero_decision : Decision := mk_decision "" false 0 0 0 0 0 0 [] "" 0 "".

(** The map of outcomes; the absent ones read as the zero value. *)
Definition outcomes_of (vs : list VulnVerdict) : gmap verdictKey string :=
  foldl (λ m v, <[mk_vkey (vv_VulnID v) (vv_Package v) := vv_Outcome v]> m) ∅ vs.

Definition count_target (outcomes : gmap verdictKey string) (d : Decision) (t : Target) : Decision :=
  let o := default "" (outcomes !! mk_vkey (tg_VulnID t) (tg_Package t)) in
  if String.eqb o OutcomeResolved then d <| dc_Resolved := S (dc_Resolved d) |>
  else if String.eqb o OutcomeRemaining then d <| dc_Remaining := S (dc_Remaining d) |>
  else if String.eqb o OutcomeUnknown then d <| dc_Unknown := S (dc_Unknown d) |>
  else d <| dc_Undetected := S (dc_Undetected d) |>.

Definition count_introduced (intel : IntelFunc) (acc : Decision * gset string) (v : VulnVerdict)
    : Decision * gset string :=
  let '(d, kev) := acc in
  let '(found, ok) := intel_lookup intel (vv_VulnID v) in
  if negb ok then (d <| dc_IntroducedUnknownIntel := S (dc_IntroducedUnknownIntel d) |>, kev)
  else
    let d := if Priority_Rank (dc_IntroducedTopPriority d) <? Priority_Rank (vi_Priority found)
             then d <| dc_IntroducedTopPriority := vi_Priority found |> else d in
    if vi_KEV found && negb (bool_decide (vv_VulnID v ∈ kev))
    then (d <| dc_IntroducedKEV := dc_IntroducedKEV d ++ [vv_VulnID v] |>, {[vv_VulnID v]} ∪ kev)
    else (d, kev).

(** The final switch. *)
Definition decision_kind (d : Decision) : Decision :=
  if 0 <? length (dc_IntroducedKEV d) then d <| dc_Kind := DecisionNewKEV |>
  else if 0 <? dc_Introduced d then d <| dc_Kind := DecisionIntroduced |>
  else if dc_Targets d =? 0 then d <| dc_Kind := DecisionNotResolving |>
  else if 0 <? dc_Unknown d then d <| dc_Kind := DecisionAnalysisIncomplete |>
  else if (dc_Resolved d =? 0) && (dc_Remaining d =? 0) then d <| dc_Kind := DecisionTargetsNotDetected |>
  else if dc_Resolved d =? 0 then d <| dc_Kind := DecisionNotResolving |>
  else if dc_Resolved d <? dc_Targets d then d <| dc_Kind := DecisionAdoptPartial |> <| dc_Propose := true |>
  else d <| dc_Kind := DecisionAdopt |> <| dc_Propose := true |>.

Definition Decide (targets : list Target) (vr : VerificationResult) (intel : IntelFunc) : Decision :=
  let d := zero_decision <| dc_Targets := length targets |> in
  if negb (vf_Comparable vr) then d <| dc_Kind := DecisionNotComparable |> <| dc_Note := vf_Reason vr |>
  else
    let d := foldl (count_target (outcomes_of (vf_Verdicts vr))) d targets in
    let d := d <| dc_Introduced := length (vf_Introduced vr) |> in
    let '(d, _) := foldl (count_introduced intel) (d, ∅) (vf_Introduced vr) in
    let d := d <| dc_IntroducedKEV := sort_strings (dc_IntroducedKEV d) |> in
    decision_kind d.

(** ** Outcomes of targets *)

Lemma outcomes_of_spec vs k :
  (∀ o, outcomes_of vs !! k = Some o → ∃ v, v ∈ vs ∧ verdict_key v = k ∧ vv_Outcome v = o) ∧
  (is_Some (outcomes_of vs !! k) ↔ k ∈ verdict_key <$> vs).
Proof.
  unfold outcomes_of. induction vs as [|v vs [IH1 IH2]] using rev_ind.
  { cbn [foldl]. rewrite lookup_empty. split; [done|]. cbn. split; [by intros [? ?]|by intros ?%elem_of_nil]. }
  rewrite foldl_app. cbn [foldl]. rewrite fmap_app, elem_of_app. cbn [fmap list_fmap]. rewrite list_elem_of_singleton.
  fold (verdict_key v). destruct (decide (verdict_key v = k)) as [<-|Hne].
  - rewrite lookup_insert_eq. split; [|by split; [right|]]. intros o [= <-]. exists v.
    rewrite elem_of_app, list_elem_of_singleton. tauto.
  - rewrite lookup_insert_ne by done. rewrite IH2. split; [|split; [by left|]].
    + intros o (u & Hu & ?)%IH1. exists u. rewrite elem_of_app. tauto.
    + intros [?| ->]; [done|]. by destruct Hne.
Qed.

Definition outcome_of (m : gmap verdictKey string) (t : Target) : string := default "" (m !! target_key t).

Lemma count_targets m ts d :
  let d' := foldl (count_target m) d ts in
  dc_Resolved d' = dc_Resolved d + length (filter (λ t, outcome_of m t = OutcomeResolved) ts) ∧
  dc_Unknown d' = dc_Unknown d + length (filter (λ t, outcome_of m t = OutcomeUnknown) ts) ∧
  dc_Resolved d' + dc_Remaining d' + dc_Unknown d' + dc_Undetected d' =
    dc_Resolved d + dc_Remaining d + dc_Unknown d + dc_Undetected d + length ts ∧
  dc_Targets d' = dc_Targets d ∧ dc_Introduced d' = dc_Introduced d ∧ dc_IntroducedKEV d' = dc_IntroducedKEV d ∧
  dc_Propose d' = dc_Propose d ∧ dc_Kind d' = dc_Kind d.
Proof.
  cbv zeta. revert d. induction ts as [|t ts IH]; intros d; cbn [foldl]; [cbn; split_and!; (done || lia)|].
  destruct (IH (count_target m d t)) as (I1 & I2 & I3 & -> & -> & -> & -> & ->). rewrite I3, I1, I2. clear.
  unfold count_target. change (default "" (m !! mk_vkey (tg_VulnID t) (tg_Package t))) with (outcome_of m t).
  destruct (String.eqb_spec (outcome_of m t) OutcomeResolved) as [E|E].
  { rewrite (filter_cons_True _ t) by done. rewrite (filter_cons_False _ t) by (by rewrite E). cbn. split_and!; (done || lia). }
  rewrite (filter_cons_False _ t) by done.
  destruct (String.eqb_spec (outcome_of m t) OutcomeRemaining) as [E1|E1].
  { rewrite (filter_cons_False _ t) by (by rewrite E1). cbn. split_and!; (done || lia). }
  destruct (String.eqb_spec (outcome_of m t) OutcomeUnknown) as [E2|E2].
  - rewrite (filter_cons_True _ t) by done. cbn. split_and!; (done || lia).
  - rewrite (filter_cons_False _ t) by done. cbn. split_and!; (done || lia).
Qed.

Lemma count_introduced_fields intel acc l :
  let d := acc.1 in let d' := (foldl (count_introduced intel) acc l).1 in
  dc_Introduced d' = dc_Introduced d ∧ dc_Propose d' = dc_Propose d.
Proof.
  cbv zeta. split; apply (foldl_same (count_introduced intel) (λ p, _ p.1)); intros [d kev] v; unfold count_introduced;
    destruct (intel_lookup _ _) as [found ok]; destruct (negb ok); try done;
    destruct (_ <? _), (vi_KEV found && _); done.
Qed.

Lemma count_introduced_counts intel acc l :
  let d := acc.1 in let d' := (foldl (count_introduced intel) acc l).1 in
  dc_Unknown d' = dc_Unknown d ∧ dc_Resolved d' = dc_Resolved d ∧ dc_Targets d' = dc_Targets d ∧
  dc_Introduced d' = dc_Introduced d.
Proof.
  cbv zeta. split_and!; apply (foldl_same (count_introduced intel) (λ p, _ p.1)); intros [d kev] v; unfold count_introduced;
    destruct (intel_lookup _ _) as [found ok]; destruct (negb ok); try done;
    destruct (_ <? _), (vi_KEV found && _); done.
Qed.

Lemma decision_kind_propose d :
  dc_Propose d = false → dc_IntroducedKEV d = [] → dc_Introduced d = 0 → dc_Resolved d ≤ dc_Targets d →
  (dc_Propose (decision_kind d) = true ↔ dc_Unknown d = 0 ∧ dc_Resolved d ≠ 0) ∧
  (dc_Kind (decision_kind d) = DecisionAdopt ↔
    dc_Unknown d = 0 ∧ dc_Resolved d ≠ 0 ∧ dc_Resolved d = dc_Targets d).
Proof.
  intros Hp Hk Hi Hle. unfold decision_kind. rewrite Hk, Hi.
  change (0 <? length (@nil string)) with false. change (0 <? 0) with false. cbv iota.
  destruct (Nat.eqb_spec (dc_Targets d) 0); [cbn; rewrite Hp; split; split; (done || lia)|].
  destruct (Nat.ltb_spec 0 (dc_Unknown d)); [cbn; rewrite Hp; split; split; (done || lia)|].
  destruct (Nat.eqb_spec (dc_Resolved d) 0); cbn [andb].
  { destruct (dc_Remaining d =? 0); cbn; rewrite Hp; split; split; (done || lia). }
  destruct (Nat.ltb_spec (dc_Resolved d) (dc_Targets d)); cbn; split; split; (done || lia).
Qed.

Lemma decision_kind_blocked d :
  dc_Propose d = false → dc_Introduced d ≠ 0 →
  dc_Propose (decision_kind d) = false ∧ dc_Kind (decision_kind d) ≠ DecisionAdopt.
Proof.
  intros Hp Hi. unfold decision_kind. destruct (0 <? length _); [done|].
  destruct (Nat.ltb_spec 0 (dc_Introduced d)); [done|lia].
Qed.

(** ** What a proposal stands on *)

Section justified.
Context `{GoUnicodeUpper, GoQuote, MapRange}.
Context (targets : list Target) (b c : ScanRecord).

(** The scans speak about the target: its kinds of package were listed on
    both sides, and if it is gone, the candidate was searched for it. *)
Definition judged (t : Target) : Prop :=
  let k := target_key t in let rng := evaluated b c in
  covered targets (sr_Scan b) (sr_Scan c) k ∧
  (reported rng (sr_Scan b) k → ¬ reported rng (sr_Scan c) k → pair_analysed rng (sr_Scan b) (sr_Scan c) k).

(** The target is fixed: reported of the running image, and not of the
    candidate though it was searched for. *)
Definition fixed (t : Target) : Prop :=
  let k := target_key t in let rng := evaluated b c in
  judged t ∧ reported rng (sr_Scan b) k ∧ ¬ reported rng (sr_Scan c) k.

Lemma outcome_at t (Hc : comparable_scans b c) :
  let o := outcome_of (outcomes_of (vf_Verdicts (ApplyCoverage (Compare b c) targets b c))) t in
  (o = OutcomeUnknown → ¬ judged t) ∧ (o ≠ OutcomeUnknown → judged t) ∧ (o = OutcomeResolved ↔ fixed t).
Proof.
  cbv zeta. unfold fixed, judged. set (k := target_key t). set (rng := evaluated b c).
  destruct (Compare_comparable b c Hc) as (Hcmp & _ & _ & Hkeys & _ & Hout). fold rng in Hkeys, Hout.
  destruct (ApplyCoverage_verdicts (Compare b c) targets b c Hcmp) as (A1 & A2 & A3).
  set (vs := vf_Verdicts (ApplyCoverage _ _ _ _)) in *.
  unfold outcome_of. fold k. destruct (outcomes_of_spec vs k) as [O1 O2].
  destruct (decide (k ∈ target_key <$> gaps_of targets (sr_Scan b) (sr_Scan c))) as [Hg|Hg].
  { assert (¬ covered targets (sr_Scan b) (sr_Scan c) k) as Hn by (by rewrite <- gaps_covered; intros ?).
    destruct (outcomes_of vs !! k) as [o|] eqn:Eo.
    - destruct (O1 o eq_refl) as (v & Hv & Hk & <-). rewrite <- Hk in Hn. pose proof (A2 v Hv Hn) as E.
      rewrite Hk in Hn. cbn [default]. unfold id. rewrite E. split_and!; try split; (done || tauto).
    - assert (k ∉ verdict_key <$> vs) as Hni by (by rewrite <- O2; intros [? ?]). destruct Hni. apply A1. by left. }
  apply gaps_covered in Hg. destruct (outcomes_of vs !! k) as [o|] eqn:Eo; unfold default, id.
  - destruct (O1 o eq_refl) as (v & Hv & Hk & <-). apply A3 in Hv; [|by rewrite Hk].
    assert (reported rng (sr_Scan b) k) as Hb.
    { apply Hkeys. rewrite <- Hk. apply list_elem_of_fmap. by exists v. }
    destruct (Hout v Hv) as (P1 & P2 & P3). rewrite Hk in P1, P2, P3.
    assert (reported rng (sr_Scan c) k ∨ ¬ reported rng (sr_Scan c) k) as [Hr|Hr] by
      (rewrite <- collect_reported; destruct (collect (sr_Scan c) rng !! k); [left; by eexists|right; by intros [? ?]]).
    + rewrite (P1 Hr). split_and!; try split; (done || tauto).
    + pose proof (unanalysed_pair rng (sr_Scan b) (sr_Scan c) k (cs_baseline_types _ _ Hc)) as Hu.
      destruct (not_empty _).
      * destruct (P3 Hr) as [-> _]; [naive_solver|]. split_and!; try split; (done || naive_solver).
      * rewrite (P2 Hr) by (by apply Hu). split_and!; try split; (done || naive_solver).
  - assert (¬ reported rng (sr_Scan b) k) as Hb.
    { intros Hb. apply Hkeys in Hb. assert (k ∈ verdict_key <$> vs) as Hin by (apply A1; by right).
      apply O2 in Hin as [? ?]. done. }
    split_and!; try split; (done || tauto).
Qed.

Lemma outcome_counts (Hc : comparable_scans b c) :
  let m := outcomes_of (vf_Verdicts (ApplyCoverage (Compare b c) targets b c)) in
  (length (filter (λ t, outcome_of m t = OutcomeUnknown) targets) = 0 ↔ ∀ t, t ∈ targets → judged t) ∧
  (length (filter (λ t, outcome_of m t = OutcomeResolved) targets) ≠ 0 ↔ ∃ t, t ∈ targets ∧ fixed t) ∧
  (length (filter (λ t, outcome_of m t = OutcomeResolved) targets) = length targets ↔ ∀ t, t ∈ targets → fixed t).
Proof.
  cbv zeta. set (m := outcomes_of _).
  assert (∀ t, (outcome_of m t = OutcomeUnknown → ¬ judged t) ∧ (outcome_of m t ≠ OutcomeUnknown → judged t) ∧
    (outcome_of m t = OutcomeResolved ↔ fixed t)) as Ho by (intros t; by apply outcome_at).
  clearbody m. split_and!.
  - pose proof (length_filter_pos (λ t, outcome_of m t = OutcomeUnknown) targets) as Hp. rewrite Exists_exists in Hp.
    split.
    + intros E t Ht. destruct (Ho t) as (_ & Hj & _). apply Hj. intros Hu.
      enough (0 < length (filter (λ t, outcome_of m t = OutcomeUnknown) targets)) by lia. apply Hp. by exists t.
    + intros Hj. destruct (length _); [done|]. destruct (proj1 Hp ltac:(lia)) as (t & Ht & Hu).
      destruct (Ho t) as [Hn _]. by destruct (Hn Hu (Hj t Ht)).
  - pose proof (length_filter_pos (λ t, outcome_of m t = OutcomeResolved) targets) as Hp. rewrite Exists_exists in Hp.
    split.
    + intros E. destruct (proj1 Hp ltac:(lia)) as (t & Ht & Hr). exists t. split; [done|]. by apply Ho.
    + intros (t & Ht & Hf). enough (0 < length (filter (λ t, outcome_of m t = OutcomeResolved) targets)) by lia.
      apply Hp. exists t. split; [done|]. by apply Ho.
  - rewrite (length_filter_full (λ t, outcome_of m t = OutcomeResolved)), Forall_forall.
    split; intros Hf t Ht; by apply Ho, Hf.
Qed.

(** The decision over a valid comparison. *)
Lemma Decide_comparable intel (Hc : comparable_scans b c) :
  let vr := ApplyCoverage (Compare b c) targets b c in let d := Decide targets vr intel in
  (vf_Introduced vr ≠ [] → dc_Propose d = false ∧ dc_Kind d ≠ DecisionAdopt) ∧
  (vf_Introduced vr = [] →
    (dc_Propose d = true ↔ (∀ t, t ∈ targets → judged t) ∧ ∃ t, t ∈ targets ∧ fixed t) ∧
    (dc_Kind d = DecisionAdopt ↔ targets ≠ [] ∧ ∀ t, t ∈ targets → fixed t)).
Proof.
  cbv zeta. set (vr := ApplyCoverage _ _ _ _). destruct (ApplyCoverage_fields (Compare b c) targets b c) as (F1 & _ & _).
  fold vr in F1. assert (vf_Comparable vr = true) as Hcmp by (rewrite F1; by apply Compare_comparable).
  destruct (outcome_counts Hc) as (C1 & C2 & C3). fold vr in C1, C2, C3.
  unfold Decide. rewrite Hcmp. cbn [negb].
  destruct (count_targets (outcomes_of (vf_Verdicts vr)) targets (zero_decision <| dc_Targets := length targets |>))
    as (T1 & T2 & T3 & T4 & T5 & T6 & T7 & T8).
  set (d1 := foldl (count_target _) _ _) in *. cbn in T1, T2, T3, T4, T5, T6, T7, T8. clearbody d1.
  split; intros Hi.
  - destruct (count_introduced_fields intel (d1 <| dc_Introduced := length (vf_Introduced vr) |>, ∅) (vf_Introduced vr))
      as [G1 G2]. destruct (foldl (count_introduced intel) _ _) as [d2 kev]. cbn in G1, G2.
    apply decision_kind_blocked; cbn; [by rewrite G2|]. rewrite G1. by destruct (vf_Introduced vr).
  - rewrite Hi. cbn [foldl length]. set (d2 := _ <| dc_IntroducedKEV := _ |>).
    destruct (decision_kind_propose d2) as [-> ->]; cbn; try done.
    + by rewrite T6.
    + rewrite T1, T4. apply length_filter.
    + rewrite T1, T2, T4, C1, C2, C3. split; [done|]. split.
      * intros (_ & (t & Ht & _) & Hf). split; [|done]. intros ->. by apply elem_of_nil in Ht.
      * intros [Hne Hf]. destruct targets as [|t ts]; [done|].
        split; [intros u Hu; by apply Hf|]. split; [|done]. exists t. split; [left|]. apply Hf. left.
Qed.

Lemma introduced_none (Hc : comparable_scans b c) :
  vf_Introduced (ApplyCoverage (Compare b c) targets b c) = [] ↔
  ∀ k, reported (evaluated b c) (sr_Scan c) k → reported (evaluated b c) (sr_Scan b) k.
Proof.
  destruct (ApplyCoverage_fields (Compare b c) targets b c) as (_ & -> & _).
  destruct (Compare_comparable b c Hc) as (_ & _ & _ & _ & Hk & _). split.
  - intros E k Hr. rewrite E in Hk. destruct (collect (sr_Scan b) (evaluated b c) !! k) as [acc|] eqn:El.
    + apply collect_reported. by rewrite El.
    + apply collect_absent in El. by destruct (not_elem_of_nil k); apply Hk.
  - intros Hr. destruct (vf_Introduced _) as [|v l]; [done|].
    destruct (proj1 (Hk (verdict_key v))) as [Hr1 Hr2]; [left|]. by destruct Hr2; apply Hr.
Qed.

End justified.

(** The candidate reports no pair that the running image does not. *)
Definition nothing_new `{GoUnicodeUpper} (b c : ScanRecord) : Prop :=
  ∀ k, reported (evaluated b c) (sr_Scan c) k → reported (evaluated b c) (sr_Scan b) k.

(** What the two scans have to show for an update. *)
Definition update_justified `{GoUnicodeUpper} (targets : list Target) (b c : ScanRecord) : Prop :=
  comparable_scans b c ∧ nothing_new b c ∧
  (∀ t, t ∈ targets → judged targets b c t) ∧ ∃ t, t ∈ targets ∧ fixed targets b c t.

Lemma Decide_iff `{GoUnicodeUpper, GoQuote, MapRange} targets b c intel :
  let d := Decide targets (ApplyCoverage (Compare b c) targets b c) intel in
  (dc_Propose d = true ↔ update_justified targets b c) ∧
  (dc_Kind d = DecisionAdopt ↔
    comparable_scans b c ∧ nothing_new b c ∧ targets ≠ [] ∧ ∀ t, t ∈ targets → fixed targets b c t).
Proof.
  cbv zeta. unfold update_justified, nothing_new. set (vr := ApplyCoverage _ _ _ _).
  assert (comparable_scans b c ∨ ¬ comparable_scans b c) as [Hc|Hn].
  { rewrite <- checks_none. destruct (first_some _); [by right|by left]. }
  - destruct (Decide_comparable targets b c intel Hc) as [Hsome Hnone]. fold vr in Hsome, Hnone.
    pose proof (introduced_none targets b c Hc) as Hi. fold vr in Hi.
    destruct (vf_Introduced vr) as [|v l].
    + destruct (Hnone eq_refl) as [-> ->]. tauto.
    + destruct (Hsome ltac:(done)) as [Hp Hk]. split; (split; [congruence|]); intros (_ & Hnew & _); by apply Hi in Hnew.
  - assert (vf_Comparable vr = false) as E.
    { destruct (ApplyCoverage_fields (Compare b c) targets b c) as (F & _ & _). fold vr in F. rewrite F.
      by apply Compare_not_comparable. }
    unfold Decide. rewrite E. cbn. split; split; (done || tauto).
Qed.

(** The counts of a decision over a valid comparison. *)
Lemma Decide_counts `{GoUnicodeUpper, GoQuote, MapRange} targets b c intel (Hc : comparable_scans b c) :
  let d := Decide targets (ApplyCoverage (Compare b c) targets b c) intel in
  (dc_Unknown d = 0 ↔ ∀ t, t ∈ targets → judged targets b c t) ∧
  (dc_Resolved d ≠ 0 ↔ ∃ t, t ∈ targets ∧ fixed targets b c t) ∧
  (dc_Resolved d = dc_Targets d ↔ ∀ t, t ∈ targets → fixed targets b c t) ∧
  dc_Resolved d ≤ dc_Targets d ∧
  (dc_Introduced d = 0 ↔ nothing_new b c) ∧ (dc_Introduced d = 0 → dc_IntroducedKEV d = []).
Proof.
  cbv zeta. pose proof (introduced_none targets b c Hc) as Hi. set (vr := ApplyCoverage _ _ _ _) in *.
  destruct (ApplyCoverage_fields (Compare b c) targets b c) as (F1 & _ & _). fold vr in F1.
  assert (vf_Comparable vr = true) as Hcmp by (rewrite F1; by apply Compare_comparable).
  destruct (outcome_counts targets b c Hc) as (C1 & C2 & C3). fold vr in C1, C2, C3.
  unfold Decide. rewrite Hcmp. cbn [negb].
  destruct (count_targets (outcomes_of (vf_Verdicts vr)) targets (zero_decision <| dc_Targets := length targets |>))
    as (T1 & T2 & T3 & T4 & T5 & T6 & T7 & T8).
  set (d1 := foldl (count_target _) _ _) in *. cbn in T1, T2, T3, T4, T5, T6, T7, T8. clearbody d1.
  pose proof (count_introduced_counts intel (d1 <| dc_Introduced := length (vf_Introduced vr) |>, ∅) (vf_Introduced vr)) as G.
  assert (Hk : vf_Introduced vr = [] →
    dc_IntroducedKEV (foldl (count_introduced intel) (d1 <| dc_Introduced := length (vf_Introduced vr) |>, ∅) (vf_Introduced vr)).1 = [])
    by (intros ->; exact T6).
  destruct (foldl (count_introduced intel) _ _) as [d2 kev]. cbn in G, Hk. destruct G as (G1 & G2 & G3 & G4).
  set (d3 := d2 <| dc_IntroducedKEV := sort_strings (dc_IntroducedKEV d2) |>).
  assert (E : ∀ d, dc_Unknown (decision_kind d) = dc_Unknown d ∧ dc_Resolved (decision_kind d) = dc_Resolved d ∧
    dc_Targets (decision_kind d) = dc_Targets d ∧ dc_Introduced (decision_kind d) = dc_Introduced d ∧
    dc_IntroducedKEV (decision_kind d) = dc_IntroducedKEV d).
  { intros d. unfold decision_kind. repeat match goal with |- context [if ?b then _ else _] => destruct b end; done. }
  destruct (E d3) as (-> & -> & -> & -> & ->). subst d3. cbn. rewrite G1, G2, G3, G4, T1, T2, T4. cbn.
  rewrite C1, C2, C3, <- Hi. split_and!; try done.
  - apply length_filter.
  - by destruct (vf_Introduced vr).
  - intros Hz. rewrite Hk; [done|]. by destruct (vf_Introduced vr).
Qed.

Lemma Decide_kind_propose targets vr intel :
  dc_Kind (Decide targets vr intel) = DecisionAdopt ∨ dc_Kind (Decide targets vr intel) = DecisionAdoptPartial →
  dc_Propose (Decide targets vr intel) = true.
Proof.
  unfold Decide. destruct (vf_Comparable vr); cbn [negb]; [|by intros [|]].
  destruct (foldl (count_introduced _) _ _) as [d kev]. unfold decision_kind.
  repeat match goal with |- context [if ?b then _ else _] => destruct b end; cbn; naive_solver.
Qed.

(** C8: An update is proposed exactly when the two scans justify it. Whatever
    targets were fixed beforehand, the decision on the covered comparison of
    the running image and the candidate is to propose it exactly when the scans
    can be compared, the candidate reports no pair of vulnerability and package
    that the running image does not, every target can be judged (both scans
    listed packages of every type it was reported in, and a target that is gone
    was searched for), and at least one target is fixed; and it is a full
    adoption exactly when, besides, all of them are. So a finding that is
    missing because it was not looked for never speaks for an update. *)
Theorem Decide_justified `{GoUnicodeUpper, GoQuote, MapRange} targets b c intel :
  let d := Decide targets (ApplyCoverage (Compare b c) targets b c) intel in
  let nothing_new := ∀ k, reported (evaluated b c) (sr_Scan c) k → reported (evaluated b c) (sr_Scan b) k in
  (dc_Propose d = true ↔
    comparable_scans b c ∧ nothing_new ∧
    (∀ t, t ∈ targets → judged targets b c t) ∧ ∃ t, t ∈ targets ∧ fixed targets b c t) ∧
  (dc_Kind d = DecisionAdopt ↔
    comparable_scans b c ∧ nothing_new ∧ targets ≠ [] ∧ ∀ t, t ∈ targets → fixed targets b c t).
Proof. exact (Decide_iff targets b c intel). Qed.

(** ** The targets of a scan *)

Section select.
Context (intel : IntelFunc).

Lemma containsString_iff s v : containsString s v = true ↔ v ∈ s.
Proof.
  unfold containsString. rewrite existsb_exists. setoid_rewrite <- list_elem_of_In. setoid_rewrite String.eqb_eq.
  naive_solver.
Qed.

Lemma add_new_spec s v : NoDup s → NoDup (add_new s v) ∧ ∀ x, x ∈ add_new s v ↔ x ∈ s ∨ x = v.
Proof.
  intros Hs. unfold add_new. pose proof (containsString_iff s v) as Hc. destruct (containsString s v).
  - split; [done|]. intros x. split; [by left|]. intros [?| ->]; [done|]. by apply Hc.
  - split.
    + apply NoDup_app. split; [done|]. split; [|apply NoDup_singleton]. intros x Hx ->%list_elem_of_singleton.
      by apply Hc in Hx.
    + intros x. by rewrite elem_of_app, list_elem_of_singleton.
Qed.

(** The fixable findings of a pair. *)
Definition fixable_of (l : list Finding) (k : verdictKey) : list Finding :=
  filter (λ f, fixable f = true ∧ keyOf f = k) l.

(** What a target gathers from the findings of its pair. *)
Record gathers (k : verdictKey) (fs : list Finding) (t : Target) : Prop := {
  ga_key : target_key t = k;
  ga_fixed : ∀ v, v ∈ tg_FixedVers t ↔ v ∈ fi_FixedVer <$> fs;
  ga_fixed_nodup : NoDup (tg_FixedVers t);
  ga_types : ∀ y, y ∈ tg_Types t ↔ y ≠ "" ∧ y ∈ fi_Type <$> fs;
  ga_types_nodup : NoDup (tg_Types t);
  ga_severity : Some (tg_Severity t) = fi_Severity <$> head fs;
  ga_intel : (tg_Priority t, tg_KEV t) =
    (let '(found, ok) := intel_lookup intel (vk_vuln k) in if ok then (vi_Priority found, vi_KEV found) else ("", false));
}.

Lemma new_target_fields f :
  let t := new_target intel f in
  target_key t = keyOf f ∧ tg_FixedVers t = [] ∧ tg_Types t = [] ∧ tg_Severity t = fi_Severity f ∧
  (tg_Priority t, tg_KEV t) =
    (let '(found, ok) := intel_lookup intel (fi_VulnID f) in if ok then (vi_Priority found, vi_KEV found) else ("", false)).
Proof. unfold new_target. destruct (intel_lookup _ _) as [found [|]]; by split_and!. Qed.

Lemma extend_target_fields t f :
  target_key (extend_target t f) = target_key t ∧
  tg_FixedVers (extend_target t f) = add_new (tg_FixedVers t) (fi_FixedVer f) ∧
  tg_Types (extend_target t f) = (if not_empty (fi_Type f) then add_new (tg_Types t) (fi_Type f) else tg_Types t) ∧
  tg_Severity (extend_target t f) = tg_Severity t ∧ tg_Priority (extend_target t f) = tg_Priority t ∧
  tg_KEV (extend_target t f) = tg_KEV t.
Proof. unfold extend_target. by destruct (not_empty _). Qed.

(** Extending by one more finding of the pair. *)
Lemma extend_gathers k fs t f :
  NoDup (tg_FixedVers t) → NoDup (tg_Types t) → target_key t = k →
  (∀ v, v ∈ tg_FixedVers t ↔ v ∈ fi_FixedVer <$> fs) →
  (∀ y, y ∈ tg_Types t ↔ y ≠ "" ∧ y ∈ fi_Type <$> fs) →
  Some (tg_Severity t) = fi_Severity <$> head (fs ++ [f]) →
  (tg_Priority t, tg_KEV t) =
    (let '(found, ok) := intel_lookup intel (vk_vuln k) in if ok then (vi_Priority found, vi_KEV found) else ("", false)) →
  gathers k (fs ++ [f]) (extend_target t f).
Proof.
  intros Hf Ht Hk H1 H2 H3 H4. destruct (extend_target_fields t f) as (E1 & E2 & E3 & E4 & E5 & E6).
  destruct (add_new_spec (tg_FixedVers t) (fi_FixedVer f) Hf) as [N1 N2].
  destruct (add_new_spec (tg_Types t) (fi_Type f) Ht) as [M1 M2].
  split; rewrite ?E1, ?E2, ?E3, ?E4, ?E5, ?E6; try done.
  - intros v. rewrite N2, H1, fmap_app, elem_of_app. cbn. by rewrite list_elem_of_singleton.
  - intros y. rewrite fmap_app, elem_of_app. cbn. rewrite list_elem_of_singleton. unfold not_empty.
    destruct (String.eqb_spec (fi_Type f) "") as [->|]; cbn [negb]; rewrite ?M2, H2; naive_solver.
  - by destruct (not_empty _).
Qed.

Lemma fixable_snoc l f k :
  fixable_of (l ++ [f]) k = if decide (fixable f = true ∧ keyOf f = k) then fixable_of l k ++ [f] else fixable_of l k.
Proof.
  unfold fixable_of. rewrite filter_app. destruct (decide (fixable f = true ∧ keyOf f = k)).
  - by rewrite (filter_cons_True _ f).
  - rewrite (filter_cons_False _ f) by done. apply List.app_nil_r.
Qed.

Lemma select_fold l :
  let '(idx, order) := foldl (select_step intel) (∅, []) l in
  NoDup order ∧ (∀ k, k ∈ order ↔ is_Some (idx !! k)) ∧
  ∀ k, match idx !! k with None => fixable_of l k = [] | Some t => gathers k (fixable_of l k) t end.
Proof.
  induction l as [|f l IH] using rev_ind.
  { cbn. split_and!; [constructor| |]; intros k; rewrite lookup_empty; [|done]. split; [by intros ?%elem_of_nil|by intros [? ?]]. }
  rewrite foldl_app. cbn [foldl]. destruct (foldl _ _ l) as [idx order]. destruct IH as (Hnd & Hord & Hidx).
  unfold select_step. destruct (fixable f) eqn:Ef; cbn [negb].
  2: { split_and!; [done..|]. intros k. rewrite fixable_snoc, decide_False by (intros [? _]; congruence). apply Hidx. }
  assert (∀ k t', match <[keyOf f := t']> idx !! k with
    | None => fixable_of (l ++ [f]) k = [] | Some t => gathers k (fixable_of (l ++ [f]) k) t end ↔
    k ≠ keyOf f ∨ gathers (keyOf f) (fixable_of l (keyOf f) ++ [f]) t') as Hins.
  { intros k t'. rewrite fixable_snoc. destruct (decide (k = keyOf f)) as [->|Hk].
    - rewrite lookup_insert_eq, decide_True by done. naive_solver.
    - rewrite lookup_insert_ne, decide_False by naive_solver. split; [by left|]. intros _. apply Hidx. }
  pose proof (Hidx (keyOf f)) as Hf. destruct (idx !! keyOf f) as [t|] eqn:Et.
  - split_and!; [done| |].
    + intros k. rewrite Hord. destruct (decide (k = keyOf f)) as [->|Hk].
      * rewrite lookup_insert_eq, Et. split; by eexists.
      * by rewrite lookup_insert_ne.
    + intros k. apply Hins. right. destruct Hf. apply extend_gathers; try done. by destruct (fixable_of l _).
  - assert (keyOf f ∉ order) as Hni by (rewrite Hord, Et; by intros [? ?]). split_and!.
    + apply NoDup_app. split; [done|]. split; [|apply NoDup_singleton]. by intros x Hx ->%list_elem_of_singleton.
    + intros k. rewrite elem_of_app, list_elem_of_singleton, Hord. destruct (decide (k = keyOf f)) as [->|Hk].
      * rewrite lookup_insert_eq. split; [by eexists|by right].
      * rewrite lookup_insert_ne by done. naive_solver.
    + intros k. apply Hins. right. rewrite Hf. destruct (new_target_fields f) as (T1 & T2 & T3 & T4 & T5).
      apply extend_gathers; rewrite ?T2, ?T3, ?T4; try done; try constructor; set_solver.
Qed.

Definition cmp_target : Target → Target → comparison :=
  cmp_then (cmp_flip (cmp_on (λ t, Priority_Rank (tg_Priority t)) Nat.compare))
  (cmp_then (cmp_on tg_VulnID str_cmp) (cmp_on (λ t, pc_Name (tg_Package t)) str_cmp)).

#[export] Instance cmp_target_order : CmpOrder cmp_target.
Proof.
  apply cmp_then_order; [apply cmp_flip_order, cmp_on_order, nat_cmp_order|].
  apply cmp_then_order; apply cmp_on_order, str_cmp_order.
Qed.

Lemma less_target_cmp a b : less_target a b = less_of cmp_target a b.
Proof.
  unfold less_target. rewrite (str_last (pc_Name (tg_Package a))), !str_step.
  unfold less_of, cmp_target, cmp_then, cmp_flip, cmp_on.
  destruct (Nat.compare_spec (Priority_Rank (tg_Priority b)) (Priority_Rank (tg_Priority a))) as [E|E|E];
    rewrite ?E, ?Nat.eqb_refl; cbn [negb lexc]; [done|..];
    rewrite (proj2 (Nat.eqb_neq _ _)) by lia; cbn [negb]; [by apply Nat.ltb_lt|by apply Nat.ltb_ge, Nat.lt_le_incl].
Qed.

#[export] Instance less_target_weak : StrictWeak less_target.
Proof.
  destruct (less_of_strict_weak cmp_target _) as [H1 H2].
  split; intros *; rewrite !less_target_cmp; [apply H1|apply H2].
Qed.

Lemma less_target_rank a b : less_target b a = false → Priority_Rank (tg_Priority b) ≤ Priority_Rank (tg_Priority a).
Proof.
  unfold less_target. destruct (Nat.eqb_spec (Priority_Rank (tg_Priority b)) (Priority_Rank (tg_Priority a))) as [->|];
    cbn [negb]; [done|]. by intros ?%Nat.ltb_ge.
Qed.

Lemma selected_targets l :
  ∃ ts, SelectTargets l intel = sort_by less_target (sort_target <$> ts) ∧
    NoDup (target_key <$> ts) ∧ (∀ k, k ∈ target_key <$> ts ↔ fixable_of l k ≠ []) ∧
    ∀ t, t ∈ ts → gathers (target_key t) (fixable_of l (target_key t)) t.
Proof.
  unfold SelectTargets. pose proof (select_fold l) as Hf. destruct (foldl _ _ l) as [idx order].
  destruct Hf as (Hnd & Hord & Hidx). exists (omap (λ k, idx !! k) order). split; [done|].
  assert (target_key <$> omap (λ k, idx !! k) order = order) as Ek.
  { assert (∀ k, k ∈ order → is_Some (idx !! k)) as Hs by (intros k; apply Hord). clear Hnd Hord.
    induction order as [|k order IH]; [done|]. destruct (Hs k) as [t Et]; [left|]. cbn. rewrite Et. cbn.
    pose proof (Hidx k) as Hk. rewrite Et in Hk. rewrite (ga_key _ _ _ Hk). f_equal. apply IH. intros k' ?. apply Hs. by right. }
  rewrite Ek. split; [done|]. split.
  - intros k. rewrite Hord. pose proof (Hidx k) as Hk. destruct (idx !! k) as [t|].
    + split; [|by eexists]. intros _ E. pose proof (ga_severity _ _ _ Hk) as Hs. by rewrite E in Hs.
    + rewrite Hk. split; [by intros [? ?]|done].
  - intros t (k & Hk & Et)%list_elem_of_omap. pose proof (Hidx k) as Hg. rewrite Et in Hg.
    by rewrite (ga_key _ _ _ Hg).
Qed.
End select.

Lemma in_fixable l k f : f ∈ fixable_of l k ↔ f ∈ l ∧ fixable f = true ∧ keyOf f = k.
Proof. unfold fixable_of. rewrite list_elem_of_filter. tauto. Qed.

Lemma fixable_some l k : fixable_of l k ≠ [] ↔ ∃ f, f ∈ l ∧ fixable f = true ∧ keyOf f = k.
Proof.
  setoid_rewrite <- in_fixable. split.
  - destruct (fixable_of l k) as [|f fs]; [done|]. intros _. exists f. left.
  - intros (f & Hf) E. rewrite E in Hf. by apply elem_of_nil in Hf.
Qed.

(** The targets of an update are the fixable findings, each once. There is
    one target for every pair of vulnerability and package that some finding
    with status "fixed" and a fixed version names, and no other; it carries
    every fixed version and every result type reported for the pair, sorted and
    without duplicates, and the priority the intel gives the vulnerability; and
    the list is in order of falling priority. *)
Theorem SelectTargets_exact findings intel :
  let ts := SelectTargets findings intel in
  NoDup (target_key <$> ts) ∧
  (∀ k, k ∈ target_key <$> ts ↔ ∃ f, f ∈ findings ∧ fixable f = true ∧ keyOf f = k) ∧
  (∀ t, t ∈ ts →
    (∀ v, v ∈ tg_FixedVers t ↔
      ∃ f, f ∈ findings ∧ fixable f = true ∧ keyOf f = target_key t ∧ fi_FixedVer f = v) ∧
    (∀ y, y ∈ tg_Types t ↔
      y ≠ "" ∧ ∃ f, f ∈ findings ∧ fixable f = true ∧ keyOf f = target_key t ∧ fi_Type f = y) ∧
    NoDup (tg_FixedVers t) ∧ NoDup (tg_Types t) ∧
    sorted_by str_lt (tg_FixedVers t) ∧ sorted_by str_lt (tg_Types t) ∧
    (let '(found, ok) := intel_lookup intel (tg_VulnID t) in
     tg_Priority t = (if ok then vi_Priority found else "") ∧ tg_KEV t = ok && vi_KEV found)) ∧
  StronglySorted (λ a b, Priority_Rank (tg_Priority b) ≤ Priority_Rank (tg_Priority a)) ts.
Proof.
  cbv zeta. destruct (selected_targets intel findings) as (ts & -> & Hnd & Hk & Hg).
  assert (target_key <$> (sort_target <$> ts) = target_key <$> ts) as Es by (by rewrite <- list_fmap_compose).
  assert (target_key <$> sort_by less_target (sort_target <$> ts) ≡ₚ target_key <$> ts) as Hp
    by (by rewrite sort_by_perm, Es).
  split; [by rewrite Hp|]. split; [intros k; by rewrite Hp, Hk, fixable_some|]. split.
  - intros t Ht. apply elem_of_sort_by in Ht. apply list_elem_of_fmap in Ht as (u & -> & Hu).
    destruct (Hg u Hu) as [_ G1 G2 G3 G4 _ G6]. change (target_key (sort_target u)) with (target_key u).
    unfold sort_target. cbn [tg_FixedVers tg_Types tg_Priority tg_KEV tg_VulnID upd]. split_and!.
    + intros v. rewrite elem_of_sort_strings, G1, list_elem_of_fmap. setoid_rewrite in_fixable. naive_solver.
    + intros y. rewrite elem_of_sort_strings, G3, list_elem_of_fmap. setoid_rewrite in_fixable. naive_solver.
    + by apply NoDup_sort_by.
    + by apply NoDup_sort_by.
    + apply sort_strings_sorted.
    + apply sort_strings_sorted.
    + cbn in G6. destruct (intel_lookup intel (tg_VulnID u)) as [found [|]]; by injection G6 as -> ->.
  - pose proof (sort_by_sorted less_target (H := less_target_weak) (sort_target <$> ts)) as Hs. unfold sorted_by in Hs.
    revert Hs. generalize (sort_by less_target (sort_target <$> ts)). clear. intros l Hs.
    induction Hs as [|a l Hl IH Ha]; constructor; [done|]. eapply Forall_impl; [exact Ha|]. intros x. apply less_target_rank.
Qed.

(** ** Witnesses *)

Definition example_conditions : ScanConditions :=
  mk_conditions "0.58.0" (mk_db 2 1700000000) (mk_db 1 1700000000) ["CRITICAL"; "HIGH"] "image" "aa" "bb" "cc".

Definition example_packages (version : string) : list ResultPackages :=
  [mk_result_packages "app (debian 12.5)" ClassOS "debian" [mk_package "openssl" version ""]].

Definition example_update_scan (version family : string) (findings : list Finding) : ImageScan :=
  mk_scan "app:1.2.3" false findings None "" "" (mk_subject "app:1.2.3" zero_entity true) [] true SourceLocal []
    family (mk_platform "linux" "amd64" "") (example_packages version) false zero_entity "" "".

Definition example_fixable : Finding :=
  mk_finding ClassOS "openssl" "3.0.1" "3.0.2" StatusFixed "HIGH" "CVE-2024-1" "" "" "debian" "app" "" "".

Definition example_before : ScanRecord := mk_record (example_update_scan "3.0.1" "debian" [example_fixable]) example_conditions.
Definition example_after (family : string) : ScanRecord :=
  mk_record (example_update_scan "3.0.2" family []) example_conditions.

Definition example_decision (family : string) : Decision :=
  let targets := SelectTargets [example_fixable] None in
  Decide targets (ApplyCoverage (Compare example_before (example_after family)) targets example_before (example_after family)) None.

Lemma Compare_exact_example :
  (λ v, (vv_Outcome v, vv_Disposition v)) <$> vf_Verdicts (Compare example_before (example_after "debian")) =
    [(OutcomeResolved, DispositionVersionChanged)] ∧
  (λ v, (vv_Outcome v, vv_Reason v)) <$> vf_Verdicts (Compare example_before (example_after "")) =
    [(OutcomeUnknown, ReasonTypeNotAnalysed)].
Proof. split; by vm_compute. Qed.

(** The same update is adopted, or not proposed when the candidate's operating
    system was not identified, so that its packages were not searched. *)
Lemma Decide_justified_witness :
  dc_Kind (example_decision "debian") = DecisionAdopt ∧ dc_Propose (example_decision "debian") = true ∧
  comparable_scans example_before (example_after "debian") ∧
  dc_Kind (example_decision "") = DecisionAnalysisIncomplete.
Proof.
  assert (dc_Propose (example_decision "debian") = true) as Hp by (vm_compute; reflexivity).
  split; [vm_compute; reflexivity|]. split; [exact Hp|]. split; [|vm_compute; reflexivity].
  exact (proj1 (proj1 (proj1 (Decide_justified (SelectTargets [example_fixable] None) example_before
    (example_after "debian") None)) Hp)).
Defined.
