(* ===== verification/Declared.v ===== *)
(** * Declared: what Kubernetes definitions declare for a running image

    internal/remediation/kube_plan.go: the reference a Pod spec names is
    compared with the reference the container runs under, before any candidate
    is looked up, and the pull policies are grouped into the advice that
    accompanies new content of a floating tag. *)

From Stdlib Require Import ZArith Lia Bool Ascii String List Permutation.
From stdpp Require Import base gmap strings list.
From S2P Require Import Prelude GoStrings GoRegexp Reference Inventory Compare ImageTag Adopt.

Open Scope string_scope.
Open Scope nat_scope.
Open Scope list_scope.
Open Scope kl_scope.

(** ** Declarations *)

Definition ReasonDeclaredRefMismatch : string := "declared_ref_mismatch".
Definition ReasonDeclaredRefUnavailable : string := "declared_ref_unavailable".

Record DeclaredInstance := mk_declared { di_Workload : string; di_Ref : string; di_PullPolicy : string }.

(** The tag and digest of a reference, an absent tag read as [latest] when
    there is no digest: the closure [norm]. *)
Definition ref_norm (ref : string) : string * string :=
  let tag := TagOf ref in
  let digest := DigestOf ref in
  if String.eqb tag "" && String.eqb digest "" then ("latest", digest) else (tag, digest).

Definition sameReference (a b : string) : bool :=
  match RepositoryKey a with
  | None => false
  | Some ak =>
      match RepositoryKey b with
      | None => false
      | Some bk =>
          if negb (String.eqb ak bk) then false
          else
            let '(at_, ad) := ref_norm a in
            let '(bt, bd) := ref_norm b in
            String.eqb at_ bt && String.eqb ad bd
      end
  end.

(** The reason and detail of the first declaration that stops the comparison;
    [None] when it passes. *)
Fixpoint declaredCheck (declared : list DeclaredInstance) (running : string) : option (string * string) :=
  match declared with
  | [] => None
  | d :: rest =>
      if String.eqb (di_Ref d) ""
      then Some (ReasonDeclaredRefUnavailable,
                 "the image the spec of " +:+ di_Workload d +:+
                 " names could not be read, so it is not known whether it matches the running reference")
      else if negb (sameReference (di_Ref d) running)
      then Some (ReasonDeclaredRefMismatch,
                 "the spec of " +:+ di_Workload d +:+ " names " +:+ di_Ref d +:+ " but the container runs " +:+ running)
      else declaredCheck rest running
  end.

Definition DeclaredProblems (declared : list DeclaredInstance) (running : string) : list DeclaredInstance :=
  List.filter (λ d, match declaredCheck [d] running with Some _ => true | None => false end) declared.

(** ** Pull policies *)

Definition GuidanceRestart : string := "restart_pulls".
Definition GuidanceChangeTag : string := "change_tag_or_digest".
Definition GuidanceImportToNode : string := "import_to_node".

Record PullAdvice := mk_advice { pa_Guidance : string; pa_Policy : string; pa_Workloads : list string }.

Definition effectivePullPolicy (declared : string) (ref : ImageRef) : string :=
  if existsb (String.eqb declared) ["Always"; "IfNotPresent"; "Never"] then declared
  else if String.eqb declared "" then if String.eqb (ir_Tag ref) "latest" then "Always" else "IfNotPresent"
  else "".

(** One round of the loop that fills [byPolicy]. *)
Definition policy_step (ref : ImageRef) (m : gmap string (list string)) (d : DeclaredInstance)
    : gmap string (list string) :=
  let p := effectivePullPolicy (di_PullPolicy d) ref in
  let ws := default [] (m !! p) in
  if negb (String.eqb p "") && negb (containsString ws (di_Workload d)) then <[p := ws ++ [di_Workload d]]> m else m.

Definition policy_guidance : list (string * string) :=
  [("Always", GuidanceRestart); ("IfNotPresent", GuidanceChangeTag); ("Never", GuidanceImportToNode)].

Definition pullAdvice (declared : list DeclaredInstance) (ref : ImageRef) : list PullAdvice :=
  let byPolicy := foldl (policy_step ref) ∅ declared in
  omap (λ pg,
    match default [] (byPolicy !! fst pg) with
    | [] => None
    | ws => Some (mk_advice (snd pg) (fst pg) (sort_strings ws))
    end) policy_guidance.

(** ** References *)

(** What a reference stands for: its repository key, tag and digest. *)
Definition ref_identity (ref : string) : option (string * (string * string)) :=
  k ← RepositoryKey ref; Some (k, ref_norm ref).

Lemma sameReference_spec a b :
  sameReference a b = true ↔ ∃ i, ref_identity a = Some i ∧ ref_identity b = Some i.
Proof.
  unfold sameReference, ref_identity. destruct (RepositoryKey a) as [ak|]; cbn [mbind option_bind]; [|naive_solver].
  destruct (RepositoryKey b) as [bk|]; cbn [mbind option_bind]; [|naive_solver].
  destruct (ref_norm a) as [at_ ad], (ref_norm b) as [bt bd].
  destruct (String.eqb_spec ak bk) as [->|]; cbn [negb]; [|naive_solver].
  rewrite andb_true_iff, !String.eqb_eq. naive_solver.
Qed.

(** The check passes exactly when every declaration names the image the
    container runs. *)
Lemma declaredCheck_pass declared running :
  declaredCheck declared running = None ↔
  ∀ d, d ∈ declared → di_Ref d ≠ "" ∧ sameReference (di_Ref d) running = true.
Proof.
  induction declared as [|d l IH]; cbn [declaredCheck].
  { split; [|done]. by intros _ d ?%elem_of_nil. }
  setoid_rewrite elem_of_cons.
  destruct (String.eqb_spec (di_Ref d) ""); [split; [done|naive_solver]|].
  destruct (sameReference (di_Ref d) running) eqn:E; cbn [negb].
  - rewrite IH. naive_solver.
  - split; [done|]. intros H. destruct (H d ltac:(by left)) as [_ ?]. congruence.
Qed.

Lemma DeclaredProblems_spec declared running d :
  d ∈ DeclaredProblems declared running ↔
  d ∈ declared ∧ (di_Ref d = "" ∨ sameReference (di_Ref d) running = false).
Proof.
  unfold DeclaredProblems. rewrite list_elem_of_In, filter_In, <- list_elem_of_In.
  assert (match declaredCheck [d] running with Some _ => true | None => false end = true ↔
    (di_Ref d = "" ∨ sameReference (di_Ref d) running = false)) as ->; [|done].
  cbn [declaredCheck]. destruct (String.eqb_spec (di_Ref d) ""); [naive_solver|].
  destruct (sameReference (di_Ref d) running); naive_solver.
Qed.

(** ** Advice *)

(** The workloads that run under a policy. *)
Definition policy_workloads (declared : list DeclaredInstance) (ref : ImageRef) (p : string) : list string :=
  di_Workload <$> List.filter (λ d, String.eqb (effectivePullPolicy (di_PullPolicy d) ref) p) declared.

Lemma policy_fold ref l p :
  p ≠ "" →
  let ws := default [] (foldl (policy_step ref) ∅ l !! p) in
  NoDup ws ∧ ∀ w, w ∈ ws ↔ w ∈ policy_workloads l ref p.
Proof.
  intros Hp. cbv zeta. induction l as [|d l IH] using rev_ind.
  { cbn [foldl]. rewrite lookup_empty. split; [constructor|done]. }
  rewrite foldl_app. cbn [foldl]. destruct IH as [Hn Hw]. set (m := foldl _ _ l) in *.
  assert (Happ : ∀ w, w ∈ policy_workloads (l ++ [d]) ref p ↔
    w ∈ policy_workloads l ref p ∨ effectivePullPolicy (di_PullPolicy d) ref = p ∧ w = di_Workload d).
  { intros w. unfold policy_workloads. rewrite List.filter_app, fmap_app, elem_of_app. cbn [List.filter].
    destruct (String.eqb_spec (effectivePullPolicy (di_PullPolicy d) ref) p); cbn [fmap list_fmap];
      rewrite ?list_elem_of_singleton, ?elem_of_nil; tauto. }
  unfold policy_step. set (q := effectivePullPolicy (di_PullPolicy d) ref) in *. clearbody q.
  destruct (String.eqb_spec q ""); cbn [negb andb].
  { split; [done|]. intros w. rewrite Happ, Hw. naive_solver. }
  destruct (containsString (default [] (m !! q)) (di_Workload d)) eqn:Ec; cbn [negb].
  - split; [done|]. intros w. rewrite Happ, Hw. apply containsString_iff in Ec.
    split; [by left|]. intros [?|[<- ->]]; [done|]. by apply Hw.
  - destruct (decide (q = p)) as [->|Hne].
    + rewrite lookup_insert_eq. cbn [default]. unfold id. split.
      * apply NoDup_app. split_and!; [done| |apply NoDup_singleton]. intros x Hx ->%list_elem_of_singleton.
        apply containsString_iff in Hx. unfold default, id in *. congruence.
      * intros w. rewrite Happ, elem_of_app, list_elem_of_singleton, Hw. naive_solver.
    + rewrite lookup_insert_ne by done. split; [done|]. intros w. rewrite Happ, Hw. naive_solver.
Qed.

(** The advice names each policy some workload runs under once, with the
    workloads that run under it and nothing else. *)
Lemma pullAdvice_spec declared ref p ws :
  (∃ g, mk_advice g p ws ∈ pullAdvice declared ref) →
  ws ≠ [] ∧ NoDup ws ∧ ∀ w, w ∈ ws ↔ w ∈ policy_workloads declared ref p.
Proof.
  intros (g & Hin). unfold pullAdvice in Hin. apply list_elem_of_omap in Hin as ([q h] & Hq & E). cbn [fst snd] in E.
  assert (Hne : q ≠ "").
  { intros ->. unfold policy_guidance in Hq. repeat (apply elem_of_cons in Hq as [[=]|Hq]). by apply elem_of_nil in Hq. }
  destruct (policy_fold ref declared q Hne) as [Hn Hw].
  destruct (default [] (foldl (policy_step ref) ∅ declared !! q)) as [|w0 rest]; [done|].
  injection E as <- -> <-. assert (Hp : sort_strings (w0 :: rest) ≡ₚ w0 :: rest) by apply sort_by_perm. split_and!.
  - intros E. rewrite E in Hp. by apply Permutation_nil in Hp.
  - by rewrite Hp.
  - intros w. by rewrite Hp.
Qed.
