(* ===== verification/Plan.v ===== *)
(** * Plan: what the image planner is given and what it records

    internal/remediation/plan.go, the data of planner.go, dockerfile_planner.go
    (the outcome of a step) and newer_series.go, and candidate.go: how the
    newest patch of a series is chosen from a listing. Times are numbers, nil
    pointers [None]. *)

From Stdlib Require Import ZArith Lia Bool Ascii String List.
From stdpp Require Import base gmap strings list.
From S2P Require Import Prelude GoStrings GoRegexp Reference Inventory Triage Report Build Compare ImageTag TagSeries Adopt Declared.

Open Scope string_scope.
Open Scope Z_scope.
Open Scope nat_scope.
Open Scope list_scope.
Open Scope kl_scope.

(** ** Classification (plan.go) *)

Definition PlanVersion : Z := 1.

Definition CategoryPRCandidate : string := "pr_candidate".
Definition CategoryPullAgain : string := "pull_again".
Definition CategoryManual : string := "manual".
Definition CategoryNotComparable : string := "not_comparable".
Definition CategoryDeferred : string := "deferred".
Definition CategoryNoCandidate : string := "no_candidate".
Definition CategoryExcluded : string := "excluded".
Definition CategoryFailed : string := "failed".

Definition ReasonNoNewerTag : string := "no_newer_tag".
Definition ReasonSameContent : string := "same_content".
Definition ReasonCandidateNotFixing : string := "candidate_does_not_resolve_targets".
Definition ReasonAuthRequired : string := "auth_required".
Definition ReasonPlatformNotFound : string := "platform_not_found".
Definition ReasonPlatformAmbiguous : string := "platform_ambiguous".
Definition ReasonPlatformMismatch : string := "platform_mismatch".
Definition ReasonRegistryError : string := "registry_error".
Definition ReasonTargetsNotDetected : string := "targets_not_detected_on_baseline".
Definition ReasonAnalysisIncomplete : string := "analysis_incomplete".
Definition ReasonTagListIncomplete : string := "tag_listing_incomplete".
Definition ReasonCandidateScanLimit : string := "candidate_scan_limit".
Definition ReasonBaselineRescanLimit : string := "baseline_rescan_limit".
Definition ReasonTagPageLimit : string := "tag_page_limit".
Definition ReasonRegistryBudget : string := "registry_budget_exhausted".
Definition ReasonRateLimited : string := "rate_limited".
Definition ReasonCycleDeadline : string := "cycle_deadline".
Definition ReasonNewerSeriesTagListIncomplete : string := "newer_series_tag_list_incomplete".
Definition ReasonNewerSeriesReserved : string := "newer_series_reserved".
Definition ReasonRegistryTimeout : string := "registry_timeout".
Definition ReasonLocallyBuilt : string := "locally_built".
Definition ReasonIntroducedFindings : string := "introduced_findings".
Definition ReasonIntroducedKEV : string := "introduced_kev".
Definition ReasonAdopted : string := "adopted".

(** ** Inputs and limits *)

Record ServiceRef := mk_service { sv_Project : string; sv_Service : string; sv_Container : string; sv_Workload : string }.

Definition ServiceRef_WorkloadKey (s : ServiceRef) : string :=
  if not_empty (sv_Workload s) then sv_Workload s
  else if String.eqb (sv_Project s) "" || String.eqb (sv_Service s) "" then
    if ValidContainerName (sv_Container s) then ContainerKeyPrefix +:+ sv_Container s else ""
  else "compose/" +:+ sv_Project s +:+ "/" +:+ sv_Service s.

Definition workloadKey (s : ServiceRef) : string := ServiceRef_WorkloadKey s.

Record Limits := mk_limits { lm_MaxCandidateScans : Z; lm_MaxBaselineRescans : Z; lm_MaxTagPages : Z }.

Record Usage := mk_usage {
  us_CandidateScans : Z; us_BaselineRescans : Z; us_TagPages : Z; us_RegistryRequests : Z }.
#[export] Instance eta_Usage : Eta Usage := λ r,
  mk_usage (us_CandidateScans r) (us_BaselineRescans r) (us_TagPages r) (us_RegistryRequests r).

Record ScanTarget := mk_scan_target { st_Subject : ImageSubject; st_Registry : RegistryRef; st_Source : string }.

Record ImageInput := mk_input {
  in_Scan : ImageScan; in_Conditions : ScanConditions; in_Target : ScanTarget;
  in_Services : list ServiceRef; in_Declared : list DeclaredInstance }.

(** ** What is recorded *)

Record ImageState := mk_image_state {
  im_Ref : string; im_Tag : string; im_Entity : string; im_ConfigDigest : string;
  im_ManifestDigest : string; im_TopDigest : string; im_Platform : string; im_DigestKindUnverified : bool }.
#[export] Instance eta_ImageState : Eta ImageState := λ r,
  mk_image_state (im_Ref r) (im_Tag r) (im_Entity r) (im_ConfigDigest r) (im_ManifestDigest r)
    (im_TopDigest r) (im_Platform r) (im_DigestKindUnverified r).

Definition RoleBaseline : string := "baseline".
Definition RoleCandidate : string := "candidate".

Definition DBVerified : string := "verified".
Definition DBChanged : string := "changed".
Definition DBCheckFailed : string := "check_failed".
Definition DBSupplied : string := "supplied_by_caller".
Definition DBNotChecked : string := "not_checked".

Record ScanExecution := mk_execution {
  ex_ID : string; ex_Role : string; ex_Source : string; ex_Ref : string; ex_Requested : string;
  ex_Confirmed : string; ex_ScannedAt : option Z; ex_DB : string; ex_DBCheckAt : option Z;
  ex_DBError : string; ex_Failure : string }.

(** An outcome of a step of the planning (dockerfile_planner.go). *)
Record planOutcome := mk_outcome { po_cat : string; po_reason : string; po_detail : string }.

(** ** Newer series (newer_series.go) *)

Definition NewerSeriesResolves : string := "resolves".
Definition NewerSeriesResolvesPartially : string := "resolves_partially".
Definition NewerSeriesResolvesWithNew : string := "resolves_with_new".
Definition NewerSeriesNotResolving : string := "not_resolving".
Definition NewerSeriesNotChecked : string := "not_checked".
Definition NewerSeriesNone : string := "no_newer_series".

Definition SeriesChangeMinor : string := "minor".
Definition SeriesChangeMajor : string := "major".

Record NewerSeriesCounts := mk_ns_counts {
  nc_Targets : nat; nc_Resolved : nat; nc_Remaining : nat; nc_Unknown : nat; nc_Undetected : nat;
  nc_Introduced : nat; nc_IntroducedKEV : nat }.

Record NewerSeriesCandidate := mk_ns_candidate {
  nd_Tag : string; nd_Change : string; nd_Status : string; nd_Candidate : option ImageState;
  nd_BaselineScan : string; nd_CandidateScan : string; nd_Comparison : option VerificationResult;
  nd_Counts : option NewerSeriesCounts; nd_Reason : string; nd_Detail : string; nd_kev : list string }.
#[export] Instance eta_NewerSeriesCandidate : Eta NewerSeriesCandidate := λ r,
  mk_ns_candidate (nd_Tag r) (nd_Change r) (nd_Status r) (nd_Candidate r) (nd_BaselineScan r)
    (nd_CandidateScan r) (nd_Comparison r) (nd_Counts r) (nd_Reason r) (nd_Detail r) (nd_kev r).

Record NewerSeries := mk_newer_series {
  ns_Status : string; ns_Shown : string; ns_Candidates : list NewerSeriesCandidate;
  ns_Reason : string; ns_Detail : string }.
#[export] Instance eta_NewerSeries : Eta NewerSeries := λ r,
  mk_newer_series (ns_Status r) (ns_Shown r) (ns_Candidates r) (ns_Reason r) (ns_Detail r).

(** ** Items *)

Record Item := mk_plan_item {
  it_Key : string; it_Services : list ServiceRef; it_Kind : string; it_Priority : string;
  it_Category : string; it_Reason : string; it_Detail : string;
  it_Current : ImageState; it_Candidate : option ImageState;
  it_BaselineScan : string; it_CandidateScan : string;
  it_Targets : list Target; it_Comparison : option VerificationResult; it_Decision : option Decision;
  it_Declared : list DeclaredInstance; it_Pull : list PullAdvice; it_NewerSeries : option NewerSeries }.
#[export] Instance eta_Item : Eta Item := λ r,
  mk_plan_item (it_Key r) (it_Services r) (it_Kind r) (it_Priority r) (it_Category r) (it_Reason r) (it_Detail r)
    (it_Current r) (it_Candidate r) (it_BaselineScan r) (it_CandidateScan r) (it_Targets r)
    (it_Comparison r) (it_Decision r) (it_Declared r) (it_Pull r) (it_NewerSeries r).

(** ** The newest patch of a series (candidate.go) *)

Definition SelectionFound : string := "found".
Definition SelectionNone : string := "none".
Definition SelectionIncomplete : string := "incomplete".

Record Selection := mk_selection { se_Outcome : string; se_Tag : string; se_Version : TagVersion }.

(** One round of the loop over the tags. *)
Definition select_pinned_step (cur : TagVersion) (best : Selection) (tag : string) : Selection :=
  if IsPrerelease tag then best
  else
    let '(v, ok) := ParseTagVersion tag in
    if negb ok || negb (String.eqb (tv_Prefix v) (tv_Prefix cur)) || negb (String.eqb (tv_Suffix v) (tv_Suffix cur)) ||
       negb (tv_Major v =? tv_Major cur)%Z || negb (tv_Minor v =? tv_Minor cur)%Z then best
    else if (tv_Patch v <=? tv_Patch cur)%Z then best
    else if String.eqb (se_Outcome best) SelectionNone || (tv_Patch (se_Version best) <? tv_Patch v)%Z
    then mk_selection SelectionFound tag v
    else best.

Definition SelectPinned (cur : TagVersion) (list : TagList) : Selection :=
  if tl_Truncated list then mk_selection SelectionIncomplete "" zero_tag_version
  else foldl (select_pinned_step cur) (mk_selection SelectionNone "" zero_tag_version) (tl_Tags list).

(** A tag of the series of [cur], released and of a higher patch. *)
Definition newer_patch (cur : TagVersion) (tag : string) (v : TagVersion) : Prop :=
  IsPrerelease tag = false ∧ ParseTagVersion tag = (v, true) ∧
  tv_Prefix v = tv_Prefix cur ∧ tv_Suffix v = tv_Suffix cur ∧
  tv_Major v = tv_Major cur ∧ tv_Minor v = tv_Minor cur ∧ (tv_Patch cur < tv_Patch v)%Z.

Lemma select_pinned_step_spec cur best tag :
  (∀ v, newer_patch cur tag v →
     select_pinned_step cur best tag =
     if String.eqb (se_Outcome best) SelectionNone || (tv_Patch (se_Version best) <? tv_Patch v)%Z
     then mk_selection SelectionFound tag v else best) ∧
  ((∀ v, ¬ newer_patch cur tag v) → select_pinned_step cur best tag = best).
Proof.
  unfold select_pinned_step, newer_patch. split.
  - intros v (-> & -> & -> & -> & -> & -> & Hp). rewrite !String.eqb_refl, !Z.eqb_refl. cbn [negb orb].
    by destruct (Z.leb_spec (tv_Patch v) (tv_Patch cur)); [lia|].
  - intros Hn. destruct (IsPrerelease tag); [done|]. destruct (ParseTagVersion tag) as [v []]; cbn [negb orb]; [|done].
    destruct (String.eqb_spec (tv_Prefix v) (tv_Prefix cur)); cbn [negb orb]; [|done].
    destruct (String.eqb_spec (tv_Suffix v) (tv_Suffix cur)); cbn [negb orb]; [|done].
    destruct (Z.eqb_spec (tv_Major v) (tv_Major cur)); cbn [negb orb]; [|done].
    destruct (Z.eqb_spec (tv_Minor v) (tv_Minor cur)); cbn [negb orb]; [|done].
    destruct (Z.leb_spec (tv_Patch v) (tv_Patch cur)); [done|]. destruct (Hn v). tauto.
Qed.

(** A complete listing gives the highest newer patch, and none exactly when it
    has none; a truncated one gives nothing. *)
Lemma SelectPinned_spec cur l :
  let s := SelectPinned cur l in
  (se_Outcome s = SelectionIncomplete ↔ tl_Truncated l = true) ∧
  (se_Outcome s = SelectionNone ↔ tl_Truncated l = false ∧ ∀ t v, t ∈ tl_Tags l → ¬ newer_patch cur t v) ∧
  (se_Outcome s = SelectionFound → tl_Truncated l = false ∧ se_Tag s ∈ tl_Tags l ∧
     newer_patch cur (se_Tag s) (se_Version s) ∧
     ∀ t v, t ∈ tl_Tags l → newer_patch cur t v → (tv_Patch v ≤ tv_Patch (se_Version s))%Z) ∧
  (se_Outcome s = SelectionIncomplete ∨ se_Outcome s = SelectionNone ∨ se_Outcome s = SelectionFound).
Proof.
  cbv zeta. unfold SelectPinned. destruct (tl_Truncated l); [cbn; split_and!; (done || tauto || naive_solver)|].
  induction (tl_Tags l) as [|t ts IH] using rev_ind.
  { cbn. split_and!; try done; [|tauto]. split; [|done]. intros _. split; [done|]. by intros t v ?%elem_of_nil. }
  rewrite foldl_app. cbn [foldl]. set (best := foldl _ _ ts) in *. clearbody best.
  setoid_rewrite elem_of_app. setoid_rewrite list_elem_of_singleton.
  destruct (select_pinned_step_spec cur best t) as [Hy Hn]. destruct IH as (I1 & I2 & I3 & I4).
  assert ((∃ v, newer_patch cur t v) ∨ ∀ v, ¬ newer_patch cur t v) as [(v & Hv)|Hno].
  { unfold newer_patch. destruct (IsPrerelease t); [naive_solver|]. destruct (ParseTagVersion t) as [v ok].
    destruct (decide (ok = true ∧ tv_Prefix v = tv_Prefix cur ∧ tv_Suffix v = tv_Suffix cur ∧ tv_Major v = tv_Major cur ∧
      tv_Minor v = tv_Minor cur ∧ (tv_Patch cur < tv_Patch v)%Z)); naive_solver. }
  - rewrite (Hy v Hv). assert (Huniq : ∀ w, newer_patch cur t w → w = v).
    { intros w (_ & Hw & _). destruct Hv as (_ & Hv & _). congruence. }
    destruct (String.eqb_spec (se_Outcome best) SelectionNone) as [E|E]; cbn [orb].
    + cbn. split_and!; try done; [naive_solver| |tauto]. intros _. split_and!; [done|by right|done|].
      intros t' w [Ht'| ->] Hw; [by apply I2 in E as [_ E]; destruct (E t' w)|]. rewrite (Huniq w Hw). lia.
    + assert (E' : se_Outcome best = SelectionFound) by (destruct I4 as [?|[?|?]]; [by apply I1 in H|done|done]).
      destruct (I3 E') as (_ & Hin & Hb & Hmax). destruct (Z.ltb_spec (tv_Patch (se_Version best)) (tv_Patch v)).
      * cbn. split_and!; try done; [naive_solver| |tauto]. intros _. split_and!; [done|by right|done|].
        intros t' w [Ht'| ->] Hw; [specialize (Hmax t' w Ht' Hw); lia|]. rewrite (Huniq w Hw). lia.
      * rewrite E'. split_and!; try done; [naive_solver| |tauto]. intros _. split_and!; [done|by left|done|].
        intros t' w [Ht'| ->] Hw; [by apply (Hmax t')|]. by rewrite (Huniq w Hw).
  - rewrite (Hn Hno). split_and!; [done| | |done].
    + rewrite I2. split; [|naive_solver]. intros [? Hl]. split; [done|]. intros t' w [Ht'| ->]; [by apply Hl|apply Hno].
    + intros E. destruct (I3 E) as (_ & Hin & Hb & Hmax). split_and!; [done|by left|done|].
      intros t' w [Ht'| ->] Hw; [by apply (Hmax t')|]. by destruct (Hno w).
Qed.
