(* ===== verification/Planner.v ===== *)
(** * Planner: the candidates of running images

    internal/remediation/planner.go: for every running image with a fixable
    finding the planner looks for newer content in the registry, scans it and
    the running image under equal conditions, and decides what to propose. The
    pass keeps caches (tag listings, resolutions, scans), spends limits, and
    stops registry work for good on some errors.

    The registry client, the scanner, the contexts and the clock are the
    interface [World]; what it answers may depend on its state, which is
    threaded through. An operation of the pass is a [plan]: a function of the
    pass and the world that returns [None] only when the fuel of a walk over
    tags ran out. *)

From Stdlib Require Import ZArith Lia Bool Ascii String List.
From stdpp Require Import base gmap strings list.
From S2P Require Import Prelude GoStrings GoRegexp Reference Inventory Triage Report Build Compare ImageTag TagSeries Adopt Declared Plan.

Open Scope string_scope.
Open Scope Z_scope.
Open Scope nat_scope.
Open Scope list_scope.
Open Scope kl_scope.

(** ** The other side *)

Record Resolution := mk_resolution { rs_TopDigest : string; rs_ManifestDigest : string; rs_ConfigDigest : string }.

(** The conditions [errors.Is] and [errors.As] ask an error for. *)
Inductive errKind :=
  | Canceled | DeadlineExceeded | ErrTimeout | ErrBudgetExhausted | ErrBudgetReserved
  | RateLimitedError | VariantError | AnonymousDeniedError
  | ErrAuthRequired | ErrPlatformNotFound | ErrPlatformAmbiguous | ErrPlatformMismatch.

(** The context of the cycle, and the one of a stage with an earlier deadline. *)
Inductive context := CycleContext | StageContext.

Class World (St Err : Type) := {
  Resolve : string → string → Platform → St → (Resolution * option Err) * St;
  Scan : ScanTarget → St → ImageScan * St;
  VerifyDB : ScanConditions → St → (bool * option string) * St;
  Now : St → Z * St;
  ctx_Err : context → St → option string * St;
  Budget_Used : St → Z;
  Budget_Reserve : Z → St → St;
  err_is : errKind → Err → bool;
  err_Error : Err → string
}.

(** ** The pass *)

(** What is known of a mapped workload's Compose service. *)
Inductive ComposeBuild := ComposeBuildUndetermined | ComposeBuildNone | ComposeBuildYes.
Record composeState := mk_compose { cs_build : ComposeBuild; cs_out : option planOutcome }.

Record Config := mk_config { cf_Prepared : ScanConditions; cf_Limits : Limits; cf_Intel : IntelFunc }.

(** The refusals of [NewPlanner]; [hasRegistry] and [hasScanner] tell that the
    interfaces are not nil. *)
Definition NewPlanner (hasRegistry hasScanner : bool) (cfg : Config) : option Config :=
  let l := cf_Limits cfg in
  if negb hasRegistry || negb hasScanner then None
  else if (lm_MaxCandidateScans l <? 0)%Z || (lm_MaxBaselineRescans l <? 0)%Z || (lm_MaxTagPages l <? 0)%Z then None
  else Some cfg.

Record scanned := mk_scanned { sd_rec : ScanRecord; sd_id : string }.
Record halt := mk_halt { ha_reason : string; ha_detail : string }.

Definition zero_conditions : ScanConditions := mk_conditions "" (mk_db 0 0) (mk_db 0 0) [] "" "" "" "".

Section planner.
Context {St Err : Type} `{Registry St Err} `{World St Err} (pager : option (TagPager St Err)).
Context `{GoUnicodeUpper, GoQuote, MapRange}.

Record tagEntry := mk_tag_entry { te_list : TagList; te_err : option Err; te_allowance : Z }.
Record resolveEntry := mk_resolve_entry { re_res : Resolution; re_err : option Err }.

Record run := mk_run {
  rn_ctx : context; rn_outer : option context; rn_stageIntel : IntelFunc;
  rn_tags : gmap string tagEntry; rn_fullTags : gmap string tagEntry; rn_tagUsed : gmap string Z;
  rn_resolved : gmap string resolveEntry;
  rn_cands : gmap string scanned; rn_bases : gmap string scanned;
  rn_halted : option halt;
  rn_composeBuild : gmap string composeState;
  rn_Usage : Usage; rn_Scans : list ScanExecution }.

#[export] Instance eta_run : Eta run := λ r,
  mk_run (rn_ctx r) (rn_outer r) (rn_stageIntel r) (rn_tags r) (rn_fullTags r) (rn_tagUsed r) (rn_resolved r)
    (rn_cands r) (rn_bases r) (rn_halted r) (rn_composeBuild r) (rn_Usage r) (rn_Scans r).

Definition plan (A : Type) : Type := run * St → option (A * (run * St)).

#[export] Instance plan_ret : MRet plan := λ A x s, Some (x, s).
#[export] Instance plan_bind : MBind plan := λ A B k m s, '(x, s) ← m s; k x s.

Definition ask {A} (f : run → A) : plan A := λ s, Some (f (fst s), s).
Definition change (f : run → run) : plan unit := λ s, Some (tt, (f (fst s), snd s)).
Definition call {A} (f : St → A * St) : plan A := λ s, let '(x, w) := f (snd s) in Some (x, (fst s, w)).

Context (cfg : Config).

Definition ctx_of : plan (option string) := ctx ← ask rn_ctx; call (ctx_Err ctx).

(** ** Outcomes of registry errors *)

Definition isOfficialImage (repo : string) : bool :=
  match RepositoryKey repo with Some key => has_prefix key "docker.io/library/" | None => false end.

Definition deadlineReason : plan string :=
  outer ← ask rn_outer;
  match outer with
  | None => mret ReasonCycleDeadline
  | Some ctx =>
      err ← call (ctx_Err ctx);
      mret (match err with None => ReasonNewerSeriesReserved | Some _ => ReasonCycleDeadline end)
  end.

(** The pass stops, and the outcome says why. *)
Definition halt_with (reason detail : string) : plan planOutcome :=
  _ ← change (λ r, r <| rn_halted := Some (mk_halt reason detail) |>);
  mret (mk_outcome CategoryDeferred reason detail).

(** The conditions that need the context are asked for first. *)
Definition dead_context (err : Err) : plan bool :=
  if err_is Canceled err || err_is DeadlineExceeded err then mret true
  else if err_is ErrTimeout err then e ← ctx_of; mret (match e with Some _ => true | None => false end)
  else mret false.

Definition registryOutcome (repo : string) (err : Err) : plan planOutcome :=
  dead ← dead_context err;
  if (dead : bool) then reason ← deadlineReason; halt_with reason (err_Error err)
  else if err_is ErrTimeout err then mret (mk_outcome CategoryDeferred ReasonRegistryTimeout (err_Error err))
  else if err_is ErrBudgetExhausted err then halt_with ReasonRegistryBudget "registry request budget exhausted"
  else if err_is ErrBudgetReserved err
  then halt_with ReasonNewerSeriesReserved "the registry requests left are kept for the pull request stage"
  else if err_is RateLimitedError err then halt_with ReasonRateLimited (err_Error err)
  else if err_is VariantError err then mret (mk_outcome CategoryNotComparable ReasonVariantUnsupported (err_Error err))
  else if err_is AnonymousDeniedError err && isOfficialImage repo
  then mret (mk_outcome CategoryExcluded ReasonLocallyBuilt
    (repo +:+ " names a Docker Official Image repository, which Docker Hub refuses to anonymous requests only when it does not exist, so no registry holds this image and it was built or loaded on its host"))
  else if err_is ErrAuthRequired err then mret (mk_outcome CategoryNotComparable ReasonAuthRequired (err_Error err))
  else if err_is ErrPlatformNotFound err then mret (mk_outcome CategoryNotComparable ReasonPlatformNotFound (err_Error err))
  else if err_is ErrPlatformAmbiguous err then mret (mk_outcome CategoryNotComparable ReasonPlatformAmbiguous (err_Error err))
  else if err_is ErrPlatformMismatch err then mret (mk_outcome CategoryNotComparable ReasonPlatformMismatch (err_Error err))
  else mret (mk_outcome CategoryFailed ReasonRegistryError (err_Error err)).

(** ** Items *)

Definition set_item (it : Item) (cat reason detail : string) : Item :=
  it <| it_Category := cat |> <| it_Reason := reason |> <| it_Detail := detail |>.

Definition defer0 (it : Item) (reason detail : string) : Item := set_item it CategoryDeferred reason detail.

Definition set_outcome (it : Item) (o : planOutcome) : Item := set_item it (po_cat o) (po_reason o) (po_detail o).

Definition input_ref (i : ImageInput) : string :=
  let ref := is_Ref (sn_Subject (in_Scan i)) in if String.eqb ref "" then sn_Image (in_Scan i) else ref.

Definition zero_image_state : ImageState := mk_image_state "" "" "" "" "" "" "" false.

Definition baseItem (i : ImageInput) (ref : string) (targets : list Target) : Item :=
  let s := in_Scan i in
  let key := is_Key (sn_Subject s) in
  let current := zero_image_state <| im_Ref := ref |> <| im_Entity := entityString key |> in
  let current :=
    if String.eqb (dg_Kind (ek_Digest key)) DigestConfig
    then current <| im_ConfigDigest := Digest_String (ek_Digest key) |>
                 <| im_DigestKindUnverified := String.eqb (sn_Source s) SourceLocal |>
    else current in
  let current :=
    if Platform_Known (sn_Platform s)
    then current <| im_Platform := pf_OS (sn_Platform s) +:+ "/" +:+ pf_Architecture (sn_Platform s) |>
    else current in
  mk_plan_item (ref +:+ "|" +:+ entityString key) (in_Services i) "" (maxTargetPriority targets) "" "" "" current None
    "" "" targets None None (in_Declared i) [] None.

(** [None] when the scan can be started from. *)
Definition baselineReady (s : ImageScan) : option (string * string) :=
  match sn_Err s with
  | Some e => Some (ReasonScanFailed, "baseline scan failed: " +:+ e)
  | None =>
      if negb (is_Resolved (sn_Subject s)) || negb (sn_Pinned s)
      then Some (ReasonEntityUnverified, "baseline scan did not confirm the running image")
      else if negb (Platform_Known (sn_Platform s))
      then Some (ReasonPlatformUnknown, "the platform of the baseline scan is not known")
      else if negb (String.eqb (pf_Variant (sn_Platform s)) "")
      then Some (ReasonVariantUnsupported, "the baseline platform has a variant: " +:+ pf_Variant (sn_Platform s))
      else None
  end.

(** [same], [known] and [matched]. *)
Definition sameContent (key : EntityKey) (res : Resolution) : bool * bool * string :=
  if negb (Digest_Valid (ek_Digest key)) then (false, false, "")
  else
    let d := Digest_String (ek_Digest key) in
    if String.eqb d "" then (false, false, "")
    else if String.eqb d (rs_ConfigDigest res) then (true, true, "config")
    else if String.eqb d (rs_ManifestDigest res) then (true, true, "manifest")
    else if String.eqb d (rs_TopDigest res) then (true, true, "index")
    else (false, true, "").

(** ** Images built on their host *)

Inductive localVerdict :=
  | notLocal
  | builtLocally (why : string)
  | localUnknown (out : planOutcome).

(** The loop over the services: the verdict when one has a build section, else
    the variables [unknown] and [noBuild]. *)
Fixpoint compose_builds (builds : gmap string composeState) (l : list ServiceRef) (unknown : option planOutcome)
    (noBuild : bool) : option (option planOutcome * bool) :=
  match l with
  | [] => Some (unknown, noBuild)
  | s :: l' =>
      match builds !! workloadKey s with
      | None => compose_builds builds l' unknown noBuild
      | Some st =>
          match cs_out st with
          | Some out => compose_builds builds l' (match unknown with None => Some out | Some _ => unknown end) noBuild
          | None =>
              match cs_build st with
              | ComposeBuildYes => None
              | _ => compose_builds builds l' unknown true
              end
          end
      end
  end.

(** The labels of the image name a service that runs it, and the reference is
    the name Compose gives what it builds for it. *)
Definition compose_labels (repo : string) (s : ImageScan) (services : list ServiceRef) : bool :=
  let p := sn_ComposeProject s in
  let sv := sn_ComposeService s in
  existsb (λ svc, String.eqb (sv_Project svc) p && String.eqb (sv_Service svc) sv &&
                  existsb (λ sep, String.eqb repo (p +:+ sep +:+ sv)) ["-"; "_"]) services.

Definition locallyBuilt (builds : gmap string composeState) (ref : ImageRef) (i : ImageInput) : localVerdict :=
  let s := in_Scan i in
  match compose_builds builds (in_Services i) None false with
  | None => builtLocally "its Compose service has a build section, so the running image was built on this host and is not looked up in a registry"
  | Some (unknown, noBuild) =>
      if not_empty (sn_ComposeProject s) && not_empty (sn_ComposeService s) && negb noBuild &&
         String.eqb (ir_Tag ref) "latest" && compose_labels (ir_Repository ref) s (in_Services i)
      then builtLocally ("the image carries the Docker Compose labels of project " +:+ sn_ComposeProject s +:+
             " and service " +:+ sn_ComposeService s +:+
             ", the ones of the container that runs it, and is named as Compose names an image it builds, so Compose built it on this host")
      else if negb (HasRegistryHost (ir_Repository ref)) && (length (sn_RegistryDigests s) =? 0)
      then builtLocally "the image has no registry digest and its reference names no registry, so it was built on this host and no registry holds a copy to compare with"
      else match unknown with Some out => localUnknown out | None => notLocal end
  end.

(** ** Tags *)

Definition used_pages (r : run) (repoKey : string) : Z := default 0%Z (rn_tagUsed r !! repoKey).

(** The pages of a listing are counted for its repository and the pass. *)
Definition count_pages (repoKey : string) (n : Z) (r : run) : run :=
  r <| rn_tagUsed := <[repoKey := (used_pages r repoKey + n)%Z]> (rn_tagUsed r) |>
    <| rn_Usage := rn_Usage r <| us_TagPages := (us_TagPages (rn_Usage r) + n)%Z |> |>.

Definition list_series (repo : string) (cur : TagVersion) (allowance : Z) : plan (TagList * bool * option Err) :=
  λ s, '(x, w) ← listPinnedSeries pager repo cur allowance (snd s); Some (x, (fst s, w)).

Definition halted_outcome (h : halt) : planOutcome := mk_outcome CategoryDeferred (ha_reason h) (ha_detail h).

(** The entry of the listing the patch is chosen from, or the item as it is
    left when nothing could be listed. *)
Definition series_entry (ref : ImageRef) (repoKey : string) (it : Item) : plan (Item + tagEntry) :=
  let key := match pager with Some _ => repoKey +:+ "|" +:+ seriesKey (ir_Version ref) | None => repoKey end in
  r ← ask id;
  match rn_tags r !! key with
  | Some e => mret (inr e)
  | None =>
      match rn_fullTags r !! repoKey with
      | Some e =>
          _ ← change (λ r, r <| rn_tags := <[key := e]> (rn_tags r) |>);
          mret (inr e)
      | None =>
          match rn_halted r with
          | Some h => mret (inl (set_outcome it (halted_outcome h)))
          | None =>
              let allowance := (lm_MaxTagPages (cf_Limits cfg) - used_pages r repoKey)%Z in
              if (allowance <=? 0)%Z
              then mret (inl (defer0 it ReasonTagPageLimit
                ("tag page limit of " +:+ signed_itoa (lm_MaxTagPages (cf_Limits cfg)) +:+ " reached")))
              else
                '(list, whole, err) ← list_series (ir_Repository ref) (ir_Version ref) allowance;
                let e := mk_tag_entry list err allowance in
                _ ← change (λ r, r <| rn_tags := <[key := e]> (rn_tags r) |>);
                _ ← (if (whole : bool) then change (λ r, r <| rn_fullTags := <[repoKey := e]> (rn_fullTags r) |>) else mret tt);
                _ ← change (count_pages repoKey (tl_Pages list));
                mret (inr e)
          end
      end
  end.

(** The tag to go on with, or the item as it is left. *)
Definition pinnedCandidate (ref : ImageRef) (it : Item) : plan (Item + string) :=
  match RepositoryKey (ir_Repository ref) with
  | None => mret (inl (set_item it CategoryExcluded ExcludeUnparsable "repository cannot be normalized"))
  | Some repoKey =>
      x ← series_entry ref repoKey it;
      match x with
      | inl it => mret (inl it)
      | inr e =>
          match te_err e with
          | Some err => out ← registryOutcome (ir_Repository ref) err; mret (inl (set_outcome it out))
          | None =>
              let sel := SelectPinned (ir_Version ref) (te_list e) in
              if String.eqb (se_Outcome sel) SelectionIncomplete
              then mret (inl (defer0 it
                (if (te_allowance e <=? tl_Pages (te_list e))%Z then ReasonTagPageLimit else ReasonTagListIncomplete)
                ("tag listing stopped after " +:+ signed_itoa (tl_Pages (te_list e)) +:+ " pages; newer patches cannot be ruled out")))
              else if String.eqb (se_Outcome sel) SelectionNone
              then mret (inl (set_item it CategoryNoCandidate ReasonNoNewerTag "the complete tag listing has no newer patch of this series"))
              else mret (inr (se_Tag sel))
          end
      end
  end.

(** The error is [inl]. *)
Definition fullTagList (repo : string) : plan (planOutcome + list string) :=
  match RepositoryKey repo with
  | None => mret (inl (mk_outcome CategoryExcluded ExcludeUnparsable "repository cannot be normalized"))
  | Some key =>
      r ← ask id;
      x ← (match rn_fullTags r !! key with
           | Some e => mret (inr e)
           | None =>
               match rn_halted r with
               | Some h => mret (inl (halted_outcome h))
               | None =>
                   let allowance := (lm_MaxTagPages (cf_Limits cfg) - used_pages r key)%Z in
                   if (allowance <=? 0)%Z
                   then mret (inl (mk_outcome CategoryDeferred ReasonTagPageLimit
                     ("tag page limit of " +:+ signed_itoa (lm_MaxTagPages (cf_Limits cfg)) +:+ " reached")))
                   else
                     '(list, err) ← call (ListTagsUpTo repo allowance);
                     let e := mk_tag_entry list err allowance in
                     _ ← change (λ r, r <| rn_fullTags := <[key := e]> (rn_fullTags r) |>);
                     _ ← change (count_pages key (tl_Pages list));
                     mret (inr e)
               end
           end : plan (planOutcome + tagEntry));
      match x with
      | inl out => mret (inl out)
      | inr e =>
          match te_err e with
          | Some err => out ← registryOutcome repo err; mret (inl out)
          | None =>
              if tl_Truncated (te_list e)
              then mret (inl (mk_outcome CategoryDeferred
                (if (te_allowance e <=? tl_Pages (te_list e))%Z then ReasonTagPageLimit else ReasonNewerSeriesTagListIncomplete)
                ("tag listing stopped after " +:+ signed_itoa (tl_Pages (te_list e)) +:+ " pages; tags of newer series cannot be ruled out")))
              else mret (inr (tl_Tags (te_list e)))
          end
      end
  end.

Definition platform_text (p : Platform) : string := pf_OS p +:+ "/" +:+ pf_Architecture p.

Definition resolve_key (repo tag : string) (platform : Platform) : string :=
  default "" (RepositoryKey repo) +:+ ":" +:+ tag +:+ "|" +:+ platform_text platform.

Definition resolveTag (repo tag : string) (platform : Platform) : plan (planOutcome + Resolution) :=
  let key := resolve_key repo tag platform in
  r ← ask id;
  x ← (match rn_resolved r !! key with
       | Some e => mret (inr e)
       | None =>
           match rn_halted r with
           | Some h => mret (inl (halted_outcome h))
           | None =>
               '(res, err) ← call (Resolve repo tag platform);
               let e := mk_resolve_entry res err in
               _ ← change (λ r, r <| rn_resolved := <[key := e]> (rn_resolved r) |>);
               mret (inr e)
           end
       end : plan (planOutcome + resolveEntry));
  match x with
  | inl out => mret (inl out)
  | inr e =>
      match re_err e with
      | Some err => out ← registryOutcome repo err; mret (inl out)
      | None => mret (inr (re_res e))
      end
  end.

(** ** Comparing *)

Record imageComparison := mk_comparison {
  ic_baseScan : string; ic_candScan : string; ic_vr : option VerificationResult; ic_dec : option Decision;
  ic_out : option planOutcome }.

Definition no_comparison (cat reason detail : string) : imageComparison :=
  mk_comparison "" "" None None (Some (mk_outcome cat reason detail)).

Definition intel : plan IntelFunc :=
  stage ← ask rn_stageIntel; mret (match stage with Some f => Some f | None => cf_Intel cfg end).

Definition addExecution (role : string) (rec : ScanRecord) (requested db : string) (checkedAt : option Z)
    (dbErr : string) (scannedAt : option Z) : plan string :=
  scans ← ask rn_Scans;
  let s := sr_Scan rec in
  let id := "s" +:+ signed_itoa (Z.of_nat (length scans) + 1)%Z in
  let ref := is_Ref (sn_Subject s) in
  let ex := mk_execution id role (sn_Source s) (if String.eqb ref "" then sn_Image s else ref) requested
    (if sn_Pinned s then entityString (sn_ScannedKey s) else Unconfirmed)
    scannedAt db checkedAt dbErr (default "" (sn_Err s)) in
  _ ← change (λ r, r <| rn_Scans := rn_Scans r ++ [ex] |>);
  mret id.

Definition scanUnder (role : string) (target : ScanTarget) : plan scanned :=
  scan ← call (Scan target);
  at_ ← call Now;
  let requested := if is_Resolved (st_Subject target) then entityString (is_Key (st_Subject target)) else Unconfirmed in
  match sn_Err scan with
  | Some _ =>
      let rec := mk_record scan zero_conditions in
      id ← addExecution role rec requested DBNotChecked None "" (Some at_);
      mret (mk_scanned rec id)
  | None =>
      '(ok, err) ← call (VerifyDB (cf_Prepared cfg));
      checked ← call Now;
      let '(check, dbErr, conditions) :=
        match err with
        | Some e => (DBCheckFailed, e, zero_conditions)
        | None => if negb ok then (DBChanged, "", zero_conditions)
                  else (DBVerified, "", cf_Prepared cfg)
        end in
      let rec := mk_record scan conditions in
      id ← addExecution role rec requested check (Some checked) dbErr (Some at_);
      mret (mk_scanned rec id)
  end.

Definition base_key (i : ImageInput) : string :=
  entityString (is_Key (sn_Subject (in_Scan i))) +:+ "|" +:+ st_Source (in_Target i).

Definition cand_key (repo : string) (digest : Digest) (platform : Platform) : string :=
  default "" (RepositoryKey repo) +:+ "|" +:+ entityString (mk_entity digest platform).

Definition needs_rescan (r : run) (i : ImageInput) : bool :=
  match rn_bases r !! base_key i with
  | Some _ => false
  | None => negb (ScanConditions_Known (in_Conditions i) && ScanConditions_Equal (in_Conditions i) (cf_Prepared cfg))
  end.

Definition candidate_target (repo tag : string) (digest : Digest) (platform : Platform) : ScanTarget :=
  mk_scan_target (mk_subject (repo +:+ ":" +:+ tag) (mk_entity digest platform) true)
    (mk_registry_ref repo digest) SourceRemote.

(** The baseline: rescanned, taken from the input, or from the cache. *)
Definition baseline_scan (i : ImageInput) : plan scanned :=
  r ← ask id;
  match rn_bases r !! base_key i with
  | Some base => mret base
  | None =>
      base ← (if needs_rescan r i then
                _ ← change (λ r, r <| rn_Usage := rn_Usage r <| us_BaselineRescans := (us_BaselineRescans (rn_Usage r) + 1)%Z |> |>);
                scanUnder RoleBaseline (in_Target i)
              else
                let rec := mk_record (in_Scan i) (in_Conditions i) in
                id ← addExecution RoleBaseline rec (entityString (is_Key (sn_Subject (in_Scan i)))) DBSupplied None "" None;
                mret (mk_scanned rec id));
      _ ← change (λ r, r <| rn_bases := <[base_key i := base]> (rn_bases r) |>);
      mret base
  end.

Definition candidate_scan (repo tag : string) (digest : Digest) (platform : Platform) : plan scanned :=
  r ← ask id;
  match rn_cands r !! cand_key repo digest platform with
  | Some cand => mret cand
  | None =>
      _ ← change (λ r, r <| rn_Usage := rn_Usage r <| us_CandidateScans := (us_CandidateScans (rn_Usage r) + 1)%Z |> |>);
      cand ← scanUnder RoleCandidate (candidate_target repo tag digest platform);
      _ ← change (λ r, r <| rn_cands := <[cand_key repo digest platform := cand]> (rn_cands r) |>);
      mret cand
  end.

(** Both limits are checked before either is spent. *)
Definition scan_limits (r : run) (i : ImageInput) (candKey : string) : option imageComparison :=
  let l := cf_Limits cfg in
  if needs_rescan r i && (lm_MaxBaselineRescans l <=? us_BaselineRescans (rn_Usage r))%Z
  then Some (no_comparison CategoryDeferred ReasonBaselineRescanLimit
    ("baseline rescan limit of " +:+ signed_itoa (lm_MaxBaselineRescans l) +:+ " reached"))
  else if match rn_cands r !! candKey with Some _ => false | None => true end &&
          (lm_MaxCandidateScans l <=? us_CandidateScans (rn_Usage r))%Z
  then Some (no_comparison CategoryDeferred ReasonCandidateScanLimit
    ("candidate scan limit of " +:+ signed_itoa (lm_MaxCandidateScans l) +:+ " reached"))
  else None.

Definition compareImage (i : ImageInput) (repo tag : string) (platform : Platform) (res : Resolution)
    (targets : list Target) : plan imageComparison :=
  if negb (ScanConditions_Known (cf_Prepared cfg))
  then mret (no_comparison CategoryNotComparable ReasonConditionsUnknown "the cycle has no prepared scan conditions")
  else
    let '(regDigest, ok) := ParseDigest DigestRegistry (rs_ManifestDigest res) in
    if negb ok
    then mret (no_comparison CategoryFailed ReasonRegistryError "the registry resolution has no usable manifest digest")
    else
      r ← ask id;
      match scan_limits r i (cand_key repo regDigest platform) with
      | Some c => mret c
      | None =>
          base ← baseline_scan i;
          cand ← candidate_scan repo tag regDigest platform;
          err ← ctx_of;
          match (err : option string) with
          | Some e =>
              reason ← deadlineReason;
              mret (mk_comparison (sd_id base) (sd_id cand) None None (Some (mk_outcome CategoryDeferred reason e)))
          | None =>
              lookup ← intel;
              let vr := ApplyCoverage (Compare (sd_rec base) (sd_rec cand)) targets (sd_rec base) (sd_rec cand) in
              mret (mk_comparison (sd_id base) (sd_id cand) (Some vr) (Some (Decide targets vr lookup)) None)
          end
      end.

(** [%v] of a list of strings. *)
Definition go_list (l : list string) : string := "[" +:+ join " " l +:+ "]".

Definition nat_text (n : nat) : string := signed_itoa (Z.of_nat n).

(** The switch on the decision. *)
Definition decided (i : ImageInput) (ref : ImageRef) (vr : VerificationResult) (dec : Decision) (it : Item) : Item :=
  let kind := dc_Kind dec in
  if String.eqb kind DecisionAdopt || String.eqb kind DecisionAdoptPartial then
    let it := if String.eqb (ir_Kind ref) TagPinned then it <| it_Category := CategoryPRCandidate |>
              else it <| it_Category := CategoryPullAgain |> <| it_Pull := pullAdvice (in_Declared i) ref |> in
    it <| it_Reason := ReasonAdopted |>
       <| it_Detail := if String.eqb kind DecisionAdopt
            then "all " +:+ nat_text (dc_Targets dec) +:+ " targets resolved, nothing introduced"
            else nat_text (dc_Resolved dec) +:+ " of " +:+ nat_text (dc_Targets dec) +:+ " targets resolved, " +:+
                 nat_text (dc_Remaining dec) +:+ " remain, " +:+ nat_text (dc_Undetected dec) +:+
                 " not detected on the running image, nothing introduced" |>
  else if String.eqb kind DecisionIntroduced
  then set_item it CategoryManual ReasonIntroducedFindings (nat_text (dc_Introduced dec) +:+ " findings are introduced by the candidate")
  else if String.eqb kind DecisionNewKEV
  then set_item it CategoryManual ReasonIntroducedKEV ("the candidate introduces KEV-listed vulnerabilities: " +:+ go_list (dc_IntroducedKEV dec))
  else if String.eqb kind DecisionAnalysisIncomplete
  then set_item it CategoryNotComparable ReasonAnalysisIncomplete
    (nat_text (dc_Unknown dec) +:+ " of " +:+ nat_text (dc_Targets dec) +:+
     " targets could not be judged: the candidate scan did not cover their package type")
  else if String.eqb kind DecisionTargetsNotDetected
  then set_item it CategoryNotComparable ReasonTargetsNotDetected
    ("none of the " +:+ nat_text (dc_Targets dec) +:+ " targets is shown by the baseline comparison scan")
  else if String.eqb kind DecisionNotResolving
  then set_item it CategoryNoCandidate ReasonCandidateNotFixing
    ("none of " +:+ nat_text (dc_Targets dec) +:+ " targets is resolved by the candidate")
  else set_item it (if String.eqb (vf_Reason vr) ReasonScanFailed then CategoryFailed else CategoryNotComparable)
         (vf_Reason vr) (vf_Detail vr).

(** [candTag] is the tag of the item's candidate. *)
Definition compare_item (i : ImageInput) (ref : ImageRef) (candTag : string) (platform : Platform) (res : Resolution)
    (it : Item) : plan Item :=
  c ← compareImage i (ir_Repository ref) candTag platform res (it_Targets it);
  let it := it <| it_BaselineScan := ic_baseScan c |> <| it_CandidateScan := ic_candScan c |> in
  mret (match ic_out c, ic_vr c, ic_dec c with
        | Some out, _, _ =>
            let it := set_outcome it out in
            if String.eqb (po_reason out) ReasonCycleDeadline then it <| it_Candidate := None |> else it
        | None, Some vr, Some dec =>
            decided i ref vr dec (it <| it_Comparison := Some vr |> <| it_Decision := Some dec |>)
        | _, _, _ => it (* the pointers are set together *)
        end).

(** ** One image *)

Definition candidate_state (repo tag : string) (res : Resolution) (platform : Platform) : ImageState :=
  mk_image_state (repo +:+ ":" +:+ tag) tag "" (rs_ConfigDigest res) (rs_ManifestDigest res) (rs_TopDigest res)
    (platform_text platform) false.

(** [process] once the tag to resolve is known. *)
Definition resolve_and_compare (i : ImageInput) (ref : ImageRef) (candTag : string) (it : Item) : plan Item :=
  let platform := mk_platform (pf_OS (sn_Platform (in_Scan i))) (pf_Architecture (sn_Platform (in_Scan i))) "" in
  x ← resolveTag (ir_Repository ref) candTag platform;
  match x with
  | inl out => mret (set_outcome it out)
  | inr res =>
      let '(same, known, matched) := sameContent (is_Key (sn_Subject (in_Scan i))) res in
      if negb known
      then mret (set_item it CategoryNotComparable ReasonEntityUnverified "the running entity cannot be compared with registry content")
      else if (same : bool)
      then mret (set_item it CategoryNoCandidate ReasonSameContent
        ("the candidate resolves to the content already running (the running digest equals the candidate's " +:+ matched +:+ " digest)"))
      else compare_item i ref candTag platform res
             (it <| it_Candidate := Some (candidate_state (ir_Repository ref) candTag res platform) |>)
  end.

(** What ends the processing before the registry is asked. *)
Definition rejected (builds : gmap string composeState) (i : ImageInput) (ref : ImageRef) (it : Item) : option Item :=
  match declaredCheck (in_Declared i) (im_Ref (it_Current it)) with
  | Some (reason, detail) => Some (set_item it CategoryNotComparable reason detail)
  | None =>
      if String.eqb (ir_Kind ref) TagExcluded
      then Some (set_item it CategoryExcluded (ir_Exclude ref) ("reference is not eligible for update lookup: " +:+ ir_Exclude ref))
      else
        match baselineReady (in_Scan i) with
        | Some (reason, detail) =>
            Some (set_item it (if String.eqb reason ReasonScanFailed then CategoryFailed else CategoryNotComparable) reason detail)
        | None =>
            match locallyBuilt builds ref i with
            | builtLocally why => Some (set_item it CategoryExcluded ReasonLocallyBuilt why)
            | localUnknown out => Some (set_outcome it out)
            | notLocal => None
            end
        end
  end.

Definition process (i : ImageInput) (it : Item) : plan Item :=
  let ref := ParseImageRef (im_Ref (it_Current it)) in
  let it := it <| it_Kind := ir_Kind ref |> <| it_Current := it_Current it <| im_Tag := ir_Tag ref |> |> in
  builds ← ask rn_composeBuild;
  match rejected builds i ref it with
  | Some it => mret it
  | None =>
      if String.eqb (ir_Kind ref) TagPinned then
        x ← pinnedCandidate ref it;
        match x with
        | inl it => mret it
        | inr candTag => resolve_and_compare i ref candTag it
        end
      else resolve_and_compare i ref (ir_Tag ref) it
  end.

(** ** The pass *)

Record plan_entry := mk_entry { en_in : ImageInput; en_targets : list Target; en_ref : string }.

(** The images with a target, the most urgent first. *)
Definition plan_entries (inputs : list ImageInput) : list plan_entry :=
  sort_by (λ a b, Priority_Rank (maxTargetPriority (en_targets b)) <? Priority_Rank (maxTargetPriority (en_targets a)))
    (omap (λ i,
      match SelectTargets (sn_Findings (in_Scan i)) (cf_Intel cfg) with
      | [] => None
      | ts => Some (mk_entry i ts (input_ref i))
      end) inputs).

(** One round of the loop over the entries. *)
Definition plan_entry_item (e : plan_entry) : plan Item :=
  let it := baseItem (en_in e) (en_ref e) (en_targets e) in
  err ← ctx_of;
  match (err : option string) with
  | Some msg => mret (defer0 it ReasonCycleDeadline msg)
  | None => process (en_in e) it
  end.

Fixpoint plan_items (l : list plan_entry) : plan (list Item) :=
  match l with
  | [] => mret []
  | e :: l' => it ← plan_entry_item e; items ← plan_items l'; mret (it :: items)
  end.

(** The run [Plan] starts with; [builds] is what [readComposeBuilds] found. *)
Definition new_run (builds : gmap string composeState) : run :=
  mk_run CycleContext None None ∅ ∅ ∅ ∅ ∅ ∅ None builds (mk_usage 0 0 0 0) [].

(** The images' part of [Plan]: its items, and the requests counted. *)
Definition plan_images (inputs : list ImageInput) : plan (list Item) :=
  start ← call (λ w, (Budget_Used w, w));
  items ← plan_items (plan_entries inputs);
  used ← call (λ w, (Budget_Used w, w));
  _ ← change (λ r, r <| rn_Usage := rn_Usage r <| us_RegistryRequests := (used - start)%Z |> |>);
  mret items.

End planner.
