(* ===== verification/PlannerInv.v ===== *)
(** * PlannerInv: what holds throughout a pass of the planner

    Assertions about a [plan] by preconditions and postconditions of the pass
    and the world, with one rule per construct; the invariant of the caches
    and counters of the run, kept by every operation; and that an operation
    always comes back. *)

From Stdlib Require Import ZArith Lia Bool Ascii String List.
From stdpp Require Import base gmap strings list.
From S2P Require Import Prelude GoStrings GoRegexp Decimals Reference Inventory Triage Report Build Compare ImageTag TagSeries Adopt Declared Plan Planner.

Open Scope string_scope.
Open Scope Z_scope.
Open Scope nat_scope.
Open Scope list_scope.
Open Scope kl_scope.

(** ** Assertions *)

Section logic.
Context {St Err : Type}.
Notation state := (run (Err := Err) * St)%type.
Notation plan := (plan (St := St) (Err := Err)).

Definition triple {A} (P : state → Prop) (m : plan A) (Q : A → state → Prop) : Prop :=
  ∀ s, P s → match m s with Some (x, s') => Q x s' | None => True end.

(** The operation comes back whatever the state is. *)
Definition returns {A} (m : plan A) : Prop := ∀ s, is_Some (m s).

Lemma triple_ret {A} (P : state → Prop) (x : A) (Q : A → state → Prop) :
  (∀ s, P s → Q x s) → triple P (mret x) Q.
Proof. intros H s Hs. by apply H. Qed.

Lemma triple_bind {A B} (P : state → Prop) (m : plan A) (R : A → state → Prop) (k : A → plan B) (Q : B → state → Prop) :
  triple P m R → (∀ x, triple (R x) (k x) Q) → triple P (m ≫= k) Q.
Proof.
  intros Hm Hk s Hs. specialize (Hm s Hs). unfold mbind, plan_bind. destruct (m s) as [[x s']|]; cbn; [|done].
  by apply Hk.
Qed.

Lemma triple_ask {A} (P : state → Prop) (f : run → A) (Q : A → state → Prop) :
  (∀ s, P s → Q (f (fst s)) s) → triple P (ask f) Q.
Proof. intros H s Hs. by apply H. Qed.

Lemma triple_change (P : state → Prop) (f : run → run) (Q : unit → state → Prop) :
  (∀ r w, P (r, w) → Q tt (f r, w)) → triple P (change f) Q.
Proof. intros H [r w] Hs. by apply H. Qed.

Lemma triple_call {A} (P : state → Prop) (f : St → A * St) (Q : A → state → Prop) :
  (∀ r w x w', P (r, w) → f w = (x, w') → Q x (r, w')) → triple P (call f) Q.
Proof. intros H [r w] Hs. unfold call. cbn. destruct (f w) as [x w'] eqn:E. by apply (H r w). Qed.

Lemma triple_weaken {A} (P P' : state → Prop) (m : plan A) (Q Q' : A → state → Prop) :
  triple P m Q → (∀ s, P' s → P s) → (∀ x s, Q x s → Q' x s) → triple P' m Q'.
Proof. intros H HP HQ s Hs. specialize (H s (HP s Hs)). destruct (m s) as [[x s']|]; [by apply HQ|done]. Qed.

(** What a precondition says can be used as a fact. *)
Lemma triple_fact {A} (φ : Prop) (P : state → Prop) (m : plan A) (Q : A → state → Prop) :
  (φ → triple P m Q) → triple (λ s, P s ∧ φ) m Q.
Proof. intros H s [Hs Hφ]. by apply H. Qed.

Lemma triple_run {A} (P : state → Prop) (m : plan A) (Q : A → state → Prop) s x s' :
  triple P m Q → P s → m s = Some (x, s') → Q x s'.
Proof. intros H Hs E. specialize (H s Hs). by rewrite E in H. Qed.

Lemma returns_ret {A} (x : A) : returns (mret x).
Proof. intros s. by eexists. Qed.

Lemma returns_bind {A B} (m : plan A) (k : A → plan B) : returns m → (∀ x, returns (k x)) → returns (m ≫= k).
Proof.
  intros Hm Hk s. destruct (Hm s) as [[x s'] E]. unfold mbind, plan_bind. rewrite E. cbn. apply Hk.
Qed.

Lemma returns_ask {A} (f : run → A) : returns (ask f).
Proof. intros s. by eexists. Qed.

Lemma returns_change (f : run → run) : returns (change f).
Proof. intros s. by eexists. Qed.

Lemma returns_call {A} (f : St → A * St) : returns (call f).
Proof. intros [r w]. unfold call. cbn. destruct (f w). by eexists. Qed.
End logic.

Create HintDb kl_plan.
#[export] Hint Resolve returns_ret returns_bind returns_ask returns_change returns_call : kl_plan.

(** Goes through an operation, one construct at a time. *)
Ltac returns_step :=
  match goal with
  | |- returns (match ?x with _ => _ end) => destruct x
  | |- returns (if ?x then _ else _) => destruct x
  | |- returns (let '(_, _) := ?x in _) => destruct x
  | |- returns (_ ≫= _) => apply returns_bind; [|intros]
  | |- returns _ => solve [auto with kl_plan]
  end.

(** ** Operations come back *)

Section total.
Context {St Err : Type} `{Registry St Err} `{World St Err} (pager : option (TagPager St Err)).
Context `{GoUnicodeUpper, GoQuote, MapRange}.
Context (cfg : Config).

(** A registry that reads pages says of a successful request that it was sent;
    it may list anything, for ever. *)
Definition counted_pages : Prop :=
  match pager with Some p => ∀ repo, counts_requests (pager := p) repo | None => True end.

Lemma list_series_returns repo cur allowance :
  counted_pages → returns (list_series (Err := Err) pager repo cur allowance).
Proof.
  intros Hc [r w]. unfold list_series, listPinnedSeries, counted_pages in *. cbn [snd fst].
  destruct pager as [p|]; [|destruct (ListTagsUpTo repo allowance w) as [[l e] w']; by eexists].
  unfold walkSeries.
  destruct (walk_starts_total repo cur (seriesStarts cur) allowance (mk_walk [] false false 0) w (Hc repo))
    as (wk & err & w' & -> & _). cbn [mbind option_bind].
  destruct err; [by eexists|]. destruct (sw_unreliable wk); [|by eexists].
  destruct (_ <=? 0)%Z; [by eexists|]. destruct (ListTagsUpTo _ _ w') as [[l e] w2]. by eexists.
Qed.

Lemma ctx_of_returns : returns ctx_of.
Proof. unfold ctx_of. repeat returns_step. Qed.
Hint Resolve ctx_of_returns : kl_plan.

Lemma deadlineReason_returns : returns deadlineReason.
Proof. unfold deadlineReason. repeat returns_step. Qed.
Hint Resolve deadlineReason_returns : kl_plan.

Lemma registryOutcome_returns repo err : returns (registryOutcome repo err).
Proof. unfold registryOutcome, dead_context, halt_with. repeat returns_step. Qed.
Hint Resolve registryOutcome_returns : kl_plan.

Lemma resolveTag_returns repo tag platform : returns (resolveTag repo tag platform).
Proof. unfold resolveTag. repeat returns_step. Qed.

Lemma fullTagList_returns repo : returns (fullTagList cfg repo).
Proof. unfold fullTagList. repeat returns_step. Qed.

Lemma scanUnder_returns role target : returns (scanUnder cfg role target).
Proof. unfold scanUnder, addExecution. repeat returns_step. Qed.
Hint Resolve scanUnder_returns : kl_plan.

Lemma compareImage_returns i repo tag platform res targets : returns (compareImage cfg i repo tag platform res targets).
Proof. unfold compareImage, baseline_scan, candidate_scan, addExecution, intel. repeat returns_step. Qed.
Hint Resolve resolveTag_returns fullTagList_returns compareImage_returns : kl_plan.

Lemma pinnedCandidate_returns ref it : counted_pages → returns (pinnedCandidate pager cfg ref it).
Proof.
  intros Hc. unfold pinnedCandidate, series_entry. pose proof (list_series_returns (ir_Repository ref) (ir_Version ref)).
  repeat returns_step.
Qed.

Lemma process_returns i it : counted_pages → returns (process pager cfg i it).
Proof.
  intros Hc. unfold process, resolve_and_compare, compare_item. pose proof (pinnedCandidate_returns).
  repeat returns_step.
Qed.

Lemma plan_items_returns l : counted_pages → returns (plan_items pager cfg l).
Proof.
  intros Hc. pose proof process_returns. induction l; cbn [plan_items]; unfold plan_entry_item; repeat returns_step.
Qed.
End total.

(** ** Invariants of the run *)

Section invariants.
Context {St Err : Type}.
Notation run := (run (Err := Err)).
Notation plan := (plan (St := St) (Err := Err)).

(** [J] holds before and after, and the result satisfies [φ]. *)
Definition sat {A} (J : run * St → Prop) (m : plan A) (φ : A → Prop) : Prop :=
  triple J m (λ x s, J s ∧ φ x).

Lemma sat_ret {A} (J : run * St → Prop) (x : A) (φ : A → Prop) : φ x → sat J (mret x) φ.
Proof. intros H. by apply triple_ret. Qed.

Lemma sat_bind {A B} (J : run * St → Prop) (m : plan A) (φ : A → Prop) (k : A → plan B) (ψ : B → Prop) :
  sat J m φ → (∀ x, φ x → sat J (k x) ψ) → sat J (m ≫= k) ψ.
Proof.
  intros Hm Hk. apply (triple_bind _ _ (λ x s, J s ∧ φ x)); [exact Hm|]. intros x s [HJ Hφ]. by apply (Hk x Hφ s).
Qed.

Lemma sat_ask {A} (J : run * St → Prop) (f : run → A) : sat J (ask f) (λ x, ∃ r w, J (r, w) ∧ x = f r).
Proof. apply triple_ask. intros [r w] HJ. split; [done|]. by exists r, w. Qed.

Lemma sat_change (J : run * St → Prop) (f : run → run) : (∀ r w, J (r, w) → J (f r, w)) → sat J (change f) (λ _, True).
Proof. intros H. apply triple_change. intros r w HJ. split; [by apply H|done]. Qed.

Lemma sat_call {A} (J : run * St → Prop) (f : St → A * St) :
  (∀ r w, J (r, w) → J (r, snd (f w))) → sat J (call f) (λ _, True).
Proof.
  intros H. apply triple_call. intros r w x w' HJ E. split; [|done]. specialize (H r w HJ). by rewrite E in H.
Qed.

Lemma sat_weaken {A} (J : run * St → Prop) (m : plan A) (φ ψ : A → Prop) : sat J m φ → (∀ x, φ x → ψ x) → sat J m ψ.
Proof. intros H Hi. eapply triple_weaken; [exact H|done|]. intros x s [? ?]. auto. Qed.

Lemma sat_true {A} (J : run * St → Prop) (m : plan A) (φ : A → Prop) : sat J m φ → sat J m (λ _, True).
Proof. intros H. by eapply sat_weaken. Qed.
End invariants.

(** The entry of the plan, or the scan, an operation goes on with. *)
Ltac run_sub y E :=
  match goal with
  | |- context [addExecution ?a ?b ?c ?d ?e ?f ?g ?h] => destruct (addExecution a b c d e f g h) as [[y [? ?]]|] eqn:E
  | |- context [scanUnder ?a ?b ?c ?d] => destruct (scanUnder a b c d) as [[y [? ?]]|] eqn:E
  end; cbn; [|done].

(** ** Scans *)

Section scans.
Context {St Err : Type} `{Registry St Err} `{World St Err} (pager : option (TagPager St Err)).
Context `{GoUnicodeUpper, GoQuote, MapRange}.
Context (cfg : Config) (inputs : list ImageInput).
Notation run := (run (Err := Err)).

Definition exec_id (n : nat) : string := "s" +:+ signed_itoa (Z.of_nat n + 1)%Z.

(** The identifier of a scan names its entry. *)
Definition recorded (role : string) (scans : list ScanExecution) (id : string) : Prop :=
  ∃ n ex, scans !! n = Some ex ∧ ex_ID ex = exec_id n ∧ ex_Role ex = role ∧ id = exec_id n.

(** The record is what the scanner said of the target, with the prepared
    conditions only when the databases were verified right after it. *)
Definition scanned_under (t : ScanTarget) (rec : ScanRecord) : Prop :=
  ∃ w, sr_Scan rec = fst (Scan t w) ∧
    (sr_Conditions rec = cf_Prepared cfg ∧
       fst (VerifyDB (cf_Prepared cfg) (snd (Now (snd (Scan t w))))) = (true, None) ∨
     sr_Conditions rec = zero_conditions).

(** The scan of a running image with this identity: the cycle's own, or a
    repeated one. *)
Definition baseline_of (key : string) (rec : ScanRecord) : Prop :=
  ∃ i, i ∈ inputs ∧ base_key i = key ∧
    (rec = mk_record (in_Scan i) (in_Conditions i) ∨ scanned_under (in_Target i) rec).

(** A scan of this content of this repository. *)
Definition candidate_of (key : string) (rec : ScanRecord) : Prop :=
  ∃ repo tag digest platform, key = cand_key repo digest platform ∧
    scanned_under (candidate_target repo tag digest platform) rec.

Record scans_inv (cands bases : gmap string scanned) (scans : list ScanExecution) (nc nb : Z) : Prop := {
  si_cands : map_Forall (λ k s, recorded RoleCandidate scans (sd_id s) ∧ candidate_of k (sd_rec s)) cands;
  si_bases : map_Forall (λ k s, recorded RoleBaseline scans (sd_id s) ∧ baseline_of k (sd_rec s)) bases;
  si_ids : ∀ n ex, scans !! n = Some ex → ex_ID ex = exec_id n;
  si_total : length scans = size cands + size bases;
  si_cand_entries : length (filter (λ ex, ex_Role ex = RoleCandidate) scans) = size cands;
  si_cand_scans : nc = Z.of_nat (size cands);
  si_cand_limit : (nc ≤ lm_MaxCandidateScans (cf_Limits cfg))%Z;
  si_rescans : (0 ≤ nb ≤ Z.of_nat (size bases))%Z;
  si_rescan_limit : (nb ≤ lm_MaxBaselineRescans (cf_Limits cfg))%Z;
}.

Lemma exec_id_inj m n : exec_id m = exec_id n → m = n.
Proof.
  unfold exec_id, signed_itoa. rewrite !(proj2 (Z.ltb_ge _ _)) by lia. intros [= E].
  change (itoa (Z.to_N (Z.of_nat m + 1)) = itoa (Z.to_N (Z.of_nat n + 1))) in E.
  enough (Z.to_N (Z.of_nat m + 1) = Z.to_N (Z.of_nat n + 1)) by lia.
  rewrite <- (proj2 (itoa_spec (Z.to_N (Z.of_nat m + 1)))), E. apply itoa_spec.
Qed.

Definition scans_ok (r : run) : Prop :=
  scans_inv (rn_cands r) (rn_bases r) (rn_Scans r) (us_CandidateScans (rn_Usage r)) (us_BaselineRescans (rn_Usage r)).

Lemma recorded_prefix role l k id : l `prefix_of` k → recorded role l id → recorded role k id.
Proof. intros Hp (n & ex & Hn & ?). exists n, ex. split; [by eapply prefix_lookup_Some|done]. Qed.

Lemma recorded_last role l ex :
  ex_ID ex = exec_id (length l) → ex_Role ex = role → recorded role (l ++ [ex]) (ex_ID ex).
Proof.
  intros Hid Hr. exists (length l), ex. split_and!; [|done..]. by rewrite lookup_app_r, Nat.sub_diag by lia.
Qed.

(** A scan is one new entry. *)
Definition one_entry (role : string) (r r' : run) (d : scanned) : Prop :=
  ∃ ex, r' = r <| rn_Scans := rn_Scans r ++ [ex] |> ∧ ex_ID ex = exec_id (length (rn_Scans r)) ∧
        ex_Role ex = role ∧ sd_id d = ex_ID ex.

Lemma addExecution_spec role rec requested db at1 err at2 (r : run) (w : St) id s' :
  addExecution role rec requested db at1 err at2 (r, w) = Some (id, s') →
  snd s' = w ∧ ∃ ex, fst s' = r <| rn_Scans := rn_Scans r ++ [ex] |> ∧ ex_ID ex = exec_id (length (rn_Scans r)) ∧
    ex_Role ex = role ∧ id = ex_ID ex.
Proof. intros [= <- <-]. split; [done|]. by eexists. Qed.

Lemma scanUnder_spec role t r w d s' :
  scanUnder cfg role t (r, w) = Some (d, s') →
  one_entry role r (fst s') d ∧ scanned_under t (sd_rec d).
Proof.
  unfold scanUnder, scanned_under, mbind, plan_bind, call. cbn [fst snd].
  destruct (Scan t w) as [scan w1] eqn:Es. cbn [mbind option_bind fst snd].
  destruct (Now w1) as [at_ w2] eqn:En. cbn [mbind option_bind fst snd].
  assert (Hzero : ∀ rec, sr_Scan rec = scan → sr_Conditions rec = zero_conditions → scanned_under t rec)
    by (intros rec Hs Hz; exists w; rewrite Es; by split; [|right]).
  destruct (sn_Err scan).
  - run_sub y Ea. intros [= <- <-].
    apply addExecution_spec in Ea as (_ & ex & Hr & Hid & Hrole & ->). split; [by exists ex|]. by apply Hzero.
  - cbn [mbind option_bind fst snd]. destruct (VerifyDB (cf_Prepared cfg) w2) as [[ok err] w3] eqn:Ev. cbn [mbind option_bind fst snd].
    destruct (Now w3) as [checked w4]. cbn [mbind option_bind fst snd].
    destruct err as [e|]; [|destruct ok]; cbn [negb];
      (run_sub y Ea; intros [= <- <-];
       apply addExecution_spec in Ea as (_ & ex & Hr & Hid & Hrole & ->); split; [by exists ex|]);
      [by apply Hzero| |by apply Hzero].
    exists w. rewrite Es. cbn [fst snd]. rewrite En. cbn [fst snd]. rewrite Ev. by split; [|left].
Qed.

Lemma recorded_forall role l ex (m : gmap string scanned) (φ : string → scanned → Prop) :
  map_Forall (λ k s, recorded role l (sd_id s) ∧ φ k s) m →
  map_Forall (λ k s, recorded role (l ++ [ex]) (sd_id s) ∧ φ k s) m.
Proof.
  intros Hm k s Hk. destruct (Hm k s Hk). split; [|done]. eapply recorded_prefix; [|done]. by apply prefix_app_r.
Qed.

Lemma ids_snoc (scans : list ScanExecution) ex :
  (∀ n x, scans !! n = Some x → ex_ID x = exec_id n) → ex_ID ex = exec_id (length scans) →
  ∀ n x, (scans ++ [ex]) !! n = Some x → ex_ID x = exec_id n.
Proof.
  intros Hs He n x Hn. destruct (decide (n < length scans)).
  - rewrite lookup_app_l in Hn by done. by apply Hs.
  - rewrite lookup_app_r in Hn by lia. apply list_lookup_singleton_Some in Hn as [Hn <-].
    rewrite He. f_equal. lia.
Qed.

(** The entry, the cache and the counter of a new candidate. *)
Lemma scans_add_cand cands bases scans nc nb key d ex :
  scans_inv cands bases scans nc nb → cands !! key = None → (nc < lm_MaxCandidateScans (cf_Limits cfg))%Z →
  ex_ID ex = exec_id (length scans) → ex_Role ex = RoleCandidate → sd_id d = ex_ID ex → candidate_of key (sd_rec d) →
  scans_inv (<[key := d]> cands) bases (scans ++ [ex]) (nc + 1) nb.
Proof.
  intros [C1 C2 C0 C3 C8 C4 C5 C6 C7] Hn Hlt Hid Hrole Hd Hc. split.
  - apply map_Forall_insert_2; [|by apply recorded_forall]. split; [|done]. rewrite Hd. by apply recorded_last.
  - by apply recorded_forall.
  - by apply ids_snoc.
  - rewrite length_app, map_size_insert_None by done. cbn. lia.
  - rewrite filter_app, length_app, map_size_insert_None, filter_cons_True, filter_nil by done. cbn. lia.
  - rewrite map_size_insert_None by done. lia.
  - lia.
  - lia.
  - lia.
Qed.

Lemma scans_add_base cands bases scans nc nb (again : bool) key d ex :
  scans_inv cands bases scans nc nb → bases !! key = None →
  (again = true → nb < lm_MaxBaselineRescans (cf_Limits cfg))%Z →
  ex_ID ex = exec_id (length scans) → ex_Role ex = RoleBaseline → sd_id d = ex_ID ex → baseline_of key (sd_rec d) →
  scans_inv cands (<[key := d]> bases) (scans ++ [ex]) nc (if again then nb + 1 else nb).
Proof.
  intros [C1 C2 C0 C3 C8 C4 C5 C6 C7] Hn Hlt Hid Hrole Hd Hc. split.
  - by apply recorded_forall.
  - apply map_Forall_insert_2; [|by apply recorded_forall]. split; [|done]. rewrite Hd. by apply recorded_last.
  - by apply ids_snoc.
  - rewrite length_app, map_size_insert_None by done. cbn. lia.
  - rewrite filter_app, filter_cons_False, filter_nil, List.app_nil_r; [done|]. rewrite Hrole. discriminate.
  - done.
  - done.
  - rewrite map_size_insert_None by done. destruct again; lia.
  - destruct again; [specialize (Hlt eq_refl)|]; lia.
Qed.

(** What the scans of a comparison leave untouched. *)
Definition scan_frame (r r' : run) : Prop :=
  rn_composeBuild r' = rn_composeBuild r ∧ rn_halted r' = rn_halted r ∧ rn_tagUsed r' = rn_tagUsed r ∧
  us_TagPages (rn_Usage r') = us_TagPages (rn_Usage r) ∧ rn_Scans r `prefix_of` rn_Scans r' ∧
  rn_tags r' = rn_tags r ∧ rn_fullTags r' = rn_fullTags r.

Lemma baseline_scan_spec i r w b s' :
  i ∈ inputs → scans_ok r →
  (needs_rescan cfg r i = true → us_BaselineRescans (rn_Usage r) < lm_MaxBaselineRescans (cf_Limits cfg))%Z →
  baseline_scan cfg i (r, w) = Some (b, s') →
  scans_ok (fst s') ∧ scan_frame r (fst s') ∧ rn_cands (fst s') = rn_cands r ∧
  us_CandidateScans (rn_Usage (fst s')) = us_CandidateScans (rn_Usage r) ∧
  recorded RoleBaseline (rn_Scans (fst s')) (sd_id b) ∧ baseline_of (base_key i) (sd_rec b).
Proof.
  intros Hi Hok Hlim. unfold baseline_scan. unfold mbind at 1, plan_bind at 1, ask. cbn [fst snd mbind option_bind].
  unfold id. destruct (rn_bases r !! base_key i) as [base|] eqn:Eb.
  { intros [= <- <-]. destruct (si_bases _ _ _ _ _ Hok _ _ Eb). by split_and!. }
  destruct (needs_rescan cfg r i) eqn:En.
  - unfold mbind, plan_bind, change. cbn [fst snd mbind option_bind].
    run_sub d Es. intros [= <- <-].
    apply scanUnder_spec in Es as [(ex & Hr & Hid & Hrole & Hd) Hu]. cbn in Hr, Hid. subst. cbn.
    assert (Hof : baseline_of (base_key i) (sd_rec d)) by (exists i; split_and!; [done..|by right]).
    split_and!; try done.
    + apply (scans_add_base _ _ _ _ _ true); [done|done|by intros _; apply Hlim|done..].
    + unfold scan_frame. cbn. split_and!; try done. by apply prefix_app_r.
    + rewrite Hd. by apply recorded_last.
  - unfold mbind, plan_bind, change. cbn [fst snd mbind option_bind].
    run_sub d Ea. intros [= <- <-].
    apply addExecution_spec in Ea as (_ & ex & Hr & Hid & Hrole & ->). cbn in Hr, Hid. subst. cbn.
    assert (Hof : baseline_of (base_key i) (mk_record (in_Scan i) (in_Conditions i))) by (exists i; split_and!; [done..|by left]).
    split_and!; try done.
    + by apply (scans_add_base _ _ _ _ _ false).
    + unfold scan_frame. cbn. split_and!; try done. by apply prefix_app_r.
    + by apply recorded_last.
Qed.

Lemma candidate_scan_spec repo tag digest platform r w c s' :
  scans_ok r →
  (rn_cands r !! cand_key repo digest platform = None →
    us_CandidateScans (rn_Usage r) < lm_MaxCandidateScans (cf_Limits cfg))%Z →
  candidate_scan cfg repo tag digest platform (r, w) = Some (c, s') →
  scans_ok (fst s') ∧ scan_frame r (fst s') ∧
  recorded RoleCandidate (rn_Scans (fst s')) (sd_id c) ∧ candidate_of (cand_key repo digest platform) (sd_rec c).
Proof.
  intros Hok Hlim. unfold candidate_scan. unfold mbind at 1, plan_bind at 1, ask. cbn [fst snd mbind option_bind].
  unfold id. destruct (rn_cands r !! cand_key repo digest platform) as [cand|] eqn:Eb.
  { intros [= <- <-]. destruct (si_cands _ _ _ _ _ Hok _ _ Eb). by split_and!. }
  unfold mbind, plan_bind, change. cbn [fst snd mbind option_bind].
  run_sub d Es. intros [= <- <-].
  apply scanUnder_spec in Es as [(ex & Hr & Hid & Hrole & Hd) Hu]. cbn in Hr, Hid. subst. cbn.
  assert (Hof : candidate_of (cand_key repo digest platform) (sd_rec d)) by (by exists repo, tag, digest, platform).
  split_and!; try done.
  + apply scans_add_cand; [done|done|by apply Hlim|done..].
  + unfold scan_frame. cbn. split_and!; try done. by apply prefix_app_r.
  + rewrite Hd. by apply recorded_last.
Qed.
End scans.

(** ** Items *)

Section items.
Context {St Err : Type} `{Registry St Err} `{World St Err} (pager : option (TagPager St Err)).
Context `{GoUnicodeUpper, GoQuote, MapRange}.
Context (cfg : Config) (inputs : list ImageInput) (builds : gmap string composeState).
Notation run := (run (Err := Err)).

(** A category that proposes nothing. *)
Definition blocked (cat : string) : Prop := cat ≠ CategoryPRCandidate ∧ cat ≠ CategoryPullAgain.

(** What reading the Compose files left says no image is to be updated. *)
Context (builds_blocked : ∀ k st out, builds !! k = Some st → cs_out st = Some out → blocked (po_cat out)).

(** The invariant, of a run that extends [L]. *)
Definition run_ok (L : list ScanExecution) (r : run) : Prop :=
  scans_ok cfg inputs r ∧ rn_composeBuild r = builds ∧ L `prefix_of` rn_Scans r.

Definition id_ok (role : string) (scans : list ScanExecution) (id : string) : Prop := id = "" ∨ recorded role scans id.

Definition ids_ok (scans : list ScanExecution) (it : Item) : Prop :=
  id_ok RoleBaseline scans (it_BaselineScan it) ∧ id_ok RoleCandidate scans (it_CandidateScan it).

(** The fields the processing of an item does not touch. *)
Definition kept (it it' : Item) : Prop :=
  it_Key it' = it_Key it ∧ it_Services it' = it_Services it ∧ it_Priority it' = it_Priority it ∧
  it_Targets it' = it_Targets it ∧ it_Declared it' = it_Declared it ∧ it_NewerSeries it' = it_NewerSeries it.

(** An outcome without a comparison. *)
Definition quiet (it it' : Item) : Prop :=
  kept it it' ∧ it_BaselineScan it' = it_BaselineScan it ∧ it_CandidateScan it' = it_CandidateScan it ∧
  blocked (it_Category it').

Lemma quiet_set it cat reason detail : blocked cat → quiet it (set_item it cat reason detail).
Proof. by intros. Qed.

Lemma quiet_trans it it1 it2 :
  kept it it1 → it_BaselineScan it1 = it_BaselineScan it → it_CandidateScan it1 = it_CandidateScan it →
  quiet it1 it2 → quiet it it2.
Proof. unfold quiet, kept. intros (-> & -> & -> & -> & -> & ->) <- <- (? & ? & ? & ?). done. Qed.

Section kept_by.
Context (L : list ScanExecution).
Notation sat := (sat (λ s, run_ok L (fst s))).

Lemma call_sat {A} (f : St → A * St) : sat (call f) (λ _, True).
Proof. by apply sat_call. Qed.

Lemma ctx_of_sat : sat ctx_of (λ _, True).
Proof. unfold ctx_of. eapply sat_bind; [apply sat_ask|]. intros. apply call_sat. Qed.

Lemma deadlineReason_sat : sat deadlineReason (λ _, True).
Proof.
  unfold deadlineReason. eapply sat_bind; [apply sat_ask|]. intros [ctx|] _; [|by apply sat_ret].
  eapply sat_bind; [apply call_sat|]. intros. by apply sat_ret.
Qed.

Lemma change_sat (f : run → run) :
  (∀ r, rn_cands (f r) = rn_cands r ∧ rn_bases (f r) = rn_bases r ∧ rn_Scans (f r) = rn_Scans r ∧
        us_CandidateScans (rn_Usage (f r)) = us_CandidateScans (rn_Usage r) ∧
        us_BaselineRescans (rn_Usage (f r)) = us_BaselineRescans (rn_Usage r) ∧
        rn_composeBuild (f r) = rn_composeBuild r) →
  sat (change (St := St) f) (λ _, True).
Proof.
  intros Hf. apply sat_change. intros r w (H1' & H2' & H3'). cbn [fst] in *. destruct (Hf r) as (E1 & E2 & E3 & E4 & E5 & E6).
  unfold run_ok, scans_ok. by rewrite E1, E2, E3, E4, E5, E6.
Qed.

Lemma halt_with_sat reason detail : sat (halt_with (St := St) (Err := Err) reason detail) (λ o, blocked (po_cat o)).
Proof. unfold halt_with. eapply sat_bind; [by apply change_sat|]. intros _ _. by apply sat_ret. Qed.

Lemma registryOutcome_sat repo err : sat (registryOutcome repo err) (λ o, blocked (po_cat o)).
Proof.
  unfold registryOutcome. eapply (sat_bind _ _ (λ _, True)).
  { unfold dead_context. destruct (_ || _); [by apply sat_ret|]. destruct (err_is ErrTimeout err); [|by apply sat_ret].
    eapply sat_bind; [apply ctx_of_sat|]. intros. by apply sat_ret. }
  intros dead _. destruct dead; [eapply sat_bind; [apply deadlineReason_sat|intros; apply halt_with_sat]|].
  repeat match goal with
  | |- PlannerInv.sat _ (if ?b then _ else _) _ => destruct b
  | |- PlannerInv.sat _ (halt_with _ _) _ => apply halt_with_sat
  | |- PlannerInv.sat _ (mret _) _ => by apply sat_ret
  end.
Qed.

Lemma list_series_sat repo cur n : sat (list_series (Err := Err) pager repo cur n) (λ _, True).
Proof.
  intros [r w] Hr. unfold list_series. cbn [fst snd].
  destruct (listPinnedSeries _ _ _ _ w) as [[x w']|]; cbn; [done|done].
Qed.

Lemma series_entry_sat ref repoKey it :
  sat (series_entry pager cfg ref repoKey it) (λ x, match x with inl it' => quiet it it' | inr _ => True end).
Proof.
  unfold series_entry. eapply sat_bind; [apply sat_ask|]. intros r _.
  destruct (rn_tags r !! _); [by apply sat_ret|].
  destruct (rn_fullTags r !! _); [eapply sat_bind; [by apply change_sat|intros; by apply sat_ret]|].
  destruct (rn_halted r); [by apply sat_ret|]. destruct (_ <=? 0)%Z; [by apply sat_ret|].
  eapply sat_bind; [apply list_series_sat|]. intros [[list whole] err] _.
  eapply sat_bind; [by apply change_sat|]. intros _ _.
  eapply (sat_bind _ _ (λ _, True)); [destruct whole; [by apply change_sat|by apply sat_ret]|]. intros _ _.
  eapply sat_bind; [by apply change_sat|]. intros _ _. by apply sat_ret.
Qed.

Lemma pinnedCandidate_sat ref it :
  sat (pinnedCandidate pager cfg ref it)
    (λ x, match x with inl it' => quiet it it' | inr tag => ∃ v, newer_patch (ir_Version ref) tag v end).
Proof.
  unfold pinnedCandidate. destruct (RepositoryKey _) as [repoKey|]; [|by apply sat_ret].
  eapply sat_bind; [apply series_entry_sat|]. intros [it'|e] Hx; [by apply sat_ret|].
  destruct (te_err e) as [err|].
  { eapply sat_bind; [apply registryOutcome_sat|]. intros out Hout. by apply sat_ret. }
  destruct (SelectPinned_spec (ir_Version ref) (te_list e)) as (_ & _ & Hf & Hcases).
  destruct (String.eqb_spec (se_Outcome (SelectPinned (ir_Version ref) (te_list e))) SelectionIncomplete); [by apply sat_ret|].
  destruct (String.eqb_spec (se_Outcome (SelectPinned (ir_Version ref) (te_list e))) SelectionNone); [by apply sat_ret|].
  apply sat_ret. destruct Hcases as [?|[?|Hc]]; [done|done|]. destruct (Hf Hc) as (_ & _ & Hn & _). by eexists.
Qed.

Lemma resolveTag_sat repo tag platform :
  sat (resolveTag repo tag platform) (λ x, match x with inl out => blocked (po_cat out) | inr _ => True end).
Proof.
  unfold resolveTag. eapply sat_bind; [apply sat_ask|]. intros r _.
  eapply (sat_bind _ _ (λ x, match x with inl out => blocked (po_cat out) | inr _ => True end)).
  { destruct (rn_resolved r !! _); [by apply sat_ret|]. destruct (rn_halted r); [by apply sat_ret|].
    eapply sat_bind; [apply call_sat|]. intros [res err] _.
    eapply sat_bind; [by apply change_sat|]. intros _ _. by apply sat_ret. }
  intros [out|e] Hx; [by apply sat_ret|]. destruct (re_err e) as [err|]; [|by apply sat_ret].
  eapply sat_bind; [apply registryOutcome_sat|]. intros out Hout. by apply sat_ret.
Qed.

Lemma fullTagList_sat repo :
  sat (fullTagList cfg repo) (λ x, match x with inl out => blocked (po_cat out) | inr _ => True end).
Proof.
  unfold fullTagList. destruct (RepositoryKey repo) as [key|]; [|by apply sat_ret].
  eapply sat_bind; [apply sat_ask|]. intros r _.
  eapply (sat_bind _ _ (λ x, match x with inl out => blocked (po_cat out) | inr _ => True end)).
  { destruct (rn_fullTags r !! _); [by apply sat_ret|]. destruct (rn_halted r); [by apply sat_ret|].
    destruct (_ <=? 0)%Z; [by apply sat_ret|].
    eapply sat_bind; [apply call_sat|]. intros [list err] _.
    eapply sat_bind; [by apply change_sat|]. intros _ _.
    eapply sat_bind; [by apply change_sat|]. intros _ _. by apply sat_ret. }
  intros [out|e] Hx; [by apply sat_ret|]. destruct (te_err e) as [err|].
  { eapply sat_bind; [apply registryOutcome_sat|]. intros out Hout. by apply sat_ret. }
  destruct (tl_Truncated _); by apply sat_ret.
Qed.
End kept_by.

(** *** A comparison *)

(** What a comparison of the image with the candidate stands on. *)
Definition compared (i : ImageInput) (repo : string) (platform : Platform) (res : Resolution) (targets : list Target)
    (vr : VerificationResult) (dec : Decision) : Prop :=
  ∃ b c digest lookup,
    ParseDigest DigestRegistry (rs_ManifestDigest res) = (digest, true) ∧
    baseline_of cfg inputs (base_key i) b ∧ candidate_of cfg (cand_key repo digest platform) c ∧
    vr = ApplyCoverage (Compare b c) targets b c ∧ dec = Decide targets vr lookup.

Definition comparison_ok (i : ImageInput) (repo : string) (platform : Platform) (res : Resolution) (targets : list Target)
    (scans : list ScanExecution) (c : imageComparison) : Prop :=
  id_ok RoleBaseline scans (ic_baseScan c) ∧ id_ok RoleCandidate scans (ic_candScan c) ∧
  match ic_out c with
  | Some out => blocked (po_cat out)
  | None => ∃ vr dec, ic_vr c = Some vr ∧ ic_dec c = Some dec ∧ compared i repo platform res targets vr dec
  end.

Lemma scan_limits_none (r : run) i key :
  scan_limits cfg r i key = None →
  (needs_rescan cfg r i = true → us_BaselineRescans (rn_Usage r) < lm_MaxBaselineRescans (cf_Limits cfg))%Z ∧
  (rn_cands r !! key = None → us_CandidateScans (rn_Usage r) < lm_MaxCandidateScans (cf_Limits cfg))%Z.
Proof.
  unfold scan_limits. destruct (needs_rescan _ _ _), (rn_cands r !! key);
    repeat match goal with |- context [(?a <=? ?b)%Z] => destruct (Z.leb_spec a b) end; cbn; split; intros; done || lia.
Qed.

Lemma scan_limits_some (r : run) i key c : scan_limits cfg r i key = Some c → ∃ cat reason detail, c = no_comparison cat reason detail ∧ blocked cat.
Proof. unfold scan_limits. repeat match goal with |- context [if ?b then _ else _] => destruct b end; intros [= <-]; by eexists _, _, _. Qed.

Lemma no_comparison_ok i repo platform res targets scans cat reason detail :
  blocked cat → comparison_ok i repo platform res targets scans (no_comparison cat reason detail).
Proof. intros Hb. split_and!; [by left|by left|done]. Qed.

Lemma run_ok_frame L r r' : run_ok L r → scans_ok cfg inputs r' → scan_frame r r' → run_ok L r'.
Proof. intros (_ & Hb & Hp) Hok (E & _ & _ & _ & Hp' & _). split_and!; [done|by rewrite E|by etrans]. Qed.

Lemma compareImage_triple L i repo tag platform res targets :
  i ∈ inputs →
  triple (λ s, run_ok L (fst s)) (compareImage cfg i repo tag platform res targets)
    (λ c s, run_ok L (fst s) ∧ comparison_ok i repo platform res targets (rn_Scans (fst s)) c).
Proof.
  intros Hi. unfold compareImage. destruct (ScanConditions_Known _); cbn [negb];
    [|by apply triple_ret; intros s Hs; split; [|by apply no_comparison_ok]].
  destruct (ParseDigest _ _) as [digest ok] eqn:Ed. destruct ok; cbn [negb];
    [|by apply triple_ret; intros s Hs; split; [|by apply no_comparison_ok]].
  intros [r w] Hr. unfold ask, mbind at 1, plan_bind at 1. cbn [fst mbind option_bind]. unfold id.
  destruct (scan_limits cfg r i _) as [c|] eqn:El.
  { apply scan_limits_some in El as (cat & reason & detail & -> & Hb). split; [done|]. by apply no_comparison_ok. }
  apply scan_limits_none in El as [Hlb Hlc].
  unfold mbind at 1, plan_bind at 1. destruct (baseline_scan cfg i (r, w)) as [[b [r1 w1]]|] eqn:Eb; cbn [mbind option_bind]; [|done].
  pose proof (baseline_scan_spec cfg inputs _ _ _ _ _ Hi (proj1 Hr) Hlb Eb) as (Hok1 & Hf1 & Hc1 & Hn1 & Hrec1 & Hof1). cbn [fst] in *.
  unfold mbind at 1, plan_bind at 1. destruct (candidate_scan cfg repo tag digest platform (r1, w1)) as [[c [r2 w2]]|] eqn:Ec;
    cbn [mbind option_bind]; [|done].
  rewrite <- Hc1, <- Hn1 in Hlc.
  pose proof (candidate_scan_spec cfg inputs _ _ _ _ _ _ _ _ Hok1 Hlc Ec) as (Hok2 & Hf2 & Hrec2 & Hof2). cbn [fst] in *.
  pose proof (run_ok_frame L _ _ (run_ok_frame L _ _ Hr Hok1 Hf1) Hok2 Hf2) as Hr2.
  assert (Hrec1' : recorded RoleBaseline (rn_Scans r2) (sd_id b)) by (eapply recorded_prefix; [apply Hf2|done]).
  clear Hr Hlb Hlc Hok1 Hf1 Hf2 Hc1 Hn1 Eb Ec.
  assert (Hrest : triple (λ s, fst s = r2) (
      err ← ctx_of;
      match (err : option string) with
      | Some e =>
          reason ← deadlineReason;
          mret (mk_comparison (sd_id b) (sd_id c) None None (Some (mk_outcome CategoryDeferred reason e)))
      | None =>
          lookup ← intel cfg;
          let vr := ApplyCoverage (Compare (sd_rec b) (sd_rec c)) targets (sd_rec b) (sd_rec c) in
          mret (mk_comparison (sd_id b) (sd_id c) (Some vr) (Some (Decide targets vr lookup)) None)
      end) (λ x s, fst s = r2 ∧ comparison_ok i repo platform res targets (rn_Scans r2) x)).
  { clear Hr2. apply (triple_bind _ _ (λ _ s, fst s = r2)).
    { unfold ctx_of. apply (triple_bind _ _ (λ _ s, fst s = r2)); [by apply triple_ask|]. intros x. by apply triple_call. }
    intros [e|].
    - apply (triple_bind _ _ (λ _ s, fst s = r2)).
      + unfold deadlineReason. apply (triple_bind _ _ (λ _ s, fst s = r2)); [by apply triple_ask|]. intros [ctx|].
        * apply (triple_bind _ _ (λ _ s, fst s = r2)); [by apply triple_call|]. intros x. by apply triple_ret.
        * by apply triple_ret.
      + intros reason. apply triple_ret. intros s ->. split; [done|]. split_and!; [by right|by right|done].
    - apply (triple_bind _ _ (λ _ s, fst s = r2)).
      + unfold intel. apply (triple_bind _ _ (λ _ s, fst s = r2)); [by apply triple_ask|]. intros [|]; by apply triple_ret.
      + intros lookup. apply triple_ret. intros s ->. split; [done|]. split_and!; [by right|by right|].
        eexists _, _. split; [done|]. split; [done|]. exists (sd_rec b), (sd_rec c), digest, lookup. by split_and!. }
  refine (triple_weaken _ (λ s, fst s = r2) _ _ (λ c s, run_ok L (fst s) ∧
    comparison_ok i repo platform res targets (rn_Scans (fst s)) c) Hrest _ _ (r2, w2) eq_refl); [done|].
  by intros x s [-> ?].
Qed.

(** *** One image *)

Definition proposing (it : Item) : Prop := it_Category it = CategoryPRCandidate ∨ it_Category it = CategoryPullAgain.

Lemma blocked_not_proposing it : blocked (it_Category it) → ¬ proposing it.
Proof. unfold blocked, proposing. tauto. Qed.

(** The tag that is proposed: a newer patch of a pinned tag, or the floating
    tag itself. *)
Definition proposed_tag (ref : ImageRef) (it : Item) (tag : string) : Prop :=
  if String.eqb (ir_Kind ref) TagPinned
  then it_Category it = CategoryPRCandidate ∧ ∃ v, newer_patch (ir_Version ref) tag v
  else it_Category it = CategoryPullAgain ∧ tag = ir_Tag ref.

Definition scan_platform (i : ImageInput) : Platform :=
  mk_platform (pf_OS (sn_Platform (in_Scan i))) (pf_Architecture (sn_Platform (in_Scan i))) "".

(** What a proposal for an image stands on. *)
Definition evidence (i : ImageInput) (ref : ImageRef) (it : Item) : Prop :=
  ∃ tag res digest b c,
    it_Candidate it = Some (candidate_state (ir_Repository ref) tag res (scan_platform i)) ∧
    proposed_tag ref it tag ∧
    sameContent (is_Key (sn_Subject (in_Scan i))) res = (false, true, "") ∧
    ParseDigest DigestRegistry (rs_ManifestDigest res) = (digest, true) ∧
    baseline_of cfg inputs (base_key i) b ∧
    candidate_of cfg (cand_key (ir_Repository ref) digest (scan_platform i)) c ∧
    sr_Conditions b = cf_Prepared cfg ∧ sr_Conditions c = cf_Prepared cfg ∧
    update_justified (it_Targets it) b c.

Definition item_ok (i : ImageInput) (ref : ImageRef) (it : Item) (scans : list ScanExecution) (it' : Item) : Prop :=
  kept it it' ∧ ids_ok scans it' ∧ (proposing it' → evidence i ref it').

Lemma quiet_ok i ref it scans it' :
  it_BaselineScan it = "" → it_CandidateScan it = "" → quiet it it' → item_ok i ref it scans it'.
Proof.
  intros Hb Hc (Hk & E1 & E2 & Hn). split; [done|]. split; [split; left; congruence|].
  by intros ?%blocked_not_proposing.
Qed.

Lemma decided_fields i ref vr dec it :
  let it' := decided i ref vr dec it in
  kept it it' ∧ it_BaselineScan it' = it_BaselineScan it ∧ it_CandidateScan it' = it_CandidateScan it ∧
  it_Candidate it' = it_Candidate it ∧
  (proposing it' → (dc_Kind dec = DecisionAdopt ∨ dc_Kind dec = DecisionAdoptPartial) ∧
     it_Category it' = if String.eqb (ir_Kind ref) TagPinned then CategoryPRCandidate else CategoryPullAgain).
Proof.
  cbv zeta. unfold decided, proposing.
  destruct (String.eqb_spec (dc_Kind dec) DecisionAdopt), (String.eqb_spec (dc_Kind dec) DecisionAdoptPartial); cbn [orb];
    try (destruct (String.eqb (ir_Kind ref) TagPinned); cbn; split_and!; try done; by tauto);
    repeat match goal with |- context [if ?b then _ else _] => destruct b end; cbn; split_and!; try done; by intros [|].
Qed.

(** A candidate that could be compared was scanned under the prepared
    conditions. *)
Lemma candidate_conditions key b c :
  candidate_of cfg key c → comparable_scans b c → sr_Conditions c = cf_Prepared cfg.
Proof.
  intros (? & ? & ? & ? & ? & w & _ & [[? _]|Hz]) Hcmp; [done|]. pose proof (cs_known _ _ Hcmp) as Hn.
  rewrite (cs_conditions _ _ Hcmp), Hz in Hn. by vm_compute in Hn.
Qed.

Lemma compared_evidence i repo platform res targets vr dec :
  compared i repo platform res targets vr dec →
  dc_Kind dec = DecisionAdopt ∨ dc_Kind dec = DecisionAdoptPartial →
  ∃ digest b c, ParseDigest DigestRegistry (rs_ManifestDigest res) = (digest, true) ∧
    baseline_of cfg inputs (base_key i) b ∧ candidate_of cfg (cand_key repo digest platform) c ∧
    sr_Conditions b = cf_Prepared cfg ∧ sr_Conditions c = cf_Prepared cfg ∧ update_justified targets b c.
Proof.
  intros (b & c & digest & lookup & Hd & Hb & Hc & -> & ->) Hk%Decide_kind_propose.
  apply Decide_iff in Hk as Hu. exists digest, b, c. destruct Hu as (Hcmp & Hrest).
  assert (Ec : sr_Conditions c = cf_Prepared cfg).
  { by apply (candidate_conditions _ b _ Hc). }
  split_and!; [done..| |done|by split]. by rewrite (cs_conditions _ _ Hcmp).
Qed.

Lemma sameContent_known key res matched :
  sameContent key res = (false, true, matched) → sameContent key res = (false, true, "").
Proof. unfold sameContent. repeat match goal with |- context [if ?b then _ else _] => destruct b end; by intros [=]. Qed.

Lemma compare_item_triple L i ref candTag res it :
  i ∈ inputs →
  it_Candidate it = Some (candidate_state (ir_Repository ref) candTag res (scan_platform i)) →
  sameContent (is_Key (sn_Subject (in_Scan i))) res = (false, true, "") →
  (if String.eqb (ir_Kind ref) TagPinned then ∃ v, newer_patch (ir_Version ref) candTag v else candTag = ir_Tag ref) →
  triple (λ s, run_ok L (fst s)) (compare_item cfg i ref candTag (scan_platform i) res it)
    (λ it' s, run_ok L (fst s) ∧ item_ok i ref it (rn_Scans (fst s)) it').
Proof.
  intros Hi Hcand Hsame Htag. unfold compare_item.
  eapply triple_bind; [by apply (compareImage_triple L)|]. intros c. apply triple_ret. intros s (Hr & Hb & Hc & Hout).
  split; [done|]. destruct (ic_out c) as [out|].
  - assert (Hq : ∀ it', quiet (it <| it_BaselineScan := ic_baseScan c |> <| it_CandidateScan := ic_candScan c |>) it' →
      item_ok i ref it (rn_Scans s.1) it').
    { intros it' (Hk & E1 & E2 & Hn). split; [exact Hk|]. split; [split; [rewrite E1|rewrite E2]; done|].
      by intros ?%blocked_not_proposing. }
    apply Hq. by destruct (String.eqb (po_reason out) ReasonCycleDeadline).
  - destruct Hout as (vr & dec & -> & -> & Hcmp).
    match goal with |- context [decided i ref vr dec ?it1] => destruct (decided_fields i ref vr dec it1) as (F1 & F2 & F3 & F4 & F5) end.
    split; [exact F1|]. split; [split; [rewrite F2|rewrite F3]; done|]. intros [Hk Hcat]%F5.
    destruct (compared_evidence _ _ _ _ _ _ _ Hcmp Hk) as (digest & b & c' & Hd & Hb' & Hc' & Eb & Ec & Hu).
    exists candTag, res, digest, b, c'. rewrite F4. destruct F1 as (_ & _ & _ & Ft & _). rewrite Ft.
    split_and!; try done. unfold proposed_tag. rewrite Hcat. by destruct (String.eqb (ir_Kind ref) TagPinned).
Qed.

Lemma resolve_and_compare_triple L i ref candTag it :
  i ∈ inputs → it_BaselineScan it = "" → it_CandidateScan it = "" →
  (if String.eqb (ir_Kind ref) TagPinned then ∃ v, newer_patch (ir_Version ref) candTag v else candTag = ir_Tag ref) →
  triple (λ s, run_ok L (fst s)) (resolve_and_compare cfg i ref candTag it)
    (λ it' s, run_ok L (fst s) ∧ item_ok i ref it (rn_Scans (fst s)) it').
Proof.
  intros Hi Hb Hc Htag. unfold resolve_and_compare. fold (scan_platform i).
  eapply triple_bind; [apply (resolveTag_sat L)|]. intros [out|res].
  { apply triple_ret. intros s [Hs Hout]. split; [done|]. by apply quiet_ok. }
  destruct (sameContent _ res) as [[same known] matched] eqn:Es. destruct known; cbn [negb];
    [|by apply triple_ret; intros s [Hs _]; split; [|by apply quiet_ok]].
  destruct same; [by apply triple_ret; intros s [Hs _]; split; [|by apply quiet_ok]|].
  apply sameContent_known in Es as E.
  eapply triple_weaken; [by apply compare_item_triple|by intros s []|]. intros it' s [Hs Hok]. split; [done|exact Hok].
Qed.

Lemma rejected_quiet i ref it it' : rejected builds i ref it = Some it' → quiet it it'.
Proof using builds_blocked.
  unfold rejected. destruct (declaredCheck _ _) as [[reason detail]|]; [by intros [= <-]|].
  destruct (String.eqb (ir_Kind ref) TagExcluded); [by intros [= <-]|].
  destruct (baselineReady _) as [[reason detail]|]; [by intros [= <-]; destruct (String.eqb reason _)|].
  unfold locallyBuilt. destruct (compose_builds builds (in_Services i) None false) as [[unknown noBuild]|] eqn:E; [|by intros [= <-]].
  destruct (_ && compose_labels _ _ _); [by intros [= <-]|]. destruct (_ && _); [by intros [= <-]|].
  destruct unknown as [out|]; [|done]. intros [= <-]. apply quiet_set.
  enough (∀ l u nb u' nb', (∀ o, u = Some o → blocked (po_cat o)) → compose_builds builds l u nb = Some (u', nb') →
    ∀ o, u' = Some o → blocked (po_cat o)) as Hl by (eapply (Hl _ None false); [|exact E|]; done).
  clear - builds_blocked. intros l. induction l as [|s l IH]; intros u nb u' nb' Hu; cbn [compose_builds]; [by intros [= <- <-]|].
  destruct (builds !! workloadKey s) as [st|] eqn:Es; [|by apply IH].
  destruct (cs_out st) as [o|] eqn:Eo.
  - apply IH. destruct u; [done|]. intros ? [= <-]. by eapply builds_blocked.
  - destruct (cs_build st); [by apply IH..|done].
Qed.

Lemma process_triple L i it :
  i ∈ inputs → it_BaselineScan it = "" → it_CandidateScan it = "" →
  triple (λ s, run_ok L (fst s)) (process pager cfg i it)
    (λ it' s, run_ok L (fst s) ∧ item_ok i (ParseImageRef (im_Ref (it_Current it))) it (rn_Scans (fst s)) it').
Proof using builds_blocked.
  intros Hi Hb Hc. unfold process. set (ref := ParseImageRef _).
  set (it1 := it <| it_Kind := ir_Kind ref |> <| it_Current := it_Current it <| im_Tag := ir_Tag ref |> |>).
  assert (Hok : ∀ scans it', item_ok i ref it1 scans it' → item_ok i ref it scans it') by done.
  assert (Hq : ∀ scans it', quiet it1 it' → item_ok i ref it scans it') by (intros; by apply Hok, quiet_ok).
  intros [r w] Hr. cbn [fst] in Hr. unfold ask, mbind at 1, plan_bind at 1. cbn [fst mbind option_bind].
  rewrite (proj1 (proj2 Hr)). destruct (rejected builds i ref it1) as [it'|] eqn:Er.
  { apply rejected_quiet in Er. split; [done|]. by apply Hq. }
  destruct (String.eqb (ir_Kind ref) TagPinned) eqn:Ek.
  - refine (triple_bind _ _ _ _ (λ it' s, run_ok L (fst s) ∧ item_ok i ref it (rn_Scans (fst s)) it')
      (pinnedCandidate_sat L ref it1) _ (r, w) Hr).
    intros [it'|candTag]; apply triple_fact.
    + intros Hit. apply triple_ret. intros s Hs. split; [done|]. by apply Hq.
    + intros Htag. eapply triple_weaken; [apply (resolve_and_compare_triple L i ref candTag it1)|done|]; try done.
      by rewrite Ek.
  - refine (triple_weaken _ _ _ _ _ (resolve_and_compare_triple L i ref (ir_Tag ref) it1 Hi Hb Hc _) (λ _ H, H) _ (r, w) Hr).
    + by rewrite Ek.
    + intros it' s [Hs Hit]. split; [done|exact Hit].
Qed.
End items.
