(* ===== verification/PlannerSpec.v ===== *)
(** * PlannerSpec: what a pass of the planner guarantees

    Over the invariants of [PlannerInv]: every image with a fixable finding
    gets one item, in order; what is proposed is backed by scans under equal
    conditions; limits are kept; a halted pass asks the registry nothing; and
    a pass ends. *)

From Stdlib Require Import ZArith Lia Bool Ascii String List Sorted.
From stdpp Require Import base gmap strings list.
From S2P Require Import Prelude GoStrings GoRegexp Reference Inventory Triage Report Build Compare ImageTag TagSeries Adopt Declared Plan Planner PlannerInv.

Open Scope string_scope.
Open Scope Z_scope.
Open Scope nat_scope.
Open Scope list_scope.
Open Scope kl_scope.

(** ** Stable sorting *)

(** Elements that compare equal keep their order. *)
Lemma insert_by_stable {A} (less : A → A → bool) (P : A → Prop) `{∀ x, base.Decision (P x)} x l :
  (∀ y, P x → P y → less y x = false) → filter P (insert_by less x l) = filter P (x :: l).
Proof.
  intros Hl. induction l as [|y l IH]; [done|]. cbn [insert_by]. destruct (less y x) eqn:E; [|done].
  destruct (decide (P y)) as [Py|Py].
  - rewrite (filter_cons_True P y) by done. rewrite IH. destruct (decide (P x)) as [Px|Px].
    + rewrite Hl in E by done. done.
    + by rewrite !(filter_cons_False P x), (filter_cons_True P y) by done.
  - rewrite (filter_cons_False P y) by done. rewrite IH. destruct (decide (P x)) as [Px|Px].
    + by rewrite !(filter_cons_True P x), (filter_cons_False P y) by done.
    + by rewrite !(filter_cons_False P x), (filter_cons_False P y) by done.
Qed.

Lemma sort_by_stable {A} (less : A → A → bool) (P : A → Prop) `{∀ x, base.Decision (P x)} l :
  (∀ x y, P x → P y → less y x = false) → filter P (sort_by less l) = filter P l.
Proof.
  intros Hl. induction l as [|x l IH]; [done|]. cbn [sort_by]. rewrite insert_by_stable by auto.
  destruct (decide (P x)); [by rewrite !(filter_cons_True P x), IH by done|by rewrite !(filter_cons_False P x), IH by done].
Qed.

(** ** Entries *)

Section entries.
Context (cfg : Config).

Definition with_targets (i : ImageInput) : Prop := SelectTargets (sn_Findings (in_Scan i)) (cf_Intel cfg) ≠ [].

Definition entry_of (i : ImageInput) : plan_entry :=
  mk_entry i (SelectTargets (sn_Findings (in_Scan i)) (cf_Intel cfg)) (input_ref i).

Definition urgency (e : plan_entry) : nat := Priority_Rank (maxTargetPriority (en_targets e)).

Lemma plan_entries_perm inputs :
  plan_entries cfg inputs ≡ₚ entry_of <$> filter with_targets inputs.
Proof.
  unfold plan_entries. rewrite sort_by_perm. induction inputs as [|i l IH]; [done|]. cbn [omap list_omap].
  unfold with_targets at 1. destruct (SelectTargets (sn_Findings (in_Scan i)) (cf_Intel cfg)) as [|t ts] eqn:E.
  - rewrite filter_cons_False; [exact IH|]. unfold with_targets. rewrite E. naive_solver.
  - rewrite filter_cons_True by (unfold with_targets; by rewrite E). cbn [fmap list_fmap].
    unfold entry_of at 1. by rewrite E, IH.
Qed.

Lemma plan_entries_sorted inputs : StronglySorted (λ a b, urgency b ≤ urgency a) (plan_entries cfg inputs).
Proof.
  unfold plan_entries. fold urgency.
  assert (StrictWeak (λ a b : plan_entry, urgency b <? urgency a)) as Hw.
  { split; intros *; rewrite ?Nat.ltb_lt, ?Nat.ltb_ge; lia. }
  match goal with |- StronglySorted _ ?l => assert (Hs : sorted_by (λ a b : plan_entry, urgency b <? urgency a) l) by exact (sort_by_sorted _ (H := Hw) _) end.
  induction Hs as [|x l _ IH Hx]; constructor; [done|]. eapply Forall_impl; [exact Hx|]. intros y. apply Nat.ltb_ge.
Qed.

Lemma plan_entries_stable inputs k :
  filter (λ e, urgency e = k) (plan_entries cfg inputs) = filter (λ e, urgency e = k) (entry_of <$> filter with_targets inputs).
Proof.
  unfold plan_entries. fold urgency. rewrite sort_by_stable.
  - f_equal. induction inputs as [|i l IH]; [done|]. cbn [omap list_omap].
    unfold with_targets at 1. destruct (SelectTargets (sn_Findings (in_Scan i)) (cf_Intel cfg)) as [|t ts] eqn:E.
    + rewrite filter_cons_False; [exact IH|]. unfold with_targets. rewrite E. naive_solver.
    + rewrite filter_cons_True by (unfold with_targets; by rewrite E). cbn [fmap list_fmap].
      unfold entry_of at 1. by rewrite E, IH.
  - intros x y Hx Hy. apply Nat.ltb_ge. fold (urgency x) (urgency y). lia.
Qed.

Lemma plan_entry_in inputs e :
  e ∈ plan_entries cfg inputs →
  en_in e ∈ inputs ∧ en_targets e = SelectTargets (sn_Findings (in_Scan (en_in e))) (cf_Intel cfg) ∧
  en_ref e = input_ref (en_in e).
Proof.
  rewrite plan_entries_perm. intros (i & -> & [_ Hi]%list_elem_of_filter)%list_elem_of_fmap. done.
Qed.
End entries.

(** ** The items *)

Section items.
Context {St Err : Type} `{Registry St Err} `{World St Err} (pager : option (TagPager St Err)).
Context `{GoUnicodeUpper, GoQuote, MapRange}.
Context (cfg : Config) (inputs : list ImageInput) (builds : gmap string composeState).
Context (builds_blocked : ∀ k st out, builds !! k = Some st → cs_out st = Some out → blocked (po_cat out)).
Notation run := (run (Err := Err)).

(** The item of an entry. *)
Definition item_of (e : plan_entry) (scans : list ScanExecution) (it : Item) : Prop :=
  item_ok cfg inputs (en_in e) (ParseImageRef (en_ref e)) (baseItem (en_in e) (en_ref e) (en_targets e)) scans it.

Lemma baseItem_ref i ref targets : im_Ref (it_Current (baseItem i ref targets)) = ref.
Proof. unfold baseItem. cbn. by destruct (String.eqb _ _), (Platform_Known _). Qed.

Lemma item_of_prefix e l k it : l `prefix_of` k → item_of e l it → item_of e k it.
Proof.
  intros Hp (Hk & [Hb Hc] & Hev). split; [done|]. split; [|done].
  unfold ids_ok, id_ok in *. split; [destruct Hb as [?|Hb]|destruct Hc as [?|Hc]]; try (by left); right; by eapply recorded_prefix.
Qed.

Lemma plan_entry_item_triple L e :
  en_in e ∈ inputs →
  triple (λ s, run_ok cfg inputs builds L (fst s)) (plan_entry_item pager cfg e)
    (λ it s, run_ok cfg inputs builds L (fst s) ∧ item_of e (rn_Scans (fst s)) it).
Proof using builds_blocked.
  intros Hi. unfold plan_entry_item. eapply triple_bind; [apply (ctx_of_sat cfg inputs builds L)|]. intros [msg|].
  - apply triple_ret. intros s [Hs _]. split; [done|]. by apply quiet_ok.
  - eapply triple_weaken; [apply (process_triple pager cfg inputs builds builds_blocked L)|by intros s []|]; try done.
    intros it s [Hs Hit]. split; [done|]. by rewrite baseItem_ref in Hit.
Qed.

Lemma plan_items_triple l L :
  (∀ e, e ∈ l → en_in e ∈ inputs) →
  triple (λ s, run_ok cfg inputs builds L (fst s)) (plan_items pager cfg l)
    (λ items s, run_ok cfg inputs builds L (fst s) ∧ Forall2 (λ e it, item_of e (rn_Scans (fst s)) it) l items).
Proof using builds_blocked.
  revert L. induction l as [|e l IH]; intros L Hl; cbn [plan_items]; [by apply triple_ret|].
  eapply triple_bind; [apply plan_entry_item_triple; apply Hl; by left|]. intros it s [Hs Hit].
  assert (Hs' : run_ok cfg inputs builds (rn_Scans s.1) s.1) by (destruct Hs as (? & ? & _); by split_and!).
  specialize (IH (rn_Scans s.1) ltac:(intros; apply Hl; by right) s Hs').
  unfold mbind, plan_bind. destruct (plan_items pager cfg l s) as [[items s2]|]; cbn; [|done].
  destruct IH as [(Hok & Hb & Hp) Hitems]. split.
  - split_and!; [done..|]. destruct Hs as (_ & _ & Hp0). by etrans.
  - constructor; [|done]. by eapply item_of_prefix.
Qed.
End items.

(** ** Automation for invariants most operations do not touch *)

(** Goes through an operation and leaves what is not kept by computation. *)
Ltac sat_auto :=
  repeat match goal with
  | |- sat _ (match ?x with _ => _ end) _ => destruct x
  | |- sat _ (if ?x then _ else _) _ => destruct x
  | |- sat _ (let '(_, _) := ?x in _) _ => destruct x
  | |- sat _ (mret _) _ => by apply sat_ret
  | |- sat _ (_ ≫= _) _ => eapply (sat_bind _ _ (λ _, True)); [|intros ? _]
  | |- sat _ (ask _) _ => eapply sat_true, sat_ask
  | |- sat _ (change _) _ => apply sat_change; intros ? ? ?; assumption
  | |- sat _ (call _) _ => apply sat_call; intros ? ? ?; assumption
  end.

(** ** Limits *)

Section pages.
Context {St Err : Type} `{Registry St Err} `{World St Err} (pager : option (TagPager St Err)).
Context `{GoUnicodeUpper, GoQuote, MapRange}.
Context (cfg : Config).
Notation run := (run (Err := Err)).

(** The registry makes no more page requests than it is allowed to. *)
Definition keeps_allowance : Prop :=
  ∀ repo n (s : St) list (err : option Err) s', (0 < n)%Z → ListTagsUpTo repo n s = ((list, err), s') → (tl_Pages list ≤ n)%Z.

Definition pages_ok (s : run * St) : Prop := ∀ k, (used_pages (fst s) k ≤ lm_MaxTagPages (cf_Limits cfg))%Z.

Context (pages_counted : counted_pages pager) (kept_allowance : keeps_allowance).

Lemma count_pages_ok key n (r : run) (w : St) :
  pages_ok (r, w) → (n ≤ lm_MaxTagPages (cf_Limits cfg) - used_pages r key)%Z → pages_ok (count_pages key n r, w).
Proof.
  intros Hr Hn k. unfold used_pages at 1, count_pages. cbn.
  destruct (decide (k = key)) as [->|Hne]; [rewrite lookup_insert_eq|rewrite lookup_insert_ne by done; apply Hr].
  cbn [default]. unfold id. lia.
Qed.

Lemma listed_pages repo cur n w list whole err w' :
  (0 < n)%Z → listPinnedSeries pager repo cur n w = Some ((list, whole, err), w') → (tl_Pages list ≤ n)%Z.
Proof using pages_counted kept_allowance.
  intros Hn Hl. unfold counted_pages in pages_counted. destruct pager as [p|].
  - destruct (listPinnedSeries_total p repo cur n w (pages_counted repo) (kept_allowance repo)) as (l & b & e & s' & E & Hb).
    rewrite E in Hl. injection Hl as <- <- <- <-. lia.
  - cbn in Hl. destruct (ListTagsUpTo repo n w) as [[l e] s'] eqn:E. injection Hl as <- <- <- <-.
    by apply (kept_allowance repo n w l e s').
Qed.

Lemma series_entry_pages ref repoKey it : sat pages_ok (series_entry pager cfg ref repoKey it) (λ _, True).
Proof using pages_counted kept_allowance.
  intros [r w] Hr. unfold series_entry, ask, mbind at 1, plan_bind at 1. cbn [fst mbind option_bind]. unfold id.
  destruct (rn_tags r !! _); [done|]. destruct (rn_fullTags r !! _); [done|]. destruct (rn_halted r); [done|].
  destruct (Z.leb_spec (lm_MaxTagPages (cf_Limits cfg) - used_pages r repoKey) 0); [done|].
  unfold list_series, mbind, plan_bind, change. cbn [snd fst].
  destruct (listPinnedSeries pager _ _ _ w) as [[[[list whole] err] w']|] eqn:El; cbn [mbind option_bind snd fst]; [|done].
  apply listed_pages in El; [|lia].
  destruct whole; cbn [mret plan_ret mbind option_bind snd fst]; (split; [|done]); by apply count_pages_ok.
Qed.

Lemma registryOutcome_pages repo err : sat pages_ok (registryOutcome repo err) (λ _, True).
Proof. unfold registryOutcome, dead_context, deadlineReason, halt_with, ctx_of. sat_auto. Qed.

Lemma pinnedCandidate_pages ref it : sat pages_ok (pinnedCandidate pager cfg ref it) (λ _, True).
Proof using pages_counted kept_allowance.
  unfold pinnedCandidate. destruct (RepositoryKey _) as [key|]; [|by apply sat_ret].
  eapply sat_bind; [apply series_entry_pages|]. intros [it'|e] _; [by apply sat_ret|].
  destruct (te_err e); [eapply sat_bind; [apply registryOutcome_pages|]; intros ? _; by apply sat_ret|]. sat_auto.
Qed.

Lemma fullTagList_pages repo : sat pages_ok (fullTagList cfg repo) (λ _, True).
Proof using kept_allowance.
  unfold fullTagList. destruct (RepositoryKey repo) as [key|]; [|by apply sat_ret].
  eapply (triple_bind _ _ (λ r s, pages_ok s ∧ r = fst s)); [by apply triple_ask; intros s Hs|]. intros r.
  eapply (triple_bind _ _ (λ _ s, pages_ok s)).
  - destruct (rn_fullTags r !! key); [by apply triple_ret; intros s []|].
    destruct (rn_halted r); [by apply triple_ret; intros s []|].
    destruct (Z.leb_spec (lm_MaxTagPages (cf_Limits cfg) - used_pages r key) 0); [by apply triple_ret; intros s []|].
    eapply (triple_bind _ _ (λ x s, pages_ok s ∧ r = fst s ∧ tl_Pages (fst x) ≤ lm_MaxTagPages (cf_Limits cfg) - used_pages r key)%Z).
    { apply triple_call. intros r' w [list err] w' [Hr ->] E. split_and!; [done..|]. cbn [fst] in *. eapply kept_allowance; [|exact E]. lia. }
    intros [list err]. cbn [fst].
    eapply (triple_bind _ _ (λ _ s, pages_ok s ∧ used_pages r key = used_pages (fst s) key ∧ tl_Pages list ≤ lm_MaxTagPages (cf_Limits cfg) - used_pages r key)%Z).
    { apply triple_change. by intros r' w (Hr & -> & Hn). }
    intros _. eapply (triple_bind _ _ (λ _ s, pages_ok s)); [|intros _; by apply triple_ret].
    apply triple_change. intros r' w (Hr & E & Hn). cbn [fst] in E. apply count_pages_ok; [done|lia].
  - intros [out|e]; [by apply triple_ret|]. destruct (te_err e) as [err|].
    + eapply sat_bind; [apply registryOutcome_pages|]. intros ? _. by apply sat_ret.
    + destruct (tl_Truncated _); by apply sat_ret.
Qed.

Lemma resolveTag_pages repo tag platform : sat pages_ok (resolveTag repo tag platform) (λ _, True).
Proof.
  unfold resolveTag. sat_auto; apply registryOutcome_pages.
Qed.

Lemma compareImage_pages i repo tag platform res targets : sat pages_ok (compareImage cfg i repo tag platform res targets) (λ _, True).
Proof.
  unfold compareImage, baseline_scan, candidate_scan, scanUnder, addExecution, ctx_of, deadlineReason, intel. sat_auto.
Qed.

Lemma process_pages i it : sat pages_ok (process pager cfg i it) (λ _, True).
Proof using pages_counted kept_allowance.
  assert (Hrc : ∀ ref tag it, sat pages_ok (resolve_and_compare cfg i ref tag it) (λ _, True)).
  { intros. unfold resolve_and_compare, compare_item. sat_auto; (apply resolveTag_pages || apply compareImage_pages). }
  unfold process. eapply sat_bind; [apply sat_ask|]. intros builds _. destruct (rejected _ _ _ _); [by apply sat_ret|].
  destruct (String.eqb _ _); [|apply Hrc]. eapply sat_bind; [apply pinnedCandidate_pages|].
  intros [it'|tag] _; [by apply sat_ret|apply Hrc].
Qed.

Lemma plan_items_pages l : sat pages_ok (plan_items pager cfg l) (λ _, True).
Proof using pages_counted kept_allowance.
  induction l as [|e l IH]; cbn [plan_items]; [by apply sat_ret|].
  eapply (sat_bind _ _ (λ _, True)); [|intros it _; eapply sat_bind; [exact IH|]; intros; by apply sat_ret].
  unfold plan_entry_item, ctx_of. sat_auto. apply process_pages.
Qed.
End pages.

(** ** A halted pass *)

Section halted.
Context {St Err : Type} `{Registry St Err} `{World St Err} (pager : option (TagPager St Err)).
Context `{GoUnicodeUpper, GoQuote, MapRange}.
Context (cfg : Config) (requests : St → nat).
Notation run := (run (Err := Err)).

(** Requests to the registry are counted: nothing else the planner calls makes
    one. *)
Record counts_registry : Prop := {
  cr_scan : ∀ t w, requests (snd (Scan t w)) = requests w;
  cr_verify : ∀ c w, requests (snd (VerifyDB c w)) = requests w;
  cr_now : ∀ w, requests (snd (Now w)) = requests w;
  cr_ctx : ∀ ctx w, requests (snd (ctx_Err ctx w)) = requests w;
}.

Context (counted : counts_registry) (N : nat).

Definition quiet_pass (s : run * St) : Prop := requests (snd s) = N ∧ is_Some (rn_halted (fst s)).

Lemma quiet_call {A} (f : St → A * St) : (∀ w, requests (snd (f w)) = requests w) → sat quiet_pass (call f) (λ _, True).
Proof. intros Hf. apply sat_call. intros r w [Hn Hh]. split; [|done]. cbn in *. by rewrite Hf. Qed.

Lemma quiet_ctx_of : sat quiet_pass ctx_of (λ _, True).
Proof using counted. unfold ctx_of. sat_auto. apply quiet_call. intros. apply counted. Qed.

Lemma quiet_reason : sat quiet_pass deadlineReason (λ _, True).
Proof using counted. unfold deadlineReason. sat_auto. apply quiet_call. intros. apply counted. Qed.

Lemma quiet_registryOutcome repo err : sat quiet_pass (registryOutcome repo err) (λ _, True).
Proof using counted.
  unfold registryOutcome, dead_context, halt_with.
  sat_auto; try (apply quiet_ctx_of || apply quiet_reason); apply sat_change; intros r w [Hn _]; (split; [done|by eexists]).
Qed.

Lemma quiet_series_entry ref repoKey it : sat quiet_pass (series_entry pager cfg ref repoKey it) (λ _, True).
Proof.
  unfold series_entry. eapply sat_bind; [apply sat_ask|]. intros r (r0 & w & [_ [h Hh]] & ->). cbn [fst] in Hh. unfold id.
  destruct (rn_tags r0 !! _); [by apply sat_ret|]. destruct (rn_fullTags r0 !! _); [sat_auto|]. rewrite Hh. by apply sat_ret.
Qed.

Lemma quiet_resolveTag repo tag platform : sat quiet_pass (resolveTag repo tag platform) (λ _, True).
Proof using counted.
  unfold resolveTag. eapply sat_bind; [apply sat_ask|]. intros r (r0 & w & [_ [h Hh]] & ->). cbn [fst] in Hh. unfold id.
  eapply (sat_bind _ _ (λ _, True)); [rewrite Hh; sat_auto|]. intros [out|e] _; [by apply sat_ret|].
  destruct (re_err e); [|by apply sat_ret]. eapply sat_bind; [apply quiet_registryOutcome|]. intros. by apply sat_ret.
Qed.

Lemma quiet_fullTagList repo : sat quiet_pass (fullTagList cfg repo) (λ _, True).
Proof using counted.
  unfold fullTagList. destruct (RepositoryKey repo); [|by apply sat_ret].
  eapply sat_bind; [apply sat_ask|]. intros r (r0 & w & [_ [h Hh]] & ->). cbn [fst] in Hh. unfold id.
  eapply (sat_bind _ _ (λ _, True)); [rewrite Hh; sat_auto|]. intros [out|e] _; [by apply sat_ret|].
  destruct (te_err e); [|destruct (tl_Truncated _); by apply sat_ret].
  eapply sat_bind; [apply quiet_registryOutcome|]. intros. by apply sat_ret.
Qed.

Lemma quiet_compareImage i repo tag platform res targets :
  sat quiet_pass (compareImage cfg i repo tag platform res targets) (λ _, True).
Proof using counted.
  unfold compareImage, baseline_scan, candidate_scan, scanUnder, addExecution, intel.
  sat_auto; try (apply quiet_ctx_of || apply quiet_reason); apply quiet_call; intros; apply counted.
Qed.

Lemma quiet_process i it : sat quiet_pass (process pager cfg i it) (λ _, True).
Proof using counted.
  assert (Hrc : ∀ ref tag it, sat quiet_pass (resolve_and_compare cfg i ref tag it) (λ _, True)).
  { intros. unfold resolve_and_compare, compare_item. sat_auto; (apply quiet_resolveTag || apply quiet_compareImage). }
  unfold process, pinnedCandidate. sat_auto; (apply Hrc || apply quiet_series_entry || apply quiet_registryOutcome).
Qed.

Lemma quiet_plan_items l : sat quiet_pass (plan_items pager cfg l) (λ _, True).
Proof using counted.
  induction l as [|e l IH]; cbn [plan_items]; [by apply sat_ret|]. unfold plan_entry_item.
  sat_auto; (exact IH || apply quiet_ctx_of || apply quiet_process).
Qed.
End halted.

(** ** A pass *)

Section pass.
Context {St Err : Type} `{Registry St Err} `{World St Err} (pager : option (TagPager St Err)).
Context `{GoUnicodeUpper, GoQuote, MapRange}.
Context (cfg : Config) (inputs : list ImageInput) (builds : gmap string composeState).
Context (w w' : St) (r' : run (Err := Err)) (items : list Item).
Context (planned : plan_images pager cfg inputs (new_run builds, w) = Some (items, (r', w'))).

(** The pass is its loop over the entries, besides the count of requests. *)
Lemma plan_images_inv :
  ∃ r1, plan_items pager cfg (plan_entries cfg inputs) (new_run builds, w) = Some (items, (r1, w')) ∧
    r' = r1 <| rn_Usage := rn_Usage r1 <| us_RegistryRequests := (Budget_Used w' - Budget_Used w)%Z |> |>.
Proof using planned.
  revert planned. unfold plan_images, mbind, plan_bind, call, change. cbn [fst snd mbind option_bind].
  destruct (plan_items pager cfg (plan_entries cfg inputs) (new_run builds, w)) as [[its [r1 w1]]|]; cbn; [|done].
  intros [= <- <- <-]. by exists r1.
Qed.

Lemma new_run_scans_ok :
  (0 ≤ lm_MaxCandidateScans (cf_Limits cfg))%Z → (0 ≤ lm_MaxBaselineRescans (cf_Limits cfg))%Z →
  run_ok cfg inputs builds [] (new_run (Err := Err) builds).
Proof.
  intros Hc Hb. split_and!; [|done|apply prefix_nil]. unfold scans_ok. cbn.
  split; [apply map_Forall_empty|apply map_Forall_empty|..]; rewrite ?map_size_empty; cbn; (done || lia).
Qed.

Context (accepted : NewPlanner true true cfg = Some cfg).

Lemma limits_accepted :
  (0 ≤ lm_MaxCandidateScans (cf_Limits cfg))%Z ∧ (0 ≤ lm_MaxBaselineRescans (cf_Limits cfg))%Z ∧
  (0 ≤ lm_MaxTagPages (cf_Limits cfg))%Z.
Proof using accepted.
  revert accepted. unfold NewPlanner. cbn [negb orb].
  destruct (Z.ltb_spec (lm_MaxCandidateScans (cf_Limits cfg)) 0), (Z.ltb_spec (lm_MaxBaselineRescans (cf_Limits cfg)) 0),
    (Z.ltb_spec (lm_MaxTagPages (cf_Limits cfg)) 0); (done || intros _; lia).
Qed.

Lemma pass_pages :
  counted_pages pager → keeps_allowance (St := St) (Err := Err) → pages_ok (St := St) (Err := Err) cfg (r', w').
Proof using planned accepted.
  intros Hc Hk. destruct plan_images_inv as (r1 & Hr & ->).
  assert (Hstart : pages_ok (St := St) (Err := Err) cfg (new_run builds, w)).
  { intros k. unfold used_pages. cbn. rewrite lookup_empty. by destruct limits_accepted as (_ & _ & ?). }
  destruct (triple_run _ _ _ _ _ _ (plan_items_pages pager cfg Hc Hk (plan_entries cfg inputs)) Hstart Hr) as [Hpg _]. exact Hpg.
Qed.

Context (builds_blocked : ∀ k st out, builds !! k = Some st → cs_out st = Some out → blocked (po_cat out)).

Lemma pass_items :
  run_ok cfg inputs builds [] r' ∧
  Forall2 (λ e it, item_of cfg inputs e (rn_Scans r') it) (plan_entries cfg inputs) items.
Proof using planned accepted builds_blocked.
  destruct plan_images_inv as (r1 & Hp & ->). destruct limits_accepted as (Hc & Hb & _).
  refine (triple_run _ _ _ _ _ _ (plan_items_triple pager cfg inputs builds builds_blocked _ [] _) _ Hp).
  - intros e He. by apply (plan_entry_in cfg).
  - by apply new_run_scans_ok.
Qed.
End pass.

(** C3: An update is proposed only on evidence. An item that asks for a new tag
    (of a pinned image) or for pulling again (of a floating tag) is for one of
    the running images, with the fixable findings of its scan as targets; its
    tag is a released newer patch of the same series, or the floating tag
    itself; the content the tag resolves to is none of the digests the image
    runs; and the comparison it rests on is between a scan of an image with
    this identity and a scan of that content, both under the prepared
    conditions (a scan the planner made itself only when the databases were
    verified unchanged right after it), of which the first can be compared with
    the second, nothing is new, every target was judged and at least one is
    fixed. *)
Theorem proposals_justified {St Err} `{Registry St Err} `{World St Err} `{GoUnicodeUpper, GoQuote, MapRange}
    (pager : option (TagPager St Err)) cfg inputs builds w items r w' it :
  NewPlanner true true cfg = Some cfg →
  (∀ k st out, builds !! k = Some st → cs_out st = Some out → blocked (po_cat out)) →
  plan_images pager cfg inputs (new_run builds, w) = Some (items, (r, w')) →
  it ∈ items → proposing it →
  ∃ i, i ∈ inputs ∧ it_Targets it = SelectTargets (sn_Findings (in_Scan i)) (cf_Intel cfg) ∧
       evidence cfg inputs i (ParseImageRef (input_ref i)) it.
Proof.
  intros Ha Hb Hp Hit Hprop. destruct (pass_items pager cfg inputs builds w w' r items Hp Ha Hb) as [_ Hf].
  apply list_elem_of_lookup in Hit as [n Hn]. destruct (Forall2_lookup_r _ _ _ _ _ Hf Hn) as (e & He & Hk & _ & Hev).
  apply list_elem_of_lookup_2, (plan_entry_in cfg) in He as (Hi & Ht & Hr). exists (en_in e). split; [done|].
  rewrite <- Ht, <- Hr. split; [apply Hk|]. by apply Hev.
Qed.

(** C14: Every running image with a fixable finding gets exactly one item, the
    most urgent first and in the order of the images among equals, under the
    key of its reference and entity, with the services, declarations, targets
    and priority of its image; images without one get none. *)
Theorem plan_items_complete {St Err} `{Registry St Err} `{World St Err} `{GoUnicodeUpper, GoQuote, MapRange}
    (pager : option (TagPager St Err)) cfg inputs builds w items r w' :
  NewPlanner true true cfg = Some cfg →
  (∀ k st out, builds !! k = Some st → cs_out st = Some out → blocked (po_cat out)) →
  plan_images pager cfg inputs (new_run builds, w) = Some (items, (r, w')) →
  ∃ es, Forall2 (λ e it, kept (baseItem (en_in e) (en_ref e) (en_targets e)) it) es items ∧
    StronglySorted (λ a b, urgency b ≤ urgency a) es ∧
    es ≡ₚ entry_of cfg <$> filter (with_targets cfg) inputs ∧
    ∀ k, filter (λ e, urgency e = k) es = filter (λ e, urgency e = k) (entry_of cfg <$> filter (with_targets cfg) inputs).
Proof.
  intros Ha Hb Hp. destruct (pass_items pager cfg inputs builds w w' r items Hp Ha Hb) as [_ Hf].
  exists (plan_entries cfg inputs). split_and!.
  - eapply Forall2_impl; [exact Hf|]. by intros e it [].
  - apply plan_entries_sorted.
  - apply plan_entries_perm.
  - apply plan_entries_stable.
Qed.

(** A pass keeps its limits. With a registry that makes no more page
    requests than it is allowed, the candidate scans, the repeated baseline
    scans and, for every repository, the pages read stay within the limits,
    whatever the registry and the scanner answer; and no content is scanned
    twice: every recorded scan is the cached one of a candidate or of a
    baseline. *)
Theorem limits_kept {St Err} `{Registry St Err} `{World St Err} `{GoUnicodeUpper, GoQuote, MapRange}
    (pager : option (TagPager St Err)) cfg inputs builds w items r w' :
  NewPlanner true true cfg = Some cfg →
  (∀ k st out, builds !! k = Some st → cs_out st = Some out → blocked (po_cat out)) →
  counted_pages pager → keeps_allowance (St := St) (Err := Err) →
  plan_images pager cfg inputs (new_run builds, w) = Some (items, (r, w')) →
  let limits := cf_Limits cfg in
  (us_CandidateScans (rn_Usage r) ≤ lm_MaxCandidateScans limits)%Z ∧
  (us_BaselineRescans (rn_Usage r) ≤ lm_MaxBaselineRescans limits)%Z ∧
  (∀ repo, used_pages r repo ≤ lm_MaxTagPages limits)%Z ∧
  us_CandidateScans (rn_Usage r) = Z.of_nat (size (rn_cands r)) ∧
  length (rn_Scans r) = size (rn_cands r) + size (rn_bases r).
Proof.
  intros Ha Hb Hc Hk Hp. destruct (pass_items pager cfg inputs builds w w' r items Hp Ha Hb) as [(Hok & _) _].
  destruct Hok. cbv zeta. split_and!; try done. exact (pass_pages pager cfg inputs builds w w' r items Hp Ha Hc Hk).
Qed.

(** The identifiers of the scans, in order. *)
Lemma scans_numbered {St Err} `{World St Err} cfg inputs (r : run (Err := Err)) :
  scans_ok cfg inputs r →
  ex_ID <$> rn_Scans r = (λ n, "s" +:+ signed_itoa (Z.of_nat n)) <$> seq 1 (length (rn_Scans r)).
Proof.
  intros Hok. apply list_eq. intros n. rewrite !list_lookup_fmap.
  destruct (rn_Scans r !! n) as [x|] eqn:Ex; cbn.
  - rewrite lookup_seq_lt by (by eapply lookup_lt_Some). cbn. f_equal. rewrite (si_ids _ _ _ _ _ _ _ Hok _ _ Ex).
    unfold exec_id. do 2 f_equal. lia.
  - apply lookup_ge_None in Ex. by rewrite (proj2 (lookup_ge_None _ _)) by (rewrite length_seq; lia).
Qed.

(** C19: The scans of a plan and the items fit together: the scans are numbered
    s1, s2, ... in the order they were recorded, without repetition, and what an
    item names as its baseline or candidate scan, if anything, is the identifier
    of exactly one of them, and of one with that role. *)
Theorem plan_well_formed {St Err} `{Registry St Err} `{World St Err} `{GoUnicodeUpper, GoQuote, MapRange}
    (pager : option (TagPager St Err)) cfg inputs builds w items r w' it :
  NewPlanner true true cfg = Some cfg →
  (∀ k st out, builds !! k = Some st → cs_out st = Some out → blocked (po_cat out)) →
  plan_images pager cfg inputs (new_run builds, w) = Some (items, (r, w')) →
  it ∈ items →
  ex_ID <$> rn_Scans r = (λ n, "s" +:+ signed_itoa (Z.of_nat n)) <$> seq 1 (length (rn_Scans r)) ∧
  NoDup (ex_ID <$> rn_Scans r) ∧
  (it_BaselineScan it ≠ "" → ∃ ex, ex ∈ rn_Scans r ∧ ex_ID ex = it_BaselineScan it ∧ ex_Role ex = RoleBaseline) ∧
  (it_CandidateScan it ≠ "" → ∃ ex, ex ∈ rn_Scans r ∧ ex_ID ex = it_CandidateScan it ∧ ex_Role ex = RoleCandidate).
Proof.
  intros Ha Hb Hp Hit. destruct (pass_items pager cfg inputs builds w w' r items Hp Ha Hb) as [(Hok & _) Hf].
  apply list_elem_of_lookup in Hit as [n Hn]. destruct (Forall2_lookup_r _ _ _ _ _ Hf Hn) as (e & _ & _ & [Hbi Hci] & _).
  assert (Hrec : ∀ role id, id_ok role (rn_Scans r) id → id ≠ "" → ∃ ex, ex ∈ rn_Scans r ∧ ex_ID ex = id ∧ ex_Role ex = role).
  { intros role id [?|(k & ex & Hk & Hid & Hrole & ->)] Hne; [done|]. exists ex. split_and!; [by eapply list_elem_of_lookup_2|done..]. }
  split_and!; [by apply (scans_numbered cfg inputs)| |by apply Hrec|by apply Hrec].
  apply NoDup_alt. intros a b id. rewrite !list_lookup_fmap.
  destruct (rn_Scans r !! a) as [x|] eqn:Ex; cbn; [|done]. destruct (rn_Scans r !! b) as [y|] eqn:Ey; cbn; [|done].
  intros [= <-] [= E]. apply exec_id_inj. rewrite <- (si_ids _ _ _ _ _ _ _ Hok _ _ Ex), <- (si_ids _ _ _ _ _ _ _ Hok _ _ Ey). done.
Qed.

(** C18: Once a pass is halted (rate limited, out of budget, past its deadline)
    it makes no further request to the registry, whatever images are left: for
    any count that only calls of the registry change, the count stays, and the
    pass stays halted. *)
Theorem halted_asks_nothing {St Err} `{Registry St Err} `{World St Err} `{GoUnicodeUpper, GoQuote, MapRange}
    (pager : option (TagPager St Err)) cfg requests entries r w items r' w' :
  counts_registry (St := St) (Err := Err) requests → is_Some (rn_halted r) →
  plan_items pager cfg entries (r, w) = Some (items, (r', w')) →
  requests w' = requests w ∧ is_Some (rn_halted r').
Proof.
  intros Hc Hh Hp.
  assert (Hq : quiet_pass requests (requests w) (r, w)) by done.
  by destruct (triple_run _ _ _ _ _ _ (quiet_plan_items pager cfg requests Hc (requests w) entries) Hq Hp).
Qed.

(** C20: A pass over the images ends, whatever the registry and the scanner
    answer: also when pages of a tag listing repeat for ever or are out of
    order. *)
Theorem plan_images_returns {St Err} `{Registry St Err} `{World St Err} `{GoUnicodeUpper, GoQuote, MapRange}
    (pager : option (TagPager St Err)) cfg inputs s :
  counted_pages pager → is_Some (plan_images pager cfg inputs s).
Proof.
  intros Hc. pose proof (plan_items_returns pager cfg (plan_entries cfg inputs) Hc) as Hr. revert s.
  change (returns (plan_images pager cfg inputs)). unfold plan_images. repeat returns_step.
Qed.

(** ** A small world

    A registry with one newer patch of the running image, in which OpenSSL is
    fixed; its state counts the requests. *)

#[local] Instance example_kind_dec : EqDecision errKind.
Proof. solve_decision. Defined.

Definition example_hex (c : ascii) : string := Nat.iter 64 (String c) "".

Definition example_running : EntityKey :=
  mk_entity (mk_digest DigestConfig "sha256" (example_hex "a")) (mk_platform "linux" "amd64" "").

Definition example_image (subject : ImageSubject) (version : string) (findings : list Finding) : ImageScan :=
  mk_scan "app" false findings None "" "" subject [] true SourceLocal [] "debian" (mk_platform "linux" "amd64" "")
    (example_packages version) false (is_Key subject) "" "".

Definition example_subject : ImageSubject := mk_subject "registry.example/app:1.2.3" example_running true.

Definition example_input : ImageInput :=
  mk_input (example_image example_subject "3.0.1" [example_fixable]) example_conditions
    (mk_scan_target example_subject (mk_registry_ref "" zero_digest) SourceLocal) [] [].

#[local] Instance example_registry : Registry nat errKind :=
  λ _ _ n, ((mk_tag_list ["1.2.3"; "1.2.4"] false 1, None), S n).

#[local] Instance example_world : World nat errKind := {
  Resolve _ _ _ n := ((mk_resolution ("sha256:" +:+ example_hex "b") ("sha256:" +:+ example_hex "c")
                                     ("sha256:" +:+ example_hex "d"), None), S n);
  Scan t n := (example_image (st_Subject t) "3.0.2" [], n);
  VerifyDB _ n := ((true, None), n);
  Now n := (0%Z, n);
  ctx_Err _ n := (None, n);
  Budget_Used n := Z.of_nat n;
  Budget_Reserve _ n := n;
  err_is k e := bool_decide (k = e);
  err_Error e := "rate limited";
}.

Definition example_config : Config := mk_config example_conditions (mk_limits 1 0 2) None.

Definition example_plan (inputs : list ImageInput) : option (list Item * (run * nat)) :=
  plan_images None example_config inputs (new_run ∅, 0).

(** What is checked of an item and of the run. *)
Definition example_summary (x : option (list Item * (run (Err := errKind) * nat))) : list (string * string * string * string) * Z * nat :=
  match x with
  | Some (items, (r, w)) =>
      ((λ it, (it_Category it, it_Reason it, it_BaselineScan it, it_CandidateScan it)) <$> items, us_CandidateScans (rn_Usage r), w)
  | None => ([], 0%Z, 0)
  end.

Lemma example_blocked k st out : (∅ : gmap string composeState) !! k = Some st → cs_out st = Some out → blocked (po_cat out).
Proof. by rewrite lookup_empty. Qed.

(** The running image and another container of it: one candidate scan for
    both. *)
Definition example_inputs : list ImageInput := [example_input; example_input].

Example example_plan_result :
  example_summary (example_plan example_inputs) =
  ([(CategoryPRCandidate, ReasonAdopted, "s1", "s2"); (CategoryPRCandidate, ReasonAdopted, "s1", "s2")], 1%Z, 2).
Proof. by vm_compute. Qed.

Definition example_items : list Item := match example_plan example_inputs with Some (items, _) => items | None => [] end.
Definition example_end : run (Err := errKind) * nat :=
  match example_plan example_inputs with Some (_, s) => s | None => (new_run ∅, 0) end.

Lemma example_planned :
  plan_images None example_config example_inputs (new_run ∅, 0) = Some (example_items, (fst example_end, snd example_end)).
Proof.
  assert (Hs : match example_plan example_inputs with Some _ => true | None => false end = true) by (vm_compute; reflexivity).
  unfold example_items, example_end. revert Hs. fold (example_plan example_inputs).
  destruct (example_plan example_inputs) as [[its [r w]]|]; [reflexivity|discriminate].
Qed.

Definition example_item : Item := nth 0 example_items (baseItem example_input "" []).

Lemma example_item_in : example_item ∈ example_items.
Proof. apply list_elem_of_In. vm_compute. by left. Qed.

Lemma proposals_justified_witness :
  it_Category example_item = CategoryPRCandidate ∧
  ∃ i, i ∈ example_inputs ∧ it_Targets example_item = SelectTargets (sn_Findings (in_Scan i)) (cf_Intel example_config) ∧
       evidence example_config example_inputs i (ParseImageRef (input_ref i)) example_item.
Proof.
  split; [by vm_compute|].
  refine (proposals_justified None example_config example_inputs ∅ 0 example_items _ _ example_item _
    example_blocked example_planned example_item_in _); [by vm_compute|by left; vm_compute].
Defined.

Lemma plan_items_complete_witness :
  length example_items = 2 ∧
  ∃ es, Forall2 (λ e it, kept (baseItem (en_in e) (en_ref e) (en_targets e)) it) es example_items ∧
    StronglySorted (λ a b, urgency b ≤ urgency a) es ∧
    es ≡ₚ entry_of example_config <$> filter (with_targets example_config) example_inputs ∧
    ∀ k, filter (λ e, urgency e = k) es =
         filter (λ e, urgency e = k) (entry_of example_config <$> filter (with_targets example_config) example_inputs).
Proof.
  split; [by vm_compute|].
  refine (plan_items_complete None example_config example_inputs ∅ 0 example_items _ _ _ example_blocked example_planned).
  by vm_compute.
Defined.

Lemma limits_kept_witness :
  us_CandidateScans (rn_Usage (fst example_end)) = 1%Z ∧
  let limits := cf_Limits example_config in let r := fst example_end in
  (us_CandidateScans (rn_Usage r) ≤ lm_MaxCandidateScans limits)%Z ∧
  (us_BaselineRescans (rn_Usage r) ≤ lm_MaxBaselineRescans limits)%Z ∧
  (∀ repo, used_pages r repo ≤ lm_MaxTagPages limits)%Z ∧
  us_CandidateScans (rn_Usage r) = Z.of_nat (size (rn_cands r)) ∧
  length (rn_Scans r) = size (rn_cands r) + size (rn_bases r).
Proof.
  split; [by vm_compute|].
  refine (limits_kept None example_config example_inputs ∅ 0 example_items _ _ _ example_blocked I _ example_planned);
    [by vm_compute|].
  intros repo n s l err s' Hn [= <- <- <-]. cbn. lia.
Defined.

Lemma plan_well_formed_witness :
  it_CandidateScan example_item = "s2" ∧
  ex_ID <$> rn_Scans (fst example_end) =
    (λ n, "s" +:+ signed_itoa (Z.of_nat n)) <$> seq 1 (length (rn_Scans (fst example_end))) ∧
  NoDup (ex_ID <$> rn_Scans (fst example_end)) ∧
  (it_BaselineScan example_item ≠ "" →
    ∃ ex, ex ∈ rn_Scans (fst example_end) ∧ ex_ID ex = it_BaselineScan example_item ∧ ex_Role ex = RoleBaseline) ∧
  (it_CandidateScan example_item ≠ "" →
    ∃ ex, ex ∈ rn_Scans (fst example_end) ∧ ex_ID ex = it_CandidateScan example_item ∧ ex_Role ex = RoleCandidate).
Proof.
  split; [by vm_compute|].
  refine (plan_well_formed None example_config example_inputs ∅ 0 example_items _ _ example_item _ example_blocked
    example_planned example_item_in). by vm_compute.
Defined.

(** The pass after a rate limit: the image is deferred. *)
Definition example_halted : run (Err := errKind) :=
  (new_run ∅) <| rn_halted := Some (mk_halt ReasonRateLimited "rate limited") |>.
Definition example_entries : list plan_entry := plan_entries example_config example_inputs.
Definition example_deferred : option (list Item * (run (Err := errKind) * nat)) :=
  plan_items None example_config example_entries (example_halted, 7).

Lemma halted_asks_nothing_witness :
  example_summary example_deferred =
    ([(CategoryDeferred, ReasonRateLimited, "", ""); (CategoryDeferred, ReasonRateLimited, "", "")], 0%Z, 7) ∧
  ∃ items r' w', example_deferred = Some (items, (r', w')) ∧ w' = 7 ∧ is_Some (rn_halted r').
Proof.
  split; [by vm_compute|].
  destruct example_deferred as [[items [r' w']]|] eqn:E; [|by vm_compute in E].
  exists items, r', w'. split; [done|].
  refine (halted_asks_nothing None example_config id example_entries example_halted 7 items r' w' _ _ E);
    [by split|by eexists].
Defined.

(** A registry that repeats its pages for ever. *)
#[local] Instance example_repeating : TagPager nat errKind :=
  λ _ _ _ n, ((mk_tags_after ["1.0.0"; "zzz"] true true, None), S n).

Lemma plan_images_returns_witness :
  counted_pages (Some example_repeating) ∧
  is_Some (plan_images (Some example_repeating) example_config example_inputs (new_run ∅, 0)).
Proof.
  assert (Hc : counted_pages (Some example_repeating)) by (intros repo last s page s' [= <- <-]; done).
  split; [exact Hc|]. exact (plan_images_returns (Some example_repeating) example_config example_inputs (new_run ∅, 0) Hc).
Defined.
