(* ===== verification/PlannerWork.v ===== *)
(** * PlannerWork: what a pass really asks of the registry and the scanner

    The counters of a run tell the truth. For any measure of the world that
    counts the pages requested of a repository and the scans made, the pages of
    the run's own counters and its scan counters are exactly what was requested
    and scanned since the pass began; and the complete listings the run keeps
    are what the registry answered. One traversal of the operations serves
    both. *)

From Stdlib Require Import ZArith Lia Bool Ascii String List Sorted.
From stdpp Require Import base gmap strings list.
From S2P Require Import Prelude GoStrings GoRegexp Reference Inventory Triage Report Build Compare ImageTag TagSeries Adopt Declared Plan Planner PlannerInv PlannerSpec.

Open Scope string_scope.
Open Scope Z_scope.
Open Scope nat_scope.
Open Scope list_scope.
Open Scope kl_scope.

(** Two assertions of the same operation. *)
Lemma triple_and {St Err A} (P P' : run (Err := Err) * St → Prop) (m : plan A) (Q Q' : A → run * St → Prop) :
  triple P m Q → triple P' m Q' → triple (λ s, P s ∧ P' s) m (λ x s, Q x s ∧ Q' x s).
Proof. intros HQ HQ' s [Hs Hs']. specialize (HQ s Hs). specialize (HQ' s Hs'). by destruct (m s) as [[x s']|]. Qed.

(** ** One traversal *)

Section traversal.
Context {St Err : Type} `{Registry St Err} `{World St Err} (pager : option (TagPager St Err)).
Context `{GoUnicodeUpper, GoQuote, MapRange}.
Context (cfg : Config).
Notation run := (run (Err := Err)).

(** What neither lists nor scans leaves the listings and the counters. *)
Definition same_listings (r r' : run) : Prop :=
  rn_tagUsed r' = rn_tagUsed r ∧ rn_fullTags r' = rn_fullTags r ∧ rn_Usage r' = rn_Usage r.

Record kept_quiet (J : run * St → Prop) : Prop := {
  kq_resolve : ∀ repo tag platform, sat J (call (Resolve repo tag platform)) (λ _, True);
  kq_ctx : ∀ ctx, sat J (call (ctx_Err ctx)) (λ _, True);
  kq_change : ∀ f, (∀ r, same_listings r (f r)) → sat J (change f) (λ _, True);
}.

(** An assertion the operations that list and scan keep, and all that do
    neither. *)
Record carried (J : run * St → Prop) : Prop := {
  ca_quiet : kept_quiet J;
  ca_series : ∀ ref key it, RepositoryKey (ir_Repository ref) = Some key → sat J (series_entry pager cfg ref key it) (λ _, True);
  ca_full : ∀ repo, sat J (fullTagList cfg repo) (λ _, True);
  ca_base : ∀ i, sat J (baseline_scan cfg i) (λ _, True);
  ca_cand : ∀ repo tag digest platform, sat J (candidate_scan cfg repo tag digest platform) (λ _, True);
}.

Context (J : run * St → Prop).

(** Goes on where [sat_auto] stops: at the calls and changes that list and
    scan nothing. *)
Ltac quiet_auto Hq :=
  repeat (progress sat_auto ||
    (first [apply (kq_resolve _ Hq)|apply (kq_ctx _ Hq)|apply (kq_change _ Hq); intros ?; split_and!; reflexivity])).

Lemma ctx_of_kept : kept_quiet J → sat J ctx_of (λ _, True).
Proof. intros Hq. unfold ctx_of. quiet_auto Hq. Qed.

Lemma deadlineReason_kept : kept_quiet J → sat J deadlineReason (λ _, True).
Proof. intros Hq. unfold deadlineReason. quiet_auto Hq. Qed.

Lemma registryOutcome_kept repo err : kept_quiet J → sat J (registryOutcome repo err) (λ _, True).
Proof. intros Hq. unfold registryOutcome, dead_context, deadlineReason, halt_with, ctx_of. quiet_auto Hq. Qed.

Lemma resolveTag_kept repo tag platform : kept_quiet J → sat J (resolveTag repo tag platform) (λ _, True).
Proof. intros Hq. unfold resolveTag. quiet_auto Hq; by apply registryOutcome_kept. Qed.

Lemma compareImage_kept i repo tag platform res targets :
  carried J → sat J (compareImage cfg i repo tag platform res targets) (λ _, True).
Proof.
  intros [Hq _ _ Hb Hc]. unfold compareImage, intel.
  quiet_auto Hq; (apply Hb || apply Hc || by apply ctx_of_kept || by apply deadlineReason_kept).
Qed.

Lemma pinnedCandidate_kept ref it : carried J → sat J (pinnedCandidate pager cfg ref it) (λ _, True).
Proof.
  intros [Hq Hs _ _ _]. unfold pinnedCandidate. destruct (RepositoryKey _) as [key|] eqn:E; [|by apply sat_ret].
  quiet_auto Hq; (by apply Hs || by apply registryOutcome_kept).
Qed.

Lemma process_kept i it : carried J → sat J (process pager cfg i it) (λ _, True).
Proof.
  intros Hc. pose proof (ca_quiet _ Hc) as Hq.
  assert (Hrc : ∀ ref tag it, sat J (resolve_and_compare cfg i ref tag it) (λ _, True)).
  { intros. unfold resolve_and_compare, compare_item. sat_auto; (by apply resolveTag_kept || by apply compareImage_kept). }
  unfold process. sat_auto; (apply Hrc || by apply pinnedCandidate_kept).
Qed.

Lemma plan_items_kept l : carried J → sat J (plan_items pager cfg l) (λ _, True).
Proof.
  intros Hc. pose proof (ca_quiet _ Hc) as Hq.
  induction l as [|e l IH]; cbn [plan_items]; [by apply sat_ret|]. unfold plan_entry_item.
  sat_auto; (exact IH || by apply ctx_of_kept || by apply process_kept).
Qed.
End traversal.


#[export] Hint Resolve ctx_of_kept deadlineReason_kept registryOutcome_kept resolveTag_kept compareImage_kept ca_quiet : kl_plan.

(** ** The listings kept *)

Section listings.
Context {St Err : Type} `{Registry St Err} `{World St Err} (pager : option (TagPager St Err)).
Context `{GoUnicodeUpper, GoQuote, MapRange}.
Context (cfg : Config).
Notation run := (run (Err := Err)).
Notation tagEntry := (tagEntry (Err := Err)).

(** The entry holds what the registry said when it was asked for all tags of a
    repository with this key. *)
Definition answered (key : string) (e : tagEntry) : Prop :=
  ∃ repo n w l w', RepositoryKey repo = Some key ∧ ListTagsUpTo repo n w = ((l, te_err e), w') ∧
    tl_Tags (te_list e) = tl_Tags l ∧ tl_Truncated (te_list e) = tl_Truncated l.

(** The entry of the repository is the registry's answer, without an error and
    without being cut off, and these are its tags. *)
Definition complete_listing (full : gmap string tagEntry) (repo : string) (listed : list string) : Prop :=
  ∃ key e, RepositoryKey repo = Some key ∧ full !! key = Some e ∧ answered key e ∧
    te_err e = None ∧ tl_Truncated (te_list e) = false ∧ tl_Tags (te_list e) = listed.

(** Entries are answers, and stay. *)
Definition tags_ok (T : gmap string tagEntry) (s : run * St) : Prop :=
  T ⊆ rn_fullTags (fst s) ∧ map_Forall answered (rn_fullTags (fst s)).

Lemma complete_listing_mono T T' repo listed : T ⊆ T' → complete_listing T repo listed → complete_listing T' repo listed.
Proof. intros Hs (key & e & ? & ? & ?). exists key, e. split; [done|]. split; [by eapply lookup_weaken|done]. Qed.

Lemma tags_ok_same T (r r' : run) (w w' : St) : rn_fullTags r' = rn_fullTags r → tags_ok T (r, w) → tags_ok T (r', w').
Proof. unfold tags_ok. cbn. by intros ->. Qed.

Lemma tags_ok_insert T (r r' : run) (w w' : St) key e :
  rn_fullTags r !! key = None → rn_fullTags r' = <[key := e]> (rn_fullTags r) → answered key e →
  tags_ok T (r, w) → tags_ok T (r', w').
Proof.
  unfold tags_ok. cbn. intros Hn -> He [Hs Ha]. split; [|by apply map_Forall_insert_2].
  etrans; [exact Hs|]. by apply insert_subseteq.
Qed.

Lemma tags_quiet T : kept_quiet (tags_ok T).
Proof.
  split.
  - intros. apply sat_call. intros r w Hr. exact Hr.
  - intros. apply sat_call. intros r w Hr. exact Hr.
  - intros f Hf. apply sat_change. intros r w. apply tags_ok_same. apply Hf.
Qed.

Lemma series_entry_tags T ref key it :
  RepositoryKey (ir_Repository ref) = Some key → sat (tags_ok T) (series_entry pager cfg ref key it) (λ _, True).
Proof.
  intros Hk [r w] Hr. unfold series_entry, ask, mbind at 1, plan_bind at 1. cbn [fst mbind option_bind]. unfold id.
  destruct (rn_tags r !! _); [done|]. destruct (rn_fullTags r !! _) eqn:Ef; [done|]. destruct (rn_halted r); [done|].
  destruct (_ <=? 0)%Z; [done|]. unfold list_series, mbind, plan_bind, change. cbn [snd fst].
  destruct (listPinnedSeries pager _ _ _ w) as [[[[list whole] err] w']|] eqn:El; cbn [mbind option_bind snd fst]; [|done].
  destruct whole; cbn [mret plan_ret mbind option_bind snd fst]; (split; [|done]); [|exact Hr].
  apply listPinnedSeries_whole in El as (n & s0 & l & E & Et & Eu).
  eapply (tags_ok_insert T r _ w); [exact Ef|reflexivity| |exact Hr]. by exists (ir_Repository ref), n, s0, l, w'.
Qed.

Lemma fullTagList_tags T repo :
  triple (tags_ok T) (fullTagList cfg repo)
    (λ x s, tags_ok T s ∧ match x with inl _ => True | inr listed => complete_listing (rn_fullTags (fst s)) repo listed end).
Proof.
  unfold fullTagList. destruct (RepositoryKey repo) as [key|] eqn:Ek; [|by apply triple_ret].
  eapply (triple_bind _ _ (λ r s, tags_ok T s ∧ r = fst s)); [by apply triple_ask|]. intros r.
  eapply (triple_bind _ _ (λ x s, tags_ok T s ∧ match x with inl _ => True | inr e => rn_fullTags (fst s) !! key = Some e end)).
  - destruct (rn_fullTags r !! key) as [e|] eqn:Ef; [by apply triple_ret; intros s [? ->]|].
    destruct (rn_halted r); [by apply triple_ret; intros s []|]. destruct (_ <=? 0)%Z; [by apply triple_ret; intros s []|].
    intros [r0 w] [Hr E]. cbn [fst] in E. subst r0. unfold call, change, mbind, plan_bind. cbn [fst snd mbind option_bind].
    destruct (ListTagsUpTo repo _ w) as [[list err] w'] eqn:El. cbn. split; [|by rewrite lookup_insert_eq].
    eapply (tags_ok_insert T r _ w); [exact Ef|reflexivity| |exact Hr]. exists repo. eexists. by exists w, list, w'.
  - intros [out|e]; [by apply triple_ret; intros s []|]. destruct (te_err e) as [err|] eqn:Ee.
    + eapply (triple_bind _ _ (λ _ s, tags_ok T s ∧ True)); [|intros ?; by apply triple_ret].
      eapply triple_weaken; [apply (registryOutcome_kept (tags_ok T)); apply tags_quiet|by intros s []|done].
    + destruct (tl_Truncated (te_list e)) eqn:Et; apply triple_ret; intros s [Hs He]; (split; [done|]); [done|].
      exists key, e. split_and!; try done. by apply (proj2 Hs).
Qed.

Lemma baseline_scan_tags T i : sat (tags_ok T) (baseline_scan cfg i) (λ _, True).
Proof. unfold baseline_scan, scanUnder, addExecution. sat_auto. Qed.

Lemma candidate_scan_tags T repo tag digest platform : sat (tags_ok T) (candidate_scan cfg repo tag digest platform) (λ _, True).
Proof. unfold candidate_scan, scanUnder, addExecution. sat_auto. Qed.

Lemma tags_carried T : carried pager cfg (tags_ok T).
Proof.
  split; [apply tags_quiet|intros; by apply series_entry_tags| |apply baseline_scan_tags|intros; apply candidate_scan_tags].
  intros repo. eapply triple_weaken; [apply fullTagList_tags|done|by intros x s []].
Qed.
End listings.

(** ** The work done *)

Section work.
Context {St Err : Type} `{Registry St Err} `{World St Err} (pager : option (TagPager St Err)).
Context `{GoUnicodeUpper, GoQuote, MapRange}.
Context (cfg : Config) (pages : string → St → Z) (scans : St → Z).
Notation run := (run (Err := Err)).

(** A request of a repository counts for its key. *)
Definition weight (key repo : string) : Z := if decide (RepositoryKey repo = Some key) then 1 else 0.

(** What neither lists nor scans. *)
Definition no_work {A} (f : St → A * St) : Prop :=
  ∀ w, (∀ key, pages key (snd (f w)) = pages key w) ∧ scans (snd (f w)) = scans w.

(** [pages] counts the page requests of every repository, as the registry
    reports them, and [scans] the scans; nothing else changes them. *)
Record counts_work : Prop := {
  cw_listed : ∀ key repo, pages_listed (pages key) (weight key repo) repo;
  cw_sent : ∀ p, pager = Some p → ∀ key repo, pages_sent (pages key) (weight key repo) repo p;
  cw_list_scans : ∀ repo n w, scans (snd (ListTagsUpTo repo n w)) = scans w;
  cw_sent_scans : ∀ p, pager = Some p → ∀ repo last n w, scans (snd (ListTagsAfter (TagPager := p) repo last n w)) = scans w;
  cw_scan : ∀ t w, (∀ key, pages key (snd (Scan t w)) = pages key w) ∧ scans (snd (Scan t w)) = (scans w + 1)%Z;
  cw_resolve : ∀ repo tag platform, no_work (Resolve repo tag platform);
  cw_verify : ∀ c, no_work (VerifyDB c);
  cw_now : no_work Now;
  cw_ctx : ∀ ctx, no_work (ctx_Err ctx);
  cw_reserve : ∀ n w, (∀ key, pages key (Budget_Reserve n w) = pages key w) ∧ scans (Budget_Reserve n w) = scans w;
}.

(** What the run counted is what was asked for since [P] pages and [S] scans,
    but for [d] scans that are about to be made. *)
Definition work_at (P : string → Z) (S d : Z) (s : run * St) : Prop :=
  (∀ key, pages key (snd s) = P key + used_pages (fst s) key)%Z ∧
  (scans (snd s) + d = S + us_CandidateScans (rn_Usage (fst s)) + us_BaselineRescans (rn_Usage (fst s)))%Z.

Context (counted : counts_work).

Lemma no_work_sat P S d {A} (f : St → A * St) : no_work f → sat (work_at P S d) (call f) (λ _, True).
Proof.
  intros Hf. apply sat_call. intros r w [Hp Hs]. destruct (Hf w) as [Fp Fs]. unfold work_at in *. cbn [fst snd] in *.
  rewrite Fs. split; [|done]. intros key. by rewrite Fp.
Qed.

Lemma work_quiet P S d : kept_quiet (work_at P S d).
Proof using counted.
  split; intros; [apply no_work_sat, counted..|]. apply sat_change. intros r w [Hp Hs]. destruct (H4 r) as (E1 & _ & E3).
  unfold work_at, used_pages in *. cbn [fst snd] in *. by rewrite E1, E3.
Qed.

(** The listing has been made, and is counted. *)
Lemma work_count P S (r r1 : run) (w w' : St) key repo n :
  RepositoryKey repo = Some key → work_at P S 0 (r, w) →
  (∀ k, pages k w' = pages k w + weight k repo * n)%Z → scans w' = scans w →
  rn_tagUsed r1 = rn_tagUsed r → rn_Usage r1 = rn_Usage r →
  work_at P S 0 (count_pages key n r1, w').
Proof.
  intros Hk [Hp Hs] Hpages Hscans Eu Eus. unfold work_at, used_pages, count_pages in *. cbn [fst snd] in *. split.
  - intros k. rewrite Hpages, Hp. cbn. unfold weight. destruct (decide (RepositoryKey repo = Some k)) as [Ek|Hne].
    + assert (k = key) as -> by congruence. rewrite lookup_insert_eq. unfold used_pages. rewrite Eu. unfold default, id. lia.
    + rewrite lookup_insert_ne by congruence. rewrite Eu. unfold default, id. lia.
  - cbn. rewrite Eus. lia.
Qed.

Lemma series_scans repo cur n w x w' :
  listPinnedSeries pager repo cur n w = Some (x, w') → scans w' = scans w.
Proof using counted.
  destruct x as [[list whole] err]. intros E.
  apply (listPinnedSeries_pages scans 0) in E; [lia| |].
  - intros p Hp last m s page e s' Ep. pose proof (cw_sent_scans counted p Hp repo last m s) as F. rewrite Ep in F. cbn [snd] in F. rewrite F. lia.
  - intros m s l e s' El. pose proof (cw_list_scans counted repo m s) as F. rewrite El in F. cbn [snd] in F. rewrite F. lia.
Qed.

Lemma series_entry_work P S ref key it :
  RepositoryKey (ir_Repository ref) = Some key → sat (work_at P S 0) (series_entry pager cfg ref key it) (λ _, True).
Proof using counted.
  intros Hk [r w] Hr. unfold series_entry, ask, mbind at 1, plan_bind at 1. cbn [fst mbind option_bind]. unfold id.
  destruct (rn_tags r !! _); [done|]. destruct (rn_fullTags r !! _); [done|]. destruct (rn_halted r); [done|].
  destruct (_ <=? 0)%Z; [done|]. unfold list_series, mbind, plan_bind, change. cbn [snd fst].
  destruct (listPinnedSeries pager _ _ _ w) as [[[[list whole] err] w']|] eqn:El; cbn [mbind option_bind snd fst]; [|done].
  pose proof (series_scans _ _ _ _ _ _ El) as Hs.
  assert (Hp : ∀ k, (pages k w' = pages k w + weight k (ir_Repository ref) * tl_Pages list)%Z).
  { intros k. eapply listPinnedSeries_pages; [|apply (cw_listed counted)|exact El].
    intros p E. by apply (cw_sent counted). }
  destruct whole; cbn [mret plan_ret mbind option_bind snd fst]; (split; [|done]);
    (eapply work_count; [exact Hk|exact Hr|exact Hp|exact Hs|reflexivity..]).
Qed.

Lemma fullTagList_work P S repo : sat (work_at P S 0) (fullTagList cfg repo) (λ _, True).
Proof using counted.
  unfold fullTagList. destruct (RepositoryKey repo) as [key|] eqn:Ek; [|by apply sat_ret].
  eapply (sat_bind _ _ (λ _, True)); [eapply sat_true, sat_ask|]. intros r _.
  eapply (sat_bind _ _ (λ _, True)).
  - destruct (rn_fullTags r !! key); [by apply sat_ret|]. destruct (rn_halted r); [by apply sat_ret|].
    destruct (_ <=? 0)%Z; [by apply sat_ret|].
    intros [r0 w] Hr. unfold call, change, mbind, plan_bind. cbn [fst snd mbind option_bind].
    destruct (ListTagsUpTo repo _ w) as [[list err] w'] eqn:El. cbn. split; [|done].
    eapply work_count; [exact Ek|exact Hr| | |reflexivity..].
    + intros k. by eapply (cw_listed counted).
    + pose proof (cw_list_scans counted repo (lm_MaxTagPages (cf_Limits cfg) - used_pages r key)%Z w) as F. by rewrite El in F.
  - intros [out|e] _; [by apply sat_ret|]. destruct (te_err e).
    + eapply (sat_bind _ _ (λ _, True)); [apply registryOutcome_kept, work_quiet|]. intros. by apply sat_ret.
    + destruct (tl_Truncated _); by apply sat_ret.
Qed.

(** A scan that was counted before it is made. *)
Lemma scanUnder_work P S role target :
  triple (work_at P S 1) (scanUnder cfg role target) (λ _ s, work_at P S 0 s).
Proof using counted.
  unfold scanUnder. eapply (triple_bind _ _ (λ _ s, work_at P S 0 s)).
  - apply triple_call. intros r w x w' [Hp Hs] E. destruct (cw_scan counted target w) as [Fp Fs]. rewrite E in Fp, Fs.
    unfold work_at in *. cbn [fst snd] in *. split; [intros key; by rewrite Fp|lia].
  - intros scan. eapply (triple_weaken _ _ _ (λ _ s, work_at P S 0 s ∧ True)); [|done|by intros x s []].
    match goal with |- triple ?J ?m _ => change (sat J m (λ _, True)) end.
    unfold addExecution. sat_auto; apply no_work_sat, counted.
Qed.

Lemma baseline_scan_work P S i : sat (work_at P S 0) (baseline_scan cfg i) (λ _, True).
Proof using counted.
  unfold baseline_scan. eapply (sat_bind _ _ (λ _, True)); [eapply sat_true, sat_ask|]. intros r _.
  destruct (rn_bases r !! _); [by apply sat_ret|]. eapply (sat_bind _ _ (λ _, True)); [|intros base _; unfold addExecution; sat_auto].
  destruct (needs_rescan cfg r i); [|unfold addExecution; sat_auto].
  eapply (triple_bind _ _ (λ _, work_at P S 1)).
  - apply triple_change. intros r0 w [Hp Hs]. unfold work_at in *. cbn [fst snd] in *. split; [exact Hp|]. cbn. lia.
  - intros _. eapply triple_weaken; [apply scanUnder_work|done|done].
Qed.

Lemma candidate_scan_work P S repo tag digest platform :
  sat (work_at P S 0) (candidate_scan cfg repo tag digest platform) (λ _, True).
Proof using counted.
  unfold candidate_scan. eapply (sat_bind _ _ (λ _, True)); [eapply sat_true, sat_ask|]. intros r _.
  destruct (rn_cands r !! _); [by apply sat_ret|].
  eapply (triple_bind _ _ (λ _, work_at P S 1)).
  - apply triple_change. intros r0 w [Hp Hs]. unfold work_at in *. cbn [fst snd] in *. split; [exact Hp|]. cbn. lia.
  - intros _. eapply (triple_bind _ _ (λ _ s, work_at P S 0 s)); [apply scanUnder_work|]. intros cand.
    match goal with |- triple ?J ?m _ => change (sat J m (λ _, True)) end. sat_auto.
Qed.

Lemma work_carried P S : carried pager cfg (work_at P S 0).
Proof using counted.
  split; [apply work_quiet|intros; by apply series_entry_work|apply fullTagList_work|apply baseline_scan_work|intros; apply candidate_scan_work].
Qed.
End work.

(** ** A pass *)

Section pass.
Context {St Err : Type} `{Registry St Err} `{World St Err} (pager : option (TagPager St Err)).
Context `{GoUnicodeUpper, GoQuote, MapRange}.
Context (cfg : Config) (inputs : list ImageInput) (builds : gmap string composeState).
Context (w w' : St) (r' : run (Err := Err)) (items : list Item).
Context (planned : plan_images pager cfg inputs (new_run builds, w) = Some (items, (r', w'))).

Lemma pass_tags : tags_ok ∅ (r', w').
Proof using planned.
  destruct (plan_images_inv _ _ _ _ _ _ _ _ planned) as (r1 & Hr & ->).
  assert (Hstart : tags_ok ∅ (new_run (Err := Err) builds, w)) by (split; [done|apply map_Forall_empty]).
  by destruct (triple_run _ _ _ _ _ _ (plan_items_kept pager cfg _ (plan_entries cfg inputs) (tags_carried pager cfg ∅)) Hstart Hr).
Qed.

Lemma pass_work pages scans :
  counts_work (Err := Err) pager pages scans → work_at pages scans (λ key, pages key w) (scans w) 0 (r', w').
Proof using planned.
  intros Hc. destruct (plan_images_inv _ _ _ _ _ _ _ _ planned) as (r1 & Hr & ->).
  assert (Hstart : work_at pages scans (λ key, pages key w) (scans w) 0 (new_run (Err := Err) builds, w)).
  { split; [|by cbn; lia]. intros key. unfold used_pages. cbn. rewrite lookup_empty. cbn. lia. }
  by destruct (triple_run _ _ _ _ _ _
    (plan_items_kept pager cfg _ (plan_entries cfg inputs) (work_carried pager cfg pages scans Hc _ _)) Hstart Hr).
Qed.
End pass.
