(* ===== verification/NewerSeries.v ===== *)
(** * NewerSeries: whether a newer series resolves what the own series does not

    internal/remediation/newer_series.go, for running images: the pass of the
    last plan goes on, under a deadline and a request budget that leave room
    for the work after it, and looks for every pinned image without a
    candidate at the newest tag of its major version and at the newest tag of
    a newer one. Nothing of an item changes but its [NewerSeries]. *)

From Stdlib Require Import ZArith Lia Bool Ascii String List Sorted.
From stdpp Require Import base gmap strings list.
From S2P Require Import Prelude GoStrings GoRegexp Reference Inventory Triage Report Build Compare ImageTag TagSeries Adopt Declared Plan Planner PlannerInv PlannerSpec.

Open Scope string_scope.
Open Scope Z_scope.
Open Scope nat_scope.
Open Scope list_scope.
Open Scope kl_scope.

(** ** Tags of newer series *)

Definition resolving (s : string) : bool :=
  String.eqb s NewerSeriesResolves || String.eqb s NewerSeriesResolvesPartially || String.eqb s NewerSeriesResolvesWithNew.

Record newerTag := mk_newer_tag { nt_tag : string; nt_change : string }.

Definition versionLess (a b : TagVersion) : bool :=
  if negb (tv_Major a =? tv_Major b)%Z then (tv_Major a <? tv_Major b)%Z
  else if negb (tv_Minor a =? tv_Minor b)%Z then (tv_Minor a <? tv_Minor b)%Z
  else (tv_Patch a <? tv_Patch b)%Z.

(** The variables [minor] and [major] with the tags they were read from. *)
Definition newest : Type := option (TagVersion * string).

Definition newer_of (best : newest) (v : TagVersion) (tag : string) : newest :=
  match best with
  | None => Some (v, tag)
  | Some (b, _) => if versionLess b v then Some (v, tag) else best
  end.

(** One round of the loop over the listing. *)
Definition newer_step (cur : TagVersion) (acc : newest * newest) (tag : string) : newest * newest :=
  let '(minor, major) := acc in
  if IsPrerelease tag then acc
  else
    let '(v, ok) := ParseTagVersion tag in
    if negb ok || negb (String.eqb (tv_Prefix v) (tv_Prefix cur)) || negb (String.eqb (tv_Suffix v) (tv_Suffix cur)) then acc
    else if (tv_Major v =? tv_Major cur)%Z && (tv_Minor cur <? tv_Minor v)%Z then (newer_of minor v tag, major)
    else if (tv_Major cur <? tv_Major v)%Z then (minor, newer_of major v tag)
    else acc.

(** The tags to check, from the whole listing. *)
Definition newer_tags (cur : TagVersion) (tags : list string) : list newerTag :=
  let '(minor, major) := foldl (newer_step cur) (None, None) tags in
  match minor with Some (_, tag) => [mk_newer_tag tag SeriesChangeMinor] | None => [] end ++
  match major with Some (_, tag) => [mk_newer_tag tag SeriesChangeMajor] | None => [] end.

Definition checkNext (s : string) : bool :=
  String.eqb s NewerSeriesResolvesPartially || String.eqb s NewerSeriesResolvesWithNew || String.eqb s NewerSeriesNotResolving.

(** ** Classification *)

(** The status and the reason. *)
Definition classifyNewer (vr : VerificationResult) (d : Decision) : string * string :=
  if negb (vf_Comparable vr) then (NewerSeriesNotChecked, vf_Reason vr)
  else if 0 <? dc_Unknown d then (NewerSeriesNotChecked, ReasonAnalysisIncomplete)
  else if 0 <? dc_Undetected d then (NewerSeriesNotChecked, ReasonTargetsNotDetected)
  else if dc_Resolved d =? 0 then (NewerSeriesNotResolving, "")
  else if (0 <? dc_Introduced d) || (0 <? length (dc_IntroducedKEV d)) then (NewerSeriesResolvesWithNew, "")
  else if dc_Resolved d <? dc_Targets d then (NewerSeriesResolvesPartially, "")
  else (NewerSeriesResolves, "").

Definition unchanged_verdict (t : Target) : VulnVerdict :=
  mk_verdict (tg_VulnID t) (tg_Package t) "" [] [] OutcomeRemaining "" "".

Definition unchangedComparison (targets : list Target) : VerificationResult * NewerSeriesCounts :=
  (mk_result true "" "" "" "" [] "the candidate is the content already in use; nothing was scanned"
     (unchanged_verdict <$> targets) [],
   mk_ns_counts (length targets) 0 (length targets) 0 0 0 0).

Definition decisionCounts (d : Decision) : NewerSeriesCounts :=
  mk_ns_counts (dc_Targets d) (dc_Resolved d) (dc_Remaining d) (dc_Unknown d) (dc_Undetected d) (dc_Introduced d)
    (length (dc_IntroducedKEV d)).

Definition resolvedOf (c : NewerSeriesCandidate) : nat :=
  match nd_Counts c with None => 0 | Some n => nc_Resolved n end.

Definition betterNewer (a b : NewerSeriesCandidate) : bool :=
  let full c := String.eqb (nd_Status c) NewerSeriesResolves in
  if negb (Bool.eqb (full a) (full b)) then full a
  else if negb (resolvedOf a =? resolvedOf b) then resolvedOf b <? resolvedOf a
  else negb (String.eqb (nd_Status a) NewerSeriesResolvesWithNew) && String.eqb (nd_Status b) NewerSeriesResolvesWithNew.

(** The variables of [settleNewerSeries]. *)
Record settle := mk_settle { sl_best : option NewerSeriesCandidate; sl_checked : nat; sl_notResolving : nat }.

(** One round of its loop. *)
Definition settle_step (a : settle) (c : NewerSeriesCandidate) : settle :=
  if String.eqb (nd_Status c) NewerSeriesNotChecked then a
  else if String.eqb (nd_Status c) NewerSeriesNotResolving
  then mk_settle (sl_best a) (S (sl_checked a)) (S (sl_notResolving a))
  else if match sl_best a with None => true | Some b => betterNewer c b end
  then mk_settle (Some c) (S (sl_checked a)) (sl_notResolving a)
  else mk_settle (sl_best a) (S (sl_checked a)) (sl_notResolving a).

Definition settleNewerSeries (ns : NewerSeries) : NewerSeries :=
  let ns := ns <| ns_Shown := "" |> <| ns_Reason := "" |> <| ns_Detail := "" |> in
  let a := foldl settle_step (mk_settle None 0 0) (ns_Candidates ns) in
  match sl_best a with
  | Some best => ns <| ns_Status := nd_Status best |> <| ns_Shown := nd_Tag best |>
  | None =>
      if (0 <? sl_checked a) && (sl_checked a =? sl_notResolving a)
      then ns <| ns_Status := NewerSeriesNotResolving |>
      else
        let ns := ns <| ns_Status := NewerSeriesNotChecked |> in
        match List.find (λ c, String.eqb (nd_Status c) NewerSeriesNotChecked) (ns_Candidates ns) with
        | Some c => ns <| ns_Reason := nd_Reason c |> <| ns_Detail := nd_Detail c |>
        | None => ns
        end
  end.

(** ** The check *)

Definition notChecked (out : planOutcome) : NewerSeries :=
  mk_newer_series NewerSeriesNotChecked "" [] (po_reason out) (po_detail out).

Definition newerSeriesReasons : list string := [ReasonNoNewerTag; ReasonSameContent; ReasonCandidateNotFixing].

Definition newerSeriesEligible (it : Item) : bool :=
  String.eqb (it_Kind it) TagPinned && String.eqb (it_Category it) CategoryNoCandidate &&
  existsb (String.eqb (it_Reason it)) newerSeriesReasons && (0 <? length (it_Targets it)).

Definition input_key (i : ImageInput) : string :=
  input_ref i +:+ "|" +:+ entityString (is_Key (sn_Subject (in_Scan i))).

Definition inputsByEntity (inputs : list ImageInput) : gmap string ImageInput :=
  foldl (λ m i, match m !! input_key i with Some _ => m | None => <[input_key i := i]> m end) ∅ inputs.

Record NewerSeriesSummary := mk_ns_summary {
  nsum_Items : nat; nsum_Resolving : nat; nsum_NotChecked : nat;
  nsum_CandidateScans : Z; nsum_BaselineRescans : Z; nsum_TagPages : Z; nsum_RegistryRequests : Z }.

Section check.
Context {St Err : Type} `{Registry St Err} `{World St Err}.
Context `{GoUnicodeUpper, GoQuote, MapRange}.
Context (cfg : Config).
Notation run := (run (Err := Err)).
Notation plan := (plan (St := St) (Err := Err)).

Definition stopped : plan (option planOutcome) :=
  halted ← ask rn_halted;
  _ ← (match halted with
       | Some _ => mret tt
       | None =>
           err ← ctx_of;
           match (err : option string) with
           | Some e =>
               reason ← deadlineReason;
               change (λ r, r <| rn_halted := Some (mk_halt reason e) |>)
           | None => mret tt
           end
       end : plan unit);
  halted ← ask rn_halted;
  mret (halted_outcome <$> (halted : option halt)).

(** The tags to check, or the result when there is nothing to check. *)
Definition newerTags (ref : ImageRef) : plan (NewerSeries + list newerTag) :=
  x ← fullTagList cfg (ir_Repository ref);
  match x with
  | inl out => mret (inl (notChecked out))
  | inr listed =>
      mret (match newer_tags (ir_Version ref) listed with
            | [] => inl (mk_newer_series NewerSeriesNone "" [] "" "the complete tag listing has no tag of a newer series of the same form")
            | tags => inr tags
            end)
  end.

Definition new_candidate (t : newerTag) : NewerSeriesCandidate :=
  mk_ns_candidate (nt_tag t) (nt_change t) "" None "" "" None None "" "" [].

(** The closure [fail]. *)
Definition fail_candidate (c : NewerSeriesCandidate) (status reason detail : string) : NewerSeriesCandidate :=
  c <| nd_Status := status |> <| nd_Reason := reason |> <| nd_Detail := detail |>.

Definition fail_outcome (c : NewerSeriesCandidate) (out : planOutcome) : NewerSeriesCandidate :=
  fail_candidate c NewerSeriesNotChecked (po_reason out) (po_detail out).

(** After the comparison. *)
Definition classify_candidate (c : NewerSeriesCandidate) (cmp : imageComparison) : plan NewerSeriesCandidate :=
  let c := c <| nd_BaselineScan := ic_baseScan cmp |> <| nd_CandidateScan := ic_candScan cmp |> in
  match ic_out cmp with
  | Some out => mret (fail_outcome c out)
  | None =>
      stop ← stopped;
      mret (match (stop : option planOutcome), ic_vr cmp, ic_dec cmp with
            | Some out, _, _ => fail_outcome c out
            | None, Some vr, Some dec =>
                let '(status, reason) := classifyNewer vr dec in
                c <| nd_Comparison := Some vr |> <| nd_kev := dc_IntroducedKEV dec |>
                  <| nd_Status := status |> <| nd_Reason := reason |> <| nd_Counts := Some (decisionCounts dec) |>
            | _, _, _ => c (* the pointers are set together *)
            end)
  end.

Definition newerImageCandidate (i : ImageInput) (ref : ImageRef) (t : newerTag) (platform : Platform)
    (targets : list Target) : plan NewerSeriesCandidate :=
  let c := new_candidate t in
  stop ← stopped;
  match (stop : option planOutcome) with
  | Some out => mret (fail_outcome c out)
  | None =>
      x ← resolveTag (ir_Repository ref) (nt_tag t) platform;
      match (x : planOutcome + Resolution) with
      | inl out => mret (fail_outcome c out)
      | inr res =>
          let c := c <| nd_Candidate := Some (candidate_state (ir_Repository ref) (nt_tag t) res platform) |> in
          let '(same, known, matched) := sameContent (is_Key (sn_Subject (in_Scan i))) res in
          if negb known
          then mret (fail_candidate c NewerSeriesNotChecked ReasonEntityUnverified
            "the running entity cannot be compared with registry content")
          else if (same : bool)
          then
            let '(vr, counts) := unchangedComparison targets in
            mret (fail_candidate (c <| nd_Comparison := Some vr |> <| nd_Counts := Some counts |>)
              NewerSeriesNotResolving ReasonSameContent
              ("the tag resolves to the content already running (the running digest equals its " +:+ matched +:+ " digest)"))
          else
            cmp ← compareImage cfg i (ir_Repository ref) (nt_tag t) platform res targets;
            classify_candidate c cmp
      end
  end.

(** The loop over the tags: it goes on only past candidates that leave a
    reason to. *)
Fixpoint newer_candidates (i : ImageInput) (ref : ImageRef) (platform : Platform) (targets : list Target)
    (tags : list newerTag) : plan (list NewerSeriesCandidate) :=
  match tags with
  | [] => mret []
  | t :: tags' =>
      c ← newerImageCandidate i ref t platform targets;
      if checkNext (nd_Status c)
      then rest ← newer_candidates i ref platform targets tags'; mret (c :: rest)
      else mret [c]
  end.

Definition newerSeriesItem (it : Item) (i : ImageInput) : plan NewerSeries :=
  stop ← stopped;
  match (stop : option planOutcome) with
  | Some out => mret (notChecked out)
  | None =>
      let ref := ParseImageRef (im_Ref (it_Current it)) in
      x ← newerTags ref;
      match (x : NewerSeries + list newerTag) with
      | inl ns => mret ns
      | inr tags =>
          cs ← newer_candidates i ref (scan_platform i) (it_Targets it) tags;
          mret (settleNewerSeries (mk_newer_series "" "" cs "" ""))
      end
  end.

(** ** The stage *)

(** The items to check with their places, the most urgent first. *)
Definition newer_units (inputs : gmap string ImageInput) (items : list Item) : list (nat * (Item * ImageInput)) :=
  sort_by (λ a b, Priority_Rank (it_Priority (fst (snd b))) <? Priority_Rank (it_Priority (fst (snd a))))
    (omap (λ p : nat * Item,
      match inputs !! it_Key (snd p) with
      | Some i => if newerSeriesEligible (snd p) then Some (fst p, (snd p, i)) else None
      | None => None
      end) (imap (λ n it, (n, it)) items)).

Definition count_series (sum : NewerSeriesSummary) (ns : NewerSeries) : NewerSeriesSummary :=
  mk_ns_summary (S (nsum_Items sum))
    (if resolving (ns_Status ns) then S (nsum_Resolving sum) else nsum_Resolving sum)
    (if negb (resolving (ns_Status ns)) && String.eqb (ns_Status ns) NewerSeriesNotChecked
     then S (nsum_NotChecked sum) else nsum_NotChecked sum)
    (nsum_CandidateScans sum) (nsum_BaselineRescans sum) (nsum_TagPages sum) (nsum_RegistryRequests sum).

(** The loop over the units; the items are updated in place. *)
Fixpoint check_units (units : list (nat * (Item * ImageInput))) (items : list Item) (sum : NewerSeriesSummary)
    : plan (list Item * NewerSeriesSummary) :=
  match units with
  | [] => mret (items, sum)
  | (n, (it, i)) :: units' =>
      ns ← newerSeriesItem it i;
      check_units units' (<[n := it <| it_NewerSeries := Some ns |>]> items) (count_series sum ns)
  end.

(** The run a stage starts with: its own context, the cycle's behind it. *)
Definition enter_stage (stageIntel : IntelFunc) (r : run) : run :=
  r <| rn_ctx := StageContext |> <| rn_outer := Some CycleContext |>
    <| rn_stageIntel := match stageIntel with Some _ => stageIntel | None => rn_stageIntel r end |>.

(** The images' part of [CheckNewerSeries], over the items and usage of the
    run. *)
Definition check_newer_series (inputs : list ImageInput) (items : list Item) (stageIntel : IntelFunc)
    (reserveRequests : Z) : plan (list Item * NewerSeriesSummary) :=
  _ ← change (enter_stage stageIntel);
  before ← ask rn_Usage;
  start ← call (λ w, (Budget_Used w, w));
  _ ← call (λ w, (tt, Budget_Reserve reserveRequests w));
  '(items, sum) ← check_units (newer_units (inputsByEntity inputs) items) items (mk_ns_summary 0 0 0 0 0 0 0);
  used ← call (λ w, ((Budget_Used w - start)%Z, w));
  _ ← change (λ r, r <| rn_Usage := rn_Usage r <| us_RegistryRequests := (us_RegistryRequests (rn_Usage r) + used)%Z |> |>);
  after ← ask rn_Usage;
  _ ← call (λ w, (tt, Budget_Reserve 0 w));
  mret (items, mk_ns_summary (nsum_Items sum) (nsum_Resolving sum) (nsum_NotChecked sum)
    (us_CandidateScans after - us_CandidateScans before)%Z (us_BaselineRescans after - us_BaselineRescans before)%Z
    (us_TagPages after - us_TagPages before)%Z used).
End check.

(** ** The tags chosen *)

(** A released tag of the form of [cur], of a newer minor or major version. *)
Definition of_newer_series (cur : TagVersion) (change tag : string) (v : TagVersion) : Prop :=
  IsPrerelease tag = false ∧ ParseTagVersion tag = (v, true) ∧
  tv_Prefix v = tv_Prefix cur ∧ tv_Suffix v = tv_Suffix cur ∧
  ((change = SeriesChangeMinor ∧ tv_Major v = tv_Major cur ∧ tv_Minor cur < tv_Minor v) ∨
   (change = SeriesChangeMajor ∧ tv_Major cur < tv_Major v))%Z.

(** The highest version among the tags that satisfy [P]. *)
Definition highest_in (P : string → TagVersion → Prop) (l : list string) (o : newest) : Prop :=
  match o with
  | None => ∀ t v, t ∈ l → ¬ P t v
  | Some (v, t) => t ∈ l ∧ P t v ∧ ∀ t' v', t' ∈ l → P t' v' → versionLess v v' = false
  end.

Lemma versionLess_spec a b :
  versionLess a b = true ↔
  (tv_Major a < tv_Major b ∨ tv_Major a = tv_Major b ∧
    (tv_Minor a < tv_Minor b ∨ tv_Minor a = tv_Minor b ∧ tv_Patch a < tv_Patch b))%Z.
Proof.
  unfold versionLess. destruct (Z.eqb_spec (tv_Major a) (tv_Major b)), (Z.eqb_spec (tv_Minor a) (tv_Minor b));
    cbn [negb]; rewrite Z.ltb_lt; lia.
Qed.

Lemma highest_skip P l o t : highest_in P l o → (∀ v, ¬ P t v) → highest_in P (l ++ [t]) o.
Proof.
  unfold highest_in. intros Ho Hn. destruct o as [[v u]|].
  - destruct Ho as (Hu & HP & Hmax). split_and!; [by apply elem_of_app; left|done|].
    intros t' v' [?| ->%list_elem_of_singleton]%elem_of_app HP'; [by eapply Hmax|by destruct (Hn v')].
  - intros t' v' [?| ->%list_elem_of_singleton]%elem_of_app; [by apply Ho|apply Hn].
Qed.

Lemma highest_take P l o t v :
  highest_in P l o → P t v → (∀ w, P t w → w = v) → highest_in P (l ++ [t]) (newer_of o v t).
Proof.
  unfold highest_in, newer_of. intros Ho HP Hu.
  assert (Hvv : versionLess v v = false) by (apply not_true_iff_false; rewrite versionLess_spec; lia).
  destruct o as [[b u]|].
  - destruct Ho as (Hu' & HP' & Hmax). destruct (versionLess b v) eqn:E.
    + split_and!; [by apply elem_of_app; right; left|done|].
      intros t' v' [Ht'| ->%list_elem_of_singleton]%elem_of_app Hv'; [|by rewrite (Hu v' Hv')].
      specialize (Hmax t' v' Ht' Hv'). apply not_true_iff_false in Hmax. apply not_true_iff_false.
      rewrite versionLess_spec in *. lia.
    + split_and!; [by apply elem_of_app; left|done|].
      intros t' v' [Ht'| ->%list_elem_of_singleton]%elem_of_app Hv'; [by eapply Hmax|by rewrite (Hu v' Hv')].
  - split_and!; [by apply elem_of_app; right; left|done|].
    intros t' v' [Ht'| ->%list_elem_of_singleton]%elem_of_app Hv'; [by destruct (Ho t' v')|by rewrite (Hu v' Hv')].
Qed.

Lemma newer_fold cur l :
  let '(minor, major) := foldl (newer_step cur) (None, None) l in
  highest_in (of_newer_series cur SeriesChangeMinor) l minor ∧ highest_in (of_newer_series cur SeriesChangeMajor) l major.
Proof.
  induction l as [|t l IH] using rev_ind; [by split; intros t v ?%elem_of_nil|].
  rewrite foldl_app. cbn [foldl]. destruct (foldl (newer_step cur) (None, None) l) as [minor major].
  destruct IH as [Hmin Hmaj]. unfold newer_step.
  assert (Hskip : (∀ c v, ¬ of_newer_series cur c t v) →
    highest_in (of_newer_series cur SeriesChangeMinor) (l ++ [t]) minor ∧
    highest_in (of_newer_series cur SeriesChangeMajor) (l ++ [t]) major) by (intros Hn; split; by apply highest_skip).
  unfold of_newer_series in Hskip. destruct (IsPrerelease t) eqn:Ep; [apply Hskip; naive_solver|].
  destruct (ParseTagVersion t) as [v ok] eqn:Ev. destruct ok; cbn [negb orb]; [|apply Hskip; naive_solver].
  destruct (String.eqb_spec (tv_Prefix v) (tv_Prefix cur)); cbn [negb orb]; [|apply Hskip; naive_solver].
  destruct (String.eqb_spec (tv_Suffix v) (tv_Suffix cur)); cbn [negb orb]; [|apply Hskip; naive_solver].
  assert (Huniq : ∀ c w, of_newer_series cur c t w → w = v) by (intros c w (_ & E & _); congruence).
  destruct (Z.eqb_spec (tv_Major v) (tv_Major cur)), (Z.ltb_spec (tv_Minor cur) (tv_Minor v)); cbn [andb].
  - split; [apply highest_take; [done| |apply Huniq]; split_and!; (done || by left)|]. apply highest_skip; [done|].
    intros w Hw. pose proof (Huniq _ _ Hw) as ->. destruct Hw as (_ & _ & _ & _ & [(? & _)|(_ & ?)]); [done|lia].
  - rewrite (proj2 (Z.ltb_ge _ _)) by lia. apply Hskip. intros c w (_ & Ew & _ & _ & Hc).
    injection Ew as <-. lia.
  - destruct (Z.ltb_spec (tv_Major cur) (tv_Major v)).
    + split; [|apply highest_take; [done| |apply Huniq]; split_and!; (done || by right)]. apply highest_skip; [done|].
      intros w Hw. pose proof (Huniq _ _ Hw) as ->. destruct Hw as (_ & _ & _ & _ & [(_ & ? & _)|(? & _)]); [lia|done].
    + apply Hskip. intros c w (_ & Ew & _ & _ & Hc). injection Ew as <-. lia.
  - destruct (Z.ltb_spec (tv_Major cur) (tv_Major v)).
    + split; [|apply highest_take; [done| |apply Huniq]; split_and!; (done || by right)]. apply highest_skip; [done|].
      intros w Hw. pose proof (Huniq _ _ Hw) as ->. destruct Hw as (_ & _ & _ & _ & [(_ & ? & _)|(? & _)]); [lia|done].
    + apply Hskip. intros c w (_ & Ew & _ & _ & Hc). injection Ew as <-. lia.
Qed.

(** At most two tags, the one of the own major version first: each is the
    highest of its kind in the listing, and a kind is missing exactly when the
    listing has no tag of it. *)
Definition newest_tags (cur : TagVersion) (l : list string) (tags : list newerTag) : Prop :=
  (nt_change <$> tags) `sublist_of` [SeriesChangeMinor; SeriesChangeMajor] ∧
  (∀ t, t ∈ tags → ∃ v, nt_tag t ∈ l ∧ of_newer_series cur (nt_change t) (nt_tag t) v ∧
     ∀ tag w, tag ∈ l → of_newer_series cur (nt_change t) tag w → versionLess v w = false) ∧
  (∀ change, change ∈ nt_change <$> tags ↔ ∃ tag v, tag ∈ l ∧ of_newer_series cur change tag v).

Lemma newer_tags_spec cur l : newest_tags cur l (newer_tags cur l).
Proof.
  unfold newest_tags, newer_tags. pose proof (newer_fold cur l) as Hf. destruct (foldl _ _ l) as [minor major]. destruct Hf as [Hmin Hmaj].
  assert (Hin : ∀ t, t ∈ (match minor with Some (_, tag) => [mk_newer_tag tag SeriesChangeMinor] | None => [] end ++
      match major with Some (_, tag) => [mk_newer_tag tag SeriesChangeMajor] | None => [] end) ↔
    (∃ v, minor = Some (v, nt_tag t) ∧ nt_change t = SeriesChangeMinor) ∨
    (∃ v, major = Some (v, nt_tag t) ∧ nt_change t = SeriesChangeMajor)).
  { intros [tag change]. rewrite elem_of_app. destruct minor as [[a ta]|], major as [[b tb]|];
      rewrite ?list_elem_of_singleton, ?elem_of_nil; cbn; split; naive_solver. }
  split_and!.
  - destruct minor as [[a ta]|], major as [[b tb]|]; cbn; repeat constructor.
  - intros t [(v & -> & ->)|(v & -> & ->)]%Hin; exists v; [apply Hmin|apply Hmaj].
  - intros change. rewrite list_elem_of_fmap. setoid_rewrite Hin. split.
    + intros (t & -> & [(v & -> & ->)|(v & -> & ->)]); exists (nt_tag t), v; [by destruct Hmin as (? & ? & _)|by destruct Hmaj as (? & ? & _)].
    + intros (tag & v & Ht & Hs). pose proof Hs as (_ & _ & _ & _ & [(-> & _)|(-> & _)]).
      * destruct minor as [[a ta]|]; [|by destruct (Hmin tag v)]. exists (mk_newer_tag ta SeriesChangeMinor). cbn. naive_solver.
      * destruct major as [[b tb]|]; [|by destruct (Hmaj tag v)]. exists (mk_newer_tag tb SeriesChangeMajor). cbn. naive_solver.
Qed.

(** ** The candidate shown *)

(** The order of [betterNewer]: all targets resolved, then how many, then
    nothing new. *)
Definition candidate_rank (c : NewerSeriesCandidate) : nat * nat * nat :=
  (if String.eqb (nd_Status c) NewerSeriesResolves then 1 else 0, resolvedOf c,
   if String.eqb (nd_Status c) NewerSeriesResolvesWithNew then 0 else 1).

Definition rank_lt (a b : nat * nat * nat) : Prop :=
  let '(a1, a2, a3) := a in
  let '(b1, b2, b3) := b in
  a1 < b1 ∨ a1 = b1 ∧ (a2 < b2 ∨ a2 = b2 ∧ a3 < b3).

Lemma betterNewer_spec a b : betterNewer a b = true ↔ rank_lt (candidate_rank b) (candidate_rank a).
Proof.
  unfold betterNewer, rank_lt, candidate_rank.
  destruct (String.eqb (nd_Status a) NewerSeriesResolves), (String.eqb (nd_Status b) NewerSeriesResolves);
    cbn [Bool.eqb negb]; try (split; (done || lia));
    (destruct (Nat.eqb_spec (resolvedOf a) (resolvedOf b)); cbn [negb]; [|rewrite Nat.ltb_lt; lia]);
    destruct (String.eqb (nd_Status a) NewerSeriesResolvesWithNew), (String.eqb (nd_Status b) NewerSeriesResolvesWithNew);
    cbn [negb andb]; split; (done || lia).
Qed.

Lemma not_better a b c : betterNewer b c = true → betterNewer a c = false → betterNewer a b = false.
Proof.
  intros Hbc%betterNewer_spec Hac. apply not_true_iff_false in Hac. apply not_true_iff_false. rewrite betterNewer_spec in *.
  unfold rank_lt in *. destruct (candidate_rank a) as [[? ?] ?], (candidate_rank b) as [[? ?] ?], (candidate_rank c) as [[? ?] ?]. lia.
Qed.

Lemma not_better_self a : betterNewer a a = false.
Proof. apply not_true_iff_false. rewrite betterNewer_spec. unfold rank_lt. destruct (candidate_rank a) as [[? ?] ?]. lia. Qed.

(** What a candidate can say. *)
Definition candidate_status (s : string) : Prop :=
  resolving s = true ∨ s = NewerSeriesNotResolving ∨ s = NewerSeriesNotChecked.

Lemma settle_fold cs :
  (∀ c, c ∈ cs → candidate_status (nd_Status c)) →
  let a := foldl settle_step (mk_settle None 0 0) cs in
  match sl_best a with
  | None => (∀ c, c ∈ cs → resolving (nd_Status c) = false) ∧ sl_checked a = sl_notResolving a
  | Some b => b ∈ cs ∧ resolving (nd_Status b) = true ∧
              ∀ c, c ∈ cs → resolving (nd_Status c) = true → betterNewer c b = false
  end ∧ (0 < sl_notResolving a ↔ ∃ c, c ∈ cs ∧ nd_Status c = NewerSeriesNotResolving).
Proof.
  cbv zeta. induction cs as [|c cs IH] using rev_ind; intros Hs.
  { cbn. split; [split; [by intros c ?%elem_of_nil|done]|]. split; [lia|]. by intros (c & ?%elem_of_nil & _). }
  rewrite foldl_app. cbn [foldl]. destruct IH as [Hb Hn]; [intros; apply Hs; apply elem_of_app; by left|].
  set (a := foldl _ _ cs) in *. clearbody a.
  assert (Hex : (∃ x, x ∈ cs ++ [c] ∧ nd_Status x = NewerSeriesNotResolving) ↔
    (∃ x, x ∈ cs ∧ nd_Status x = NewerSeriesNotResolving) ∨ nd_Status c = NewerSeriesNotResolving).
  { setoid_rewrite elem_of_app. setoid_rewrite list_elem_of_singleton. naive_solver. }
  assert (Hc : candidate_status (nd_Status c)) by (apply Hs; apply elem_of_app; right; by left). unfold settle_step.
  destruct (String.eqb_spec (nd_Status c) NewerSeriesNotChecked) as [E|E1].
  { split.
    - destruct (sl_best a) as [b|].
      + destruct Hb as (? & ? & Hmax). split_and!; [by apply elem_of_app; left|done|]. intros c' [?| ->%list_elem_of_singleton]%elem_of_app Hr; [by apply Hmax|]. by rewrite E in Hr.
      + destruct Hb as [Hb ?]. split; [|done]. intros c' [?| ->%list_elem_of_singleton]%elem_of_app; [by apply Hb|]. by rewrite E.
    - rewrite Hn, Hex, E. naive_solver. }
  destruct (String.eqb_spec (nd_Status c) NewerSeriesNotResolving) as [E|E2].
  { cbn. split.
    - destruct (sl_best a) as [b|].
      + destruct Hb as (? & ? & Hmax). split_and!; [by apply elem_of_app; left|done|]. intros c' [?| ->%list_elem_of_singleton]%elem_of_app Hr; [by apply Hmax|]. by rewrite E in Hr.
      + destruct Hb as [Hb ?]. split; [|lia]. intros c' [?| ->%list_elem_of_singleton]%elem_of_app; [by apply Hb|]. by rewrite E.
    - rewrite Hex. split; [by right|lia]. }
  assert (Hr : resolving (nd_Status c) = true) by (by destruct Hc as [?|[?|?]]).
  destruct (sl_best a) as [b|] eqn:Eb.
  - destruct Hb as (Hin & Hrb & Hmax). destruct (betterNewer c b) eqn:Ecb; cbn.
    + split; [|rewrite Hn, Hex; naive_solver]. split_and!; [by apply elem_of_app; right; left|done|]. intros c' [Hc'| ->%list_elem_of_singleton]%elem_of_app Hr'; [|apply not_better_self].
      apply (not_better _ _ b); [done|by apply Hmax].
    + split; [|rewrite Hn, Hex; naive_solver]. split_and!; [by apply elem_of_app; left|done|]. intros c' [Hc'| ->%list_elem_of_singleton]%elem_of_app Hr'; [by apply Hmax|done].
  - destruct Hb as [Hnone _]. cbn. split; [|rewrite Hn, Hex; naive_solver]. split_and!; [by apply elem_of_app; right; left|done|].
    intros c' [Hc'| ->%list_elem_of_singleton]%elem_of_app Hr'; [by rewrite Hnone in Hr'|apply not_better_self].
Qed.

(** The result of an item is its best resolving candidate; without one it says
    so when a candidate was compared, and otherwise why not. *)
Lemma settleNewerSeries_spec ns :
  (∀ c, c ∈ ns_Candidates ns → candidate_status (nd_Status c)) →
  let ns' := settleNewerSeries ns in
  ns_Candidates ns' = ns_Candidates ns ∧
  (resolving (ns_Status ns') = true ↔ ∃ c, c ∈ ns_Candidates ns ∧ resolving (nd_Status c) = true) ∧
  (resolving (ns_Status ns') = true → ∃ c, c ∈ ns_Candidates ns ∧ nd_Tag c = ns_Shown ns' ∧ nd_Status c = ns_Status ns' ∧
     ∀ c', c' ∈ ns_Candidates ns → resolving (nd_Status c') = true → betterNewer c' c = false) ∧
  (ns_Status ns' = NewerSeriesNotResolving ↔
     (∀ c, c ∈ ns_Candidates ns → resolving (nd_Status c) = false) ∧
     ∃ c, c ∈ ns_Candidates ns ∧ nd_Status c = NewerSeriesNotResolving).
Proof.
  intros Hs. cbv zeta. destruct (settle_fold _ Hs) as [Hb Hn]. unfold settleNewerSeries. cbn [ns_Candidates].
  set (a := foldl _ _ _) in *. clearbody a. destruct (sl_best a) as [b|].
  - destruct Hb as (Hin & Hr & Hmax). cbn. split_and!; [done|split; [by exists b|done]|by exists b|].
    split; [by intros E; rewrite E in Hr|]. intros [Hno _]. by rewrite Hno in Hr.
  - destruct Hb as [Hno Heq]. rewrite Heq, Nat.eqb_refl, andb_true_r.
    assert (Hnone : ¬ ∃ c, c ∈ ns_Candidates ns ∧ resolving (nd_Status c) = true) by (intros (c & Hc & Hr); by rewrite Hno in Hr).
    destruct (Nat.ltb_spec 0 (sl_notResolving a)) as [Hl|Hl].
    + cbn. split_and!; [done|split; [done|by intros ?]|done|]. split; [|done]. intros _. split; [done|]. by apply Hn.
    + assert (Hnn : ¬ ∃ c, c ∈ ns_Candidates ns ∧ nd_Status c = NewerSeriesNotResolving) by (rewrite <- Hn; lia).
      destruct (List.find _ _); cbn; (split_and!; [done|split; [done|by intros ?]|done|]; split; [done|by intros [_ ?]]).
Qed.
