(* ===== verification/NewerSpec.v ===== *)
(** * NewerSpec: what the check of newer series guarantees

    Over both passes, the plan and the check that goes on with its run: the
    items keep everything but the verdict on the newer series, a resolving
    verdict stands on scans like a proposal does, and the limits are shared. *)

From Stdlib Require Import ZArith Lia Bool Ascii String List Sorted.
From stdpp Require Import base gmap strings list.
From S2P Require Import Prelude GoStrings GoRegexp Reference Inventory Triage Report Build Compare ImageTag TagSeries Adopt Declared Plan Planner PlannerInv PlannerSpec PlannerWork NewerSeries.

Open Scope string_scope.
Open Scope Z_scope.
Open Scope nat_scope.
Open Scope list_scope.
Open Scope kl_scope.

(** ** The verdict on one candidate *)

(** What a status that says something resolves has to show. *)
Definition status_justified `{GoUnicodeUpper} (status : string) (targets : list Target) (b c : ScanRecord) : Prop :=
  comparable_scans b c ∧ (∀ t, t ∈ targets → judged targets b c t) ∧ (∃ t, t ∈ targets ∧ fixed targets b c t) ∧
  (status = NewerSeriesResolves ↔ nothing_new b c ∧ ∀ t, t ∈ targets → fixed targets b c t) ∧
  (status = NewerSeriesResolvesWithNew ↔ ¬ nothing_new b c).

Lemma classifyNewer_spec `{GoUnicodeUpper, GoQuote, MapRange} targets b c lookup :
  let vr := ApplyCoverage (Compare b c) targets b c in
  let status := fst (classifyNewer vr (Decide targets vr lookup)) in
  candidate_status status ∧ (resolving status = true → status_justified status targets b c).
Proof.
  cbv zeta. set (vr := ApplyCoverage _ _ _ _). unfold classifyNewer, status_justified, candidate_status.
  destruct (ApplyCoverage_fields (Compare b c) targets b c) as (F & _ & _). fold vr in F.
  destruct (vf_Comparable vr) eqn:Ec; cbn [negb fst]; [|by split; [right; right|]].
  assert (Hc : comparable_scans b c).
  { rewrite <- checks_none. destruct (first_some _) as [[reason detail]|] eqn:E; [|done].
    rewrite (proj1 (Compare_not_comparable b c ltac:(by rewrite <- checks_none, E))) in F. done. }
  destruct (Decide_counts targets b c lookup Hc) as (C1 & C2 & C3 & C4 & C5 & C6). fold vr in C1, C2, C3, C4, C5, C6.
  set (d := Decide targets vr lookup) in *. clearbody d.
  destruct (Nat.ltb_spec 0 (dc_Unknown d)); cbn [fst]; [by split; [right; right|]|].
  destruct (Nat.ltb_spec 0 (dc_Undetected d)); cbn [fst]; [by split; [right; right|]|].
  destruct (Nat.eqb_spec (dc_Resolved d) 0) as [E0|E0]; cbn [fst]; [by split; [right; left|]|].
  assert (Hj := proj1 C1 ltac:(lia)). assert (Hf := proj1 C2 E0).
  destruct (Nat.ltb_spec 0 (dc_Introduced d)) as [Hi|Hi]; cbn [orb fst].
  { assert (Hn : ¬ nothing_new b c) by (rewrite <- C5; lia). split; [by left|]. intros _. split_and!; try done. by split; [|intros []]. }
  assert (Hn : nothing_new b c) by (apply C5; lia). rewrite C6 by lia. change (0 <? length []) with false. cbn iota.
  destruct (Nat.ltb_spec (dc_Resolved d) (dc_Targets d)) as [Hl|Hl]; cbn [fst].
  - split; [by left|]. intros _. split_and!; try done. split; [done|]. intros [_ Ha]. apply C3 in Ha. lia.
  - split; [by left|]. intros _. split_and!; try done. split; [|done]. intros _. split; [done|]. apply C3. lia.
Qed.

(** ** What the operations carry along *)

Section traversal.
Context {St Err : Type} `{Registry St Err} `{World St Err} (pager : option (TagPager St Err)).
Context `{GoUnicodeUpper, GoQuote, MapRange}.
Context (cfg : Config) (J : run (Err := Err) * St → Prop).

Lemma stopped_kept : kept_quiet J → sat J stopped (λ _, True).
Proof.
  intros Hq. unfold stopped. sat_auto; [by apply ctx_of_kept|by apply deadlineReason_kept|].
  apply (kq_change _ Hq). intros ?. by split_and!.
Qed.

Lemma newer_candidates_kept i ref platform targets tags :
  carried pager cfg J → sat J (newer_candidates cfg i ref platform targets tags) (λ _, True).
Proof.
  intros Hc. pose proof (ca_quiet _ _ _ Hc) as Hq. induction tags as [|t tags IH]; cbn [newer_candidates]; [by apply sat_ret|].
  unfold newerImageCandidate, classify_candidate.
  sat_auto; (exact IH || by apply stopped_kept || by apply resolveTag_kept || by apply (compareImage_kept pager)).
Qed.

Lemma newerSeriesItem_kept it i : carried pager cfg J → sat J (newerSeriesItem cfg it i) (λ _, True).
Proof.
  intros Hc. pose proof (ca_quiet _ _ _ Hc) as Hq. unfold newerSeriesItem, newerTags.
  sat_auto; (by apply stopped_kept || by apply newer_candidates_kept || by apply (ca_full _ _ _ Hc)).
Qed.

Lemma check_units_kept units items sum : carried pager cfg J → sat J (check_units cfg units items sum) (λ _, True).
Proof.
  intros Hc. revert items sum. induction units as [|[n [it i]] units IH]; intros items sum; cbn [check_units]; [by apply sat_ret|].
  eapply sat_bind; [by apply newerSeriesItem_kept|]. intros. apply IH.
Qed.
End traversal.

(** ** One candidate *)

Section check.
Context {St Err : Type} `{Registry St Err} `{World St Err}.
Context `{GoUnicodeUpper, GoQuote, MapRange}.
Context (cfg : Config) (inputs : list ImageInput) (builds : gmap string composeState).
Notation run := (run (Err := Err)).
Notation ok L := (λ s, run_ok cfg inputs builds L (fst s)).

(** What a candidate that resolves something stands on. *)
Definition series_evidence (i : ImageInput) (ref : ImageRef) (targets : list Target) (c : NewerSeriesCandidate) : Prop :=
  ∃ res digest b cand,
    nd_Candidate c = Some (candidate_state (ir_Repository ref) (nd_Tag c) res (scan_platform i)) ∧
    sameContent (is_Key (sn_Subject (in_Scan i))) res = (false, true, "") ∧
    ParseDigest DigestRegistry (rs_ManifestDigest res) = (digest, true) ∧
    baseline_of cfg inputs (base_key i) b ∧
    candidate_of cfg (cand_key (ir_Repository ref) digest (scan_platform i)) cand ∧
    sr_Conditions b = cf_Prepared cfg ∧ sr_Conditions cand = cf_Prepared cfg ∧
    status_justified (nd_Status c) targets b cand.

Record candidate_ok (i : ImageInput) (ref : ImageRef) (targets : list Target) (scans : list ScanExecution)
    (t : newerTag) (c : NewerSeriesCandidate) : Prop := {
  co_tag : nd_Tag c = nt_tag t;
  co_change : nd_Change c = nt_change t;
  co_status : candidate_status (nd_Status c);
  co_base : id_ok RoleBaseline scans (nd_BaselineScan c);
  co_cand : id_ok RoleCandidate scans (nd_CandidateScan c);
  co_evidence : resolving (nd_Status c) = true → series_evidence i ref targets c;
}.

Lemma fail_candidate_ok i ref targets scans t c status reason detail :
  nd_Tag c = nt_tag t → nd_Change c = nt_change t →
  id_ok RoleBaseline scans (nd_BaselineScan c) → id_ok RoleCandidate scans (nd_CandidateScan c) →
  status = NewerSeriesNotResolving ∨ status = NewerSeriesNotChecked →
  candidate_ok i ref targets scans t (fail_candidate c status reason detail).
Proof. intros Ht Hc Hb Hd Hs. split; try done; [by right|]. by destruct Hs as [->| ->]. Qed.

Lemma stopped_sat L : sat (ok L) stopped (λ _, True).
Proof.
  unfold stopped. eapply sat_bind; [apply sat_ask|]. intros h _.
  eapply (sat_bind _ _ (λ _, True)); [|intros _ _; eapply sat_bind; [apply sat_ask|]; intros h' _; by apply sat_ret].
  destruct h; [by apply sat_ret|]. eapply sat_bind; [apply ctx_of_sat|]. intros [e|] _; [|by apply sat_ret].
  eapply sat_bind; [apply deadlineReason_sat|]. intros reason _. by apply change_sat.
Qed.

Lemma classify_candidate_triple L i ref targets t c cmp res :
  nd_Tag c = nt_tag t → nd_Change c = nt_change t →
  nd_Candidate c = Some (candidate_state (ir_Repository ref) (nt_tag t) res (scan_platform i)) →
  sameContent (is_Key (sn_Subject (in_Scan i))) res = (false, true, "") →
  triple (λ s, run_ok cfg inputs builds L (fst s) ∧
      comparison_ok cfg inputs i (ir_Repository ref) (scan_platform i) res targets (rn_Scans (fst s)) cmp)
    (classify_candidate c cmp)
    (λ c' s, run_ok cfg inputs builds L (fst s) ∧ candidate_ok i ref targets (rn_Scans (fst s)) t c').
Proof.
  intros Ht Hch Hcand Hsame [r w] [Hr (Hb & Hc & Hout)]. cbn [fst] in *. unfold classify_candidate.
  destruct (ic_out cmp) as [out|]; [split; [done|]; apply fail_candidate_ok; (done || by right)|].
  destruct Hout as (vr & dec & Evr & Edec & b & cand & digest & lookup & Hd & Hbase & Hcan & -> & ->).
  assert (Hr' : run_ok cfg inputs builds (rn_Scans r) r) by (destruct Hr as (? & ? & _); by split_and!).
  pose proof (stopped_sat (rn_Scans r) (r, w) Hr') as Hs. unfold mbind, plan_bind.
  destruct (stopped (r, w)) as [[stop [r1 w1]]|]; cbn [mbind option_bind fst] in *; [|done].
  destruct Hs as [(Hok & Hbu & Hp) _].
  assert (Hb1 : id_ok RoleBaseline (rn_Scans r1) (ic_baseScan cmp)).
  { destruct Hb as [?|Hb]; [by left|right]. by eapply recorded_prefix. }
  assert (Hc1 : id_ok RoleCandidate (rn_Scans r1) (ic_candScan cmp)).
  { destruct Hc as [?|Hc]; [by left|right]. by eapply recorded_prefix. }
  split; [split_and!; [done..|]; cbn; etrans; [apply Hr|done]|].
  destruct stop as [out|]; [apply fail_candidate_ok; (done || by right)|]. rewrite Evr, Edec.
  destruct (classifyNewer_spec targets b cand lookup) as [Hst Hj].
  destruct (classifyNewer _ _) as [status reason] eqn:Es. cbn [fst] in Hst, Hj.
  split; try done. cbn. intros Hres. specialize (Hj Hres). exists res, digest, b, cand. cbn. rewrite Ht, Hcand.
  assert (Hcmp := proj1 Hj).
  assert (Ec : sr_Conditions cand = cf_Prepared cfg) by (by apply (candidate_conditions cfg _ b _ Hcan)).
  split_and!; try done. by rewrite (cs_conditions _ _ Hcmp).
Qed.

Lemma newerImageCandidate_triple L i ref targets t :
  i ∈ inputs →
  triple (ok L) (newerImageCandidate cfg i ref t (scan_platform i) targets)
    (λ c s, run_ok cfg inputs builds L (fst s) ∧ candidate_ok i ref targets (rn_Scans (fst s)) t c).
Proof.
  intros Hi. assert (Hfail : ∀ scans c status reason detail,
    nd_Tag c = nt_tag t → nd_Change c = nt_change t → nd_BaselineScan c = "" → nd_CandidateScan c = "" →
    status = NewerSeriesNotResolving ∨ status = NewerSeriesNotChecked →
    candidate_ok i ref targets scans t (fail_candidate c status reason detail)).
  { intros. apply fail_candidate_ok; try done; by left. }
  unfold newerImageCandidate. eapply triple_bind; [apply (stopped_sat L)|]. intros [out|].
  { apply triple_ret. intros s [Hs _]. split; [done|]. apply Hfail; (done || by right). }
  eapply triple_bind; [eapply triple_weaken; [apply (resolveTag_sat cfg inputs builds L)|by intros s []|done]|].
  intros [out|res].
  { apply triple_ret. intros s [Hs _]. split; [done|]. apply Hfail; (done || by right). }
  destruct (sameContent _ res) as [[same known] matched] eqn:Es. destruct known; cbn [negb];
    [|apply triple_ret; intros s [Hs _]; split; [done|]; apply Hfail; (done || by right)].
  destruct same; [apply triple_ret; intros s [Hs _]; split; [done|]; apply Hfail; (done || by left)|].
  eapply triple_bind; [eapply triple_weaken; [by apply (compareImage_triple cfg inputs builds L)|by intros s []|done]|].
  intros cmp. eapply triple_weaken; [apply (classify_candidate_triple L i ref targets t _ cmp res)|done|done]; try done.
  by eapply sameContent_known.
Qed.

(** ** One image *)

(** The candidates are those of the first tags, in order, and the next tag is
    only looked at after one that leaves a reason to. *)
Definition checked_tags (i : ImageInput) (ref : ImageRef) (targets : list Target) (scans : list ScanExecution)
    (tags : list newerTag) (cs : list NewerSeriesCandidate) : Prop :=
  ∃ done_ rest, tags = done_ ++ rest ∧ Forall2 (candidate_ok i ref targets scans) done_ cs ∧
    (∀ n c, cs !! n = Some c → S n < length cs → checkNext (nd_Status c) = true) ∧
    (rest ≠ [] → ∃ c, last cs = Some c ∧ checkNext (nd_Status c) = false).

Lemma candidate_ok_prefix i ref targets l k t c :
  l `prefix_of` k → candidate_ok i ref targets l t c → candidate_ok i ref targets k t c.
Proof.
  intros Hp [C1 C2 C3 C4 C5 C6]. unfold id_ok in *. split; try done.
  - destruct C4; [by left|right]. by eapply recorded_prefix.
  - destruct C5; [by left|right]. by eapply recorded_prefix.
Qed.

Lemma newer_candidates_triple i ref targets tags L :
  i ∈ inputs →
  triple (ok L) (newer_candidates cfg i ref (scan_platform i) targets tags)
    (λ cs s, run_ok cfg inputs builds L (fst s) ∧ checked_tags i ref targets (rn_Scans (fst s)) tags cs).
Proof.
  intros Hi. revert L. induction tags as [|t tags IH]; intros L; cbn [newer_candidates].
  { apply triple_ret. intros s Hs. split; [done|]. exists [], []. by split_and!. }
  eapply triple_bind; [by apply newerImageCandidate_triple|]. intros c s [Hs Hc].
  destruct (checkNext (nd_Status c)) eqn:En.
  - assert (Hs' : run_ok cfg inputs builds (rn_Scans s.1) s.1) by (destruct Hs as (? & ? & _); by split_and!).
    specialize (IH (rn_Scans s.1) s Hs'). unfold mbind, plan_bind.
    destruct (newer_candidates _ _ _ _ _ _ s) as [[cs s2]|]; cbn; [|done].
    destruct IH as [(Hok & Hb & Hp) (d & rest & -> & Hf & Hnext & Hrest)]. split.
    + split_and!; [done..|]. destruct Hs as (_ & _ & Hp0). by etrans.
    + exists (t :: d), rest. split_and!; [done| | |].
      * constructor; [|done]. by eapply candidate_ok_prefix.
      * intros [|n] x Hx Hlen; [by injection Hx as <-|]. cbn in Hlen. apply (Hnext n); [done|lia].
      * intros Hne. destruct (Hrest Hne) as (x & Hx & ?). exists x. split; [|done]. by destruct cs.
  - cbn. split; [done|]. exists [t], tags. split_and!; [done| | |].
    + constructor; [exact Hc|constructor].
    + intros n x Hx Hlen. cbn in Hlen. lia.
    + intros _. by exists c.
Qed.

(** The tags checked are the newest of a complete listing the run keeps of the
    repository; without one nothing is checked, and that there is no newer
    series is said of a complete listing only. *)
Definition tags_checked (full : gmap string (tagEntry (Err := Err))) (i : ImageInput) (ref : ImageRef) (targets : list Target)
    (scans : list ScanExecution) (ns : NewerSeries) : Prop :=
  ns_Candidates ns = [] ∧ ns_Status ns = NewerSeriesNotChecked ∨
  ∃ listed tags, complete_listing full (ir_Repository ref) listed ∧ newest_tags (ir_Version ref) listed tags ∧
    checked_tags i ref targets scans tags (ns_Candidates ns) ∧
    (ns_Status ns = NewerSeriesNone ↔ tags = []).

(** The verdict on an image: something resolves exactly when a candidate does,
    and then it is the best one that is shown. *)
Record series_ok (full : gmap string (tagEntry (Err := Err))) (i : ImageInput) (ref : ImageRef) (targets : list Target)
    (scans : list ScanExecution) (ns : NewerSeries) : Prop := {
  so_candidates : tags_checked full i ref targets scans ns;
  so_resolving : resolving (ns_Status ns) = true ↔ ∃ c, c ∈ ns_Candidates ns ∧ resolving (nd_Status c) = true;
  so_shown : resolving (ns_Status ns) = true →
    ∃ c v, c ∈ ns_Candidates ns ∧ nd_Tag c = ns_Shown ns ∧ nd_Status c = ns_Status ns ∧
      (∀ c', c' ∈ ns_Candidates ns → resolving (nd_Status c') = true → betterNewer c' c = false) ∧
      of_newer_series (ir_Version ref) (nd_Change c) (nd_Tag c) v ∧
      id_ok RoleBaseline scans (nd_BaselineScan c) ∧ id_ok RoleCandidate scans (nd_CandidateScan c) ∧
      series_evidence i ref targets c;
}.

Lemma no_candidates_ok full i ref targets scans reason detail :
  series_ok full i ref targets scans (mk_newer_series NewerSeriesNotChecked "" [] reason detail).
Proof. split; cbn; [by left| |done]. split; [done|]. by intros (c & ?%elem_of_nil & _). Qed.

Lemma no_newer_ok full i ref targets scans listed detail :
  complete_listing full (ir_Repository ref) listed → newer_tags (ir_Version ref) listed = [] →
  series_ok full i ref targets scans (mk_newer_series NewerSeriesNone "" [] "" detail).
Proof.
  intros Hl En. split; cbn; [right| |done].
  - exists listed, []. split; [done|]. split; [rewrite <- En; apply newer_tags_spec|]. split; [|done]. exists [], []. by split_and!.
  - split; [done|]. by intros (c & ?%elem_of_nil & _).
Qed.

(** A settled verdict never says that there is no newer series. *)
Lemma settled_status cs :
  (∀ c, c ∈ cs → candidate_status (nd_Status c)) → ns_Status (settleNewerSeries (mk_newer_series "" "" cs "" "")) ≠ NewerSeriesNone.
Proof.
  intros Hs. pose proof (settle_fold cs Hs) as [Hb _]. unfold settleNewerSeries. cbn [ns_Candidates].
  set (a := foldl _ _ _) in *. clearbody a. destruct (sl_best a) as [b|].
  - destruct Hb as (_ & Hr & _). cbn. intros E. by rewrite E in Hr.
  - destruct (_ && _); [done|]. by destruct (List.find _ _).
Qed.

Lemma settle_ok full i ref targets scans listed tags cs :
  complete_listing full (ir_Repository ref) listed → newest_tags (ir_Version ref) listed tags → tags ≠ [] →
  checked_tags i ref targets scans tags cs →
  series_ok full i ref targets scans (settleNewerSeries (mk_newer_series "" "" cs "" "")).
Proof.
  intros Hl Hnew Hne Hcs. pose proof Hcs as (d & rest & Etags & Hf & _).
  assert (Hin : ∀ c, c ∈ cs → ∃ t, t ∈ tags ∧ candidate_ok i ref targets scans t c).
  { intros c [n Hn]%list_elem_of_lookup. destruct (Forall2_lookup_r _ _ _ _ _ Hf Hn) as (t & Ht & Hc).
    exists t. split; [|done]. rewrite Etags. apply elem_of_app. left. by eapply list_elem_of_lookup_2. }
  assert (Hstatus : ∀ c, c ∈ cs → candidate_status (nd_Status c)).
  { intros c Hc. destruct (Hin c Hc) as (t & _ & ?). by eapply co_status. }
  destruct (settleNewerSeries_spec (mk_newer_series "" "" cs "" "") Hstatus) as (E1 & E2 & E3 & _).
  cbn [ns_Candidates] in *. split; [|by rewrite E1|rewrite E1].
  { right. exists listed, tags. rewrite E1. split_and!; [done..|]. split; [|done]. by intros ?%settled_status. }
  intros Hr. destruct (E3 Hr) as (c & Hc & Hshown & Hst & Hbest). destruct (Hin c Hc) as (t & Ht & Hok).
  destruct (proj1 (proj2 Hnew) t Ht) as (v & _ & Hv & _). exists c, v. destruct Hok.
  split_and!; try done; [by rewrite co_change0, co_tag0|]. apply co_evidence0. by rewrite Hst.
Qed.

Notation ok' L T := (λ s, run_ok cfg inputs builds L (fst s) ∧ tags_ok T s).

Lemma newer_candidates_tags T i ref platform targets tags :
  sat (tags_ok (St := St) T) (newer_candidates cfg i ref platform targets tags) (λ _, True).
Proof. apply (newer_candidates_kept None), tags_carried. Qed.

(** A newer tag, or why there is none to check. *)
Lemma newerTags_triple L T ref :
  triple (ok' L T) (newerTags cfg ref)
    (λ x s, ok' L T s ∧
      match x with
      | inl ns => ∀ i targets, series_ok (rn_fullTags (fst s)) i ref targets (rn_Scans (fst s)) ns
      | inr tags => tags ≠ [] ∧ ∃ listed, complete_listing (rn_fullTags (fst s)) (ir_Repository ref) listed ∧
                      newest_tags (ir_Version ref) listed tags
      end).
Proof.
  unfold newerTags. eapply triple_bind.
  { apply triple_and; [apply (fullTagList_sat cfg inputs builds L)|apply (fullTagList_tags cfg T)]. }
  intros [out|listed]; apply triple_ret; intros s [[Hs _] [Ht Hl]]; (split; [done|]); [intros; apply no_candidates_ok|].
  destruct (newer_tags (ir_Version ref) listed) as [|t tags] eqn:E; [intros; by eapply no_newer_ok|].
  split; [done|]. exists listed. split; [done|]. rewrite <- E. apply newer_tags_spec.
Qed.

Lemma newerSeriesItem_triple L T it i :
  i ∈ inputs →
  triple (ok' L T) (newerSeriesItem cfg it i)
    (λ ns s, ok' L T s ∧
      series_ok (rn_fullTags (fst s)) i (ParseImageRef (im_Ref (it_Current it))) (it_Targets it) (rn_Scans (fst s)) ns).
Proof.
  intros Hi. unfold newerSeriesItem.
  eapply triple_bind; [apply triple_and; [apply (stopped_sat L)|apply (stopped_kept (tags_ok T)), tags_quiet]|]. intros [out|].
  { apply triple_ret. intros s [[Hs _] [Ht _]]. split; [done|]. by apply no_candidates_ok. }
  set (ref := ParseImageRef _).
  eapply triple_bind; [eapply triple_weaken; [apply (newerTags_triple L T ref)|by intros s [[? _] [? _]]|done]|].
  intros [ns|tags]; [apply triple_ret; intros s [Hs Hns]; by split; [|apply Hns]|].
  intros s [[Hs Ht] (Hne & listed & Hl & Hnew)].
  (* the listing is kept from here on *)
  assert (Ht' : tags_ok (rn_fullTags s.1) s) by (split; [done|apply Ht]).
  pose proof (triple_and _ _ _ _ _ (newer_candidates_triple i ref (it_Targets it) tags L Hi)
    (newer_candidates_tags (rn_fullTags s.1) i ref (scan_platform i) (it_Targets it) tags) s (conj Hs Ht')) as Hrest.
  unfold mbind, plan_bind. destruct (newer_candidates _ _ _ _ _ _ s) as [[cs s2]|]; cbn; [|done].
  destruct Hrest as [[Hs2 Hcs] [[Hsub Ha] _]]. split; [split; [done|split; [|done]]|].
  - etrans; [apply Ht|done].
  - eapply settle_ok; [by eapply complete_listing_mono|done..].
Qed.

(** ** The stage *)

(** The first input of a reference and entity. *)
Lemma inputsByEntity_in l k i : inputsByEntity l !! k = Some i → i ∈ l ∧ input_key i = k.
Proof.
  unfold inputsByEntity. revert i. induction l as [|j l IH] using rev_ind; intros i; [done|].
  rewrite foldl_app. cbn [foldl]. set (m := foldl _ _ l) in *. clearbody m.
  assert (Hold : m !! k = Some i → i ∈ l ++ [j] ∧ input_key i = k)
    by (intros [? ?]%IH; split; [apply elem_of_app; by left|done]).
  destruct (m !! input_key j) eqn:E; [exact Hold|]. destruct (decide (input_key j = k)) as [<-|Hne].
  - rewrite lookup_insert_eq. intros [= <-]. split; [apply elem_of_app; right; by left|done].
  - by rewrite lookup_insert_ne by done.
Qed.

Lemma inputsByEntity_some l i : i ∈ l → is_Some (inputsByEntity l !! input_key i).
Proof.
  unfold inputsByEntity. induction l as [|j l IH] using rev_ind; [by intros ?%elem_of_nil|].
  rewrite foldl_app. cbn [foldl]. set (m := foldl _ _ l) in *. clearbody m.
  intros [Hi| ->%list_elem_of_singleton]%elem_of_app.
  - destruct (IH Hi) as [x Hx]. destruct (m !! input_key j) eqn:E; [by eexists|].
    rewrite lookup_insert_ne; [by eexists|congruence].
  - destruct (m !! input_key j) eqn:E; [by eexists|]. rewrite lookup_insert_eq. by eexists.
Qed.

(** The input an item is checked for, if it is. *)
Definition unit_of (it : Item) : option ImageInput :=
  if newerSeriesEligible it then inputsByEntity inputs !! it_Key it else None.

Lemma newer_units_perm items :
  newer_units (inputsByEntity inputs) items ≡ₚ
  omap (λ p : nat * Item, (λ i, (fst p, (snd p, i))) <$> unit_of (snd p)) (imap (λ n it, (n, it)) items).
Proof.
  unfold newer_units. rewrite sort_by_perm.
  match goal with |- ?a ≡ₚ ?b => enough (a = b) as -> by done end.
  generalize (imap (λ n it, (n, it)) items). intros l. induction l as [|[n it] l IH]; [done|]. cbn. rewrite IH. unfold unit_of.
  by destruct (newerSeriesEligible it), (inputsByEntity inputs !! it_Key it).
Qed.

Lemma newer_units_in items n it i :
  (n, (it, i)) ∈ newer_units (inputsByEntity inputs) items ↔ items !! n = Some it ∧ unit_of it = Some i.
Proof.
  rewrite newer_units_perm, list_elem_of_omap. split.
  - intros ([m x] & Hm & Hx). cbn in Hx. destruct (unit_of x) as [j|] eqn:E; [|done]. injection Hx as -> -> ->.
    apply elem_of_lookup_imap in Hm as (k & y & [= -> ->] & ?). done.
  - intros [Hn Hu]. exists (n, it). cbn. rewrite Hu. split; [|done]. apply elem_of_lookup_imap. by exists n, it.
Qed.

Lemma newer_units_nodup items : NoDup (newer_units (inputsByEntity inputs) items).*1.
Proof.
  rewrite newer_units_perm. assert (Hs : ∀ (f : Item → option ImageInput) k (l : list Item),
    NoDup (omap (λ p : nat * Item, (λ i, (fst p, (snd p, i))) <$> f (snd p)) (imap (λ n it, (k + n, it)) l)).*1 ∧
    ∀ n, n ∈ (omap (λ p : nat * Item, (λ i, (fst p, (snd p, i))) <$> f (snd p)) (imap (λ n it, (k + n, it)) l)).*1 → k ≤ n).
  { intros f k l. revert k. induction l as [|it l IH]; intros k; [split; [constructor|by intros n ?%elem_of_nil]|].
    cbn [imap omap list_omap fst snd]. rewrite Nat.add_0_r.
    rewrite (imap_ext _ (λ n it, (S k + n, it)) l) by (intros; cbn; do 2 f_equal; lia).
    destruct (IH (S k)) as [Hn Hle]. destruct (f it); cbn [fmap option_fmap option_map list_fmap fst]; [split|].
    - constructor; [|done]. intros Hin%Hle. lia.
    - intros n [->|Hin%Hle]%elem_of_cons; lia.
    - split; [done|]. intros n Hin%Hle. lia. }
  by destruct (Hs unit_of 0 items).
Qed.

(** The verdict the item gets. *)
Definition checked_item (full : gmap string (tagEntry (Err := Err))) (scans : list ScanExecution) (it : Item) (i : ImageInput)
    (it' : Item) : Prop :=
  ∃ ns, it' = it <| it_NewerSeries := Some ns |> ∧
        series_ok full i (ParseImageRef (im_Ref (it_Current it))) (it_Targets it) scans ns.

Lemma checked_tags_prefix i ref targets l k tags cs :
  l `prefix_of` k → checked_tags i ref targets l tags cs → checked_tags i ref targets k tags cs.
Proof.
  intros Hp (d & rest & E & Hf & ?). exists d, rest. split_and!; [done| |naive_solver..].
  eapply Forall2_impl; [exact Hf|]. intros. by eapply candidate_ok_prefix.
Qed.

Lemma series_ok_prefix T T' i ref targets l k ns :
  T ⊆ T' → l `prefix_of` k → series_ok T i ref targets l ns → series_ok T' i ref targets k ns.
Proof.
  intros HT Hp [S1 S2 S3]. split; [|done|].
  - destruct S1 as [?|(listed & tags & Hl & Hn & Hc & ?)]; [by left|right]. exists listed, tags.
    split_and!; [by eapply complete_listing_mono|done|by eapply checked_tags_prefix|naive_solver..].
  - intros Hr. destruct (S3 Hr) as (c & v & ? & ? & ? & ? & ? & Hb & Hc & ?). exists c, v. unfold id_ok in *.
    split_and!; try done; [destruct Hb as [?|Hb]|destruct Hc as [?|Hc]]; try (by left); right; by eapply recorded_prefix.
Qed.

Lemma check_units_triple units items sum L T :
  NoDup units.*1 → (∀ n it i, (n, (it, i)) ∈ units → items !! n = Some it ∧ i ∈ inputs) →
  triple (ok' L T) (check_units cfg units items sum)
    (λ x s, ok' L T s ∧ length (fst x) = length items ∧
      (∀ n, n ∉ units.*1 → fst x !! n = items !! n) ∧
      (∀ n it i, (n, (it, i)) ∈ units → ∃ it', fst x !! n = Some it' ∧ checked_item (rn_fullTags (fst s)) (rn_Scans (fst s)) it i it')).
Proof.
  revert items sum L T. induction units as [|[n [it i]] units IH]; intros items sum L T Hnd Hu; cbn [check_units].
  { apply triple_ret. intros s Hs. cbn. split; [exact Hs|]. split_and!; try done. by intros ? ? ? ?%elem_of_nil. }
  cbn [fmap list_fmap fst] in Hnd. apply NoDup_cons in Hnd as [Hn Hnd].
  destruct (Hu n it i ltac:(by left)) as [Hit Hi].
  eapply triple_bind; [by apply newerSeriesItem_triple|]. intros ns s [[Hs Ht] Hns].
  assert (Hs' : run_ok cfg inputs builds (rn_Scans s.1) s.1) by (destruct Hs as (? & ? & _); by split_and!).
  assert (Ht' : tags_ok (rn_fullTags s.1) s) by (split; [done|apply Ht]).
  assert (Hne : ∀ m x j, (m, (x, j)) ∈ units → m ≠ n).
  { intros m x j Hm ->. apply Hn. by apply (list_elem_of_fmap_2 fst) in Hm. }
  assert (Hu' : ∀ m x j, (m, (x, j)) ∈ units →
    (<[n:=it <| it_NewerSeries := Some ns |>]> items) !! m = Some x ∧ j ∈ inputs).
  { intros m x j Hm. rewrite list_lookup_insert_ne by (symmetry; by eapply Hne). apply Hu. by right. }
  pose proof (IH _ (count_series sum ns) (rn_Scans s.1) (rn_fullTags s.1) Hnd Hu' s (conj Hs' Ht')) as Hrest.
  destruct (check_units cfg units _ _ s) as [[[items' sum'] s2]|]; [|done]. cbn [fst] in *.
  destruct Hrest as (((Hok & Hb & Hp) & [Hsub Ha]) & Hlen & Hout & Hin). rewrite length_insert in Hlen.
  split; [split; [split_and!; [done..|]; destruct Hs as (_ & _ & Hp0); by etrans|split; [etrans; [apply Ht|done]|done]]|]. split_and!; [done| |].
  - intros m [Hm1 Hm2]%not_elem_of_cons. rewrite Hout by done. by rewrite list_lookup_insert_ne.
  - intros m x j [[= -> -> ->]|Hm]%elem_of_cons; [|by apply Hin]. exists (it <| it_NewerSeries := Some ns |>). split.
    + rewrite Hout by done. apply list_lookup_insert_eq. by eapply lookup_lt_Some.
    + exists ns. split; [done|]. by eapply series_ok_prefix.
Qed.
End check.

(** ** Pages and termination *)

Section pages.
Context {St Err : Type} `{Registry St Err} `{World St Err}.
Context `{GoUnicodeUpper, GoQuote, MapRange}.
Context (cfg : Config).
Context (kept_allowance : keeps_allowance (St := St) (Err := Err)).
Notation pages_ok := (pages_ok (St := St) (Err := Err) cfg).

Lemma stopped_pages : sat pages_ok stopped (λ _, True).
Proof. unfold stopped, ctx_of, deadlineReason. sat_auto. Qed.

Lemma newerSeriesItem_pages it i : sat pages_ok (newerSeriesItem cfg it i) (λ _, True).
Proof using kept_allowance.
  assert (Hone : ∀ ref t platform targets, sat pages_ok (newerImageCandidate cfg i ref t platform targets) (λ _, True)).
  { intros. unfold newerImageCandidate, classify_candidate.
    sat_auto; (apply stopped_pages || apply resolveTag_pages || apply compareImage_pages). }
  assert (Hall : ∀ ref platform targets tags, sat pages_ok (newer_candidates cfg i ref platform targets tags) (λ _, True)).
  { intros. induction tags as [|t tags IH]; cbn [newer_candidates]; [by apply sat_ret|].
    eapply sat_bind; [apply Hone|]. intros c _. destruct (checkNext _); [|by apply sat_ret].
    eapply sat_bind; [exact IH|]. intros. by apply sat_ret. }
  unfold newerSeriesItem, newerTags. sat_auto; (apply stopped_pages || apply Hall || by apply fullTagList_pages).
Qed.

Lemma check_units_pages units items sum : sat pages_ok (check_units cfg units items sum) (λ _, True).
Proof using kept_allowance.
  revert items sum. induction units as [|[n [it i]] units IH]; intros items sum; cbn [check_units]; [by apply sat_ret|].
  eapply sat_bind; [apply newerSeriesItem_pages|]. intros. apply IH.
Qed.
End pages.

Section total.
Context {St Err : Type} `{Registry St Err} `{World St Err}.
Context `{GoUnicodeUpper, GoQuote, MapRange}.
Context (cfg : Config).

Lemma stopped_returns : returns (stopped (St := St) (Err := Err)).
Proof. pose proof (ctx_of_returns (St := St) (Err := Err)). pose proof (deadlineReason_returns (St := St) (Err := Err)). unfold stopped. repeat returns_step. Qed.
Hint Resolve stopped_returns : kl_plan.

Lemma newerSeriesItem_returns it i : returns (newerSeriesItem cfg it i).
Proof.
  pose proof (resolveTag_returns (St := St) (Err := Err)). pose proof (compareImage_returns (St := St) (Err := Err) cfg).
  pose proof (fullTagList_returns (St := St) (Err := Err) cfg).
  assert (Hall : ∀ ref platform targets tags, returns (newer_candidates cfg i ref platform targets tags)).
  { intros. induction tags; cbn [newer_candidates]; [apply returns_ret|]. unfold newerImageCandidate, classify_candidate.
    repeat returns_step. }
  unfold newerSeriesItem, newerTags. repeat returns_step.
Qed.

Lemma check_newer_series_returns inputs items stage reserve : returns (check_newer_series cfg inputs items stage reserve).
Proof.
  pose proof newerSeriesItem_returns.
  assert (Hall : ∀ units items sum, returns (check_units cfg units items sum)).
  { induction units as [|[n [it i]] units IH]; intros; cbn [check_units]; repeat returns_step. }
  unfold check_newer_series. repeat returns_step.
Qed.
End total.

(** ** Both passes *)

Section passes.
Context {St Err : Type} `{Registry St Err} `{World St Err} (pager : option (TagPager St Err)).
Context `{GoUnicodeUpper, GoQuote, MapRange}.
Context (cfg : Config) (inputs : list ImageInput).
Notation run := (run (Err := Err)).

(** The stage is its loop, besides the counts of requests. *)
Lemma check_newer_series_inv items stage reserve (r0 : run) (w0 : St) items' sum r w :
  check_newer_series cfg inputs items stage reserve (r0, w0) = Some ((items', sum), (r, w)) →
  ∃ sum' r1 w1 used, check_units cfg (newer_units (inputsByEntity inputs) items) items (mk_ns_summary 0 0 0 0 0 0 0)
      (enter_stage stage r0, Budget_Reserve reserve w0) = Some ((items', sum'), (r1, w1)) ∧
    r = r1 <| rn_Usage := rn_Usage r1 <| us_RegistryRequests := used |> |> ∧ w = Budget_Reserve 0 w1.
Proof.
  unfold check_newer_series, mbind, plan_bind, call, change, ask. cbn [fst snd mbind option_bind].
  destruct (check_units _ _ _ _ _) as [[[its s] [r1 w1]]|] eqn:E; cbn; [|done].
  intros [= <- <- <- <-]. by eexists s, r1, w1, _.
Qed.

Lemma enter_stage_ok builds L stage r (w : St) :
  run_ok cfg inputs builds L r → run_ok cfg inputs builds L (fst (enter_stage stage r, w)).
Proof. done. Qed.

Lemma enter_stage_tags builds w w1 r1 items stage reserve :
  plan_images pager cfg inputs (new_run builds, w) = Some (items, (r1, w1)) →
  tags_ok (St := St) ∅ (enter_stage stage r1, Budget_Reserve reserve w1).
Proof. intros Hp. apply (tags_ok_same ∅ r1 _ w1); [done|]. exact (pass_tags pager cfg inputs builds w w1 r1 items Hp). Qed.
End passes.

(** C9: The check of newer series changes nothing of a plan but its verdicts on
    newer series, and those stand on scans. After the plan of the same images,
    every item keeps its place and all its fields; the ones that get a verdict
    are exactly the pinned images without a candidate for one of the three
    reasons the code lists, with targets, and with an image of their reference
    and entity. The tags checked are those of the listing the run keeps of the
    repository, which is what the registry answered when it was asked for all
    tags, without an error and not cut off: the highest version of the own major
    version and then of a newer one, among the released tags of newer series of
    the same form, the second only when the first does not resolve everything.
    When no such listing was had, nothing is checked and the verdict is
    [not_checked]; it is [none] exactly when the complete listing has no tag of a
    newer series. The verdict says that something resolves exactly when a checked
    candidate does, and shows one that none is better than; and such a
    candidate is a released tag of a newer series of the same form, its content
    is none of the digests the image runs, and the scan of an image with this
    identity and the scan of that content, both under the prepared conditions,
    can be compared, judge every target and show at least one fixed: all of
    them and nothing new for [resolves], something new exactly for
    [resolves_with_new]. *)
Theorem newer_series_justified {St Err} `{Registry St Err} `{World St Err} `{GoUnicodeUpper, GoQuote, MapRange}
    (pager : option (TagPager St Err)) cfg inputs builds w items s1 stage reserve items' sum r w' :
  NewPlanner true true cfg = Some cfg →
  (∀ k st out, builds !! k = Some st → cs_out st = Some out → blocked (po_cat out)) →
  plan_images pager cfg inputs (new_run builds, w) = Some (items, s1) →
  check_newer_series cfg inputs items stage reserve s1 = Some ((items', sum), (r, w')) →
  Forall2 (λ it it',
    match unit_of inputs it with
    | None => it' = it
    | Some i => i ∈ inputs ∧ input_key i = it_Key it ∧ checked_item cfg inputs (rn_fullTags r) (rn_Scans r) it i it'
    end) items items'.
Proof.
  intros Ha Hb Hp Hc. destruct s1 as [r1 w1]. destruct (pass_items pager cfg inputs builds w w1 r1 items Hp Ha Hb) as [Hok _].
  apply check_newer_series_inv in Hc as (sum' & r2 & w2 & used & Hc & -> & ->).
  assert (Hin : ∀ it i, unit_of inputs it = Some i → i ∈ inputs ∧ input_key i = it_Key it).
  { unfold unit_of. intros it i. destruct (newerSeriesEligible it); [|done]. apply inputsByEntity_in. }
  assert (Hu : ∀ n it i, (n, (it, i)) ∈ newer_units (inputsByEntity inputs) items → items !! n = Some it ∧ i ∈ inputs).
  { intros n it i [Hn Hi]%newer_units_in. split; [done|]. by eapply Hin. }
  destruct (triple_run _ _ _ _ _ _ (check_units_triple cfg inputs builds _ items (mk_ns_summary 0 0 0 0 0 0 0) [] ∅
    (newer_units_nodup inputs items) Hu)
    (conj (enter_stage_ok cfg inputs builds [] stage r1 (Budget_Reserve reserve w1) Hok)
      (enter_stage_tags pager cfg inputs builds w w1 r1 items stage reserve Hp)) Hc) as (_ & Hlen & Hout & Hall).
  cbn [fst] in *. apply Forall2_same_length_lookup. split; [done|]. intros n it it' Hn Hn'.
  destruct (unit_of inputs it) as [i|] eqn:Eu.
  - destruct (Hall n it i) as (x & Hx & Hchecked); [by apply newer_units_in|]. destruct (Hin _ _ Eu).
    split_and!; [done..|]. by assert (it' = x) as -> by congruence.
  - rewrite Hout in Hn'; [congruence|]. intros ([m [x j]] & Em & [Hm Hj]%newer_units_in)%list_elem_of_fmap.
    cbn in Em. congruence.
Qed.

(** C11: The check of newer series ends, and the two passes together keep the
    limits of one, in what is really asked for. With any measure that counts, as
    the registry reports them, the pages requested of each repository and the
    scans made, and with a registry that makes no more page requests than it is
    allowed: the candidate scans (the entries with that role), the other scans
    made, which repeat a baseline, and for every repository the pages requested,
    over both passes, are exactly what the run counted, and stay within the
    limits; and no content is scanned twice: every recorded scan is the cached
    one of a candidate or of a baseline. *)
Theorem newer_series_limits {St Err} `{Registry St Err} `{World St Err} `{GoUnicodeUpper, GoQuote, MapRange}
    (pager : option (TagPager St Err)) cfg inputs builds w items s1 stage reserve pages scans :
  NewPlanner true true cfg = Some cfg →
  (∀ k st out, builds !! k = Some st → cs_out st = Some out → blocked (po_cat out)) →
  counted_pages pager → keeps_allowance (St := St) (Err := Err) →
  counts_work (Err := Err) pager pages scans →
  plan_images pager cfg inputs (new_run builds, w) = Some (items, s1) →
  ∃ items' sum r w', check_newer_series cfg inputs items stage reserve s1 = Some ((items', sum), (r, w')) ∧
    let limits := cf_Limits cfg in
    let candidates := Z.of_nat (length (filter (λ ex, ex_Role ex = RoleCandidate) (rn_Scans r))) in
    (candidates = us_CandidateScans (rn_Usage r) ∧ candidates ≤ lm_MaxCandidateScans limits)%Z ∧
    (scans w' - scans w - candidates = us_BaselineRescans (rn_Usage r) ∧
      0 ≤ us_BaselineRescans (rn_Usage r) ≤ lm_MaxBaselineRescans limits)%Z ∧
    (∀ key, pages key w' - pages key w = used_pages r key ∧ used_pages r key ≤ lm_MaxTagPages limits)%Z ∧
    us_CandidateScans (rn_Usage r) = Z.of_nat (size (rn_cands r)) ∧
    length (rn_Scans r) = size (rn_cands r) + size (rn_bases r).
Proof.
  intros Ha Hb Hpc Hk Hw Hp. destruct s1 as [r1 w1]. destruct (pass_items pager cfg inputs builds w w1 r1 items Hp Ha Hb) as [Hok _].
  pose proof (pass_pages pager cfg inputs builds w w1 r1 items Hp Ha Hpc Hk) as Hpg.
  destruct (check_newer_series_returns cfg inputs items stage reserve (r1, w1)) as [[[items' sum] [r w']] Hc].
  exists items', sum, r, w'. split; [done|]. apply check_newer_series_inv in Hc as (sum' & r2 & w2 & used & Hc & -> & ->).
  assert (Hu : ∀ n it i, (n, (it, i)) ∈ newer_units (inputsByEntity inputs) items → items !! n = Some it ∧ i ∈ inputs).
  { intros n it i [Hn Hi]%newer_units_in. split; [done|]. revert Hi. unfold unit_of. destruct (newerSeriesEligible it); [|done].
    by intros [? _]%inputsByEntity_in. }
  destruct (triple_run _ _ _ _ _ _ (check_units_triple cfg inputs builds _ items (mk_ns_summary 0 0 0 0 0 0 0) [] ∅
    (newer_units_nodup inputs items) Hu)
    (conj (enter_stage_ok cfg inputs builds [] stage r1 (Budget_Reserve reserve w1) Hok)
      (enter_stage_tags pager cfg inputs builds w w1 r1 items stage reserve Hp)) Hc) as [[(Hok2 & _) _] _].
  assert (Hpg1 : pages_ok (St := St) (Err := Err) cfg (enter_stage stage r1, Budget_Reserve reserve w1)) by exact Hpg.
  destruct (triple_run _ _ _ _ _ _ (check_units_pages cfg Hk _ _ _) Hpg1 Hc) as [Hpg2 _].
  pose proof (pass_work pager cfg inputs builds w w1 r1 items Hp pages scans Hw) as [Hwp Hws].
  assert (Hw1 : work_at pages scans (λ key, pages key w) (scans w) 0 (enter_stage stage r1, Budget_Reserve reserve w1)).
  { destruct (cw_reserve _ _ _ Hw reserve w1) as [Fp Fs]. split; cbn [snd]; [intros key; by rewrite Fp, Hwp|]. rewrite Fs. exact Hws. }
  destruct (triple_run _ _ _ _ _ _ (check_units_kept pager cfg _ _ _ _ (work_carried pager cfg pages scans Hw _ _)) Hw1 Hc)
    as [[Hp2 Hs2] _].
  destruct (cw_reserve _ _ _ Hw 0%Z w2) as [Fp Fs]. destruct Hok2. cbv zeta. cbn [fst snd] in *. rewrite Fs.
  assert (Hcands : Z.of_nat (length (filter (λ ex, ex_Role ex = RoleCandidate) (rn_Scans r2))) = us_CandidateScans (rn_Usage r2))
    by (rewrite si_cand_scans; f_equal; exact si_cand_entries).
  cbn. rewrite Hcands. split_and!; try done; try lia.
  intros key. rewrite Fp. specialize (Hp2 key). specialize (Hpg2 key). unfold used_pages in *. cbn in *. lia.
Qed.

(** ** A small world with a newer series

    The registry has no newer patch of the running 1.2.3, but 1.3.0 and 2.0.0;
    OpenSSL is fixed in both. *)

#[local] Existing Instance example_kind_dec.

(** The repositories asked for, and the scans made. *)
Notation series_state := (list string * Z)%type.

#[local] Instance series_registry : Registry series_state errKind :=
  λ repo _ s, ((mk_tag_list ["1.2.3"; "1.3.0-rc1"; "1.3.0"; "2.0.0"] false 1, None), (repo :: fst s, snd s)).

#[local] Instance series_world : World series_state errKind := {
  Resolve _ _ _ s := ((mk_resolution ("sha256:" +:+ example_hex "b") ("sha256:" +:+ example_hex "c")
                                     ("sha256:" +:+ example_hex "d"), None), s);
  Scan t s := (example_image (st_Subject t) "3.0.2" [], (fst s, (snd s + 1)%Z));
  VerifyDB _ s := ((true, None), s);
  Now s := (0%Z, s);
  ctx_Err _ s := (None, s);
  Budget_Used s := Z.of_nat (length (fst s));
  Budget_Reserve _ s := s;
  err_is k e := bool_decide (k = e);
  err_Error e := "rate limited";
}.

Definition series_pages (key : string) (s : series_state) : Z :=
  Z.of_nat (length (filter (λ repo, RepositoryKey repo = Some key) (fst s))).

Lemma series_counts : counts_work (Err := errKind) None series_pages snd.
Proof.
  split; try done.
  - intros key repo n [l k] list err s'. unfold ListTagsUpTo, series_registry, series_pages, weight. intros [= <- _ <-].
    cbn [fst]. rewrite filter_cons. destruct (decide (RepositoryKey repo = Some key)); cbn [length tl_Pages]; lia.
Qed.

Definition series_plan : option (list Item * (run (Err := errKind) * series_state)) :=
  plan_images None example_config example_inputs (new_run ∅, ([], 0%Z)).

Definition series_items : list Item := match series_plan with Some (items, _) => items | None => [] end.
Definition series_start : run (Err := errKind) * series_state :=
  match series_plan with Some (_, s) => s | None => (new_run ∅, ([], 0%Z)) end.

Lemma series_planned :
  plan_images None example_config example_inputs (new_run ∅, ([], 0%Z)) = Some (series_items, series_start).
Proof.
  assert (Hs : match series_plan with Some _ => true | None => false end = true) by (vm_compute; reflexivity).
  unfold series_items, series_start. revert Hs. fold series_plan.
  destruct series_plan as [[its s]|]; [reflexivity|discriminate].
Qed.

Definition series_check : option ((list Item * NewerSeriesSummary) * (run (Err := errKind) * series_state)) :=
  check_newer_series example_config example_inputs series_items None 0 series_start.

(** The items with their verdicts, the counts, and what was really asked for:
    the pages of the repository and the scans. *)
Definition series_summary : list (string * string * string * list (string * string)) * (nat * nat * nat) * (Z * Z) :=
  match series_check with
  | Some ((items, sum), (r, s)) =>
      ((λ it, (it_Category it, it_Reason it,
          match it_NewerSeries it with Some ns => ns_Shown ns | None => "" end,
          match it_NewerSeries it with Some ns => (λ c, (nd_Tag c, nd_Status c)) <$> ns_Candidates ns | None => [] end)) <$> items,
       (nsum_Items sum, nsum_Resolving sum, nsum_NotChecked sum), (series_pages "registry.example/app" s, snd s))
  | None => ([], (0, 0, 0), (0, 0)%Z)
  end.

(** The minor series resolves everything, so the major one is not looked at;
    the second container of the image reuses the scan. *)
Lemma series_check_result :
  series_summary =
  ([(CategoryNoCandidate, ReasonNoNewerTag, "1.3.0", [("1.3.0", NewerSeriesResolves)]);
    (CategoryNoCandidate, ReasonNoNewerTag, "1.3.0", [("1.3.0", NewerSeriesResolves)])], (2, 2, 0), (1, 1)%Z).
Proof. vm_compute. reflexivity. Qed.

Lemma newer_series_justified_witness :
  series_summary.1.2 = (2, 2, 0) ∧
  ∃ items' sum r w', series_check = Some ((items', sum), (r, w')) ∧
    Forall2 (λ it it',
      match unit_of example_inputs it with
      | None => it' = it
      | Some i => i ∈ example_inputs ∧ input_key i = it_Key it ∧ checked_item example_config example_inputs (rn_fullTags r) (rn_Scans r) it i it'
      end) series_items items'.
Proof.
  split; [rewrite series_check_result; reflexivity|].
  destruct series_check as [[[items' sum] [r w']]|] eqn:E;
    [|exfalso; pose proof series_check_result as F; unfold series_summary in F; rewrite E in F; discriminate F].
  exists items', sum, r, w'. split; [reflexivity|].
  refine (newer_series_justified None example_config example_inputs ∅ ([], 0%Z) series_items series_start None 0%Z items' sum r w'
    _ example_blocked series_planned E). vm_compute. reflexivity.
Defined.

Lemma newer_series_limits_witness :
  series_summary.2 = (1, 1)%Z ∧
  ∃ items' sum r w', check_newer_series example_config example_inputs series_items None 0 series_start = Some ((items', sum), (r, w')) ∧
    let limits := cf_Limits example_config in
    let candidates := Z.of_nat (length (filter (λ ex, ex_Role ex = RoleCandidate) (rn_Scans r))) in
    (candidates = us_CandidateScans (rn_Usage r) ∧ candidates ≤ lm_MaxCandidateScans limits)%Z ∧
    (snd w' - 0 - candidates = us_BaselineRescans (rn_Usage r) ∧
      0 ≤ us_BaselineRescans (rn_Usage r) ≤ lm_MaxBaselineRescans limits)%Z ∧
    (∀ key, series_pages key w' - 0 = used_pages r key ∧ used_pages r key ≤ lm_MaxTagPages limits)%Z ∧
    us_CandidateScans (rn_Usage r) = Z.of_nat (size (rn_cands r)) ∧
    length (rn_Scans r) = size (rn_cands r) + size (rn_bases r).
Proof.
  split; [rewrite series_check_result; reflexivity|].
  refine (newer_series_limits None example_config example_inputs ∅ ([], 0%Z) series_items series_start None 0%Z series_pages snd
    _ example_blocked I _ series_counts series_planned); [vm_compute; reflexivity|].
  intros repo n s l err s' Hn E. injection E as <- <- <-. cbn. lia.
Defined.
