(* ===== verification/PRTypes.v ===== *)
(** * PRTypes: the records of the pull request stage

    internal/remediation/pr_types.go and pr_store.go: what is kept of pull
    requests, of the attempts to open them and of every external write, and
    what the record file must satisfy. Timestamps and the display of language
    updates are left out: nothing modelled reads them. *)

From Stdlib Require Import ZArith Lia Bool Ascii String List Sorted.
From stdpp Require Import base gmap strings list.
From S2P Require Import Prelude GoStrings Decimals Compare Adopt Plan.

Open Scope string_scope.
Open Scope Z_scope.
Open Scope nat_scope.
Open Scope list_scope.
Open Scope kl_scope.

(** ** States *)

Definition PRStatusCreated : string := "pr_created".
Definition PRStatusOpen : string := "pr_open".
Definition PRStatusMerged : string := "pr_merged".
Definition PRStatusSuppressed : string := "pr_suppressed".
Definition PRStatusManual : string := "manual".
Definition PRStatusDeferred : string := "deferred".
Definition PRStatusFailed : string := "failed".
Definition PRStatusWriteBlocked : string := "write_blocked".

Definition ReasonComposeSetNotAdopted : string := "compose_set_not_adopted".
Definition ReasonComposeFileNotFound : string := "compose_file_not_found".
Definition ReasonComposeFileUnusable : string := "compose_file_unusable".
Definition ReasonPRLimit : string := "pr_limit".
Definition ReasonOpenPRLimit : string := "open_pr_limit".
Definition ReasonCandidateChanged : string := "candidate_changed".
Definition ReasonBaseMoved : string := "base_moved".
Definition ReasonGitHubRateLimited : string := "github_rate_limited".
Definition ReasonWriteOutcomeUnknown : string := "write_outcome_unknown".
Definition ReasonStoreLocked : string := "store_locked".
Definition ReasonStorageFailed : string := "storage_failed".
Definition ReasonStorageFull : string := "storage_full".
Definition ReasonRecordsUnverified : string := "records_unverified".
Definition ReasonReconcileFailed : string := "reconciliation_failed".
Definition ReasonRepositoryMismatch : string := "repository_mismatch".
Definition ReasonAttemptUnsettled : string := "attempt_unsettled".
Definition ReasonBranchNotOurs : string := "branch_not_ours".
Definition ReasonGitHubRefused : string := "github_refused".
Definition ReasonGitHubError : string := "github_error".
Definition ReasonByteBudget : string := "byte_budget_exhausted".
Definition ReasonGitHubBudget : string := "github_budget_exhausted".
Definition ReasonRegistryRecheck : string := "candidate_recheck_failed".

Definition PRStateOpen : string := "open".
Definition PRStateClosed : string := "closed".
Definition PRStateMerged : string := "merged".
Definition PRStateReplaced : string := "replaced".

Definition AttemptIntent : string := "intent".
Definition AttemptBlobCreated : string := "blob_created".
Definition AttemptTreeCreated : string := "tree_created".
Definition AttemptCommitCreated : string := "commit_created".
Definition AttemptRefCreated : string := "ref_created".
Definition AttemptPRRequested : string := "pr_requested".
Definition AttemptPRCreated : string := "pr_created".
Definition AttemptAbandoned : string := "abandoned".
Definition AttemptAbandonedWithoutPR : string := "abandoned_without_pr".
Definition AttemptBlocked : string := "blocked".

Definition settled (s : string) : bool :=
  String.eqb s AttemptPRCreated || String.eqb s AttemptAbandoned || String.eqb s AttemptAbandonedWithoutPR.

Definition ReplacementPending : string := "pending".
Definition ReplacementCommented : string := "commented".
Definition ReplacementClosed : string := "closed".
Definition ReplacementDone : string := "done".
Definition ReplacementAbandoned : string := "abandoned".

Definition PhaseIntent : string := "intent".
Definition PhaseResult : string := "result".
Definition PhaseSettled : string := "settled".

Definition OpCreateBlob : string := "create_blob".
Definition OpCreateTree : string := "create_tree".
Definition OpCreateCommit : string := "create_commit".
Definition OpCreateRef : string := "create_ref".
Definition OpCreatePull : string := "create_pull".
Definition OpCreateComment : string := "create_comment".
Definition OpClosePull : string := "close_pull".

Definition ResultOK : string := "ok".
Definition ResultFailed : string := "failed".
Definition ResultUnknown : string := "unknown".

Definition PRProblemWriteBlocked : string := "write_blocked".
Definition PRProblemStorageFailed : string := "storage_failed".
Definition PRProblemStorageFull : string := "storage_full".
Definition PRProblemRecordsUnverified : string := "records_unverified".

(** ** Records *)

Record FixTarget := mk_fix_target {
  ft_Location : string; ft_VulnID : string; ft_Package : PackageCoord;
  ft_Layers : list string; ft_LayersDigest : string; ft_Entities : list string }.
#[export] Instance eta_FixTarget : Eta FixTarget := λ r,
  mk_fix_target (ft_Location r) (ft_VulnID r) (ft_Package r) (ft_Layers r) (ft_LayersDigest r) (ft_Entities r).

Record Replacement := mk_replacement {
  rp_OldNumber : Z; rp_State : string; rp_Detail : string; rp_PendingOp : string }.
#[export] Instance eta_Replacement : Eta Replacement := λ r,
  mk_replacement (rp_OldNumber r) (rp_State r) (rp_Detail r) (rp_PendingOp r).

Definition terminal (r : Replacement) : bool :=
  String.eqb (rp_State r) ReplacementDone || String.eqb (rp_State r) ReplacementAbandoned.

Record VulnSummary := mk_vuln_summary {
  vs_VulnID : string; vs_Package : PackageCoord; vs_Severity : string; vs_Priority : string; vs_KEV : bool;
  vs_Layers : list string }.

Record ItemEvidence := mk_item_evidence {
  ie_ItemKey : string; ie_Current : ImageState; ie_Candidate : ImageState;
  ie_BaselineScan : string; ie_CandidateScan : string; ie_Locations : list string;
  ie_Resolved : list VulnSummary; ie_Remaining : list VulnSummary;
  ie_OtherResolved : list VulnSummary; ie_OtherRemaining : list VulnSummary; ie_Introduced : list VulnSummary }.
#[export] Instance eta_ItemEvidence : Eta ItemEvidence := λ r,
  mk_item_evidence (ie_ItemKey r) (ie_Current r) (ie_Candidate r) (ie_BaselineScan r) (ie_CandidateScan r)
    (ie_Locations r) (ie_Resolved r) (ie_Remaining r) (ie_OtherResolved r) (ie_OtherRemaining r) (ie_Introduced r).

Record VerificationSummary := mk_verification_summary {
  vy_TrivyVersion : string; vy_Severities : list string; vy_Scope : string; vy_Items : list ItemEvidence }.
#[export] Instance eta_VerificationSummary : Eta VerificationSummary := λ r,
  mk_verification_summary (vy_TrivyVersion r) (vy_Severities r) (vy_Scope r) (vy_Items r).

(** A file of a commit (pr_keys.go). *)
Record FileChange := mk_file_change { fc_Path : string; fc_Mode : string; fc_BlobSHA : string }.

(** What identifies a language update (pr_language_keys.go), without what is
    only displayed. *)
Record LangKeyEntry := mk_lang_entry {
  le_Ecosystem : string; le_Name : string; le_Positions : list string; le_Adopted : string; le_Through : list string }.

Record LangChainMove := mk_chain_move { cm_Name : string; cm_From : string; cm_To : string }.

Record LangEdit := mk_lang_edit {
  led_File : string; led_Section : string; led_Name : string; led_From : string; led_To : string }.

Record MavenBOMRaise := mk_bom { mb_BOM : string; mb_From : string; mb_To : string; mb_Manages : string }.

Record LangRemaining := mk_lang_remaining {
  lx_Ecosystem : string; lx_Name : string; lx_Reason : string; lx_MavenBOM : option MavenBOMRaise }.

Record RuntimeRecord := mk_runtime_record { rr_ID : string; rr_Version : string }.
Record ToolRecord := mk_tool_record { tl_Name : string; tl_Version : string; tl_SHA256 : string }.

Record LangRecord := mk_lang_record {
  lr_Manager : string; lr_Packages : list LangKeyEntry; lr_ManifestEdits : list LangEdit; lr_Chain : list LangChainMove;
  lr_Remaining : list LangRemaining; lr_Runtime : option RuntimeRecord; lr_Tool : option ToolRecord }.

Record PRRecord := mk_pr_record {
  pr_Repo : string; pr_RepoID : Z; pr_Kind : string; pr_TargetKey : string; pr_UpdateKey : string;
  pr_AttemptKey : string; pr_Branch : string; pr_Number : Z; pr_URL : string; pr_BaseBranch : string;
  pr_BaseSHA : string; pr_HeadSHA : string; pr_Path : string; pr_Locations : list string; pr_State : string;
  pr_ReplacedBy : Z; pr_SupersededBy : Z; pr_UserModified : bool; pr_ModifiedReason : string;
  pr_FixTargets : list FixTarget; pr_Services : list string; pr_CurrentRef : string; pr_CandidateTag : string;
  pr_CandidateDigest : string; pr_Affected : list string; pr_Replacing : list Replacement;
  pr_Recovered : bool; pr_MarkerOnly : bool; pr_Evidence : option VerificationSummary; pr_Lang : option LangRecord }.
#[export] Instance eta_PRRecord : Eta PRRecord := λ r,
  mk_pr_record (pr_Repo r) (pr_RepoID r) (pr_Kind r) (pr_TargetKey r) (pr_UpdateKey r) (pr_AttemptKey r) (pr_Branch r)
    (pr_Number r) (pr_URL r) (pr_BaseBranch r) (pr_BaseSHA r) (pr_HeadSHA r) (pr_Path r) (pr_Locations r) (pr_State r)
    (pr_ReplacedBy r) (pr_SupersededBy r) (pr_UserModified r) (pr_ModifiedReason r) (pr_FixTargets r) (pr_Services r)
    (pr_CurrentRef r) (pr_CandidateTag r) (pr_CandidateDigest r) (pr_Affected r) (pr_Replacing r) (pr_Recovered r)
    (pr_MarkerOnly r) (pr_Evidence r) (pr_Lang r).

Record AttemptRecord := mk_attempt {
  at_Kind : string; at_AttemptKey : string; at_UpdateKey : string; at_TargetKey : string; at_Repo : string;
  at_RepoID : Z; at_Branch : string; at_BaseBranch : string; at_BaseSHA : string; at_Path : string; at_Mode : string;
  at_InputSHA : string; at_NewBlobSHA : string; at_TreeSHA : string; at_CommitSHA : string; at_Status : string;
  at_Detail : string; at_PRNumber : Z; at_PendingOp : string; at_Services : list string; at_Locations : list string;
  at_CurrentRef : string; at_CandidateTag : string; at_CandidateDigest : string; at_Affected : list string;
  at_FixTargets : list FixTarget; at_Evidence : option VerificationSummary; at_Changes : list FileChange;
  at_Lang : option LangRecord }.
#[export] Instance eta_AttemptRecord : Eta AttemptRecord := λ r,
  mk_attempt (at_Kind r) (at_AttemptKey r) (at_UpdateKey r) (at_TargetKey r) (at_Repo r) (at_RepoID r) (at_Branch r)
    (at_BaseBranch r) (at_BaseSHA r) (at_Path r) (at_Mode r) (at_InputSHA r) (at_NewBlobSHA r) (at_TreeSHA r)
    (at_CommitSHA r) (at_Status r) (at_Detail r) (at_PRNumber r) (at_PendingOp r) (at_Services r) (at_Locations r)
    (at_CurrentRef r) (at_CandidateTag r) (at_CandidateDigest r) (at_Affected r) (at_FixTargets r) (at_Evidence r)
    (at_Changes r) (at_Lang r).

Definition fileChanges (a : AttemptRecord) : list FileChange :=
  match at_Changes a with
  | [] => [mk_file_change (at_Path a) (at_Mode a) (at_NewBlobSHA a)]
  | l => l
  end.

Record OperationEvent := mk_event {
  ev_Seq : Z; ev_ID : string; ev_Phase : string; ev_Kind : string; ev_Repo : string; ev_AttemptKey : string;
  ev_Number : Z; ev_Intent : string; ev_Result : string; ev_Ref : string; ev_Error : string }.
#[export] Instance eta_OperationEvent : Eta OperationEvent := λ r,
  mk_event (ev_Seq r) (ev_ID r) (ev_Phase r) (ev_Kind r) (ev_Repo r) (ev_AttemptKey r) (ev_Number r) (ev_Intent r)
    (ev_Result r) (ev_Ref r) (ev_Error r).

Record PRStageProblem := mk_problem {
  pb_Code : string; pb_Repo : string; pb_Target : string; pb_Reason : string; pb_Detail : string }.

Record RepoInit := mk_repo_init { ri_Repo : string; ri_RepoID : Z }.

(** A wait of a dependency update; the fields the checks read. *)
Record LangWaitRecord := mk_wait {
  lw_Repo : string; lw_BaseBranch : string; lw_LockPath : string; lw_InputFingerprint : string; lw_Kind : string }.

Record PRStoreFile := mk_store {
  fl_Version : Z; fl_Repos : list RepoInit; fl_PRs : list PRRecord; fl_Attempts : list AttemptRecord;
  fl_Operations : list OperationEvent; fl_NextSeq : Z; fl_DeliveredSeq : Z; fl_LangWaits : list LangWaitRecord }.
#[export] Instance eta_PRStoreFile : Eta PRStoreFile := λ r,
  mk_store (fl_Version r) (fl_Repos r) (fl_PRs r) (fl_Attempts r) (fl_Operations r) (fl_NextSeq r)
    (fl_DeliveredSeq r) (fl_LangWaits r).

Definition PRStoreVersion : Z := 1.
Definition maxOperationEvents : nat := 1000.
Definition chainStoppedKind : string := "chain_stopped".
Definition langWaitKinds : list string :=
  ["release_age"; "budget_containers"; "budget_lookups"; "budget_bytes"; "budget_time"; chainStoppedKind].
