(* ===== verification/PRKeys.v ===== *)
(** * PRKeys: what identifies an update and an attempt

    internal/remediation/pr_keys.go and pr_language_keys.go with the keys of
    pr_types.go, and the names internal/github/validate.go accepts. A key is
    the hash of the canonical JSON of its inputs; the hash of such a document
    and that of a git object are the interface [GoHash], and the theorems hold
    for any functions, up to two documents with one hash. *)

From Stdlib Require Import ZArith Lia Bool Ascii String List.
From stdpp Require Import base gmap strings list.
From S2P Require Import Prelude GoStrings GoRegexp Semver GoText Reference Inventory Compare Adopt Plan PRTypes.

Open Scope string_scope.
Open Scope Z_scope.
Open Scope nat_scope.
Open Scope list_scope.
Open Scope kl_scope.

(** ** Canonical documents *)

(** A document of numbers, texts, lists and fields in a fixed order, as
    encoding/json writes it. *)
Inductive canonical :=
  | CNull
  | CNum (z : Z)
  | CStr (s : string)
  | CList (l : list canonical)
  | CObj (l : list (string * canonical)).

Class GoHash := {
  (** SHA-256 of the JSON of a document, in hex. *)
  hashCanonical : canonical → string;
  (** The git object ID of a blob. *)
  gitBlobSHA : string → string
}.

Definition sortedCopy (s : list string) : list string := sort_strings s.

(** A nil slice is null. *)
Definition c_strings (l : list string) : canonical :=
  match l with [] => CNull | _ => CList (CStr <$> l) end.

(** ** Kinds of update *)

Definition branchPrefix : string := "kestrelynx/".
Definition composeBranchPrefix : string := "kestrelynx/compose/".
Definition dockerfileBranchPrefix : string := "kestrelynx/dockerfile/".
Definition languageBranchPrefix : string := "kestrelynx/language/".
Definition kubernetesBranchPrefix : string := "kestrelynx/kubernetes/".
Definition kustomizeBranchPrefix : string := "kestrelynx/kustomize/".
Definition helmBranchPrefix : string := "kestrelynx/helm/".

Definition prKindCompose : string := "compose".
Definition prKindDockerfile : string := "dockerfile".
Definition prKindLanguage : string := "language".
Definition prKindKubernetes : string := "kubernetes".
Definition prKindKustomize : string := "kustomize".
Definition prKindHelm : string := "helm_values".

Definition kindHasAffected (kind : string) : bool :=
  String.eqb kind prKindKubernetes || String.eqb kind prKindKustomize || String.eqb kind prKindHelm.

Definition kindOf (recorded : string) : string := if String.eqb recorded "" then prKindCompose else recorded.

Definition recordedKind (kind : string) : string := if String.eqb kind prKindCompose then "" else kind.

Definition branchPrefixOf (kind : string) : string :=
  if String.eqb kind prKindDockerfile then dockerfileBranchPrefix
  else if String.eqb kind prKindLanguage then languageBranchPrefix
  else if String.eqb kind prKindKubernetes then kubernetesBranchPrefix
  else if String.eqb kind prKindKustomize then kustomizeBranchPrefix
  else if String.eqb kind prKindHelm then helmBranchPrefix
  else composeBranchPrefix.

(** ** Names of branches and paths (internal/github/validate.go) *)

Definition maxBranchLen : nat := 255.
Definition maxPathLen : nat := 1024.

Definition first_byte_is (c : ascii) (s : string) : bool :=
  match s with String d _ => Ascii.eqb d c | EmptyString => false end.

(** A rune no branch name may have. *)
Definition branch_rune_refused (r : rune) : bool :=
  (rune_cp r =? 32)%N || is_control_cp (rune_cp r) || existsb (λ c, N.eqb (rune_cp r) (byte_n c)) (list_ascii_of_string "~^:?*[\").

Definition ValidBranch (name : string) : bool :=
  if String.eqb name "" || (maxBranchLen <? slen name) || negb (valid_string name) || String.eqb name "@" then false
  else if first_byte_is "-" name || first_byte_is "/" name || has_suffix name "/" || has_suffix name "." ||
          str_contains name ".." || str_contains name "@{" || str_contains name "//" then false
  else if existsb branch_rune_refused (runes name) then false
  else forallb (λ comp, negb (has_prefix comp ".") && negb (has_suffix comp ".lock")) (split_byte "/" name).

(** [path.Clean] of a relative path. *)
Definition clean_step (out : list string) (comp : string) : list string :=
  if String.eqb comp "" || String.eqb comp "." then out
  else if String.eqb comp ".."
  then match last out with
       | Some c => if String.eqb c ".." then out ++ [comp] else removelast out
       | None => [comp]
       end
  else out ++ [comp].

Definition path_clean (p : string) : string :=
  match foldl clean_step [] (split_byte "/" p) with [] => "." | l => join "/" l end.

Definition ValidPath (p : string) (allowRoot : bool) : bool :=
  if String.eqb p "." then allowRoot
  else if String.eqb p "" || (maxPathLen <? slen p) || negb (valid_string p) || has_prefix p "/" ||
          contains_byte "\" p || negb (String.eqb (path_clean p) p) then false
  else if existsb (λ r, is_control_cp (rune_cp r)) (runes p) then false
  else forallb (λ comp, negb (String.eqb comp "." || String.eqb comp ".." || String.eqb comp "")) (split_byte "/" p).

(** ** Keys *)

(** The reference in the form units are grouped by (pr_units.go). *)
Definition normalizedRef (ref : string) : string :=
  match RepositoryKey ref with
  | None => ref
  | Some key =>
      let s := key +:+ ":" +:+ TagOf ref in
      if not_empty (DigestOf ref) then s +:+ "@" +:+ DigestOf ref else s
  end.

Section keys.
Context `{GoHash}.

Definition TargetKeyOf (kind : string) (repoID : Z) (baseBranch path : string) (locations : list string) : string :=
  hashCanonical (CObj [("repo_id", CNum repoID); ("base_branch", CStr baseBranch); ("kind", CStr kind);
    ("path", CStr path); ("locations", c_strings (sortedCopy locations))]).

Definition TargetKey (repoID : Z) (baseBranch path : string) (locations : list string) : string :=
  TargetKeyOf prKindCompose repoID baseBranch path locations.

Definition UpdateKey (targetKey currentRef candidateTag candidateDigest : string) : string :=
  hashCanonical (CObj [("target_key", CStr targetKey); ("current_ref", CStr (normalizedRef currentRef));
    ("candidate_tag", CStr candidateTag); ("candidate_digest", CStr candidateDigest)]).

Definition KubernetesUpdateKey (targetKey currentRef candidateTag candidateDigest : string) (affected : list string)
    : string :=
  hashCanonical (CObj [("target_key", CStr targetKey); ("current_ref", CStr (normalizedRef currentRef));
    ("candidate_tag", CStr candidateTag); ("candidate_digest", CStr candidateDigest);
    ("affected", c_strings (sortedCopy affected))]).

(** The changes of an attempt, by path and blob. *)
Definition change_cmp (a b : string * string) : comparison :=
  str_cmp (fst a) (fst b) <?> str_cmp (snd a) (snd b).

Definition c_change (c : string * string) : canonical := CObj [("path", CStr (fst c)); ("blob_sha", CStr (snd c))].

Definition AttemptKey (updateKey baseSHA inputBlobSHA : string) (changes : list FileChange) : string :=
  let cs := sort_by (less_of change_cmp) ((λ c, (fc_Path c, fc_BlobSHA c)) <$> changes) in
  hashCanonical (CObj [("update_key", CStr updateKey); ("base_sha", CStr baseSHA); ("input_blob_sha", CStr inputBlobSHA);
    ("changes", CList (c_change <$> cs))]).

(** *** Language updates (pr_language_keys.go) *)

Definition nul_join (l : list string) : string := join (String "000" "") l.

Definition sort_entry (e : LangKeyEntry) : LangKeyEntry :=
  mk_lang_entry (le_Ecosystem e) (le_Name e) (sortedCopy (le_Positions e)) (le_Adopted e) (sortedCopy (le_Through e)).

Definition entry_cmp (a b : LangKeyEntry) : comparison :=
  str_cmp (le_Ecosystem a) (le_Ecosystem b) <?> str_cmp (le_Name a) (le_Name b) <?>
  str_cmp (nul_join (le_Positions a)) (nul_join (le_Positions b)) <?> str_cmp (le_Adopted a) (le_Adopted b).

Definition sortedLangEntries (entries : list LangKeyEntry) : list LangKeyEntry :=
  sort_by (less_of entry_cmp) (sort_entry <$> entries).

Definition edit_cmp (a b : LangEdit) : comparison :=
  str_cmp (led_File a) (led_File b) <?> str_cmp (led_Section a) (led_Section b) <?>
  str_cmp (led_Name a) (led_Name b) <?> str_cmp (led_From a) (led_From b) <?> str_cmp (led_To a) (led_To b).

Definition sortedLangEdits (edits : list LangEdit) : list LangEdit := sort_by (less_of edit_cmp) edits.

Definition move_cmp (a b : LangChainMove) : comparison :=
  str_cmp (cm_Name a) (cm_Name b) <?> str_cmp (cm_From a) (cm_From b) <?> str_cmp (cm_To a) (cm_To b).

Definition sortedLangChain (moves : list LangChainMove) : list LangChainMove := sort_by (less_of move_cmp) moves.

Definition c_entry (e : LangKeyEntry) : canonical :=
  CObj ([("ecosystem", CStr (le_Ecosystem e)); ("name", CStr (le_Name e)); ("positions", CList (CStr <$> le_Positions e));
         ("adopted", CStr (le_Adopted e))] ++
        match le_Through e with [] => [] | l => [("through", CList (CStr <$> l))] end).

Definition c_edit (e : LangEdit) : canonical :=
  CObj [("file", CStr (led_File e)); ("section", CStr (led_Section e)); ("name", CStr (led_Name e));
    ("from", CStr (led_From e)); ("to", CStr (led_To e))].

Definition c_move (m : LangChainMove) : canonical :=
  CObj [("name", CStr (cm_Name m)); ("from", CStr (cm_From m)); ("to", CStr (cm_To m))].

Definition LangUpdateKey (targetKey : string) (packages : list LangKeyEntry) (edits : list LangEdit)
    (chain : list LangChainMove) : string :=
  hashCanonical (CObj ([("target_key", CStr targetKey); ("kind", CStr prKindLanguage);
     ("packages", CList (c_entry <$> sortedLangEntries packages)); ("manifest_edits", CList (c_edit <$> sortedLangEdits edits))] ++
    match sortedLangChain chain with [] => [] | l => [("chain", CList (c_move <$> l))] end)).

(** *** The identity of a fixed target (pr_types.go) *)

Definition layerSetDigest (layers : list string) : string := hashCanonical (c_strings (sortedCopy layers)).

Definition layerSetKey (f : FixTarget) : string :=
  match ft_Layers f with [] => ft_LayersDigest f | l => layerSetDigest l end.

Definition nul : string := String "000" "".

Definition coord_text (p : PackageCoord) : string := pc_Ecosystem p +:+ nul +:+ pc_Class p +:+ nul +:+ pc_Name p.

Definition FixTarget_key (f : FixTarget) : string :=
  let k := ft_Location f +:+ nul +:+ ft_VulnID f +:+ nul +:+ coord_text (ft_Package f) in
  if not_empty (layerSetKey f) then k +:+ nul +:+ layerSetKey f else k.

(** ** Branches *)

Fixpoint branch_safe_runes (l : list rune) (dash written : bool) : string :=
  match l with
  | [] => ""
  | r :: l' =>
      let c := rune_cp r in
      if (((97 <=? c) && (c <=? 122)) || ((48 <=? c) && (c <=? 57)))%N
      then String (ascii_of_N c) (branch_safe_runes l' false true)
      else if negb dash && written then String "-" (branch_safe_runes l' true written)
      else branch_safe_runes l' dash written
  end.

(** [strings.TrimRight(s, "<c>")] *)
Fixpoint trim_right_byte (c : ascii) (s : string) : string :=
  match s with
  | EmptyString => EmptyString
  | String d s' =>
      match trim_right_byte c s' with
      | EmptyString => if Ascii.eqb d c then EmptyString else String d EmptyString
      | t => String d t
      end
  end.

Definition branchSafe `{GoUnicode} (s : string) : string :=
  trim_right_byte "-" (branch_safe_runes (runes (to_lower s)) false false).

(** One [strings.ReplaceAll(tag, "..", ".")]. *)
Fixpoint replace_dots (s : string) : string :=
  match s with
  | String "." (String "." s') => String "." (replace_dots s')
  | String c s' => String c (replace_dots s')
  | EmptyString => EmptyString
  end.

Fixpoint squeeze_dots (fuel : nat) (s : string) : string :=
  match fuel with
  | 0 => s
  | S f => if str_contains s ".." then squeeze_dots f (replace_dots s) else s
  end.

Definition display_name `{GoUnicode} (services : list string) : string :=
  let display :=
    match sortedCopy services with
    | [] => "service"
    | [s] => s
    | s :: l => s +:+ "-and-" +:+ signed_itoa (Z.of_nat (length l))
    end in
  let display := branchSafe display in
  if String.eqb display "" then "service" else display.

(** The error is its text. *)
Definition branchNameFor `{GoUnicode, GoQuote} (prefix : string) (services : list string) (tag attemptKey : string)
    : string + string :=
  if slen attemptKey <? 12 then inr ("remediation: attempt key " +:+ go_quote attemptKey +:+ " is too short")
  else
    let display := display_name services in
    let tag := squeeze_dots (slen tag) tag in
    let suffix := "-" +:+ tag +:+ "-" +:+ stake 12 attemptKey in
    let room := (255 - Z.of_nat (slen prefix) - Z.of_nat (slen suffix))%Z in
    if (room <? 1)%Z then inr ("remediation: tag " +:+ go_quote tag +:+ " leaves no room for a branch name")
    else
      let display :=
        if (room <? Z.of_nat (slen display))%Z
        then let d := trim_right_byte "-" (stake (Z.to_nat room) display) in if String.eqb d "" then "s" else d
        else display in
      let name := prefix +:+ display +:+ suffix in
      if ValidBranch name then inl name
      else inr ("remediation: " +:+ go_quote name +:+ " is not a valid branch name").

Definition BranchName `{GoUnicode, GoQuote} (services : list string) (tag attemptKey : string) : string + string :=
  branchNameFor composeBranchPrefix services tag attemptKey.

(** A rune of a text that is converted: a malformed byte becomes U+FFFD. *)
Definition title_rune (r : rune) : string :=
  if is_control_cp (rune_cp r) then " "
  else if rune_valid r then rune_bytes r else String "239" (String "191" (String "189" "")).

Definition composeUnitTitle (imageRepo tag path : string) : string :=
  let t := "Update " +:+ imageRepo +:+ " to " +:+ tag +:+ " in " +:+ path in
  let rs := title_rune <$> runes t in
  if 250 <? length rs then String.concat "" (take 250 rs) +:+ "..." else String.concat "" rs.
End keys.

(** ** Orders *)

#[export] Instance change_cmp_order : CmpOrder change_cmp := cmp_then_order (cmp_on fst str_cmp) (cmp_on snd str_cmp) _ _.
#[export] Instance change_cmp_eq : CmpEq change_cmp.
Proof. intros [a b] [c d]. unfold change_cmp. rewrite lexc_eq. cbn. by intros [->%cmp_eq_eq ->%cmp_eq_eq]. Qed.
#[export] Instance edit_cmp_order : CmpOrder edit_cmp :=
  cmp_then_order (cmp_on led_File str_cmp) (cmp_then (cmp_on led_Section str_cmp) (cmp_then (cmp_on led_Name str_cmp)
    (cmp_then (cmp_on led_From str_cmp) (cmp_on led_To str_cmp)))) _ _.
#[export] Instance edit_cmp_eq : CmpEq edit_cmp.
Proof.
  intros [? ? ? ? ?] [? ? ? ? ?]. unfold edit_cmp. rewrite !lexc_eq. cbn.
  by intros (->%cmp_eq_eq & ->%cmp_eq_eq & ->%cmp_eq_eq & ->%cmp_eq_eq & ->%cmp_eq_eq).
Qed.
#[export] Instance move_cmp_order : CmpOrder move_cmp :=
  cmp_then_order (cmp_on cm_Name str_cmp) (cmp_then (cmp_on cm_From str_cmp) (cmp_on cm_To str_cmp)) _ _.
#[export] Instance move_cmp_eq : CmpEq move_cmp.
Proof.
  intros [? ? ?] [? ? ?]. unfold move_cmp. rewrite !lexc_eq. cbn. by intros (->%cmp_eq_eq & ->%cmp_eq_eq & ->%cmp_eq_eq).
Qed.

(** Sorting by an order whose ties are equal identifies the lists up to
    order. *)
Lemma sort_by_iff {A} (cmp : A → A → comparison) `{!CmpOrder cmp, !CmpEq cmp} l k :
  sort_by (less_of cmp) l = sort_by (less_of cmp) k ↔ l ≡ₚ k.
Proof.
  split; [intros E|].
  - by rewrite <- (sort_by_perm (less_of cmp) l), E, sort_by_perm.
  - apply (sort_by_unique _). intros x y _ _. apply (less_of_tie cmp).
Qed.

Lemma sortedCopy_iff l k : sortedCopy l = sortedCopy k ↔ l ≡ₚ k.
Proof. apply (sort_by_iff str_cmp). Qed.

#[export] Instance CStr_inj : Inj (=) (=) CStr.
Proof. by intros ?? [=]. Qed.
#[export] Instance c_strings_inj : Inj (=) (=) c_strings.
Proof. intros [|a l] [|b k]; cbn; try done. by intros [= -> ->%(inj (fmap CStr))]. Qed.
#[export] Instance c_change_inj : Inj (=) (=) c_change.
Proof. intros [a b] [c d]. by intros [= -> ->]. Qed.

(** ** Keys name their inputs *)

Section keys_spec.
Context `{GoHash}.

(** Two documents with one hash. *)
Definition collision : Prop := ∃ x y, x ≠ y ∧ hashCanonical x = hashCanonical y.

#[export] Instance canonical_eq_dec_prop (x y : canonical) : base.Decision (x = y).
Proof.
  revert x y. fix IH 1. intros [|z|s|l|l] [|z'|s'|l'|l']; try (right; by intros [=]).
  - by left.
  - destruct (decide (z = z')) as [->|]; [by left|right; congruence].
  - destruct (decide (s = s')) as [->|]; [by left|right; congruence].
  - cut ({l = l'} + {l ≠ l'}); [intros [->|]; [by left|right; congruence]|].
    revert l'. induction l as [|x l IHl]; intros [|y l']; [by left|by right..|].
    destruct (IH x y) as [->|]; [|right; congruence]. destruct (IHl l') as [->|]; [by left|right; congruence].
  - cut ({l = l'} + {l ≠ l'}); [intros [->|]; [by left|right; congruence]|].
    revert l'. induction l as [|[k x] l IHl]; intros [|[k' y] l']; [by left|by right..|].
    destruct (decide (k = k')) as [->|]; [|right; congruence].
    destruct (IH x y) as [->|]; [|right; congruence]. destruct (IHl l') as [->|]; [by left|right; congruence].
Defined.

Lemma hash_eq x y : hashCanonical x = hashCanonical y → x = y ∨ collision.
Proof. intros E. destruct (decide (x = y)); [by left|right; by exists x, y]. Qed.

Lemma TargetKeyOf_spec kind id base path locs kind' id' base' path' locs' :
  (kind = kind' ∧ id = id' ∧ base = base' ∧ path = path' ∧ locs ≡ₚ locs' →
   TargetKeyOf kind id base path locs = TargetKeyOf kind' id' base' path' locs') ∧
  (TargetKeyOf kind id base path locs = TargetKeyOf kind' id' base' path' locs' →
   (kind = kind' ∧ id = id' ∧ base = base' ∧ path = path' ∧ locs ≡ₚ locs') ∨ collision).
Proof.
  unfold TargetKeyOf. split.
  - intros (-> & -> & -> & -> & E%sortedCopy_iff). by rewrite E.
  - intros [E|E]%hash_eq; [left|by right]. injection E as -> -> -> -> E%(inj c_strings)%sortedCopy_iff. done.
Qed.

Lemma UpdateKey_spec tk ref tag dig tk' ref' tag' dig' :
  (tk = tk' ∧ normalizedRef ref = normalizedRef ref' ∧ tag = tag' ∧ dig = dig' →
   UpdateKey tk ref tag dig = UpdateKey tk' ref' tag' dig') ∧
  (UpdateKey tk ref tag dig = UpdateKey tk' ref' tag' dig' →
   (tk = tk' ∧ normalizedRef ref = normalizedRef ref' ∧ tag = tag' ∧ dig = dig') ∨ collision).
Proof.
  unfold UpdateKey. split; [by intros (-> & -> & -> & ->)|].
  intros [E|E]%hash_eq; [left|by right]. by injection E as -> -> -> ->.
Qed.

Lemma KubernetesUpdateKey_spec tk ref tag dig aff tk' ref' tag' dig' aff' :
  (tk = tk' ∧ normalizedRef ref = normalizedRef ref' ∧ tag = tag' ∧ dig = dig' ∧ aff ≡ₚ aff' →
   KubernetesUpdateKey tk ref tag dig aff = KubernetesUpdateKey tk' ref' tag' dig' aff') ∧
  (KubernetesUpdateKey tk ref tag dig aff = KubernetesUpdateKey tk' ref' tag' dig' aff' →
   (tk = tk' ∧ normalizedRef ref = normalizedRef ref' ∧ tag = tag' ∧ dig = dig' ∧ aff ≡ₚ aff') ∨ collision).
Proof.
  unfold KubernetesUpdateKey. split.
  - intros (-> & -> & -> & -> & E%sortedCopy_iff). by rewrite E.
  - intros [E|E]%hash_eq; [left|by right]. by injection E as -> -> -> -> E%(inj c_strings)%sortedCopy_iff.
Qed.

Definition path_blob (c : FileChange) : string * string := (fc_Path c, fc_BlobSHA c).

Lemma AttemptKey_spec uk base input cs uk' base' input' cs' :
  (uk = uk' ∧ base = base' ∧ input = input' ∧ path_blob <$> cs ≡ₚ path_blob <$> cs' →
   AttemptKey uk base input cs = AttemptKey uk' base' input' cs') ∧
  (AttemptKey uk base input cs = AttemptKey uk' base' input' cs' →
   (uk = uk' ∧ base = base' ∧ input = input' ∧ path_blob <$> cs ≡ₚ path_blob <$> cs') ∨ collision).
Proof.
  unfold AttemptKey. fold path_blob. split.
  - intros (-> & -> & -> & E%(sort_by_iff change_cmp)). cbv zeta. by rewrite E.
  - cbv zeta. intros [E|E]%hash_eq; [left|by right].
    injection E as -> -> -> E%(inj (fmap c_change))%(sort_by_iff change_cmp). done.
Qed.

(** C15: The key of an attempt identifies it. Two attempts to open a pull
    request have one key exactly when they change the same places of one file
    of one repository and branch, from the same reference (a missing tag is
    [latest]) to the same tag at the same digest, on the same base commit and
    file, with the same contents; the order of the places and of the changes
    does not matter. The only exception is two documents with one hash. *)
Theorem attempt_key_identity id base path locs ref tag dig sha input cs id' base' path' locs' ref' tag' dig' sha' input' cs' :
  let key := AttemptKey (UpdateKey (TargetKey id base path locs) ref tag dig) sha input cs in
  let key' := AttemptKey (UpdateKey (TargetKey id' base' path' locs') ref' tag' dig') sha' input' cs' in
  let same := id = id' ∧ base = base' ∧ path = path' ∧ locs ≡ₚ locs' ∧ normalizedRef ref = normalizedRef ref' ∧ tag = tag' ∧
              dig = dig' ∧ sha = sha' ∧ input = input' ∧ path_blob <$> cs ≡ₚ path_blob <$> cs' in
  (same → key = key') ∧ (key = key' → same ∨ collision).
Proof.
  cbv zeta. unfold TargetKey. split.
  - intros (-> & -> & -> & El & Er & -> & -> & -> & -> & Ec). apply AttemptKey_spec. split; [|done].
    apply UpdateKey_spec. split; [|done]. by apply TargetKeyOf_spec.
  - intros [(E & -> & -> & Ec)|?]%AttemptKey_spec; [|by right].
    apply UpdateKey_spec in E as [(E & Er & -> & ->)|?]; [|by right].
    apply TargetKeyOf_spec in E as [(_ & -> & -> & -> & El)|?]; [|by right]. left. by split_and!.
Qed.
End keys_spec.

(** ** Branch names *)

Lemma has_suffix_app s t : has_suffix (s +:+ t) t = true.
Proof.
  unfold has_suffix. rewrite slen_app. replace (slen s + slen t - slen t) with (slen s) by lia.
  rewrite sdrop_app, String.eqb_refl, andb_true_r. apply Nat.leb_le. lia.
Qed.

Lemma has_suffix_mid a b c d u : has_suffix (a +:+ b +:+ c +:+ d +:+ u) u = true.
Proof. rewrite <- !app_assoc_s. apply has_suffix_app. Qed.

Lemma ValidBranch_length name : ValidBranch name = true → slen name ≤ maxBranchLen.
Proof.
  unfold ValidBranch. destruct (Nat.ltb_spec maxBranchLen (slen name)); [|lia]. by rewrite orb_true_r.
Qed.

(** A branch name is valid, under the prefix of its kind, and ends in the
    first twelve digits of the key of its attempt. *)
Lemma branchNameFor_spec `{GoUnicode, GoQuote} prefix services tag key name :
  branchNameFor prefix services tag key = inl name →
  ValidBranch name = true ∧ slen name ≤ maxBranchLen ∧
  has_prefix name prefix = true ∧ has_suffix name ("-" +:+ stake 12 key) = true ∧ 12 ≤ slen key.
Proof.
  unfold branchNameFor. destruct (Nat.ltb_spec (slen key) 12); [done|]. cbv zeta.
  destruct (_ <? 1)%Z; [done|]. destruct (ValidBranch _) eqn:Hv; [|done]. intros [= <-].
  split_and!; [done|by apply ValidBranch_length|apply has_prefix_app| |done].
  apply (has_suffix_mid prefix _ "-" _ ("-" +:+ stake 12 key)).
Qed.

(** Squeezing leaves no two dots in a row. *)
Lemma replace_dots_cons c s :
  (∃ s', c = "."%char ∧ s = String "." s' ∧ replace_dots (String c s) = String "." (replace_dots s')) ∨
  ((∀ s', c = "."%char → s ≠ String "." s') ∧ replace_dots (String c s) = String c (replace_dots s)).
Proof.
  destruct (decide (c = "."%char)) as [->|Hne].
  - destruct s as [|d s]; [by right|]. destruct (decide (d = "."%char)) as [->|Hd]; [left; by exists s|right].
    split; [congruence|]. destruct d as [[] [] [] [] [] [] [] []]; done.
  - right. split; [done|]. destruct c as [[] [] [] [] [] [] [] []]; done.
Qed.

Definition two_dots (c : ascii) (s : string) : bool :=
  match s with String d _ => Ascii.eqb c "." && Ascii.eqb d "." | EmptyString => false end.

Lemma contains_dots_cons c s : str_contains (String c s) ".." = two_dots c s || str_contains s "..".
Proof.
  cbn [str_contains has_prefix]. f_equal. destruct s as [|d s]; cbn; [by destruct (Ascii.eqb c _)|]. replace (has_prefix s "") with true by (by destruct s). by rewrite andb_true_r.
Qed.

Lemma replace_dots_le n s : slen s ≤ n →
  slen (replace_dots s) ≤ slen s ∧ (str_contains s ".." = true → slen (replace_dots s) < slen s).
Proof.
  revert s. induction n as [n IH] using lt_wf_ind. intros [|c s] Hl; [done|]. rewrite slen_cons in Hl.
  destruct (replace_dots_cons c s) as [(s' & -> & -> & ->)|[Hn ->]]; rewrite !slen_cons in *.
  - destruct (IH (slen s') ltac:(lia) s' ltac:(lia)). lia.
  - destruct (IH (slen s) ltac:(lia) s ltac:(lia)) as [I1 I2]. split; [lia|]. rewrite contains_dots_cons.
    intros [Ht|Ht]%orb_true_iff; [|specialize (I2 Ht); lia]. exfalso. destruct s as [|d s]; [done|].
    apply andb_true_iff in Ht as [->%Ascii.eqb_eq ->%Ascii.eqb_eq]. by eapply Hn.
Qed.

Lemma squeeze_dots_spec n s : slen s ≤ n → str_contains (squeeze_dots n s) ".." = false.
Proof.
  revert s. induction n as [|n IH]; intros s Hl; cbn [squeeze_dots].
  - by rewrite (slen_0 s) by lia.
  - destruct (str_contains s "..") eqn:E; [|done]. apply IH. destruct (replace_dots_le (slen s) s) as [_ Hlt]; [lia|].
    specialize (Hlt E). lia.
Qed.
