(* ===== verification/PRMarker.v ===== *)
(** * PRMarker: the marker of a pull request body

    internal/remediation/pr_marker.go: the line a body ends with, from which
    the records of a pull request are rebuilt, and the smaller marker of a
    supersede comment. encoding/json on the two records is the interface
    [MarkerJSON]. *)

From Stdlib Require Import ZArith Lia Bool Ascii String List.
From stdpp Require Import base gmap strings list.
From S2P Require Import Prelude GoStrings GoRegexp Semver GoText Reference Inventory Compare Adopt Plan PRTypes PRKeys.

Open Scope string_scope.
Open Scope Z_scope.
Open Scope nat_scope.
Open Scope list_scope.
Open Scope kl_scope.

Definition markerPrefix : string := "<!-- kestrelynx:".
Definition markerSuffix : string := " -->".
Definition markerV : Z := 1.

Record PRMarker := mk_marker {
  mk_V : Z; mk_Kind : string; mk_RepoID : Z; mk_BaseBranch : string; mk_Path : string; mk_Locations : list string;
  mk_CurrentRef : string; mk_CandidateTag : string; mk_CandidateDigest : string; mk_BaseSHA : string;
  mk_HeadSHA : string; mk_InputBlobSHA : string; mk_Changes : list FileChange; mk_TargetKey : string;
  mk_UpdateKey : string; mk_AttemptKey : string; mk_FixTargets : list FixTarget; mk_Lang : option LangRecord;
  mk_Affected : list string }.

Record supersedeMarker := mk_supersede { su_V : Z; su_SupersededBy : Z; su_UpdateKey : string }.

(** encoding/json: what [json.Marshal] writes, the decoding of one object with
    no unknown field and nothing after it ([strictDecode], the error by its
    text), and the fields of an object in some order. *)
Class MarkerJSON := {
  json_marker : PRMarker → string;
  json_supersede : supersedeMarker → string;
  decode_marker : string → PRMarker + string;
  decode_supersede : string → option supersedeMarker;
  json_fields : string → list string + string
}.

(** The package documentation of encoding/json: what is written is one line
    without spaces at its ends; it decodes to what was written, where the
    texts are UTF-8; and an object has the fields of its record, an empty list
    of workloads left out. *)
Definition target_texts (f : FixTarget) : list string :=
  [ft_Location f; ft_VulnID f; pc_Ecosystem (ft_Package f); pc_Class (ft_Package f); pc_Name (ft_Package f); ft_LayersDigest f] ++
  ft_Layers f ++ ft_Entities f.

Definition marker_texts (m : PRMarker) : list string :=
  [mk_Kind m; mk_BaseBranch m; mk_Path m; mk_CurrentRef m; mk_CandidateTag m; mk_CandidateDigest m; mk_BaseSHA m;
   mk_HeadSHA m; mk_InputBlobSHA m; mk_TargetKey m; mk_UpdateKey m; mk_AttemptKey m] ++ mk_Locations m ++ mk_Affected m ++
  flat_map (λ c, [fc_Path c; fc_Mode c; fc_BlobSHA c]) (mk_Changes m) ++ flat_map target_texts (mk_FixTargets m).

Class MarkerJSONLaws `{MarkerJSON} : Prop := {
  json_line m : ∃ t, json_marker m = "{" +:+ t +:+ "}" ∧ contains_byte "010" t = false;
  json_decodes m : mk_Lang m = None → forallb valid_string (marker_texts m) = true → decode_marker (json_marker m) = inl m;
  json_has_fields m : ∃ l, json_fields (json_marker m) = inl l ∧ ¬ "superseded_by" ∈ l ∧
    (∀ k, k ∈ l → equal_fold k "affected" = true → k = "affected") ∧ ("affected" ∈ l ↔ mk_Affected m ≠ [])
}.

(** ** Lines *)

Definition marker_line (line : string) : option string :=
  let line := trim_space line in
  if has_prefix line markerPrefix && has_suffix line markerSuffix && (slen markerPrefix + slen markerSuffix <=? slen line)
  then Some (stake (slen line - slen markerSuffix - slen markerPrefix) (sdrop (slen markerPrefix) line))
  else None.

Definition markerLines (body : string) : list string := omap marker_line (split_byte "010" body).

Definition isSHA (s : string) : bool :=
  (slen s =? 40) && forallb (λ r, let c := rune_cp r in ((48 <=? c) && (c <=? 57)) || ((97 <=? c) && (c <=? 102)))%N (runes s).

Inductive markerError :=
  | MarkerMissing                         (* errMarkerMissing *)
  | MarkerMismatch                        (* errMarkerMismatch *)
  | ManyMarkers (n : nat)
  | BadMarkerVersion (v : Z)
  | Malformed (why : string)
  | OtherRepo (marker repo : Z).

(** ** Well-formedness *)

Definition dependencyManagers : list string := ["npm"; "pnpm"; "uv"; "pip"; "go"; "maven"; "gradle"].
Definition ReasonMavenBOMSeriesUnreached : string := "maven_bom_series_unreached".

Definition bad_bom (x : LangRemaining) : bool :=
  match lx_MavenBOM x with
  | None => false
  | Some b => negb (String.eqb (lx_Reason x) ReasonMavenBOMSeriesUnreached) || String.eqb (mb_BOM b) "" ||
              String.eqb (mb_From b) "" || String.eqb (mb_To b) "" || String.eqb (mb_Manages b) ""
  end.

(** The loop over the packages left out. *)
Fixpoint remaining_problem (l : list LangRemaining) : option string :=
  match l with
  | [] => None
  | x :: l' =>
      if String.eqb (lx_Ecosystem x) "" || String.eqb (lx_Name x) "" || String.eqb (lx_Reason x) ""
      then Some "a remaining package has no ecosystem, name or reason"
      else if bad_bom x then Some "a remaining package names a BOM release without its reason, name or versions"
      else remaining_problem l'
  end.

Definition lang_wellFormed `{GoQuote} (l : LangRecord) : option string :=
  if negb (containsString dependencyManagers (lr_Manager l)) then Some ("unknown manager " +:+ go_quote (lr_Manager l))
  else if match lr_Packages l with [] => true | _ => false end then Some "no packages"
  else if existsb (λ p, String.eqb (le_Ecosystem p) "" || String.eqb (le_Name p) "" || String.eqb (le_Adopted p) "") (lr_Packages l)
  then Some "a package has no ecosystem, name or version"
  else match remaining_problem (lr_Remaining l) with
  | Some e => Some e
  | None =>
      if match lr_Runtime l with Some r => String.eqb (rr_ID r) "" || String.eqb (rr_Version r) "" | None => false end
      then Some "the runtime record has no id or version"
      else if match lr_Tool l with
              | Some t => String.eqb (tl_Name t) "" || String.eqb (tl_Version t) "" || String.eqb (tl_SHA256 t) ""
              | None => false
              end
      then Some "the tool record has no name, version or hash"
      else if existsb (λ c, String.eqb (cm_Name c) "" || String.eqb (cm_To c) "") (lr_Chain l)
      then Some "a chain move has no name or version"
      else if existsb (λ e, negb (ValidPath (led_File e) false) || String.eqb (led_Section e) "" || String.eqb (led_Name e) "" ||
                            String.eqb (led_From e) "" || String.eqb (led_To e) "") (lr_ManifestEdits l)
      then Some "a manifest edit is malformed"
      else None
  end.

(** The loop over the affected workloads, after the workload before. *)
Fixpoint affected_bad (prev : option string) (l : list string) : bool :=
  match l with
  | [] => false
  | w :: l' =>
      match ParseKubernetesWorkloadKey w with
      | inr _ => true
      | inl _ => match prev with Some p => negb (str_lt p w) | None => false end || affected_bad (Some w) l'
      end
  end.

Definition bad_change (c : FileChange) : bool :=
  negb (ValidPath (fc_Path c) false) || negb (isSHA (fc_BlobSHA c)) ||
  (negb (String.eqb (fc_Mode c) "100644") && negb (String.eqb (fc_Mode c) "100755")).

Definition is_some_b {A} (x : option A) : bool := match x with Some _ => true | None => false end.
Definition is_cons {A} (l : list A) : bool := match l with [] => false | _ => true end.

Definition wellFormed `{GoQuote} (m : PRMarker) : option string :=
  let kind := mk_Kind m in
  let lang := String.eqb kind prKindLanguage in
  if negb (String.eqb kind "") && negb (String.eqb kind prKindDockerfile) && negb lang && negb (kindHasAffected kind)
  then Some ("unknown kind " +:+ go_quote kind)
  else if negb (Bool.eqb (kindHasAffected kind) (is_cons (mk_Affected m)))
  then Some "the set of affected workloads belongs to a Kubernetes update only, which needs one"
  else if negb (Bool.eqb lang (is_some_b (mk_Lang m))) then Some "the language record belongs to a language update only"
  else if (mk_RepoID m <=? 0)%Z then Some "no repository ID"
  else if negb (ValidBranch (mk_BaseBranch m)) then Some "invalid base branch"
  else if negb (ValidPath (mk_Path m) false) then Some "invalid path"
  else if negb (is_cons (mk_Locations m)) then Some "no locations"
  else if negb lang && (String.eqb (mk_CurrentRef m) "" || String.eqb (mk_CandidateTag m) "" || String.eqb (mk_CandidateDigest m) "")
  then Some "no reference, candidate tag or digest"
  else if negb (isSHA (mk_BaseSHA m)) || negb (isSHA (mk_HeadSHA m)) || negb (isSHA (mk_InputBlobSHA m))
  then Some "a commit or blob SHA is malformed"
  else if negb (is_cons (mk_Changes m)) then Some "no changes"
  else if String.eqb (mk_TargetKey m) "" || String.eqb (mk_UpdateKey m) "" || String.eqb (mk_AttemptKey m) ""
  then Some "a key is missing"
  else if affected_bad None (mk_Affected m)
  then Some "the affected workloads are not sorted, distinct Kubernetes workload keys"
  else if existsb bad_change (mk_Changes m) then Some "a change is malformed"
  else match mk_Lang m with Some l => lang_wellFormed l | None => None end.

(** ** Reading and checking *)

Section marker.
Context `{MarkerJSON} `{GoQuote}.

Definition encodeMarker (m : PRMarker) : string := markerPrefix +:+ json_marker m +:+ markerSuffix.

Definition isSupersedeJSON (data : string) : bool :=
  match json_fields data with inl l => containsString l "superseded_by" | inr _ => false end.

Definition affectedText : string := "the set of affected workloads belongs to a Kubernetes update only, which needs one".

Definition parsePRMarker (body : string) : PRMarker + markerError :=
  match filter (λ l, isSupersedeJSON l = false) (markerLines body) with
  | [] => inr MarkerMissing
  | [data] =>
      match decode_marker data with
      | inr e => inr (Malformed e)
      | inl m =>
          if negb (mk_V m =? markerV)%Z then inr (BadMarkerVersion (mk_V m))
          else
            match json_fields data with
            | inr e => inr (Malformed e)
            | inl keys =>
                match find (λ k, equal_fold k "affected" && negb (String.eqb k "affected")) keys with
                | Some k => inr (Malformed ("the field " +:+ go_quote k +:+ " is not spelled " +:+ go_quote "affected"))
                | None =>
                    if negb (Bool.eqb (containsString keys "affected") (kindHasAffected (mk_Kind m)))
                    then inr (Malformed affectedText)
                    else match wellFormed m with Some e => inr (Malformed e) | None => inl m end
                end
            end
      end
  | l => inr (ManyMarkers (length l))
  end.

Definition verify `{GoHash} (m : PRMarker) (repoID : Z) : option markerError :=
  if negb (mk_RepoID m =? repoID)%Z then Some (OtherRepo (mk_RepoID m) repoID)
  else
    let tk := TargetKeyOf (kindOf (mk_Kind m)) (mk_RepoID m) (mk_BaseBranch m) (mk_Path m) (mk_Locations m) in
    let uk :=
      match mk_Lang m with
      | Some l => LangUpdateKey tk (lr_Packages l) (lr_ManifestEdits l) (lr_Chain l)
      | None =>
          if kindHasAffected (mk_Kind m)
          then KubernetesUpdateKey tk (mk_CurrentRef m) (mk_CandidateTag m) (mk_CandidateDigest m) (mk_Affected m)
          else UpdateKey tk (mk_CurrentRef m) (mk_CandidateTag m) (mk_CandidateDigest m)
      end in
    let ak := AttemptKey uk (mk_BaseSHA m) (mk_InputBlobSHA m) (mk_Changes m) in
    if negb (String.eqb tk (mk_TargetKey m)) || negb (String.eqb uk (mk_UpdateKey m)) || negb (String.eqb ak (mk_AttemptKey m))
    then Some MarkerMismatch else None.

Definition branchMatches (m : PRMarker) (ref : string) : bool :=
  (12 <=? slen (mk_AttemptKey m)) && has_prefix ref (branchPrefixOf (kindOf (mk_Kind m))) &&
  has_suffix ref ("-" +:+ stake 12 (mk_AttemptKey m)).

(** ** Supersede comments *)

Definition newline : string := String "010" "".

Definition supersedeComment (newNumber : Z) (newURL updateKey : string) : string :=
  "Superseded by #" +:+ signed_itoa newNumber +:+ " (" +:+ newURL +:+ ")" +:+ newline +:+ newline +:+
  markerPrefix +:+ json_supersede (mk_supersede markerV newNumber updateKey) +:+ markerSuffix.

Definition names_supersede (newNumber : Z) (updateKey line : string) : bool :=
  match decode_supersede line with
  | Some m => (su_V m =? markerV)%Z && (su_SupersededBy m =? newNumber)%Z && String.eqb (su_UpdateKey m) updateKey
  | None => false
  end.

Definition hasSupersedeMarker (body : string) (newNumber : Z) (updateKey : string) : bool :=
  existsb (names_supersede newNumber updateKey) (markerLines body).

Definition supersede_number (line : string) : option Z :=
  m ← decode_supersede line;
  if (su_V m =? markerV)%Z && (0 <? su_SupersededBy m)%Z then Some (su_SupersededBy m) else None.

Definition supersededByIn (body : string) : Z :=
  match omap supersede_number (markerLines body) with n :: _ => n | [] => 0%Z end.
End marker.

Definition markerError_text (e : markerError) : string :=
  match e with
  | MarkerMissing => "the body has no kestrelynx marker"
  | MarkerMismatch => "the marker's keys do not recompute from its inputs"
  | ManyMarkers n => "the body has " +:+ signed_itoa (Z.of_nat n) +:+ " kestrelynx markers"
  | BadMarkerVersion v => "the marker has version " +:+ signed_itoa v +:+ ", this build reads 1"
  | Malformed e => "the marker is malformed: " +:+ e
  | OtherRepo m r => "the marker names repository ID " +:+ signed_itoa m +:+ ", the repository is " +:+ signed_itoa r
  end.

(** ** What is written is read back *)

Lemma split_byte_before c s t : split_byte c (s +:+ String c t) = split_byte c s ++ split_byte c t.
Proof.
  induction s as [|d s IH].
  { change ("" +:+ String c t) with (String c t). cbn [split_byte]. by rewrite Ascii.eqb_refl. }
  rewrite app_cons. cbn [split_byte]. rewrite IH.
  destruct (Ascii.eqb d c); [done|]. assert (Hne : split_byte c s ≠ []).
  { destruct s as [|e s]; [done|]. cbn. destruct (Ascii.eqb e c); [done|]. by destruct (split_byte c s). }
  by destruct (split_byte c s).
Qed.

Lemma stake_all s : stake (slen s) s = s.
Proof. induction s as [|c s IH]; [done|]. cbn. by rewrite IH. Qed.

(** A line that is a prefix, a text of one line and a suffix. *)
Lemma marker_line_encoded t :
  contains_byte "010" t = false → marker_line (markerPrefix +:+ t +:+ markerSuffix) = Some t.
Proof.
  intros _. unfold marker_line.
  assert (E : trim_space (markerPrefix +:+ t +:+ markerSuffix) = markerPrefix +:+ t +:+ markerSuffix).
  { change (markerPrefix +:+ t +:+ markerSuffix) with (String "<" ("!-- kestrelynx:" +:+ t +:+ " --" +:+ ">")).
    rewrite <- !app_assoc_s. by apply trim_space_between. }
  rewrite E. rewrite has_prefix_app, <- app_assoc_s, has_suffix_app. cbn [andb].
  rewrite !slen_app, (proj2 (Nat.leb_le _ _)) by lia. f_equal.
  rewrite app_assoc_s, sdrop_app.
  replace (slen markerPrefix + slen t + slen markerSuffix - slen markerSuffix - slen markerPrefix) with (slen t) by lia.
  apply stake_app.
Qed.

Lemma sforallb_no_byte c s : contains_byte c s = false → sforallb (λ d, negb (Ascii.eqb d c)) s = true.
Proof.
  unfold contains_byte. rewrite sexistsb_false. intros <-. induction s as [|d s IH]; [done|]. cbn [sforallb].
  by rewrite IH, (Ascii.eqb_sym d c).
Qed.

Lemma markerLines_app text t :
  contains_byte "010" t = false →
  markerLines (text +:+ newline +:+ markerPrefix +:+ t +:+ markerSuffix) = markerLines text ++ [t].
Proof.
  intros Ht. unfold markerLines, newline.
  change (String "010" "" +:+ markerPrefix +:+ t +:+ markerSuffix) with (String "010" (markerPrefix +:+ t +:+ markerSuffix)).
  rewrite split_byte_before, omap_app. f_equal. rewrite split_byte_no.
  - cbn [omap list_omap]. by rewrite marker_line_encoded.
  - rewrite (sforallb_no_byte "010"); [done|]. rewrite !contains_byte_app, Ht. done.
Qed.

Lemma find_none {A} (p : A → bool) l : (∀ x, x ∈ l → p x = false) → find p l = None.
Proof.
  induction l as [|x l IH]; intros Hl; [done|]. cbn. rewrite (Hl x) by (by left). apply IH. intros; apply Hl. by right.
Qed.

Lemma containsString_eq l k (b : bool) : (k ∈ l ↔ b = true) → containsString l k = b.
Proof.
  intros Hk. destruct (containsString l k) eqn:E.
  - apply containsString_iff, Hk in E. done.
  - destruct b; [|done]. apply proj2 in Hk. specialize (Hk eq_refl). apply containsString_iff in Hk. congruence.
Qed.

(** C16: A pull request's marker reads back. The body this program writes ends
    with the marker; whatever text comes before it, as long as no line of it is
    another update's marker (supersede markers do not matter), a well-formed
    marker of an update that is not a language update is read back as it was
    written, in every field. *)
Theorem marker_recovered `{MarkerJSONLaws, GoQuote} text m :
  (∀ l, l ∈ markerLines text → isSupersedeJSON l = true) →
  mk_V m = markerV → mk_Lang m = None → forallb valid_string (marker_texts m) = true → wellFormed m = None →
  parsePRMarker (text +:+ newline +:+ encodeMarker m) = inl m.
Proof.
  intros Htext Hv Hl Hutf Hwf. unfold parsePRMarker, encodeMarker.
  destruct (json_line m) as (t & Ht & Hnl). destruct (json_has_fields m) as (l & Hf & Hsu & Haff & Hin).
  rewrite markerLines_app by (by rewrite Ht, !contains_byte_app, Hnl).
  assert (E0 : filter (λ l, isSupersedeJSON l = false) (markerLines text) = []).
  { revert Htext. induction (markerLines text) as [|x k IH]; intros Hk; [done|].
    rewrite filter_cons_False by (rewrite (Hk x) by (by left); done). apply IH. intros; apply Hk. by right. }
  rewrite filter_app, E0. cbn [app]. assert (Es : isSupersedeJSON (json_marker m) = false).
  { unfold isSupersedeJSON. rewrite Hf. apply containsString_eq. done. }
  rewrite filter_cons_True, filter_nil by done. rewrite (json_decodes m) by done. rewrite Hv, Hf. cbn.
  rewrite find_none.
  2:{ intros k Hk. destruct (equal_fold k "affected") eqn:Ek; [|done]. rewrite (Haff k Hk Ek). done. }
  rewrite (containsString_eq l "affected" (is_cons (mk_Affected m))) by (rewrite Hin; by destruct (mk_Affected m)).
  assert (Ea : Bool.eqb (is_cons (mk_Affected m)) (kindHasAffected (mk_Kind m)) = true).
  { revert Hwf. unfold wellFormed. cbv zeta. destruct (_ && _); [done|].
    destruct (Bool.eqb (kindHasAffected _) _) eqn:E; [|done]. intros _. apply eqb_prop in E. rewrite E. apply eqb_reflx. }
  by rewrite Ea, Hwf.
Qed.
