(* ===== verification/PRUnits.v ===== *)
(** * PRUnits: what one pull request changes

    internal/remediation/pr_units.go: the running Compose containers are
    grouped by the Compose file their mapping names and the reference they
    run. A unit is proposed only when every running container of every one of
    its services has an adopted candidate, the same for all. Units of other
    kinds are not modelled. Items are positions in the plan. *)

From Stdlib Require Import ZArith Lia Bool Ascii String List.
From stdpp Require Import base gmap strings list.
From S2P Require Import Prelude GoStrings GoText Reference Inventory Triage Report Build Compare Adopt Declared Plan PRTypes PRKeys.

Open Scope string_scope.
Open Scope Z_scope.
Open Scope nat_scope.
Open Scope list_scope.
Open Scope kl_scope.

Record ComposeMapping := mk_mapping {
  mp_Workload : string; mp_Project : string; mp_Service : string; mp_Repository : string; mp_BaseBranch : string;
  mp_Path : string; mp_ComposeService : string }.

(** The part of the plan the stage reads for Compose units. *)
Record Plan := mk_plan { pl_Items : list Item; pl_Conditions : ScanConditions }.

Record composeUnit := mk_unit {
  cu_key : string; cu_repo : string; cu_baseBranch : string; cu_path : string; cu_current : string; cu_normRef : string;
  cu_services : list string; cu_locations : list string; cu_workloads : list string;
  cu_svcItems : gmap string (list nat); cu_items : list nat; cu_also : list ServiceRef; cu_order : nat;
  cu_manual : bool; cu_manualReason : string; cu_manualDetail : string; cu_candidate : option ImageState }.
#[export] Instance eta_composeUnit : Eta composeUnit := λ r,
  mk_unit (cu_key r) (cu_repo r) (cu_baseBranch r) (cu_path r) (cu_current r) (cu_normRef r) (cu_services r)
    (cu_locations r) (cu_workloads r) (cu_svcItems r) (cu_items r) (cu_also r) (cu_order r)
    (cu_manual r) (cu_manualReason r) (cu_manualDetail r) (cu_candidate r).

Record unitMember := mk_member { mb_service : string; mb_workload : string; mb_itemKey : string; mb_ref : string }.

Definition locationOf (member : string) : string := "services." +:+ member +:+ ".image".

(** ** Grouping *)

(** The first position of every key. *)
Fixpoint index_items (i : nat) (items : list Item) : gmap string nat :=
  match items with
  | [] => ∅
  | it :: items' => <[it_Key it := i]> (index_items (S i) items')
  end.

Definition map_key (project service : string) : string := project +:+ nul +:+ service.

Definition by_workload (mappings : list ComposeMapping) : gmap string ComposeMapping :=
  foldl (λ m x, <[map_key (mp_Project x) (mp_Service x) := x]> m) ∅ mappings.

Definition unit_key `{GoUnicode} (m : ComposeMapping) (norm : string) : string :=
  join "|" ["compose"; to_lower (mp_Repository m); mp_BaseBranch m; mp_Path m; norm].

Definition new_unit (key : string) (m : ComposeMapping) (ref norm : string) : composeUnit :=
  mk_unit key (mp_Repository m) (mp_BaseBranch m) (mp_Path m) ref norm [] [] [] ∅ [] [] 0 false "" "" None.

Definition member_of (m : ComposeMapping) (c : Container) : unitMember :=
  let ref := ri_Ref (ct_Image c) in
  mk_member (mp_ComposeService m) (mp_Workload m) (ref +:+ "|" +:+ entityString (entity_or_zero (ct_Image c))) ref.

(** The mapping of a container that belongs to a unit. *)
Definition mapped_container (byWorkload : gmap string ComposeMapping) (c : Container) : option ComposeMapping :=
  if negb (String.eqb (wl_Kind (ct_Workload c)) WorkloadCompose) || String.eqb (ri_Ref (ct_Image c)) "" then None
  else byWorkload !! map_key (wl_Group (ct_Workload c)) (wl_Name (ct_Workload c)).

(** One round of the loop over the containers: the units and their members. *)
Definition group_step `{GoUnicode} (byWorkload : gmap string ComposeMapping)
    (acc : gmap string (composeUnit * list unitMember)) (c : Container) : gmap string (composeUnit * list unitMember) :=
  match mapped_container byWorkload c with
  | None => acc
  | Some m =>
      let ref := ri_Ref (ct_Image c) in
      let norm := normalizedRef ref in
      let key := unit_key m norm in
      let '(u, ms) := default (new_unit key m ref norm, []) (acc !! key) in
      let u := if str_lt ref (cu_current u) then u <| cu_current := ref |> else u in
      <[key := (u, ms ++ [member_of m c])]> acc
  end.

(** ** One unit *)

Record memberAcc := mk_member_acc {
  ma_svc : gset string; ma_wl : gset string; ma_svcItems : gmap string (list nat); ma_items : list nat;
  ma_relevant : bool; ma_missing : list string }.
#[export] Instance eta_memberAcc : Eta memberAcc := λ r,
  mk_member_acc (ma_svc r) (ma_wl r) (ma_svcItems r) (ma_items r) (ma_relevant r) (ma_missing r).

Definition add_index (l : list nat) (i : nat) : list nat := if bool_decide (i ∈ l) then l else l ++ [i].

Definition category_at (items : list Item) (i : nat) : string := from_option it_Category "" (items !! i).

Definition member_step (itemIdx : gmap string nat) (items : list Item) (a : memberAcc) (mb : unitMember) : memberAcc :=
  let a := a <| ma_svc := {[mb_service mb]} ∪ ma_svc a |> <| ma_wl := {[mb_workload mb]} ∪ ma_wl a |> in
  match itemIdx !! mb_itemKey mb with
  | None => a <| ma_missing := ma_missing a ++ [mb_workload mb] |>
  | Some i =>
      a <| ma_relevant := ma_relevant a || String.eqb (category_at items i) CategoryPRCandidate |>
        <| ma_svcItems := <[mb_service mb := add_index (default [] (ma_svcItems a !! mb_service mb)) i]> (ma_svcItems a) |>
        <| ma_items := add_index (ma_items a) i |>
  end.

Definition not_adopted (u : composeUnit) (detail : string) : composeUnit :=
  u <| cu_manual := true |> <| cu_manualReason := ReasonComposeSetNotAdopted |> <| cu_manualDetail := detail |>.

(** The loop of [checkAdopted]: the candidate, or why there is none. *)
Fixpoint adopted_loop (cand : option ImageState) (l : list Item) : option ImageState + string :=
  match l with
  | [] => inl cand
  | it :: l' =>
      match it_Candidate it, it_Comparison it with
      | Some c, Some _ =>
          if negb (String.eqb (it_Category it) CategoryPRCandidate)
          then inr (im_Ref (it_Current it) +:+ " is " +:+ it_Category it +:+
                    ", not an adopted candidate; a pull request never covers part of the services running the image")
          else
            match cand with
            | None => adopted_loop (Some c) l'
            | Some c0 =>
                if negb (String.eqb (im_Tag c) (im_Tag c0)) || negb (String.eqb (im_TopDigest c) (im_TopDigest c0))
                then inr ("the running entities have different candidates (" +:+ im_Ref c0 +:+ " and " +:+ im_Ref c +:+ ")")
                else adopted_loop cand l'
            end
      | _, _ =>
          inr (im_Ref (it_Current it) +:+ " is " +:+ it_Category it +:+
               ", not an adopted candidate; a pull request never covers part of the services running the image")
      end
  end.

Definition items_at (items : list Item) (l : list nat) : list Item := omap (λ i, items !! i) l.

Definition checkAdopted (items : list Item) (u : composeUnit) : composeUnit :=
  match adopted_loop None (items_at items (cu_items u)) with
  | inr detail => not_adopted u detail
  | inl cand => u <| cu_candidate := cand |>
  end.

Definition service_cmp (a b : ServiceRef) : comparison :=
  str_cmp (sv_Project a) (sv_Project b) <?> str_cmp (sv_Service a) (sv_Service b) <?>
  str_cmp (sv_Container a) (sv_Container b) <?> str_cmp (sv_Workload a) (sv_Workload b).

Definition sortServiceRefs (l : list ServiceRef) : list ServiceRef := sort_by (less_of service_cmp) l.

#[export] Instance ServiceRef_eq_dec : EqDecision ServiceRef.
Proof. solve_decision. Defined.

Definition also_step (byWorkload : gmap string ComposeMapping) (l : list ServiceRef) (s : ServiceRef) : list ServiceRef :=
  if not_empty (sv_Project s) && bool_decide (is_Some (byWorkload !! map_key (sv_Project s) (sv_Service s))) then l
  else if bool_decide (s ∈ l) then l else l ++ [s].

Definition dedupeSorted (l : list string) : list string := sort_strings (remove_dups l).

(** The body of the loop over the units. *)
Definition finish_unit (itemIdx : gmap string nat) (byWorkload : gmap string ComposeMapping) (items : list Item)
    (u : composeUnit) (members : list unitMember) : option composeUnit :=
  let a := foldl (member_step itemIdx items) (mk_member_acc ∅ ∅ ∅ [] false []) members in
  if negb (ma_relevant a) then None
  else
    let services := sort_strings (elements (ma_svc a)) in
    let its := sort_by Nat.ltb (ma_items a) in
    let u := u <| cu_services := services |> <| cu_locations := locationOf <$> services |>
               <| cu_workloads := sort_strings (elements (ma_wl a)) |> <| cu_svcItems := ma_svcItems a |>
               <| cu_items := its |> <| cu_order := default 0 (head its) |> in
    let u :=
      match ma_missing a with
      | [] => checkAdopted items u
      | missing =>
          not_adopted u ("a running entity of " +:+ join ", " (dedupeSorted missing) +:+
            " has no plan item, so the whole service set cannot be verified")
      end in
    let also := foldl (also_step byWorkload) [] (flat_map it_Services (items_at items its)) in
    Some (u <| cu_also := sortServiceRefs also |>).

Definition unit_cmp (a b : composeUnit) : comparison :=
  Nat.compare (cu_order a) (cu_order b) <?> str_cmp (cu_key a) (cu_key b).

Definition buildComposeUnits `{GoUnicode, MapRange} (p : Plan) (containers : list Container)
    (mappings : list ComposeMapping) : list composeUnit :=
  let itemIdx := index_items 0 (pl_Items p) in
  let byWorkload := by_workload mappings in
  let units := foldl (group_step byWorkload) ∅ containers in
  sort_by (less_of unit_cmp)
    (omap (λ x, finish_unit itemIdx byWorkload (pl_Items p) (fst (snd x)) (snd (snd x))) (map_range units)).

(** ** What the unit fixes *)

Definition resolvedPairs (it : Item) : gset verdictKey :=
  match it_Comparison it with
  | None => ∅
  | Some c => list_to_set ((λ v, mk_vkey (vv_VulnID v) (vv_Package v)) <$>
                filter (λ v, vv_Outcome v = OutcomeResolved) (vf_Verdicts c))
  end.

(** The pairs all the items of one service have. *)
Definition common_pairs (pairs : Item → gset verdictKey) (l : list Item) : gset verdictKey :=
  match l with
  | [] => ∅
  | it :: l' => foldl (λ acc it, acc ∩ pairs it) (pairs it) l'
  end.

Definition fix_target (loc : string) (k : verdictKey) : FixTarget := mk_fix_target loc (vk_vuln k) (vk_coord k) [] "" [].

Section fixes.
Context `{GoHash}.

Definition sortFixTargets (l : list FixTarget) : list FixTarget :=
  sort_by (λ a b, str_lt (FixTarget_key a) (FixTarget_key b)) l.

Definition perLocation (items : list Item) (u : composeUnit) (pairs : Item → gset verdictKey) : list FixTarget :=
  sortFixTargets (flat_map (λ s, fix_target (locationOf s) <$>
      elements (common_pairs pairs (items_at items (default [] (cu_svcItems u !! s))))) (cu_services u)).

Definition target_pairs (it : Item) : gset verdictKey :=
  list_to_set (filter (λ k, k ∈ resolvedPairs it) ((λ t, mk_vkey (tg_VulnID t) (tg_Package t)) <$> it_Targets it)).

Definition fixTargets (items : list Item) (u : composeUnit) : list FixTarget := perLocation items u target_pairs.

Definition resolvedAll (items : list Item) (u : composeUnit) : list FixTarget := perLocation items u resolvedPairs.
End fixes.

(** ** The evidence of the unit *)

(** The loop over the verdicts: the four lists of the evidence. *)
Definition verdict_lists (intel : gmap verdictKey Target) (summary : VulnVerdict → VulnSummary) (l : list VulnVerdict)
    (ev : ItemEvidence) : ItemEvidence :=
  foldl (λ ev v,
    let target := bool_decide (is_Some (intel !! mk_vkey (vv_VulnID v) (vv_Package v))) in
    if String.eqb (vv_Outcome v) OutcomeResolved && target then ev <| ie_Resolved := ie_Resolved ev ++ [summary v] |>
    else if String.eqb (vv_Outcome v) OutcomeRemaining && target then ev <| ie_Remaining := ie_Remaining ev ++ [summary v] |>
    else if String.eqb (vv_Outcome v) OutcomeResolved then ev <| ie_OtherResolved := ie_OtherResolved ev ++ [summary v] |>
    else if String.eqb (vv_Outcome v) OutcomeRemaining then ev <| ie_OtherRemaining := ie_OtherRemaining ev ++ [summary v] |>
    else ev) ev l.

Definition summary_of (intel : gmap verdictKey Target) (v : VulnVerdict) : VulnSummary :=
  match intel !! mk_vkey (vv_VulnID v) (vv_Package v) with
  | Some t => mk_vuln_summary (vv_VulnID v) (vv_Package v) (vv_Severity v) (tg_Priority t) (tg_KEV t) []
  | None => mk_vuln_summary (vv_VulnID v) (vv_Package v) (vv_Severity v) "" false []
  end.

Definition empty_state : ImageState := mk_image_state "" "" "" "" "" "" "" false.

(** The locations of an item, in the order of the services. *)
Definition item_locations (u : composeUnit) (i : nat) : list string :=
  foldl (λ l s, if bool_decide (i ∈ default [] (cu_svcItems u !! s)) then add_new l (locationOf s) else l) [] (cu_services u).

Definition item_evidence (u : composeUnit) (i : nat) (it : Item) : ItemEvidence :=
  let intel : gmap verdictKey Target := foldl (λ m t, <[mk_vkey (tg_VulnID t) (tg_Package t) := t]> m) ∅ (it_Targets it) in
  let ev := mk_item_evidence (it_Key it) (it_Current it) (default empty_state (it_Candidate it)) (it_BaselineScan it)
              (it_CandidateScan it) (item_locations u i) [] [] [] [] [] in
  match it_Comparison it with
  | None => ev
  | Some c => verdict_lists intel (summary_of intel) (vf_Verdicts c) ev <| ie_Introduced := summary_of intel <$> vf_Introduced c |>
  end.

Definition evidence_step (items : list Item) (u : composeUnit) (vs : VerificationSummary) (i : nat) : VerificationSummary :=
  match items !! i with
  | None => vs
  | Some it =>
      let vs :=
        match it_Comparison it with
        | None => vs
        | Some c =>
            let vs := if String.eqb (vy_Scope vs) "" then vs <| vy_Scope := vf_Scope c |> else vs in
            match vf_Severities c with [] => vs | l => vs <| vy_Severities := l |> end
        end in
      vs <| vy_Items := vy_Items vs ++ [item_evidence u i it] |>
  end.

Definition unit_evidence (p : Plan) (u : composeUnit) : VerificationSummary :=
  foldl (evidence_step (pl_Items p) u)
    (mk_verification_summary (sc_TrivyVersion (pl_Conditions p)) (sc_Severities (pl_Conditions p)) "" []) (cu_items u).

(** ** What a unit covers *)

(** The reference and the member of a container that a unit is made of. *)
Definition running_ref (c : Container) : string := ri_Ref (ct_Image c).
Definition item_key (c : Container) : string := running_ref c +:+ "|" +:+ entityString (entity_or_zero (ct_Image c)).

(** A container belongs to a unit through its mapping. *)
Definition belongs `{GoUnicode} (mappings : list ComposeMapping) (c : Container) (m : ComposeMapping) (u : composeUnit) : Prop :=
  mapped_container (by_workload mappings) c = Some m ∧ unit_key m (normalizedRef (running_ref c)) = cu_key u.

(** The item proposes the unit's candidate. *)
Definition proposes (it : Item) (cand : option ImageState) : Prop :=
  it_Category it = CategoryPRCandidate ∧ is_Some (it_Comparison it) ∧
  ∃ c c0, it_Candidate it = Some c ∧ cand = Some c0 ∧ im_Tag c = im_Tag c0 ∧ im_TopDigest c = im_TopDigest c0.

Lemma index_items_spec i items key k :
  index_items i items !! key = Some k → ∃ it, i ≤ k ∧ items !! (k - i) = Some it ∧ it_Key it = key.
Proof.
  revert i. induction items as [|it items IH]; intros i; cbn [index_items]; [by rewrite lookup_empty|].
  destruct (decide (it_Key it = key)) as [E|E].
  - rewrite E, lookup_insert_eq. intros [= <-]. exists it. by rewrite Nat.sub_diag.
  - rewrite lookup_insert_ne by done. intros (it' & Hk & Hl & Ek)%IH. exists it'. split; [lia|].
    replace (k - i) with (S (k - S i)) by lia. done.
Qed.

Section covering.
Context `{GoUnicode}.

(** The units so far hold every container seen. *)
Definition grouped (bw : gmap string ComposeMapping) (seen : list Container) (acc : gmap string (composeUnit * list unitMember)) : Prop :=
  (∀ key u ms, acc !! key = Some (u, ms) → cu_key u = key) ∧
  (∀ c m, c ∈ seen → mapped_container bw c = Some m →
     ∃ u ms, acc !! unit_key m (normalizedRef (running_ref c)) = Some (u, ms) ∧ member_of m c ∈ ms).

Lemma group_step_grouped bw seen acc c : grouped bw seen acc → grouped bw (seen ++ [c]) (group_step bw acc c).
Proof.
  intros [Hk Hs]. unfold group_step. destruct (mapped_container bw c) as [m|] eqn:Em.
  2:{ split; [done|]. intros c' m' [Hc| ->%list_elem_of_singleton]%elem_of_app Em'; [by apply Hs|congruence]. }
  set (key := unit_key m (normalizedRef (ri_Ref (ct_Image c)))).
  destruct (default (new_unit key m (ri_Ref (ct_Image c)) (normalizedRef (ri_Ref (ct_Image c))), []) (acc !! key)) as [u ms] eqn:Ed.
  assert (Eu : cu_key u = key ∧ ∀ u' ms', acc !! key = Some (u', ms') → ms' = ms).
  { destruct (acc !! key) as [[u' ms']|] eqn:Ea; cbn in Ed; injection Ed as <- <-; [|done]. split; [by eapply Hk|]. by intros ?? [= _ <-]. }
  destruct Eu as [Eu Ems]. set (u2 := if str_lt _ _ then _ else _).
  assert (Eu2 : cu_key u2 = key) by (unfold u2; by destruct (str_lt _ _)). split.
  - intros k u' ms'. destruct (decide (key = k)) as [<-|Hne]; [rewrite lookup_insert_eq; by intros [= <- _]|].
    rewrite lookup_insert_ne by done. apply Hk.
  - intros c' m' [Hc| ->%list_elem_of_singleton]%elem_of_app Em'.
    + destruct (Hs c' m' Hc Em') as (u' & ms' & Ha & Hin). destruct (decide (key = unit_key m' (normalizedRef (running_ref c')))) as [E|Hne].
      * rewrite <- E in *. rewrite lookup_insert_eq. eexists _, _. split; [done|]. rewrite (Ems _ _ Ha) in Hin. apply elem_of_app. by left.
      * rewrite lookup_insert_ne by done. by exists u', ms'.
    + rewrite Em in Em'. injection Em' as <-. fold (running_ref c) in key. fold key. rewrite lookup_insert_eq.
      eexists _, _. split; [done|]. apply elem_of_app. right. by left.
Qed.

Lemma group_fold bw l seen acc : grouped bw seen acc → grouped bw (seen ++ l) (foldl (group_step bw) acc l).
Proof.
  revert seen acc. induction l as [|c l IH]; intros seen acc Hg; [by rewrite List.app_nil_r|].
  cbn [foldl]. replace (seen ++ c :: l) with ((seen ++ [c]) ++ l) by (by rewrite <- List.app_assoc). by apply IH, group_step_grouped.
Qed.
End covering.

(** The members looked at so far are in what is collected. *)
Definition collected (idx : gmap string nat) (seen : list unitMember) (a : memberAcc) : Prop :=
  ∀ mb, mb ∈ seen → mb_service mb ∈ ma_svc a ∧
    (ma_missing a = [] → ∃ i, idx !! mb_itemKey mb = Some i ∧ i ∈ ma_items a ∧ i ∈ default [] (ma_svcItems a !! mb_service mb)).

Lemma elem_of_add_index i j l : i ∈ add_index l j ↔ i ∈ l ∨ i = j.
Proof.
  unfold add_index. case_bool_decide; [|by rewrite elem_of_app, list_elem_of_singleton]. split; [by left|]. by intros [?| ->].
Qed.

Lemma member_step_collected idx items seen a mb : collected idx seen a → collected idx (seen ++ [mb]) (member_step idx items a mb).
Proof.
  intros Hc mb' Hmb. unfold member_step. destruct (idx !! mb_itemKey mb) as [i|] eqn:Ei; cbn.
  - apply elem_of_app in Hmb as [Hmb| ->%list_elem_of_singleton].
    + destruct (Hc mb' Hmb) as [Hsvc Hm]. split; [set_solver|]. intros Hmiss. destruct (Hm Hmiss) as (k & Ek & Hk & Hks).
      exists k. split; [done|]. split; [apply elem_of_add_index; by left|].
      destruct (decide (mb_service mb = mb_service mb')) as [E|Hne].
      * rewrite E, lookup_insert_eq. cbn. apply elem_of_add_index. by left.
      * by rewrite lookup_insert_ne.
    + split; [set_solver|]. intros _. exists i. split; [done|]. split; [apply elem_of_add_index; by right|].
      rewrite lookup_insert_eq. cbn. apply elem_of_add_index. by right.
  - split.
    + apply elem_of_app in Hmb as [Hmb| ->%list_elem_of_singleton]; [destruct (Hc mb' Hmb); set_solver|set_solver].
    + intros E. by destruct (ma_missing a).
Qed.

Lemma members_collected idx items l seen a : collected idx seen a → collected idx (seen ++ l) (foldl (member_step idx items) a l).
Proof.
  revert seen a. induction l as [|mb l IH]; intros seen a Ha; [by rewrite List.app_nil_r|].
  cbn [foldl]. replace (seen ++ mb :: l) with ((seen ++ [mb]) ++ l) by (by rewrite <- List.app_assoc). by apply IH, member_step_collected.
Qed.

(** [checkAdopted] lets a unit pass only when every item proposes one
    candidate. *)
Lemma adopted_loop_spec l cand c :
  adopted_loop cand l = inl c → (is_Some cand → c = cand) ∧ Forall (λ it, proposes it c) l.
Proof.
  revert cand. induction l as [|it l IH]; intros cand; cbn [adopted_loop]; [intros [= ->]; by split|].
  destruct (it_Candidate it) as [cd|] eqn:Ec; [|done]. destruct (it_Comparison it) eqn:Ecmp; [|done].
  destruct (String.eqb_spec (it_Category it) CategoryPRCandidate) as [Ecat|]; cbn [negb]; [|done].
  destruct cand as [c0|].
  - destruct (String.eqb_spec (im_Tag cd) (im_Tag c0)) as [Et|]; cbn [negb orb]; [|done].
    destruct (String.eqb_spec (im_TopDigest cd) (im_TopDigest c0)) as [Ed|]; cbn [negb]; [|done].
    intros [E Hl]%IH. specialize (E ltac:(by eexists)) as ->. split; [done|]. constructor; [|done].
    split; [done|]. split; [by eexists|]. by exists cd, c0.
  - intros [E Hl]%IH. specialize (E ltac:(by eexists)) as ->. split; [by intros [? [=]]|]. constructor; [|done].
    split; [done|]. split; [by eexists|]. by exists cd, cd.
Qed.

(** C5: A pull request never covers part of the services running an image.
    Every running Compose container whose mapping and image belong to a unit
    that is not left to the operator is one of the unit's services, and has
    an item, for the entity it really runs, that proposes the unit's
    candidate: one tag at one digest for all of them. *)
Theorem unit_covers_all `{GoUnicode, MapRange} p containers mappings u c m :
  u ∈ buildComposeUnits p containers mappings → cu_manual u = false →
  c ∈ containers → belongs mappings c m u →
  mp_ComposeService m ∈ cu_services u ∧
  ∃ i it, i ∈ cu_items u ∧ i ∈ default [] (cu_svcItems u !! mp_ComposeService m) ∧ pl_Items p !! i = Some it ∧ it_Key it = item_key c ∧ proposes it (cu_candidate u).
Proof.
  intros Hu Hman Hc [Hm Hkey]. unfold buildComposeUnits in Hu. rewrite elem_of_sort_by in Hu.
  apply list_elem_of_omap in Hu as ([key [u0 ms]] & Hin%elem_of_map_range & Hf). cbn [fst snd] in Hf.
  assert (Hempty : grouped (by_workload mappings) [] ∅) by (split; [intros ???; by rewrite lookup_empty|by intros ?? ?%elem_of_nil]).
  destruct (group_fold _ containers [] ∅ Hempty) as [Gk Gs]. pose proof (Gk _ _ _ Hin) as Ek.
  destruct (Gs c m ltac:(by apply elem_of_app; right) Hm) as (u1 & ms1 & Ha & Hmb).
  unfold finish_unit in Hf. set (idx := index_items 0 (pl_Items p)) in *.
  pose proof (members_collected idx (pl_Items p) ms [] (mk_member_acc ∅ ∅ ∅ [] false []) ltac:(by intros ? ?%elem_of_nil)) as Hcol.
  set (a := foldl (member_step idx (pl_Items p)) _ ms) in *. cbn [app] in Hcol. destruct (negb (ma_relevant a)); [done|].
  cbv zeta in Hf. injection Hf as Hf. destruct (ma_missing a) as [|w miss] eqn:Emiss; [|by rewrite <- Hf in Hman].
  unfold checkAdopted in Hf. destruct (adopted_loop None _) as [cand|detail] eqn:Ead; [|by rewrite <- Hf in Hman].
  assert (Ekey : cu_key u = key) by (rewrite <- Hf; exact Ek). rewrite Ekey in Hkey. rewrite Hkey, Hin in Ha. injection Ha as <- <-.
  destruct (Hcol _ Hmb) as [Hsvc Hitem]. destruct (Hitem Emiss) as (i & Ei & Hi & His). rewrite <- Hf. cbn.
  split; [apply elem_of_sort_strings; by apply elem_of_elements|].
  destruct (index_items_spec _ _ _ _ Ei) as (it & _ & Hit & Hitk). rewrite Nat.sub_0_r in Hit.
  exists i, it. rewrite elem_of_sort_by. split_and!; try done.
  destruct (adopted_loop_spec _ _ _ Ead) as [_ Hall]. rewrite Forall_forall in Hall. apply Hall.
  unfold items_at. apply list_elem_of_omap. exists i. cbn. by rewrite elem_of_sort_by.
Qed.

(** ** What a unit promises to fix *)

(** The pair is a target of the item, and the comparison of its scans says it
    is resolved. *)
Definition fixes (it : Item) (k : verdictKey) : Prop :=
  (∃ t, t ∈ it_Targets it ∧ mk_vkey (tg_VulnID t) (tg_Package t) = k) ∧
  ∃ c v, it_Comparison it = Some c ∧ v ∈ vf_Verdicts c ∧ vv_Outcome v = OutcomeResolved ∧ mk_vkey (vv_VulnID v) (vv_Package v) = k.

Lemma elem_of_common_pairs (pairs : Item → gset verdictKey) l k :
  k ∈ common_pairs pairs l ↔ l ≠ [] ∧ ∀ it, it ∈ l → k ∈ pairs it.
Proof.
  destruct l as [|it l]; cbn [common_pairs].
  { split; [intros Hk; by apply elem_of_empty in Hk|by intros [? _]]. }
  assert (Hfold : ∀ acc, k ∈ foldl (λ acc it, acc ∩ pairs it) acc l ↔ k ∈ acc ∧ ∀ it', it' ∈ l → k ∈ pairs it').
  { induction l as [|it' l IH]; intros acc; cbn [foldl].
    - split; [by intros ?; split; [|intros ? ?%elem_of_nil]|by intros [? _]].
    - rewrite IH, elem_of_intersection. split.
      + intros [[Ha Hi] Hr]. split; [done|]. intros it2 [->|?]%elem_of_cons; [done|by apply Hr].
      + intros [Ha Hr]. split; [split; [done|apply Hr; by left]|]. intros it2 ?. apply Hr. by right. }
  rewrite Hfold. split.
  - intros [Hi Hr]. split; [done|]. intros it2 [->|?]%elem_of_cons; [done|by apply Hr].
  - intros [_ Hr]. split; [apply Hr; by left|]. intros it2 ?. apply Hr. by right.
Qed.

Lemma elem_of_target_pairs it k : k ∈ target_pairs it ↔ fixes it k.
Proof.
  unfold target_pairs. rewrite elem_of_list_to_set, list_elem_of_filter, list_elem_of_fmap. unfold fixes, resolvedPairs. split.
  - intros [Hr (t & -> & Ht)]. split; [by exists t|]. destruct (it_Comparison it) as [c|]; [|by apply elem_of_empty in Hr].
    apply elem_of_list_to_set, list_elem_of_fmap in Hr as (v & E & [Ho Hv]%list_elem_of_filter). by exists c, v.
  - intros [(t & Ht & E) (c & v & -> & Hv & Ho & Ek)]. split; [|by exists t].
    apply elem_of_list_to_set, list_elem_of_fmap. exists v. split; [done|]. by apply list_elem_of_filter.
Qed.

(** C12: A pull request promises exactly what it fixes everywhere. A pair of
    vulnerability and package is named as fixed at a service's image exactly
    when it is a target of, and resolved by the candidate in, every running
    image of that service. *)
Theorem fixTargets_exact `{GoHash} items u f :
  f ∈ fixTargets items u ↔
  ∃ s k, s ∈ cu_services u ∧ f = fix_target (locationOf s) k ∧
    let its := items_at items (default [] (cu_svcItems u !! s)) in its ≠ [] ∧ ∀ it, it ∈ its → fixes it k.
Proof.
  unfold fixTargets, perLocation, sortFixTargets. rewrite elem_of_sort_by, list_elem_of_In, in_flat_map. split.
  - intros (s & Hs%list_elem_of_In & Hf%list_elem_of_In). apply list_elem_of_fmap in Hf as (k & -> & Hk%elem_of_elements).
    apply elem_of_common_pairs in Hk as [Hne Hall]. exists s, k. split_and!; [done|done|done|].
    intros it Hit. by apply elem_of_target_pairs, Hall.
  - intros (s & k & Hs & -> & Hne & Hall). exists s. split; [by apply list_elem_of_In|]. apply list_elem_of_In, list_elem_of_fmap.
    exists k. split; [done|]. apply elem_of_elements, elem_of_common_pairs. split; [done|]. intros it Hit. by apply elem_of_target_pairs, Hall.
Qed.
