(* ===== verification/PRStore.v ===== *)
(** * PRStore: the record file of pull requests

    internal/remediation/pr_store.go: what a record file must satisfy to be
    read or written, the log of operations with its sequence numbers, and what
    is removed from it to stay within its size. The file system is a
    parameter: reading prs.json (with encoding/json), replacing it atomically,
    and the lock file. *)

From Stdlib Require Import ZArith Lia Bool Ascii String List Sorted.
From stdpp Require Import base gmap strings list.
From S2P Require Import Prelude GoStrings Decimals Compare Adopt Plan PRTypes.

Open Scope string_scope.
Open Scope Z_scope.
Open Scope nat_scope.
Open Scope list_scope.
Open Scope kl_scope.

(** ** Validation *)

Inductive storeError :=
  | OutOfSequence (seq : Z) | NeverIssued (seq : Z) | UnidentifiedPR | UnidentifiedAttempt
  | UnidentifiedWait | UnknownWait (kind : string) | DuplicateWait.

Definition isStop (w : LangWaitRecord) : bool := String.eqb (lw_Kind w) chainStoppedKind.

(** The first loop, over the operations. *)
Fixpoint check_sequence (last next : Z) (ops : list OperationEvent) : option storeError :=
  match ops with
  | [] => None
  | op :: ops' =>
      if (ev_Seq op <=? last)%Z || (next <=? ev_Seq op)%Z || String.eqb (ev_ID op) ""
      then Some (OutOfSequence (ev_Seq op))
      else check_sequence (ev_Seq op) next ops'
  end.

Definition waitKey `{GoUnicode} (w : LangWaitRecord) : string * string * string * string * bool :=
  (to_lower (lw_Repo w), lw_BaseBranch w, lw_LockPath w, lw_InputFingerprint w, isStop w).

(** The last loop, over the waits. *)
Fixpoint check_waits `{GoUnicode} (seen : list (string * string * string * string * bool)) (ws : list LangWaitRecord)
    : option storeError :=
  match ws with
  | [] => None
  | w :: ws' =>
      if String.eqb (lw_Repo w) "" || String.eqb (lw_LockPath w) "" || String.eqb (lw_InputFingerprint w) ""
      then Some UnidentifiedWait
      else if negb (containsString langWaitKinds (lw_Kind w)) then Some (UnknownWait (lw_Kind w))
      else if bool_decide (waitKey w ∈ seen) then Some DuplicateWait
      else check_waits (waitKey w :: seen) ws'
  end.

Definition validate `{GoUnicode} (f : PRStoreFile) : option storeError :=
  match check_sequence 0 (fl_NextSeq f) (fl_Operations f) with
  | Some e => Some e
  | None =>
      if (fl_DeliveredSeq f <? 0)%Z || ((0 <? fl_DeliveredSeq f)%Z && (fl_NextSeq f <=? fl_DeliveredSeq f)%Z)
      then Some (NeverIssued (fl_DeliveredSeq f))
      else if existsb (λ r, (pr_Number r <=? 0)%Z || String.eqb (pr_UpdateKey r) "" || String.eqb (pr_Repo r) "") (fl_PRs f)
      then Some UnidentifiedPR
      else if existsb (λ a, String.eqb (at_AttemptKey a) "" || String.eqb (at_UpdateKey a) "" || String.eqb (at_Repo a) "")
                (fl_Attempts f)
      then Some UnidentifiedAttempt
      else check_waits [] (fl_LangWaits f)
  end.

(** ** The operation log *)

(** The attempts whose events must be kept. *)
Definition unsettledAttemptKeys (f : PRStoreFile) : gset string :=
  list_to_set ((at_AttemptKey <$> filter (λ a, settled (at_Status a) = false) (fl_Attempts f)) ++
               (pr_AttemptKey <$> filter (λ r, forallb terminal (pr_Replacing r) = false) (fl_PRs f))).

(** The loop of [trimOperations]: what is kept, and the excess left. *)
Fixpoint trim_loop (delivered : Z) (keep : gset string) (excess : Z) (ops : list OperationEvent)
    : list OperationEvent * Z :=
  match ops with
  | [] => ([], excess)
  | op :: ops' =>
      if (0 <? excess)%Z && (ev_Seq op <=? delivered)%Z &&
         (String.eqb (ev_AttemptKey op) "" || negb (bool_decide (ev_AttemptKey op ∈ keep)))
      then trim_loop delivered keep (excess - 1) ops'
      else let '(out, e) := trim_loop delivered keep excess ops' in (op :: out, e)
  end.

Definition trimOperations (room : nat) (f : PRStoreFile) : PRStoreFile * bool :=
  let excess := (Z.of_nat (length (fl_Operations f)) + Z.of_nat room - Z.of_nat maxOperationEvents)%Z in
  if (excess <=? 0)%Z then (f, true)
  else
    let '(out, excess) := trim_loop (fl_DeliveredSeq f) (unsettledAttemptKeys f) excess (fl_Operations f) in
    (f <| fl_Operations := out |>, (excess <=? 0)%Z).

(** The events after the delivered sequence, and the highest number among
    them. *)
Definition undelivered (f : PRStoreFile) : list OperationEvent * Z :=
  let out := filter (λ op, (fl_DeliveredSeq f < ev_Seq op)%Z) (fl_Operations f) in
  (out, match last out with Some op => ev_Seq op | None => 0%Z end).

(** What [MarkPROperationsDelivered] saves of a file that was found, if it
    saves. *)
Definition mark_delivered (seq : Z) (f : PRStoreFile) : option PRStoreFile :=
  let seq := if (fl_NextSeq f <=? seq)%Z then (fl_NextSeq f - 1)%Z else seq in
  if (seq <=? fl_DeliveredSeq f)%Z then None
  else Some (f <| fl_DeliveredSeq := seq |>).

(** ** Storage *)

(** Why the records cannot be read or written; a failure of the file system
    comes with its own error. *)
Inductive storageError (Err : Type) :=
  | FileFailed (e : Err)
  | NoDirectory
  | BadVersion (v : Z)
  | Invalid (e : storeError)
  | WouldNotOverwrite (e : storageError Err)
  | Locked.
Arguments FileFailed {Err}.
Arguments NoDirectory {Err}.
Arguments BadVersion {Err}.
Arguments Invalid {Err}.
Arguments WouldNotOverwrite {Err}.
Arguments Locked {Err}.

Section store.
Context {St Err : Type}.
Context `{GoUnicode}.

(** [PRStorage]: the lock, the file and replacing it. The file is [None] when
    there is none. *)
Record PRStorage := mk_storage {
  Lock : St → option (storageError Err) * St;
  Unlock : St → St;
  Load : St → (option PRStoreFile + storageError Err) * St;
  Save : PRStoreFile → St → option (storageError Err) * St;
}.

(** What [PRStore] does with the file system: the decoded JSON of prs.json,
    writing it atomically, and the lock file. *)
Record Files := mk_files {
  fs_read : St → (option PRStoreFile + Err) * St;
  fs_write : PRStoreFile → St → option Err * St;
  fs_lock : St → option (storageError Err) * St;
  fs_unlock : St → St;
}.

Definition load_file (fs : Files) (w : St) : (option PRStoreFile + storageError Err) * St :=
  let '(x, w) := fs_read fs w in
  (match x with
   | inr e => inr (FileFailed e)
   | inl None => inl None
   | inl (Some f) =>
       if negb (fl_Version f =? PRStoreVersion)%Z then inr (BadVersion (fl_Version f))
       else match validate f with Some e => inr (Invalid e) | None => inl (Some f) end
   end, w).

Definition save_file (fs : Files) (dir : string) (f : PRStoreFile) (w : St) : option (storageError Err) * St :=
  if String.eqb dir "" then (Some NoDirectory, w)
  else
    let '(x, w) := load_file fs w in
    match x with
    | inr e => (Some (WouldNotOverwrite e), w)
    | inl _ =>
        let f := f <| fl_Version := PRStoreVersion |> in
        match validate f with
        | Some e => (Some (Invalid e), w)
        | None => let '(err, w) := fs_write fs f w in (FileFailed <$> err, w)
        end
    end.

Definition PRStore (fs : Files) (dir : string) : PRStorage :=
  mk_storage (λ w, if String.eqb dir "" then (Some NoDirectory, w) else fs_lock fs w) (fs_unlock fs)
    (load_file fs) (save_file fs dir).

Definition MarkPROperationsDelivered (store : PRStorage) (seq : Z) (w : St) : option (storageError Err) * St :=
  if (seq <=? 0)%Z then (None, w)
  else
    let '(err, w) := Lock store w in
    match err with
    | Some e => (Some e, w)
    | None =>
        let '(x, w) := Load store w in
        let '(err, w) :=
          match x with
          | inr e => (Some e, w)
          | inl None => (None, w)
          | inl (Some f) =>
              match mark_delivered seq f with
              | None => (None, w)
              | Some f' => Save store f' w
              end
          end in
        (err, Unlock store w)
    end.
End store.
Arguments PRStorage : clear implicits.
Arguments Files : clear implicits.

(** ** The sequence numbers *)

(** What validation says of the log. *)
Record sequenced (f : PRStoreFile) : Prop := {
  sq_sorted : StronglySorted (λ a b, (ev_Seq a < ev_Seq b)%Z) (fl_Operations f);
  sq_range : ∀ op, op ∈ fl_Operations f → (0 < ev_Seq op < fl_NextSeq f)%Z;
  sq_ids : ∀ op, op ∈ fl_Operations f → ev_ID op ≠ "";
  sq_delivered : (0 <= fl_DeliveredSeq f)%Z ∧ (fl_DeliveredSeq f = 0 ∨ fl_DeliveredSeq f < fl_NextSeq f)%Z;
}.

Lemma check_sequence_spec last next ops :
  check_sequence last next ops = None ↔
  StronglySorted (λ a b, (ev_Seq a < ev_Seq b)%Z) ops ∧
  (∀ op, op ∈ ops → (last < ev_Seq op < next)%Z ∧ ev_ID op ≠ "").
Proof.
  revert last. induction ops as [|op ops IH]; intros last; cbn [check_sequence].
  { split; [intros _; split; [constructor|by intros op ?%elem_of_nil]|done]. }
  destruct (Z.leb_spec (ev_Seq op) last); cbn [orb].
  { split; [done|]. intros [_ Hall]. destruct (Hall op ltac:(by left)). lia. }
  destruct (Z.leb_spec next (ev_Seq op)); cbn [orb].
  { split; [done|]. intros [_ Hall]. destruct (Hall op ltac:(by left)). lia. }
  destruct (String.eqb_spec (ev_ID op) "") as [E|E].
  { split; [done|]. intros [_ Hall]. by destruct (Hall op ltac:(by left)). }
  rewrite IH. split.
  - intros [Hs Hall]. split.
    + constructor; [done|]. apply Forall_forall. intros x Hx. apply Hall in Hx. lia.
    + intros x [->|Hx]%elem_of_cons; [split; [lia|done]|]. apply Hall in Hx. split; [lia|tauto].
  - intros [Hs Hall]. inversion_clear Hs as [|? ? Hs' Hf]. split; [done|]. intros x Hx.
    rewrite Forall_forall in Hf. destruct (Hall x ltac:(by right)). split; [|done].
    specialize (Hf x Hx). lia.
Qed.

Lemma validate_sequenced `{GoUnicode} f : validate f = None → sequenced f.
Proof.
  unfold validate. destruct (check_sequence _ _ _) eqn:E; [done|]. apply check_sequence_spec in E as [Hs Hall].
  destruct (Z.ltb_spec (fl_DeliveredSeq f) 0), (Z.ltb_spec 0 (fl_DeliveredSeq f)), (Z.leb_spec (fl_NextSeq f) (fl_DeliveredSeq f));
    cbn; intros Hv; try done; (split; [done|intros op Hop; destruct (Hall op Hop); lia|intros op Hop; apply Hall, Hop|lia]).
Qed.

Lemma trim_loop_spec delivered keep excess ops :
  let '(out, e) := trim_loop delivered keep excess ops in
  out `sublist_of` ops ∧ (e = excess - (Z.of_nat (length ops) - Z.of_nat (length out)))%Z ∧ (0 ≤ excess → 0 ≤ e)%Z ∧
  (∀ op, op ∈ ops → (delivered < ev_Seq op)%Z ∨ (ev_AttemptKey op ≠ "" ∧ ev_AttemptKey op ∈ keep) → op ∈ out) ∧
  ((0 < e)%Z → ∀ op, op ∈ out → (delivered < ev_Seq op)%Z ∨ (ev_AttemptKey op ≠ "" ∧ ev_AttemptKey op ∈ keep)).
Proof.
  revert excess. induction ops as [|op ops IH]; intros excess; cbn [trim_loop].
  { split_and!; [done|cbn; lia|done|done|by intros _ op ?%elem_of_nil]. }
  destruct (Z.ltb_spec 0 excess) as [He|He]; cbn [andb];
    [destruct (Z.leb_spec (ev_Seq op) delivered) as [Hd|Hd]; cbn [andb];
      [destruct (String.eqb_spec (ev_AttemptKey op) "") as [Ek|Ek]; cbn [orb];
        [|destruct (bool_decide_reflect (ev_AttemptKey op ∈ keep)) as [Hk|Hk]; cbn [negb]]|]|].
  - specialize (IH (excess - 1)%Z). destruct (trim_loop _ _ _ ops) as [out e]. destruct IH as (I1 & I2 & I3 & I4 & I5).
    split_and!; [by constructor|cbn [length]; lia|lia| |done].
    intros x [->|Hx]%elem_of_cons; [|by apply I4]. intros [?|[? _]]; [lia|done].
  - specialize (IH excess). destruct (trim_loop _ _ _ ops) as [out e]. destruct IH as (I1 & I2 & I3 & I4 & I5).
    split_and!; [by constructor|cbn [length]; lia|done| |].
    + intros x [->|Hx]%elem_of_cons; [by left|]. intros. right. by apply I4.
    + intros He' x [->|Hx]%elem_of_cons; [by right|by apply I5].
  - specialize (IH (excess - 1)%Z). destruct (trim_loop _ _ _ ops) as [out e]. destruct IH as (I1 & I2 & I3 & I4 & I5).
    split_and!; [by constructor|cbn [length]; lia|lia| |done].
    intros x [->|Hx]%elem_of_cons; [|by apply I4]. intros [?|[_ ?]]; [lia|done].
  - specialize (IH excess). destruct (trim_loop _ _ _ ops) as [out e]. destruct IH as (I1 & I2 & I3 & I4 & I5).
    split_and!; [by constructor|cbn [length]; lia|done| |].
    + intros x [->|Hx]%elem_of_cons; [by left|]. intros. right. by apply I4.
    + intros He' x [->|Hx]%elem_of_cons; [by left|by apply I5].
  - specialize (IH excess). destruct (trim_loop _ _ _ ops) as [out e]. destruct IH as (I1 & I2 & I3 & I4 & I5).
    split_and!; [by constructor|cbn [length]; lia|done| |].
    + intros x [->|Hx]%elem_of_cons; [by left|]. intros. right. by apply I4.
    + intros He'. apply sublist_length in I1. lia.
Qed.

Lemma StronglySorted_sublist {A} (R : A → A → Prop) l k : l `sublist_of` k → StronglySorted R k → StronglySorted R l.
Proof.
  induction 1 as [|x l k Hlk IH|x l k Hlk IH]; intros Hs; [constructor|inversion_clear Hs as [|? ? Hs' Hf]..]; [|by apply IH].
  constructor; [by apply IH|]. apply Forall_forall. intros y Hy. rewrite Forall_forall in Hf. by eapply Hf, elem_of_sublist.
Qed.

(** What trimming keeps. *)
Lemma trimOperations_spec room f :
  let '(f', ok) := trimOperations room f in
  f' = f <| fl_Operations := fl_Operations f' |> ∧
  fl_Operations f' `sublist_of` fl_Operations f ∧
  (∀ op, op ∈ fl_Operations f →
     (fl_DeliveredSeq f < ev_Seq op)%Z ∨ (ev_AttemptKey op ≠ "" ∧ ev_AttemptKey op ∈ unsettledAttemptKeys f) →
     op ∈ fl_Operations f') ∧
  (ok = true ↔ length (fl_Operations f') + room ≤ maxOperationEvents) ∧
  (ok = false → ∀ op, op ∈ fl_Operations f' →
     (fl_DeliveredSeq f < ev_Seq op)%Z ∨ (ev_AttemptKey op ≠ "" ∧ ev_AttemptKey op ∈ unsettledAttemptKeys f)).
Proof.
  unfold trimOperations.
  destruct (Z.leb_spec (Z.of_nat (length (fl_Operations f)) + Z.of_nat room - Z.of_nat maxOperationEvents) 0).
  - split_and!; [by destruct f|done|done| |done]. split; [lia|done].
  - pose proof (trim_loop_spec (fl_DeliveredSeq f) (unsettledAttemptKeys f)
      (Z.of_nat (length (fl_Operations f)) + Z.of_nat room - Z.of_nat maxOperationEvents) (fl_Operations f)) as Ht.
    destruct (trim_loop _ _ _ _) as [out e]. destruct Ht as (T1 & T2 & T3 & T4 & T5).
    specialize (T3 ltac:(lia)). cbn [fl_Operations].
    pose proof (sublist_length _ _ T1).
    split_and!; [done|done|done| |].
    + rewrite Z.leb_le. cbn. lia.
    + intros He. apply T5. apply Z.leb_gt in He. lia.
Qed.

Lemma trim_sequenced room f : sequenced f → sequenced (fst (trimOperations room f)).
Proof.
  intros [S1 S2 S3 S4]. pose proof (trimOperations_spec room f) as Ht. destruct (trimOperations room f) as [f' ok].
  destruct Ht as (-> & Hs & _). cbn [fst] in *. set (ops := fl_Operations f') in *. clearbody ops. split; cbn.
  - by eapply StronglySorted_sublist.
  - intros op Hop. by eapply S2, elem_of_sublist.
  - intros op Hop. by eapply S3, elem_of_sublist.
  - done.
Qed.

(** The numbers are 63 bits wide: the event with the last one is followed by
    one below it, and stays in the log, which no validation accepts again. *)
Definition overrun (f : PRStoreFile) : Prop :=
  ∃ op, op ∈ fl_Operations f ∧ (fl_DeliveredSeq f < ev_Seq op)%Z ∧ (fl_NextSeq f ≤ ev_Seq op)%Z ∧ (2 ^ 63 - 1 ≤ ev_Seq op)%Z.

(** What a log that started in sequence is at any time. *)
Definition seq_ok (f : PRStoreFile) : Prop := sequenced f ∨ overrun f.

Lemma sequenced_not_overrun f : sequenced f → ¬ overrun f.
Proof. intros [_ S2 _ _] (op & Hop%S2 & _ & ? & _). lia. Qed.

Lemma trim_overrun room f : overrun f → overrun (fst (trimOperations room f)).
Proof.
  intros (op & Hop & Hd & Hn & Hm).
  pose proof (trimOperations_spec room f) as Ht. destruct (trimOperations room f) as [f' ok]. cbn [fst].
  destruct Ht as (E & _ & Hkeep & _). exists op. rewrite E. cbn. split_and!; [apply Hkeep; [done|by left]|done..].
Qed.

Lemma trim_seq_ok room f : seq_ok f → seq_ok (fst (trimOperations room f)).
Proof. intros [S|O]; [left; by apply trim_sequenced|right; by apply trim_overrun]. Qed.

(** What is reported as undelivered is every event after the delivered
    sequence, and marking the reported number as delivered leaves none. *)
Lemma undelivered_spec f :
  sequenced f →
  let '(out, n) := undelivered f in
  (∀ op, op ∈ out ↔ op ∈ fl_Operations f ∧ (fl_DeliveredSeq f < ev_Seq op)%Z) ∧
  (∀ op, op ∈ fl_Operations f → (ev_Seq op ≤ Z.max n (fl_DeliveredSeq f))%Z) ∧
  match mark_delivered n f with
  | Some f' => fst (undelivered f') = [] ∧ sequenced f' ∧ fl_Operations f' = fl_Operations f
  | None => out = []
  end.
Proof.
  intros Hs. unfold undelivered. set (out := filter _ _).
  assert (Hin : ∀ op, op ∈ out ↔ op ∈ fl_Operations f ∧ (fl_DeliveredSeq f < ev_Seq op)%Z).
  { intros op. unfold out. rewrite list_elem_of_filter. tauto. }
  assert (Hso : StronglySorted (λ a b, (ev_Seq a < ev_Seq b)%Z) out).
  { eapply StronglySorted_sublist; [apply sublist_filter|apply Hs]. }
  clearbody out. destruct Hs as [S1 S2 S3 S4].
  assert (Hmax : ∀ op, op ∈ out → (ev_Seq op ≤ match last out with Some op => ev_Seq op | None => 0 end)%Z).
  { clear - Hso. induction Hso as [|x l Hl IH Hf]; intros op Hop; [by apply elem_of_nil in Hop|].
    destruct l as [|y l]; [by apply list_elem_of_singleton in Hop as ->|]. rewrite last_cons_cons.
    apply elem_of_cons in Hop as [->|Hop]; [|by apply IH]. specialize (IH y ltac:(by left)).
    rewrite Forall_forall in Hf. specialize (Hf y ltac:(by left)). lia. }
  set (n := match last out with Some op => ev_Seq op | None => 0%Z end) in *.
  assert (Hall : ∀ op, op ∈ fl_Operations f → (ev_Seq op ≤ Z.max n (fl_DeliveredSeq f))%Z).
  { intros op Hop. destruct (decide (fl_DeliveredSeq f < ev_Seq op)%Z); [|lia]. specialize (Hmax op (proj2 (Hin op) (conj Hop l))). lia. }
  split_and!; [done|done|]. unfold mark_delivered.
  assert (Hn : (n = 0 ∨ n < fl_NextSeq f)%Z).
  { unfold n. destruct (last out) as [op|] eqn:E; [|by left]. right. apply last_Some_elem_of in E. apply Hin in E as [E _].
    by apply S2. }
  cbv zeta. set (m := (if (fl_NextSeq f <=? n)%Z then (fl_NextSeq f - 1)%Z else n)).
  assert (E : m = n ∨ ((m ≤ fl_DeliveredSeq f)%Z ∧ n = 0%Z)).
  { unfold m. destruct (Z.leb_spec (fl_NextSeq f) n); [right; lia|by left]. }
  clearbody m. destruct (Z.leb_spec m (fl_DeliveredSeq f)) as [Hle|Hlt].
  - destruct out as [|op out]; [done|exfalso]. specialize (Hmax op ltac:(by left)).
    destruct (proj1 (Hin op) ltac:(by left)) as [Ho Hd]. destruct (S2 op Ho). lia.
  - destruct E as [->|[E _]]; [|lia]. cbn. split_and!; [|split; cbn; try done; lia|done].
    assert (Hall' : ∀ op, op ∈ fl_Operations f → ¬ (n < ev_Seq op)%Z) by (intros op Hop; specialize (Hall op Hop); lia).
    revert Hall'. clear. induction (fl_Operations f) as [|op l IH]; intros Hall; [done|].
    rewrite filter_cons_False by (apply Hall; by left). apply IH. intros; apply Hall. by right.
Qed.
