(* ===== verification/PRStage.v ===== *)
(** * PRStage: the stage that opens pull requests

    internal/remediation/pr_stage.go, pr_reconcile.go and pr_replace.go for
    Compose updates: the records of earlier cycles are checked against GitHub,
    then every unit is proposed within the limits, then older pull requests
    are replaced. Every write to GitHub is preceded by a saved intent and
    followed by a saved result.

    GitHub, the registry, the store and the context are the interface
    [GitHub]; what they answer may depend on their state, which is threaded
    through. The edit of a Compose file and the text of a body are functions
    of their inputs. An operation of the stage is a [stage]: a total function
    of the run and the world. Pointers into the records are positions. *)

From Stdlib Require Import ZArith Lia Bool Ascii String List.
From stdpp Require Import base gmap strings list.
From S2P Require Import Prelude GoStrings GoText Reference Inventory Triage Report Build Compare ImageTag Adopt Declared Plan PRTypes PRKeys PRMarker PRUnits PRStore.

Open Scope string_scope.
Open Scope Z_scope.
Open Scope nat_scope.
Open Scope list_scope.
Open Scope kl_scope.

(** ** The other side *)

Record RepoInfo := mk_repo_info { gi_ID : Z; gi_FullName : string }.
Record CommitInfo := mk_commit_info { gc_Tree : string; gc_Parents : list string }.
Record File := mk_file { gf_SHA : string; gf_Content : string; gf_Mode : string }.
Record TreeEntry := mk_tree_entry { te_Path : string; te_Mode : string; te_BlobSHA : string }.
Record PullRequest := mk_pull {
  gp_Number : Z; gp_State : string; gp_Merged : bool; gp_HTMLURL : string; gp_Body : string; gp_HeadRef : string;
  gp_HeadSHA : string; gp_HeadRepoFullName : string; gp_BaseRef : string; gp_BaseRepoID : Z }.
Record NewPull := mk_new_pull { np_Title : string; np_Body : string; np_Head : string; np_Base : string }.

(** A write to GitHub, and what it answers. *)
Inductive request :=
  | CreateBlob (repo content : string)
  | CreateTree (repo baseTree : string) (entries : list TreeEntry)
  | CreateCommit (repo message tree : string) (parents : list string)
  | CreateRef (repo branch sha : string)
  | CreatePull (repo : string) (p : NewPull)
  | ClosePull (repo : string) (number : Z)
  | CreateIssueComment (repo : string) (number : Z) (body : string).

Definition answer (q : request) : Type :=
  match q with
  | CreateBlob _ _ | CreateTree _ _ _ | CreateCommit _ _ _ _ => string
  | CreatePull _ _ => PullRequest
  | _ => unit
  end.

(** The conditions [errors.Is] and [errors.As] ask an error for. *)
Inductive ghKind :=
  | Canceled | DeadlineExceeded | ErrTimeout | ErrRateLimited | ErrBudgetExhausted | ErrByteBudgetExhausted
  | ErrOutcomeUnknown | ErrRefExists | ErrNotFound | ErrLFSPointer | ErrTooLarge | NotRegularFileError | StatusError.

Class GitHub (St Err : Type) := {
  Repository : string → St → (RepoInfo + Err) * St;
  Commit : string → string → St → (CommitInfo + Err) * St;
  Ref : string → string → St → (option string + Err) * St;
  (** the state asked for, the head, the page *)
  ListPulls : string → string → string → Z → St → (list PullRequest * bool + Err) * St;
  Pull : string → Z → St → (PullRequest + Err) * St;
  ListIssueComments : string → Z → Z → St → (list string * bool + Err) * St;
  ResolveBranch : string → string → St → (string + Err) * St;
  ReadFile : string → string → string → St → (File + Err) * St;
  (** the top digest of a tag on a platform *)
  ResolveTop : string → string → Platform → St → (string + Err) * St;
  send : ∀ q : request, St → (answer q + Err) * St;
  ctx_Err : St → option Err * St;
  gh_is : ghKind → Err → bool;
  gh_Error : Err → string;
  store_Error : storageError Err → string
}.

(** What the body of a Compose pull request says (pr_body.go). *)
Record prBodyInput (Change : Type) := mk_body_input {
  bi_Repo : string; bi_BaseBranch : string; bi_BaseSHA : string; bi_Path : string; bi_Current : string;
  bi_Services : list string; bi_Locations : list string; bi_Workloads : list string; bi_AlsoRunning : list ServiceRef;
  bi_Changes : list Change; bi_CandidateTag : string; bi_Evidence : option VerificationSummary;
  bi_UpdateKey : string; bi_AttemptKey : string; bi_Marker : string }.
Arguments mk_body_input {Change}.

(** The edit of a Compose file (compose_edit.go) and the body, as functions of
    their inputs; a problem is a reason and a text. *)
Class ComposeEdits (Change : Type) := {
  EditComposeImageTag : string → list string → string → string → (string * list Change) + (string * string);
  buildPRBody : prBodyInput Change → string + string
}.

(** ** The run *)

Record PRLimits := mk_pr_limits { ql_NewPRsPerCycle : Z; ql_OpenPRs : Z }.

Record PRUnit := mk_pr_unit {
  vu_Key : string; vu_TargetKey : string; vu_UpdateKey : string; vu_AttemptKey : string; vu_Repo : string;
  vu_BaseBranch : string; vu_Path : string; vu_Services : list string; vu_Locations : list string;
  vu_Workloads : list string; vu_AlsoRunning : list ServiceRef; vu_Current : string; vu_CandidateTag : string;
  vu_CandidateDigest : string; vu_Status : string; vu_Reason : string; vu_Detail : string; vu_Number : Z;
  vu_URL : string; vu_State : string; vu_UserModified : bool; vu_FixTargets : list FixTarget; vu_ReplacedBy : Z;
  vu_Replacing : list Replacement; vu_Replaced : list Z }.
#[export] Instance eta_PRUnit : Eta PRUnit := λ r,
  mk_pr_unit (vu_Key r) (vu_TargetKey r) (vu_UpdateKey r) (vu_AttemptKey r) (vu_Repo r) (vu_BaseBranch r) (vu_Path r)
    (vu_Services r) (vu_Locations r) (vu_Workloads r) (vu_AlsoRunning r) (vu_Current r) (vu_CandidateTag r)
    (vu_CandidateDigest r) (vu_Status r) (vu_Reason r) (vu_Detail r) (vu_Number r) (vu_URL r) (vu_State r)
    (vu_UserModified r) (vu_FixTargets r) (vu_ReplacedBy r) (vu_Replacing r) (vu_Replaced r).

Record repoState := mk_repo_state {
  rt_name : string; rt_info : RepoInfo; rt_ok : bool; rt_blocked : string; rt_blockedDetail : string;
  rt_blockedTargets : gmap string string; rt_resumable : gset string; rt_reconciled : bool }.
#[export] Instance eta_repoState : Eta repoState := λ r,
  mk_repo_state (rt_name r) (rt_info r) (rt_ok r) (rt_blocked r) (rt_blockedDetail r) (rt_blockedTargets r)
    (rt_resumable r) (rt_reconciled r).

Definition writable (rs : repoState) : bool := rt_ok rs && String.eqb (rt_blocked rs) "" && rt_reconciled rs.

(** The text before the first slash, all of it without one. *)
Definition owner (rs : repoState) : string :=
  match split_byte "/" (gi_FullName (rt_info rs)) with o :: _ => o | [] => "" end.

Record stopInfo := mk_stop { sp_status : string; sp_reason : string; sp_detail : string }.
Record prHalt := mk_pr_halt { hl_reason : string; hl_detail : string }.

Record prRun := mk_pr_run {
  ru_file : PRStoreFile; ru_repos : list repoState; ru_byKey : gmap string nat;
  ru_stop : option stopInfo; ru_halt : option prHalt; ru_problems : list PRStageProblem; ru_newPRs : Z;
  ru_view : PRUnit }.
#[export] Instance eta_prRun : Eta prRun := λ r,
  mk_pr_run (ru_file r) (ru_repos r) (ru_byKey r) (ru_stop r) (ru_halt r) (ru_problems r) (ru_newPRs r) (ru_view r).

(** The unit being processed; its view is in the run. *)
Record unitCtx := mk_unit_ctx { uc_u : composeUnit; uc_rs : nat; uc_targetKey : string; uc_updateKey : string }.

Definition zero_repo : repoState := mk_repo_state "" (mk_repo_info 0 "") false "" "" ∅ ∅ false.
Definition zero_target_state : ImageState := mk_image_state "" "" "" "" "" "" "" false.
Definition zero_attempt : AttemptRecord :=
  mk_attempt "" "" "" "" "" 0 "" "" "" "" "" "" "" "" "" "" "" 0 "" [] [] "" "" "" [] [] None [] None.
Definition zero_pr : PRRecord :=
  mk_pr_record "" 0 "" "" "" "" "" 0 "" "" "" "" "" [] "" 0 0 false "" [] [] "" "" "" [] [] false false None None.
Definition zero_replacement : Replacement := mk_replacement 0 "" "" "".

Definition pullState (pr : PullRequest) : string :=
  if gp_Merged pr then PRStateMerged else if String.eqb (gp_State pr) "closed" then PRStateClosed else PRStateOpen.

(** [flags] the record, and whether it did. *)
Definition markModified (rec : PRRecord) (pr : PullRequest) : PRRecord * bool :=
  if pr_UserModified rec then (rec, false)
  else
    let mark why := (rec <| pr_UserModified := true |> <| pr_ModifiedReason := why |>, true) in
    if negb (String.eqb (gp_HeadSHA pr) (pr_HeadSHA rec))
    then mark ("the head is " +:+ gp_HeadSHA pr +:+ ", not the commit this tool created")
    else if negb (String.eqb (gp_BaseRef pr) (pr_BaseBranch rec))
    then mark ("the base is " +:+ gp_BaseRef pr +:+ ", not " +:+ pr_BaseBranch rec)
    else if negb (gp_BaseRepoID pr =? pr_RepoID rec)%Z
    then mark ("the pull request merges into repository ID " +:+ signed_itoa (gp_BaseRepoID pr) +:+ ", not " +:+ signed_itoa (pr_RepoID rec))
    else (rec, false).

Definition ours (rs : repoState) (pr : PullRequest) : bool :=
  has_prefix (gp_HeadRef pr) branchPrefix && equal_fold (gp_HeadRepoFullName pr) (gi_FullName (rt_info rs)).

Definition branchPulls (rs : repoState) (pulls : list PullRequest) (branch : string) : list PullRequest :=
  filter (λ pr, String.eqb (gp_HeadRef pr) branch && equal_fold (gp_HeadRepoFullName pr) (gi_FullName (rt_info rs)) = true) pulls.

Definition targetName (path : string) (locations : list string) : string :=
  path +:+ " (" +:+ join ", " locations +:+ ")".

Definition repoOfRef (ref : string) : string := match RepositoryOf ref with Some r => r | None => ref end.

(** [strings.Cut] at the first slash. *)
Definition parsePlatform (s : string) : option Platform :=
  match split_byte "/" s with
  | [os; arch] => if String.eqb os "" || String.eqb arch "" then None else Some (mk_platform os arch "")
  | _ => None
  end.

Definition orDefault (s d : string) : string := if String.eqb s "" then d else s.

(** The record of a pull request opened by an attempt. *)
Definition recordFromAttempt (a : AttemptRecord) (pr : PullRequest) : PRRecord :=
  mk_pr_record (at_Repo a) (at_RepoID a) (kindOf (at_Kind a)) (at_TargetKey a) (at_UpdateKey a) (at_AttemptKey a)
    (at_Branch a) (gp_Number pr) (gp_HTMLURL pr) (at_BaseBranch a) (at_BaseSHA a) (at_CommitSHA a) (at_Path a)
    (at_Locations a) (pullState pr) 0 0 false "" (at_FixTargets a) (at_Services a) (at_CurrentRef a)
    (at_CandidateTag a) (at_CandidateDigest a) (at_Affected a) [] false false (at_Evidence a) (at_Lang a).

(** *** Lookups in the records *)

Definition pr_rank (s : string) : nat :=
  if String.eqb s PRStateOpen then 3 else if String.eqb s PRStateMerged then 2 else 1.

(** The best position so far. *)
Definition better_record (prs : list PRRecord) (key : string) (best : option nat) (i : nat) : option nat :=
  let rec := nth i prs zero_pr in
  if String.eqb (pr_UpdateKey rec) key &&
     match best with None => true | Some b => pr_rank (pr_State (nth b prs zero_pr)) <? pr_rank (pr_State rec) end
  then Some i else best.

Definition recordByUpdateKey (f : PRStoreFile) (key : string) : option nat :=
  foldl (better_record (fl_PRs f) key) None (seq 0 (length (fl_PRs f))).

Definition find_index {A} (p : A → bool) (l : list A) : option nat :=
  find (λ i, match l !! i with Some x => p x | None => false end) (seq 0 (length l)).

Definition recordByNumber (f : PRStoreFile) (repoID number : Z) : option nat :=
  find_index (λ r, (pr_RepoID r =? repoID)%Z && (pr_Number r =? number)%Z) (fl_PRs f).

Definition attempt_index (f : PRStoreFile) (key : string) : option nat :=
  find_index (λ a, String.eqb (at_AttemptKey a) key) (fl_Attempts f).

(** The operation a settlement is about, the first with the identifier. *)
Definition operation (f : PRStoreFile) (id : string) : option OperationEvent :=
  find (λ op, String.eqb (ev_ID op) id) (fl_Operations f).

Definition opKind (f : PRStoreFile) (id : string) : string :=
  match operation f id with Some op => ev_Kind op | None => "" end.

Definition openCount `{GoUnicode} (r : prRun) : nat :=
  let ids := omap (λ rs, if rt_ok rs then Some (gi_ID (rt_info rs)) else None) (ru_repos r) in
  length (filter (λ rec, String.eqb (pr_State rec) PRStateOpen &&
                         (existsb (Z.eqb (pr_RepoID rec)) ids || bool_decide (is_Some (ru_byKey r !! to_lower (pr_Repo rec)))) = true)
            (fl_PRs (ru_file r))).

(** The replacement in progress for a record. *)
Definition replacementOf (f : PRStoreFile) (old : PRRecord) : bool :=
  existsb (λ rec, (pr_RepoID rec =? pr_RepoID old)%Z &&
                  existsb (λ rp, (rp_OldNumber rp =? pr_Number old)%Z && negb (terminal rp)) (pr_Replacing rec)) (fl_PRs f).

Definition repoByID (r : prRun) (id : Z) : option nat :=
  find_index (λ rs, rt_ok rs && (gi_ID (rt_info rs) =? id)%Z) (ru_repos r).

Definition targetBlocked (r : prRun) (repoID : Z) (targetKey : string) : bool :=
  existsb (λ rs, rt_ok rs && (gi_ID (rt_info rs) =? repoID)%Z && bool_decide (is_Some (rt_blockedTargets rs !! targetKey))) (ru_repos r) ||
  existsb (λ a, (at_RepoID a =? repoID)%Z && String.eqb (at_TargetKey a) targetKey && String.eqb (at_Status a) AttemptBlocked)
    (fl_Attempts (ru_file r)).

(** ** Operations of the run *)

Section stage.
Context {St Err Change : Type} `{GitHub St Err} `{ComposeEdits Change} `{GoHash, GoUnicode, GoQuote, MarkerJSON, MapRange}.
Context (store : PRStorage St Err) (limits : PRLimits) (maxListPages : nat).

Definition stage (A : Type) : Type := prRun * St → A * (prRun * St).

#[export] Instance stage_ret : MRet stage := λ A x s, (x, s).
#[export] Instance stage_bind : MBind stage := λ A B k m s, let '(x, s) := m s in k x s.

Definition ask {A} (f : prRun → A) : stage A := λ s, (f (fst s), s).
Definition change (f : prRun → prRun) : stage unit := λ s, (tt, (f (fst s), snd s)).
Definition call {A} (f : St → A * St) : stage A := λ s, let '(x, w) := f (snd s) in (x, (fst s, w)).

(** An error with its text; the wrapped one is what [errors.Is] sees. *)
Record stageErr := mk_err { se_cause : option Err; se_text : string }.
Definition plain (e : Err) : stageErr := mk_err (Some e) (gh_Error e).
Definition text_err (s : string) : stageErr := mk_err None s.
Definition wrap (prefix : string) (e : stageErr) : stageErr := mk_err (se_cause e) (prefix +:+ se_text e).
Definition err_is (k : ghKind) (e : stageErr) : bool := match se_cause e with Some c => gh_is k c | None => false end.

Definition repo_at (i : nat) : stage repoState := ask (λ r, nth i (ru_repos r) zero_repo).
Definition set_repo (i : nat) (f : repoState → repoState) : stage unit :=
  change (λ r, r <| ru_repos := alter f i (ru_repos r) |>).
Definition attempt_at (i : nat) : stage AttemptRecord := ask (λ r, nth i (fl_Attempts (ru_file r)) zero_attempt).
Definition on_file (f : PRStoreFile → PRStoreFile) : stage unit := change (λ r, r <| ru_file := f (ru_file r) |>).
Definition set_attempt (i : nat) (f : AttemptRecord → AttemptRecord) : stage unit :=
  on_file (λ fl, fl <| fl_Attempts := alter f i (fl_Attempts fl) |>).
Definition record_at (i : nat) : stage PRRecord := ask (λ r, nth i (fl_PRs (ru_file r)) zero_pr).
Definition set_record (i : nat) (f : PRRecord → PRRecord) : stage unit :=
  on_file (λ fl, fl <| fl_PRs := alter f i (fl_PRs fl) |>).
Definition add_record (rec : PRRecord) : stage unit := on_file (λ fl, fl <| fl_PRs := fl_PRs fl ++ [rec] |>).
Definition replacement_at (i j : nat) : stage Replacement := rec ← record_at i; mret (nth j (pr_Replacing rec) zero_replacement).
Definition set_replacement (i j : nat) (f : Replacement → Replacement) : stage unit :=
  set_record i (λ rec, rec <| pr_Replacing := alter f j (pr_Replacing rec) |>).

(** [unitCtx.set] *)
Definition set_status (status reason detail : string) : stage unit :=
  change (λ r, r <| ru_view := ru_view r <| vu_Status := status |> <| vu_Reason := reason |> <| vu_Detail := detail |> |>).

Definition problem (p : PRStageProblem) : stage unit :=
  change (λ r,
    if existsb (λ q, String.eqb (pb_Code q) (pb_Code p) && String.eqb (pb_Repo q) (pb_Repo p) && String.eqb (pb_Target q) (pb_Target p))
         (ru_problems r) then r
    else r <| ru_problems := ru_problems r ++ [p] |>).

Definition blockRepo (i : nat) (code reason detail : string) : stage unit :=
  _ ← set_repo i (λ rs, if String.eqb (rt_blocked rs) "" then rs <| rt_blocked := reason |> <| rt_blockedDetail := detail |> else rs);
  rs ← repo_at i;
  problem (mk_problem code (rt_name rs) "" reason detail).

Definition blockTarget (i : nat) (a : AttemptRecord) (reason detail : string) : stage unit :=
  _ ← set_repo i (λ rs, rs <| rt_blockedTargets := <[at_TargetKey a := detail]> (rt_blockedTargets rs) |>);
  rs ← repo_at i;
  problem (mk_problem PRProblemWriteBlocked (rt_name rs) (targetName (at_Path a) (at_Locations a)) reason
    (join ", " (at_Locations a) +:+ " in " +:+ at_Path a +:+ ": " +:+ detail)).

Definition inactiveDetail (r : prRun) : string * string :=
  match ru_halt r with
  | Some h => (hl_reason h, hl_detail h)
  | None =>
      match ru_stop r with
      | Some s => (sp_reason s, sp_detail s)
      | None => (ReasonReconcileFailed, "GitHub work has ended in this cycle")
      end
  end.

Definition storage_stopped (r : prRun) : bool :=
  match ru_stop r with Some s => String.eqb (sp_reason s) ReasonStorageFailed | None => false end.

Definition storageFailed (err : string) : stage unit :=
  _ ← change (λ r, if storage_stopped r then r else r <| ru_stop := Some (mk_stop PRStatusWriteBlocked ReasonStorageFailed err) |>);
  problem (mk_problem PRProblemStorageFailed "" "" ReasonStorageFailed err).

Definition save : stage bool :=
  stopped ← ask storage_stopped;
  if (stopped : bool) then mret false
  else
    _ ← on_file (λ f, fst (trimOperations 0 f));
    f ← ask ru_file;
    err ← call (Save store f);
    match err with
    | Some e => _ ← storageFailed (store_Error e); mret false
    | None => mret true
    end.

Definition full_detail (f : PRStoreFile) : string :=
  "the operation log is full (" +:+ signed_itoa (Z.of_nat (length (fl_Operations f))) +:+
  " events kept) with events that are not yet delivered or belong to unsettled attempts".

Definition reserve (n : nat) : stage bool :=
  ok ← (λ s, let '(f, ok) := trimOperations n (ru_file (fst s)) in (ok, (fst s <| ru_file := f |>, snd s)));
  if (ok : bool) then mret true
  else
    detail ← ask (λ r, full_detail (ru_file r));
    _ ← change (λ r, match ru_stop r with
                     | None => r <| ru_stop := Some (mk_stop PRStatusWriteBlocked ReasonStorageFull detail) |>
                     | Some _ => r
                     end);
    _ ← problem (mk_problem PRProblemStorageFull "" "" ReasonStorageFull detail);
    mret false.

Definition append_event (f : PRStoreFile) (ev : OperationEvent) : OperationEvent * PRStoreFile :=
  let next := if (fl_NextSeq f <? 1)%Z then 1%Z else fl_NextSeq f in
  let ev := ev <| ev_Seq := next |> in
  let ev := if String.eqb (ev_ID ev) "" then ev <| ev_ID := "op-" +:+ signed_itoa next |> else ev in
  (ev, f <| fl_NextSeq := int64_wrap (next + 1) |> <| fl_Operations := fl_Operations f ++ [ev] |>).

Definition event (ev : OperationEvent) : stage OperationEvent :=
  λ s, let '(ev, f) := append_event (ru_file (fst s)) ev in (ev, (fst s <| ru_file := f |>, snd s)).

Definition zero_event : OperationEvent := mk_event 0 "" "" "" "" "" 0 "" "" "" "".

Definition settle (opID result detail : string) : stage unit :=
  if String.eqb opID "" then mret tt
  else
    f ← ask ru_file;
    let ev := zero_event <| ev_ID := opID |> <| ev_Phase := PhaseSettled |> <| ev_Result := result |> <| ev_Error := detail |> in
    let ev :=
      match operation f opID with
      | Some orig => ev <| ev_Kind := ev_Kind orig |> <| ev_Repo := ev_Repo orig |> <| ev_AttemptKey := ev_AttemptKey orig |>
                        <| ev_Number := ev_Number orig |>
      | None => ev
      end in
    _ ← event ev; mret tt.

Definition set_halt (reason : string) (e : stageErr) : stage unit :=
  change (λ r, match ru_halt r with None => r <| ru_halt := Some (mk_pr_halt reason (se_text e)) |> | Some _ => r end).

(** The first case of [haltFor]; the context is asked only for a timeout. *)
Definition deadline_err (e : stageErr) : stage bool :=
  if err_is Canceled e || err_is DeadlineExceeded e then mret true
  else if err_is ErrTimeout e then err ← call ctx_Err; mret (match err with Some _ => true | None => false end)
  else mret false.

Definition haltFor (e : stageErr) : stage bool :=
  dead ← deadline_err e;
  if (dead : bool) then _ ← set_halt ReasonCycleDeadline e; mret true
  else if err_is ErrRateLimited e then _ ← set_halt ReasonGitHubRateLimited e; mret true
  else if err_is ErrBudgetExhausted e then _ ← set_halt ReasonGitHubBudget e; mret true
  else mret false.

(** Why a write did not succeed. *)
Inductive writeErr := WritesStopped | Failed (e : Err).
Definition is_unknown (e : writeErr) : bool := match e with Failed e => gh_is ErrOutcomeUnknown e | WritesStopped => false end.
Definition is_stopped (e : writeErr) : bool := match e with WritesStopped => true | Failed _ => false end.
Definition write_text (e : writeErr) : string := match e with WritesStopped => "writes are stopped" | Failed e => gh_Error e end.

(** One external write; [ref] is what the request returned, of its answer. *)
Definition write (op : OperationEvent) (q : request) (ref : option (answer q) → string)
    : stage (string * (answer q + writeErr)) :=
  ev ← event (op <| ev_Phase := PhaseIntent |>);
  ok ← save;
  if negb ok then mret (ev_ID ev, inr WritesStopped)
  else
    x ← call (send q);
    let res := zero_event <| ev_ID := ev_ID ev |> <| ev_Phase := PhaseResult |> <| ev_Kind := ev_Kind op |> <| ev_Repo := ev_Repo op |>
                 <| ev_AttemptKey := ev_AttemptKey op |> <| ev_Number := ev_Number op |> in
    match x with
    | inl a =>
        _ ← event (res <| ev_Ref := ref (Some a) |> <| ev_Result := ResultOK |>);
        _ ← save;
        mret (ev_ID ev, inl a)
    | inr e =>
        let res := res <| ev_Ref := ref None |> <| ev_Error := gh_Error e |> in
        if gh_is ErrOutcomeUnknown e then
          _ ← change (λ r, match ru_stop r with
                           | None => r <| ru_stop := Some (mk_stop PRStatusDeferred ReasonWriteOutcomeUnknown
                               ("the outcome of " +:+ ev_Kind op +:+ " on " +:+ ev_Repo op +:+ " is unknown; the next cycle settles it by reading")) |>
                           | Some _ => r
                           end);
          _ ← event (res <| ev_Result := ResultUnknown |>);
          _ ← save;
          mret (ev_ID ev, inr (Failed e))
        else
          _ ← haltFor (plain e);
          _ ← event (res <| ev_Result := ResultFailed |>);
          _ ← save;
          mret (ev_ID ev, inr (Failed e))
    end.

Definition active : stage bool :=
  r ← ask id;
  _ ← match ru_halt r with
      | Some _ => mret tt
      | None =>
          err ← call ctx_Err;
          match err with Some e => _ ← haltFor (plain e); mret tt | None => mret tt end
      end;
  ask (λ r, match ru_halt r with None => negb (storage_stopped r) | Some _ => false end).

Definition canWrite (i : nat) : stage bool :=
  a ← active;
  if (a : bool) then
    ask (λ r, match ru_stop r with None => writable (nth i (ru_repos r) zero_repo) | Some _ => false end)
  else mret false.

(** *** Listings *)

Fixpoint list_pages {A} (page : Z → St → (list A * bool + Err) * St) (fuel : nat) (p : Z) (out : list A)
    : stage (list A + stageErr) :=
  match fuel with
  | 0 => mret (inr (text_err ("the listing has more than " +:+ signed_itoa (Z.of_nat maxListPages) +:+ " pages")))
  | S fuel =>
      x ← call (page p);
      match x with
      | inr e => mret (inr (plain e))
      | inl (items, next) =>
          if negb next then mret (inl (out ++ items)) else list_pages page fuel (p + 1)%Z (out ++ items)
      end
  end.

Definition listAll {A} (page : Z → St → (list A * bool + Err) * St) : stage (list A + stageErr) :=
  list_pages page maxListPages 1 [].

Definition listPulls (rs : repoState) (state head : string) : stage (list PullRequest + stageErr) :=
  listAll (ListPulls (rt_name rs) state head).

Definition listComments (rs : repoState) (number : Z) : stage (list string + stageErr) :=
  listAll (ListIssueComments (rt_name rs) number).

(** *** Outcomes of a unit *)

Definition stop_status : stage unit :=
  r ← ask id;
  match ru_stop r with
  | Some s => set_status (sp_status s) (sp_reason s) (sp_detail s)
  | None => mret tt
  end.

Definition halt_status : stage unit :=
  r ← ask id;
  match ru_halt r with
  | Some h => set_status PRStatusDeferred (hl_reason h) (hl_detail h)
  | None => mret tt
  end.

Definition stopped (c : unitCtx) : stage bool :=
  r ← ask id;
  let rs := nth (uc_rs c) (ru_repos r) zero_repo in
  match ru_halt r with
  | Some _ => _ ← halt_status; mret true
  | None =>
      match ru_stop r with
      | Some _ => _ ← stop_status; mret true
      | None =>
          if negb (writable rs) then
            _ ← (if String.eqb (rt_blocked rs) ""
                 then set_status PRStatusWriteBlocked ReasonReconcileFailed "the repository's records were not checked against GitHub this cycle"
                 else set_status PRStatusWriteBlocked (rt_blocked rs) (rt_blockedDetail rs));
            mret true
          else mret false
      end
  end.

Definition readFailure (what : string) (e : stageErr) : stage unit :=
  halted ← haltFor e;
  if (halted : bool) then halt_status
  else if err_is ErrByteBudgetExhausted e then set_status PRStatusDeferred ReasonByteBudget (se_text e)
  else set_status PRStatusFailed ReasonGitHubError (what +:+ ": " +:+ se_text e).

Definition writeFailure (kind : string) (e : writeErr) : stage unit :=
  match e with
  | WritesStopped => stop_status
  | Failed e =>
      if gh_is ErrOutcomeUnknown e then stop_status
      else
        r ← ask id;
        if match ru_halt r with Some _ => true | None => false end &&
           (gh_is ErrRateLimited e || gh_is ErrBudgetExhausted e || gh_is Canceled e || gh_is DeadlineExceeded e)
        then halt_status
        else if gh_is StatusError e then set_status PRStatusFailed ReasonGitHubRefused (kind +:+ ": " +:+ gh_Error e)
        else set_status PRStatusFailed ReasonGitHubError (kind +:+ ": " +:+ gh_Error e)
  end.

Definition changed_text (tag now verified : string) : string :=
  "tag " +:+ tag +:+ " now points at " +:+ now +:+ ", not the verified " +:+ verified.

Definition recheckCandidate (repoRef : string) (cand : ImageState) : stage bool :=
  match parsePlatform (im_Platform cand) with
  | None => _ ← set_status PRStatusDeferred ReasonRegistryRecheck "the candidate's platform is not known"; mret false
  | Some platform =>
      res ← call (ResolveTop repoRef (im_Tag cand) platform);
      match res with
      | inr e =>
          _ ← (if gh_is Canceled e || gh_is DeadlineExceeded e || gh_is ErrTimeout e
               then _ ← haltFor (plain e); mret tt else mret tt);
          _ ← set_status PRStatusDeferred ReasonRegistryRecheck ("the candidate tag could not be resolved again: " +:+ gh_Error e);
          mret false
      | inl top =>
          if negb (String.eqb top (im_TopDigest cand))
          then _ ← set_status PRStatusDeferred ReasonCandidateChanged (changed_text (im_Tag cand) top (im_TopDigest cand)); mret false
          else mret true
      end
  end.

(** ** Deciding replacements (pr_replace.go) *)

Definition pair_text (v : VulnSummary) : string := vs_VulnID v +:+ nul +:+ coord_text (vs_Package v).

Definition evidence_pairs (it : ItemEvidence) : gset string :=
  list_to_set (pair_text <$> (ie_Resolved it ++ ie_OtherResolved it)).

(** One item: the pairs of each of its locations are narrowed to its own. *)
Definition resolved_step (perLoc : gmap string (gset string)) (it : ItemEvidence) : gmap string (gset string) :=
  foldl (λ m loc,
    match m !! loc with
    | None => <[loc := evidence_pairs it]> m
    | Some acc => <[loc := acc ∩ evidence_pairs it]> m
    end) perLoc (ie_Locations it).

Definition resolvedFromEvidence (ev : VerificationSummary) : gset string :=
  map_fold (λ loc pairs out, set_map (λ k, loc +:+ nul +:+ k) pairs ∪ out) ∅ (foldl resolved_step ∅ (vy_Items ev)).

Definition newerPatch (a b : string) : bool :=
  let '(va, ok1) := ParseTagVersion a in
  let '(vb, ok2) := ParseTagVersion b in
  ok1 && ok2 && String.eqb (tv_Prefix va) (tv_Prefix vb) && String.eqb (tv_Suffix va) (tv_Suffix vb) &&
  (tv_Major va =? tv_Major vb)%Z && (tv_Minor va =? tv_Minor vb)%Z && (tv_Patch va <? tv_Patch vb)%Z.

(** For a Dockerfile update: the running images each target is resolved for. *)
Definition resolvedEntitiesFromEvidence (ev : VerificationSummary) : gmap string (gset string) :=
  foldl (λ m it,
    foldl (λ m loc,
      foldl (λ m v,
        let k := FixTarget_key (mk_fix_target loc (vs_VulnID v) (vs_Package v) (vs_Layers v) "" []) in
        <[k := {[ie_ItemKey it]} ∪ default ∅ (m !! k)]> m) m (ie_Resolved it)) m (ie_Locations it)) ∅ (vy_Items ev).

Definition key_of_ref (ref : string) : string := default "" (RepositoryKey ref).

(** [same] says that the two are one record. *)
Definition replaceable (same : bool) (rec old : PRRecord) (inherits : FixTarget → bool) : bool :=
  if same || negb (pr_RepoID old =? pr_RepoID rec)%Z || negb (String.eqb (pr_State old) PRStateOpen) ||
     pr_UserModified old || pr_MarkerOnly old || pr_UserModified rec || pr_MarkerOnly rec ||
     negb (String.eqb (pr_TargetKey old) (pr_TargetKey rec)) || String.eqb (pr_UpdateKey old) (pr_UpdateKey rec) ||
     negb (String.eqb (pr_BaseBranch old) (pr_BaseBranch rec)) || negb (String.eqb (pr_Path old) (pr_Path rec)) ||
     negb (String.eqb (nul_join (pr_Locations old)) (nul_join (pr_Locations rec))) ||
     negb (String.eqb (nul_join (pr_Affected old)) (nul_join (pr_Affected rec)))
  then false
  else if (if String.eqb (kindOf (pr_Kind rec)) prKindLanguage
           then negb (String.eqb (kindOf (pr_Kind old)) prKindLanguage) || negb (is_cons (pr_FixTargets old))
           else String.eqb (key_of_ref (pr_CurrentRef old)) "" ||
                negb (String.eqb (key_of_ref (pr_CurrentRef old)) (key_of_ref (pr_CurrentRef rec))) ||
                negb (newerPatch (pr_CandidateTag old) (pr_CandidateTag rec)) || negb (is_cons (pr_FixTargets old)))
  then false
  else forallb inherits (pr_FixTargets old).

(** What the new record says it resolves. *)
Definition inherits_of (rec : PRRecord) : FixTarget → bool :=
  if String.eqb (kindOf (pr_Kind rec)) prKindLanguage then
    let have : gset string := list_to_set (FixTarget_key <$> pr_FixTargets rec) in
    λ f, bool_decide (FixTarget_key f ∈ have)
  else
    let ev := default (mk_verification_summary "" [] "" []) (pr_Evidence rec) in
    if String.eqb (kindOf (pr_Kind rec)) prKindDockerfile then
      let resolved := resolvedEntitiesFromEvidence ev in
      λ f, let have := default ∅ (resolved !! FixTarget_key f) in
           match ft_Entities f with
           | [] => negb (bool_decide (have = ∅))
           | l => forallb (λ e, bool_decide (e ∈ have)) l
           end
    else
      let resolved := resolvedFromEvidence ev in
      λ f, bool_decide (FixTarget_key f ∈ resolved).

(** The loop of [decideReplacements] over the records. *)
Fixpoint decide_loop (ri : nat) (inherits : FixTarget → bool) (l : list nat) (changed : bool) : stage bool :=
  match l with
  | [] => mret changed
  | i :: l' =>
      f ← ask ru_file;
      let rec := nth ri (fl_PRs f) zero_pr in
      let old := nth i (fl_PRs f) zero_pr in
      if negb (replaceable (i =? ri) rec old inherits) || replacementOf f old then decide_loop ri inherits l' changed
      else
        _ ← set_record ri (λ rec, rec <| pr_Replacing := pr_Replacing rec ++ [mk_replacement (pr_Number old) ReplacementPending "" ""] |>);
        decide_loop ri inherits l' true
  end.

Definition decideReplacements (ri : nat) : stage unit :=
  rec ← record_at ri;
  blocked ← ask (λ r, targetBlocked r (pr_RepoID rec) (pr_TargetKey rec));
  if pr_UserModified rec || pr_MarkerOnly rec || negb (String.eqb (pr_State rec) PRStateOpen) ||
     (negb (is_some_b (pr_Evidence rec)) && negb (is_some_b (pr_Lang rec))) || blocked
  then mret tt
  else
    n ← ask (λ r, length (fl_PRs (ru_file r)));
    changed ← decide_loop ri (inherits_of rec) (seq 0 n) false;
    if (changed : bool) then _ ← save; mret tt else mret tt.

(** ** Reconciliation (pr_reconcile.go) *)

Definition loadRepo (i : nat) : stage unit :=
  a ← active;
  if negb a then
    d ← ask inactiveDetail;
    set_repo i (λ rs, rs <| rt_blocked := fst d |> <| rt_blockedDetail := snd d |>)
  else
    rs ← repo_at i;
    x ← call (Repository (rt_name rs));
    match x with
    | inr e =>
        halted ← haltFor (plain e);
        if (halted : bool) then
          d ← ask inactiveDetail;
          set_repo i (λ rs, rs <| rt_blocked := fst d |> <| rt_blockedDetail := snd d |>)
        else blockRepo i PRProblemWriteBlocked ReasonReconcileFailed ("the repository could not be read: " +:+ gh_Error e)
    | inl info =>
        _ ← set_repo i (λ rs, rs <| rt_info := info |>);
        if negb (equal_fold (gi_FullName info) (rt_name rs))
        then blockRepo i PRProblemWriteBlocked ReasonRepositoryMismatch
               ("GitHub names the repository " +:+ gi_FullName info +:+ "; update the configuration to that name")
        else
          f ← ask ru_file;
          _ ← (fix go (l : list RepoInit) : stage unit :=
                 match l with
                 | [] => mret tt
                 | ri :: l' =>
                     _ ← (if equal_fold (ri_Repo ri) (rt_name rs) && negb (ri_RepoID ri =? gi_ID info)%Z
                          then blockRepo i PRProblemWriteBlocked ReasonRepositoryMismatch
                                 ("the repository's ID is " +:+ signed_itoa (gi_ID info) +:+ ", the records were made for ID " +:+ signed_itoa (ri_RepoID ri))
                          else mret tt);
                     go l'
                 end) (fl_Repos f);
          set_repo i (λ rs, if String.eqb (rt_blocked rs) "" then rs <| rt_ok := true |> else rs)
    end.

(** [for] over positions fixed at the start. *)
Fixpoint for_each (body : nat → stage unit) (l : list nat) : stage unit :=
  match l with
  | [] => mret tt
  | i :: l' => _ ← body i; for_each body l'
  end.

Definition all_repos : stage (list nat) := ask (λ r, seq 0 (length (ru_repos r))).

Definition loadRepos : stage unit := l ← all_repos; for_each loadRepo l.

Definition verifiedMarker (rs : repoState) (pr : PullRequest) : PRMarker + string :=
  match parsePRMarker (gp_Body pr) with
  | inr e => inr (markerError_text e)
  | inl m =>
      match verify m (gi_ID (rt_info rs)) with
      | Some e => inr (markerError_text e)
      | None =>
          if branchMatches m (gp_HeadRef pr) then inl m
          else inr ("head branch " +:+ gp_HeadRef pr +:+ " is not the marker's attempt")
      end
  end.

Definition recordFromPull (rs : repoState) (pr : PullRequest) (m : PRMarker) : PRRecord :=
  fst (markModified
    (mk_pr_record (rt_name rs) (gi_ID (rt_info rs)) (kindOf (mk_Kind m)) (mk_TargetKey m) (mk_UpdateKey m) (mk_AttemptKey m)
      (gp_HeadRef pr) (gp_Number pr) (gp_HTMLURL pr) (mk_BaseBranch m) (mk_BaseSHA m) (mk_HeadSHA m) (mk_Path m)
      (sortedCopy (mk_Locations m)) (pullState pr) 0 0 false "" (mk_FixTargets m) [] (mk_CurrentRef m)
      (mk_CandidateTag m) (mk_CandidateDigest m) (mk_Affected m) [] true true None (mk_Lang m)) pr).

(** The number the comments of a closed pull request name, the last one. *)
Definition superseded_in (cs : list string) : Z :=
  foldl (λ n c, let m := supersededByIn c in if (0 <? m)%Z then m else n) 0%Z cs.

Fixpoint recover_pulls (rs : repoState) (l : list PullRequest) (out : list PRRecord) : stage (list PRRecord + string) :=
  match l with
  | [] => mret (inl out)
  | pr :: l' =>
      if negb (ours rs pr) then recover_pulls rs l' out
      else if negb (gp_BaseRepoID pr =? gi_ID (rt_info rs))%Z
      then mret (inr ("pull request #" +:+ signed_itoa (gp_Number pr) +:+ " merges into repository ID " +:+
             signed_itoa (gp_BaseRepoID pr) +:+ ", not " +:+ signed_itoa (gi_ID (rt_info rs))))
      else
        match verifiedMarker rs pr with
        | inr e => mret (inr ("pull request #" +:+ signed_itoa (gp_Number pr) +:+ ": " +:+ e))
        | inl m =>
            let rec := recordFromPull rs pr m in
            if String.eqb (pr_State rec) PRStateClosed then
              cs ← listComments rs (gp_Number pr);
              match cs with
              | inl cs =>
                  let n := superseded_in cs in
                  recover_pulls rs l' (out ++ [if (0 <? n)%Z then rec <| pr_SupersededBy := n |> else rec])
              | inr e => _ ← haltFor e; recover_pulls rs l' (out ++ [rec])
              end
            else recover_pulls rs l' (out ++ [rec])
        end
  end.

Definition recoverRepo (i : nat) : stage (list PRRecord + string) :=
  a ← active;
  if negb a then d ← ask inactiveDetail; mret (inr (snd d))
  else
    rs ← repo_at i;
    pulls ← listPulls rs "all" "";
    match pulls with
    | inr e => _ ← haltFor e; mret (inr ("listing pull requests: " +:+ se_text e))
    | inl pulls => recover_pulls rs pulls []
    end.

(** The loop of [recoverAll]: the records and repositories, or the failure. *)
Fixpoint recover_loop (l : list nat) (all : list PRRecord) (inits : list RepoInit)
    : stage (list PRRecord * list RepoInit + string) :=
  match l with
  | [] => mret (inl (all, inits))
  | i :: l' =>
      rs ← repo_at i;
      if negb (rt_ok rs)
      then mret (inr (rt_name rs +:+ ": " +:+ orDefault (rt_blockedDetail rs) "the repository could not be read"))
      else
        x ← recoverRepo i;
        match x with
        | inr e => mret (inr (rt_name rs +:+ ": " +:+ e))
        | inl recs => recover_loop l' (all ++ recs) (inits ++ [mk_repo_init (rt_name rs) (gi_ID (rt_info rs))])
        end
  end.

Definition recoverAll : stage unit :=
  l ← all_repos;
  x ← recover_loop l [] [];
  match x with
  | inr fail =>
      let detail := "the pull request records are missing and could not be rebuilt from GitHub: " +:+ fail in
      _ ← change (λ r, r <| ru_repos := (λ rs, if String.eqb (rt_blocked rs) ""
                              then rs <| rt_blocked := ReasonRecordsUnverified |> <| rt_blockedDetail := detail |> else rs) <$> ru_repos r |>);
      problem (mk_problem PRProblemRecordsUnverified "" "" ReasonRecordsUnverified detail)
  | inl (all, inits) =>
      _ ← on_file (λ f, f <| fl_PRs := all |> <| fl_Repos := inits |>);
      _ ← save; mret tt
  end.

(** The records that are not known yet are added. *)
Definition add_unknown (f : PRStoreFile) (rec : PRRecord) : PRStoreFile :=
  match recordByNumber f (pr_RepoID rec) (pr_Number rec) with
  | Some _ => f
  | None => f <| fl_PRs := fl_PRs f ++ [rec] |>
  end.

Fixpoint init_added (l : list nat) : stage unit :=
  match l with
  | [] => mret tt
  | i :: l' =>
      rs ← repo_at i;
      f ← ask ru_file;
      if negb (rt_ok rs) || existsb (λ ri, equal_fold (ri_Repo ri) (rt_name rs)) (fl_Repos f) then init_added l'
      else
        x ← recoverRepo i;
        match x with
        | inr e =>
            _ ← set_repo i (λ rs, rs <| rt_ok := false |>);
            _ ← blockRepo i PRProblemRecordsUnverified ReasonRecordsUnverified ("the repository's pull requests could not be verified: " +:+ e);
            init_added l'
        | inl recs =>
            _ ← on_file (λ f, foldl add_unknown f recs);
            _ ← on_file (λ f, f <| fl_Repos := fl_Repos f ++ [mk_repo_init (rt_name rs) (gi_ID (rt_info rs))] |>);
            ok ← save;
            if (ok : bool) then init_added l' else mret tt
        end
  end.

Definition initAddedRepos : stage unit := l ← all_repos; init_added l.

(** The record of a pull request found for an attempt. *)
Definition record_for_attempt (a : AttemptRecord) (pr : PullRequest) : PRRecord :=
  let rec := fst (markModified (recordFromAttempt a pr) pr) in
  let foreign :=
    match parsePRMarker (gp_Body pr) with
    | inr _ => true
    | inl m =>
        negb (String.eqb (mk_UpdateKey m) (at_UpdateKey a)) || negb (String.eqb (mk_AttemptKey m) (at_AttemptKey a)) ||
        negb (String.eqb (mk_HeadSHA m) (at_CommitSHA a)) || negb (String.eqb (mk_BaseSHA m) (at_BaseSHA a)) ||
        negb (mk_RepoID m =? at_RepoID a)%Z
    end in
  let rec :=
    if negb (pr_UserModified rec) && foreign
    then rec <| pr_UserModified := true |> <| pr_ModifiedReason := "the description no longer carries this attempt's marker" |>
    else rec in
  if negb (pr_UserModified rec) && String.eqb (at_CommitSHA a) ""
  then rec <| pr_UserModified := true |> <| pr_ModifiedReason := "the attempt recorded no commit" |>
  else rec.

Definition record_pulls (repoID : Z) (a : AttemptRecord) (pulls : list PullRequest) (f : PRStoreFile) : PRStoreFile :=
  foldl (λ f pr, match recordByNumber f repoID (gp_Number pr) with
                 | Some _ => f
                 | None => f <| fl_PRs := fl_PRs f ++ [record_for_attempt a pr] |>
                 end) f pulls.

Definition many_text (pulls : list PullRequest) (branch : string) : string :=
  signed_itoa (Z.of_nat (length pulls)) +:+ " pull requests exist for branch " +:+ branch.

(** Every one of several pull requests is kept as changed by someone else. *)
Definition distrust_pulls (repoID : Z) (why : string) (pulls : list PullRequest) (f : PRStoreFile) : PRStoreFile :=
  foldl (λ f pr, match recordByNumber f repoID (gp_Number pr) with
                 | Some i =>
                     f <| fl_PRs := alter (λ rec, if pr_UserModified rec then rec
                            else rec <| pr_UserModified := true |> <| pr_ModifiedReason := why |>) i (fl_PRs f) |>
                 | None => f
                 end) f pulls.

Definition settleAttemptPulls (i ai : nat) (pulls : list PullRequest) : stage unit :=
  rs ← repo_at i;
  a ← attempt_at ai;
  let id := gi_ID (rt_info rs) in
  _ ← on_file (record_pulls id a pulls);
  match pulls with
  | [pr] =>
      _ ← settle (at_PendingOp a) ResultOK
            ("pull request #" +:+ signed_itoa (gp_Number pr) +:+ " exists for branch " +:+ at_Branch a);
      _ ← set_attempt ai (λ a, a <| at_Status := AttemptPRCreated |> <| at_PRNumber := gp_Number pr |> <| at_PendingOp := "" |> <| at_Detail := "" |>);
      f ← ask ru_file;
      match recordByNumber f id (gp_Number pr) with
      | Some ri =>
          let rec := nth ri (fl_PRs f) zero_pr in
          if pr_UserModified rec then set_attempt ai (λ a, a <| at_Detail := pr_ModifiedReason rec |>) else mret tt
      | None => mret tt
      end
  | [] => mret tt
  | _ =>
      let why := many_text pulls (at_Branch a) in
      _ ← on_file (distrust_pulls id why pulls);
      _ ← set_attempt ai (λ a, a <| at_Status := AttemptBlocked |> <| at_Detail := why |>);
      blockTarget i a ReasonAttemptUnsettled why
  end.

(** [false] when GitHub could not be read. *)
Definition reconcileAttempt (i ai : nat) : stage bool :=
  rs ← repo_at i;
  a ← attempt_at ai;
  pulls ← listPulls rs "all" (owner rs +:+ ":" +:+ at_Branch a);
  match pulls with
  | inr e =>
      halted ← haltFor e;
      _ ← (if (halted : bool) then mret tt
           else blockTarget i a ReasonReconcileFailed ("the pull requests of branch " +:+ at_Branch a +:+ " could not be listed: " +:+ se_text e));
      mret false
  | inl pulls =>
      match branchPulls rs pulls (at_Branch a) with
      | (_ :: _) as l => _ ← settleAttemptPulls i ai l; mret true
      | [] =>
          x ← call (Ref (rt_name rs) (at_Branch a));
          match x with
          | inr e =>
              halted ← haltFor (plain e);
              _ ← (if (halted : bool) then mret tt
                   else blockTarget i a ReasonReconcileFailed ("branch " +:+ at_Branch a +:+ " could not be read: " +:+ gh_Error e));
              mret false
          | inl None =>
              f ← ask ru_file;
              let k := opKind f (at_PendingOp a) in
              _ ← (if String.eqb k OpCreateRef || String.eqb k OpCreatePull
                   then settle (at_PendingOp a) ResultFailed ("branch " +:+ at_Branch a +:+ " does not exist and no pull request was opened from it")
                   else settle (at_PendingOp a) ResultUnknown "not determinable; any object it stored is unused and the attempt starts again");
              _ ← set_attempt ai (λ a, a <| at_Status := AttemptAbandoned |> <| at_Detail := "no branch and no pull request exist" |> <| at_PendingOp := "" |>);
              mret true
          | inl (Some sha) =>
              if not_empty (at_CommitSHA a) && String.eqb sha (at_CommitSHA a) then
                _ ← (if String.eqb (at_Status a) AttemptPRRequested
                     then settle (at_PendingOp a) ResultFailed ("no pull request exists for branch " +:+ at_Branch a)
                     else settle (at_PendingOp a) ResultOK ("branch " +:+ at_Branch a +:+ " points at " +:+ sha));
                _ ← set_attempt ai (λ a, a <| at_Status := AttemptRefCreated |> <| at_Detail := "" |> <| at_PendingOp := "" |>);
                _ ← set_repo i (λ rs, rs <| rt_resumable := {[at_AttemptKey a]} ∪ rt_resumable rs |>);
                mret true
              else
                let why := "branch " +:+ at_Branch a +:+ " points at " +:+ sha +:+ ", not the attempt's commit" in
                _ ← set_attempt ai (λ a, a <| at_Status := AttemptBlocked |> <| at_Detail := why |>);
                _ ← blockTarget i a ReasonBranchNotOurs why;
                mret true
          end
      end
  end.

(** This replacement's comment on the old pull request. *)
Definition findSupersede (rs : repoState) (rec : PRRecord) (oldNumber : Z) : stage (bool + stageErr) :=
  cs ← listComments rs oldNumber;
  mret (match cs with
        | inr e => inr e
        | inl cs => inl (existsb (λ c, hasSupersedeMarker c (pr_Number rec) (pr_UpdateKey rec)) cs)
        end).

Definition number_text (n : Z) : string := "#" +:+ signed_itoa n.

(** Finds out the outcome of a close whose answer was lost; [false] when
    GitHub could not be read. *)
Definition settleClose (i ri j : nat) : stage bool :=
  rs ← repo_at i;
  rec ← record_at ri;
  rp ← replacement_at ri j;
  f ← ask ru_file;
  match recordByNumber f (pr_RepoID rec) (rp_OldNumber rp) with
  | None =>
      _ ← set_replacement ri j (λ rp, rp <| rp_State := ReplacementAbandoned |> <| rp_Detail := "the old pull request is not in the records" |>);
      mret true
  | Some oi =>
      let old := nth oi (fl_PRs f) zero_pr in
      x ← call (Pull (rt_name rs) (pr_Number old));
      match x with
      | inr e => _ ← haltFor (plain e); mret false
      | inl pr =>
          if String.eqb (pullState pr) PRStateMerged then
            _ ← settle (rp_PendingOp rp) ResultFailed (number_text (pr_Number old) +:+ " was merged");
            _ ← set_record oi (λ old, old <| pr_State := PRStateMerged |>);
            _ ← set_replacement ri j (λ rp, rp <| rp_State := ReplacementAbandoned |> <| rp_PendingOp := "" |> <| rp_Detail := "merged" |>);
            mret true
          else if String.eqb (pullState pr) PRStateClosed then
            found ← findSupersede rs rec (pr_Number old);
            match found with
            | inr e => _ ← haltFor e; mret false
            | inl found =>
                _ ← settle (rp_PendingOp rp) ResultOK (number_text (pr_Number old) +:+ " is closed");
                _ ← set_record oi (λ old, if (found : bool)
                      then old <| pr_State := PRStateReplaced |> <| pr_ReplacedBy := pr_Number rec |>
                      else old <| pr_State := PRStateClosed |> <| pr_SupersededBy := pr_Number rec |>);
                _ ← set_replacement ri j (λ rp, rp <| rp_State := ReplacementDone |> <| rp_PendingOp := "" |> <| rp_Detail := "" |>);
                mret true
            end
          else
            _ ← settle (rp_PendingOp rp) ResultFailed (number_text (pr_Number old) +:+ " is still open");
            _ ← set_replacement ri j (λ rp, rp <| rp_State := ReplacementCommented |> <| rp_PendingOp := "" |>);
            mret true
      end
  end.

(** *** One repository *)

Definition fail_repo (i : nat) (e : stageErr) : stage unit :=
  halted ← haltFor e;
  if (halted : bool) then
    d ← ask inactiveDetail;
    set_repo i (λ rs, rs <| rt_blocked := fst d |> <| rt_blockedDetail := snd d |>)
  else blockRepo i PRProblemWriteBlocked ReasonReconcileFailed (se_text e).

(** A failure that was not an error: the stage stopped, or the reason given. *)
Definition block_or_halt (i : nat) (detail : string) : stage unit :=
  r ← ask id;
  match ru_halt r with
  | Some h => set_repo i (λ rs, rs <| rt_blocked := hl_reason h |> <| rt_blockedDetail := hl_detail h |>)
  | None => blockRepo i PRProblemWriteBlocked ReasonReconcileFailed detail
  end.

Definition see_open (pr : PullRequest) (rec : PRRecord) : PRRecord := fst (markModified (rec <| pr_State := PRStateOpen |>) pr).
Definition see_state (pr : PullRequest) (rec : PRRecord) : PRRecord := fst (markModified (rec <| pr_State := pullState pr |>) pr).

(** An open pull request of this tool that is not in the records and whose
    marker verified. *)
Definition adopt_open (i : nat) (pr : PullRequest) (m : PRMarker) : stage unit :=
  rs ← repo_at i;
  f ← ask ru_file;
  let a := match attempt_index f (mk_AttemptKey m) with Some ai => nth_error (fl_Attempts f) ai | None => None end in
  match a with
  | Some a =>
      if (at_RepoID a =? gi_ID (rt_info rs))%Z then
        if negb (settled (at_Status a)) && String.eqb (gp_HeadRef pr) (at_Branch a) then mret tt
        else
          let '(rec, marked) := markModified (recordFromAttempt a pr) pr in
          add_record (if (marked : bool) then rec
            else rec <| pr_UserModified := true |> <| pr_ModifiedReason := "a pull request on the attempt's branch that this tool did not open" |>)
      else add_record (recordFromPull rs pr m)
  | None => add_record (recordFromPull rs pr m)
  end.

(** The loop over the open pull requests: the numbers seen, or [None] when the
    repository is blocked. *)
Fixpoint open_loop (i : nat) (l : list PullRequest) (seen : list Z) : stage (option (list Z)) :=
  match l with
  | [] => mret (Some seen)
  | pr :: l' =>
      rs ← repo_at i;
      if negb (ours rs pr) then open_loop i l' seen
      else
        let seen := gp_Number pr :: seen in
        f ← ask ru_file;
        match recordByNumber f (gi_ID (rt_info rs)) (gp_Number pr) with
        | Some ri => _ ← set_record ri (see_open pr); open_loop i l' seen
        | None =>
            match verifiedMarker rs pr with
            | inr e =>
                _ ← blockRepo i PRProblemRecordsUnverified ReasonRecordsUnverified
                      ("open pull request " +:+ number_text (gp_Number pr) +:+ " on " +:+ gp_HeadRef pr +:+
                       " is not in the records and cannot be verified: " +:+ e);
                mret None
            | inl m => _ ← adopt_open i pr m; open_loop i l' seen
            end
        end
  end.

(** The loop over the records that are open in the store; [false] when it
    returned. *)
Fixpoint stored_loop (i : nat) (seen : list Z) (l : list nat) : stage bool :=
  match l with
  | [] => mret true
  | ri :: l' =>
      rs ← repo_at i;
      rec ← record_at ri;
      if negb (pr_RepoID rec =? gi_ID (rt_info rs))%Z || negb (String.eqb (pr_State rec) PRStateOpen) ||
         existsb (Z.eqb (pr_Number rec)) seen
      then stored_loop i seen l'
      else
        x ← call (Pull (rt_name rs) (pr_Number rec));
        match x with
        | inr e =>
            _ ← fail_repo i (wrap ("reading pull request " +:+ number_text (pr_Number rec) +:+ ": ") (plain e));
            _ ← save;
            mret false
        | inl pr => _ ← set_record ri (see_state pr); stored_loop i seen l'
        end
  end.

Fixpoint attempts_loop (i : nat) (l : list nat) : stage bool :=
  match l with
  | [] => mret true
  | ai :: l' =>
      rs ← repo_at i;
      a ← attempt_at ai;
      if negb (at_RepoID a =? gi_ID (rt_info rs))%Z || settled (at_Status a) then attempts_loop i l'
      else
        ok ← reconcileAttempt i ai;
        if negb ok then
          _ ← block_or_halt i ("attempt on branch " +:+ at_Branch a +:+ " could not be checked");
          _ ← save;
          mret false
        else
          ok ← save;
          if (ok : bool) then attempts_loop i l' else mret false
  end.

(** The inner loop over one record's replacements. *)
Fixpoint closes_of (i ri : nat) (l : list nat) : stage bool :=
  match l with
  | [] => mret true
  | j :: l' =>
      rp ← replacement_at ri j;
      if negb (String.eqb (rp_State rp) ReplacementClosed) then closes_of i ri l'
      else
        ok ← settleClose i ri j;
        if (ok : bool) then closes_of i ri l'
        else
          rp ← replacement_at ri j;
          _ ← block_or_halt i ("the close of pull request " +:+ number_text (rp_OldNumber rp) +:+ " could not be settled");
          _ ← save;
          mret false
  end.

Fixpoint closes_loop (i : nat) (l : list nat) : stage bool :=
  match l with
  | [] => mret true
  | ri :: l' =>
      rs ← repo_at i;
      rec ← record_at ri;
      if negb (pr_RepoID rec =? gi_ID (rt_info rs))%Z then closes_loop i l'
      else
        ok ← closes_of i ri (seq 0 (length (pr_Replacing rec)));
        if (ok : bool) then closes_loop i l' else mret false
  end.

Definition reconcileRepo (i : nat) : stage unit :=
  rs ← repo_at i;
  if negb (rt_ok rs) || not_empty (rt_blocked rs) then mret tt
  else
    a ← active;
    if negb a then mret tt
    else
      pulls ← listPulls rs "open" "";
      match pulls with
      | inr e => fail_repo i (wrap "listing open pull requests: " e)
      | inl pulls =>
          seen ← open_loop i pulls [];
          match seen with
          | None => mret tt
          | Some seen =>
              n ← ask (λ r, length (fl_PRs (ru_file r)));
              ok ← stored_loop i seen (seq 0 n);
              if negb ok then mret tt
              else
                ok ← save;
                if negb ok then mret tt
                else
                  n ← ask (λ r, length (fl_Attempts (ru_file r)));
                  ok ← attempts_loop i (seq 0 n);
                  if negb ok then mret tt
                  else
                    n ← ask (λ r, length (fl_PRs (ru_file r)));
                    ok ← closes_loop i (seq 0 n);
                    if negb ok then mret tt
                    else
                      ok ← save;
                      if (ok : bool) then set_repo i (λ rs, rs <| rt_reconciled := true |>) else mret tt
          end
      end.

(** ** Building and opening (pr_stage.go) *)

(** [step]: one write of [buildCommit]; [None] when the unit is finished. *)
Definition build_step (i ai : nat) (kind intent : string) (q : request) (ref : option (answer q) → string)
    : stage (option (answer q)) :=
  rs ← repo_at i;
  a ← attempt_at ai;
  x ← write (zero_event <| ev_Kind := kind |> <| ev_Repo := rt_name rs |> <| ev_AttemptKey := at_AttemptKey a |> <| ev_Intent := intent |>) q ref;
  match snd x with
  | inl ans => mret (Some ans)
  | inr e =>
      _ ← (if is_unknown e then _ ← set_attempt ai (λ a, a <| at_PendingOp := fst x |>); _ ← save; mret tt else mret tt);
      _ ← writeFailure kind e;
      mret None
  end.

Definition advance (ai : nat) (st : string) : stage bool :=
  _ ← set_attempt ai (λ a, a <| at_Status := st |>);
  ok ← save;
  if (ok : bool) then mret true else _ ← stop_status; mret false.

Definition or_empty {A} (f : A → string) (x : option A) : string := match x with Some a => f a | None => "" end.

(** The loop over the files: the entries of the tree, [None] when the unit is
    finished. *)
Fixpoint blobs_loop (i ai : nat) (contents : gmap string string) (l : list FileChange) (entries : list TreeEntry)
    : stage (option (list TreeEntry)) :=
  match l with
  | [] => mret (Some entries)
  | fc :: l' =>
      rs ← repo_at i;
      x ← build_step i ai OpCreateBlob ("store the edited " +:+ fc_Path fc +:+ " as blob " +:+ fc_BlobSHA fc)
            (CreateBlob (rt_name rs) (default "" (contents !! fc_Path fc))) (or_empty id);
      match x with
      | None => mret None
      | Some _ => blobs_loop i ai contents l' (entries ++ [mk_tree_entry (fc_Path fc) (fc_Mode fc) (fc_BlobSHA fc)])
      end
  end.

(** The branch of an attempt whose name is taken: whether it is the attempt's
    at the commit it now has. *)
Definition existing_branch (i ai : nat) (opID commit : string) (recorded : bool) : stage bool :=
  rs ← repo_at i;
  a ← attempt_at ai;
  x ← call (Ref (rt_name rs) (at_Branch a));
  match x with
  | inr e => _ ← readFailure "read the existing branch" (plain e); mret false
  | inl found =>
      y ← match found with
          | Some sha =>
              if negb (String.eqb sha commit) && negb recorded then
                z ← call (Commit (rt_name rs) sha);
                match z with
                | inr e => _ ← readFailure "read the existing branch's commit" (plain e); mret None
                | inl bc =>
                    if bool_decide (gc_Parents bc = [at_BaseSHA a]) && String.eqb (gc_Tree bc) (at_TreeSHA a) then
                      _ ← set_attempt ai (λ a, a <| at_CommitSHA := sha |>);
                      _ ← settle opID ResultOK ("branch " +:+ at_Branch a +:+ " already holds the same change at " +:+ sha +:+ "; that commit is adopted");
                      _ ← on_file (λ f, f <| fl_Operations := alter (λ ev, ev <| ev_Ref := sha |>) (length (fl_Operations f) - 1) (fl_Operations f) |>);
                      mret (Some sha)
                    else mret (Some commit)
                end
              else mret (Some commit)
          | None => mret (Some commit)
          end;
      match y with
      | None => mret false
      | Some commit =>
          if match found with Some sha => String.eqb sha commit | None => false end then mret true
          else
            let why := "branch " +:+ at_Branch a +:+ " exists and does not point at the attempt's commit" in
            _ ← set_attempt ai (λ a, a <| at_Status := AttemptBlocked |> <| at_Detail := why |>);
            _ ← blockTarget i a ReasonBranchNotOurs why;
            _ ← save;
            _ ← set_status PRStatusWriteBlocked ReasonBranchNotOurs why;
            mret false
      end
  end.

Definition create_ref (i ai : nat) (commit : string) (recorded : bool) : stage bool :=
  rs ← repo_at i;
  a ← attempt_at ai;
  x ← write (zero_event <| ev_Kind := OpCreateRef |> <| ev_Repo := rt_name rs |> <| ev_AttemptKey := at_AttemptKey a |>
               <| ev_Ref := at_Branch a |> <| ev_Intent := "create branch " +:+ at_Branch a +:+ " at " +:+ commit |>)
        (CreateRef (rt_name rs) (at_Branch a) commit) (λ _, at_Branch a);
  match snd x with
  | inl _ => advance ai AttemptRefCreated
  | inr e =>
      if match e with Failed e => gh_is ErrRefExists e | WritesStopped => false end then
        ok ← existing_branch i ai (fst x) commit recorded;
        if (ok : bool) then advance ai AttemptRefCreated else mret false
      else
        _ ← (if is_unknown e then _ ← set_attempt ai (λ a, a <| at_PendingOp := fst x |>); _ ← save; mret tt else mret tt);
        _ ← writeFailure OpCreateRef e;
        mret false
  end.

Definition buildCommit (i ai : nat) (baseTree : string) (contents : gmap string string) (recorded : bool) : stage bool :=
  ok ← advance ai AttemptIntent;
  if negb ok then mret false
  else
    a ← attempt_at ai;
    rs ← repo_at i;
    entries ← blobs_loop i ai contents (fileChanges a) [];
    match entries with
    | None => mret false
    | Some entries =>
        ok ← advance ai AttemptBlobCreated;
        if negb ok then mret false
        else
          tree ← build_step i ai OpCreateTree ("create a tree on base " +:+ at_BaseSHA a +:+ " with " +:+ join ", " (te_Path <$> entries) +:+ " changed")
                   (CreateTree (rt_name rs) baseTree entries) (or_empty id);
          match tree with
          | None => mret false
          | Some tree =>
              _ ← set_attempt ai (λ a, a <| at_TreeSHA := tree |>);
              ok ← advance ai AttemptTreeCreated;
              if negb ok then mret false
              else
                commit ← build_step i ai OpCreateCommit ("create a commit of tree " +:+ tree +:+ " on " +:+ at_BaseSHA a)
                           (CreateCommit (rt_name rs) (composeUnitTitle (repoOfRef (at_CurrentRef a)) (at_CandidateTag a) (at_Path a)) tree [at_BaseSHA a])
                           (or_empty id);
                match commit with
                | None => mret false
                | Some commit =>
                    _ ← set_attempt ai (λ a, a <| at_CommitSHA := commit |>);
                    ok ← advance ai AttemptCommitCreated;
                    if (ok : bool) then create_ref i ai commit recorded else mret false
                end
          end
    end.

Definition maxMarkerWithLayers : nat := 20000.

Definition marker_of (a : AttemptRecord) : PRMarker :=
  let targets := (λ f, mk_fix_target (ft_Location f) (ft_VulnID f) (ft_Package f) (ft_Layers f) (ft_LayersDigest f) []) <$> at_FixTargets a in
  let m := mk_marker markerV (at_Kind a) (at_RepoID a) (at_BaseBranch a) (at_Path a) (at_Locations a) (at_CurrentRef a)
             (at_CandidateTag a) (at_CandidateDigest a) (at_BaseSHA a) (at_CommitSHA a) (at_InputSHA a) (fileChanges a)
             (at_TargetKey a) (at_UpdateKey a) (at_AttemptKey a) targets (at_Lang a) (at_Affected a) in
  if maxMarkerWithLayers <? slen (encodeMarker m)
  then mk_marker (mk_V m) (mk_Kind m) (mk_RepoID m) (mk_BaseBranch m) (mk_Path m) (mk_Locations m) (mk_CurrentRef m)
         (mk_CandidateTag m) (mk_CandidateDigest m) (mk_BaseSHA m) (mk_HeadSHA m) (mk_InputBlobSHA m) (mk_Changes m)
         (mk_TargetKey m) (mk_UpdateKey m) (mk_AttemptKey m)
         ((λ f, mk_fix_target (ft_Location f) (ft_VulnID f) (ft_Package f) [] (layerSetKey f) []) <$> targets)
         (mk_Lang m) (mk_Affected m)
  else m.

(** The record of the pull request just opened: its answer must show it as
    requested. *)
Definition opened_record (rs : repoState) (a : AttemptRecord) (pr : PullRequest) : PRRecord :=
  let rec := recordFromAttempt a pr in
  let mark why := rec <| pr_UserModified := true |> <| pr_ModifiedReason := why |> in
  if negb (String.eqb (gp_HeadSHA pr) (at_CommitSHA a)) then mark "the new pull request's head is not the attempt's commit"
  else if negb (String.eqb (gp_BaseRef pr) (at_BaseBranch a)) then mark ("the new pull request's base is not " +:+ at_BaseBranch a)
  else if negb (String.eqb (gp_HeadRef pr) (at_Branch a)) || negb (equal_fold (gp_HeadRepoFullName pr) (gi_FullName (rt_info rs)))
  then mark "the new pull request's head is not the attempt's branch"
  else if negb (gp_BaseRepoID pr =? gi_ID (rt_info rs))%Z
  then mark ("the new pull request merges into repository ID " +:+ signed_itoa (gp_BaseRepoID pr) +:+ ", not " +:+ signed_itoa (gi_ID (rt_info rs)))
  else rec.

(** [writePull] and what follows it. *)
Definition send_pull (i ai : nat) (title body : string) : stage unit :=
  rs ← repo_at i;
  _ ← set_attempt ai (λ a, a <| at_Status := AttemptPRRequested |>);
  a ← attempt_at ai;
  x ← write (zero_event <| ev_Kind := OpCreatePull |> <| ev_Repo := rt_name rs |> <| ev_AttemptKey := at_AttemptKey a |>
               <| ev_Intent := "open a pull request from " +:+ at_Branch a +:+ " into " +:+ at_BaseBranch a |>)
        (CreatePull (rt_name rs) (mk_new_pull title body (at_Branch a) (at_BaseBranch a)))
        (or_empty (λ pr : PullRequest, number_text (gp_Number pr)));
  match snd x with
  | inr e =>
      _ ← (if is_unknown e then set_attempt ai (λ a, a <| at_PendingOp := fst x |>)
           else set_attempt ai (λ a, a <| at_Status := AttemptRefCreated |>));
      _ ← save;
      writeFailure OpCreatePull e
  | inl pr =>
      _ ← change (λ r, r <| ru_newPRs := (ru_newPRs r + 1)%Z |>);
      let rec := opened_record rs a pr in
      _ ← add_record rec;
      _ ← set_attempt ai (λ a, a <| at_Status := AttemptPRCreated |> <| at_PRNumber := gp_Number pr |> <| at_PendingOp := "" |>);
      ok ← save;
      if negb ok then
        set_status PRStatusCreated ReasonStorageFailed ("pull request " +:+ number_text (gp_Number pr) +:+ " was opened but could not be recorded; the next cycle adopts it")
      else
        _ ← set_status PRStatusCreated "" "";
        if pr_UserModified rec then change (λ r, r <| ru_view := ru_view r <| vu_Detail := pr_ModifiedReason rec |> |>)
        else
          f ← ask ru_file;
          match recordByNumber f (pr_RepoID rec) (pr_Number rec) with
          | Some ri => decideReplacements ri
          | None => mret tt
          end
  end.

(** A pull request of the branch exists already. *)
Definition found_pulls (c : unitCtx) (ai : nat) (pulls : list PullRequest) : stage unit :=
  _ ← settleAttemptPulls (uc_rs c) ai pulls;
  _ ← save;
  f ← ask ru_file;
  a ← attempt_at ai;
  match recordByUpdateKey f (uc_updateKey c) with
  | Some ri =>
      if String.eqb (at_Status a) AttemptPRCreated then
        let rec := nth ri (fl_PRs f) zero_pr in
        if String.eqb (pr_State rec) PRStateOpen then set_status PRStatusOpen "" ""
        else set_status PRStatusSuppressed "" ("pull request " +:+ number_text (pr_Number rec) +:+ " was " +:+ pr_State rec)
      else set_status PRStatusWriteBlocked ReasonAttemptUnsettled (at_Detail a)
  | None => set_status PRStatusWriteBlocked ReasonAttemptUnsettled (at_Detail a)
  end.

Definition openPull (c : unitCtx) (ai : nat) (imageRepo : string) (changes : list Change) : stage unit :=
  let i := uc_rs c in
  let u := uc_u c in
  rs ← repo_at i;
  a ← attempt_at ai;
  base ← call (ResolveBranch (rt_name rs) (at_BaseBranch a));
  match base with
  | inr e => readFailure "resolve the base branch" (plain e)
  | inl base =>
      if negb (String.eqb base (at_BaseSHA a))
      then set_status PRStatusDeferred ReasonBaseMoved
             (at_BaseBranch a +:+ " moved from " +:+ at_BaseSHA a +:+ " to " +:+ base +:+ "; the next cycle builds the change again")
      else
        x ← call (Ref (rt_name rs) (at_Branch a));
        match x with
        | inr e => readFailure "read the branch" (plain e)
        | inl found =>
            if negb match found with Some sha => String.eqb sha (at_CommitSHA a) | None => false end then
              let why := "branch " +:+ at_Branch a +:+ " no longer points at the attempt's commit" in
              _ ← set_attempt ai (λ a, a <| at_Status := AttemptBlocked |> <| at_Detail := why |>);
              _ ← blockTarget i a ReasonBranchNotOurs why;
              _ ← save;
              set_status PRStatusWriteBlocked ReasonBranchNotOurs why
            else
              pulls ← listPulls rs "all" (owner rs +:+ ":" +:+ at_Branch a);
              match pulls with
              | inr e => readFailure "list pull requests of the branch" e
              | inl pulls =>
                  match branchPulls rs pulls (at_Branch a) with
                  | (_ :: _) as l => found_pulls c ai l
                  | [] =>
                      ok ← recheckCandidate imageRepo
                             (zero_target_state <| im_Tag := at_CandidateTag a |> <| im_TopDigest := at_CandidateDigest a |>
                                <| im_Platform := from_option im_Platform "" (cu_candidate u) |>);
                      if negb ok then mret tt
                      else
                        match buildPRBody (mk_body_input (rt_name rs) (at_BaseBranch a) (at_BaseSHA a) (at_Path a) (at_CurrentRef a)
                                (at_Services a) (at_Locations a) (cu_workloads u) (cu_also u) changes (at_CandidateTag a)
                                (at_Evidence a) (at_UpdateKey a) (at_AttemptKey a) (encodeMarker (marker_of a))) with
                        | inr e => set_status PRStatusFailed ReasonGitHubError e
                        | inl body => send_pull i ai (composeUnitTitle imageRepo (at_CandidateTag a) (at_Path a)) body
                        end
                  end
              end
        end
  end.

(** The loop over the attempts of the target: whether to resume, [None] when
    the unit is finished. *)
Fixpoint earlier_attempts (c : unitCtx) (key : string) (l : list nat) (resume : bool) : stage (option bool) :=
  match l with
  | [] => mret (Some resume)
  | ai :: l' =>
      rs ← repo_at (uc_rs c);
      a ← attempt_at ai;
      if negb (String.eqb (at_TargetKey a) (uc_targetKey c)) || negb (at_RepoID a =? gi_ID (rt_info rs))%Z || settled (at_Status a)
      then earlier_attempts c key l' resume
      else if String.eqb (at_AttemptKey a) key && bool_decide (at_AttemptKey a ∈ rt_resumable rs)
      then earlier_attempts c key l' true
      else if bool_decide (at_AttemptKey a ∈ rt_resumable rs) then
        _ ← set_attempt ai (λ a, a <| at_Status := AttemptAbandonedWithoutPR |>
              <| at_Detail := "the base branch moved; the branch is kept without a pull request" |>);
        _ ← set_repo (uc_rs c) (λ rs, rs <| rt_resumable := rt_resumable rs ∖ {[at_AttemptKey a]} |>);
        ok ← save;
        if (ok : bool) then earlier_attempts c key l' resume else _ ← stop_status; mret None
      else
        _ ← set_status PRStatusWriteBlocked ReasonAttemptUnsettled
              ("attempt " +:+ stake 12 (at_AttemptKey a) +:+ " (" +:+ at_Status a +:+ ") is not settled");
        mret None
  end.

(** A kept branch is reused when it still points at the recorded commit;
    [None] when the unit is finished. *)
Definition kept_branch (c : unitCtx) (ai : option nat) (resume : bool) : stage (option bool) :=
  match ai with
  | None => mret (Some resume)
  | Some ai =>
      a ← attempt_at ai;
      if negb (String.eqb (at_Status a) AttemptAbandonedWithoutPR) then mret (Some resume)
      else
        rs ← repo_at (uc_rs c);
        x ← call (Ref (rt_name rs) (at_Branch a));
        match x with
        | inr e => _ ← readFailure "read the branch" (plain e); mret None
        | inl found =>
            if match found with Some sha => String.eqb sha (at_CommitSHA a) | None => false end
            then _ ← set_attempt ai (λ a, a <| at_Status := AttemptRefCreated |> <| at_Detail := "" |>); mret (Some true)
            else _ ← set_attempt ai (λ a, a <| at_Status := AttemptAbandoned |>); mret (Some resume)
        end
  end.

Definition fresh_attempt (p : Plan) (c : unitCtx) (rs : repoState) (base : string) (ch : FileChange) (inputSHA key branch : string)
    : AttemptRecord :=
  let u := uc_u c in
  mk_attempt (recordedKind prKindCompose) key (uc_updateKey c) (uc_targetKey c) (rt_name rs) (gi_ID (rt_info rs)) branch
    (cu_baseBranch u) base (cu_path u) (fc_Mode ch) inputSHA (fc_BlobSHA ch) "" "" AttemptIntent "" 0 "" (cu_services u)
    (cu_locations u) (cu_current u) (from_option im_Tag "" (cu_candidate u)) (from_option im_TopDigest "" (cu_candidate u)) []
    (fixTargets (pl_Items p) u) (Some (unit_evidence p u)) [] None.

Definition put_attempt (ai : option nat) (a : AttemptRecord) (f : PRStoreFile) : PRStoreFile :=
  match ai with
  | None => f <| fl_Attempts := fl_Attempts f ++ [a] |>
  | Some ai => f <| fl_Attempts := alter (λ _, a) ai (fl_Attempts f) |>
  end.

(** From the decision to resume on. *)
Definition run_attempt (p : Plan) (c : unitCtx) (imageRepo base content : string) (ch : FileChange) (inputSHA key branch : string)
    (changes : list Change) (ai : option nat) (recorded resume : bool) : stage unit :=
  let i := uc_rs c in
  rs ← repo_at i;
  ok ← reserve (if resume then 2 else 2 * (1 + 4));
  if negb ok then stop_status
  else if negb resume then
    x ← call (Commit (rt_name rs) base);
    match x with
    | inr e => readFailure "read the base commit" (plain e)
    | inl bc =>
        _ ← on_file (put_attempt ai (fresh_attempt p c rs base ch inputSHA key branch));
        f ← ask ru_file;
        let ai := default 0 (attempt_index f key) in
        ok ← buildCommit i ai (gc_Tree bc) {[fc_Path ch := content]} recorded;
        if (ok : bool) then openPull c ai imageRepo changes else mret tt
    end
  else
    let ai := default 0 ai in
    _ ← set_attempt ai (λ a, a <| at_Evidence := Some (unit_evidence p (uc_u c)) |> <| at_FixTargets := fixTargets (pl_Items p) (uc_u c) |>);
    openPull c ai imageRepo changes.

Definition createPull (p : Plan) (c : unitCtx) (imageRepo : string) : stage unit :=
  let u := uc_u c in
  rs ← repo_at (uc_rs c);
  base ← call (ResolveBranch (rt_name rs) (cu_baseBranch u));
  match base with
  | inr e => readFailure "resolve the base branch" (plain e)
  | inl base =>
      file ← call (ReadFile (rt_name rs) base (cu_path u));
      match file with
      | inr e =>
          if gh_is ErrNotFound e then set_status PRStatusManual ReasonComposeFileNotFound (gh_Error e)
          else if gh_is NotRegularFileError e || gh_is ErrLFSPointer e || gh_is ErrTooLarge e
          then set_status PRStatusManual ReasonComposeFileUnusable (gh_Error e)
          else readFailure "read the Compose file" (plain e)
      | inl file =>
          match EditComposeImageTag (gf_Content file) (cu_services u) (cu_current u) (from_option im_Tag "" (cu_candidate u)) with
          | inr (reason, detail) => set_status PRStatusManual reason detail
          | inl (edited, changes) =>
              let mode := if String.eqb (gf_Mode file) "" then "100644" else gf_Mode file in
              let ch := mk_file_change (cu_path u) mode (gitBlobSHA edited) in
              let key := AttemptKey (uc_updateKey c) base (gf_SHA file) [ch] in
              match BranchName (cu_services u) (from_option im_Tag "" (cu_candidate u)) key with
              | inr e => set_status PRStatusFailed ReasonGitHubError e
              | inl branch =>
                  _ ← change (λ r, r <| ru_view := ru_view r <| vu_AttemptKey := key |> |>);
                  n ← ask (λ r, length (fl_Attempts (ru_file r)));
                  resume ← earlier_attempts c key (seq 0 n) false;
                  match resume with
                  | None => mret tt
                  | Some resume =>
                      f ← ask ru_file;
                      let ai := attempt_index f key in
                      let recorded := is_some_b ai in
                      resume ← kept_branch c ai resume;
                      match resume with
                      | None => mret tt
                      | Some resume =>
                          a ← match ai with Some ai => attempt_at ai | None => mret zero_attempt end;
                          if String.eqb (at_Status a) AttemptPRCreated
                          then set_status PRStatusWriteBlocked ReasonAttemptUnsettled "the attempt has a pull request that is not in the records"
                          else run_attempt p c imageRepo base edited ch (gf_SHA file) key branch changes ai recorded resume
                      end
                  end
              end
          end
      end
  end.

(** *** One unit *)

Definition unitView (u : composeUnit) : PRUnit :=
  mk_pr_unit (cu_key u) "" "" "" (cu_repo u) (cu_baseBranch u) (cu_path u) (cu_services u) (cu_locations u)
    (cu_workloads u) (cu_also u) (cu_current u) (from_option im_Tag "" (cu_candidate u))
    (from_option im_TopDigest "" (cu_candidate u)) "" "" "" 0 "" "" false [] 0 [] [].

(** The unit's update has a record. *)
Definition known_update (ri : nat) : stage unit :=
  rec ← record_at ri;
  if String.eqb (pr_State rec) PRStateOpen then
    _ ← set_status PRStatusOpen "" "";
    blocked ← ask (λ r, targetBlocked r (pr_RepoID rec) (pr_TargetKey rec));
    if negb (pr_UserModified rec) && negb blocked then decideReplacements ri else mret tt
  else if String.eqb (pr_State rec) PRStateMerged
  then set_status PRStatusMerged "" "merged; deployment of the merge is not confirmed"
  else set_status PRStatusSuppressed "" ("pull request " +:+ number_text (pr_Number rec) +:+ " was " +:+ pr_State rec +:+ "; this update is not proposed again").

(** The unit's update has none: the conditions and limits, then the pull
    request. *)
Definition new_update (p : Plan) (c : unitCtx) : stage unit :=
  st ← stopped c;
  if (st : bool) then mret tt
  else
    rs ← repo_at (uc_rs c);
    match rt_blockedTargets rs !! uc_targetKey c with
    | Some detail => set_status PRStatusWriteBlocked ReasonAttemptUnsettled detail
    | None =>
        r ← ask id;
        if (ql_NewPRsPerCycle limits <=? ru_newPRs r)%Z
        then set_status PRStatusDeferred ReasonPRLimit
               (signed_itoa (ru_newPRs r) +:+ " pull requests were opened this cycle (limit " +:+ signed_itoa (ql_NewPRsPerCycle limits) +:+ ")")
        else if (ql_OpenPRs limits <=? Z.of_nat (openCount r))%Z
        then set_status PRStatusDeferred ReasonOpenPRLimit
               (signed_itoa (Z.of_nat (openCount r)) +:+ " pull requests are open (limit " +:+ signed_itoa (ql_OpenPRs limits) +:+ ")")
        else
          let imageRepo := default "" (RepositoryOf (cu_current (uc_u c))) in
          ok ← recheckCandidate imageRepo (default zero_target_state (cu_candidate (uc_u c)));
          if (ok : bool) then createPull p c imageRepo else mret tt
    end.

Definition processUnit (p : Plan) (u : composeUnit) : stage PRUnit :=
  _ ← change (λ r, r <| ru_view := unitView u |>);
  _ ← (if cu_manual u then set_status PRStatusManual (cu_manualReason u) (cu_manualDetail u)
       else
         r ← ask id;
         let i := default 0 (ru_byKey r !! to_lower (cu_repo u)) in
         rs ← repo_at i;
         if negb (rt_ok rs) then
           _ ← stopped (mk_unit_ctx u i "" "");
           v ← ask ru_view;
           if String.eqb (vu_Status v) "" then set_status PRStatusWriteBlocked (rt_blocked rs) (rt_blockedDetail rs) else mret tt
         else
           let tk := TargetKeyOf prKindCompose (gi_ID (rt_info rs)) (cu_baseBranch u) (cu_path u) (cu_locations u) in
           let cand := default zero_target_state (cu_candidate u) in
           let uk := UpdateKey tk (cu_current u) (im_Tag cand) (im_TopDigest cand) in
           let c := mk_unit_ctx u i tk uk in
           _ ← change (λ r, r <| ru_view := ru_view r <| vu_TargetKey := tk |> <| vu_UpdateKey := uk |> |>);
           f ← ask ru_file;
           match recordByUpdateKey f uk with
           | Some ri => known_update ri
           | None => new_update p c
           end);
  ask ru_view.

(** ** Replacing (pr_replace.go) *)

Definition abandonReplacement (ri j : nat) (detail : string) : stage unit :=
  _ ← set_replacement ri j (λ rp, rp <| rp_State := ReplacementAbandoned |> <| rp_Detail := detail |>);
  _ ← save; mret tt.

Definition not_ours_text (n : Z) : string :=
  "pull request " +:+ number_text n +:+ " was changed by someone else or is not known from this tool's records".

Definition eligiblePair (ri oi j : nat) : stage bool :=
  rec ← record_at ri;
  old ← record_at oi;
  blocked ← ask (λ r, targetBlocked r (pr_RepoID rec) (pr_TargetKey rec));
  if (blocked : bool)
  then _ ← abandonReplacement ri j "an attempt for this file and these services cannot be settled"; mret false
  else if pr_UserModified rec || pr_MarkerOnly rec then _ ← abandonReplacement ri j (not_ours_text (pr_Number rec)); mret false
  else if pr_UserModified old || pr_MarkerOnly old then _ ← abandonReplacement ri j (not_ours_text (pr_Number old)); mret false
  else mret true.

(** The first half of [checkPair]: the new pull request. *)
Definition check_new (i ri j : nat) : stage bool :=
  rs ← repo_at i;
  rec ← record_at ri;
  x ← call (Pull (rt_name rs) (pr_Number rec));
  match x with
  | inr e => _ ← haltFor (plain e); mret false
  | inl npr =>
      let st := pullState npr in
      let '(rec', marked) := if negb (String.eqb st PRStateOpen) then (rec, false) else markModified rec npr in
      if negb (String.eqb st PRStateOpen) || marked || pr_UserModified rec' then
        _ ← set_record ri (λ _, rec' <| pr_State := st |>);
        _ ← abandonReplacement ri j ("pull request " +:+ number_text (pr_Number rec) +:+ " is no longer open at the commit, base and repository this tool created it with");
        mret false
      else mret true
  end.

(** The second half: the old one. *)
Definition check_old (i ri oi j : nat) : stage bool :=
  rs ← repo_at i;
  rec ← record_at ri;
  old ← record_at oi;
  rp ← replacement_at ri j;
  x ← call (Pull (rt_name rs) (pr_Number old));
  match x with
  | inr e => _ ← haltFor (plain e); mret false
  | inl opr =>
      if String.eqb (pullState opr) PRStateMerged then
        _ ← set_record oi (λ old, old <| pr_State := PRStateMerged |>);
        _ ← abandonReplacement ri j ("pull request " +:+ number_text (pr_Number old) +:+ " was merged");
        mret false
      else if String.eqb (pullState opr) PRStateClosed then
        _ ← set_record oi (λ old, if String.eqb (rp_State rp) ReplacementCommented
                                  then old <| pr_State := PRStateClosed |> <| pr_SupersededBy := pr_Number rec |>
                                  else old <| pr_State := PRStateClosed |>);
        _ ← abandonReplacement ri j ("pull request " +:+ number_text (pr_Number old) +:+ " was closed by someone else");
        mret false
      else
        let '(old', marked) := markModified old opr in
        if marked || pr_UserModified old' then
          _ ← set_record oi (λ _, old');
          _ ← abandonReplacement ri j ("pull request " +:+ number_text (pr_Number old) +:+ " was changed by someone else");
          mret false
        else mret true
  end.

Definition checkPair (i ri oi j : nat) : stage bool :=
  ok ← eligiblePair ri oi j;
  if negb ok then mret false
  else
    ok ← check_new i ri j;
    if (ok : bool) then check_old i ri oi j else mret false.

(** What the replacement needs of the new record; [false] when it ends. *)
Definition candidate_holds (ri j : nat) : stage bool :=
  rec ← record_at ri;
  if String.eqb (kindOf (pr_Kind rec)) prKindLanguage then
    if negb (is_some_b (pr_Lang rec)) || negb (is_cons (pr_FixTargets rec))
    then _ ← abandonReplacement ri j "the new pull request has no record of what it fixes"; mret false
    else mret true
  else
    match from_option vy_Items [] (pr_Evidence rec) with
    | [] => _ ← abandonReplacement ri j "the new pull request has no verification record"; mret false
    | it :: _ =>
        match parsePlatform (im_Platform (ie_Candidate it)) with
        | None => _ ← abandonReplacement ri j "the candidate's platform is not known"; mret false
        | Some platform =>
            x ← call (ResolveTop (repoOfRef (pr_CurrentRef rec)) (pr_CandidateTag rec) platform);
            match x with
            | inr e => _ ← haltFor (plain e); mret false
            | inl top =>
                if negb (String.eqb top (pr_CandidateDigest rec))
                then _ ← abandonReplacement ri j (changed_text (pr_CandidateTag rec) top (pr_CandidateDigest rec)); mret false
                else mret true
            end
        end
    end.

(** The comment of [rec]'s replacement [j] is sent. *)
Definition send_comment (rs : repoState) (rec old : PRRecord) (ri j : nat) : stage bool :=
  ok ← reserve 4;
  if negb ok then mret false
  else
    x ← write (zero_event <| ev_Kind := OpCreateComment |> <| ev_Repo := rt_name rs |> <| ev_AttemptKey := pr_AttemptKey rec |>
                 <| ev_Number := pr_Number old |>
                 <| ev_Intent := "comment on " +:+ number_text (pr_Number old) +:+ " that " +:+ number_text (pr_Number rec) +:+ " supersedes it" |>)
          (CreateIssueComment (rt_name rs) (pr_Number old) (supersedeComment (pr_Number rec) (pr_URL rec) (pr_UpdateKey rec)))
          (λ _, "");
    match snd x with
    | inl _ => mret true
    | inr e =>
        r ← ask id;
        _ ← (if is_unknown e then _ ← set_replacement ri j (λ rp, rp <| rp_PendingOp := fst x |>); _ ← save; mret tt
             else if negb (is_some_b (ru_halt r)) && negb (is_stopped e)
             then abandonReplacement ri j ("the supersede comment was refused: " +:+ write_text e) else mret tt);
        mret false
    end.

(** The comment, unless it is there; [false] when the replacement waits. *)
Definition post_comment (i ri oi j : nat) : stage bool :=
  rs ← repo_at i;
  rec ← record_at ri;
  old ← record_at oi;
  rp ← replacement_at ri j;
  found ← findSupersede rs rec (pr_Number old);
  match found with
  | inr e => _ ← haltFor e; mret false
  | inl true => _ ← settle (rp_PendingOp rp) ResultOK "the supersede comment exists"; mret true
  | inl false =>
      _ ← (if not_empty (rp_PendingOp rp) then
             _ ← settle (rp_PendingOp rp) ResultFailed "no supersede comment was found";
             set_replacement ri j (λ rp, rp <| rp_PendingOp := "" |>)
           else mret tt);
      send_comment rs rec old ri j
  end.

Definition close_old (i ri oi j : nat) : stage unit :=
  rs ← repo_at i;
  rec ← record_at ri;
  old ← record_at oi;
  x ← write (zero_event <| ev_Kind := OpClosePull |> <| ev_Repo := rt_name rs |> <| ev_AttemptKey := pr_AttemptKey rec |>
               <| ev_Number := pr_Number old |>
               <| ev_Intent := "close " +:+ number_text (pr_Number old) +:+ ", superseded by " +:+ number_text (pr_Number rec) |>)
        (ClosePull (rt_name rs) (pr_Number old)) (λ _, "");
  r ← ask id;
  match snd x with
  | inl _ =>
      _ ← set_record oi (λ old, old <| pr_State := PRStateReplaced |> <| pr_ReplacedBy := pr_Number rec |>);
      _ ← set_replacement ri j (λ rp, rp <| rp_State := ReplacementDone |> <| rp_Detail := "" |>);
      _ ← save; mret tt
  | inr e =>
      if is_unknown e then
        _ ← set_replacement ri j (λ rp, rp <| rp_State := ReplacementClosed |> <| rp_PendingOp := fst x |>);
        _ ← save; mret tt
      else if is_some_b (ru_halt r) || is_stopped e then mret tt
      else abandonReplacement ri j ("the close was refused: " +:+ write_text e)
  end.

(** The second half of [replace]: the close, for a replacement whose comment
    is there. *)
Definition replace_close (i ri oi j : nat) : stage unit :=
  rp ← replacement_at ri j;
  if negb (String.eqb (rp_State rp) ReplacementCommented) then mret tt
  else
    ok ← checkPair i ri oi j;
    if negb ok then mret tt
    else
      ok ← reserve 2;
      if (ok : bool) then close_old i ri oi j else mret tt.

Definition replace (i ri j : nat) : stage unit :=
  rec ← record_at ri;
  rp ← replacement_at ri j;
  f ← ask ru_file;
  match recordByNumber f (pr_RepoID rec) (rp_OldNumber rp) with
  | None => abandonReplacement ri j "the old pull request is not in the records"
  | Some oi =>
      ok ← eligiblePair ri oi j;
      if negb ok then mret tt
      else
        ok ← candidate_holds ri j;
        if negb ok then mret tt
        else if String.eqb (rp_State rp) ReplacementPending then
          ok ← checkPair i ri oi j;
          if negb ok then mret tt
          else
            ok ← post_comment i ri oi j;
            if negb ok then mret tt
            else
              _ ← set_replacement ri j (λ rp, rp <| rp_State := ReplacementCommented |> <| rp_PendingOp := "" |> <| rp_Detail := "" |>);
              ok ← save;
              if negb ok then mret tt
              else
                ok ← canWrite i;
                if (ok : bool) then replace_close i ri oi j else mret tt
        else replace_close i ri oi j
  end.

(** The loops of [resumeReplacements]; the number of a record's replacements
    does not change meanwhile. *)
Definition resume_one (ri j : nat) : stage unit :=
  rec ← record_at ri;
  rp ← replacement_at ri j;
  if terminal rp || String.eqb (rp_State rp) ReplacementClosed then mret tt
  else
    i ← ask (λ r, repoByID r (pr_RepoID rec));
    match i with
    | None => mret tt
    | Some i => ok ← canWrite i; if (ok : bool) then replace i ri j else mret tt
    end.

Definition resume_record (ri : nat) : stage unit :=
  rec ← record_at ri;
  for_each (resume_one ri) (seq 0 (length (pr_Replacing rec))).

Definition resumeReplacements : stage unit :=
  n ← ask (λ r, length (fl_PRs (ru_file r)));
  for_each resume_record (seq 0 n).

(** ** The whole stage *)

Record PRStageInput := mk_stage_input {
  si_Plan : Plan; si_Containers : list Container; si_Mappings : list ComposeMapping; si_Repositories : list string }.

Record PRStageResult := mk_stage_result {
  sr_Units : list PRUnit; sr_Operations : list OperationEvent; sr_LastSeq : Z; sr_Problems : list PRStageProblem }.

Definition addRepo (acc : list repoState * gmap string nat) (name : string) : list repoState * gmap string nat :=
  let '(repos, byKey) := acc in
  let k := to_lower name in
  match byKey !! k with
  | Some _ => acc
  | None => (repos ++ [mk_repo_state name (mk_repo_info 0 "") false "" "" ∅ ∅ false], <[k := length repos]> byKey)
  end.

Definition problem_cmp (a b : PRStageProblem) : comparison :=
  str_cmp (pb_Code a) (pb_Code b) <?> str_cmp (pb_Repo a) (pb_Repo b) <?> str_cmp (pb_Target a) (pb_Target b).

Definition sortProblems (l : list PRStageProblem) : list PRStageProblem := sort_by (less_of problem_cmp) l.

(** [result]: a run that could not use the records. *)
Definition result_unit (r : prRun) (u : composeUnit) : PRUnit :=
  if cu_manual u
  then unitView u <| vu_Status := PRStatusManual |> <| vu_Reason := cu_manualReason u |> <| vu_Detail := cu_manualDetail u |>
  else
    match ru_stop r with
    | Some s => unitView u <| vu_Status := sp_status s |> <| vu_Reason := sp_reason s |> <| vu_Detail := sp_detail s |>
    | None => unitView u
    end.

Definition result (r : prRun) (units : list composeUnit) : PRStageResult :=
  mk_stage_result (result_unit r <$> units) [] 0 (sortProblems (ru_problems r)).

Definition reported_status (s : string) : bool :=
  String.eqb s PRStatusCreated || String.eqb s PRStatusOpen || String.eqb s PRStatusMerged || String.eqb s PRStatusSuppressed.

(** The pull requests closed in favour of a record. *)
Definition replaced_by (f : PRStoreFile) (rec : PRRecord) : list Z :=
  omap (λ rp,
    if String.eqb (rp_State rp) ReplacementDone then
      match recordByNumber f (pr_RepoID rec) (rp_OldNumber rp) with
      | Some oi => if String.eqb (pr_State (nth oi (fl_PRs f) zero_pr)) PRStateReplaced then Some (rp_OldNumber rp) else None
      | None => None
      end
    else None) (pr_Replacing rec).

Definition finish_view (f : PRStoreFile) (v : PRUnit) : PRUnit :=
  if String.eqb (vu_UpdateKey v) "" || negb (reported_status (vu_Status v)) then v
  else
    match recordByUpdateKey f (vu_UpdateKey v) with
    | None => v
    | Some ri =>
        let rec := nth ri (fl_PRs f) zero_pr in
        v <| vu_Number := pr_Number rec |> <| vu_URL := pr_URL rec |> <| vu_State := pr_State rec |>
          <| vu_UserModified := pr_UserModified rec |> <| vu_AttemptKey := pr_AttemptKey rec |>
          <| vu_FixTargets := pr_FixTargets rec |> <| vu_ReplacedBy := pr_ReplacedBy rec |>
          <| vu_Replacing := pr_Replacing rec |> <| vu_Replaced := replaced_by f rec |>
    end.

Definition finish (r : prRun) (views : list PRUnit) : PRStageResult :=
  let '(ops, last) := undelivered (ru_file r) in
  mk_stage_result (finish_view (ru_file r) <$> views) ops last (sortProblems (ru_problems r)).

Fixpoint process_units (p : Plan) (l : list composeUnit) : stage (list PRUnit) :=
  match l with
  | [] => mret []
  | u :: l' => v ← processUnit p u; vs ← process_units p l'; mret (v :: vs)
  end.

(** What is done with the records once they are locked and read. *)
Definition run_records (p : Plan) (units : list composeUnit) (found : bool) : stage PRStageResult :=
  _ ← loadRepos;
  _ ← (if found then initAddedRepos else recoverAll);
  l ← all_repos;
  _ ← for_each reconcileRepo l;
  views ← process_units p units;
  _ ← resumeReplacements;
  r ← ask id;
  mret (finish r views).

Definition zero_view : PRUnit :=
  mk_pr_unit "" "" "" "" "" "" "" [] [] [] [] "" "" "" "" "" "" 0 "" "" false [] 0 [] [].

Definition empty_store : PRStoreFile := mk_store PRStoreVersion [] [] [] [] 1 0 [].

Definition is_locked (e : storageError Err) : bool := match e with Locked => true | _ => false end.

Definition Run (inp : PRStageInput) (w : St) : PRStageResult * St :=
  let units := buildComposeUnits (si_Plan inp) (si_Containers inp) (si_Mappings inp) in
  let names := (mp_Repository <$> si_Mappings inp) ++ si_Repositories inp ++ (cu_repo <$> units) in
  let '(repos, byKey) := foldl addRepo ([], ∅) names in
  let r := mk_pr_run empty_store repos byKey None None [] 0 zero_view in
  let '(err, w) := Lock store w in
  match err with
  | Some e =>
      let reason := if is_locked e then ReasonStoreLocked else ReasonStorageFailed in
      let '(_, (r, w)) := (_ ← change (λ r, r <| ru_stop := Some (mk_stop PRStatusWriteBlocked reason (store_Error e)) |>);
                           problem (mk_problem PRProblemWriteBlocked "" "" reason (store_Error e))) (r, w) in
      (result r units, w)
  | None =>
      let '(x, w) := Load store w in
      let '(res, (r, w)) :=
        match x with
        | inr e => (_ ← storageFailed (store_Error e); r ← ask id; mret (result r units)) (r, w)
        | inl file =>
            (_ ← change (λ r, r <| ru_file := default empty_store file |>);
             run_records (si_Plan inp) units (is_some_b file)) (r, w)
        end in
      (res, Unlock store w)
  end.

(** The refusals of [NewPRStage], for what the model has. *)
Definition NewPRStage (l : PRLimits) : bool := (0 <? ql_NewPRsPerCycle l)%Z && (0 <? ql_OpenPRs l)%Z.
End stage.
