(* ===== verification/PRSpec.v ===== *)
(** * PRSpec: what the pull request stage may do

    The stage (PRStage.v) run in a world that keeps the history of what was
    read, saved and sent. Every write to GitHub directly follows a saved
    intent and is directly followed by saving its result; it is justified by
    what was read right before; and nothing is written after an outcome that
    is unknown, a limit that was reached or a save that failed. *)

From Stdlib Require Import ZArith Lia Bool Ascii String List Sorted Eqdep_dec.
From stdpp Require Import base gmap strings list.
From S2P Require Import Prelude GoStrings GoText Reference Inventory Triage Report Build Compare ImageTag Adopt Declared Plan PRTypes PRKeys PRMarker PRUnits PRStore PRStage.

Open Scope string_scope.
Open Scope Z_scope.
Open Scope nat_scope.
Open Scope list_scope.
Open Scope kl_scope.

#[export] Instance TreeEntry_eq_dec : EqDecision TreeEntry.
Proof. solve_decision. Defined.
#[export] Instance NewPull_eq_dec : EqDecision NewPull.
Proof. solve_decision. Defined.
#[export] Instance request_eq_dec : EqDecision request.
Proof. solve_decision. Defined.

(** ** History *)

(** The history: everything asked of GitHub and of the registry with its
    answer, the records saved and the requests sent. *)
Inductive act (Err : Type) :=
  | ReadRepository (repo : string) (x : RepoInfo + Err)
  | ReadCommit (repo sha : string) (x : CommitInfo + Err)
  | ReadContent (repo sha path : string) (x : File + Err)
  | ReadBranch (repo branch : string) (x : string + Err)
  | ReadRef (repo branch : string) (x : option string + Err)
  | ReadPulls (repo state head : string) (page : Z) (x : list PullRequest * bool + Err)
  | ReadPull (repo : string) (number : Z) (x : PullRequest + Err)
  | ReadComments (repo : string) (number page : Z) (x : list string * bool + Err)
  | ReadTop (repo tag : string) (platform : Platform) (x : string + Err)
  | Saved (f : PRStoreFile) (ok : bool)
  | Sent (q : request) (x : answer q + Err).
Arguments ReadRepository {Err}.
Arguments ReadCommit {Err}.
Arguments ReadContent {Err}.
Arguments ReadBranch {Err}.
Arguments ReadRef {Err}.
Arguments ReadPulls {Err}.
Arguments ReadPull {Err}.
Arguments ReadComments {Err}.
Arguments ReadTop {Err}.
Arguments Saved {Err}.
Arguments Sent {Err}.

Definition logged {Err St A : Type} (f : St → A * St) (a : A → list (act Err)) (w : list (act Err) * St)
    : A * (list (act Err) * St) :=
  let '(x, v) := f (snd w) in (x, (fst w ++ a x, v)).

(** The world that keeps its history. Asking the context whether it has ended
    is not a request and leaves no trace. *)
#[export] Instance logged_github {St Err} `{GitHub St Err} : GitHub (list (act Err) * St) Err := {|
  Repository repo := logged (Repository repo) (λ x, [ReadRepository repo x]);
  Commit repo sha := logged (Commit repo sha) (λ x, [ReadCommit repo sha x]);
  Ref repo branch := logged (Ref repo branch) (λ x, [ReadRef repo branch x]);
  ListPulls repo state head page := logged (ListPulls repo state head page) (λ x, [ReadPulls repo state head page x]);
  Pull repo n := logged (Pull repo n) (λ x, [ReadPull repo n x]);
  ListIssueComments repo n page := logged (ListIssueComments repo n page) (λ x, [ReadComments repo n page x]);
  ResolveBranch repo branch := logged (ResolveBranch repo branch) (λ x, [ReadBranch repo branch x]);
  ReadFile repo sha path := logged (ReadFile repo sha path) (λ x, [ReadContent repo sha path x]);
  ResolveTop repo tag platform := logged (ResolveTop repo tag platform) (λ x, [ReadTop repo tag platform x]);
  send q := logged (send q) (λ x, [Sent q x]);
  ctx_Err := logged ctx_Err (λ _, []);
  gh_is := gh_is;
  gh_Error := gh_Error;
  store_Error := store_Error
|}.

Definition logged_store {St Err} (s : PRStorage St Err) : PRStorage (list (act Err) * St) Err := {|
  Lock := logged (Lock s) (λ _, []);
  Unlock w := (fst w, Unlock s (snd w));
  Load := logged (Load s) (λ _, []);
  Save f := logged (Save s f) (λ x, [Saved f (match x with None => true | Some _ => false end)])
|}.

(** A save that succeeded left in the file of a [PRStore] what was saved, and
    what was loaded is well-sequenced. *)
Lemma PRStore_load_sequenced `{GoUnicode} {St Err} (fs : Files St Err) dir f w w' :
  Load (PRStore fs dir) w = (inl (Some f), w') → sequenced f.
Proof.
  cbn. unfold load_file. destruct (fs_read fs w) as [[[g|]|e] v]; [|by intros [= ]..].
  destruct (negb _); [by intros [=]|]. destruct (validate g) eqn:E; [by intros [=]|]. intros [= <- _].
  by apply validate_sequenced.
Qed.

(** Nothing is saved that the validation refuses. *)
Lemma PRStore_save_valid `{GoUnicode} {St Err} (fs : Files St Err) dir f w :
  fst (Save (PRStore fs dir) f w) = None → validate f = None.
Proof.
  cbn. unfold save_file. destruct (String.eqb _ _); [done|]. destruct (load_file fs w) as [[x|e] v]; [|done].
  change (validate (f <| fl_Version := PRStoreVersion |>)) with (validate f). by destruct (validate f).
Qed.

(** ** What the history is to satisfy *)

Section rules.
Context {Err : Type} (gis : ghKind → Err → bool).
Context `{GoHash, GoUnicode, GoQuote, MarkerJSON}.
(** The units of the cycle. *)
Context (units : list composeUnit).

(** An outcome after which nothing is written: unknown, or the end of the
    work on GitHub. *)
Definition final_outcome {A} (x : A + Err) : Prop :=
  match x with
  | inr e => gis ErrOutcomeUnknown e || gis Canceled e || gis DeadlineExceeded e || gis ErrRateLimited e || gis ErrBudgetExhausted e = true
  | inl _ => False
  end.

(** Nothing in the history forbids a write. *)
Definition quiet (l : list (act Err)) : Prop :=
  (∀ f, Saved f false ∉ l) ∧ (∀ q x, Sent q x ∈ l → ¬ final_outcome x).

Definition kind_of_request (q : request) : string :=
  match q with
  | CreateBlob _ _ => OpCreateBlob
  | CreateTree _ _ _ => OpCreateTree
  | CreateCommit _ _ _ _ => OpCreateCommit
  | CreateRef _ _ _ => OpCreateRef
  | CreatePull _ _ => OpCreatePull
  | ClosePull _ _ => OpClosePull
  | CreateIssueComment _ _ _ => OpCreateComment
  end.

Definition repo_of_request (q : request) : string :=
  match q with
  | CreateBlob r _ | CreateTree r _ _ | CreateCommit r _ _ _ | CreateRef r _ _ | CreatePull r _ | ClosePull r _
  | CreateIssueComment r _ _ => r
  end.

(** The intent of a request, and the result of the same operation. *)
Definition intent_of (q : request) (ev : OperationEvent) : Prop :=
  ev_Phase ev = PhaseIntent ∧ ev_Kind ev = kind_of_request q ∧ ev_Repo ev = repo_of_request q.

Definition result_of {A} (x : A + Err) (ev res : OperationEvent) : Prop :=
  ev_Phase res = PhaseResult ∧ ev_ID res = ev_ID ev ∧ ev_Kind res = ev_Kind ev ∧ ev_Repo res = ev_Repo ev ∧
  ev_Result res = match x with
                  | inl _ => ResultOK
                  | inr e => if gis ErrOutcomeUnknown e then ResultUnknown else ResultFailed
                  end.

(** The saved records have the attempt the event is about, not settled. *)
Definition attempt_saved (f : PRStoreFile) (ev : OperationEvent) (a : AttemptRecord) : Prop :=
  a ∈ fl_Attempts f ∧ at_AttemptKey a = ev_AttemptKey ev ∧ settled (at_Status a) = false.

(** Both pull requests of a replacement were read right before: open, at the
    commit and on the base this tool created them with; neither was changed by
    someone else or is known from its marker only. *)
Definition pair_read (repo : string) (number : Z) (l : list (act Err)) (f : PRStoreFile) (ev : OperationEvent) (rec : PRRecord) : Prop :=
  ∃ l' npr opr old,
    l = l' ++ [ReadPull repo (pr_Number rec) (inl npr); ReadPull repo number (inl opr)] ∧
    rec ∈ fl_PRs f ∧ old ∈ fl_PRs f ∧ pr_AttemptKey rec = ev_AttemptKey ev ∧ pr_Number old = number ∧
    (∀ r pr, (r = rec ∧ pr = npr) ∨ (r = old ∧ pr = opr) →
       pullState pr = PRStateOpen ∧ pr_UserModified r = false ∧ pr_MarkerOnly r = false ∧
       gp_HeadSHA pr = pr_HeadSHA r ∧ gp_BaseRef pr = pr_BaseBranch r ∧ gp_BaseRepoID pr = pr_RepoID r).

(** A listing that was read to its end: its pages from [p] on, of which only
    the last says that no page follows. *)
Fixpoint pages_read {A} (read : Z → list A * bool + Err → act Err) (p : Z) (pages : list (list A)) : list (act Err) :=
  match pages with
  | [] => []
  | [l] => [read p (inl (l, false))]
  | l :: pages' => read p (inl (l, true)) :: pages_read read (p + 1) pages'
  end.

(** The head of a branch in the listing of pull requests: the owner GitHub
    names, and the branch. *)
Definition pull_head (full branch : string) : string :=
  match split_byte "/" full with o :: _ => o | [] => "" end +:+ ":" +:+ branch.

(** What a unit proposes. *)
Definition unit_candidate (u : composeUnit) : ImageState := default zero_target_state (cu_candidate u).

(** The repository a unit's image is in. *)
Definition unit_image (u : composeUnit) : string := default "" (RepositoryOf (cu_current u)).

(** The key of an attempt to open the unit's update ([PRKeys.attempt_key_identity]
    says what the key identifies). *)
Definition unit_attempt (u : composeUnit) (key : string) : Prop :=
  ∃ repoID base input ch,
    key = AttemptKey (UpdateKey (TargetKeyOf prKindCompose repoID (cu_baseBranch u) (cu_path u) (cu_locations u)) (cu_current u)
                        (im_Tag (unit_candidate u)) (im_TopDigest (unit_candidate u))) base input [ch].

(** [l] is the history before the intent was saved in [f]. *)
Definition justified (l : list (act Err)) (f : PRStoreFile) (ev : OperationEvent) (q : request) : Prop :=
  match q with
  | CreateBlob _ _ | CreateTree _ _ _ | CreateCommit _ _ _ _ => ∃ a, attempt_saved f ev a
  | CreateRef _ branch sha => ∃ a, attempt_saved f ev a ∧ at_Branch a = branch ∧ at_CommitSHA a = sha
  | CreatePull repo p =>
      ∃ a u l' pulls full platform,
        attempt_saved f ev a ∧ at_Branch a = np_Head p ∧ at_BaseBranch a = np_Base p ∧
        u ∈ units ∧ cu_manual u = false ∧ unit_attempt u (at_AttemptKey a) ∧
        np_Title p = composeUnitTitle (unit_image u) (at_CandidateTag a) (at_Path a) ∧
        parsePlatform (im_Platform (unit_candidate u)) = Some platform ∧ equal_fold full repo = true ∧
        l = l' ++ [ReadBranch repo (np_Base p) (inl (at_BaseSHA a)); ReadRef repo (np_Head p) (inl (Some (at_CommitSHA a)))] ++
            pages_read (ReadPulls repo "all" (pull_head full (np_Head p))) 1 pulls ++
            [ReadTop (unit_image u) (at_CandidateTag a) platform (inl (at_CandidateDigest a))] ∧
        pulls ≠ [] ∧
        (∀ pr, pr ∈ concat pulls → gp_HeadRef pr = np_Head p → equal_fold (gp_HeadRepoFullName pr) full = false)
  | CreateIssueComment repo number body =>
      ∃ l' comments rec,
        l = l' ++ pages_read (ReadComments repo number) 1 comments ∧ pair_read repo number l' f ev rec ∧
        body = supersedeComment (pr_Number rec) (pr_URL rec) (pr_UpdateKey rec) ∧ comments ≠ [] ∧
        (∀ c, c ∈ concat comments → hasSupersedeMarker c (pr_Number rec) (pr_UpdateKey rec) = false)
  | ClosePull repo number => ∃ rec, pair_read repo number l f ev rec
  end.

(** Every write: after its saved intent, before its saved result, justified,
    and with nothing before that forbids it. *)
Definition recorded (log : list (act Err)) : Prop :=
  ∀ l1 q x l2, log = l1 ++ Sent q x :: l2 →
    ∃ l f ev f' ok res l2',
      l1 = l ++ [Saved f true] ∧ l2 = Saved f' ok :: l2' ∧ quiet l ∧
      last (fl_Operations f) = Some ev ∧ intent_of q ev ∧ justified l f ev q ∧
      last (fl_Operations f') = Some res ∧ result_of x ev res.
End rules.

(** ** What does not write *)

Section spec.
Context {W Err Change : Type} `{GitHub W Err} `{ComposeEdits Change} `{GoHash, GoUnicode, GoQuote, MarkerJSON, MapRange}.
Context (fs : Files W Err) (dir : string) (limits : PRLimits) (maxListPages : nat).

Notation St := (list (act Err) * W)%type.
Notation store := (logged_store (PRStore fs dir)).
Notation stage := (@stage St).
Notation state := (prRun * St)%type.
Notation err := (@stageErr Err).
Notation file s := (ru_file (fst s)).
Notation log s := (fst (snd s)).

(** The repositories that may be written to go by the name GitHub gave. *)
Definition named (r : prRun) : Prop :=
  ∀ rs, rs ∈ ru_repos r → rt_ok rs = true → equal_fold (gi_FullName (rt_info rs)) (rt_name rs) = true.

Record keeps (r r' : prRun) : Prop := mk_keeps {
  kp_seq : seq_ok (ru_file r) → seq_ok (ru_file r');
  kp_stop : is_Some (ru_stop r) → is_Some (ru_stop r');
  kp_storage : storage_stopped r = true → storage_stopped r' = true;
  kp_halt : is_Some (ru_halt r) → is_Some (ru_halt r');
  kp_new : ru_newPRs r' = ru_newPRs r;
  kp_names : rt_name <$> ru_repos r' = rt_name <$> ru_repos r;
  kp_repos : ∀ k rs', ru_repos r' !! k = Some rs' →
    ∃ rs, ru_repos r !! k = Some rs ∧ rt_name rs' = rt_name rs ∧ rt_info rs' = rt_info rs ∧ (rt_ok rs' = true → rt_ok rs = true)
}.

(** A version of the records that was saved passed the validation. *)
Definition good_save (f : PRStoreFile) (ok : bool) : Prop := seq_ok f ∧ (ok = true → validate f = None).

(** [s'] is later than [s], with nothing sent in between. *)
Record calm (s s' : state) : Prop := mk_calm {
  cl_keeps : keeps (fst s) (fst s');
  cl_log : ∃ l, log s' = log s ++ l ∧ (∀ q x, Sent q x ∉ l) ∧
    (∀ f, Saved f false ∈ l → storage_stopped (fst s') = true) ∧
    (seq_ok (file s) → ∀ f ok, Saved f ok ∈ l → good_save f ok)
}.

Ltac keeps_done := split; try done; try (by intros ? rs ?; exists rs).

#[export] Instance keeps_preorder : PreOrder keeps.
Proof.
  split; [intros r; keeps_done|]. intros a b c [] []. split; try tauto.
  - congruence.
  - congruence.
  - intros k rs2 Hk2. destruct (kp_repos1 k rs2 Hk2) as (rs1 & Hk1 & -> & -> & Ho). destruct (kp_repos0 k rs1 Hk1) as (rs0 & ? & -> & -> & ?).
    exists rs0. tauto.
Qed.

Lemma keeps_named r r' : keeps r r' → named r → named r'.
Proof.
  intros K Hn rs' [k Hk]%list_elem_of_lookup Hok. destruct (kp_repos _ _ K k rs' Hk) as (rs & Hrs & -> & -> & Ho).
  apply Hn; [by eapply list_elem_of_lookup_2|by apply Ho].
Qed.

#[export] Instance calm_preorder : PreOrder calm.
Proof.
  split.
  - intros s. split; [done|]. exists []. rewrite app_nil_r. split_and!; [done|intros ?? ?%elem_of_nil; done|by intros ? ?%elem_of_nil|by intros ? ?? ?%elem_of_nil].
  - intros a b c [K1 (l & E1 & A1 & B1 & C1)] [K2 (k & E2 & A2 & B2 & C2)]. split; [by transitivity (fst b)|].
    exists (l ++ k). rewrite E2, E1, app_assoc. split_and!; [done|..].
    + intros q x [?|?]%elem_of_app; [by eapply A1|by eapply A2].
    + intros f [Hf|Hf]%elem_of_app; [|by eapply B2]. apply K2. by eapply B1.
    + intros Hs f ok [Hf|Hf]%elem_of_app; [by eapply C1|]. eapply C2; [|done]. by apply K1.
Qed.

Definition op_calm {A} (m : stage A) : Prop := ∀ s, calm s (snd (m s)).

Lemma calm_ret {A} (x : A) : op_calm (mret x).
Proof. intros s. done. Qed.

Lemma calm_bind {A B} (m : stage A) (k : A → stage B) : op_calm m → (∀ x, op_calm (k x)) → op_calm (x ← m; k x).
Proof.
  intros Hm Hk s. unfold mbind, stage_bind. specialize (Hm s). destruct (m s) as [x s1].
  etransitivity; [exact Hm|]. apply Hk.
Qed.

Lemma calm_ask {A} (f : prRun → A) : op_calm (ask f).
Proof. intros s. done. Qed.

Lemma calm_change f : (∀ r, keeps r (f r)) → op_calm (change f).
Proof.
  intros Hf s. split; [apply Hf|]. exists []. rewrite app_nil_r.
  split_and!; [done|intros ?? ?%elem_of_nil; done|by intros ? ?%elem_of_nil|by intros ? ?? ?%elem_of_nil].
Qed.

(** An act that is neither a save nor a request. *)
Definition is_read (a : act Err) : Prop := match a with Saved _ _ | Sent _ _ => False | _ => True end.

Lemma calm_call {A} (f : W → A * W) (a : A → list (act Err)) :
  (∀ x, Forall is_read (a x)) → op_calm (call (logged f a)).
Proof.
  intros Ha [r [l w]]. unfold call, logged. cbn. specialize (Ha (fst (f w))). destruct (f w) as [x v]. cbn in *.
  split; [done|]. cbn. exists (a x). rewrite Forall_forall in Ha.
  split_and!; [done|intros ?? Hx; by apply Ha in Hx|by intros ? Hx%Ha|by intros ? ?? Hx%Ha].
Qed.

Create HintDb calm.

Ltac calm_step :=
  match goal with
  | |- op_calm (mret _) => apply calm_ret
  | |- op_calm (ask _) => apply calm_ask
  | |- op_calm (mbind _ _) => apply calm_bind; [|intros ?]
  | |- op_calm (match ?x with _ => _ end) => destruct x
  | |- op_calm (let '_ := ?x in _) => destruct x
  | _ => solve [eauto 2 with calm nocore]
  end.
Ltac calm_auto := repeat (cbv zeta; calm_step).

Lemma calm_reads :
  (∀ repo, op_calm (call (Repository repo))) ∧ (∀ repo sha, op_calm (call (Commit repo sha))) ∧
  (∀ repo b, op_calm (call (Ref repo b))) ∧ (∀ repo st h p, op_calm (call (ListPulls repo st h p))) ∧
  (∀ repo n, op_calm (call (Pull repo n))) ∧ (∀ repo n p, op_calm (call (ListIssueComments repo n p))) ∧
  (∀ repo b, op_calm (call (ResolveBranch repo b))) ∧ (∀ repo s p, op_calm (call (ReadFile repo s p))) ∧
  (∀ repo t p, op_calm (call (ResolveTop repo t p))) ∧ op_calm (call ctx_Err).
Proof. split_and!; intros; apply calm_call; intros x; repeat constructor. Qed.

(** Changes that leave the log of operations, the limits and the repositories'
    names alone. *)
Lemma keeps_same r r' :
  fl_Operations (ru_file r') = fl_Operations (ru_file r) → fl_NextSeq (ru_file r') = fl_NextSeq (ru_file r) →
  fl_DeliveredSeq (ru_file r') = fl_DeliveredSeq (ru_file r) → ru_stop r' = ru_stop r → ru_halt r' = ru_halt r →
  ru_newPRs r' = ru_newPRs r → ru_repos r' = ru_repos r → keeps r r'.
Proof.
  intros E1 E2 E3 E4 E5 E6 E7. split; unfold storage_stopped; rewrite ?E4, ?E5, ?E7; try done.
  - unfold seq_ok, overrun. rewrite E1, E2, E3. intros [[S1 S2 S3 S4]|Ho]; [left|by right]. split; rewrite ?E1, ?E2, ?E3; done.
  - intros k rs ?. by exists rs.
Qed.

Lemma calm_set_record i f : op_calm (set_record i f).
Proof. apply calm_change. intros r. by apply keeps_same. Qed.
Lemma calm_set_attempt i f : op_calm (set_attempt i f).
Proof. apply calm_change. intros r. by apply keeps_same. Qed.
Lemma calm_add_record rec : op_calm (add_record rec).
Proof. apply calm_change. intros r. by apply keeps_same. Qed.
Lemma calm_set_replacement i j f : op_calm (set_replacement i j f).
Proof. apply calm_set_record. Qed.
Lemma calm_set_status a b c : op_calm (set_status a b c).
Proof. apply calm_change. intros r. by apply keeps_same. Qed.
Lemma calm_problem p : op_calm (problem p).
Proof. apply calm_change. intros r. destruct (existsb _ _); by apply keeps_same. Qed.
Lemma calm_set_view f : op_calm (change (λ r, r <| ru_view := f r |>)).
Proof. apply calm_change. intros r. by apply keeps_same. Qed.

(** A repository's other fields. *)
Lemma calm_set_repo i f :
  (∀ rs, rt_name (f rs) = rt_name rs ∧ rt_info (f rs) = rt_info rs ∧ (rt_ok (f rs) = true → rt_ok rs = true)) →
  op_calm (set_repo i f).
Proof.
  intros Hf. apply calm_change. intros r. split; try done; cbn.
  - apply list_eq. intros k. rewrite !list_lookup_fmap, list_lookup_alter. case_decide; [|done].
    cbn. subst k. destruct (ru_repos r !! i) as [rs|]; [|done]. cbn. by rewrite (proj1 (Hf rs)).
  - intros k rs Hk. rewrite list_lookup_alter in Hk. case_decide; [|by exists rs]. subst k.
    apply fmap_Some in Hk as (rs0 & Hk & ->). exists rs0. by destruct (Hf rs0) as (-> & -> & Ho).
Qed.

(** *** Saving and logging *)

Lemma append_event_spec f ev :
  let '(ev', f') := append_event f ev in
  ((seq_ok f → seq_ok f') ∧ (overrun f → overrun f')) ∧ fl_Operations f' = fl_Operations f ++ [ev'] ∧
  fl_PRs f' = fl_PRs f ∧ fl_Attempts f' = fl_Attempts f ∧
  ev_Phase ev' = ev_Phase ev ∧ ev_Kind ev' = ev_Kind ev ∧ ev_Repo ev' = ev_Repo ev ∧ ev_AttemptKey ev' = ev_AttemptKey ev ∧
  ev_Number ev' = ev_Number ev ∧ ev_Result ev' = ev_Result ev ∧ (ev_ID ev ≠ "" → ev_ID ev' = ev_ID ev) ∧ ev_ID ev' ≠ "" ∧
  fl_DeliveredSeq f' = fl_DeliveredSeq f ∧ (sequenced f → (fl_DeliveredSeq f < ev_Seq ev')%Z).
Proof.
  unfold append_event. set (next := if (fl_NextSeq f <? 1)%Z then 1%Z else fl_NextSeq f).
  assert (Hn : (1 ≤ next ∧ fl_NextSeq f ≤ next)%Z) by (unfold next; destruct (Z.ltb_spec (fl_NextSeq f) 1); lia).
  clearbody next. change (ev_ID (ev <| ev_Seq := next |>)) with (ev_ID ev). cbv zeta.
  set (ev1 := if String.eqb (ev_ID ev) "" then _ else _).
  assert (E : ev_Seq ev1 = next ∧ ev_Phase ev1 = ev_Phase ev ∧ ev_Kind ev1 = ev_Kind ev ∧ ev_Repo ev1 = ev_Repo ev ∧
     ev_AttemptKey ev1 = ev_AttemptKey ev ∧ ev_Number ev1 = ev_Number ev ∧ ev_Result ev1 = ev_Result ev ∧
     (ev_ID ev ≠ "" → ev_ID ev1 = ev_ID ev) ∧ ev_ID ev1 ≠ "").
  { unfold ev1. destruct (String.eqb_spec (ev_ID ev) "") as [Ei|Ei]; by split_and!. }
  clearbody ev1. destruct E as (E1 & E2 & E3 & E4 & E5 & E6 & E7 & E8 & E9).
  set (nx := int64_wrap (next + 1)). assert (Hx : (nx ≤ 2 ^ 63 - 1)%Z).
    { unfold nx, int64_wrap. pose proof (Z.mod_pos_bound (next + 1 + 2 ^ 63) (2 ^ 64)). lia. }
  assert (Ho : overrun f → overrun (f <| fl_NextSeq := nx |> <| fl_Operations := fl_Operations f ++ [ev1] |>)).
    { intros (op & Hop & Hd & _ & Hm). exists op. cbn. split_and!; [apply elem_of_app; by left|done|lia|done]. }
  split_and!; try done.
  - intros [[S1 S2 S3 S4]|O]; [|right; by apply Ho].
    destruct (decide (next + 1 < 2 ^ 63)%Z) as [Hlt|Hge].
    2:{ right. exists ev1. cbn. split_and!; [apply elem_of_app; right; by left|lia..]. }
    assert (nx = next + 1)%Z as -> by (unfold nx; apply int64_wrap_id; unfold int64_ok; lia). left. split; cbn.
    + clear - S1 S2 E1 Hn. induction (fl_Operations f) as [|x l IH]; [repeat constructor|].
      inversion_clear S1 as [|? ? Hl Hx]. constructor; [apply IH; [done|intros; apply S2; by right]|].
      apply Forall_app. split; [done|]. constructor; [|done]. rewrite E1. specialize (S2 x ltac:(by left)). lia.
    + intros op [Hop| ->%list_elem_of_singleton]%elem_of_app; [specialize (S2 op Hop); lia|lia].
    + intros op [Hop| ->%list_elem_of_singleton]%elem_of_app; [by apply S3|done].
    + lia.
  - intros [S1 S2 S3 S4]. lia.
Qed.

Lemma calm_event ev : op_calm (event ev).
Proof.
  intros [r w]. unfold event. cbn [fst snd]. pose proof (append_event_spec (ru_file r) ev) as He.
  destruct (append_event (ru_file r) ev) as [ev' f']. cbn [fst snd]. destruct He as [[Hs _] _]. split; [keeps_done; exact Hs|].
  exists []. rewrite app_nil_r. split_and!; [done|intros ?? ?%elem_of_nil; done|by intros ? ?%elem_of_nil|by intros ? ?? ?%elem_of_nil].
Qed.

Lemma calm_settle id r d : op_calm (settle id r d).
Proof. unfold settle. pose proof calm_event. calm_auto. Qed.

Lemma calm_storageFailed e : op_calm (storageFailed e).
Proof.
  unfold storageFailed. apply calm_bind; [|intros _; apply calm_problem]. apply calm_change. intros r.
  destruct (storage_stopped r) eqn:E; [done|]. keeps_done.
Qed.

Lemma trim_keeps n r : keeps r (r <| ru_file := fst (trimOperations n (ru_file r)) |>).
Proof. keeps_done. apply trim_seq_ok. Qed.

(** What a save does: the records are trimmed and saved. *)
Lemma save_spec r l w :
  let s := (r, (l, w)) in
  let f := fst (trimOperations 0 (ru_file r)) in
  let '(ok, s') := save store s in
  calm s s' ∧
  (storage_stopped r = true → ok = false ∧ s' = s) ∧
  (storage_stopped r = false →
     log s' = l ++ [Saved f ok] ∧ file s' = f ∧ ru_repos (fst s') = ru_repos r ∧ ru_halt (fst s') = ru_halt r ∧
     ru_view (fst s') = ru_view r ∧
     (ok = true → ru_stop (fst s') = ru_stop r) ∧ (ok = false → storage_stopped (fst s') = true)).
Proof.
  cbv zeta. unfold save, mbind, stage_bind, ask, on_file, change, call, mret, stage_ret. cbn [fst snd].
  destruct (storage_stopped r) eqn:Es; [by split_and!|].
  unfold logged_store. cbn [Save fst snd]. unfold logged. cbn [fst snd].
  set (f := fst (trimOperations 0 (ru_file r))).
  change (ru_file (r <| ru_file := f |>)) with f.
  assert (K : keeps r (r <| ru_file := f |>)) by apply trim_keeps.
  assert (Hf : seq_ok (ru_file r) → seq_ok f) by apply trim_seq_ok.
  pose proof (PRStore_save_valid fs dir f w) as Hv.
  destruct (Save (PRStore fs dir) f w) as [err w'].
  cbn [fst] in Hv.
  assert (C : err = None → calm (r, (l, w)) (r <| ru_file := f |>, (l ++ [Saved f true], w'))).
  { intros He. split; [done|]. exists [Saved f true]. split_and!; [done|intros ?? [=]%list_elem_of_singleton|by intros ? [=]%list_elem_of_singleton|].
    intros Hs g ok [= -> ->]%list_elem_of_singleton. split; [by apply Hf|intros _; by apply Hv]. }
  destruct err as [e|]; cbn [fst snd].
  - set (s1 := (r <| ru_file := f |>, (l ++ [Saved f false], w'))).
    pose proof (calm_storageFailed (store_Error e) s1) as Hc. unfold mbind, stage_bind.
    destruct (storageFailed _ s1) as [[] s2] eqn:E. cbn [fst snd] in *. cbn.
    assert (Hsame : ru_file (fst s2) = f ∧ ru_repos (fst s2) = ru_repos r ∧ ru_halt (fst s2) = ru_halt r ∧
                    ru_view (fst s2) = ru_view r ∧ storage_stopped (fst s2) = true ∧ log s2 = l ++ [Saved f false]).
    { revert E. unfold storageFailed, mbind, stage_bind, change, problem, s1. cbn. unfold storage_stopped in *.
      change (ru_stop (r <| ru_file := f |>)) with (ru_stop r). rewrite Es. intros [= <-].
      destruct (existsb _ _); done. }
    destruct Hsame as (A1 & A2 & A3 & A4 & A5 & A6). split_and!; try done.
    split; [etransitivity; [exact K|exact (cl_keeps _ _ Hc)]|]. exists [Saved f false]. rewrite A6.
    split_and!; [done|intros ?? [=]%list_elem_of_singleton|done|].
    intros Hs g ok [= -> ->]%list_elem_of_singleton. split; [by apply Hf|done].
  - split_and!; try done. by apply C.
Qed.

Lemma calm_save : op_calm (save store).
Proof. intros [r [l w]]. pose proof (save_spec r l w) as Hs. cbv zeta in Hs. destruct (save store _) as [ok s']. apply Hs. Qed.

Lemma calm_reserve n : op_calm (reserve n).
Proof.
  unfold reserve. apply calm_bind.
  { intros [r w]. cbn. pose proof (trim_keeps n r) as K. destruct (trimOperations n (ru_file r)) as [f ok]. cbn in *.
    split; [done|]. exists []. rewrite app_nil_r.
    split_and!; [done|intros ?? ?%elem_of_nil; done|by intros ? ?%elem_of_nil|by intros ? ?? ?%elem_of_nil]. }
  intros []; [apply calm_ret|]. apply calm_bind; [apply calm_ask|]. intros d. apply calm_bind.
  - apply calm_change. intros r. destruct (ru_stop r) eqn:E; [done|]. keeps_done.
    unfold storage_stopped. by rewrite E.
  - intros _. pose proof calm_problem. calm_auto.
Qed.

Lemma calm_set_halt reason (e : err) : op_calm (set_halt reason e).
Proof. apply calm_change. intros r. destruct (ru_halt r) eqn:E; [done|]. keeps_done. Qed.

Lemma calm_deadline (e : err) : op_calm (deadline_err e).
Proof. unfold deadline_err. destruct calm_reads as (_&_&_&_&_&_&_&_&_&?). calm_auto. Qed.

Lemma calm_haltFor (e : err) : op_calm (haltFor e).
Proof. unfold haltFor. pose proof calm_deadline. pose proof calm_set_halt. calm_auto. Qed.

Lemma calm_active : op_calm active.
Proof. unfold active. pose proof calm_haltFor. destruct calm_reads as (_&_&_&_&_&_&_&_&_&?). calm_auto. Qed.

Lemma calm_list_pages {A} (page : Z → W → (list A * bool + Err) * W) (a : Z → (list A * bool + Err) → list (act Err)) fuel p out :
  (∀ p x, Forall is_read (a p x)) → op_calm (list_pages maxListPages (λ p, logged (page p) (a p)) fuel p out).
Proof.
  intros Ha. revert p out. induction fuel as [|fuel IH]; intros p out; cbn [list_pages]; [apply calm_ret|].
  apply calm_bind; [by apply calm_call|]. intros [[items next]|e]; [|apply calm_ret]. destruct (negb next); [apply calm_ret|apply IH].
Qed.

Lemma calm_listings :
  (∀ rs st head, op_calm (listPulls maxListPages rs st head)) ∧ (∀ rs n, op_calm (listComments maxListPages rs n)).
Proof.
  split; intros; unfold listPulls, listComments, listAll;
    [apply (calm_list_pages (λ p, ListPulls (rt_name rs) st head p) (λ p x, [ReadPulls (rt_name rs) st head p x]))
    |apply (calm_list_pages (λ p, ListIssueComments (rt_name rs) n p) (λ p x, [ReadComments (rt_name rs) n p x]))];
    repeat constructor.
Qed.

(** *** The operations that only read and save *)

#[local] Hint Resolve calm_set_record calm_set_attempt calm_add_record calm_set_replacement calm_set_status calm_problem
  calm_set_view calm_event calm_settle calm_storageFailed calm_save calm_reserve calm_set_halt calm_deadline calm_haltFor
  calm_active : calm.

Lemma calm_on_file (f : PRStoreFile → PRStoreFile) :
  (∀ fl, fl_Operations (f fl) = fl_Operations fl ∧ fl_NextSeq (f fl) = fl_NextSeq fl ∧ fl_DeliveredSeq (f fl) = fl_DeliveredSeq fl) →
  op_calm (on_file f).
Proof. intros Hf. apply calm_change. intros r. destruct (Hf (ru_file r)) as (?&?&?). by apply keeps_same. Qed.

Ltac calm_step ::=
  match goal with
  | |- op_calm (mret _) => apply calm_ret
  | |- op_calm (ask _) => apply calm_ask
  | |- op_calm (repo_at _) => apply calm_ask
  | |- op_calm (record_at _) => apply calm_ask
  | |- op_calm (attempt_at _) => apply calm_ask
  | |- op_calm (replacement_at _ _) => unfold replacement_at
  | |- op_calm (mbind _ _) => apply calm_bind; [|intros ?]
  | |- op_calm (call _) => solve [apply calm_reads]
  | |- op_calm (listPulls _ _ _ _) => apply calm_listings
  | |- op_calm (listComments _ _ _) => apply calm_listings
  | |- op_calm (set_repo _ _) => apply calm_set_repo; intros ?; repeat case_match; by split_and!
  | |- op_calm (match ?x with _ => _ end) => destruct x
  | _ => solve [eauto 2 with calm nocore]
  end.

Lemma calm_blockRepo i code reason detail : op_calm (blockRepo i code reason detail).
Proof. unfold blockRepo. calm_auto. Qed.
Lemma calm_blockTarget i a reason detail : op_calm (blockTarget i a reason detail).
Proof. unfold blockTarget. calm_auto. Qed.
Lemma calm_stop_status : op_calm stop_status.
Proof. unfold stop_status. calm_auto. Qed.
Lemma calm_halt_status : op_calm halt_status.
Proof. unfold halt_status. calm_auto. Qed.
#[local] Hint Resolve calm_blockRepo calm_blockTarget calm_stop_status calm_halt_status : calm.
Lemma calm_stopped c : op_calm (stopped c).
Proof. unfold stopped. calm_auto. Qed.
Lemma calm_readFailure what (e : err) : op_calm (readFailure what e).
Proof. unfold readFailure. calm_auto. Qed.
Lemma calm_writeFailure kind (e : @writeErr Err) : op_calm (writeFailure kind e).
Proof. unfold writeFailure. calm_auto. Qed.
Lemma calm_recheckCandidate ref cand : op_calm (recheckCandidate ref cand).
Proof. unfold recheckCandidate. calm_auto. Qed.
Lemma calm_decide_loop ri inh l b : op_calm (decide_loop ri inh l b).
Proof. revert b. induction l as [|i l IH]; intros b; cbn [decide_loop]; calm_auto; apply IH. Qed.
#[local] Hint Resolve calm_stopped calm_readFailure calm_writeFailure calm_recheckCandidate calm_decide_loop : calm.
Lemma calm_decideReplacements ri : op_calm (decideReplacements store ri).
Proof. unfold decideReplacements. calm_auto. Qed.
#[local] Hint Resolve calm_decideReplacements : calm.

Lemma calm_recover_pulls rs l out : op_calm (recover_pulls maxListPages rs l out).
Proof. revert out. induction l as [|pr l IH]; intros out; cbn [recover_pulls]; calm_auto; apply IH. Qed.
#[local] Hint Resolve calm_recover_pulls : calm.
Lemma calm_recoverRepo i : op_calm (recoverRepo maxListPages i).
Proof. unfold recoverRepo. calm_auto. Qed.
#[local] Hint Resolve calm_recoverRepo : calm.
Lemma calm_recover_loop l all inits : op_calm (recover_loop maxListPages l all inits).
Proof. revert all inits. induction l as [|i l IH]; intros all inits; cbn [recover_loop]; calm_auto; apply IH. Qed.
#[local] Hint Resolve calm_recover_loop : calm.

Lemma calm_fmap_repos (f : repoState → repoState) :
  (∀ rs, rt_name (f rs) = rt_name rs ∧ rt_info (f rs) = rt_info rs ∧ (rt_ok (f rs) = true → rt_ok rs = true)) →
  op_calm (change (λ r, r <| ru_repos := f <$> ru_repos r |>)).
Proof.
  intros Hf. apply calm_change. intros r. split; try done; cbn.
  - rewrite <- list_fmap_compose. apply list_fmap_ext. intros _ rs _. cbn. by rewrite (proj1 (Hf rs)).
  - intros k rs Hk. rewrite list_lookup_fmap in Hk. apply fmap_Some in Hk as (rs0 & Hk & ->).
    exists rs0. by destruct (Hf rs0) as (-> & -> & Ho).
Qed.

Lemma calm_recoverAll : op_calm (recoverAll store maxListPages).
Proof.
  unfold recoverAll, all_repos. calm_auto.
  - by apply calm_on_file.
  - apply calm_fmap_repos. intros rs. destruct (String.eqb _ _); by split_and!.
Qed.

Lemma add_unknown_same f recs :
  let f' := foldl add_unknown f recs in
  fl_Operations f' = fl_Operations f ∧ fl_NextSeq f' = fl_NextSeq f ∧ fl_DeliveredSeq f' = fl_DeliveredSeq f.
Proof.
  cbv zeta. revert f. induction recs as [|rec recs IH]; intros f; [done|]. cbn [foldl].
  destruct (IH (add_unknown f rec)) as (-> & -> & ->). unfold add_unknown. by destruct (recordByNumber _ _ _).
Qed.

Lemma calm_initAddedRepos : op_calm (initAddedRepos store maxListPages).
Proof.
  unfold initAddedRepos, all_repos. calm_auto. rename x into l. induction l as [|i l IH]; cbn [init_added]; calm_auto; try exact IH.
  - apply calm_on_file. intros fl. apply (add_unknown_same fl).
  - by apply calm_on_file.
Qed.

Lemma record_pulls_same id a pulls f :
  let f' := record_pulls id a pulls f in
  fl_Operations f' = fl_Operations f ∧ fl_NextSeq f' = fl_NextSeq f ∧ fl_DeliveredSeq f' = fl_DeliveredSeq f ∧
  fl_Attempts f' = fl_Attempts f.
Proof.
  cbv zeta. unfold record_pulls. revert f. induction pulls as [|pr pulls IH]; intros f; [done|]. cbn [foldl].
  destruct (IH (match recordByNumber f id (gp_Number pr) with Some _ => f | None => f <| fl_PRs := fl_PRs f ++ [record_for_attempt a pr] |> end))
    as (-> & -> & -> & ->). by destruct (recordByNumber _ _ _).
Qed.

Lemma distrust_pulls_same id why pulls f :
  let f' := distrust_pulls id why pulls f in
  fl_Operations f' = fl_Operations f ∧ fl_NextSeq f' = fl_NextSeq f ∧ fl_DeliveredSeq f' = fl_DeliveredSeq f ∧
  fl_Attempts f' = fl_Attempts f.
Proof.
  cbv zeta. unfold distrust_pulls. revert f. induction pulls as [|pr pulls IH]; intros f; [done|]. cbn [foldl].
  match goal with |- context [foldl ?g ?x pulls] => destruct (IH x) as (-> & -> & -> & ->) end.
  by destruct (recordByNumber _ _ _).
Qed.

Lemma calm_settleAttemptPulls i ai pulls : op_calm (settleAttemptPulls i ai pulls).
Proof.
  unfold settleAttemptPulls. calm_auto.
  - apply calm_on_file. intros fl. destruct (record_pulls_same (gi_ID (rt_info x)) x0 pulls fl) as (?&?&?&?). done.
  - apply calm_on_file. intros fl.
    match goal with |- context [distrust_pulls ?a ?b ?c ?d] => destruct (distrust_pulls_same a b c d) as (?&?&?&?) end. done.
Qed.
#[local] Hint Resolve calm_settleAttemptPulls : calm.

Lemma calm_reconcileAttempt i ai : op_calm (reconcileAttempt maxListPages i ai).
Proof. unfold reconcileAttempt. calm_auto. Qed.
Lemma calm_findSupersede rs rec n : op_calm (findSupersede maxListPages rs rec n).
Proof. unfold findSupersede. calm_auto. Qed.
#[local] Hint Resolve calm_reconcileAttempt calm_findSupersede : calm.
Lemma calm_settleClose i ri j : op_calm (settleClose maxListPages i ri j).
Proof. unfold settleClose. calm_auto. Qed.
Lemma calm_fail_repo i (e : err) : op_calm (fail_repo i e).
Proof. unfold fail_repo. calm_auto. Qed.
Lemma calm_block_or_halt i d : op_calm (block_or_halt i d).
Proof. unfold block_or_halt. calm_auto. Qed.
Lemma calm_adopt_open i pr m : op_calm (adopt_open i pr m).
Proof. unfold adopt_open. calm_auto. Qed.
#[local] Hint Resolve calm_settleClose calm_fail_repo calm_block_or_halt calm_adopt_open : calm.
Lemma calm_open_loop i l seen : op_calm (open_loop i l seen).
Proof. revert seen. induction l as [|pr l IH]; intros seen; cbn [open_loop]; calm_auto; apply IH. Qed.
Lemma calm_stored_loop i seen l : op_calm (stored_loop store i seen l).
Proof. induction l as [|ri l IH]; cbn [stored_loop]; calm_auto; apply IH. Qed.
Lemma calm_attempts_loop i l : op_calm (attempts_loop store maxListPages i l).
Proof. induction l as [|ai l IH]; cbn [attempts_loop]; calm_auto; apply IH. Qed.
Lemma calm_closes_of i ri l : op_calm (closes_of store maxListPages i ri l).
Proof. induction l as [|j l IH]; cbn [closes_of]; calm_auto; apply IH. Qed.
#[local] Hint Resolve calm_closes_of : calm.
Lemma calm_closes_loop i l : op_calm (closes_loop store maxListPages i l).
Proof. induction l as [|ri l IH]; cbn [closes_loop]; calm_auto; apply IH. Qed.
#[local] Hint Resolve calm_open_loop calm_stored_loop calm_attempts_loop calm_closes_loop : calm.
Lemma calm_reconcileRepo i : op_calm (reconcileRepo store maxListPages i).
Proof. unfold reconcileRepo. calm_auto. Qed.
#[local] Hint Resolve calm_reconcileRepo : calm.
Lemma calm_for_each body l : (∀ i, op_calm (body i)) → op_calm (for_each body l).
Proof. intros Hb. induction l as [|i l IH]; cbn [for_each]; calm_auto. Qed.

Lemma calm_earlier_attempts c key l b : op_calm (earlier_attempts store c key l b).
Proof. revert b. induction l as [|ai l IH]; intros b; cbn [earlier_attempts]; calm_auto; apply IH. Qed.
Lemma calm_kept_branch c ai b : op_calm (kept_branch c ai b).
Proof. unfold kept_branch. calm_auto. Qed.
Lemma calm_advance ai st : op_calm (advance store ai st).
Proof. unfold advance. calm_auto. Qed.
Lemma calm_found_pulls c ai pulls : op_calm (found_pulls store c ai pulls).
Proof. unfold found_pulls. calm_auto. Qed.
Lemma calm_known_update ri : op_calm (known_update store ri).
Proof. unfold known_update. calm_auto. Qed.
Lemma calm_abandon ri j d : op_calm (abandonReplacement store ri j d).
Proof. unfold abandonReplacement. calm_auto. Qed.
#[local] Hint Resolve calm_earlier_attempts calm_kept_branch calm_advance calm_found_pulls calm_known_update calm_abandon : calm.
Lemma calm_canWrite i : op_calm (canWrite i).
Proof. unfold canWrite. calm_auto. Qed.
Lemma calm_eligiblePair ri oi j : op_calm (eligiblePair store ri oi j).
Proof. unfold eligiblePair. calm_auto. Qed.
Lemma calm_check_new i ri j : op_calm (check_new store i ri j).
Proof. unfold check_new. calm_auto. Qed.
Lemma calm_check_old i ri oi j : op_calm (check_old store i ri oi j).
Proof. unfold check_old. calm_auto. Qed.
#[local] Hint Resolve calm_eligiblePair calm_check_new calm_check_old : calm.
Lemma calm_checkPair i ri oi j : op_calm (checkPair store i ri oi j).
Proof. unfold checkPair. calm_auto. Qed.
Lemma calm_candidate_holds ri j : op_calm (candidate_holds store ri j).
Proof. unfold candidate_holds. calm_auto. Qed.
#[local] Hint Resolve calm_checkPair calm_candidate_holds : calm.

(** The reference of an adopted commit is set on an event of the log. *)
Lemma sequenced_set_ref f sha n :
  sequenced f → sequenced (f <| fl_Operations := alter (λ ev, ev <| ev_Ref := sha |>) n (fl_Operations f) |>).
Proof.
  intros [S1 S2 S3 S4]. set (ops := alter _ n (fl_Operations f)).
  assert (E : (λ ev, (ev_Seq ev, ev_ID ev)) <$> ops = (λ ev, (ev_Seq ev, ev_ID ev)) <$> fl_Operations f).
  { apply list_eq. intros k. unfold ops. rewrite !list_lookup_fmap, list_lookup_alter. case_decide; [|done]. subst k.
    by destruct (fl_Operations f !! n). }
  assert (Hin : ∀ op, op ∈ ops → ∃ op', op' ∈ fl_Operations f ∧ ev_Seq op = ev_Seq op' ∧ ev_ID op = ev_ID op').
  { intros op Hop. assert ((ev_Seq op, ev_ID op) ∈ (λ ev, (ev_Seq ev, ev_ID ev)) <$> fl_Operations f) as (op' & [= ? ?] & ?)%list_elem_of_fmap.
    { rewrite <- E. apply list_elem_of_fmap. by exists op. } by exists op'. }
  split; cbn; fold ops; [|intros op (op' & Hop & -> & _)%Hin; by apply S2|intros op (op' & Hop & _ & ->)%Hin; by apply S3|done].
  clearbody ops. clear - S1 E. revert ops E. induction S1 as [|x l Hl IH Hf]; intros [|y ops] E; try done; [constructor|].
  injection E as Ey _ E.
  change ((λ ev, (ev_Seq ev, ev_ID ev)) <$> ops = (λ ev, (ev_Seq ev, ev_ID ev)) <$> l) in E. constructor; [by apply IH|]. apply Forall_forall. intros z Hz. rewrite Forall_forall in Hf.
  assert (∃ z', z' ∈ l ∧ ev_Seq z = ev_Seq z') as (z' & Hz' & ->).
  { assert ((ev_Seq z, ev_ID z) ∈ (λ ev, (ev_Seq ev, ev_ID ev)) <$> l) as (z' & [= ? ?] & ?)%list_elem_of_fmap.
    { rewrite <- E. apply list_elem_of_fmap. by exists z. } by exists z'. }
  rewrite Ey. by apply Hf.
Qed.

Lemma seq_ok_set_ref f sha n :
  seq_ok f → seq_ok (f <| fl_Operations := alter (λ ev, ev <| ev_Ref := sha |>) n (fl_Operations f) |>).
Proof.
  intros [S|(op & [k Hk]%list_elem_of_lookup & Hd & Hn & Hm)]; [left; by apply sequenced_set_ref|right].
  exists (if decide (n = k) then op <| ev_Ref := sha |> else op). cbn. split_and!; [|by case_decide..].
  apply list_elem_of_lookup. exists k. rewrite list_lookup_alter. case_decide; subst; by rewrite Hk.
Qed.

Lemma calm_existing_branch i ai opID commit b : op_calm (existing_branch store i ai opID commit b).
Proof.
  unfold existing_branch. calm_auto. apply calm_change. intros r. keeps_done. apply seq_ok_set_ref.
Qed.


(** ** The invariant *)

(** A pull request was opened. *)
Definition opened (a : act Err) : bool := match a with Sent (CreatePull _ _) (inl _) => true | _ => false end.
Definition opened_count (l : list (act Err)) : Z := Z.of_nat (length (filter (λ a, opened a = true) l)).

Section units.
Context (units : list composeUnit).
Notation recorded := (recorded gh_is units).
Notation justified := (justified units).

(** [d] pull requests were opened that are not counted yet. *)
Record inv (d : Z) (s : state) : Prop := mk_inv {
  in_ops : seq_ok (file s);
  in_named : named (fst s);
  in_recorded : recorded (log s);
  in_quiet : quiet gh_is (log s) ∨ is_Some (ru_halt (fst s)) ∨ is_Some (ru_stop (fst s));
  in_saves : (∀ f, Saved f false ∉ log s) ∨ storage_stopped (fst s) = true;
  in_saved : ∀ f ok, Saved f ok ∈ log s → good_save f ok;
  in_opened : opened_count (log s) = (ru_newPRs (fst s) + d)%Z;
  in_limit : (ru_newPRs (fst s) ≤ Z.max 0 (ql_NewPRsPerCycle limits))%Z
}.

Lemma storage_stopped_stop r : storage_stopped r = true → is_Some (ru_stop r).
Proof. unfold storage_stopped. destruct (ru_stop r); [by eexists|done]. Qed.

Lemma opened_count_app (l k : list (act Err)) : opened_count (l ++ k) = (opened_count l + opened_count k)%Z.
Proof. unfold opened_count. rewrite filter_app, length_app. lia. Qed.

Lemma opened_count_unsent (l : list (act Err)) : (∀ q x, Sent q x ∉ l) → opened_count l = 0%Z.
Proof.
  intros Hl. unfold opened_count. induction l as [|a l IH]; [done|].
  rewrite filter_cons_False; [apply IH; intros q x ?; eapply Hl; by right|].
  destruct a as [| | | | | | | | | |q x]; try done. exfalso. eapply Hl. by left.
Qed.

Lemma app_split_sent (l k l1 : list (act Err)) q x l2 :
  (∀ q x, Sent q x ∉ k) → l ++ k = l1 ++ Sent q x :: l2 → ∃ l3, l2 = l3 ++ k ∧ l = l1 ++ Sent q x :: l3.
Proof.
  intros Hk E. apply app_eq_inv in E as [(m & -> & E)|(m & -> & E)].
  - destruct m as [|a m]; cbn in E.
    + exfalso. eapply Hk. rewrite <- E. by left.
    + injection E as <- ->. by exists m.
  - exfalso. apply (Hk q x). rewrite E. apply elem_of_app. right. by left.
Qed.

Lemma recorded_app (l k : list (act Err)) : (∀ q x, Sent q x ∉ k) → recorded l → recorded (l ++ k).
Proof.
  intros Hk Hr l1 q x l2 E. apply app_split_sent in E as (l3 & -> & ->); [|done].
  destruct (Hr l1 q x l3 eq_refl) as (m & f & ev & f' & ok & res & l4 & E1 & -> & ?). by exists m, f, ev, f', ok, res, (l4 ++ k).
Qed.

Lemma inv_calm d s s' : calm s s' → inv d s → inv d s'.
Proof.
  intros [K (l & El & Hl & Hbad & Hseq)] [I1 I2 I3 I4 I5 I6 I7 I8]. split.
  - by apply K.
  - by eapply keeps_named.
  - rewrite El. by apply recorded_app.
  - destruct I4 as [[Q1 Q2]|[?|?]]; [|right; left; by apply K|right; right; by apply K].
    destruct (decide (storage_stopped (fst s') = true)) as [Hs|Hs]; [right; right; by apply storage_stopped_stop|].
    left. rewrite El. split; [intros f [?|Hf]%elem_of_app; [by eapply Q1|by apply Hs, (Hbad f)]|].
    intros q x [?|Hx]%elem_of_app; [by eapply Q2|by apply Hl in Hx].
  - destruct I5 as [I5|I5]; [|right; by apply K]. destruct (decide (storage_stopped (fst s') = true)) as [Hs|Hs]; [by right|left].
    intros f. rewrite El. intros [?|Hf]%elem_of_app; [by eapply I5|by apply Hs, (Hbad f)].
  - intros f ok. rewrite El. intros [?|Hf]%elem_of_app; [by eapply I6|by eapply Hseq].
  - rewrite El, opened_count_app, (opened_count_unsent l), (kp_new _ _ K) by done. lia.
  - by rewrite (kp_new _ _ K).
Qed.

(** A write may start: nothing ended the work, or the records cannot be saved
    and nothing is sent. *)
Definition clear (s : state) : Prop :=
  ru_halt (fst s) = None ∧ (ru_stop (fst s) = None ∨ storage_stopped (fst s) = true).

Definition repo (i : nat) (s : state) : repoState := nth i (ru_repos (fst s)) zero_repo.
Definition attempt (ai : nat) (s : state) : AttemptRecord := nth ai (fl_Attempts (file s)) zero_attempt.
Definition record (ri : nat) (s : state) : PRRecord := nth ri (fl_PRs (file s)) zero_pr.

(** What a step of the way to a write leaves alone: the way stays clear, the
    repositories keep their names. *)
Record near (s s' : state) : Prop := mk_near {
  nr_clear : clear s → clear s';
  nr_repos : ∀ i, rt_name (repo i s') = rt_name (repo i s) ∧ rt_info (repo i s') = rt_info (repo i s) ∧ rt_ok (repo i s') = rt_ok (repo i s);
  nr_new : ru_newPRs (fst s') = ru_newPRs (fst s)
}.

Record still (s s' : state) : Prop := mk_still {
  st_near : near s s';
  st_attempts : fl_Attempts (file s') = fl_Attempts (file s);
  st_prs : fl_PRs (file s') = fl_PRs (file s)
}.

#[export] Instance near_preorder : PreOrder near.
Proof.
  split; [by intros s; split|]. intros a b c [C1 R1 Z1] [C2 R2 Z2]. split; [tauto| |congruence]. intros i.
  destruct (R1 i) as (E1 & E2 & E3), (R2 i) as (E4 & E5 & E6). split_and!; congruence.
Qed.
#[export] Instance still_preorder : PreOrder still.
Proof.
  split; [intros s; by split|]. intros a b c [N1 A1 P1] [N2 A2 P2]. split; [by etransitivity|congruence|congruence].
Qed.

Lemma near_same r r' (w w' : St) :
  ru_halt r' = ru_halt r → ru_stop r' = ru_stop r → ru_repos r' = ru_repos r → ru_newPRs r' = ru_newPRs r → near (r, w) (r', w').
Proof.
  intros E1 E2 E3 E4. split; [| |done]; unfold clear, repo, storage_stopped; cbn [fst]; by rewrite ?E1, ?E2, ?E3.
Qed.

Lemma still_same r r' (w w' : St) :
  ru_halt r' = ru_halt r → ru_stop r' = ru_stop r → ru_repos r' = ru_repos r → ru_newPRs r' = ru_newPRs r →
  fl_Attempts (ru_file r') = fl_Attempts (ru_file r) → fl_PRs (ru_file r') = fl_PRs (ru_file r) → still (r, w) (r', w').
Proof. intros E1 E2 E3 E4 E5 E6. split; [by apply near_same|done|done]. Qed.

Lemma trim_same n f : let f' := fst (trimOperations n f) in fl_Attempts f' = fl_Attempts f ∧ fl_PRs f' = fl_PRs f.
Proof.
  cbv zeta. unfold trimOperations. destruct (_ <=? 0)%Z; [done|]. by destruct (trim_loop _ _ _ _).
Qed.

Lemma save_still s : still s (snd (save store s)).
Proof.
  destruct s as [r [l w]]. pose proof (save_spec r l w) as Hs. cbv zeta in Hs. destruct (save store _) as [ok s'].
  destruct Hs as (Hc & Hstop & Hgo). cbn [snd]. destruct (storage_stopped r) eqn:E; [by destruct (Hstop eq_refl) as [_ ->]|].
  destruct (Hgo eq_refl) as (_ & Ef & Er & Eh & _ & Hok & Hbad). destruct (trim_same 0 (ru_file r)) as [Ea Ep].
  split; [|cbn; by rewrite Ef|cbn; by rewrite Ef]. split.
  - intros [C1 C2]. split; [by rewrite Eh|]. destruct ok; [left|right; by apply Hbad].
    rewrite Hok by done. destruct C2 as [?|C2]; [done|]. cbn in C2. congruence.
  - intros i. unfold repo. cbn [fst]. by rewrite Er.
  - apply Hc.
Qed.

Lemma event_still ev s : still s (snd (event ev s)).
Proof.
  destruct s as [r w]. unfold event. cbn [fst snd]. pose proof (append_event_spec (ru_file r) ev) as He.
  destruct (append_event (ru_file r) ev) as [ev' f']. destruct He as (_ & _ & Ep & Ea & _). by apply still_same.
Qed.

Lemma call_still {A} (f : W → A * W) (a : A → list (act Err)) s : still s (snd (call (logged f a) s)).
Proof. destruct s as [r [l w]]. unfold call, logged. cbn. destruct (f w). by apply still_same. Qed.

(** ** A write *)

Lemma trim_loop_last delivered keep excess ops ev :
  (delivered < ev_Seq ev)%Z → last (fst (trim_loop delivered keep excess (ops ++ [ev]))) = Some ev.
Proof.
  intros Hd. assert (∃ out e, trim_loop delivered keep excess (ops ++ [ev]) = (out ++ [ev], e)) as (out & e & ->).
  { revert excess. induction ops as [|op ops IH]; intros excess; cbn [app trim_loop].
    - rewrite (proj2 (Z.leb_gt _ _)) by lia. rewrite andb_false_r. by exists [], excess.
    - destruct (_ && _ && _); [apply IH|]. destruct (IH excess) as (out & e & ->). by exists (op :: out), e. }
  cbn. by rewrite last_snoc.
Qed.

Lemma trim_last n f ops ev :
  fl_Operations f = ops ++ [ev] → (fl_DeliveredSeq f < ev_Seq ev)%Z →
  last (fl_Operations (fst (trimOperations n f))) = Some ev.
Proof.
  intros E Hd. unfold trimOperations. destruct (_ <=? 0)%Z; [cbn; by rewrite E, last_snoc|].
  pose proof (trim_loop_last (fl_DeliveredSeq f) (unsettledAttemptKeys f)
    (Z.of_nat (length (fl_Operations f)) + Z.of_nat n - Z.of_nat maxOperationEvents)%Z ops ev Hd) as Hl.
  rewrite <- E in Hl. destruct (trim_loop _ _ _ _) as [out e]. exact Hl.
Qed.

Lemma recorded_write (l : list (act Err)) f q x f' ok ev res :
  recorded l → quiet gh_is l → last (fl_Operations f) = Some ev → intent_of q ev → justified l f ev q →
  last (fl_Operations f') = Some res → result_of gh_is x ev res →
  recorded (l ++ [Saved f true; Sent q x; Saved f' ok]).
Proof.
  intros Hr Hq E1 E2 E3 E4 E5 l1 q0 x0 l2 E. apply app_eq_inv in E as [(m & -> & E)|(m & -> & E)].
  - destruct m as [|a m]; [done|]. injection E as <- ->.
    destruct (Hr l1 q0 x0 m eq_refl) as (k & g & ev0 & g' & ok0 & res0 & l4 & -> & -> & ?).
    by exists k, g, ev0, g', ok0, res0, (l4 ++ [Saved f true; Sent q x; Saved f' ok]).
  - destruct m as [|a m]; [done|]. injection E as <- E. destruct m as [|b m]; [|injection E as <- E; destruct m as [|c m]; [done|]; injection E as _ E; by destruct m].
    injection E as E Ex <-. subst q0. apply (inj_pair2_eq_dec _ request_eq_dec) in Ex as <-.
    by exists l, f, ev, f', ok, res, [].
Qed.

(** What a request counts for. *)
Definition opens (q : request) {E : Type} (x : answer q + E) : Z :=
  match x with inl _ => match q with CreatePull _ _ => 1 | _ => 0 end | inr _ => 0 end.

Lemma opens_sent q (x : answer q + Err) : opened_count [Sent q x] = opens q x.
Proof. by destruct q, x. Qed.

(** The halt a final error brings. *)
Lemma haltFor_spec (e : err) r l w :
  let '(b, s') := haltFor e (r, (l, w)) in
  ∃ h w', s' = (r <| ru_halt := h |>, (l, w')) ∧ (is_Some (ru_halt r) → is_Some h) ∧ (b = true → is_Some h) ∧
    (b = false → h = ru_halt r) ∧
    (err_is Canceled e || err_is DeadlineExceeded e || err_is ErrRateLimited e || err_is ErrBudgetExhausted e = true → b = true) ∧
    (err_is ErrTimeout e || err_is Canceled e || err_is DeadlineExceeded e || err_is ErrRateLimited e || err_is ErrBudgetExhausted e = false → b = false).
Proof.
  unfold haltFor, mbind, stage_bind.
  assert (∃ (b : bool) w', deadline_err e (r, (l, w)) = (b, (r, (l, w'))) ∧
    (err_is Canceled e || err_is DeadlineExceeded e = true → b = true) ∧
    (err_is ErrTimeout e || err_is Canceled e || err_is DeadlineExceeded e = false → b = false)) as (b & w' & -> & Hb & Hf).
  { unfold deadline_err. destruct (err_is Canceled e || err_is DeadlineExceeded e) eqn:E.
    - exists true, w. split_and!; [done|done|]. intros Hf. revert E. by destruct (err_is ErrTimeout e), (err_is Canceled e), (err_is DeadlineExceeded e).
    - destruct (err_is ErrTimeout e); [|by exists false, w].
      unfold mbind, stage_bind, call, ctx_Err. cbn. unfold logged. cbn. destruct (ctx_Err w) as [err w'].
      eexists _, w'. split_and!; [by rewrite app_nil_r|done|done]. }
  assert (Hset : ∀ reason, ∃ h, set_halt reason e (r, (l, w')) = (tt, (r <| ru_halt := h |>, (l, w'))) ∧ is_Some h).
  { intros reason. unfold set_halt, change. cbn. destruct (ru_halt r) as [h|] eqn:E; [|eexists; split; [done|by eexists]].
    exists (ru_halt r). rewrite E. split; [|by eexists]. rewrite <- E. by destruct r. }
  unfold mret, stage_ret. destruct b.
  { destruct (Hset ReasonCycleDeadline) as (h & -> & Hh). exists h, w'. split_and!; try done.
    intros Hx. enough (true = false) by done. apply Hf. revert Hx.
    by destruct (err_is ErrTimeout e), (err_is Canceled e), (err_is DeadlineExceeded e). }
  destruct (err_is ErrRateLimited e) eqn:E1.
  { destruct (Hset ReasonGitHubRateLimited) as (h & -> & Hh). exists h, w'. split_and!; try done. rewrite orb_true_r. done. }
  destruct (err_is ErrBudgetExhausted e) eqn:E2.
  { destruct (Hset ReasonGitHubBudget) as (h & -> & Hh). exists h, w'. split_and!; try done. by rewrite orb_true_r. }
  exists (ru_halt r), w'. split_and!; try done; [by destruct r|]. rewrite !orb_false_r. exact Hb.
Qed.

(** The invariant after a write, from the files saved around it. *)
Lemma inv_write d r l w q (x : answer q + Err) f f' ok ev res r' w' :
  inv d (r, (l, w)) → quiet gh_is l →
  good_save f true → good_save f' ok → ru_file r' = f' → named r' → ru_newPRs r' = ru_newPRs r →
  last (fl_Operations f) = Some ev → intent_of q ev → justified l f ev q →
  last (fl_Operations f') = Some res → result_of gh_is x ev res →
  (final_outcome gh_is x → is_Some (ru_halt r') ∨ is_Some (ru_stop r')) → (ok = false → storage_stopped r' = true) →
  inv (d + opens q x) (r', (l ++ [Saved f true; Sent q x; Saved f' ok], w')).
Proof.
  intros [I1 I2 I3 I4 I5 I6 I7 I8] Hq S1 S2 Ef Hn Hnew L1 T1 J L2 T2 Hfin Hbad. split; cbn [fst snd].
  - rewrite Ef. apply S2.
  - done.
  - by eapply recorded_write.
  - destruct (decide (storage_stopped r' = true)) as [?|Hs]; [right; right; by apply storage_stopped_stop|].
    assert (Dec : final_outcome gh_is x ∨ ¬ final_outcome gh_is x).
    { unfold final_outcome. destruct x as [|e]; [right; intros []|]. destruct (_ || _); [left; reflexivity|right; intros [=]]. }
    destruct Dec as [Hf|Hf]; [right; by apply Hfin|left]. destruct Hq as [Q1 Q2]. split.
    + intros g [?|Hg]%elem_of_app; [by eapply Q1|]. rewrite !elem_of_cons in Hg.
      destruct Hg as [[=]|[[=]|[Eg|?%elem_of_nil]]]; [|done]. injection Eg as _ Eok. by apply Hs, Hbad.
    + intros q0 x0 [?|Hx]%elem_of_app; [by eapply Q2|]. rewrite !elem_of_cons in Hx.
      destruct Hx as [[=]|[Ex|[[=]|?%elem_of_nil]]]; [|done]. injection Ex as -> Ex.
      by apply (inj_pair2_eq_dec _ request_eq_dec) in Ex as ->.
  - destruct ok; [left|right; by apply Hbad]. intros g [?|Hg]%elem_of_app; [by eapply (proj1 Hq)|]. rewrite !elem_of_cons in Hg.
    by destruct Hg as [[=]|[[=]|[[=]|?%elem_of_nil]]].
  - intros g b [?|Hg]%elem_of_app; [by eapply I6|]. rewrite !elem_of_cons in Hg.
    by destruct Hg as [[= -> ->]|[[=]|[[= -> ->]|?%elem_of_nil]]].
  - cbn in I7. rewrite opened_count_app, Hnew. change [Saved f true; Sent q x; Saved f' ok] with ([Saved f true] ++ [Sent q x] ++ [Saved f' ok]).
    rewrite !opened_count_app, opens_sent, I7. change (opened_count [Saved f true]) with 0%Z. change (opened_count [Saved f' ok]) with 0%Z. lia.
  - by rewrite Hnew.
Qed.

(** The end of a write: the result is logged and saved. *)
Lemma write_end d r l w q (x : answer q + Err) f ev r3 w3 res :
  inv d (r, (l, w)) → quiet gh_is l → good_save f true → last (fl_Operations f) = Some ev → intent_of q ev → justified l f ev q →
  ru_file r3 = f → ru_repos r3 = ru_repos r → ru_newPRs r3 = ru_newPRs r → storage_stopped r3 = false →
  ev_ID res ≠ "" → result_of gh_is x ev res → (final_outcome gh_is x → is_Some (ru_halt r3) ∨ is_Some (ru_stop r3)) →
  let s3 := (r3, (l ++ [Saved f true; Sent q x], w3)) in
  let s' := snd ((_ ← event res; save store) s3) in
  inv (d + opens q x) s' ∧ still s3 s'.
Proof.
  intros I Hq Sf Lf T J Ef Er En Est Hid Hres Hfin. cbv zeta. unfold mbind, stage_bind.
  pose proof (append_event_spec (ru_file r3) res) as He.
  pose proof (event_still res (r3, (l ++ [Saved f true; Sent q x], w3))) as N1.
  unfold event in *. cbn [fst snd] in *. destruct (append_event (ru_file r3) res) as [ev' f1]. cbn [fst snd] in *.
  destruct He as ([S1 _] & Eo & _ & _ & P1 & K1 & R1 & A1 & _ & Q1 & ID1 & _ & D1 & U1). rewrite Ef in *.
  set (r4 := r3 <| ru_file := f1 |>) in *. pose proof (save_spec r4 (l ++ [Saved f true; Sent q x]) w3) as Hs.
  pose proof (save_still (r4, (l ++ [Saved f true; Sent q x], w3))) as N2. cbv zeta in Hs.
  destruct (save store (r4, _)) as [ok s']. destruct Hs as (C & _ & Hgo). cbn [snd] in *.
  destruct (Hgo Est) as (El & Ef' & Er' & _ & _ & _ & Hbad). split; [|by etransitivity].
  destruct s' as [r' [l' w']]. cbn [fst snd] in *. subst l'. rewrite <- app_assoc. cbn [app].
  pose proof (cl_keeps _ _ C) as K. cbn [fst snd] in K.
  assert (Sf' : sequenced f) by (destruct Sf as [_ Hv]; by apply validate_sequenced, Hv).
  eapply (inv_write d r l w q x f (fst (trimOperations 0 f1)) ok ev ev'); try done.
  - destruct C as [_ (k & Ek & _ & _ & Hk)]. apply Hk; [by apply S1; left|]. cbn [fst snd] in Ek.
    apply app_inv_head in Ek as <-. by apply list_elem_of_singleton.
  - intros rs Hrs. rewrite Er' in Hrs. change (ru_repos r4) with (ru_repos r3) in Hrs. rewrite Er in Hrs. by apply I.
  - rewrite (kp_new _ _ K). exact En.
  - eapply trim_last; [exact Eo|]. rewrite D1. by apply U1.
  - destruct Hres as (X1 & X2 & X3 & X4 & X5). split_and!; [congruence|rewrite ID1; congruence|congruence..].
  - intros Hf. destruct (Hfin Hf) as [?|?]; [left; by apply K|right; by apply K].
Qed.

(** An error that names the end of the work is not the one that says a branch
    exists. *)
Definition exists_apart : Prop := ∀ e : Err, gh_is ErrRefExists e = true →
  gh_is ErrTimeout e || gh_is ErrOutcomeUnknown e || gh_is Canceled e || gh_is DeadlineExceeded e || gh_is ErrRateLimited e ||
  gh_is ErrBudgetExhausted e = false.

(** One write keeps the invariant; an answered one leaves the way clear. *)
Lemma write_spec d op q ref s :
  exists_apart → inv d s → clear s → ev_Kind op = kind_of_request q → ev_Repo op = repo_of_request q →
  (∀ f ev, fl_PRs f = fl_PRs (file s) → fl_Attempts f = fl_Attempts (file s) → ev_AttemptKey ev = ev_AttemptKey op →
     justified (log s) f ev q) →
  let '((_, x), s') := write store op q ref s in
  inv (d + match x with inl a => opens q (inl a : answer q + Err) | inr _ => 0%Z end) s' ∧
  match x with inl _ => still s s' | inr (Failed e) => gh_is ErrRefExists e = true → still s s' | inr WritesStopped => True end.
Proof.
  intros Hex I C Ek Er Hj. destruct s as [r [l w]]. unfold write, mbind at 1, stage_bind at 1.
  pose proof (append_event_spec (ru_file r) (op <| ev_Phase := PhaseIntent |>)) as He.
  pose proof (calm_event (op <| ev_Phase := PhaseIntent |>) (r, (l, w))) as C1.
  pose proof (event_still (op <| ev_Phase := PhaseIntent |>) (r, (l, w))) as N1.
  unfold event at 1. unfold event in C1, N1. cbn [fst snd] in *.
  destruct (append_event (ru_file r) _) as [ev1 f1]. cbn [fst snd] in *.
  destruct He as ([_ Over] & Eo1 & Ep1 & Ea1 & P1 & K1 & R1 & A1 & _ & _ & _ & ID1 & D1 & U1).
  set (r1 := r <| ru_file := f1 |>) in *.
  unfold mbind at 1, stage_bind at 1.
  pose proof (save_spec r1 l w) as Hs. pose proof (save_still (r1, (l, w))) as N2. cbv zeta in Hs.
  destruct (save store (r1, (l, w))) as [ok s2]. destruct Hs as (C2 & Hstop & Hgo). cbn [fst snd] in *.
  assert (I2 : inv d s2) by (by eapply inv_calm, inv_calm).
  destruct ok; cbn [negb].
  2:{ cbn. split; [|done]. by rewrite Z.add_0_r. }
  destruct (storage_stopped r1) eqn:Est; [by destruct (Hstop eq_refl)|].
  destruct (Hgo eq_refl) as (El2 & Ef2 & Er2 & Eh2 & _ & Es2 & _). specialize (Es2 eq_refl).
  change (ru_file r1) with f1 in *.
  assert (Est0 : storage_stopped r = false) by exact Est.
  destruct C as [Ch Cs]. cbn in Ch, Cs. destruct Cs as [Cs|Cs]; [|congruence].
  assert (Hq : quiet gh_is l).
  { destruct I as [_ _ _ [Hq|[Hh|Hh]] _ _ _ _]; cbn in *; [done|rewrite Ch in Hh|rewrite Cs in Hh]; by destruct Hh. }
  destruct s2 as [r2 [l2 w2]]. cbn [fst snd] in *. subst l2.
  assert (Sf : good_save (ru_file r2) true).
  { apply (in_saved _ _ I2). cbn [fst snd]. rewrite Ef2. apply elem_of_app. right. by left. }
  assert (L1 : last (fl_Operations (ru_file r2)) = Some ev1).
  { rewrite Ef2. eapply trim_last; [exact Eo1|]. rewrite D1. apply U1.
    destruct (in_ops _ _ I) as [Sr|Sr]; [exact Sr|]. exfalso. destruct Sf as [_ Hv]. rewrite Ef2 in Hv.
    specialize (Hv eq_refl). apply validate_sequenced in Hv. refine (sequenced_not_overrun _ Hv _). by apply trim_overrun, Over. }
  assert (T1 : intent_of q ev1) by (split_and!; [by rewrite P1|by rewrite K1, <- Ek|by rewrite R1, <- Er]).
  destruct (trim_same 0 f1) as [Ta Tp].
  assert (J : justified l (ru_file r2) ev1 q) by (apply Hj; rewrite ?Ef2, ?Ta, ?Tp; done).
  assert (N12 : still (r, (l, w)) (r2, (l ++ [Saved (ru_file r2) true], w2))) by (etransitivity; [exact N1|rewrite Ef2; exact N2]).
  assert (Hst2 : ru_halt r2 = None ∧ ru_stop r2 = None ∧ ru_newPRs r2 = ru_newPRs r ∧ storage_stopped r2 = false).
  { pose proof (kp_new _ _ (cl_keeps _ _ C2)) as Kn. cbn [fst snd] in Kn. rewrite Eh2, Es2, Kn.
    split_and!; try done. unfold storage_stopped. rewrite Es2. exact Est. }
  destruct Hst2 as (Hh2 & Hs2 & Hn2 & Hss2).
  unfold mbind at 1, stage_bind at 1. unfold call. cbn [fst snd]. unfold send at 1. cbn [logged_github]. unfold logged. cbn [fst snd].
  destruct (send q w2) as [x w3]. rewrite <- app_assoc. cbn [app]. rewrite <- Ef2.
  set (f2 := ru_file r2) in *.
  assert (Hopen : ∀ e : Err, opens q (inr e : answer q + Err) = 0%Z) by done.
  destruct x as [a|e].
  - set (res := zero_event <| ev_ID := ev_ID ev1 |> <| ev_Phase := PhaseResult |> <| ev_Kind := ev_Kind op |> <| ev_Repo := ev_Repo op |>
                 <| ev_AttemptKey := ev_AttemptKey op |> <| ev_Number := ev_Number op |> <| ev_Ref := ref (Some a) |> <| ev_Result := ResultOK |>).
    pose proof (write_end d r l w q (inl a) f2 ev1 r2 w3 res I Hq Sf L1 T1 J eq_refl Er2 Hn2 Hss2 ID1
      ltac:(split_and!; try done; congruence) ltac:(intros [])) as He.
    cbv zeta in He. unfold mbind, stage_bind, mret, stage_ret in *. destruct (event res _) as [[] s3]. destruct (save store s3) as [ok s4].
    cbn [snd] in He. destruct He as [He1 He2]. split; [exact He1|]. etransitivity; [exact N12|]. etransitivity; [|exact He2]. by apply still_same.
  - destruct (gh_is ErrOutcomeUnknown e) eqn:Eu.
    + set (res := zero_event <| ev_ID := ev_ID ev1 |> <| ev_Phase := PhaseResult |> <| ev_Kind := ev_Kind op |> <| ev_Repo := ev_Repo op |>
                 <| ev_AttemptKey := ev_AttemptKey op |> <| ev_Number := ev_Number op |> <| ev_Ref := ref None |> <| ev_Error := gh_Error e |>
                 <| ev_Result := ResultUnknown |>).
      unfold mbind at 1, stage_bind at 1, change. cbn [fst snd]. rewrite Hs2.
      match goal with |- context [Some (mk_stop ?x ?y ?z)] => set (stop := mk_stop x y z) end.
      set (r3 := r2 <| ru_stop := Some stop |>).
      assert (Hss : storage_stopped r3 = false) by reflexivity.
      pose proof (write_end d r l w q (inr e) f2 ev1 r3 w3 res I Hq Sf L1 T1 J eq_refl Er2 Hn2 Hss ID1
        ltac:(split_and!; try done; cbn in Eu |- *; try congruence; rewrite Eu; reflexivity) ltac:(intros _; right; by exists stop)) as He.
      cbv zeta in He. unfold mbind, stage_bind, mret, stage_ret in *. destruct (event res _) as [[] s3]. destruct (save store s3) as [ok s4].
      cbn [snd] in He. rewrite Hopen in He. destruct He as [He1 He2]. split; [exact He1|]. intros Hx%Hex. cbn in Eu, Hx. rewrite Eu in Hx. by rewrite orb_true_r in Hx.
    + set (res := zero_event <| ev_ID := ev_ID ev1 |> <| ev_Phase := PhaseResult |> <| ev_Kind := ev_Kind op |> <| ev_Repo := ev_Repo op |>
                 <| ev_AttemptKey := ev_AttemptKey op |> <| ev_Number := ev_Number op |> <| ev_Ref := ref None |> <| ev_Error := gh_Error e |>
                 <| ev_Result := ResultFailed |>).
      unfold mbind at 1, stage_bind at 1.
      pose proof (haltFor_spec (plain e) r2 (l ++ [Saved f2 true; Sent q (inr e)]) w3) as Hh.
      destruct (haltFor (plain e) _) as [b s3]. destruct Hh as (h & w4 & -> & _ & Hb & Hf & Hfin & Hnot).
      set (r3 := r2 <| ru_halt := h |>).
      pose proof (write_end d r l w q (inr e) f2 ev1 r3 w4 res I Hq Sf L1 T1 J eq_refl Er2 Hn2 Hss2 ID1
        ltac:(split_and!; try done; cbn in Eu |- *; try congruence; rewrite Eu; reflexivity)
        ltac:(unfold final_outcome; cbn in Eu |- *; rewrite Eu; intros Hx; left; apply Hb, Hfin, Hx)) as He.
      cbv zeta in He. unfold mbind, stage_bind, mret, stage_ret in *. destruct (event res _) as [[] s3]. destruct (save store s3) as [ok s4].
      cbn [snd] in He. rewrite Hopen in He. destruct He as [He1 He2]. split; [exact He1|]. intros Hx%Hex.
      etransitivity; [exact N12|]. etransitivity; [|exact He2].
      assert (Eb : b = false).
      { apply Hnot. cbn in Eu, Hx |- *. revert Hx. rewrite Eu. by rewrite orb_false_r. }
      apply still_same; try done. exact (Hf Eb).
Qed.
(** ** The way to a write *)

Definition wp {A} (m : stage A) (s : state) (Q : A → state → Prop) : Prop := Q (fst (m s)) (snd (m s)).

Lemma wp_bind {A B} (m : stage A) (k : A → stage B) s Q : wp m s (λ x s', wp (k x) s' Q) → wp (x ← m; k x) s Q.
Proof. unfold wp, mbind, stage_bind. by destruct (m s). Qed.

Lemma wp_mono {A} (m : stage A) s (P Q : A → state → Prop) : wp m s P → (∀ x s', P x s' → Q x s') → wp m s Q.
Proof. intros Hm HPQ. by apply HPQ. Qed.

Lemma wp_ask {A} (f : prRun → A) s Q : Q (f (fst s)) s → wp (ask f) s Q.
Proof. done. Qed.

Lemma wp_fail {A} (m : stage A) d s : op_calm m → inv d s → wp m s (λ _ s', inv d s').
Proof. intros Hm I. by apply (inv_calm d s). Qed.

(** What does not write keeps the invariant, whatever else it does. *)
Lemma wp_calm {A} (m : stage A) d s (Q : A → state → Prop) :
  op_calm m → inv d s → wp m s (λ x s', inv d s' → Q x s') → wp m s Q.
Proof. intros Hm I HQ. apply HQ. by apply (inv_calm d s). Qed.

Definition op_still {A} (m : stage A) : Prop := ∀ s, still s (snd (m s)).

Lemma wp_still {A} (m : stage A) s (Q : A → state → Prop) : op_still m → (∀ x s', still s s' → Q x s') → wp m s Q.
Proof. intros Hs HQ. apply HQ, Hs. Qed.

Lemma still_ret {A} (x : A) : op_still (mret x).
Proof. by intros s. Qed.
Lemma still_ask {A} (f : prRun → A) : op_still (ask f).
Proof. by intros s. Qed.
Lemma still_bind {A B} (m : stage A) (k : A → stage B) : op_still m → (∀ x, op_still (k x)) → op_still (x ← m; k x).
Proof.
  intros Hm Hk s. unfold mbind, stage_bind. specialize (Hm s). destruct (m s) as [x s1]. etransitivity; [exact Hm|]. apply Hk.
Qed.
Lemma still_call {A} (f : W → A * W) (a : A → list (act Err)) : op_still (call (logged f a)).
Proof. intros s. apply call_still. Qed.
Lemma still_event ev : op_still (event ev).
Proof. intros s. apply event_still. Qed.
Lemma still_save : op_still (save store).
Proof. intros s. apply save_still. Qed.
Lemma still_settle id r d : op_still (settle id r d).
Proof.
  unfold settle. destruct (String.eqb _ _); [apply still_ret|]. apply still_bind; [apply still_ask|]. intros f.
  apply still_bind; [apply still_event|]. intros _. apply still_ret.
Qed.
Lemma still_set_view f : op_still (change (λ r, r <| ru_view := f r |>)).
Proof. intros [r w]. by apply still_same. Qed.

(** A read, with what it adds to the history. *)
Lemma wp_call {A} (f : W → A * W) (a : A → list (act Err)) s (Q : A → state → Prop) :
  (∀ x s', still s s' → log s' = log s ++ a x → ru_repos (fst s') = ru_repos (fst s) → Q x s') → wp (call (logged f a)) s Q.
Proof.
  intros HQ. pose proof (call_still f a s) as Hs. unfold wp.
  destruct s as [r [l w]]. unfold call, logged in *. cbn [fst snd] in *. destruct (f w) as [x v]. by apply HQ.
Qed.

Lemma wp_set_attempt ai f s (Q : unit → state → Prop) :
  (∀ s', near s s' → fl_PRs (file s') = fl_PRs (file s) → log s' = log s →
     fl_Attempts (file s') = alter f ai (fl_Attempts (file s)) → Q tt s') →
  wp (set_attempt ai f) s Q.
Proof. intros HQ. unfold wp. destruct s as [r [l w]]. apply HQ; [by apply near_same|done..]. Qed.

Lemma wp_set_record ri f s (Q : unit → state → Prop) :
  (∀ s', near s s' → fl_Attempts (file s') = fl_Attempts (file s) → log s' = log s →
     fl_PRs (file s') = alter f ri (fl_PRs (file s)) → Q tt s') →
  wp (set_record ri f) s Q.
Proof. intros HQ. unfold wp. destruct s as [r [l w]]. apply HQ; [by apply near_same|done..]. Qed.

Lemma wp_set_repo i f s (Q : unit → state → Prop) :
  (∀ rs, rt_name (f rs) = rt_name rs ∧ rt_info (f rs) = rt_info rs ∧ rt_ok (f rs) = rt_ok rs) →
  (∀ s', still s s' → log s' = log s → Q tt s') → wp (set_repo i f) s Q.
Proof.
  intros Hf HQ. unfold wp. destruct s as [r [l w]]. apply HQ; [|done].
  split; [|done|done]. split; [done| |done]. intros k. unfold repo, set_repo, change. cbn. rewrite !nth_lookup, list_lookup_alter.
  case_decide; [subst k|done]. destruct (ru_repos r !! i) as [rs|]; [|done]. cbn. apply Hf.
Qed.

Lemma wp_on_file f s (Q : unit → state → Prop) : (∀ s', near s s' → file s' = f (file s) → Q tt s') → wp (on_file f) s Q.
Proof. intros HQ. unfold wp. destruct s as [r w]. apply HQ; [by apply near_same|done]. Qed.

Lemma wp_reserve n s (Q : bool → state → Prop) :
  (∀ s', Q false s') → (∀ s', still s s' → log s' = log s → Q true s') → wp (reserve n) s Q.
Proof.
  intros H1' H2'. unfold wp. destruct s as [r [l w]]. unfold reserve, mbind, stage_bind in *. cbn [fst snd] in *.
  destruct (trim_same n (ru_file r)) as [Ta Tp]. destruct (trimOperations n (ru_file r)) as [f ok]. destruct ok.
  - apply H2'; [by apply still_same|done].
  - apply H1'.
Qed.

(** Whether a write failed because the branch exists. *)
Definition refused_exists (e : @writeErr Err) : bool := match e with Failed e => gh_is ErrRefExists e | WritesStopped => false end.

Lemma wp_write d op q ref s (Q : string * (answer q + @writeErr Err) → state → Prop) :
  exists_apart → inv d s → clear s → ev_Kind op = kind_of_request q → ev_Repo op = repo_of_request q →
  (∀ f ev, fl_PRs f = fl_PRs (file s) → fl_Attempts f = fl_Attempts (file s) → ev_AttemptKey ev = ev_AttemptKey op →
     justified (log s) f ev q) →
  (∀ id a s', inv (d + opens q (inl a : answer q + Err)) s' → still s s' → Q (id, inl a) s') →
  (∀ id e s', inv d s' → (refused_exists e = true → still s s') → Q (id, inr e) s') →
  wp (write store op q ref) s Q.
Proof.
  intros Hex I C Ek Er Hj Hok Hbad. pose proof (write_spec d op q ref s Hex I C Ek Er Hj) as Hw. unfold wp.
  destruct (write store op q ref s) as [[id x] s']. destruct Hw as [I' Hs]. cbn [fst snd]. destruct x as [a|e].
  - by apply Hok.
  - apply Hbad; [by rewrite Z.add_0_r in I'|]. by destruct e.
Qed.

(** *** Attempts *)

(** An attempt the next cycle settles. *)
Definition open_attempt (ai : nat) (s : state) : Prop :=
  ai < length (fl_Attempts (file s)) ∧ settled (at_Status (attempt ai s)) = false.

Lemma open_saved ai s f ev :
  open_attempt ai s → fl_Attempts f = fl_Attempts (file s) → ev_AttemptKey ev = at_AttemptKey (attempt ai s) →
  attempt_saved f ev (attempt ai s).
Proof.
  intros [Hl Hs] Ef Ek. split_and!; [|done|done]. rewrite Ef. unfold attempt. apply list_elem_of_In, nth_In. lia.
Qed.

Lemma still_attempt ai s s' : fl_Attempts (file s') = fl_Attempts (file s) → attempt ai s' = attempt ai s.
Proof. unfold attempt. by intros ->. Qed.

Lemma still_open ai s s' : fl_Attempts (file s') = fl_Attempts (file s) → open_attempt ai s → open_attempt ai s'.
Proof. unfold open_attempt, attempt. by intros ->. Qed.

Lemma alter_attempt f ai s s' :
  fl_Attempts (file s') = alter f ai (fl_Attempts (file s)) → ai < length (fl_Attempts (file s)) →
  ai < length (fl_Attempts (file s')) ∧ attempt ai s' = f (attempt ai s).
Proof.
  intros E Hl. unfold attempt. rewrite E, length_alter. split; [done|]. rewrite !nth_lookup, list_lookup_alter.
  case_decide; [|done]. destruct (lookup_lt_is_Some_2 _ _ Hl) as [a ->]. done.
Qed.
Lemma wp_skip {A B} (m : stage A) (k : A → stage B) d s Q :
  op_calm m → inv d s → (∀ x s', inv d s' → wp (k x) s' Q) → wp (x ← m; k x) s Q.
Proof. intros Hm I HQ. apply wp_bind. apply (wp_calm m d); [done..|]. unfold wp. intros I'. by apply HQ. Qed.

Lemma wp_call_bind {A B} (f : W → A * W) (a : A → list (act Err)) (k : A → stage B) d s Q :
  (∀ x, Forall is_read (a x)) → inv d s →
  (∀ x s', inv d s' → still s s' → log s' = log s ++ a x → ru_repos (fst s') = ru_repos (fst s) → wp (k x) s' Q) →
  wp (x ← call (logged f a); k x) s Q.
Proof.
  intros Ha I HQ. apply wp_bind. apply (wp_calm _ d); [by apply calm_call|done|]. apply wp_call. intros x s' ??? I'. by apply HQ.
Qed.

(** *** Building a commit *)

Lemma wp_advance ai st s (Q : bool → state → Prop) :
  (∀ s', Q false s') →
  (∀ s', near s s' → fl_Attempts (file s') = alter (λ a, a <| at_Status := st |>) ai (fl_Attempts (file s)) → Q true s') →
  wp (advance store ai st) s Q.
Proof.
  intros H1' H2'. unfold advance. apply wp_bind, wp_set_attempt. intros s1 N1 _ _ E1.
  apply wp_bind, wp_still; [apply still_save|]. intros ok s2 N2. destruct ok; [|apply wp_bind; unfold wp; apply H1'].
  change (Q true s2). apply H2'; [etransitivity; [exact N1|apply N2]|]. by rewrite (st_attempts _ _ N2).
Qed.

Lemma wp_build_step d i ai kind intent q ref s (Q : option (answer q) → state → Prop) :
  exists_apart → inv d s → clear s → open_attempt ai s → kind = kind_of_request q → rt_name (repo i s) = repo_of_request q →
  (∀ f ev a, attempt_saved f ev a → justified (log s) f ev q) →
  (∀ a, opens q (inl a : answer q + Err) = 0%Z) →
  (∀ a s', inv d s' → still s s' → Q (Some a) s') → (∀ s', inv d s' → Q None s') →
  wp (build_step store i ai kind intent q ref) s Q.
Proof.
  intros Hex I C A Ek Er Hj Ho Hok Hbad. unfold build_step. apply wp_bind, wp_ask. apply wp_bind, wp_ask. apply wp_bind.
  apply (wp_write d); try done.
  - intros f ev _ Ea Ekey. eapply Hj. eapply open_saved; [exact A|done|exact Ekey].
  - intros id a s' I' N. apply Hok; [|done]. by rewrite Ho, Z.add_0_r in I'.
  - intros id e s' I' _. cbn [fst snd]. apply (wp_skip _ _ d); [calm_auto|done|]. intros _ s2 I2.
    apply (wp_skip _ _ d); [calm_auto|done|]. intros _ s3 I3. by apply Hbad.
Qed.

Lemma wp_blobs_loop d i ai contents l entries s (Q : option (list TreeEntry) → state → Prop) :
  exists_apart → inv d s → clear s → open_attempt ai s →
  (∀ es s', inv d s' → still s s' → Q (Some es) s') → (∀ s', inv d s' → Q None s') →
  wp (blobs_loop store i ai contents l entries) s Q.
Proof.
  intros Hex. revert entries s. induction l as [|fc l IH]; intros entries s I C A Hok Hbad; cbn [blobs_loop].
  - by apply Hok.
  - apply wp_bind, wp_ask. apply wp_bind. eapply (wp_build_step d); try done.
    + intros f ev a Ha. by exists a.
    + intros _ s' I' N. apply IH; [done|by apply N|by eapply still_open; [apply N|]| |done].
      intros es s2 I2 N2. apply Hok; [done|]. by etransitivity.
Qed.

(** What building leaves: the way clear, the attempts in place, the attempt
    open. *)
Record built (ai : nat) (s s' : state) : Prop := mk_built {
  bt_near : near s s';
  bt_length : length (fl_Attempts (file s')) = length (fl_Attempts (file s));
  bt_key : at_AttemptKey (attempt ai s') = at_AttemptKey (attempt ai s);
  bt_open : open_attempt ai s'
}.

Lemma built_alter f ai s s' :
  near s s' → fl_Attempts (file s') = alter f ai (fl_Attempts (file s)) → ai < length (fl_Attempts (file s)) →
  settled (at_Status (f (attempt ai s))) = false → at_AttemptKey (f (attempt ai s)) = at_AttemptKey (attempt ai s) →
  built ai s s' ∧ attempt ai s' = f (attempt ai s).
Proof.
  intros N E Hl Hs Hk. destruct (alter_attempt _ _ _ _ E Hl) as [Hl' E']. split; [|done].
  split; [done|by rewrite E, length_alter|by rewrite E'|]. split; [done|by rewrite E'].
Qed.

Lemma built_trans ai a b c : built ai a b → built ai b c → built ai a c.
Proof. intros [] []. split; [by etransitivity|congruence|congruence|done]. Qed.

Lemma built_still ai s s' : open_attempt ai s → still s s' → built ai s s'.
Proof. intros A [N E _]. split; [done|by rewrite E|by rewrite (still_attempt ai s s')|by eapply still_open]. Qed.

Lemma existing_branch_ok i ai opID commit b s :
  open_attempt ai s → wp (existing_branch store i ai opID commit b) s (λ ok s', ok = true → built ai s s').
Proof.
  intros A. unfold existing_branch. apply wp_bind, wp_ask. apply wp_bind, wp_ask. apply wp_bind, wp_call.
  intros x s1 N1 _ _. destruct x as [found|e]; [|by apply wp_bind; unfold wp, mret, stage_ret].
  assert (B1 : built ai s s1) by (by apply built_still).
  assert (Hmid : ∀ commit' s2, built ai s s2 → wp
     (if match found with Some sha => String.eqb sha commit' | None => false end then mret true
      else
        let why := "branch " +:+ at_Branch (attempt ai s) +:+ " exists and does not point at the attempt's commit" in
        _ ← set_attempt ai (λ a, a <| at_Status := AttemptBlocked |> <| at_Detail := why |>);
        _ ← blockTarget i (attempt ai s) ReasonBranchNotOurs why;
        _ ← save store;
        _ ← set_status PRStatusWriteBlocked ReasonBranchNotOurs why;
        mret false) s2 (λ ok s', ok = true → built ai s s')).
  { intros commit' s2 B2. destruct (match found with Some _ => _ | None => _ end); [intros _; exact B2|]. repeat (apply wp_bind; unfold wp at 1). intros [=]. }
  apply wp_bind. destruct found as [sha|]; [|by apply Hmid]. destruct (negb _ && negb b); [|by apply Hmid].
  apply wp_bind, wp_call. intros y s2 N2 _ _. destruct y as [bc|e]; [|by apply wp_bind; unfold wp, mret, stage_ret].
  assert (B2 : built ai s s2) by (eapply built_trans; [exact B1|apply built_still; [apply B1|done]]).
  destruct (_ && _); [|by apply Hmid].
  apply wp_bind, wp_set_attempt. intros s3 N3 _ _ E3. apply wp_bind, wp_still; [apply still_settle|]. intros _ s4 N4.
  apply wp_bind. unfold wp at 1. apply Hmid. pose proof (bt_open _ _ _ B2) as [B23 B24].
  destruct (built_alter _ ai _ _ N3 E3 B23 B24 eq_refl) as [B3 _].
  eapply built_trans; [exact B2|]. eapply built_trans; [exact B3|].
  eapply built_trans; [apply built_still; [apply B3|exact N4]|]. apply built_still; [by eapply still_open; [apply N4|apply B3]|].
  destruct s4 as [r4 w4]. by apply still_same.
Qed.
Lemma wp_built_advance d ai st s (Q : bool → state → Prop) :
  inv d s → open_attempt ai s → settled st = false → (∀ s', inv d s' → Q false s') →
  (∀ s', inv d s' → built ai s s' → attempt ai s' = attempt ai s <| at_Status := st |> → Q true s') →
  wp (advance store ai st) s Q.
Proof.
  intros I [Hl Hs] Hst Hbad Hok. apply (wp_calm _ d); [apply calm_advance|done|]. apply wp_advance; [done|].
  intros s' N E I'. destruct (built_alter _ ai _ _ N E Hl Hst eq_refl) as [B E']. by apply Hok.
Qed.

Lemma wp_create_ref d i ai commit b s (Q : bool → state → Prop) :
  exists_apart → inv d s → clear s → open_attempt ai s → at_CommitSHA (attempt ai s) = commit →
  (∀ s', inv d s' → built ai s s' → Q true s') → (∀ s', inv d s' → Q false s') →
  wp (create_ref store i ai commit b) s Q.
Proof.
  intros Hex I C A Ec Hok Hbad. unfold create_ref. apply wp_bind, wp_ask. apply wp_bind, wp_ask. apply wp_bind.
  apply (wp_write d); try done.
  - intros f ev _ Ea Ekey. exists (attempt ai s). split; [|done]. by eapply open_saved.
  - intros id a s1 I1 N1. cbn [fst snd]. change (opens _ _) with 0%Z in I1. rewrite Z.add_0_r in I1.
    assert (B1 : built ai s s1) by (by apply built_still).
    apply (wp_built_advance d); [done|apply B1|done|done|]. intros s2 I2 B2 _. apply Hok; [done|by eapply built_trans].
  - intros id e s1 I1 N1. cbn [fst snd]. change (match e with Failed e => _ | WritesStopped => _ end) with (refused_exists e).
    destruct (refused_exists e).
    + specialize (N1 eq_refl). assert (B1 : built ai s s1) by (by apply built_still).
      apply wp_bind. apply (wp_calm _ d); [apply calm_existing_branch|done|].
      eapply wp_mono; [apply existing_branch_ok, B1|]. intros ok s2 Hb I2. destruct ok; [|by apply Hbad].
      specialize (Hb eq_refl). apply (wp_built_advance d); [done|apply Hb|done|done|].
      intros s3 I3 B3 _. apply Hok; [done|]. eapply built_trans; [exact B1|]. by eapply built_trans.
    + apply (wp_skip _ _ d); [calm_auto|done|]. intros _ s2 I2. apply (wp_skip _ _ d); [calm_auto|done|]. intros _ s3 I3. by apply Hbad.
Qed.

Lemma wp_buildCommit d i ai tree contents b s (Q : bool → state → Prop) :
  exists_apart → inv d s → clear s → ai < length (fl_Attempts (file s)) →
  (∀ s', inv d s' → built ai s s' → Q true s') → (∀ s', inv d s' → Q false s') →
  wp (buildCommit store i ai tree contents b) s Q.
Proof.
  intros Hex I C Hl Hok Hbad. unfold buildCommit. apply wp_bind.
  apply (wp_calm _ d); [apply calm_advance|done|]. apply wp_advance; [by intros s' I'; apply Hbad|].
  intros s1 N1 E1 I1. destruct (built_alter _ ai _ _ N1 E1 Hl eq_refl eq_refl) as [B1 _].
  assert (C1 : clear s1) by (by apply N1).
  cbn [negb]. apply wp_bind, wp_ask. apply wp_bind, wp_ask.
  change (nth ai (fl_Attempts (file s1)) zero_attempt) with (attempt ai s1). change (nth i (ru_repos (fst s1)) zero_repo) with (repo i s1).
  apply wp_bind. apply (wp_blobs_loop d); [done..|apply B1| |done]. intros es s2 I2 N2.
  assert (B2 : built ai s1 s2) by (apply built_still; [apply B1|done]).
  apply wp_bind. apply (wp_built_advance d); [done|apply B2|done|done|]. intros s3 I3 B3 _. cbn [negb].
  assert (N13 : near s1 s3) by (etransitivity; [apply B2|apply B3]).
  apply wp_bind. apply (wp_build_step d i ai _ _ (CreateTree _ _ _)); try done; [by apply N13|apply B3|apply (nr_repos _ _ N13)|by intros f ev a Ha; exists a|].
  intros t s4 I4 N4. assert (B4 : built ai s3 s4) by (apply built_still; [apply B3|done]).
  apply wp_bind. apply (wp_calm _ d); [apply calm_set_attempt|done|]. apply wp_set_attempt. intros s5 N5 _ _ E5 I5.
  destruct (built_alter _ ai _ _ N5 E5 (proj1 (bt_open _ _ _ B4)) (proj2 (bt_open _ _ _ B4)) eq_refl) as [B5 _].
  apply wp_bind. apply (wp_built_advance d); [done|apply B5|done|done|]. intros s6 I6 B6 _. cbn [negb].
  assert (N16 : near s1 s6). { etransitivity; [exact N13|]. etransitivity; [apply B4|]. etransitivity; [apply B5|apply B6]. }
  apply wp_bind. apply (wp_build_step d i ai _ _ (CreateCommit _ _ _ _)); try done; [by apply N16|apply B6|apply (nr_repos _ _ N16)|by intros f ev a Ha; exists a|].
  intros cm s7 I7 N7. assert (B7 : built ai s6 s7) by (apply built_still; [apply B6|done]).
  apply wp_bind. apply (wp_calm _ d); [apply calm_set_attempt|done|]. apply wp_set_attempt. intros s8 N8 _ _ E8 I8.
  destruct (built_alter _ ai _ _ N8 E8 (proj1 (bt_open _ _ _ B7)) (proj2 (bt_open _ _ _ B7)) eq_refl) as [B8 A8].
  apply wp_bind. apply (wp_built_advance d); [done|apply B8|done|done|]. intros s9 I9 B9 A9.
  assert (B19 : built ai s s9) by (do 8 (eapply built_trans; [eassumption|]); assumption).
  apply (wp_create_ref d); [done|done|by apply B19|apply B9|by rewrite A9, A8| |done].
  intros s10 I10 B10. apply Hok; [done|]. by eapply built_trans.
Qed.
(** *** Opening a pull request *)

(** A listing that is answered was read to its end, and holds what its pages
    do. *)
Lemma list_pages_ok {A} (page : Z → W → (list A * bool + Err) * W) (a : Z → list A * bool + Err → act Err) fuel p out s :
  wp (list_pages maxListPages (λ p, logged (page p) (λ x, [a p x])) fuel p out) s (λ x s',
    still s s' ∧ ∀ l, x = inl l → ∃ pages, pages ≠ [] ∧ l = out ++ concat pages ∧ log s' = log s ++ pages_read a p pages).
Proof.
  revert p out s. induction fuel as [|fuel IH]; intros p out s; cbn [list_pages]; [by unfold wp|].
  apply wp_bind, wp_call. intros x s1 N1 E1 _. destruct x as [[items next]|e]; [|by unfold wp].
  destruct next; cbn [negb].
  - eapply wp_mono; [apply IH|]. intros x s2 [N2 Hx]. split; [by etransitivity|]. intros l El.
    destruct (Hx l El) as (pages & Hne & -> & E2). exists (items :: pages). split; [done|].
    split; [cbn; by rewrite app_assoc|]. rewrite E2, E1, <- app_assoc. by destruct pages.
  - unfold wp, mret, stage_ret. cbn [fst snd]. split; [done|]. intros l [= <-]. exists [items].
    split; [done|]. split; [cbn; by rewrite app_nil_r|done].
Qed.

Lemma recheckCandidate_ok ref cand s :
  wp (recheckCandidate ref cand) s (λ ok s', ok = true →
    still s s' ∧ ∃ platform, parsePlatform (im_Platform cand) = Some platform ∧
      log s' = log s ++ [ReadTop ref (im_Tag cand) platform (inl (im_TopDigest cand))]).
Proof.
  unfold recheckCandidate. destruct (parsePlatform _) as [pl|]; [|by apply wp_bind; unfold wp].
  apply wp_bind, wp_call. intros x s1 N1 E1 _. destruct x as [top|e].
  - destruct (String.eqb_spec top (im_TopDigest cand)) as [->|]; cbn [negb]; [|by apply wp_bind; unfold wp].
    intros _. split; [done|]. by exists pl.
  - apply wp_bind. unfold wp at 1. by apply wp_bind; unfold wp.
Qed.

(** The pull request just opened is counted. *)
Lemma inv_count d s :
  inv (d + 1) s → (ru_newPRs (fst s) < ql_NewPRsPerCycle limits)%Z →
  inv d (fst s <| ru_newPRs := (ru_newPRs (fst s) + 1)%Z |>, snd s).
Proof.
  intros [I1 I2 I3 I4 I5 I6 I7 I8] Hl. split; try done; cbn [fst snd].
  - rewrite I7. cbn. lia.
  - cbn. lia.
Qed.

(** What the write of a pull request is justified by. *)
Definition about_to_open (i ai : nat) (u : composeUnit) (s : state) : Prop :=
  let a := attempt ai s in
  let rs := repo i s in
  ∃ l' pulls platform,
    log s = l' ++ [ReadBranch (rt_name rs) (at_BaseBranch a) (inl (at_BaseSHA a));
                   ReadRef (rt_name rs) (at_Branch a) (inl (Some (at_CommitSHA a)))] ++
            pages_read (ReadPulls (rt_name rs) "all" (pull_head (gi_FullName (rt_info rs)) (at_Branch a))) 1 pulls ++
            [ReadTop (unit_image u) (at_CandidateTag a) platform (inl (at_CandidateDigest a))] ∧
    parsePlatform (im_Platform (unit_candidate u)) = Some platform ∧
    equal_fold (gi_FullName (rt_info rs)) (rt_name rs) = true ∧ pulls ≠ [] ∧
    (∀ pr, pr ∈ concat pulls → gp_HeadRef pr = at_Branch a → equal_fold (gp_HeadRepoFullName pr) (gi_FullName (rt_info rs)) = false).

(** A unit of the cycle that may be proposed, and its attempt. *)
Definition proposed (u : composeUnit) (key : string) : Prop := u ∈ units ∧ cu_manual u = false ∧ unit_attempt u key.

Lemma wp_send_pull d i ai u title body s :
  exists_apart → inv d s → clear s → ai < length (fl_Attempts (file s)) → about_to_open i ai u s →
  proposed u (at_AttemptKey (attempt ai s)) →
  title = composeUnitTitle (unit_image u) (at_CandidateTag (attempt ai s)) (at_Path (attempt ai s)) →
  (ru_newPRs (fst s) < ql_NewPRsPerCycle limits)%Z →
  wp (send_pull store i ai title body) s (λ _ s', inv d s').
Proof.
  intros Hex I C Hl Hab (Hu & Hm & Hk) -> Hlim. unfold send_pull. apply wp_bind, wp_ask. apply wp_bind.
  apply (wp_calm _ d); [apply calm_set_attempt|done|]. apply wp_set_attempt. intros s1 N1 _ L1 E1 I1.
  destruct (built_alter _ ai _ _ N1 E1 Hl eq_refl eq_refl) as [B1 A1].
  apply wp_bind, wp_ask. change (nth ai (fl_Attempts (file s1)) zero_attempt) with (attempt ai s1).
  change (nth i (ru_repos (fst s)) zero_repo) with (repo i s). apply wp_bind.
  apply (wp_write d _ (CreatePull _ _)); try done; [by apply B1|..].
  - intros f ev _ Ea Ekey. destruct Hab as (l' & pulls & pf & E & Hpf & Hn & Hne & Hp).
    exists (attempt ai s1), u, l', pulls, (gi_FullName (rt_info (repo i s))), pf.
    split; [by apply (open_saved _ s1); [apply B1|..]|]. rewrite L1, E, A1. by split_and!.
  - intros id pr s2 I2 N2. cbn [fst snd]. change (opens _ _) with 1%Z in I2. apply wp_bind. unfold wp at 1. cbn [change fst snd].
    assert (Hlim2 : (ru_newPRs (fst s2) < ql_NewPRsPerCycle limits)%Z) by (rewrite (nr_new _ _ (st_near _ _ N2)), (nr_new _ _ N1); done).
    pose proof (inv_count d s2 I2 Hlim2) as I3. cbn [fst snd]. refine (wp_fail _ d _ _ I3). calm_auto.
  - intros id e s2 I2 _. cbn [fst snd]. refine (wp_fail _ d _ _ I2). calm_auto.
Qed.
Lemma listPulls_ok rs st head s :
  wp (listPulls maxListPages rs st head) s (λ x s', still s s' ∧
    ∀ l, x = inl l → ∃ pages, pages ≠ [] ∧ l = concat pages ∧ log s' = log s ++ pages_read (ReadPulls (rt_name rs) st head) 1 pages).
Proof. apply (list_pages_ok (λ p, ListPulls (rt_name rs) st head p) (ReadPulls (rt_name rs) st head)). Qed.

Lemma listComments_ok rs n s :
  wp (listComments maxListPages rs n) s (λ x s', still s s' ∧
    ∀ l, x = inl l → ∃ pages, pages ≠ [] ∧ l = concat pages ∧ log s' = log s ++ pages_read (ReadComments (rt_name rs) n) 1 pages).
Proof. apply (list_pages_ok (λ p, ListIssueComments (rt_name rs) n p) (ReadComments (rt_name rs) n)). Qed.

Lemma branchPulls_nil rs pulls branch :
  branchPulls rs pulls branch = [] →
  ∀ pr, pr ∈ pulls → gp_HeadRef pr = branch → equal_fold (gp_HeadRepoFullName pr) (gi_FullName (rt_info rs)) = false.
Proof.
  unfold branchPulls. intros E pr Hpr Eb. destruct (equal_fold _ _) eqn:Ef; [|done].
  assert (Hin : pr ∈ filter (λ pr, String.eqb (gp_HeadRef pr) branch && equal_fold (gp_HeadRepoFullName pr) (gi_FullName (rt_info rs)) = true) pulls).
  { apply list_elem_of_filter. split; [|done]. by rewrite Eb, String.eqb_refl, Ef. }
  rewrite E in Hin. by apply elem_of_nil in Hin.
Qed.

Lemma named_repo d i s : inv d s → rt_ok (repo i s) = true → equal_fold (gi_FullName (rt_info (repo i s))) (rt_name (repo i s)) = true.
Proof.
  intros I Hok. apply (in_named _ _ I); [|done]. unfold repo in *. destruct (nth_in_or_default i (ru_repos (fst s)) zero_repo) as [?|E].
  - by apply list_elem_of_In.
  - by rewrite E in Hok.
Qed.

Lemma wp_openPull d c ai changes s :
  exists_apart → inv d s → clear s → ai < length (fl_Attempts (file s)) → rt_ok (repo (uc_rs c) s) = true →
  proposed (uc_u c) (at_AttemptKey (attempt ai s)) →
  (ru_newPRs (fst s) < ql_NewPRsPerCycle limits)%Z →
  wp (openPull store maxListPages c ai (unit_image (uc_u c)) changes) s (λ _ s', inv d s').
Proof.
  intros Hex I C Hl Hok Hun Hlim. unfold openPull. cbv zeta. apply wp_bind, wp_ask. apply wp_bind, wp_ask.
  change (nth ai (fl_Attempts (file s)) zero_attempt) with (attempt ai s).
  change (nth (uc_rs c) (ru_repos (fst s)) zero_repo) with (repo (uc_rs c) s). set (rs := repo (uc_rs c) s). set (a := attempt ai s).
  apply (wp_call_bind _ _ _ d); [repeat constructor|done|]. intros x s1 I1 N1 L1 R1.
  destruct x as [base|e]; [|refine (wp_fail _ d _ _ I1); calm_auto].
  destruct (String.eqb_spec base (at_BaseSHA a)) as [->|]; cbn [negb]; [|refine (wp_fail _ d _ _ I1); calm_auto].
  apply (wp_call_bind _ _ _ d); [repeat constructor|done|]. intros y s2 I2 N2 L2 R2.
  destruct y as [found|e]; [|refine (wp_fail _ d _ _ I2); calm_auto].
  destruct (match found with Some sha => String.eqb sha (at_CommitSHA a) | None => false end) eqn:Ef; cbn [negb];
    [|refine (wp_fail _ d _ _ I2); calm_auto].
  assert (found = Some (at_CommitSHA a)) as -> by (destruct found as [sha|]; [by apply String.eqb_eq in Ef as ->|done]).
  apply wp_bind. apply (wp_calm _ d); [apply calm_listings|done|]. eapply wp_mono; [apply listPulls_ok|].
  intros z s3 [N3 Hz] I3. destruct z as [pulls|e]; [|refine (wp_fail _ d _ _ I3); calm_auto].
  destruct (Hz pulls eq_refl) as (pages & Hne & Ep & L3). destruct (branchPulls rs pulls (at_Branch a)) eqn:Eb;
    [|refine (wp_fail _ d _ _ I3); calm_auto].
  apply wp_bind. apply (wp_calm _ d); [calm_auto|done|]. eapply wp_mono; [apply recheckCandidate_ok|].
  intros ok s4 Hc4 I4. destruct ok; cbn [negb]; [|exact I4]. destruct (Hc4 eq_refl) as (N4 & pf & Hpf & L4).
  destruct (buildPRBody _) as [body|e]; [|refine (wp_fail _ d _ _ I4); calm_auto].
  assert (N : still s s4) by (etransitivity; [exact N1|]; etransitivity; [exact N2|]; by etransitivity).
  destruct N as [Nn Na _]. destruct (nr_repos _ _ Nn (uc_rs c)) as (E1 & E2 & E3).
  assert (Ea : attempt ai s4 = a) by (by apply still_attempt).
  apply (wp_send_pull d _ _ (uc_u c)); [done|done|by apply Nn|by rewrite Na| |by rewrite Ea|by rewrite Ea|by rewrite (nr_new _ _ Nn)].
  unfold about_to_open. rewrite Ea, E1, E2. fold rs. exists (log s), pages, pf. split_and!.
  - rewrite L4, L3, L2, L1, <- !app_assoc. done.
  - unfold unit_candidate. cbn in Hpf. destruct (cu_candidate (uc_u c)); exact Hpf.
  - by apply (named_repo d).
  - done.
  - rewrite <- Ep. by apply (branchPulls_nil rs pulls).
Qed.
(** *** The attempt of a unit *)

Definition keys (s : state) : list string := at_AttemptKey <$> fl_Attempts (file s).

(** The way stays clear and no attempt comes or goes. *)
Record kept (s s' : state) : Prop := mk_kept { ke_near : near s s'; ke_keys : keys s' = keys s }.

#[export] Instance kept_preorder : PreOrder kept.
Proof. split; [by intros s|]. intros a b c [] []. split; [by etransitivity|congruence]. Qed.

Lemma still_kept s s' : still s s' → kept s s'.
Proof. intros [N E _]. split; [done|]. unfold keys. by rewrite E. Qed.

Lemma kept_alter ai f s s' :
  near s s' → fl_Attempts (file s') = alter f ai (fl_Attempts (file s)) → (∀ a, at_AttemptKey (f a) = at_AttemptKey a) → kept s s'.
Proof.
  intros N E Hf. split; [done|]. unfold keys. rewrite E. apply list_eq. intros k. rewrite !list_lookup_fmap, list_lookup_alter.
  case_decide; [|done]. subst k. destruct (fl_Attempts (file s) !! ai) as [a|]; [|done]. cbn. by rewrite Hf.
Qed.

Lemma kept_length s s' : kept s s' → length (fl_Attempts (file s')) = length (fl_Attempts (file s)).
Proof. intros [_ E]. apply (f_equal length) in E. unfold keys in E. by rewrite !length_fmap in E. Qed.

Lemma kept_key k s s' : kept s s' → at_AttemptKey (attempt k s') = at_AttemptKey (attempt k s).
Proof.
  intros [_ E]. unfold keys in E. apply (f_equal (λ l : list string, l !! k)) in E. rewrite !list_lookup_fmap in E.
  unfold attempt. rewrite !nth_lookup. destruct (fl_Attempts (file s') !! k), (fl_Attempts (file s) !! k); by inversion E.
Qed.

Lemma find_index_some {A} (p : A → bool) l x : x ∈ l → p x = true → ∃ k, find_index p l = Some k ∧ k < length l.
Proof.
  intros [k Hk]%list_elem_of_lookup Hp. unfold find_index.
  destruct (find _ (seq 0 (length l))) as [j|] eqn:E.
  - exists j. split; [done|]. apply List.find_some in E as [Hj%in_seq _]. lia.
  - exfalso. eapply List.find_none in E; [|apply in_seq; split; [lia|apply lookup_lt_Some in Hk; cbn; exact Hk]]. by rewrite Hk, Hp in E.
Qed.

Lemma find_index_lt {A} (p : A → bool) l k : find_index p l = Some k → k < length l.
Proof. unfold find_index. intros [Hj%in_seq _]%List.find_some. lia. Qed.

Lemma attempt_index_key k key s :
  attempt_index (file s) key = Some k → k < length (fl_Attempts (file s)) ∧ at_AttemptKey (attempt k s) = key.
Proof.
  intros E. split; [by eapply find_index_lt|]. unfold attempt_index, find_index in E. apply List.find_some in E as [_ E].
  unfold attempt. rewrite nth_lookup. destruct (fl_Attempts (file s) !! k); [|done]. by apply String.eqb_eq in E.
Qed.

Lemma attempt_index_some f key : key ∈ at_AttemptKey <$> fl_Attempts f → ∃ k, attempt_index f key = Some k ∧ k < length (fl_Attempts f).
Proof. intros (a & -> & Ha)%list_elem_of_fmap. eapply find_index_some; [exact Ha|]. apply String.eqb_refl. Qed.

Lemma put_attempt_key ai a f :
  (∀ k, ai = Some k → k < length (fl_Attempts f)) →
  at_AttemptKey a ∈ at_AttemptKey <$> fl_Attempts (put_attempt ai a f).
Proof.
  intros Hk. apply list_elem_of_fmap. exists a. split; [done|]. destruct ai as [k|]; cbn; [|apply elem_of_app; right; by left].
  destruct (lookup_lt_is_Some_2 _ _ (Hk k eq_refl)) as [b Hb]. apply list_elem_of_lookup. exists k.
  rewrite list_lookup_alter. case_decide; [|done]. by rewrite Hb.
Qed.

Lemma earlier_attempts_ok c key l resume s :
  Forall (λ ai, ai < length (fl_Attempts (file s))) l →
  wp (earlier_attempts store c key l resume) s (λ x s', ∀ b, x = Some b → kept s s' ∧ (b = true → resume = true ∨ key ∈ keys s)).
Proof.
  revert resume s. induction l as [|ai l IH]; intros resume s Hl; cbn [earlier_attempts]; [by intros b [= ->]; split; [|left]|].
  inversion_clear Hl as [|? ? Hai Hl']. apply wp_bind, wp_ask. apply wp_bind, wp_ask.
  change (nth ai (fl_Attempts (file s)) zero_attempt) with (attempt ai s). destruct (_ || _ || _); [by apply IH|].
  destruct (String.eqb (at_AttemptKey (attempt ai s)) key && _) eqn:Ek.
  - eapply wp_mono; [by apply IH|]. intros x s' Hx b Eb. destruct (Hx b Eb) as [K _]. split; [done|]. intros _. right.
    apply andb_prop in Ek as [<-%String.eqb_eq _]. unfold keys. apply list_elem_of_fmap. eexists. split; [done|].
    apply list_elem_of_In, nth_In. lia.
  - destruct (bool_decide _); [|by apply wp_bind; unfold wp].
    apply wp_bind, wp_set_attempt. intros s1 N1 _ _ E1. apply wp_bind, wp_set_repo; [done|]. intros s2 N2 _.
    apply wp_bind, wp_still; [apply still_save|]. intros ok s3 N3. destruct ok; [|by apply wp_bind; unfold wp].
    assert (K : kept s s3).
    { etransitivity; [by eapply kept_alter|]. etransitivity; [by apply still_kept|by apply still_kept]. }
    eapply wp_mono; [apply IH; by rewrite (kept_length _ _ K)|]. intros x s' Hx b Eb. destruct (Hx b Eb) as [K' Hb].
    split; [by etransitivity|]. intros Et. destruct (Hb Et) as [?|Hk]; [by left|right]. by rewrite (ke_keys _ _ K) in Hk.
Qed.

Lemma kept_branch_ok c ai resume s :
  wp (kept_branch c ai resume) s (λ x s', ∀ b, x = Some b → kept s s' ∧ (b = true → resume = true ∨ is_Some ai)).
Proof.
  unfold kept_branch. destruct ai as [ai|]; [|by intros b [= ->]; split; [|left]].
  apply wp_bind, wp_ask. destruct (negb _); [by intros b [= ->]; split; [|left]|]. apply wp_bind, wp_ask.
  apply wp_bind, wp_call. intros x s1 N1 _ _. destruct x as [found|e]; [|by apply wp_bind; unfold wp].
  destruct (match found with Some _ => _ | None => _ end); apply wp_bind, wp_set_attempt; intros s2 N2 _ _ E2 b [= <-];
    (split; [etransitivity; [by apply still_kept|by eapply kept_alter]|]); [intros _; right; by eexists|intros ->; by left].
Qed.

Lemma wp_run_attempt d p c base content ch inputSHA key branch changes ai recorded resume s :
  exists_apart → inv d s → clear s →
  (∀ k, ai = Some k → k < length (fl_Attempts (file s)) ∧ at_AttemptKey (attempt k s) = key) → (resume = true → is_Some ai) →
  proposed (uc_u c) key →
  rt_ok (repo (uc_rs c) s) = true → (ru_newPRs (fst s) < ql_NewPRsPerCycle limits)%Z →
  wp (run_attempt store maxListPages p c (unit_image (uc_u c)) base content ch inputSHA key branch changes ai recorded resume) s (λ _ s', inv d s').
Proof.
  intros Hex I C Hai Hres Hun Hok Hlim. unfold run_attempt. cbv zeta. apply wp_bind, wp_ask. apply wp_bind.
  apply (wp_calm _ d); [apply calm_reserve|done|]. apply wp_reserve; [intros s' I'; refine (wp_fail _ d _ _ I'); calm_auto|].
  intros s1 N1 _ I1. cbn [negb].
  assert (G : ∀ s2, near s s2 → rt_ok (repo (uc_rs c) s2) = true ∧ (ru_newPRs (fst s2) < ql_NewPRsPerCycle limits)%Z ∧ clear s2).
  { intros s2 [Nc Nr Nn]. destruct (Nr (uc_rs c)) as (_ & _ & ->). rewrite Nn. by split_and!; [| |apply Nc]. }
  destruct resume; cbn [negb].
  - destruct (Hres eq_refl) as [k ->]. cbn [default]. apply wp_bind. apply (wp_calm _ d); [apply calm_set_attempt|done|].
    apply wp_set_attempt. intros s2 N2 _ _ E2 I2. assert (N : near s s2) by (etransitivity; [apply N1|exact N2]).
    destruct (G s2 N) as (G1 & G2 & G3). destruct (Hai k eq_refl) as [Hk Ekey].
    destruct (alter_attempt _ k s1 s2 E2 ltac:(by rewrite (st_attempts _ _ N1))) as [Hk2 E2'].
    apply wp_openPull; try done. change (proposed (uc_u c) (at_AttemptKey (attempt k s2))). rewrite E2'.
    change (proposed (uc_u c) (at_AttemptKey (attempt k s1))). by rewrite (still_attempt k s s1 (st_attempts _ _ N1)), Ekey.
  - apply (wp_call_bind _ _ _ d); [repeat constructor|done|]. intros x s2 I2 N2 _ _.
    destruct x as [bc|e]; [|refine (wp_fail _ d _ _ I2); calm_auto].
    set (a := fresh_attempt _ _ _ _ _ _ _ _). apply wp_bind. apply (wp_calm _ d); [by apply calm_on_file; intros fl; destruct ai|done|].
    apply wp_on_file. intros s3 N3 E3 I3. apply wp_bind, wp_ask. assert (Nl : length (fl_Attempts (file s2)) = length (fl_Attempts (file s))).
    { by rewrite (st_attempts _ _ N2), (st_attempts _ _ N1). }
    assert (N : near s s3) by (etransitivity; [apply N1|]; etransitivity; [apply N2|exact N3]). destruct (G s3 N) as (G1 & G2 & G3).
    destruct (attempt_index_some (file s3) key) as (k & Ek & _).
    { rewrite E3. apply (put_attempt_key ai a). intros j Hj. rewrite Nl. by apply (Hai j). }
    destruct (attempt_index_key _ _ _ Ek) as [Hk Ekey]. unfold id. rewrite Ek.
    cbn [default]. apply wp_bind. apply (wp_buildCommit d); try done. intros s4 I4 B4.
    assert (N' : near s s4) by (etransitivity; [exact N|apply B4]). destruct (G s4 N') as (G5 & G6 & G7).
    apply wp_openPull; try done; [apply B4|]. by rewrite (bt_key _ _ _ B4), Ekey.
Qed.

(** The context of a unit of the cycle. *)
Definition unit_ctx (c : unitCtx) : Prop :=
  uc_u c ∈ units ∧ cu_manual (uc_u c) = false ∧
  ∃ repoID, uc_updateKey c =
    UpdateKey (TargetKeyOf prKindCompose repoID (cu_baseBranch (uc_u c)) (cu_path (uc_u c)) (cu_locations (uc_u c)))
      (cu_current (uc_u c)) (im_Tag (unit_candidate (uc_u c))) (im_TopDigest (unit_candidate (uc_u c))).

Lemma wp_createPull d p c s :
  exists_apart → inv d s → clear s → unit_ctx c → rt_ok (repo (uc_rs c) s) = true → (ru_newPRs (fst s) < ql_NewPRsPerCycle limits)%Z →
  wp (createPull store maxListPages p c (unit_image (uc_u c))) s (λ _ s', inv d s').
Proof.
  intros Hex I C Hctx Hok Hlim. unfold createPull. cbv zeta. apply wp_bind, wp_ask.
  apply (wp_call_bind _ _ _ d); [repeat constructor|done|]. intros x s1 I1 N1 _ _.
  destruct x as [base|e]; [|refine (wp_fail _ d _ _ I1); calm_auto].
  apply (wp_call_bind _ _ _ d); [repeat constructor|done|]. intros y s2 I2 N2 _ _.
  destruct y as [fl|e]; [|refine (wp_fail _ d _ _ I2); calm_auto].
  destruct (EditComposeImageTag _ _ _ _) as [[edited changes]|[reason detail]]; [|refine (wp_fail _ d _ _ I2); calm_auto].
  destruct (BranchName _ _ _) as [branch|e]; [|refine (wp_fail _ d _ _ I2); calm_auto].
  set (key := AttemptKey _ _ _ _). assert (Hun : proposed (uc_u c) key).
  { destruct Hctx as (Hu & Hm & repoID & Ek). split_and!; [done|done|]. unfold key. rewrite Ek. by eexists _, _, _, _. }
  apply wp_bind. apply (wp_calm _ d); [calm_auto|done|].
  apply wp_still; [apply still_set_view|]. intros _ s3 N3 I3.
  apply wp_bind, wp_ask. apply wp_bind. apply (wp_calm _ d); [calm_auto|done|].
  eapply wp_mono; [apply earlier_attempts_ok, Forall_forall; intros k Hk%elem_of_seq; cbn in Hk; lia|].
  intros [resume|] s4 Hearly I4; [|exact I4]. destruct (Hearly resume eq_refl) as [K4 Hr4].
  apply wp_bind, wp_ask. apply wp_bind. apply (wp_calm _ d); [apply calm_kept_branch|done|].
  eapply wp_mono; [apply kept_branch_ok|]. intros [resume'|] s5 Hkept I5; [|exact I5]. destruct (Hkept resume' eq_refl) as [K5 Hr5].
  assert (N : near s s5).
  { etransitivity; [apply N1|]. etransitivity; [apply N2|]. etransitivity; [apply N3|]. etransitivity; [apply K4|apply K5]. }
  apply wp_bind. assert (Q : ∀ a, wp (if String.eqb (at_Status a) AttemptPRCreated
     then set_status PRStatusWriteBlocked ReasonAttemptUnsettled "the attempt has a pull request that is not in the records"
     else run_attempt store maxListPages p c (unit_image (uc_u c)) base edited (mk_file_change (cu_path (uc_u c)) (if String.eqb (gf_Mode fl) "" then "100644" else gf_Mode fl) (gitBlobSHA edited))
            (gf_SHA fl) key branch changes (attempt_index (file s4) key) (is_some_b (attempt_index (file s4) key)) resume') s5 (λ _ s', inv d s')).
  { intros a. destruct (String.eqb (at_Status a) AttemptPRCreated); [refine (wp_fail _ d _ _ I5); calm_auto|].
    destruct (nr_repos _ _ N (uc_rs c)) as (_ & _ & Eok). apply wp_run_attempt; try done; [by apply N|..].
    - intros k Hk. destruct (attempt_index_key _ _ _ Hk) as [Hlt Ek]. split; [by rewrite (kept_length _ _ K5)|].
      rewrite <- Ek. by apply kept_key.
    - intros ->. destruct (Hr5 eq_refl) as [-> |?]; [|done]. destruct (Hr4 eq_refl) as [?|Hkey]; [done|].
      rewrite <- (ke_keys _ _ K4) in Hkey. destruct (attempt_index_some (file s4) key Hkey) as (k & -> & _). by eexists.
    - by rewrite Eok.
    - by rewrite (nr_new _ _ N). }
  destruct (attempt_index (file s4) key); apply Q.
Qed.

Lemma stopped_ok c s : wp (stopped c) s (λ b s', b = false → s' = s ∧ clear s).
Proof.
  unfold stopped. apply wp_bind, wp_ask. cbv zeta. unfold id. destruct (ru_halt (fst s)) eqn:Eh; [by apply wp_bind; unfold wp|].
  destruct (ru_stop (fst s)) eqn:Es; [by apply wp_bind; unfold wp|]. destruct (negb _); [by apply wp_bind; unfold wp|].
  intros _. split; [done|]. by split; [|left].
Qed.

Lemma wp_new_update d p c s :
  exists_apart → inv d s → unit_ctx c → rt_ok (repo (uc_rs c) s) = true →
  wp (new_update store limits maxListPages p c) s (λ _ s', inv d s').
Proof.
  intros Hex I Hctx Hok. unfold new_update. apply wp_bind. apply (wp_calm _ d); [apply calm_stopped|done|].
  eapply wp_mono; [apply stopped_ok|]. intros [] s1 Hs I1; [exact I1|]. destruct (Hs eq_refl) as [-> C].
  apply wp_bind, wp_ask. destruct (rt_blockedTargets _ !! _); [refine (wp_fail _ d _ _ I); calm_auto|].
  apply wp_bind, wp_ask. unfold id. destruct (Z.leb_spec (ql_NewPRsPerCycle limits) (ru_newPRs (fst s))); [refine (wp_fail _ d _ _ I); calm_auto|].
  destruct (_ <=? _)%Z; [refine (wp_fail _ d _ _ I); calm_auto|]. cbv zeta.
  apply wp_bind. apply (wp_calm _ d); [calm_auto|done|]. eapply wp_mono; [apply recheckCandidate_ok|].
  intros [] s2 Hc I2; [|exact I2]. destruct (Hc eq_refl) as [N _]. destruct (nr_repos _ _ (st_near _ _ N) (uc_rs c)) as (_ & _ & Eok).
  apply wp_createPull; [done|done|by apply N|done|by rewrite Eok|by rewrite (nr_new _ _ (st_near _ _ N))].
Qed.

Lemma wp_processUnit d p u s :
  exists_apart → inv d s → u ∈ units → wp (processUnit store limits maxListPages p u) s (λ _ s', inv d s').
Proof.
  intros Hex I Hu. unfold processUnit. apply (wp_skip _ _ d); [calm_auto|done|]. intros _ s1 I1. apply wp_bind.
  assert (Q : ∀ s', inv d s' → wp (ask ru_view) s' (λ _ s', inv d s')) by done.
  eapply wp_mono; [|intros x s'; apply Q]. destruct (cu_manual u) eqn:Em; [refine (wp_fail _ d _ _ I1); calm_auto|].
  apply wp_bind, wp_ask. cbv zeta. set (i := default 0 _). apply wp_bind, wp_ask. unfold id.
  destruct (rt_ok _) eqn:Eok; cbn [negb]; [|refine (wp_fail _ d _ _ I1); calm_auto].
  apply wp_bind. apply (wp_calm _ d); [calm_auto|done|]. apply wp_still; [apply still_set_view|]. intros _ s2 N2 I2.
  apply wp_bind, wp_ask. destruct (recordByUpdateKey _ _); [refine (wp_fail _ d _ _ I2); calm_auto|].
  apply wp_new_update; [done|done|split_and!; [done|done|by eexists]|]. cbn [uc_rs]. by destruct (nr_repos _ _ (st_near _ _ N2) i) as (_ & _ & ->).
Qed.
(** *** Replacing *)

(** The list of records does not become shorter. *)
Definition op_grows {A} (m : stage A) : Prop := ∀ s, length (fl_PRs (file s)) ≤ length (fl_PRs (file (snd (m s)))).

Lemma grows_bind {A B} (m : stage A) (k : A → stage B) : op_grows m → (∀ x, op_grows (k x)) → op_grows (x ← m; k x).
Proof.
  intros Hm Hk s. unfold mbind, stage_bind. specialize (Hm s). destruct (m s) as [x s1]. etransitivity; [exact Hm|]. apply Hk.
Qed.
Lemma grows_change f : (∀ r, length (fl_PRs (ru_file r)) ≤ length (fl_PRs (ru_file (f r)))) → op_grows (change f).
Proof. intros Hf [r w]. apply Hf. Qed.
Lemma grows_ret {A} (x : A) : op_grows (mret x).
Proof. by intros s. Qed.
Lemma grows_ask {A} (f : prRun → A) : op_grows (ask f).
Proof. by intros s. Qed.
Lemma grows_still {A} (m : stage A) : op_still m → op_grows m.
Proof. intros Hm s. by rewrite (st_prs _ _ (Hm s)). Qed.
Lemma grows_call {A} (f : St → A * St) : op_grows (call f).
Proof. intros [r w]. unfold call. cbn. by destruct (f w). Qed.
Lemma grows_set_record i f : op_grows (set_record i f).
Proof. apply grows_change. intros r. cbn. by rewrite length_alter. Qed.
Lemma grows_problem p : op_grows (problem p).
Proof. apply grows_change. intros r. by destruct (existsb _ _). Qed.
Lemma grows_set_halt reason (e : err) : op_grows (set_halt reason e).
Proof. apply grows_change. intros r. by destruct (ru_halt r). Qed.
Lemma grows_reserve n : op_grows (reserve n).
Proof.
  unfold reserve. apply grows_bind.
  - intros [r w]. cbn. destruct (trim_same n (ru_file r)) as [_ Ep]. destruct (trimOperations n (ru_file r)). cbn in *. by rewrite Ep.
  - intros []; [apply grows_ret|]. apply grows_bind; [apply grows_ask|]. intros d. apply grows_bind; [|intros _; apply grows_bind; [apply grows_problem|intros _; apply grows_ret]].
    apply grows_change. intros r. by destruct (ru_stop r).
Qed.

Create HintDb grows.
#[local] Hint Resolve grows_ret grows_ask grows_call grows_set_record grows_problem grows_set_halt grows_reserve : grows.

Ltac grows_step :=
  match goal with
  | |- op_grows (mret _) => apply grows_ret
  | |- op_grows (mbind _ _) => apply grows_bind; [|intros ?]
  | |- op_grows (event _) => apply grows_still, still_event
  | |- op_grows (save _) => apply grows_still, still_save
  | |- op_grows (settle _ _ _) => apply grows_still, still_settle
  | |- op_grows (change _) => solve [apply grows_change; intros ?; repeat case_match; done]
  | |- op_grows (match ?x with _ => _ end) => destruct x
  | |- op_grows (let '_ := ?x in _) => destruct x
  | _ => solve [eauto 2 with grows nocore]
  end.
Ltac grows_auto := repeat (cbv zeta; grows_step).

Lemma grows_haltFor (e : err) : op_grows (haltFor e).
Proof. unfold haltFor, deadline_err. grows_auto. Qed.
#[local] Hint Resolve grows_haltFor : grows.
Lemma grows_write op q ref : op_grows (write store op q ref).
Proof. unfold write. grows_auto. Qed.
Lemma grows_abandon ri j d : op_grows (abandonReplacement store ri j d).
Proof. unfold abandonReplacement, set_replacement. grows_auto. Qed.
Lemma grows_active : op_grows active.
Proof. unfold active. grows_auto. Qed.
Lemma grows_list {A} (page : Z → St → (list A * bool + Err) * St) fuel p out : op_grows (list_pages maxListPages page fuel p out).
Proof. revert p out. induction fuel as [|fuel IH]; intros p out; cbn [list_pages]; grows_auto. Qed.
#[local] Hint Resolve grows_write grows_abandon grows_active : grows.
Lemma grows_canWrite i : op_grows (canWrite i).
Proof. unfold canWrite. grows_auto. Qed.
Lemma grows_eligiblePair ri oi j : op_grows (eligiblePair store ri oi j).
Proof. unfold eligiblePair, record_at. grows_auto. Qed.
Lemma grows_candidate ri j : op_grows (candidate_holds store ri j).
Proof. unfold candidate_holds, record_at. grows_auto. Qed.
Lemma grows_checkPair i ri oi j : op_grows (checkPair store i ri oi j).
Proof. unfold checkPair, eligiblePair, check_new, check_old, replacement_at, record_at, repo_at. grows_auto. Qed.
Lemma grows_post i ri oi j : op_grows (post_comment store maxListPages i ri oi j).
Proof.
  unfold post_comment, send_comment, findSupersede, listComments, listAll, set_replacement, replacement_at, record_at, repo_at.
  pose proof (@grows_list string). grows_auto; eauto.
Qed.
Lemma grows_close_old i ri oi j : op_grows (close_old store i ri oi j).
Proof. unfold close_old, set_replacement, record_at, repo_at. grows_auto. Qed.
#[local] Hint Resolve grows_canWrite grows_eligiblePair grows_candidate grows_checkPair grows_post grows_close_old : grows.
Lemma grows_replace i ri j : op_grows (replace store maxListPages i ri j).
Proof. unfold replace, replace_close, set_replacement, replacement_at, record_at. grows_auto. Qed.
#[local] Hint Resolve grows_replace : grows.
Lemma grows_resume_one ri j : op_grows (resume_one store maxListPages ri j).
Proof. unfold resume_one, replacement_at, record_at. grows_auto. Qed.
(** A pull request as it was read stands for its record. *)
Definition as_created (r : PRRecord) (pr : PullRequest) : Prop :=
  pullState pr = PRStateOpen ∧ pr_UserModified r = false ∧ pr_MarkerOnly r = false ∧
  gp_HeadSHA pr = pr_HeadSHA r ∧ gp_BaseRef pr = pr_BaseBranch r ∧ gp_BaseRepoID pr = pr_RepoID r.

Lemma markModified_unmarked r pr r' :
  markModified r pr = (r', false) → pr_UserModified r' = false →
  r' = r ∧ pr_UserModified r = false ∧ gp_HeadSHA pr = pr_HeadSHA r ∧ gp_BaseRef pr = pr_BaseBranch r ∧ gp_BaseRepoID pr = pr_RepoID r.
Proof.
  unfold markModified. destruct (pr_UserModified r) eqn:Eu; [intros [= <-]; congruence|].
  destruct (String.eqb_spec (gp_HeadSHA pr) (pr_HeadSHA r)); cbn [negb]; [|intros [=]].
  destruct (String.eqb_spec (gp_BaseRef pr) (pr_BaseBranch r)); cbn [negb]; [|intros [=]].
  destruct (Z.eqb_spec (gp_BaseRepoID pr) (pr_RepoID r)); cbn [negb]; [|intros [=]]. intros [= <-] _. by split_and!.
Qed.

Lemma eligiblePair_ok ri oi j s :
  wp (eligiblePair store ri oi j) s (λ ok s', ok = true → s' = s ∧
    pr_UserModified (record ri s) = false ∧ pr_MarkerOnly (record ri s) = false ∧
    pr_UserModified (record oi s) = false ∧ pr_MarkerOnly (record oi s) = false).
Proof.
  unfold eligiblePair. apply wp_bind, wp_ask. apply wp_bind, wp_ask. apply wp_bind, wp_ask.
  change (nth ri (fl_PRs (file s)) zero_pr) with (record ri s). change (nth oi (fl_PRs (file s)) zero_pr) with (record oi s).
  destruct (targetBlocked _ _ _); [by apply wp_bind; unfold wp|].
  destruct (pr_UserModified (record ri s) || pr_MarkerOnly (record ri s)) eqn:E1; [by apply wp_bind; unfold wp|].
  destruct (pr_UserModified (record oi s) || pr_MarkerOnly (record oi s)) eqn:E2; [by apply wp_bind; unfold wp|].
  apply orb_false_iff in E1 as [? ?], E2 as [? ?]. by unfold wp.
Qed.

Lemma check_new_ok i ri j s :
  pr_MarkerOnly (record ri s) = false →
  wp (check_new store i ri j) s (λ ok s', ok = true → still s s' ∧
    ∃ npr, log s' = log s ++ [ReadPull (rt_name (repo i s)) (pr_Number (record ri s)) (inl npr)] ∧ as_created (record ri s) npr).
Proof.
  intros Hm. unfold check_new. apply wp_bind, wp_ask. apply wp_bind, wp_ask. apply wp_bind, wp_call.
  intros x s1 N1 L1 _. destruct x as [npr|e]; [|by apply wp_bind; unfold wp].
  destruct (String.eqb_spec (pullState npr) PRStateOpen) as [Eo|]; cbn [negb orb];
    [|by apply wp_bind; unfold wp at 1; apply wp_bind; unfold wp].
  destruct (markModified _ npr) as [rec' marked] eqn:Em. destruct marked; cbn [orb]; [by apply wp_bind; unfold wp at 1; apply wp_bind; unfold wp|].
  destruct (pr_UserModified rec') eqn:Eu; [by apply wp_bind; unfold wp at 1; apply wp_bind; unfold wp|].
  destruct (markModified_unmarked _ _ _ Em Eu) as (_ & ? & ? & ? & ?). intros _. split; [done|]. exists npr. split; [done|]. by split_and!.
Qed.

Lemma check_old_ok i ri oi j s :
  pr_MarkerOnly (record oi s) = false →
  wp (check_old store i ri oi j) s (λ ok s', ok = true → still s s' ∧
    ∃ opr, log s' = log s ++ [ReadPull (rt_name (repo i s)) (pr_Number (record oi s)) (inl opr)] ∧ as_created (record oi s) opr).
Proof.
  intros Hm. unfold check_old. do 3 apply wp_bind, wp_ask. apply wp_bind. unfold replacement_at. apply wp_bind, wp_ask. unfold wp at 1.
  apply wp_bind, wp_call. intros x s1 N1 L1 _. destruct x as [opr|e]; [|by apply wp_bind; unfold wp].
  destruct (String.eqb_spec (pullState opr) PRStateMerged) as [|E1]; [by apply wp_bind; unfold wp at 1; apply wp_bind; unfold wp|].
  destruct (String.eqb_spec (pullState opr) PRStateClosed) as [|E2]; [by apply wp_bind; unfold wp at 1; apply wp_bind; unfold wp|].
  destruct (markModified _ opr) as [old' marked] eqn:Em. destruct marked; cbn [orb]; [by apply wp_bind; unfold wp at 1; apply wp_bind; unfold wp|].
  destruct (pr_UserModified old') eqn:Eu; [by apply wp_bind; unfold wp at 1; apply wp_bind; unfold wp|].
  destruct (markModified_unmarked _ _ _ Em Eu) as (_ & ? & ? & ? & ?). intros _. split; [done|]. exists opr. split; [done|]. split_and!; try done.
  unfold pullState in *. destruct (gp_Merged opr); [done|]. by destruct (String.eqb _ _).
Qed.

(** The pair was read last. *)
Definition checked (i ri oi : nat) (s : state) (l : list (act Err)) : Prop :=
  ∃ l' npr opr, l = l' ++ [ReadPull (rt_name (repo i s)) (pr_Number (record ri s)) (inl npr);
                           ReadPull (rt_name (repo i s)) (pr_Number (record oi s)) (inl opr)] ∧
    as_created (record ri s) npr ∧ as_created (record oi s) opr.

Lemma still_record k s s' : still s s' → record k s' = record k s.
Proof. intros N. unfold record. by rewrite (st_prs _ _ N). Qed.
Lemma still_repo_name i s s' : near s s' → rt_name (repo i s') = rt_name (repo i s).
Proof. intros N. by destruct (nr_repos _ _ N i). Qed.

Lemma checkPair_ok i ri oi j s :
  wp (checkPair store i ri oi j) s (λ ok s', ok = true → still s s' ∧ checked i ri oi s' (log s')).
Proof.
  unfold checkPair. apply wp_bind. eapply wp_mono; [apply eligiblePair_ok|]. intros [] s1 H1'; [|by unfold wp]. cbn [negb].
  destruct (H1' eq_refl) as (-> & U1 & M1 & U2 & M2). apply wp_bind. eapply wp_mono; [by apply check_new_ok|].
  intros [] s2 H2'; [|by unfold wp]. destruct (H2' eq_refl) as (N2 & npr & L2 & A2).
  eapply wp_mono; [apply check_old_ok; by rewrite (still_record _ _ _ N2)|]. intros ok s3 H3'. intros ->. destruct (H3' eq_refl) as (N3 & opr & L3 & A3).
  assert (N : still s s3) by (by etransitivity). split; [done|]. exists (log s), npr, opr.
  rewrite (still_record ri s s3), (still_record oi s s3), (still_repo_name i s s3) by apply N || done.
  rewrite L3, L2, <- app_assoc, (still_record oi s s2), (still_repo_name i s s2) by apply N2 || done. split; [done|]. split; [done|].
  by rewrite (still_record oi s s2) in A3.
Qed.

(** What a record is apart from its replacements. *)
Definition plain_pr (r : PRRecord) : PRRecord := r <| pr_Replacing := [] |>.

Lemma as_created_plain r r' pr : plain_pr r = plain_pr r' → as_created r pr → as_created r' pr.
Proof.
  intros E. unfold as_created. change (pr_UserModified r) with (pr_UserModified (plain_pr r)). change (pr_MarkerOnly r) with (pr_MarkerOnly (plain_pr r)).
  change (pr_HeadSHA r) with (pr_HeadSHA (plain_pr r)). change (pr_BaseBranch r) with (pr_BaseBranch (plain_pr r)).
  change (pr_RepoID r) with (pr_RepoID (plain_pr r)). by rewrite E.
Qed.

(** The pair that was read justifies the write about it. *)
Lemma checked_pair i ri oi s l s' f ev :
  checked i ri oi s l → (∀ k, plain_pr (record k s') = plain_pr (record k s)) →
  ri < length (fl_PRs (file s')) → oi < length (fl_PRs (file s')) → fl_PRs f = fl_PRs (file s') →
  ev_AttemptKey ev = pr_AttemptKey (record ri s) → pair_read (rt_name (repo i s)) (pr_Number (record oi s)) l f ev (record ri s').
Proof.
  intros (l' & npr & opr & -> & A1 & A2) Hp Hr Ho Ef Ek.
  assert (Hnum : ∀ k, pr_Number (record k s') = pr_Number (record k s)) by (intros k; apply (f_equal pr_Number (Hp k))).
  exists l', npr, opr, (record oi s'). rewrite Ef, Hnum. split_and!; [done|..].
  - apply list_elem_of_In, nth_In. lia.
  - apply list_elem_of_In, nth_In. lia.
  - rewrite Ek. apply (f_equal pr_AttemptKey (Hp ri)).
  - done.
  - intros r pr [[-> ->]|[-> ->]]; [eapply as_created_plain; [|exact A1]|eapply as_created_plain; [|exact A2]]; by rewrite Hp.
Qed.
(** Both records are there. *)
Definition in_records (ri oi : nat) (s : state) : Prop := ri < length (fl_PRs (file s)) ∧ oi < length (fl_PRs (file s)).

Lemma in_records_grow {A} (m : stage A) ri oi s : op_grows m → in_records ri oi s → in_records ri oi (snd (m s)).
Proof. intros Hm [H1' H2']. specialize (Hm s). split; lia. Qed.

Lemma wp_send_comment d i ri oi j s s1 l' comments :
  exists_apart → inv d s1 → clear s1 → in_records ri oi s1 → checked i ri oi s l' →
  (∀ k, plain_pr (record k s1) = plain_pr (record k s)) →
  log s1 = l' ++ pages_read (ReadComments (rt_name (repo i s)) (pr_Number (record oi s))) 1 comments → comments ≠ [] →
  existsb (λ c, hasSupersedeMarker c (pr_Number (record ri s)) (pr_UpdateKey (record ri s))) (concat comments) = false →
  wp (send_comment store (repo i s) (record ri s) (record oi s) ri j) s1 (λ _ s', inv d s').
Proof.
  intros Hex I C [Hr Ho] Hck P L Hne Hp. unfold send_comment. apply wp_bind. apply (wp_calm _ d); [apply calm_reserve|done|].
  apply wp_reserve; [done|]. intros s3 N3 L3 I3. cbn [negb]. apply wp_bind. apply (wp_write d _ (CreateIssueComment _ _ _)); try done.
  - by apply N3.
  - assert (P3 : ∀ k, plain_pr (record k s3) = plain_pr (record k s)) by (intros k; by rewrite (still_record _ _ _ N3)).
    assert (Eri : pr_Number (record ri s3) = pr_Number (record ri s) ∧ pr_URL (record ri s3) = pr_URL (record ri s) ∧
                  pr_UpdateKey (record ri s3) = pr_UpdateKey (record ri s)).
    { specialize (P3 ri). split_and!; [apply (f_equal pr_Number P3)|apply (f_equal pr_URL P3)|apply (f_equal pr_UpdateKey P3)]. }
    destruct Eri as (En & Eu & Ek). intros f ev Ef _ Ekey. exists l', comments, (record ri s3). rewrite En, Eu, Ek.
    split_and!; [by rewrite L3|eapply (checked_pair i ri oi s l' s3); try done; by rewrite (st_prs _ _ N3)|done|done|].
    intros cm Hcm. destruct (hasSupersedeMarker _ _ _) eqn:Eh; [|done]. exfalso. apply not_true_iff_false in Hp. apply Hp.
    apply existsb_exists. exists cm. split; [by apply list_elem_of_In|done].
  - intros id a s4 I4 _. cbn [fst snd]. change (opens _ _) with 0%Z in I4. by rewrite Z.add_0_r in I4.
  - intros id e s4 I4 _. cbn [fst snd]. refine (wp_fail _ d _ _ I4). calm_auto.
Qed.

Lemma settle_log id r d (s : state) : log (snd (settle id r d s)) = log s.
Proof.
  unfold settle. destruct (String.eqb _ _); [done|]. unfold mbind, stage_bind, ask, event. cbn [fst snd].
  by destruct (append_event _ _).
Qed.

Lemma alter_replacement_plain j g ri s s' :
  fl_PRs (file s') = alter (λ rec, rec <| pr_Replacing := alter g j (pr_Replacing rec) |>) ri (fl_PRs (file s)) →
  length (fl_PRs (file s')) = length (fl_PRs (file s)) ∧ ∀ k, plain_pr (record k s') = plain_pr (record k s).
Proof.
  intros E. rewrite E, length_alter. split; [done|]. intros k. unfold record. rewrite E, !nth_lookup, list_lookup_alter.
  case_decide; [|done]. subst k. by destruct (fl_PRs (file s) !! ri).
Qed.

Lemma wp_post_comment d i ri oi j s :
  exists_apart → inv d s → clear s → in_records ri oi s → checked i ri oi s (log s) →
  wp (post_comment store maxListPages i ri oi j) s (λ _ s', inv d s').
Proof.
  intros Hex I C [Hr Ho] Hck. unfold post_comment. do 3 apply wp_bind, wp_ask. apply wp_bind. unfold replacement_at. apply wp_bind, wp_ask. unfold wp at 1.
  change (nth ri (fl_PRs (file s)) zero_pr) with (record ri s). change (nth oi (fl_PRs (file s)) zero_pr) with (record oi s).
  change (nth i (ru_repos (fst s)) zero_repo) with (repo i s). cbn [fst snd mret stage_ret].
  set (rp := nth j _ zero_replacement). apply wp_bind. apply (wp_calm _ d); [apply calm_findSupersede|done|].
  unfold findSupersede. apply wp_bind. eapply wp_mono; [apply listComments_ok|]. intros x s1 [N1 Hx]. unfold wp at 1. cbn [mret stage_ret fst snd].
  intros I1. destruct x as [cs|e]; [|refine (wp_fail _ d _ _ I1); calm_auto]. destruct (Hx cs eq_refl) as (pages & Hne & Ecs & L1).
  destruct (existsb _ cs) eqn:Hp; [refine (wp_fail _ d _ _ I1); calm_auto|].
  apply wp_bind. destruct (not_empty (rp_PendingOp rp)).
  - apply wp_bind. apply (wp_calm _ d); [apply calm_settle|done|]. unfold wp at 1.
    pose proof (still_settle (rp_PendingOp rp) ResultFailed "no supersede comment was found" s1) as N2.
    pose proof (settle_log (rp_PendingOp rp) ResultFailed "no supersede comment was found" s1) as L2.
    destruct (settle _ _ _ s1) as [[] s2]. cbn [fst snd] in *. intros I2. unfold set_replacement.
    apply (wp_calm _ d); [apply calm_set_record|done|]. apply wp_set_record. intros s3 N3 _ L3 P3 I3.
    destruct (alter_replacement_plain _ _ _ _ _ P3) as [Hlen Hpl].
    assert (Hst : still s s2) by (by etransitivity).
    apply (wp_send_comment d i ri oi j s s3 (log s) pages); try done; [..|by rewrite <- Ecs].
    + by apply N3, Hst.
    + split; rewrite Hlen, (st_prs _ _ Hst); done.
    + intros k. rewrite Hpl. by rewrite (still_record _ _ _ Hst).
    + congruence.
  - unfold wp at 1. apply (wp_send_comment d i ri oi j s s1 (log s) pages); try done; [..|by rewrite <- Ecs].
    + by apply N1.
    + split; by rewrite (st_prs _ _ N1).
    + intros k. by rewrite (still_record _ _ _ N1).
Qed.

Lemma wp_close_old d i ri oi j s :
  exists_apart → inv d s → clear s → in_records ri oi s → checked i ri oi s (log s) →
  wp (close_old store i ri oi j) s (λ _ s', inv d s').
Proof.
  intros Hex I C [Hr Ho] Hck. unfold close_old. do 3 apply wp_bind, wp_ask. apply wp_bind.
  change (nth ri (fl_PRs (file s)) zero_pr) with (record ri s). change (nth oi (fl_PRs (file s)) zero_pr) with (record oi s).
  change (nth i (ru_repos (fst s)) zero_repo) with (repo i s). apply (wp_write d _ (ClosePull _ _)); try done.
  - intros f ev Ef _ Ekey. exists (record ri s). by apply (checked_pair i ri oi s (log s) s).
  - intros id a s1 I1 _. change (opens _ _) with 0%Z in I1. rewrite Z.add_0_r in I1. refine (wp_fail _ d _ _ I1). calm_auto.
  - intros id e s1 I1 _. refine (wp_fail _ d _ _ I1). calm_auto.
Qed.

(** What [checkPair] leaves stays when room is made in the log. *)
Lemma checked_still i ri oi s s' : still s s' → log s' = log s → checked i ri oi s (log s) → checked i ri oi s' (log s').
Proof.
  intros N L. unfold checked. rewrite (still_record ri _ _ N), (still_record oi _ _ N), (still_repo_name i _ _ (st_near _ _ N)), L. done.
Qed.

Lemma wp_replace_close d i ri oi j s :
  exists_apart → inv d s → clear s → in_records ri oi s → wp (replace_close store i ri oi j) s (λ _ s', inv d s').
Proof.
  intros Hex I C HR. unfold replace_close. apply wp_bind. unfold replacement_at. apply wp_bind, wp_ask. unfold wp at 1.
  destruct (negb _); [done|]. apply wp_bind. apply (wp_calm _ d); [apply calm_checkPair|done|].
  eapply wp_mono; [apply checkPair_ok|]. intros [] s1 H1' I1; [|done]. destruct (H1' eq_refl) as [N1 Hck]. cbn [negb].
  apply wp_bind. apply (wp_calm _ d); [apply calm_reserve|done|]. apply wp_reserve; [done|]. intros s2 N2 L2 I2.
  apply wp_close_old; [done|done|by apply N2, N1| |by eapply checked_still].
  destruct HR. split; by rewrite (st_prs _ _ N2), (st_prs _ _ N1).
Qed.

Lemma canWrite_ok i s : wp (canWrite i) s (λ b s', b = true → clear s').
Proof.
  unfold canWrite. apply wp_bind. unfold active. apply wp_bind, wp_ask. apply wp_bind. unfold wp at 1. set (s1 := snd _).
  apply wp_ask. destruct (ru_halt (fst s1)) eqn:Eh; [by unfold wp|]. destruct (storage_stopped _) eqn:Es; cbn [negb]; [by unfold wp|].
  apply wp_ask. destruct (ru_stop (fst s1)) eqn:Et; [done|]. intros _. by split; [|left].
Qed.

Lemma candidate_holds_ok ri j s : wp (candidate_holds store ri j) s (λ ok s', ok = true → still s s').
Proof.
  unfold candidate_holds. apply wp_bind, wp_ask. destruct (String.eqb _ _).
  - destruct (_ || _); [by apply wp_bind; unfold wp|by unfold wp].
  - destruct (from_option _ _ _) as [|it ?]; [by apply wp_bind; unfold wp|]. destruct (parsePlatform _); [|by apply wp_bind; unfold wp].
    apply wp_bind, wp_call. intros x s1 N1 _ _. destruct x as [top|e]; [|by apply wp_bind; unfold wp].
    destruct (negb _); [by apply wp_bind; unfold wp|by unfold wp].
Qed.

Lemma wp_grown {A} (m : stage A) Q ri oi s : op_grows m → in_records ri oi s → wp m s Q → wp m s (λ x s', Q x s' ∧ in_records ri oi s').
Proof. intros Hm HR Hw. split; [exact Hw|by apply in_records_grow]. Qed.

Lemma wp_replace d i ri j s :
  exists_apart → inv d s → clear s → ri < length (fl_PRs (file s)) →
  wp (replace store maxListPages i ri j) s (λ _ s', inv d s').
Proof.
  intros Hex I C Hr. unfold replace. apply wp_bind, wp_ask. apply wp_bind. unfold replacement_at. apply wp_bind, wp_ask. unfold wp at 1.
  apply wp_bind, wp_ask. cbn [fst snd mret stage_ret]. destruct (recordByNumber _ _ _) as [oi|] eqn:Eo; [|refine (wp_fail _ d _ _ I); calm_auto].
  assert (HR : in_records ri oi s) by (split; [done|by eapply find_index_lt]). clear Eo.
  apply wp_bind. apply (wp_calm _ d); [apply calm_eligiblePair|done|]. eapply wp_mono; [apply eligiblePair_ok|].
  intros [] s1 H1' I1; [|done]. cbn [negb]. destruct (H1' eq_refl) as [-> _].
  apply wp_bind. apply (wp_calm _ d); [apply calm_candidate_holds|done|].
  eapply wp_mono; [apply candidate_holds_ok|].
  intros [] s2 H2' I2; [|done]. cbn [negb]. specialize (H2' eq_refl).
  assert (HR2 : in_records ri oi s2) by (destruct HR; split; by rewrite (st_prs _ _ H2')).
  assert (C2 : clear s2) by (by apply H2').
  destruct (String.eqb _ _); [|by apply wp_replace_close].
  apply wp_bind. apply (wp_calm _ d); [apply calm_checkPair|done|]. eapply wp_mono; [apply checkPair_ok|].
  intros [] s3 H3' I3; [|done]. cbn [negb]. destruct (H3' eq_refl) as [N3 Hck].
  assert (HR3 : in_records ri oi s3) by (destruct HR2; split; by rewrite (st_prs _ _ N3)).
  apply wp_bind. eapply wp_mono; [apply (wp_grown _ (λ _ s', inv d s') ri oi); [apply grows_post|exact HR3|]; apply wp_post_comment; [done|done|by apply N3|done|done]|].
  intros [] s4 [I4 HR4]; [|done]. cbn [negb].
  apply wp_bind. apply (wp_calm _ d); [apply calm_set_replacement|done|].
  unfold set_replacement. apply wp_set_record. intros s5 _ _ _ P5 I5.
  assert (HR5 : in_records ri oi s5) by (destruct HR4; split; by rewrite P5, length_alter).
  apply wp_bind. apply (wp_calm _ d); [apply calm_save|done|]. apply wp_still; [apply still_save|]. intros ok s6 N6 I6.
  destruct ok; cbn [negb]; [|done]. apply wp_bind.
  eapply wp_mono; [apply (wp_grown _ (λ b s', inv d s' ∧ (b = true → clear s')) ri oi); [apply grows_canWrite| |]|].
  - destruct HR5. split; by rewrite (st_prs _ _ N6).
  - apply (wp_calm _ d); [apply calm_canWrite|done|]. eapply wp_mono; [apply canWrite_ok|]. by intros b s7 Hb I7.
  - intros [] s7 [[I7 C7] HR7]; [|done]. apply wp_replace_close; [done|done|by apply C7|done].
Qed.

(** A loop over positions. *)
Lemma wp_for_each (P : state → Prop) body l s :
  (∀ k s, k ∈ l → P s → wp (body k) s (λ _ s', P s')) → P s → wp (for_each body l) s (λ _ s', P s').
Proof.
  revert s. induction l as [|k l IH]; intros s Hb Hs; cbn [for_each]; [done|].
  apply wp_bind. eapply wp_mono; [apply Hb; [by left|done]|]. intros [] s1 H1'. apply IH; [|done]. intros k' s' Hk'. apply Hb. by right.
Qed.

Definition with_records (d : Z) (n : nat) (s : state) : Prop := inv d s ∧ n ≤ length (fl_PRs (file s)).

Lemma wp_resume_one d n ri j s :
  exists_apart → ri < n → with_records d n s → wp (resume_one store maxListPages ri j) s (λ _ s', with_records d n s').
Proof.
  intros Hex Hn [I Hl]. pose proof (grows_resume_one ri j s) as Hg.
  assert (Hw : wp (resume_one store maxListPages ri j) s (λ _ s', inv d s')); [|split; [exact Hw|lia]]. clear Hg.
  unfold resume_one. apply wp_bind, wp_ask. apply wp_bind. unfold replacement_at. apply wp_bind, wp_ask. unfold wp at 1. cbn [fst snd mret stage_ret].
  destruct (_ || _); [done|]. apply wp_bind, wp_ask. destruct (repoByID _ _) as [i|]; [|done].
  apply wp_bind. eapply wp_mono; [apply (wp_grown _ (λ b s', inv d s' ∧ (b = true → clear s')) ri ri); [apply grows_canWrite|split; lia|]|].
  - apply (wp_calm _ d); [apply calm_canWrite|done|]. eapply wp_mono; [apply canWrite_ok|]. by intros b s7 Hb I7.
  - intros [] s7 [[I7 C7] [HR7 _]]; [|done]. apply wp_replace; [done|done|by apply C7|done].
Qed.

Lemma wp_resumeReplacements d s : exists_apart → inv d s → wp (resumeReplacements store maxListPages) s (λ _ s', inv d s').
Proof.
  intros Hex I. unfold resumeReplacements. apply wp_bind, wp_ask. set (n := length _).
  eapply wp_mono; [apply (wp_for_each (with_records d n))|by intros _ s' [? _]]; [|by split].
  intros ri s1 Hri%elem_of_seq Hs1. unfold resume_record. apply wp_bind, wp_ask. apply wp_for_each; [|done].
  intros j s2 _ Hs2. apply wp_resume_one; [done|lia|done].
Qed.

Lemma wp_process_units d p l s :
  exists_apart → inv d s → l ⊆ units → wp (process_units store limits maxListPages p l) s (λ _ s', inv d s').
Proof.
  intros Hex. revert s. induction l as [|u l IH]; intros s I Hl; cbn [process_units]; [done|].
  apply wp_bind. eapply wp_mono; [apply wp_processUnit; [done|done|apply Hl; by left]|]. intros v s1 I1. apply wp_bind.
  eapply wp_mono; [apply IH; [done|intros x Hx; apply Hl; by right]|]. done.
Qed.
(** *** The whole stage *)

Lemma inv_set_repo d i f s :
  inv d s →
  (∀ rs, ru_repos (fst s) !! i = Some rs → rt_name (f rs) = rt_name rs ∧
     (rt_ok (f rs) = true → equal_fold (gi_FullName (rt_info (f rs))) (rt_name rs) = true)) →
  inv d (snd (set_repo i f s)).
Proof.
  intros [I1 I2 I3 I4 I5 I6 I7 I8] Hf. destruct s as [r w]. unfold set_repo, change. cbn [fst snd] in *. split; try done.
  intros rs [k Hk]%list_elem_of_lookup Hok. cbn in Hk. rewrite list_lookup_alter in Hk. case_decide.
  - subst k. apply fmap_Some in Hk as (rs0 & Hk & ->). destruct (Hf rs0 Hk) as [-> Hn]. by apply Hn.
  - apply I2; [by eapply list_elem_of_lookup_2|done].
Qed.

(** Repositories that may not be written to stay so. *)
Lemma calm_not_ok s s' j : calm s s' → rt_ok (repo j s) = false → rt_ok (repo j s') = false.
Proof.
  intros [K _] Hj. unfold repo in *. rewrite nth_lookup in *. destruct (ru_repos (fst s') !! j) as [rs'|] eqn:E; [|done].
  destruct (kp_repos _ _ K j rs' E) as (rs & Ers & _ & _ & Ho). rewrite Ers in Hj. cbn in *. destruct (rt_ok rs'); [|done].
  by rewrite (Ho eq_refl) in Hj.
Qed.

Definition unchecked (k : nat) (s : state) : Prop := ∀ j, k ≤ j → rt_ok (repo j s) = false.

Lemma calm_unchecked s s' k : calm s s' → unchecked k s → unchecked k s'.
Proof. intros Hc Hu j Hj. eapply calm_not_ok; [exact Hc|by apply Hu]. Qed.

Lemma set_repo_other i f s j : i ≠ j → repo j (snd (set_repo i f s)) = repo j s.
Proof. intros Hij. unfold repo, set_repo, change. cbn. rewrite !nth_lookup, list_lookup_alter. by case_decide. Qed.

Definition loading (d : Z) (i : nat) (s : state) : Prop := inv d s ∧ unchecked i s.

Lemma loading_calm {A} (m : stage A) d i s : op_calm m → loading d i s → wp m s (λ _ s', loading d i s').
Proof. intros Hm [I U]. split; [by apply (inv_calm d s)|eapply calm_unchecked; [apply Hm|done]]. Qed.

Lemma wp_loading {A} (m : stage A) d i s (Q : A → state → Prop) :
  op_calm m → loading d i s → wp m s (λ x s', loading d i s' → Q x s') → wp m s Q.
Proof. intros Hm L HQ. apply HQ. by apply loading_calm. Qed.

Lemma loading_next d i s : loading d i s → loading d (S i) s.
Proof. intros [I U]. split; [done|]. intros j Hj. apply U. lia. Qed.

Lemma calm_check_inits i info name l :
  op_calm ((fix go (l : list RepoInit) : stage unit :=
     match l with
     | [] => mret tt
     | ri :: l' =>
         _ ← (if equal_fold (ri_Repo ri) name && negb (ri_RepoID ri =? gi_ID info)%Z
              then blockRepo i PRProblemWriteBlocked ReasonRepositoryMismatch
                     ("the repository's ID is " +:+ signed_itoa (gi_ID info) +:+ ", the records were made for ID " +:+ signed_itoa (ri_RepoID ri))
              else mret tt);
         go l'
     end) l).
Proof. induction l as [|ri l IH]; [apply calm_ret|]. apply calm_bind; [calm_auto|intros _; exact IH]. Qed.

Lemma wp_loadRepo d i s : loading d i s → wp (loadRepo i) s (λ _ s', loading d (S i) s').
Proof.
  intros L. unfold loadRepo. apply wp_bind. eapply wp_mono; [apply (loading_calm _ d i); [apply calm_active|done]|]. intros a s1 L1.
  assert (Hc : ∀ (m : stage unit) s, op_calm m → loading d i s → wp m s (λ _ s', loading d (S i) s')).
  { intros m s0 Hm L0. eapply wp_mono; [by apply loading_calm|]. intros [] s'. apply loading_next. }
  destruct (negb a); [apply Hc; [calm_auto|done]|]. apply wp_bind, wp_ask. change (nth i (ru_repos (fst s1)) zero_repo) with (repo i s1).
  apply wp_bind. apply (wp_loading _ d i); [apply calm_reads|done|]. apply wp_call. intros x s2 _ _ R2 L2.
  destruct x as [info|e]; [|apply Hc; [calm_auto|done]].
  set (f := λ rs, rs <| rt_info := info |>). set (s3 := snd (set_repo i f s2)).
  assert (L3 : loading d i s3).
  { destruct L2 as [I2 U2]. split.
    - apply inv_set_repo; [done|]. intros rs Hrs. split; [done|]. intros Hok. specialize (U2 i (le_n i)). unfold repo in U2.
      rewrite nth_lookup, Hrs in U2. cbn in U2, Hok. congruence.
    - intros j Hj. destruct (decide (i = j)) as [<-|Hij]; [|unfold s3; rewrite set_repo_other by done; by apply U2].
      specialize (U2 i (le_n i)). unfold repo, s3, set_repo, change in *. cbn. rewrite !nth_lookup, list_lookup_alter in *.
      case_decide; [|done]. by destruct (ru_repos (fst s2) !! i). }
  assert (E3 : ∀ rs, ru_repos (fst s3) !! i = Some rs → rt_info rs = info ∧ rt_name rs = rt_name (repo i s1)).
  { intros rs. unfold s3, set_repo, change. cbn. rewrite list_lookup_alter. case_decide; [|done]. intros (rs0 & Hrs0 & ->)%fmap_Some.
    split; [done|]. unfold repo. by rewrite nth_lookup, <- R2, Hrs0. }
  apply wp_bind. change (wp (if negb (equal_fold (gi_FullName info) (rt_name (repo i s1)))
     then blockRepo i PRProblemWriteBlocked ReasonRepositoryMismatch
               ("GitHub names the repository " +:+ gi_FullName info +:+ "; update the configuration to that name")
     else f ← ask ru_file;
          _ ← (fix go (l : list RepoInit) : stage unit :=
                 match l with
                 | [] => mret tt
                 | ri :: l' =>
                     _ ← (if equal_fold (ri_Repo ri) (rt_name (repo i s1)) && negb (ri_RepoID ri =? gi_ID info)%Z
                          then blockRepo i PRProblemWriteBlocked ReasonRepositoryMismatch
                                 ("the repository's ID is " +:+ signed_itoa (gi_ID info) +:+ ", the records were made for ID " +:+ signed_itoa (ri_RepoID ri))
                          else mret tt);
                     go l'
                 end) (fl_Repos f);
          set_repo i (λ rs, if String.eqb (rt_blocked rs) "" then rs <| rt_ok := true |> else rs)) s3 (λ _ s', loading d (S i) s')).
  destruct (equal_fold (gi_FullName info) _) eqn:Ename; cbn [negb]; [|apply Hc; [calm_auto|done]].
  apply wp_bind, wp_ask. apply wp_bind. eapply wp_mono; [apply (wp_loading _ d i _ (λ _ s4, loading d i s4 ∧ calm s3 s4)); [apply calm_check_inits|done|]|].
  - intros L4. split; [done|]. apply calm_check_inits.
  - intros [] s4 [[I4 U4] [K4 _]]. split.
    + apply inv_set_repo; [done|]. intros rs Hrs. split; [by destruct (String.eqb _ _)|]. intros _.
      destruct (kp_repos _ _ K4 i rs Hrs) as (rs3 & Hrs3 & En & Ei & _). destruct (E3 rs3 Hrs3) as [E31 E32].
      destruct (String.eqb _ _); cbn; by rewrite En, Ei, E31, E32.
    + intros j Hj. change (rt_ok (repo j (snd (set_repo i (λ rs, if String.eqb (rt_blocked rs) "" then rs <| rt_ok := true |> else rs) s4))) = false).
      rewrite set_repo_other by lia. apply U4. lia.
Qed.

Lemma wp_loadRepos d s : loading d 0 s → wp loadRepos s (λ _ s', inv d s').
Proof.
  intros L. unfold loadRepos, all_repos. apply wp_bind, wp_ask. generalize (length (ru_repos (fst s))). intros n. revert L. generalize 0. revert s.
  induction n as [|n IH]; intros s k L; cbn [seq for_each]; [apply L|].
  apply wp_bind. eapply wp_mono; [by apply wp_loadRepo|]. intros [] s1 L1. by apply IH.
Qed.

Lemma wp_run_records d p found s :
  exists_apart → loading d 0 s → wp (run_records store limits maxListPages p units found) s (λ _ s', inv d s').
Proof.
  intros Hex L. unfold run_records. apply wp_bind. eapply wp_mono; [by apply (wp_loadRepos d)|]. intros [] s1 I1.
  apply (wp_skip _ _ d); [destruct found; [apply calm_initAddedRepos|apply calm_recoverAll]|done|]. intros _ s2 I2.
  apply (wp_skip _ _ d); [unfold all_repos; calm_auto|done|]. intros l s3 I3.
  apply (wp_skip _ _ d); [apply calm_for_each; intros i; apply calm_reconcileRepo|done|]. intros _ s4 I4.
  apply wp_bind. eapply wp_mono; [by apply (wp_process_units d)|]. intros v s5 I5.
  apply wp_bind. eapply wp_mono; [by apply (wp_resumeReplacements d)|]. intros [] s6 I6. done.
Qed.

Lemma addRepo_not_ok names acc : Forall (λ rs, rt_ok rs = false) acc.1 → Forall (λ rs, rt_ok rs = false) (foldl addRepo acc names).1.
Proof.
  revert acc. induction names as [|n names IH]; intros [repos byKey] Ha; [done|]. cbn [foldl]. apply IH. unfold addRepo.
  destruct (byKey !! _); [done|]. cbn. apply Forall_app. by repeat constructor.
Qed.

Lemma sequenced_empty : sequenced empty_store.
Proof. split; cbn; [constructor|intros ? H'; by apply elem_of_nil in H'|intros ? H'; by apply elem_of_nil in H'|lia]. Qed.

(** The start of a run. *)
Definition start (f : PRStoreFile) (repos : list repoState) (byKey : gmap string nat) : prRun :=
  mk_pr_run f repos byKey None None [] 0 zero_view.

Lemma start_loading f repos byKey w :
  seq_ok f → Forall (λ rs, rt_ok rs = false) repos → loading 0 0 (start f repos byKey, ([], w)).
Proof.
  intros Hf Hr. assert (Hnil : ∀ a : act Err, a ∉ []) by (intros a Ha; by apply elem_of_nil in Ha). split.
  - split; cbn [fst snd]; try done.
    + intros rs Hrs Hok. rewrite Forall_forall in Hr. rewrite (Hr rs Hrs) in Hok. done.
    + intros l1 q x l2 E. by destruct l1.
    + left. split; [intros f' Ha; by eapply Hnil|intros q x Ha; by eapply Hnil in Ha].
    + left. intros f' Ha. by eapply Hnil.
    + intros f' ok Ha. by eapply Hnil in Ha.
    + cbn. lia.
  - intros j _. unfold repo. cbn. destruct (nth_in_or_default j repos zero_repo) as [Hin| ->]; [|done].
    rewrite Forall_forall in Hr. by apply Hr, list_elem_of_In.
Qed.

(** What the history of a run satisfies. *)
Definition sound (l : list (act Err)) : Prop :=
  recorded l ∧ (∀ f ok, Saved f ok ∈ l → good_save f ok) ∧ (opened_count l ≤ Z.max 0 (ql_NewPRsPerCycle limits))%Z.

Lemma inv_sound (s : state) : inv 0 s → sound (log s).
Proof. intros [_ _ I3 _ _ I6 I7 I8]. split_and!; [done|done|lia]. Qed.

Lemma Run_sound inp w :
  units = buildComposeUnits (si_Plan inp) (si_Containers inp) (si_Mappings inp) → exists_apart →
  sound (fst (snd (Run store limits maxListPages inp ([], w)))).
Proof.
  intros Eu Hex. unfold Run. cbv zeta. rewrite <- Eu. set (names := _ ++ _).
  pose proof (addRepo_not_ok names ([], ∅) ltac:(constructor)) as Hrepos. destruct (foldl addRepo _ names) as [repos byKey].
  cbn [fst] in Hrepos. assert (Hempty : ∀ v, inv 0 (start empty_store repos byKey, ([], v))).
  { intros v. apply start_loading; [left; apply sequenced_empty|done]. }
  unfold Lock at 1. cbn [logged_store]. unfold logged at 1. cbn [fst snd]. destruct (Lock (PRStore fs dir) w) as [[e|] v1].
  { unfold mbind, stage_bind, change, problem. cbn [fst snd]. apply (inv_sound (start empty_store repos byKey, ([], v1))), Hempty. }
  unfold Load at 1. cbn [logged_store]. unfold logged at 1. cbn [fst snd].
  pose proof (PRStore_load_sequenced fs dir) as Hload.
  destruct (Load (PRStore fs dir) v1) as [[file|e] v2] eqn:El.
  - assert (Hf : seq_ok (default empty_store file)).
    { left. destruct file as [f|]; [by eapply Hload|apply sequenced_empty]. }
    pose proof (wp_run_records 0 (si_Plan inp) (is_some_b file) _ Hex (start_loading _ repos byKey v2 Hf Hrepos)) as Hw.
    unfold wp in Hw. unfold mbind at 1, stage_bind at 1, change at 1. cbn [fst snd].
    change (mk_pr_run _ repos byKey None None [] 0 zero_view <| ru_file := default empty_store file |>) with (start (default empty_store file) repos byKey).
    destruct (run_records _ _ _ _ _ _ _) as [res [r [l v3]]]. cbn [fst snd] in *. exact (inv_sound _ Hw).
  - pose proof (wp_skip (storageFailed (store_Error e)) (λ _, r ← ask id; mret (result r units)) 0 (start empty_store repos byKey, ([], v2))
      (λ _ s', inv 0 s') (calm_storageFailed _) (Hempty v2) ltac:(intros x s' I'; exact I')) as Hw.
    unfold wp in Hw. unfold start in Hw. destruct ((storageFailed (store_Error e) ≫= _) _) as [res [r [l v3]]]. cbn [fst snd] in *.
    exact (inv_sound _ Hw).
Qed.
End units.

(** ** The theorems *)

(** The history of a run that starts in the world [w]. *)
Definition history (inp : PRStageInput) (w : W) : list (act Err) := fst (snd (Run store limits maxListPages inp ([], w))).

(** The units of a run. *)
Definition run_units (inp : PRStageInput) : list composeUnit := buildComposeUnits (si_Plan inp) (si_Containers inp) (si_Mappings inp).

(** C1: Nothing is written to GitHub unrecorded or unjustified. Whatever the
    plan, the records, the registry and GitHub answer, every write of a cycle
    directly follows a successful save of its intent as the last event, and
    its result is the next thing saved; no write follows an unknown outcome,
    an exhausted or expired limit, or a save that failed. A branch is created
    at the commit the saved attempt has. A pull request is opened only for the
    attempt of a unit of this cycle that is not left to the operator, and right
    after these were read: its base branch, still at the attempt's base; its
    branch, at the attempt's commit; every page of the branch's pull requests,
    with none of this repository among them; and the candidate's tag in the
    repository of the unit's image, still at the attempt's digest. An old pull
    request is commented on or closed only right after it and the one that
    replaces it were read open and as this tool created them; and commented on
    only when none of its comments, all read, says so already. Of the client it
    is assumed that an error that says a branch exists is none of those that say
    the outcome is unknown or a limit was reached. *)
Theorem Run_writes_recorded inp w : exists_apart → recorded gh_is (run_units inp) (history inp w).
Proof. intros Hex. by apply (Run_sound (run_units inp)). Qed.

(** C10: A cycle opens no more pull requests than its limit, counting those
    GitHub says it opened. *)
Theorem Run_opens_within_limit inp w :
  exists_apart → NewPRStage limits = true → (opened_count (history inp w) ≤ ql_NewPRsPerCycle limits)%Z.
Proof.
  intros Hex [Hl%Z.ltb_lt _]%andb_prop. destruct (Run_sound (run_units inp) inp w eq_refl Hex) as (_ & _ & Hc). unfold history. lia.
Qed.

(** C13: The records a cycle saves can be loaded again. Every version it tries
    to save has its operations in increasing order below the next number, each
    with an identifier, and nothing marked as delivered that was not written,
    unless the last of the 63-bit numbers was given out; and whatever was
    saved is what the next cycle loads, where the file is read as it was
    written. The client is assumed to keep the error that a branch exists apart
    from unknown outcomes and limits. *)
Theorem Run_saves_sequenced inp w f ok :
  exists_apart → Saved f ok ∈ history inp w →
  (sequenced f ∨ ∃ op, op ∈ fl_Operations f ∧ (2 ^ 63 - 1 ≤ ev_Seq op)%Z) ∧
  (ok = true → let g := f <| fl_Version := PRStoreVersion |> in
     ∀ v v', fs_read fs v = (inl (Some g), v') → Load (PRStore fs dir) v = (inl (Some g), v')).
Proof.
  intros Hex Hin. destruct (Run_sound (run_units inp) inp w eq_refl Hex) as (_ & Hs & _). destruct (Hs f ok Hin) as [S V]. split.
  - destruct S as [S|(op & Hop & _ & _ & Hm)]; [by left|right; by exists op].
  - intros Hok g v v' Hr. specialize (V Hok). cbn. unfold load_file. rewrite Hr. cbn [fl_Version g].
    change (fl_Version g) with PRStoreVersion. rewrite Z.eqb_refl. cbn [negb]. change (validate g) with (validate f). by rewrite V.
Qed.

(** *** Units that may not be proposed *)

Definition unit_index (u : composeUnit) (s : state) : nat := default 0 (ru_byKey (fst s) !! to_lower (cu_repo u)).

Definition unit_update_key (u : composeUnit) (s : state) : string :=
  let cand := default zero_target_state (cu_candidate u) in
  UpdateKey (TargetKeyOf prKindCompose (gi_ID (rt_info (repo (unit_index u s) s))) (cu_baseBranch u) (cu_path u) (cu_locations u))
    (cu_current u) (im_Tag cand) (im_TopDigest cand).

(** Why nothing is proposed for a unit. *)
Inductive held (u : composeUnit) (s : state) : Prop :=
  | held_manual : cu_manual u = true → held u s
  | held_repo : writable (repo (unit_index u s) s) = false → held u s
  | held_known ri : recordByUpdateKey (file s) (unit_update_key u s) = Some ri → held u s
  | held_target key detail : key = TargetKeyOf prKindCompose (gi_ID (rt_info (repo (unit_index u s) s))) (cu_baseBranch u) (cu_path u) (cu_locations u) →
      rt_blockedTargets (repo (unit_index u s) s) !! key = Some detail → held u s
  | held_halt h : ru_halt (fst s) = Some h → held u s
  | held_stop x : ru_stop (fst s) = Some x → held u s
  | held_limit : (ql_NewPRsPerCycle limits ≤ ru_newPRs (fst s))%Z → held u s
  | held_open : (ql_OpenPRs limits ≤ Z.of_nat (openCount (fst s)))%Z → held u s.

Definition sends_nothing {A} (m : stage A) (s : state) : Prop := ∀ q x, Sent q x ∈ log (snd (m s)) → Sent q x ∈ log s.

Lemma calm_sends_nothing {A} (m : stage A) s : op_calm m → sends_nothing m s.
Proof. intros Hm q x Hx. destruct (cl_log _ _ (Hm s)) as (l & E & Hl & _). rewrite E in Hx. by apply elem_of_app in Hx as [?|?%Hl]. Qed.

Lemma held_new_update p c u s :
  held u s → cu_manual u = false → recordByUpdateKey (file s) (unit_update_key u s) = None →
  uc_rs c = unit_index u s →
  uc_targetKey c = TargetKeyOf prKindCompose (gi_ID (rt_info (repo (unit_index u s) s))) (cu_baseBranch u) (cu_path u) (cu_locations u) →
  sends_nothing (new_update store limits maxListPages p c) s.
Proof.
  intros Hh Hm Hr Ec Et.
  assert (Hcalm : ∀ (m : stage unit) s', op_calm m → log s' = log s → ∀ q x, Sent q x ∈ log (snd (m s')) → Sent q x ∈ log s).
  { intros m s' Hm' <- q x. by apply calm_sends_nothing. }
  change (wp (new_update store limits maxListPages p c) s (λ _ s', ∀ q x, Sent q x ∈ log s' → Sent q x ∈ log s)).
  unfold new_update. apply wp_bind. unfold stopped. apply wp_bind, wp_ask. cbv zeta. unfold id. rewrite Ec.
  change (nth (unit_index u s) (ru_repos (fst s)) zero_repo) with (repo (unit_index u s) s).
  destruct (ru_halt (fst s)) eqn:Eh; [unfold halt_status; apply wp_bind, wp_bind, wp_ask; unfold id; rewrite Eh; by unfold wp|].
  destruct (ru_stop (fst s)) eqn:Es; [unfold stop_status; apply wp_bind, wp_bind, wp_ask; unfold id; rewrite Es; by unfold wp|].
  destruct (writable (repo (unit_index u s) s)) eqn:Ew; cbn [negb].
  2:{ apply wp_bind. destruct (String.eqb _ _); by unfold wp. }
  unfold wp at 1. cbn [mret stage_ret fst snd]. apply wp_bind, wp_ask.
  change (nth (unit_index u s) (ru_repos (fst s)) zero_repo) with (repo (unit_index u s) s). rewrite Et.
  destruct (rt_blockedTargets _ !! _) eqn:Eb; [by unfold wp|]. apply wp_bind, wp_ask. unfold id.
  destruct (Z.leb_spec (ql_NewPRsPerCycle limits) (ru_newPRs (fst s))); [by unfold wp|].
  destruct (Z.leb_spec (ql_OpenPRs limits) (Z.of_nat (openCount (fst s)))); [by unfold wp|]. exfalso.
  destruct Hh as [?|?|?|??->|?|?|?|?]; try congruence; lia.
Qed.

(** C7: Nothing is proposed twice or past a limit. For a unit left to the
    operator, one of a repository that was not checked against GitHub or is
    blocked, one whose update has a record in any state, one with an attempt
    that could not be settled, and any unit once the stage was stopped or
    halted or a limit is reached, no request that changes anything is sent. *)
Theorem held_unit_sends_nothing p u s : held u s → sends_nothing (processUnit store limits maxListPages p u) s.
Proof.
  intros Hh. set (s1 := (fst s <| ru_view := unitView u |>, snd s)).
  assert (Hh1 : held u s1) by (destruct Hh; [by constructor 1|by constructor 2|by econstructor 3|by econstructor 4|by econstructor 5|by econstructor 6|by constructor 7|by constructor 8]).
  change (wp (processUnit store limits maxListPages p u) s (λ _ s', ∀ q x, Sent q x ∈ log s' → Sent q x ∈ log s1)).
  unfold processUnit. apply wp_bind. unfold wp at 1. cbn [change fst snd]. fold s1. apply wp_bind.
  assert (Q : ∀ (m : stage unit), sends_nothing m s1 → wp m s1 (λ _ s', wp (ask ru_view) s' (λ _ s', ∀ q x, Sent q x ∈ log s' → Sent q x ∈ log s1))) by done.
  destruct (cu_manual u) eqn:Em; [apply Q, calm_sends_nothing; calm_auto|]. apply Q. clear Q.
  change (wp (r ← ask id; let i := default 0 (ru_byKey r !! to_lower (cu_repo u)) in rs ← repo_at i;
     if negb (rt_ok rs) then _ ← stopped (mk_unit_ctx u i "" ""); v ← ask ru_view;
       if String.eqb (vu_Status v) "" then set_status PRStatusWriteBlocked (rt_blocked rs) (rt_blockedDetail rs) else mret tt
     else
       let tk := TargetKeyOf prKindCompose (gi_ID (rt_info rs)) (cu_baseBranch u) (cu_path u) (cu_locations u) in
       let cand := default zero_target_state (cu_candidate u) in
       let uk := UpdateKey tk (cu_current u) (im_Tag cand) (im_TopDigest cand) in
       let c := mk_unit_ctx u i tk uk in
       _ ← change (λ r, r <| ru_view := ru_view r <| vu_TargetKey := tk |> <| vu_UpdateKey := uk |> |>);
       f ← ask ru_file;
       match recordByUpdateKey f uk with Some ri => known_update store ri | None => new_update store limits maxListPages p c end) s1
     (λ _ s', ∀ q x, Sent q x ∈ log s' → Sent q x ∈ log s1)).
  apply wp_bind, wp_ask. cbv zeta. unfold id. apply wp_bind, wp_ask.
  change (default 0 (ru_byKey (fst s1) !! to_lower (cu_repo u))) with (unit_index u s1).
  change (nth (unit_index u s1) (ru_repos (fst s1)) zero_repo) with (repo (unit_index u s1) s1).
  destruct (rt_ok _) eqn:Eok; cbn [negb].
  2:{ match goal with |- wp ?m _ _ => change (sends_nothing m s1) end. apply calm_sends_nothing. calm_auto. }
  apply wp_bind. unfold wp at 1. cbn [change fst snd]. apply wp_bind, wp_ask.
  change (UpdateKey _ _ _ _) with (unit_update_key u s1). cbn [fst].
  set (s2 := (fst s1 <| ru_view := _ |>, snd s1)).
  change (recordByUpdateKey (ru_file (fst s1)) (unit_update_key u s1)) with (recordByUpdateKey (file s2) (unit_update_key u s2)).
  destruct (recordByUpdateKey _ _) eqn:Er.
  - change (sends_nothing (known_update store n) s2). apply calm_sends_nothing. calm_auto.
  - assert (Hh2 : held u s2) by (destruct Hh1; [by constructor 1|by constructor 2|by econstructor 3|by econstructor 4|by econstructor 5|by econstructor 6|by constructor 7|by constructor 8]).
    by apply (held_new_update p _ u s2).
Qed.
(** *** Without the records *)

(** The records cannot be locked or read. *)
Definition no_records (w : W) : Prop :=
  let '(e, w1) := Lock (PRStore fs dir) w in is_Some e ∨ ∃ e', fst (Load (PRStore fs dir) w1) = inr e'.

(** A unit of a run without its records: left to the operator as it was, or
    blocked. *)
Definition not_tried (u : composeUnit) (v : PRUnit) : Prop :=
  vu_Key v = cu_key u ∧
  (if cu_manual u then vu_Status v = PRStatusManual ∧ vu_Reason v = cu_manualReason u
   else vu_Status v = PRStatusWriteBlocked ∧ (vu_Reason v = ReasonStoreLocked ∨ vu_Reason v = ReasonStorageFailed)).

Lemma result_not_tried r units st :
  ru_stop r = Some st → sp_status st = PRStatusWriteBlocked → sp_reason st = ReasonStoreLocked ∨ sp_reason st = ReasonStorageFailed →
  Forall2 not_tried units (sr_Units (result r units)).
Proof.
  intros E Es Er. unfold result. cbn [sr_Units]. induction units as [|u units IH]; cbn; constructor; [|done].
  unfold result_unit, not_tried. destruct (cu_manual u); [done|]. rewrite E. by split; [|split].
Qed.

Lemma problem_stop p (s : state) : ru_stop (fst (snd (problem p s))) = ru_stop (fst s) ∧ snd (snd (problem p s)) = snd s.
Proof. unfold problem, change. cbn. by destruct (existsb _ _). Qed.

(** The world such a run leaves. *)
Definition untouched (w : W) : W :=
  let '(e, w1) := Lock (PRStore fs dir) w in
  match e with Some _ => w1 | None => Unlock (PRStore fs dir) (snd (Load (PRStore fs dir) w1)) end.

Lemma no_records_run inp w :
  no_records w →
  ∃ r st, Run store limits maxListPages inp ([], w) = (result r (run_units inp), ([], untouched w)) ∧ ru_stop r = Some st ∧
    sp_status st = PRStatusWriteBlocked ∧ (sp_reason st = ReasonStoreLocked ∨ sp_reason st = ReasonStorageFailed).
Proof.
  intros Hn. unfold no_records, untouched, Run in *. fold (run_units inp). cbv zeta.
  destruct (foldl addRepo _ _) as [repos byKey].
  cbn [logged_store Lock Load Unlock]. unfold logged. cbn [fst snd]. destruct (Lock (PRStore fs dir) w) as [[e|] v1].
  - set (reason := if is_locked e then _ else _).
    unfold mbind, stage_bind, change at 1. cbn [fst snd].
    match goal with |- context [problem ?p ?s] => pose proof (problem_stop p s) as [Hs Hl]; destruct (problem p s) as [[] [r [l v]]] end.
    cbn [fst snd] in *. injection Hl as -> ->. exists r. eexists. split; [reflexivity|]. split; [exact Hs|]. split; [done|].
    unfold reason. cbn. destruct (is_locked e); [by left|by right].
  - destruct Hn as [[? [=]]|[e He]]. cbn [fst snd].
    destruct (Load (PRStore fs dir) v1) as [x v2]. cbn [fst] in He. subst x. cbn [fst snd].
    unfold storageFailed, mbind, stage_bind, change at 1. cbn [fst snd].
    match goal with |- context [problem ?p ?s] => pose proof (problem_stop p s) as [Hs Hl]; destruct (problem p s) as [[] [r [l v]]] end.
    cbn [fst snd] in *. injection Hl as -> ->. exists r. eexists. split; [reflexivity|]. split; [exact Hs|]. split; [done|]. by right.
Qed.

(** C17: Records that are held by another process, or that cannot be read, stop
    the stage before it reads or writes anything: GitHub and the registry are
    not asked, nothing is saved, the world is as taking the lock left it, or as
    one attempt to read the records and giving the lock back left it, and every
    unit is reported as blocked, or as left to the operator for its own
    reason. *)
Theorem no_records_no_work inp w :
  no_records w →
  let '(res, (h, w')) := Run store limits maxListPages inp ([], w) in
  h = [] ∧ w' = untouched w ∧ Forall2 not_tried (run_units inp) (sr_Units res) ∧ sr_Operations res = [] ∧ sr_LastSeq res = 0%Z.
Proof.
  intros (r & st & -> & Hs & Hst & Hr)%(no_records_run inp). split_and!; try done. by eapply result_not_tried.
Qed.
End spec.
