(* ===== verification/PRExample.v ===== *)
(** * PRExample: one cycle of the pull request stage

    The plan of PlannerSpec's small world, turned into a unit and then into a
    pull request in a world that keeps the record file and the branches it
    was asked to create; and an encoding with which the marker's laws hold.
    The theorems of PRUnits, PRMarker and PRSpec are applied to them. *)

From Stdlib Require Import ZArith Lia Bool Ascii String List.
From stdpp Require Import base gmap strings list countable.
From S2P Require Import Prelude GoStrings GoRegexp GoText Reference Inventory Triage Report Build Compare ImageTag Adopt Declared Plan Planner PlannerSpec PRTypes PRKeys PRMarker PRUnits PRStore PRStage PRSpec.

Open Scope string_scope.
Open Scope Z_scope.
Open Scope nat_scope.
Open Scope list_scope.
Open Scope kl_scope.

(** ** Markers written as the bits of their encoding *)

#[local] Instance change_eq_dec : EqDecision FileChange.
Proof. solve_decision. Defined.
#[local] Instance target_eq_dec : EqDecision FixTarget.
Proof. solve_decision. Defined.

#[local] Instance change_countable : Countable FileChange.
Proof.
  refine (inj_countable' (λ c, (fc_Path c, fc_Mode c, fc_BlobSHA c)) (λ '(a, b, c), mk_file_change a b c) _). by intros [].
Defined.
#[local] Instance target_countable : Countable FixTarget.
Proof.
  refine (inj_countable' (λ f, (ft_Location f, ft_VulnID f, ft_Package f, ft_Layers f, ft_LayersDigest f, ft_Entities f))
            (λ '(a, b, c, d, e, f), mk_fix_target a b c d e f) _). by intros [].
Defined.

Definition example_fields (m : PRMarker) :=
  ((mk_V m, mk_Kind m, mk_RepoID m, mk_BaseBranch m, mk_Path m, mk_Locations m),
   (mk_CurrentRef m, mk_CandidateTag m, mk_CandidateDigest m, mk_BaseSHA m, mk_HeadSHA m, mk_InputBlobSHA m),
   (mk_Changes m, mk_TargetKey m, mk_UpdateKey m, mk_AttemptKey m, mk_FixTargets m, mk_Affected m)).

Definition example_marker_of (x : _) : PRMarker :=
  let '((a, b, c, d, e, f), (g, h, i, j, k, l), (m, n, o, p, q, r)) := x in mk_marker a b c d e f g h i j k l m n o p q None r.

Fixpoint example_bits (p : positive) : string :=
  match p with xH => "" | xO p => String "0" (example_bits p) | xI p => String "1" (example_bits p) end.
Fixpoint example_unbits (s : string) : positive :=
  match s with "" => xH | String c s => if Ascii.eqb c "0" then xO (example_unbits s) else xI (example_unbits s) end.

Lemma example_unbits_bits p : example_unbits (example_bits p) = p.
Proof.
  induction p as [p IH|p IH|]; [change (xI (example_unbits (example_bits p)) = xI p)|change (xO (example_unbits (example_bits p)) = xO p)|done]; by rewrite IH.
Qed.

Lemma example_bits_line p : contains_byte "010" (example_bits p) = false.
Proof. unfold contains_byte. induction p as [p IH|p IH|]; cbn; [exact IH..|done]. Qed.

Definition example_decode (text : string) : option PRMarker :=
  match text with
  | String _ t => example_marker_of <$> decode (example_unbits (stake (slen t - 1) t))
  | "" => None
  end.

#[local] Instance example_json : MarkerJSON := {
  json_marker m := "{" +:+ example_bits (encode (example_fields m)) +:+ "}";
  json_supersede s := "{}";
  decode_marker text := match example_decode text with Some m => inl m | None => inr "no marker" end;
  decode_supersede text := None;
  json_fields text := match example_decode text with Some m => inl (if is_cons (mk_Affected m) then ["affected"] else []) | None => inr "no object" end
}.

Lemma example_decode_marker m :
  ∃ m', example_decode (json_marker m) = Some m' ∧ mk_Affected m' = mk_Affected m ∧ (mk_Lang m = None → m' = m).
Proof.
  cbn. unfold example_decode. change (String "{" "" +:+ ?t) with (String "{" t). cbn [append].
  rewrite slen_app. cbn [slen]. rewrite Nat.add_sub, stake_app, example_unbits_bits, decode_encode. cbn [fmap option_fmap option_map].
  eexists. split; [done|]. destruct m; cbn. split; [done|]. by intros ->.
Qed.

#[local] Instance example_json_laws : MarkerJSONLaws.
Proof.
  split.
  - intros m. eexists. split; [done|]. apply example_bits_line.
  - intros m Hl _. destruct (example_decode_marker m) as (m' & E & _ & Em). cbn [decode_marker example_json]. rewrite E. by rewrite Em.
  - intros m. destruct (example_decode_marker m) as (m' & E & Ea & _). cbn [json_fields example_json]. rewrite E, Ea. eexists. split; [done|].
    destruct (mk_Affected m); cbn; [by split; [intros ?%elem_of_nil|split; [intros ? ?%elem_of_nil|split; [intros ?%elem_of_nil|]]]|].
    split; [by intros [=]%list_elem_of_singleton|]. split; [by intros k ->%list_elem_of_singleton|]. split; [done|]. intros _. by left.
Qed.

(** A body with this program's marker after a line of text. *)
Definition example_sha (c : ascii) : string := Nat.iter 40 (String c) "".

Definition example_marker : PRMarker :=
  mk_marker markerV "" 7 "main" "deploy/compose.yml" ["services.web.image"] "registry.example/app:1.2.3" "1.2.4" "sha256:b"
    (example_sha "a") (example_sha "b") (example_sha "c") [mk_file_change "deploy/compose.yml" "100644" (example_sha "d")]
    "target" "update" "attempt" [] None [].

Lemma marker_recovered_witness :
  wellFormed example_marker = None ∧
  parsePRMarker ("Updates the image." +:+ newline +:+ encodeMarker example_marker) = inl example_marker.
Proof.
  split; [vm_compute; reflexivity|]. apply (marker_recovered "Updates the image." example_marker).
  - intros l Hl. exfalso. revert Hl. change (l ∉ markerLines "Updates the image."). vm_compute. intros Hl. inversion Hl.
  - reflexivity.
  - reflexivity.
  - vm_compute. reflexivity.
  - vm_compute. reflexivity.
Defined.

(** ** The world *)

(** The record file, the branches, and the number of requests sent. *)
Record exampleWorld := mk_example { ew_file : option PRStoreFile; ew_refs : gmap string string; ew_sent : nat }.

#[local] Instance example_kind_eq_dec : EqDecision ghKind.
Proof. solve_decision. Defined.

(** The running image, by its config digest, and its plan. *)
Definition example_digest : Digest := mk_digest DigestConfig "sha256" (example_hex "a").

Definition example_running_input : ImageInput :=
  let subject := mk_subject "registry.example/app:1.2.3" (mk_entity example_digest zero_platform) true in
  mk_input (example_image subject "3.0.1" [example_fixable]) example_conditions
    (mk_scan_target subject (mk_registry_ref "" zero_digest) SourceLocal) [] [].

Definition example_plan_items : list Item :=
  match example_plan [example_running_input] with Some (items, _) => items | None => [] end.

Definition example_state : ImageState :=
  default zero_target_state (it_Candidate (nth 0 example_plan_items (baseItem example_running_input "" []))).

Definition example_pull (p : NewPull) (sha : string) : PullRequest :=
  mk_pull 1 "open" false "https://github.example/o/r/pull/1" (np_Body p) (np_Head p) sha "o/r" (np_Base p) 7.

Definition example_send (q : request) (w : exampleWorld) : (answer q + ghKind) * exampleWorld :=
  let w := mk_example (ew_file w) (ew_refs w) (S (ew_sent w)) in
  match q with
  | CreateBlob _ _ => (inl "blob1", w)
  | CreateTree _ _ _ => (inl "tree1", w)
  | CreateCommit _ _ _ _ => (inl "commit1", w)
  | CreateRef _ b sha =>
      match ew_refs w !! b with
      | Some _ => (inr ErrRefExists, w)
      | None => (inl tt, mk_example (ew_file w) (<[b := sha]> (ew_refs w)) (ew_sent w))
      end
  | CreatePull _ p => (inl (example_pull p (default "" (ew_refs w !! np_Head p))), w)
  | ClosePull _ _ => (inl tt, w)
  | CreateIssueComment _ _ _ => (inl tt, w)
  end.

#[local] Instance example_github : GitHub exampleWorld ghKind := {
  Repository repo w := (inl (mk_repo_info 7 "o/r"), w);
  Commit repo sha w := (inl (mk_commit_info "tree0" []), w);
  Ref repo branch w := (inl (ew_refs w !! branch), w);
  ListPulls repo state head page w := (inl ([], false), w);
  Pull repo n w := (inr ErrNotFound, w);
  ListIssueComments repo n page w := (inl ([], false), w);
  ResolveBranch repo branch w := (inl "commit0", w);
  ReadFile repo sha path w := (inl (mk_file "blob0" "image: registry.example/app:1.2.3" ""), w);
  ResolveTop repo tag platform w := (inl (im_TopDigest example_state), w);
  send := example_send;
  ctx_Err w := (None, w);
  gh_is k e := bool_decide (k = e);
  gh_Error e := "refused";
  store_Error e := "the records cannot be used"
}.

#[local] Instance example_edits : ComposeEdits unit := {
  EditComposeImageTag content services current tag := inl ("image: registry.example/app:" +:+ tag, [tt]);
  buildPRBody i := inl (bi_Marker _ i)
}.

(** The kind of a key by its first field. *)
#[local] Instance example_hash : GoHash := {
  hashCanonical c := match c with CObj ((k, _) :: l) => k +:+ "-" +:+ signed_itoa (Z.of_nat (length l)) +:+ "-0123456789" | _ => "0123456789" end;
  gitBlobSHA s := "blob1"
}.

Definition example_files (locked : bool) : Files exampleWorld ghKind := mk_files
  (λ w, (inl (ew_file w), w))
  (λ f w, (None, mk_example (Some f) (ew_refs w) (ew_sent w)))
  (λ w, (if locked then Some Locked else None, w))
  (λ w, w).

(** Two containers of two services run the image. *)
Definition example_container (id service : string) : Container :=
  mk_container id id (mk_workload WorkloadCompose "shop" service)
    (mk_running "registry.example/app:1.2.3" example_digest (mk_registry_ref "" zero_digest) (mk_platform "linux" "amd64" ""))
    false None None.

Definition example_mapping (service : string) : ComposeMapping :=
  mk_mapping (service +:+ " of shop") "shop" service "o/r" "main" "deploy/compose.yml" service.

Definition example_cycle : PRStageInput :=
  mk_stage_input (mk_plan example_plan_items example_conditions) [example_container "c1" "web"; example_container "c2" "worker"]
    [example_mapping "web"; example_mapping "worker"] [].

Definition example_limits : PRLimits := mk_pr_limits 3 10.

Definition example_units : list composeUnit :=
  buildComposeUnits (si_Plan example_cycle) (si_Containers example_cycle) (si_Mappings example_cycle).

Definition example_unit : composeUnit :=
  nth 0 example_units (new_unit "" (example_mapping "") "" "").

Example example_unit_covers :
  length example_units = 1 ∧ cu_manual example_unit = false ∧ cu_services example_unit = ["web"; "worker"].
Proof. by vm_compute. Qed.

(** What was sent, by kind, and what the run reports. *)
Definition example_run (locked : bool) : PRStageResult * (list (act ghKind) * exampleWorld) :=
  Run (logged_store (PRStore (example_files locked) "dir")) example_limits 10 example_cycle ([], mk_example None ∅ 0).

Definition sent_kind (a : act ghKind) : option string := match a with Sent q _ => Some (kind_of_request q) | _ => None end.

Example example_run_result :
  (omap sent_kind (fst (snd (example_run false))), (λ v, (vu_Status v, vu_Number v)) <$> sr_Units (fst (example_run false))) =
  (["create_blob"; "create_tree"; "create_commit"; "create_ref"; "create_pull"], [(PRStatusCreated, 1%Z)]).
Proof. vm_compute. reflexivity. Qed.

Lemma unit_covers_all_witness :
  ∃ c m, c ∈ si_Containers example_cycle ∧ mp_ComposeService m = "worker" ∧ mp_ComposeService m ∈ cu_services example_unit ∧
  ∃ i it, i ∈ cu_items example_unit ∧ i ∈ default [] (cu_svcItems example_unit !! mp_ComposeService m) ∧
    pl_Items (si_Plan example_cycle) !! i = Some it ∧ it_Key it = item_key c ∧ proposes it (cu_candidate example_unit).
Proof.
  exists (example_container "c2" "worker"), (example_mapping "worker"). split; [by right; left|]. split; [reflexivity|].
  apply (unit_covers_all (si_Plan example_cycle) (si_Containers example_cycle) (si_Mappings example_cycle)).
  - change (example_unit ∈ example_units). unfold example_unit.
    assert (El : length example_units = 1) by (vm_compute; reflexivity).
    destruct example_units as [|u l]; [discriminate|by left].
  - vm_compute. reflexivity.
  - by right; left.
  - split; [vm_compute; reflexivity|vm_compute; reflexivity].
Defined.

(** The errors of the client are apart. *)
Lemma example_apart : exists_apart (H := example_github).
Proof. intros e. destruct e; vm_compute; congruence. Qed.

Definition example_history : list (act ghKind) := history (example_files false) "dir" example_limits 10 example_cycle (mk_example None ∅ 0).

Lemma Run_writes_recorded_witness :
  length (omap sent_kind example_history) = 5 ∧ recorded gh_is (run_units example_cycle) example_history.
Proof.
  split; [vm_compute; reflexivity|].
  exact (Run_writes_recorded (example_files false) "dir" example_limits 10 example_cycle (mk_example None ∅ 0) example_apart).
Defined.

Lemma Run_opens_within_limit_witness :
  opened_count example_history = 1%Z ∧ (opened_count example_history ≤ ql_NewPRsPerCycle example_limits)%Z.
Proof.
  split; [vm_compute; reflexivity|].
  refine (Run_opens_within_limit (example_files false) "dir" example_limits 10 example_cycle (mk_example None ∅ 0) example_apart _).
  vm_compute. reflexivity.
Defined.

(** The file of a save. *)
Definition saved_file (a : act ghKind) : option PRStoreFile := match a with Saved f true => Some f | _ => None end.

Lemma Run_saves_sequenced_witness :
  ∃ f, Saved f true ∈ example_history ∧ length (fl_Operations f) = 10 ∧
    (sequenced f ∨ ∃ op, op ∈ fl_Operations f ∧ (2 ^ 63 - 1 ≤ ev_Seq op)%Z) ∧
    (true = true → let g := f <| fl_Version := PRStoreVersion |> in
       ∀ v v', fs_read (example_files false) v = (inl (Some g), v') →
         Load (PRStore (example_files false) "dir") v = (inl (Some g), v')).
Proof.
  assert (Hf : ∃ f, list.last (omap saved_file example_history) = Some f ∧ length (fl_Operations f) = 10).
  { assert (E : match list.last (omap saved_file example_history) with Some f => length (fl_Operations f) =? 10 | None => false end = true)
      by (vm_compute; reflexivity).
    destruct (list.last (omap saved_file example_history)) as [f|]; [|discriminate]. exists f. split; [reflexivity|]. by apply Nat.eqb_eq. }
  destruct Hf as (f & Hl & Hn). exists f.
  assert (Hin : Saved f true ∈ example_history).
  { apply list.last_Some_elem_of, list_elem_of_omap in Hl as (a & Ha & E). destruct a as [| | | | | | | | |g ok|]; try discriminate.
    destruct ok; [|discriminate]. cbn in E. by injection E as ->. }
  split; [exact Hin|]. split; [exact Hn|].
  exact (Run_saves_sequenced (example_files false) "dir" example_limits 10 example_cycle (mk_example None ∅ 0) f true example_apart Hin).
Defined.

(** The same unit once three pull requests were opened. *)
Definition example_held : prRun * (list (act ghKind) * exampleWorld) :=
  (mk_pr_run empty_store [mk_repo_state "o/r" (mk_repo_info 7 "o/r") true "" "" ∅ ∅ true] {["o/r" := 0]} None None [] 3 zero_view,
   ([], mk_example None ∅ 0)).

Lemma held_unit_sends_nothing_witness :
  cu_manual example_unit = false ∧ writable (repo (unit_index example_unit example_held) example_held) = true ∧
  sends_nothing (processUnit (logged_store (PRStore (example_files false) "dir")) example_limits 10 (si_Plan example_cycle) example_unit) example_held.
Proof.
  split; [vm_compute; reflexivity|]. split; [vm_compute; reflexivity|].
  refine (held_unit_sends_nothing (example_files false) "dir" example_limits 10 (si_Plan example_cycle) example_unit example_held _).
  apply held_limit. vm_compute. discriminate.
Defined.

Lemma no_records_no_work_witness :
  let '(res, (h, w')) := example_run true in
  h = [] ∧ w' = untouched (example_files true) "dir" (mk_example None ∅ 0) ∧
  Forall2 not_tried (run_units example_cycle) (sr_Units res) ∧ sr_Operations res = [] ∧ sr_LastSeq res = 0%Z.
Proof.
  unfold example_run. apply (no_records_no_work (example_files true) "dir" example_limits 10 example_cycle (mk_example None ∅ 0)).
  left. by eexists.
Defined.
